(* ===== verification/_CoqProject ===== *)
-Q . S2P
Prelude.v
RustStr.v
F64.v
Json.v
Errors.v
Identity.v
QueueState.v
QueueFacts.v
OrderLayout.v
MapDefinition.v
Formula.v
FormulaFacts.v
Compiler.v
GraphFacts.v
CompilerFacts.v
Runner.v
RunnerFacts.v
Bfs.v
Chain.v
ChainFacts.v
Projection.v
SequenceMove.v
SequenceFacts.v
Scheduler.v
SchedulerFacts.v
Progress.v
ProgressFacts.v
WipRoute.v
WipRouteFacts.v
Lifecycle.v
StageExecution.v
StageFacts.v
OrderRefresh.v
OrderStore.v
OrderStoreFacts.v
Visibility.v
Preflight.v
PreflightFacts.v
QueueMoves.v
QueueMovesFacts.v
Epc.v
Receipts.v
ReceiptFacts.v
CutLayout.v
Paddon.v
PaddonFacts.v
Metrics.v
Lineage.v
LineageFacts.v
RunStore.v
MutationGuard.v
MutationGuardFacts.v
Warehouse.v
WarehouseFacts.v
QueueCommit.v
QueueCommitFacts.v
Materials.v
MaterialsFacts.v
Ids.v
OpeningWip.v
OpeningWipFacts.v
Pechat.v
Automatic.v
AutomaticFacts.v
Transfer.v
TransferFacts.v
MapSave.v
MapSaveFacts.v
OrderControl.v
OrderControlFacts.v
QueueExecution.v
QueueExecutionFacts.v
Samples.v
Witnesses.v
CodecSamples.v
FlowWitnesses.v
InputWitnesses.v
CommitWitnesses.v
MaterialWitnesses.v
PlanningWitnesses.v
