(* ===== verification/Prelude.v ===== *)
(** * Verification of the production core of mini_rs_erp

    mini_rs_erp is the server of a packaging plant.  Its core,
    [src/core/production_map], keeps production maps (graphs of machines,
    tasks, formulas and conditions an order walks through), compiles and runs
    them, derives the chain of physical work stages, keeps one queue of orders
    per apparatus, books machine time, and follows the rolls of an order from
    machine to machine until its production is complete.  A second crate,
    [crates/mini_rs_gscale_domain], prints the labels of material receipts.
    This library translates these parts into executable definitions and proves
    what makes them correct.

    Paths below are relative to the repository.

    ** The parts and how they interact

    - A map is written by a planner, normalized, validated and compiled
      ([compiler/]); formulas and conditions are checked and evaluated by a
      recursive-descent parser on IEEE binary64 numbers.  A compiled map is run
      for an order quantity and yields task drafts.
    - [chain/] reads the same graph: which stages are reachable, which
      physical stage precedes or follows which, whether an order is ready for
      a station.  Read models ask through a projection with caches.
    - Each apparatus has a queue ([queue/]): a stored sequence of orders, a
      state per order and a discipline (strict or free pick).  Workers apply
      actions, the server offers only some of them, and planners move orders
      under an optimistic version check ([sequence_move.rs]) without overtaking
      active work.
    - [capacity/] books orders on apparatuses: working windows, downtimes,
      finite capacity, idempotent requests; starting work asks it whether the
      apparatus is free.
    - Finished work leaves rolls ([progress_session/]): a batch record with its
      WIP status, who holds it and where it goes.  [wip_route.rs] resolves the
      next occurrence of a roll on the map, through the projection's route
      cache, and protects outstanding rolls from map edits.
    - [stage_execution.rs] closes the operations of an order from sessions,
      reports, rolls and events; [closed_orders.rs] derives the life cycle of the
      order from queue states and events; every queue write makes the store
      ([memory_store/queue.rs]) refresh the persisted record.
    - A run of work mounts scanned rolls, splices in further ones and reports
      outputs; its payload keeps the lineage of its inputs ([progress.rs],
      [service_progress.rs]), its reports are checked ([service_progress_metrics.rs]),
      and a cutter divides the lanes of the order among its outputs ([layout.rs]).
    - The write of a queue action is committed as a whole
      ([memory_store.rs]): checked against the store, then written table by table.
      A storekeeper receives the last rolls into stock ([wip/warehouse.rs]);
      packers gather rolls on pallets ([paddon/]).
    - Raw materials are assigned to an order on a machine and must be scanned when
      work starts there ([materials/]); rolls made before the order was worked in
      the system are registered by an intake ([service_opening_wip.rs]).
    - An order moves from one machine to another of the same kind, also in the middle
      of its run ([transfer/]); a printing machine takes it over only when it can
      print it ([pechat/]).
    - The route of an order is generated from its template ([automatic.rs]).  A saved map
      is checked and settled first, may not touch stages where work happened, and moves
      with its order between queues ([catalog/service.rs], [catalog/alternatives.rs]).
    - An order is held as a whole or at one occurrence, closed early, released back to its
      queues, or deleted while nothing was done for it ([order_control/]).
    - A printed label carries a generated EPC ([epc.rs]).  The receipt of the
      material is recorded when the client confirms the label, after the driver
      printed it, or by a task that runs beside the driver call
      ([service/print.rs], [service/recording.rs]).

    ** Files

    - [Prelude]: the result monad ([?] is bind, a guarded return is [check], a
      loop with early return is [for_each]), the tactics [break], [breflect] and
      [inv_ok] ([inv_run] in [Errors]), the hint database [mes], [BTreeMap]/[BTreeSet] iteration order
      over stdpp's [gmap] and [gset], positions and insertion in vectors,
      record update.
    - [RustStr]: Rust strings as byte strings: [trim] with UTF-8 decoding and
      Unicode white space, ASCII case, splitting, decimal printing.
    - [F64]: binary64 numbers (Stdlib's [SpecFloat]), their comparisons,
      decimal scanning, and the machine integer bounds.
    - [Errors]: [errors.rs]; a [fault] is an error of the code or a panic.
    - [Identity]: [crates/mini_rs_apparatus_contract/src/identity.rs] and
      [queue/apparatus_identity.rs].
    - [QueueState], [QueueFacts]: [queue/state.rs], [actions.rs],
      [sequence.rs], [policy.rs] and the pure part of [support.rs].  The class
      [QueueDiscipline] is the interface between a queue and its clients.
    - [OrderLayout]: [src/core/order_layout.rs].
    - [MapDefinition]: [catalog/definition.rs].
    - [Formula], [FormulaFacts]: [compiler/formula_parser.rs], [formula.rs].
    - [Compiler], [GraphFacts], [CompilerFacts]: [compiler/normalize.rs],
      [validation.rs], [graph.rs], [operation.rs], [mod.rs].
    - [Runner], [RunnerFacts]: [compiler/runner.rs].
    - [Bfs], [Chain], [ChainFacts]: [chain/mod.rs] and [chain/adjacent.rs]; the
      four breadth-first searches of the code share the loop [bfs].
    - [Json]: the operations of [serde_json::Value] the code uses, as a class
      with laws, and a concrete instance.
    - [Projection]: [chain/projection.rs] but its route cache.
    - [SequenceMove], [SequenceFacts]: [sequence_move.rs] with
      [nearest_allowed_sequence] and [validate_active_sequence_barrier].
    - [Scheduler], [SchedulerFacts]: [capacity/].
    - [Progress], [ProgressFacts]: statuses, records and WIP transitions of
      [progress_session/] and [opening_wip.rs].
    - [WipRoute], [WipRouteFacts]: [wip_route.rs] and the route cache of
      [chain/projection.rs], as programs of a state monad over the caches.
    - [Lifecycle]: [types/lifecycle.rs] and
      [closed_orders.rs].
    - [StageExecution], [StageFacts]: [stage_execution.rs] and
      [stage_execution/inputs.rs].
    - [OrderRefresh]: [memory_store/queue.rs].
    - [OrderStore], [OrderStoreFacts]: [catalog/memory_store.rs] and
      [put_order_control_state] of [memory_store.rs]; [order_step] is one write.
    - [Visibility]: [queue/apparatus.rs] (which orders a queue
      shows), the sequence updates of frozen orders of [queue/support.rs].
    - [Preflight], [PreflightFacts]: [print_preflight.rs] (colour trials), their
      holds in [memory_store_trait_impl.rs], and the effective control of an order
      ([order_control/scoped.rs]).
    - [QueueMoves], [QueueMovesFacts]: moves with receipts
      ([memory_store_trait_impl.rs], [sequence_move.rs]) and the full lists of old
      clients ([queue/service.rs]).
    - [MutationGuard], [MutationGuardFacts]: [service_mutation_guard.rs] and the
      guards of [service.rs], as tasks that interleave at their awaits.
    - [Epc], [Receipts], [ReceiptFacts]: the generator, the print jobs
      and the receipts of [crates/mini_rs_gscale_domain], with the quantities of
      [crates/mini_rs_domain_types].  The driver-first flow is a step relation
      over the request handler, the one-shot channel and the recording task.
    - [CutLayout]: [layout.rs].
    - [Paddon], [PaddonFacts]: [paddon/] and the pallets of the memory store;
      [paddon_step] is one request.
    - [Metrics]: [service_progress_metrics.rs] and the inputs of a report
      ([progress.rs]).
    - [Lineage], [LineageFacts]: input links, partial rolls, moulds and the payload of
      a run ([progress.rs], [service_progress_support.rs], [service_progress.rs],
      [scanned_wip.rs]); [lineage_step] is one action of a worker.
    - [RunStore]: [progress_session/runs.rs] and
      [runs/persistence.rs]; [run_store] has all tables of the memory store the
      model uses.
    - [Warehouse], [WarehouseFacts]: [wip/warehouse.rs],
      [memory_store/warehouse_wip.rs], the finished goods of [queue/support.rs].  A
      request reads one store and commits against another, since other servers write
      in between.
    - [QueueCommit], [QueueCommitFacts]: the commit of a queue action
      ([memory_store.rs], [memory_store/temporary_pause.rs], [store_port.rs]) as a
      sequence of actions on the store, with triples over success and failure.
    - [Materials], [MaterialsFacts]: [materials/]; [material_store] adds the table of
      assignments to [run_store], [material_step] is one request.
    - [Ids]: [progress_session/ids.rs], identifiers and the codes on labels.
    - [OpeningWip], [OpeningWipFacts]: [service_opening_wip.rs] and the opening rolls
      of [memory_store.rs]; [opening_step] is one request or one queue action.
    - [Pechat]: [pechat/implementation.rs], the limits of printing
      machines and which orders may move between two of them.
    - [Transfer], [TransferFacts]: [transfer/] and [memory_store/transfers.rs].  A
      transfer is planned on one store and committed against another.
    - [Automatic], [AutomaticFacts]: [automatic.rs], the generated route and the widths
      of its stages.
    - [MapSave], [MapSaveFacts]: [catalog/alternatives.rs] and the saving and moving of
      maps in [catalog/service.rs].
    - [OrderControl], [OrderControlFacts]: [order_control/service.rs], [scoped.rs] and the
      events of [queue/support.rs].  A request writes more than once, so it is a program
      over the store that keeps what was written when it fails; it reads the store
      again after each write, as the code does.
    - [QueueExecution], [QueueExecutionFacts]: the action at a queue ([queue/execution.rs])
      from its hold to the states it stores, the rolls a start may take
      ([service_progress.rs]) and the material check in front of it
      ([materials/implementation.rs]); [queue_step] is one change of the queue of a machine.
    - [Samples], [Witnesses], [CodecSamples], [FlowWitnesses],
      [InputWitnesses], [CommitWitnesses], [MaterialWitnesses], [PlanningWitnesses]:
      concrete maps, queues, plants, rolls, codecs and stores; the general theorems
      applied to them, and behaviours of the code that the general theorems exclude.

    ** What the theorems show

    - Queue: an action changes the state of its order exactly by declared rules;
      along every history at most one order of a machine is active, but for
      requeued work resumed beside an active order, and at most one is in progress
      on a machine with one slot; strict queues start the
      next order and never deadlock; the effective sequence lists every
      eligible order once; offered actions execute; states survive storage.
    - Moves: the prefix-maximum barrier check is equivalent to its
      specification; the nearest slot is the nearest allowed one; a successful
      move moves only its order and its delta reproduces it on clients.
      A move is committed once whatever happens between its retries, is read back
      as answered, and the list of an old client is never refused as stale.
    - Locks: scoped guards exclude each other on every shared resource and the
      exclusive guard excludes all; tasks never deadlock, cancellations included.
    - Colour trials: one live trial per apparatus, one step of the state machine
      per revision, retries change nothing, a failed trial restores the queues.
    - Frozen orders leave every queue and return at its end.
    - Holds: a stopped order is held for every machine, closing it again with the same
      comment changes nothing; a released order waits on every machine where no hold of
      its own keeps it, and stays held until all its queues are restored; only an order
      nothing was done for is deleted, and nothing else with it.
    - Compiler and runner: a valid map compiles exactly when acyclic, to a
      topological order; validation gives well-formedness; no [expect] fires; a
      run is a simple walk with one task per visited work node, fails on data
      only, and resumes where it awaited a variable.
    - Formulas: parser and evaluator are total; accepted formulas fail on data
      only.
    - Chain: reachability and work stages are exact; next and previous stages
      are converse; cached projections refine the chain functions, routes and
      fingerprints included, and their caches are bounded.
    - Rolls: every WIP transition keeps a roll's record well formed and cannot
      panic; a resolved route is sound; a map edit is accepted exactly when it
      keeps the routes of outstanding rolls.
    - Stages and orders: the closure of operations is a least fixed point; a
      closed operation has no open session, report or roll; snapshots do not
      depend on caches; stamped reports are read back; production is complete
      exactly when every operation is; the persisted life cycle never regresses
      and follows the evidence.
    - Inputs: the lineage a run keeps is always one the store accepts, and an
      output names the rolls it was made of; a cut divides the lanes of its input.
    - Commits: a mould is held by one open run, a roll in use stays with its
      session, and a temporary pause is committed once, whatever the outcome.
    - Stock: a receipt stores what was confirmed or nothing, and a roll is received
      once.  Pallets: the tables stay consistent, a closed pallet has one successor, only
      allowed actors unlock, totals are exact.
    - Materials: the search that matches scans to the slots of a rule finds a maximum
      matching, the material check of an action passes exactly when its scans, or a waiting
      roll taken by a laminator, are what the machine needs,
      and a barcode is assigned once.
    - Opening rolls: a request registers its rolls once, an intake is cancelled exactly
      with its last roll, rolls that are over stay so, and the codes of an intake of at
      most nine rolls are different.
    - Transfers: the order leaves the source queue and waits in the target queue, a
      takeover adds at most a copy of the source with its edges, a request is committed once, and the
      moulds of a run stay with one machine.
    - Plans: a generated map compiles, the lanes or frames of a laminated order are cut
      into the fewest strips, and the widths at a stage are those of the ways to it.
    - Saved maps: interchangeable machines become one group and nothing else changes, a
      saved map passes its own checks unchanged, stages that were worked on and the ways
      into them stay, and a moved order joins the end of its new queue.
    - Order tables: along every run of writes an early closure is permanent, a
      closed order stays cancelled, and order numbers stay unique.
    - Labels: EPC codes are distinct while the clock does not step back;
      accepted jobs are in bounds; confirming twice records once; in every
      interleaving a receipt is submitted only for a printed label, and the flow
      ends within four steps.
    - Capacity: the slot search finds the earliest feasible minute; bookings
      take the best slot of all candidates; retries are idempotent; the reservation table is
      never overbooked; the start-of-work check is exact.

    ** Fuel and bounds

    - The formula parser runs on [parse_fuel], four calls per byte of input;
      [formula_parser_total] shows that this is enough for every input.
    - Kahn's loop and the runner have one unit of fuel per node: a node is
      popped or visited once.  A breadth-first search has
      (nodes + 1) * (edges + 1) units ([bfs_fuel]): every visited node pushes at
      most all edges.  The slot search has one unit per minute of its horizon.
      The stage closure makes one pass per operation, as the code does.  The search for
      a matching is as deep as there are slots, since each call visits a slot.  A fresh
      node name is searched with one try more than the map has nodes, a fresh group name
      with one more than there are groups.  The search for the widths at a stage takes
      every edge at most twice.  Each is proved sufficient.
    - [i64], [u32] and [usize] values are [Z] or [nat]; where the code can
      overflow the operation is checked ([add64], [i64_checked]) and overflow is
      a panic.

    ** Parameters

    Code outside the repository is a parameter: the calendar of the [time] crate
    ([Clock], with [ClockLaws]), the SHA-256 version of a queue
    ([VersionHash]), the Unicode alphanumeric tables ([UnicodeTables]), the
    apparatus resolver ([resolver]), [serde_json] values ([Json], with
    [JsonLaws]), the serialization of route classes and the digest of a map
    ([RouteCodec], with [RouteCodecLaws]: serialization is lossless), the
    encoding of work reports ([ReportCodec], with [ReportCodecLaws]) and of other
    records ([Serde], with [SerdeLaws]), the digest of a warehouse snapshot
    ([snapshot_token]), the text of an intake request ([opening_wip_fingerprint]), the
    Unicode case tables ([UnicodeCase]), the width, weight and length a formula gives an
    order (arguments of [plan_map]), the receipt
    store ([ReceiptPort], with [ReceiptPortLaws]) and the scale driver
    ([scale_driver]).

    ** Not modelled

    Notifications, HTTP and PostgreSQL are outside the model; the memory store
    states the same contract as the database.  The memory store keeps no rolls on
    pallets, so the operations on them are not modelled.

    The asynchronous services that read the store, build a JSON payload and call the
    modelled functions are not modelled as a whole: the records the queue execution
    service builds after the new state of an order is known ([queue/execution.rs]; whether a
    finished order still has rolls to process is an argument), the recording and correction of progress ([progress_session/service_completion.rs],
    [service_progress_correction.rs]) and the service of temporary pauses
    ([temporary_pause.rs]).  What they read, decide with and commit is: queue states,
    controls, lineage, metrics and the commit of a queue action.  Reports of layer
    remainders ([layer_remainder.rs], [astatka/]) are queries over database records, and
    the calculation of an order ([core/formula]) is arithmetic on material tables that
    the modelled parts take as numbers. *)
From stdpp Require Export base list list_monad gmap strings sorting fin_maps.
From Stdlib Require Export ZArith Lia.

(** * Results *)

(** Rust's [Result<A, E>], with the error type first so that [result E] is a
    monad and stdpp's [x ← m; k] is the [?] operator. *)
Inductive result (E A : Type) : Type :=
  | Ok (a : A)
  | Err (e : E).
Arguments Ok {E A} a.
Arguments Err {E A} e.

Global Instance result_ret E : MRet (result E) := fun A a => Ok a.
Global Instance result_bind E : MBind (result E) := fun A B f r =>
  match r with Ok a => f a | Err e => Err e end.
Global Instance result_fmap E : FMap (result E) := fun A B f r =>
  match r with Ok a => Ok (f a) | Err e => Err e end.

Definition is_ok {E A} (r : result E A) : bool :=
  match r with Ok _ => true | Err _ => false end.

(** [Option::ok_or]. *)
Definition ok_or {E A} (o : option A) (e : E) : result E A :=
  match o with Some a => Ok a | None => Err e end.

(** [Result::ok]. *)
Definition ok {E A} (r : result E A) : option A :=
  match r with Ok a => Some a | Err _ => None end.

(** An early [return Err(e)] guarded by a condition. *)
Definition check {E} (bad : bool) (e : E) : result E unit :=
  if bad then Err e else Ok tt.

(** A [for] loop over a collection whose body may return early with an
    error; the loop state is threaded explicitly. *)
Fixpoint for_each {E A S} (body : A → S → result E S) (l : list A) (s : S)
  : result E S :=
  match l with
  | [] => Ok s
  | x :: l' => s' ← body x s; for_each body l' s'
  end.

Definition is_some {A} (o : option A) : bool :=
  match o with Some _ => true | None => false end.
Definition is_none {A} (o : option A) : bool := negb (is_some o).

(** [Option::is_some_and]. *)
Definition is_some_and {A} (o : option A) (f : A → bool) : bool :=
  match o with Some a => f a | None => false end.

(** * Scope and tactics *)

Declare Scope mes_scope.
Delimit Scope mes_scope with mes.

(** String equality as the code's [==]. *)
Notation "a =s b" := (String.eqb a b) (at level 70) : mes_scope.
Notation "a <>s b" := (negb (String.eqb a b)) (at level 70) : mes_scope.
Open Scope mes_scope.

(** Case split on the next [match]/[if] of the goal or a hypothesis,
    keeping the equation, and clean up. *)
Ltac break1 :=
  match goal with
  | H : context [match ?x with _ => _ end] |- _ =>
      lazymatch x with context [match _ with _ => _ end] => fail
      | _ => destruct x eqn:?; simplify_eq/= end
  | |- context [match ?x with _ => _ end] =>
      lazymatch x with context [match _ with _ => _ end] => fail
      | _ => destruct x eqn:?; simplify_eq/= end
  end.
Ltac break := repeat break1.

(** Turn boolean tests of the code into propositions. *)
Ltac breflect :=
  repeat match goal with
  | H : _ && _ = true |- _ => apply andb_true_iff in H as [? ?]
  | H : _ || _ = false |- _ => apply orb_false_iff in H as [? ?]
  | H : negb _ = true |- _ => apply negb_true_iff in H
  | H : negb _ = false |- _ => apply negb_false_iff in H
  | H : String.eqb _ _ = true |- _ => apply String.eqb_eq in H
  | H : String.eqb _ _ = false |- _ => apply String.eqb_neq in H
  | H : Z.ltb _ _ = true |- _ => apply Z.ltb_lt in H
  | H : Z.ltb _ _ = false |- _ => apply Z.ltb_ge in H
  | H : Z.leb _ _ = true |- _ => apply Z.leb_le in H
  | H : Z.leb _ _ = false |- _ => apply Z.leb_gt in H
  | H : Z.eqb _ _ = true |- _ => apply Z.eqb_eq in H
  | H : Z.eqb _ _ = false |- _ => apply Z.eqb_neq in H
  | H : Nat.eqb _ _ = true |- _ => apply Nat.eqb_eq in H
  | H : Nat.eqb _ _ = false |- _ => apply Nat.eqb_neq in H
  | H : existsb _ _ = true |- _ => apply existsb_exists in H as (? & ? & ?)
  end.

(** An equation between closed terms, evaluated by the virtual machine without
    writing out the values. *)
Ltac vm_refl :=
  lazymatch goal with
  | |- ?a = ?b =>
      tryif has_evar (a = b) then by vm_compute else vm_cast_no_check (@eq_refl _ b)
  | |- _ => by vm_compute
  end.

(** The automation database of the development. *)
Create HintDb mes.
Create Rewrite HintDb mes.

(** * Results: the laws the proofs use *)

Lemma bind_Ok {E A B} (m : result E A) (f : A → result E B) b :
  (x ← m; f x) = Ok b ↔ ∃ a, m = Ok a ∧ f a = Ok b.
Proof. destruct m; naive_solver. Qed.

Lemma bind_Err {E A B} (m : result E A) (f : A → result E B) e :
  (x ← m; f x) = Err e ↔ m = Err e ∨ ∃ a, m = Ok a ∧ f a = Err e.
Proof. destruct m; naive_solver. Qed.

Lemma check_Ok {E} b (e : E) u : check b e = Ok u ↔ b = false.
Proof. destruct u, b; naive_solver. Qed.

Lemma check_Err {E} b (e e' : E) : check b e = Err e' ↔ b = true ∧ e' = e.
Proof. destruct b; naive_solver. Qed.

(** A loop of checks. *)
Lemma for_each_checks {E A} (f : A → unit → result E unit) l :
  for_each f l tt = Ok tt ↔ ∀ x, x ∈ l → f x tt = Ok tt.
Proof.
  induction l as [|x l IH]; simpl; [set_solver|].
  split.
  - intros ([] & H1 & H2)%bind_Ok y [->|?]%elem_of_cons; [done|]. by apply IH.
  - intros Hf. rewrite (Hf x) by set_solver. simpl. apply IH. set_solver.
Qed.

Lemma ok_or_Ok {E A} (o : option A) (e : E) a : ok_or o e = Ok a ↔ o = Some a.
Proof. destruct o; naive_solver. Qed.

Lemma for_each_app {E A S} (body : A → S → result E S) l1 l2 s :
  for_each body (l1 ++ l2) s = (s' ← for_each body l1 s; for_each body l2 s').
Proof.
  revert s. induction l1 as [|x l1 IH]; intros s; [done|]. simpl.
  destruct (body x s); simpl; auto.
Qed.

(** Loop invariants: what the body preserves on [Ok] holds at the end. *)
Lemma for_each_inv {E A S} (body : A → S → result E S) (P : S → Prop) l s s' :
  (∀ x t t', x ∈ l → P t → body x t = Ok t' → P t') →
  P s → for_each body l s = Ok s' → P s'.
Proof.
  revert s. induction l as [|x l IH]; intros s Hb Hs; simpl; [congruence|].
  intros (t & Ht & Hl)%bind_Ok.
  eapply (IH t); [|by eapply (Hb x s); set_solver|done].
  intros y u u' Hy. apply Hb. set_solver.
Qed.

(** Inversion of a monadic computation that returned [Ok]. *)
Ltac inv_ok :=
  repeat match goal with
  | H : mbind _ _ = Ok _ |- _ => apply bind_Ok in H as (? & ? & ?)
  | H : check _ _ = Ok _ |- _ => apply check_Ok in H
  | H : Ok _ = Ok _ |- _ => injection H as H
  | H : Err _ = Ok _ |- _ => discriminate H
  | u : unit |- _ => destruct u
  end; subst.

(** * Lists *)

Lemma existsb_false {A} (f : A → bool) l :
  existsb f l = false ↔ ∀ x, x ∈ l → f x = false.
Proof.
  rewrite <-not_true_iff_false, existsb_exists. setoid_rewrite <-list_elem_of_In.
  split.
  - intros H x Hx. destruct (f x) eqn:E; [|done]. exfalso. eauto.
  - intros H (x & Hx & E). rewrite H in E; done.
Qed.

Lemma existsb_elem {A} (f : A → bool) l :
  existsb f l = true ↔ ∃ x, x ∈ l ∧ f x = true.
Proof. rewrite existsb_exists. by setoid_rewrite <-list_elem_of_In. Qed.

Lemma forallb_elem {A} (f : A → bool) l :
  forallb f l = true ↔ ∀ x, x ∈ l → f x = true.
Proof. rewrite forallb_forall. by setoid_rewrite <-list_elem_of_In. Qed.

Lemma find_elem {A} (f : A → bool) l x :
  List.find f l = Some x → x ∈ l ∧ f x = true.
Proof. intros [? ?]%find_some. by rewrite list_elem_of_In. Qed.

Lemma find_none_elem {A} (f : A → bool) l :
  List.find f l = None ↔ ∀ x, x ∈ l → f x = false.
Proof.
  split; [intros H x Hx; eapply find_none; [done|by apply list_elem_of_In]|].
  induction l as [|y l IH]; intros H; simpl; [done|].
  rewrite (H y); [|set_solver]. apply IH. set_solver.
Qed.

Lemma existsb_find {A} (f : A → bool) l : existsb f l = true → ∃ x, List.find f l = Some x.
Proof. induction l as [|y l IH]; simpl; [done|]. destruct (f y); eauto. Qed.

Lemma filterb_elem {A} (f : A → bool) l x :
  x ∈ List.filter f l ↔ x ∈ l ∧ f x = true.
Proof. by rewrite !list_elem_of_In, filter_In. Qed.

Lemma filterb_NoDup {A} (f : A → bool) l : NoDup l → NoDup (List.filter f l).
Proof.
  induction 1 as [|x l Hx Hl IH]; simpl; [constructor|].
  destruct (f x); [|done]. constructor; [|done]. by rewrite filterb_elem; intros [??].
Qed.

Lemma filterb_perm {A} (f : A → bool) l k : l ≡ₚ k → List.filter f l ≡ₚ List.filter f k.
Proof.
  induction 1 as [|x l k _ IH|x y l|l k m _ IH1 _ IH2]; simpl.
  - done.
  - destruct (f x); [by constructor|done].
  - destruct (f x), (f y); try done. constructor.
  - by etrans.
Qed.

Lemma filterb_sublist {A} (f : A → bool) l : List.filter f l `sublist_of` l.
Proof.
  induction l as [|x l IH]; simpl; [constructor|].
  destruct (f x); [by apply sublist_skip|by apply sublist_cons].
Qed.

(** [Vec::dedup]-by-set: keep the first occurrence of each element, the way
    the code does with [seen.insert(x)]. *)
Fixpoint dedup_seen (seen : gset string) (l : list string) : list string :=
  match l with
  | [] => []
  | x :: l' =>
      if decide (x ∈ seen) then dedup_seen seen l'
      else x :: dedup_seen ({[x]} ∪ seen) l'
  end.

Lemma elem_of_dedup_seen seen l x : x ∈ dedup_seen seen l ↔ x ∈ l ∧ x ∉ seen.
Proof.
  revert seen. induction l as [|y l IH]; intros seen; simpl; [set_solver|].
  case_decide; [rewrite IH; set_solver|].
  rewrite elem_of_cons, IH. destruct (decide (x = y)); set_solver.
Qed.

Lemma NoDup_dedup_seen seen l : NoDup (dedup_seen seen l).
Proof.
  revert seen. induction l as [|y l IH]; intros seen; simpl; [constructor|].
  case_decide; [done|]. constructor; [|done]. rewrite elem_of_dedup_seen. set_solver.
Qed.

Lemma dedup_seen_sublist seen l : dedup_seen seen l `sublist_of` l.
Proof.
  revert seen. induction l as [|y l IH]; intros seen; simpl; [done|].
  case_decide; [by apply sublist_cons|by apply sublist_skip].
Qed.

(** Keys of a [BTreeMap]/[BTreeSet] in iteration order. *)
Definition sorted_strings (l : list string) : list string := merge_sort String.le l.

Definition btree_keys {A} (m : gmap string A) : list string :=
  sorted_strings (map_to_list m).*1.

Lemma sorted_strings_perm l : sorted_strings l ≡ₚ l.
Proof. apply merge_sort_Permutation. Qed.

Lemma sorted_strings_sorted l : Sorted String.le (sorted_strings l).
Proof. apply Sorted_merge_sort, _. Qed.

Lemma elem_of_btree_keys {A} (m : gmap string A) k :
  k ∈ btree_keys m ↔ is_Some (m !! k).
Proof.
  unfold btree_keys. rewrite sorted_strings_perm, list_elem_of_fmap.
  split.
  - intros ([k' v] & -> & ?%elem_of_map_to_list). simpl. eauto.
  - intros [v Hv]. exists (k, v). by rewrite elem_of_map_to_list.
Qed.

Lemma NoDup_btree_keys {A} (m : gmap string A) : NoDup (btree_keys m).
Proof. unfold btree_keys. rewrite sorted_strings_perm. apply NoDup_fst_map_to_list. Qed.

#[export] Hint Resolve NoDup_btree_keys NoDup_dedup_seen : mes.

(** [BTreeMap::iter] and [BTreeMap::values]: in key order. *)
Definition btree_entries {A} (m : gmap string A) : list (string * A) :=
  omap (λ k, pair k <$> m !! k) (btree_keys m).
Definition btree_values {A} (m : gmap string A) : list A := (btree_entries m).*2.

Lemma elem_of_btree_entries {A} (m : gmap string A) k v :
  (k, v) ∈ btree_entries m ↔ m !! k = Some v.
Proof.
  unfold btree_entries. rewrite list_elem_of_omap. split.
  - intros (k' & _ & Hk). destruct (m !! k') eqn:E; simpl in Hk; congruence.
  - intros Hk. exists k. rewrite elem_of_btree_keys, Hk. by split.
Qed.

Lemma elem_of_btree_values {A} (m : gmap string A) v :
  v ∈ btree_values m ↔ ∃ k, m !! k = Some v.
Proof.
  unfold btree_values. rewrite list_elem_of_fmap. split.
  - intros ([k w] & -> & ?%elem_of_btree_entries). by exists k.
  - intros [k ?%elem_of_btree_entries]. by exists (k, v).
Qed.

Lemma btree_entries_keys {A} (m : gmap string A) : (btree_entries m).*1 = btree_keys m.
Proof.
  unfold btree_entries.
  assert (∀ l, (∀ k, k ∈ l → is_Some (m !! k)) →
    (omap (λ k, pair k <$> m !! k) l).*1 = l) as H; [|by apply H; intros ? ?%elem_of_btree_keys].
  induction l as [|k l IH]; intros Hl; [done|]. simpl.
  destruct (Hl k) as [v Hv]; [set_solver|]. rewrite Hv. simpl. f_equal.
  apply IH. set_solver.
Qed.

Lemma btree_entries_perm {A} (m : gmap string A) : btree_entries m ≡ₚ map_to_list m.
Proof.
  apply NoDup_Permutation; [|apply NoDup_map_to_list|].
  - apply (NoDup_fmap_1 fst). change (fst <$> btree_entries m) with (btree_entries m).*1.
    rewrite btree_entries_keys. apply NoDup_btree_keys.
  - intros [k v]. by rewrite elem_of_btree_entries, elem_of_map_to_list.
Qed.

(** [iter().position(..)]: the first index whose element satisfies [f]. *)
Fixpoint position {A} (f : A → bool) (l : list A) : option nat :=
  match l with
  | [] => None
  | x :: l => if f x then Some 0 else S <$> position f l
  end.

Lemma position_Some {A} (f : A → bool) l i :
  position f l = Some i ↔
  (∃ x, l !! i = Some x ∧ f x = true) ∧ ∀ j y, j < i → l !! j = Some y → f y = false.
Proof.
  revert i. induction l as [|x l IH]; intros i; simpl; [split; [done|intros [(? & ? & _) _]; done]|].
  destruct (f x) eqn:Hx.
  - split; [intros [= <-]; split; [by exists x|lia]|].
    intros [_ Hj]. destruct i as [|i]; [done|]. specialize (Hj 0 x). simpl in Hj.
    rewrite Hj in Hx; [done|lia|done].
  - split.
    + intros (i' & Hi & ->)%fmap_Some. apply IH in Hi as [Hi Hi'].
      split; [done|]. intros [|j] y Hj Hy; simpl in Hy; [by simplify_eq|]. eapply Hi'; [|done]. lia.
    + destruct i as [|i]; simpl; [intros [(? & [= <-] & ?) _]; congruence|].
      intros [Hi Hj]. assert (position f l = Some i) as ->; [|done]. apply IH. split; [done|].
      intros j y Hlt Hy. apply (Hj (S j) y); [lia|done].
Qed.

Lemma position_None {A} (f : A → bool) l :
  position f l = None ↔ ∀ x, x ∈ l → f x = false.
Proof.
  induction l as [|x l IH]; simpl; [set_solver|]. destruct (f x) eqn:Hx.
  - split; [done|]. intros H. rewrite H in Hx by set_solver. done.
  - rewrite fmap_None, IH. set_solver.
Qed.

(** The position of an element of a list without duplicates is its index. *)
Lemma position_nodup l i (x : string) :
  NoDup l → l !! i = Some x → position (λ y, y =s x) l = Some i.
Proof.
  intros Hnd Hi. apply position_Some. split; [exists x; by rewrite String.eqb_refl|].
  intros j y Hj Hy. apply String.eqb_neq. intros ->.
  assert (j = i) by (by eapply NoDup_lookup). lia.
Qed.

(** [Vec::insert]. *)
Definition insert_at {A} (i : nat) (x : A) (l : list A) : list A := take i l ++ x :: drop i l.

Lemma insert_at_perm {A} i (x : A) l : insert_at i x l ≡ₚ x :: l.
Proof. unfold insert_at. rewrite <-Permutation_middle, take_drop. done. Qed.

(** * Record update

    [r <| f := v |>] is the code's [r.f = v] on an owned record.  A record type
    declares once how its values are rebuilt from their fields ([Rebuild]); the
    setter of a field is that term with the field replaced. *)
Class Rebuild (R : Type) := rebuild : R → R.
Class Setter {R E : Type} (field : R → E) := set_field : E → R → R.

Ltac build_setter :=
  match goal with
  | |- @Setter ?R ?E ?field =>
      let inst := constr:(_ : Rebuild R) in
      let f := eval hnf in inst in
      let v := fresh "v" in let r := fresh "r" in
      change (E → R → R); intros v r;
      let t := eval cbv beta in (f r) in
      match t with
      | context C [field r] => let u := context C [v] in exact u
      end
  end.
#[export] Hint Extern 1 (Setter _) => build_setter : typeclass_instances.
Arguments set_field {_ _} _ {_} _ _ /.

Notation "r '<|' f ':=' v '|>'" := (set_field f v r)
  (at level 1, left associativity, f at level 200, v at level 200) : mes_scope.
