(* ===== verification/RustStr.v ===== *)
(** Rust strings.

    A Rust [String] or [&str] is a sequence of UTF-8 bytes; it is modelled by
    the Standard Library's [string], one [ascii] per byte, so that [len()],
    byte slices and the byte-wise order of [BTreeMap<String, _>] are those of
    the code.  This file holds what the code uses of [str]: [trim] (over the
    Unicode White_Space characters, in their UTF-8 encodings), ASCII case
    folding, the character classes and prefix tests, with the lemmas on them
    that the components share. *)
From Stdlib Require Import Ascii.
From S2P Require Import Prelude.

Local Open Scope N_scope.

(** * Bytes and characters *)

Definition byte_of (a : ascii) : N := Ascii.N_of_ascii a.

Definition in_range (lo hi : N) (a : ascii) : bool :=
  (lo <=? byte_of a) && (byte_of a <=? hi).

Definition is_ascii_digit (a : ascii) : bool := in_range 48 57 a.
Definition is_ascii_uppercase (a : ascii) : bool := in_range 65 90 a.
Definition is_ascii_lowercase (a : ascii) : bool := in_range 97 122 a.
Definition is_ascii_alphabetic (a : ascii) : bool :=
  is_ascii_uppercase a || is_ascii_lowercase a.
Definition is_ascii_alphanumeric (a : ascii) : bool :=
  is_ascii_alphabetic a || is_ascii_digit a.
Definition is_ascii_hexdigit (a : ascii) : bool :=
  is_ascii_digit a || in_range 65 70 a || in_range 97 102 a.

(** [u8::is_ascii_whitespace]: space, tab, line feed, form feed, carriage
    return (the vertical tab is not one). *)
Definition is_ascii_whitespace (a : ascii) : bool :=
  let b := byte_of a in
  (b =? 32) || (b =? 9) || (b =? 10) || (b =? 12) || (b =? 13).

Definition is_ascii (a : ascii) : bool := byte_of a <? 128.

(** A byte that starts a character: [str::is_char_boundary] holds before it. *)
Definition is_char_start (a : ascii) : bool := negb (in_range 128 191 a).

(** [str::is_char_boundary] at the start of a suffix. *)
Definition at_char_boundary (s : string) : bool :=
  match s with EmptyString => true | String a _ => is_char_start a end.

(** UTF-8 decoding into code points.  Malformed sequences, which no Rust
    string contains, decode byte by byte. *)
Definition cont (a : ascii) : N := byte_of a mod 64.

Fixpoint chars (s : string) : list N :=
  match s with
  | EmptyString => []
  | String a s1 =>
      let b := byte_of a in
      if b <? 192 then b :: chars s1
      else match s1 with
      | EmptyString => [b]
      | String a1 s2 =>
          if b <? 224 then ((b mod 32) * 64 + cont a1) :: chars s2
          else match s2 with
          | EmptyString => b :: chars s1
          | String a2 s3 =>
              if b <? 240 then ((b mod 16) * 4096 + cont a1 * 64 + cont a2) :: chars s3
              else match s3 with
              | EmptyString => b :: chars s1
              | String a3 s4 =>
                  ((b mod 8) * 262144 + cont a1 * 4096 + cont a2 * 64 + cont a3) :: chars s4
              end
          end
      end
  end.

(** [char::is_whitespace]: the Unicode White_Space property. *)
Definition is_whitespace (c : N) : bool :=
  ((9 <=? c) && (c <=? 13)) || (c =? 32) || (c =? 133) || (c =? 160) ||
  (c =? 5760) || ((8192 <=? c) && (c <=? 8202)) || (c =? 8232) || (c =? 8233) ||
  (c =? 8239) || (c =? 8287) || (c =? 12288).

(** [char::is_control]: general category Cc. *)
Definition is_control (c : N) : bool :=
  (c <? 32) || ((127 <=? c) && (c <=? 159)).

(** * Trimming *)

(** The White_Space characters by the length of their encoding. *)
Definition ws1 (a : ascii) : bool := in_range 9 13 a || in_range 32 32 a.
Definition ws2 (a b : ascii) : bool :=
  in_range 194 194 a && (in_range 133 133 b || in_range 160 160 b).
Definition ws3 (a b c : ascii) : bool :=
  (in_range 225 225 a && in_range 154 154 b && in_range 128 128 c) ||
  (in_range 226 226 a &&
     ((in_range 128 128 b &&
         (in_range 128 138 c || in_range 168 169 c || in_range 175 175 c)) ||
      (in_range 129 129 b && in_range 159 159 c))) ||
  (in_range 227 227 a && in_range 128 128 b && in_range 128 128 c).

Fixpoint trim_start (s : string) : string :=
  match s with
  | EmptyString => s
  | String a s1 =>
      if ws1 a then trim_start s1
      else match s1 with
      | EmptyString => s
      | String b s2 =>
          if ws2 a b then trim_start s2
          else match s2 with
          | EmptyString => s
          | String c s3 => if ws3 a b c then trim_start s3 else s
          end
      end
  end.

(** The same over the reversed bytes: the last character first. *)
Fixpoint trim_rev (s : string) : string :=
  match s with
  | EmptyString => s
  | String a s1 =>
      if ws1 a then trim_rev s1
      else match s1 with
      | EmptyString => s
      | String b s2 =>
          if ws2 b a then trim_rev s2
          else match s2 with
          | EmptyString => s
          | String c s3 => if ws3 c b a then trim_rev s3 else s
          end
      end
  end.

Definition trim_end (s : string) : string := String.rev (trim_rev (String.rev s)).

(** [str::trim]. *)
Definition trim (s : string) : string := trim_end (trim_start s).

Definition is_empty (s : string) : bool :=
  match s with EmptyString => true | _ => false end.

(** [s.trim().is_empty()]. *)
Definition blank (s : string) : bool := is_empty (trim s).

(** * ASCII case *)

Definition ascii_lower (a : ascii) : ascii :=
  if is_ascii_uppercase a then Ascii.ascii_of_N (byte_of a + 32) else a.

Fixpoint to_ascii_lowercase (s : string) : string :=
  match s with
  | EmptyString => EmptyString
  | String a s => String (ascii_lower a) (to_ascii_lowercase s)
  end.

Definition eq_ignore_ascii_case (a b : string) : bool :=
  to_ascii_lowercase a =s to_ascii_lowercase b.

(** * Slices *)

Definition starts_with (s p : string) : bool := String.prefix p s.

Fixpoint drop_bytes (n : nat) (s : string) : string :=
  match n, s with
  | O, _ => s
  | S n, String _ s => drop_bytes n s
  | S _, EmptyString => EmptyString
  end.

Fixpoint take_bytes (n : nat) (s : string) : string :=
  match n, s with
  | S n, String a s => String a (take_bytes n s)
  | _, _ => EmptyString
  end.

Fixpoint all_bytes (f : ascii → bool) (s : string) : bool :=
  match s with EmptyString => true | String a s => f a && all_bytes f s end.

(** [str::split(':')]: the pieces between separators, at least one. *)
Fixpoint split_on (sep : ascii) (s : string) : list string :=
  match s with
  | EmptyString => [EmptyString]
  | String a s =>
      if Ascii.eqb a sep then EmptyString :: split_on sep s
      else match split_on sep s with
           | [] => [String a EmptyString]
           | p :: ps => String a p :: ps
           end
  end.

(** [i64::to_string] and [usize::to_string]. *)
Definition digit_char (n : N) : ascii := Ascii.ascii_of_N (48 + n).

Fixpoint N_digits (fuel : nat) (n : N) (acc : string) : string :=
  match fuel with
  | O => acc
  | S fuel =>
      let acc := String (digit_char (n mod 10)) acc in
      if n <? 10 then acc else N_digits fuel (n / 10) acc
  end.

Definition N_to_string (n : N) : string := N_digits (S (N.to_nat (N.log2 n))) n EmptyString.

Definition Z_to_string (z : Z) : string :=
  match z with
  | Zneg p => String "-"%char (N_to_string (Npos p))
  | _ => N_to_string (Z.to_N z)
  end.

Close Scope N_scope.

(** * Lemmas *)

Lemma rev_app_app s t : String.rev_app s t = String.rev s +:+ t.
Proof.
  unfold String.rev. revert t. induction s as [|a s IH]; intros t; simpl; [done|].
  rewrite (IH (String a t)), (IH (String a "")).
  generalize (String.rev_app s ""). induction s0; simpl; unfold String.append; f_equal; auto.
Qed.

Lemma append_assoc (a b c : string) : (a +:+ b) +:+ c = a +:+ (b +:+ c).
Proof. induction a; unfold String.append; simpl; [done|]. f_equal. exact IHa. Qed.

Lemma append_nil_r (a : string) : a +:+ "" = a.
Proof. induction a; unfold String.append; simpl; [done|]. f_equal. exact IHa. Qed.

Lemma str_rev_cons a s : String.rev (String a s) = String.rev s +:+ String a "".
Proof. unfold String.rev. simpl. apply rev_app_app. Qed.

Lemma str_rev_append s t : String.rev (s +:+ t) = String.rev t +:+ String.rev s.
Proof.
  induction s as [|a s IH]; [by rewrite append_nil_r|].
  change (String a s +:+ t) with (String a (s +:+ t)).
  by rewrite !str_rev_cons, IH, append_assoc.
Qed.

Lemma str_rev_involutive s : String.rev (String.rev s) = s.
Proof.
  induction s as [|a s IH]; [done|]. rewrite str_rev_cons, str_rev_append, IH. done.
Qed.

Lemma str_length_rev s : String.length (String.rev s) = String.length s.
Proof.
  assert (∀ a b, String.length (a +:+ b) = String.length a + String.length b) as Happ.
  { induction a; intros b; unfold String.append in *; simpl; auto. }
  induction s as [|a s IH]; [done|]. rewrite str_rev_cons, Happ, IH. simpl. lia.
Qed.

(** [trim_start] removes a prefix and leaves no leading white space;
    [trim_rev] is its mirror image. *)
Lemma trim_start_suffix s : ∃ p, s = p +:+ trim_start s.
Proof.
  revert s. fix IH 1. intros [|a s1]; [by exists ""|]. simpl.
  destruct (ws1 a).
  { destruct (IH s1) as [p Hp]. exists (String a p).
    rewrite Hp at 1. done. }
  destruct s1 as [|b s2]; [by exists ""|].
  destruct (ws2 a b).
  { destruct (IH s2) as [p Hp]. exists (String a (String b p)).
    rewrite Hp at 1. done. }
  destruct s2 as [|c s3]; [by exists ""|].
  destruct (ws3 a b c); [|by exists ""].
  destruct (IH s3) as [p Hp]. exists (String a (String b (String c p))).
  rewrite Hp at 1. done.
Qed.

Lemma trim_rev_suffix s : ∃ p, s = p +:+ trim_rev s.
Proof.
  revert s. fix IH 1. intros [|a s1]; [by exists ""|]. simpl.
  destruct (ws1 a).
  { destruct (IH s1) as [p Hp]. exists (String a p).
    rewrite Hp at 1. done. }
  destruct s1 as [|b s2]; [by exists ""|].
  destruct (ws2 b a).
  { destruct (IH s2) as [p Hp]. exists (String a (String b p)).
    rewrite Hp at 1. done. }
  destruct s2 as [|c s3]; [by exists ""|].
  destruct (ws3 c b a); [|by exists ""].
  destruct (IH s3) as [p Hp]. exists (String a (String b (String c p))).
  rewrite Hp at 1. done.
Qed.

Lemma trim_start_idemp s : trim_start (trim_start s) = trim_start s.
Proof.
  revert s. fix IH 1. intros [|a s1]; [done|]. simpl.
  destruct (ws1 a) eqn:E1; [apply IH|].
  destruct s1 as [|b s2]; [simpl; by rewrite E1|].
  destruct (ws2 a b) eqn:E2; [apply IH|].
  destruct s2 as [|c s3]; [simpl; by rewrite E1, E2|].
  destruct (ws3 a b c) eqn:E3; [apply IH|]. simpl. by rewrite E1, E2, E3.
Qed.

Lemma trim_rev_idemp s : trim_rev (trim_rev s) = trim_rev s.
Proof.
  revert s. fix IH 1. intros [|a s1]; [done|]. simpl.
  destruct (ws1 a) eqn:E1; [apply IH|].
  destruct s1 as [|b s2]; [simpl; by rewrite E1|].
  destruct (ws2 b a) eqn:E2; [apply IH|].
  destruct s2 as [|c s3]; [simpl; by rewrite E1, E2|].
  destruct (ws3 c b a) eqn:E3; [apply IH|]. simpl. by rewrite E1, E2, E3.
Qed.

Lemma append_length (a b : string) :
  String.length (a +:+ b) = String.length a + String.length b.
Proof. induction a; unfold String.append in *; simpl; auto. Qed.

(** A prefix of a string without leading white space has none either. *)
Lemma trim_start_shorter s : String.length (trim_start s) ≤ String.length s.
Proof.
  destruct (trim_start_suffix s) as [t Ht].
  apply (f_equal String.length) in Ht. rewrite append_length in Ht. lia.
Qed.

Lemma trim_start_prefix_fixed p q :
  trim_start (p +:+ q) = p +:+ q → trim_start p = p.
Proof.
  intros H. apply (f_equal String.length) in H.
  destruct p as [|a [|b [|c s]]]; [done|..].
  - change (String a "" +:+ q) with (String a q) in H.
    pose proof (trim_start_shorter q). simpl in *.
    destruct (ws1 a); [simpl in *; lia|done].
  - change (String a (String b "") +:+ q) with (String a (String b q)) in H.
    pose proof (trim_start_shorter (String b q)). pose proof (trim_start_shorter q).
    simpl in *. destruct (ws1 a); [simpl in *; lia|].
    destruct (ws2 a b); [simpl in *; lia|done].
  - change (String a (String b (String c s)) +:+ q)
      with (String a (String b (String c (s +:+ q)))) in H.
    pose proof (trim_start_shorter (s +:+ q)).
    pose proof (trim_start_shorter (String c (s +:+ q))).
    pose proof (trim_start_shorter (String b (String c (s +:+ q)))).
    simpl in *. destruct (ws1 a); [simpl in *; lia|].
    destruct (ws2 a b); [simpl in *; lia|].
    destruct (ws3 a b c); [simpl in *; lia|done].
Qed.

Lemma trim_end_prefix s : ∃ q, s = trim_end s +:+ q.
Proof.
  unfold trim_end. destruct (trim_rev_suffix (String.rev s)) as [p Hp].
  exists (String.rev p). rewrite <-str_rev_append, <-Hp. by rewrite str_rev_involutive.
Qed.

Lemma trim_end_idemp s : trim_end (trim_end s) = trim_end s.
Proof. unfold trim_end. by rewrite str_rev_involutive, trim_rev_idemp. Qed.

(** Trimming twice is trimming once. *)
Lemma trim_idemp s : trim (trim s) = trim s.
Proof.
  unfold trim. destruct (trim_end_prefix (trim_start s)) as [q Hq].
  rewrite (trim_start_prefix_fixed (trim_end (trim_start s)) q).
  - apply trim_end_idemp.
  - rewrite <-Hq. apply trim_start_idemp.
Qed.

Lemma to_ascii_lowercase_length s :
  String.length (to_ascii_lowercase s) = String.length s.
Proof. induction s; simpl; auto. Qed.

Lemma eq_ignore_ascii_case_refl s : eq_ignore_ascii_case s s = true.
Proof. apply String.eqb_refl. Qed.

#[export] Hint Rewrite trim_idemp : mes.
#[export] Hint Resolve trim_idemp eq_ignore_ascii_case_refl : mes.

(** ** Strings of visible ASCII bytes are their own trimming *)

Definition graphic (a : ascii) : bool := in_range 33 126 a.

Lemma all_bytes_append f s t :
  all_bytes f (s +:+ t) = all_bytes f s && all_bytes f t.
Proof.
  induction s as [|a s IH]; [done|].
  change (String a s +:+ t) with (String a (s +:+ t)). simpl. by rewrite IH, andb_assoc.
Qed.

Lemma all_bytes_rev f s : all_bytes f (String.rev s) = all_bytes f s.
Proof.
  induction s as [|a s IH]; [done|].
  rewrite str_rev_cons, all_bytes_append, IH. simpl. by rewrite andb_true_r, andb_comm.
Qed.

Lemma all_bytes_impl (f g : ascii → bool) s :
  (∀ a, f a = true → g a = true) → all_bytes f s = true → all_bytes g s = true.
Proof.
  intros Hfg. induction s as [|a s IH]; simpl; [done|].
  rewrite !andb_true_iff. naive_solver.
Qed.

Lemma graphic_not_ws1 a : graphic a = true → ws1 a = false.
Proof. by destruct a as [[] [] [] [] [] [] [] []]. Qed.
Lemma graphic_not_lead a : graphic a = true →
  in_range 194 194 a = false ∧ in_range 225 225 a = false ∧
  in_range 226 226 a = false ∧ in_range 227 227 a = false.
Proof. by destruct a as [[] [] [] [] [] [] [] []]. Qed.

Lemma graphic_not_ws23 a b c : graphic a = true → ws2 a b = false ∧ ws3 a b c = false.
Proof.
  intros (H1 & H2 & H3 & H4)%graphic_not_lead. unfold ws2, ws3. by rewrite H1, H2, H3, H4.
Qed.

Lemma trim_start_graphic s : all_bytes graphic s = true → trim_start s = s.
Proof.
  destruct s as [|a [|b [|c s]]]; simpl; rewrite ?andb_true_iff; intros H; [done|..];
    destruct H as [Ha H]; rewrite (graphic_not_ws1 a Ha); [done|..].
  - by rewrite (proj1 (graphic_not_ws23 a b b Ha)).
  - by rewrite (proj1 (graphic_not_ws23 a b b Ha)), (proj2 (graphic_not_ws23 a b c Ha)).
Qed.

Lemma trim_rev_graphic s : all_bytes graphic s = true → trim_rev s = s.
Proof.
  destruct s as [|a [|b [|c s]]]; simpl; rewrite ?andb_true_iff; intros H; [done|..];
    destruct H as [Ha H]; rewrite (graphic_not_ws1 a Ha); [done|..];
    destruct H as [Hb H]; rewrite (proj1 (graphic_not_ws23 b a a Hb)); [done|].
  destruct H as [Hc H]. by rewrite (proj2 (graphic_not_ws23 c b a Hc)).
Qed.

Lemma trim_graphic s : all_bytes graphic s = true → trim s = s.
Proof.
  intros H. unfold trim, trim_end. rewrite trim_start_graphic by done.
  rewrite trim_rev_graphic by by rewrite all_bytes_rev. apply str_rev_involutive.
Qed.

Lemma chars_graphic s c : all_bytes graphic s = true → c ∈ chars s →
  is_whitespace c = false ∧ is_control c = false.
Proof.
  intros H. revert c.
  induction s as [|a s IH]; intros c; [simpl; set_solver|].
  simpl in H. apply andb_true_iff in H as [Ha Hs].
  assert (chars (String a s) = byte_of a :: chars s) as ->.
  { simpl. assert ((byte_of a <? 192)%N = true) as ->; [|done].
    by destruct a as [[] [] [] [] [] [] [] []]. }
  intros [->|Hc]%elem_of_cons; [|auto].
  by destruct a as [[] [] [] [] [] [] [] []].
Qed.

#[export] Hint Resolve trim_graphic : mes.

(** Lower-casing touches no white space, so it commutes with trimming. *)
Lemma ascii_lower_in_range lo hi a :
  ((hi < 65)%N ∨ (122 < lo)%N) → in_range lo hi (ascii_lower a) = in_range lo hi a.
Proof.
  unfold ascii_lower, is_ascii_uppercase, in_range, byte_of. intros H.
  destruct ((65 <=? N_of_ascii a)%N && (N_of_ascii a <=? 90)%N) eqn:E; [|done].
  apply andb_true_iff in E as [?%N.leb_le ?%N.leb_le].
  rewrite N_ascii_embedding by lia.
  apply eq_bool_prop_intro. rewrite !andb_True, !Is_true_true, !N.leb_le. lia.
Qed.

Lemma ws_lower a b c :
  ws1 (ascii_lower a) = ws1 a ∧ ws2 (ascii_lower a) (ascii_lower b) = ws2 a b ∧
  ws3 (ascii_lower a) (ascii_lower b) (ascii_lower c) = ws3 a b c.
Proof.
  unfold ws1, ws2, ws3. rewrite !ascii_lower_in_range by lia. done.
Qed.

Lemma trim_start_lower s :
  trim_start (to_ascii_lowercase s) = to_ascii_lowercase (trim_start s).
Proof.
  revert s. fix IH 1. intros [|a s1]; [done|]. simpl.
  destruct (ws_lower a a a) as (-> & _ & _). destruct (ws1 a); [apply IH|].
  destruct s1 as [|b s2]; [done|]. simpl.
  destruct (ws_lower a b b) as (_ & -> & _). destruct (ws2 a b); [apply IH|].
  destruct s2 as [|c s3]; [done|]. simpl.
  destruct (ws_lower a b c) as (_ & _ & ->). destruct (ws3 a b c); [apply IH|done].
Qed.

Lemma trim_rev_lower s :
  trim_rev (to_ascii_lowercase s) = to_ascii_lowercase (trim_rev s).
Proof.
  revert s. fix IH 1. intros [|a s1]; [done|]. simpl.
  destruct (ws_lower a a a) as (-> & _ & _). destruct (ws1 a); [apply IH|].
  destruct s1 as [|b s2]; [done|]. simpl.
  destruct (ws_lower b a a) as (_ & -> & _). destruct (ws2 b a); [apply IH|].
  destruct s2 as [|c s3]; [done|]. simpl.
  destruct (ws_lower c b a) as (_ & _ & ->). destruct (ws3 c b a); [apply IH|done].
Qed.

Lemma to_ascii_lowercase_append s t :
  to_ascii_lowercase (s +:+ t) = to_ascii_lowercase s +:+ to_ascii_lowercase t.
Proof. induction s as [|a s IH]; [done|]. unfold String.append in *. simpl. by rewrite IH. Qed.

Lemma to_ascii_lowercase_rev s :
  to_ascii_lowercase (String.rev s) = String.rev (to_ascii_lowercase s).
Proof.
  induction s as [|a s IH]; [done|]. simpl.
  rewrite !str_rev_cons, to_ascii_lowercase_append, IH. done.
Qed.

Lemma trim_lower s : trim (to_ascii_lowercase s) = to_ascii_lowercase (trim s).
Proof.
  unfold trim, trim_end.
  by rewrite trim_start_lower, <-to_ascii_lowercase_rev, trim_rev_lower, to_ascii_lowercase_rev.
Qed.

Lemma ascii_lower_idemp a : ascii_lower (ascii_lower a) = ascii_lower a.
Proof. by destruct a as [[] [] [] [] [] [] [] []]. Qed.

Lemma to_ascii_lowercase_idemp s : to_ascii_lowercase (to_ascii_lowercase s) = to_ascii_lowercase s.
Proof. induction s as [|a s IH]; [done|]. simpl. by rewrite ascii_lower_idemp, IH. Qed.

Lemma lower_trim_idemp s :
  to_ascii_lowercase (trim (to_ascii_lowercase (trim s))) = to_ascii_lowercase (trim s).
Proof. by rewrite trim_lower, trim_idemp, to_ascii_lowercase_idemp. Qed.

(** A text without letters is its own and only lower-case form. *)
Lemma to_ascii_lowercase_digits s d :
  all_bytes is_ascii_digit d = true → (to_ascii_lowercase s =s d) = (s =s d).
Proof.
  revert d. induction s as [|a s IH]; intros [|b d]; simpl; try done.
  intros [Hb Hd]%andb_true_iff. rewrite (IH d Hd).
  replace (Ascii.eqb (ascii_lower a) b) with (Ascii.eqb a b); [done|].
  unfold ascii_lower. destruct (is_ascii_uppercase a) eqn:Ea; [|done].
  by destruct a as [[] [] [] [] [] [] [] []]; try discriminate Ea;
    destruct b as [[] [] [] [] [] [] [] []].
Qed.
