(* ===== verification/F64.v ===== *)
(** IEEE 754 double precision, as Rust's [f64].

    Values are the [spec_float] of the Standard Library with 53 bits of
    precision and exponent bound 1024; arithmetic is its correctly rounded
    round-to-nearest-even specification, so every definition computes and no
    axiom is used.  The file adds what the code needs of [core::f64]:
    comparisons with the IEEE treatment of NaN, [round], the saturating cast
    to [i64], the conversion from [i64], decimal parsing ([str::parse]) and the
    shortest-round-trip [Display]. *)
From Stdlib Require Import Ascii.
From Stdlib Require Export SpecFloat.
From S2P Require Import Prelude RustStr.

Local Open Scope Z_scope.

Abbreviation f64 := spec_float.

Definition prec : Z := 53.
Definition emax : Z := 1024.

Definition f64_add : f64 → f64 → f64 := SFadd prec emax.
Definition f64_sub : f64 → f64 → f64 := SFsub prec emax.
Definition f64_mul : f64 → f64 → f64 := SFmul prec emax.
Definition f64_div : f64 → f64 → f64 := SFdiv prec emax.
Definition f64_neg : f64 → f64 := SFopp.
Definition f64_abs : f64 → f64 := SFabs.

(** [<], [<=], [==]: all false on NaN. *)
Definition f64_lt : f64 → f64 → bool := SFltb.
Definition f64_le : f64 → f64 → bool := SFleb.
Definition f64_eq : f64 → f64 → bool := SFeqb.

Definition is_finite (x : f64) : bool :=
  match x with S754_zero _ | S754_finite _ _ _ => true | _ => false end.

Definition f64_zero : f64 := S754_zero false.

(** [i64 as f64]: nearest, ties to even. *)
Definition f64_of_Z (z : Z) : f64 := binary_normalize prec emax z 0 false.

(** The double nearest to [n / d]. *)
Definition f64_of_ratio (n d : positive) : f64 :=
  let '(q, e, l) := SFdiv_core_binary prec emax (Zpos n) 0 (Zpos d) 0 in
  binary_round_aux prec emax false q e l.

Definition f64_of_dec (n : Z) (places : nat) : f64 :=
  match n with
  | Z0 => f64_zero
  | Zpos p => f64_of_ratio p (Z.to_pos (10 ^ Z.of_nat places))
  | Zneg p => f64_neg (f64_of_ratio p (Z.to_pos (10 ^ Z.of_nat places)))
  end.

(** [f64::EPSILON], 2^-52. *)
Definition f64_EPSILON : f64 := SFldexp prec emax (f64_of_Z 1) (-52).

(** * Integers *)

Definition i64_MIN : Z := - 2 ^ 63.
Definition i64_MAX : Z := 2 ^ 63 - 1.
Definition i32_MAX : Z := 2 ^ 31 - 1.
Definition u32_MAX : Z := 2 ^ 32 - 1.

(** Two's complement wrap-around of the release build's [+], [*] on [i64]. *)
Definition i64_wrap (z : Z) : Z := (z + 2 ^ 63) mod 2 ^ 64 - 2 ^ 63.

Definition i64_checked (z : Z) : option Z :=
  if (i64_MIN <=? z) && (z <=? i64_MAX) then Some z else None.

Definition i64_saturate (z : Z) : Z := Z.max i64_MIN (Z.min i64_MAX z).

(** The integer nearest to [m * 2^e], halves away from zero. *)
Definition round_half_up (m e : Z) : Z :=
  if 0 <=? e then m * 2 ^ e else (2 * m + 2 ^ (- e)) / (2 * 2 ^ (- e)).

(** [value.round() as i64]: [round] is exact on finite doubles, the cast
    saturates and sends NaN to zero. *)
Definition round_as_i64 (x : f64) : Z :=
  match x with
  | S754_zero _ | S754_nan => 0
  | S754_infinity s => if s then i64_MIN else i64_MAX
  | S754_finite s m e =>
      let r := round_half_up (Zpos m) e in
      i64_saturate (if s then - r else r)
  end.

(** [value.fract() != 0.0] for a finite value: it is not an integer. *)
Definition has_fraction (x : f64) : bool :=
  match x with
  | S754_finite _ m e => negb (0 <=? e) && negb (Zpos m mod 2 ^ (- e) =? 0)
  | _ => false
  end.

(** [value as i64]: truncation toward zero, saturating. *)
Definition trunc_as_i64 (x : f64) : Z :=
  match x with
  | S754_zero _ | S754_nan => 0
  | S754_infinity s => if s then i64_MIN else i64_MAX
  | S754_finite s m e =>
      let r := if 0 <=? e then Zpos m * 2 ^ e else Zpos m / 2 ^ (- e) in
      i64_saturate (if s then - r else r)
  end.

(** * Decimal text *)

(** Digits of a decimal literal: the integer they spell and their number. *)
Fixpoint read_digits (s : string) (acc : Z) (n : nat) : Z * nat * string :=
  match s with
  | String a s' =>
      if is_ascii_digit a
      then read_digits s' (10 * acc + (Z.of_N (byte_of a) - 48)) (S n)
      else (acc, n, s)
  | EmptyString => (acc, n, s)
  end.

(** [str::parse::<f64>] on the unsigned literals [d*], [d*.d*] that the
    formula scanner produces: a literal without any digit is rejected. *)
Definition parse_f64 (s : string) : option f64 :=
  let '(int, n, rest) := read_digits s 0 0 in
  match rest with
  | EmptyString => if Nat.eqb n 0 then None else Some (f64_of_dec int 0)
  | String c rest' =>
      if Ascii.eqb c "."%char then
        let '(all, k, rest'') := read_digits rest' int 0 in
        match rest'' with
        | EmptyString => if Nat.eqb (n + k) 0 then None else Some (f64_of_dec all k)
        | _ => None
        end
      else None
  end.

(** Number of decimal digits before the point of [n/d >= 1], or minus the
    number of zeros after it when [n/d < 1]: the [k] with
    [10^(k-1) <= n/d < 10^k]. *)
Fixpoint dec_exp_up (fuel : nat) (k : Z) (n d : Z) : Z :=
  match fuel with
  | O => k
  | S fuel => if n <? d * 10 ^ k then k else dec_exp_up fuel (k + 1) n d
  end.

Fixpoint dec_exp_down (fuel : nat) (k : Z) (n d : Z) : Z :=
  match fuel with
  | O => - k
  | S fuel => if d <=? n * 10 ^ (k + 1) then - k else dec_exp_down fuel (k + 1) n d
  end.

Definition dec_exp (n d : Z) : Z :=
  if n <? d then dec_exp_down 400 0 n d else dec_exp_up 400 1 n d.

(** The [digits]-digit decimal nearest to [n/d], as an integer mantissa. *)
Definition nearest_decimal (digits : nat) (k n d : Z) : Z :=
  let p := Z.of_nat digits - k in
  if 0 <=? p then (2 * n * 10 ^ p + d) / (2 * d)
  else (2 * n + d * 10 ^ (- p)) / (2 * d * 10 ^ (- p)).

(** The double nearest to [m * 10^p]. *)
Definition f64_of_scaled (m p : Z) : f64 :=
  if 0 <=? p then f64_of_dec (m * 10 ^ p) 0 else f64_of_dec m (Z.to_nat (- p)).

(** The shortest decimal that reads back as the value: mantissa and power of
    ten.  Seventeen digits always suffice for a double. *)
Fixpoint shortest (fuel digits : nat) (x : f64) (k n d : Z) : Z * Z :=
  let m := nearest_decimal digits k n d in
  let p := k - Z.of_nat digits in
  match fuel with
  | O => (m, p)
  | S fuel => if f64_eq (f64_of_scaled m p) x then (m, p) else shortest fuel (S digits) x k n d
  end.

Fixpoint strip_zeros (fuel : nat) (m p : Z) : Z * Z :=
  match fuel with
  | O => (m, p)
  | S fuel => if (m mod 10 =? 0) && negb (m =? 0) then strip_zeros fuel (m / 10) (p + 1) else (m, p)
  end.

Fixpoint zeros (n : nat) : string :=
  match n with O => EmptyString | S n => String "0"%char (zeros n) end.

Definition positional (m p : Z) : string :=
  let ds := Z_to_string m in
  if 0 <=? p then ds +:+ zeros (Z.to_nat p)
  else
    let frac := Z.to_nat (- p) in
    let len := String.length ds in
    if (frac <? len)%nat
    then take_bytes (len - frac) ds +:+ "." +:+ drop_bytes (len - frac) ds
    else "0." +:+ zeros (frac - len) +:+ ds.

(** [f64::to_string]. *)
Definition f64_to_string (x : f64) : string :=
  match x with
  | S754_nan => "NaN"
  | S754_infinity s => if s then "-inf" else "inf"
  | S754_zero s => if s then "-0" else "0"
  | S754_finite s m e =>
      let '(n, d) := if 0 <=? e then (Zpos m * 2 ^ e, 1) else (Zpos m, 2 ^ (- e)) in
      let k := dec_exp n d in
      let '(mant, p) := shortest 16 1 (S754_finite false m e) k n d in
      let '(mant, p) := strip_zeros 20 mant p in
      (if s then "-" else "") +:+ positional mant p
  end.

(** * Checks of the definitions against known values *)

Example parse_display_ex :
  (f64_to_string <$> parse_f64 "13.00003") = Some "13.00003" ∧
  (f64_to_string <$> parse_f64 "0.1") = Some "0.1" ∧
  (f64_to_string <$> parse_f64 "1200") = Some "1200" ∧
  (f64_to_string <$> parse_f64 ".5") = Some "0.5" ∧
  parse_f64 "." = None ∧
  f64_to_string (f64_add (f64_of_dec 1 1) (f64_of_dec 2 1)) = "0.30000000000000004".
Proof. by vm_compute. Qed.

(** * Lemmas *)

Lemma i64_wrap_small z : i64_MIN ≤ z ≤ i64_MAX → i64_wrap z = z.
Proof.
  unfold i64_MIN, i64_MAX, i64_wrap. intros H.
  rewrite Z.mod_small; lia.
Qed.

Lemma i64_wrap_range z : i64_MIN ≤ i64_wrap z ≤ i64_MAX.
Proof.
  unfold i64_MIN, i64_MAX, i64_wrap.
  pose proof (Z.mod_pos_bound (z + 2 ^ 63) (2 ^ 64)). lia.
Qed.

Lemma f64_lt_finite_pos x : f64_lt f64_zero x = true → x ≠ S754_nan.
Proof. destruct x; done. Qed.

#[export] Hint Resolve i64_wrap_range : mes.
