(* ===== verification/Json.v ===== *)
(** JSON payloads.

    The code keeps part of its records in [serde_json::Value] payloads.  That
    type belongs to another package, so it is a parameter: [Json] lists the
    operations the code uses and [JsonLaws] their documented behaviour.
    [json_tree] is a concrete instance, for evaluating samples. *)
From S2P Require Import Prelude F64.

Class Json := {
  value : Type;
  (** [Value::get] with a key: [None] on anything but an object. *)
  json_get : string → value → option value;
  json_as_str : value → option string;
  json_as_bool : value → option bool;
  json_as_f64 : value → option f64;
  json_as_i64 : value → option Z;
  json_as_u64 : value → option Z;
  json_as_array : value → option (list value);
  json_is_object : value → bool;
  json_is_null : value → bool;
  (** [json!({})] and [json!(x)] on booleans, integers, floats and strings. *)
  json_empty : value;
  json_bool : bool → value;
  json_Z : Z → value;
  json_f64 : f64 → value;
  json_str : string → value;
  (** [v[key] = x]; [None] is the panic on a scalar or an array. *)
  json_set : string → value → value → option value;
  (** [v.as_object_mut()] then [remove(key)]. *)
  json_remove : string → value → value;
  (** [json!(x)] on a vector of strings and on a map of strings. *)
  json_strings : list string → value;
  (** a vector of values, and [Value::Null]. *)
  json_list : list value → value;
  json_null : value;
  json_str_map : gmap string string → value;
  (** [==] on values. *)
  json_eqb : value → value → bool;
}.

Class JsonLaws (J : Json) := {
  json_get_object k v : json_is_object v = false → json_get k v = None;
  json_empty_object : json_is_object json_empty = true;
  json_get_empty k : json_get k json_empty = None;
  json_as_bool_bool b : json_as_bool (json_bool b) = Some b;
  json_as_str_str s : json_as_str (json_str s) = Some s;
  json_as_f64_f64 x : is_finite x = true → json_as_f64 (json_f64 x) = Some x;
  json_as_i64_Z z : (i64_MIN <= z <= i64_MAX)%Z → json_as_i64 (json_Z z) = Some z;
  json_as_u64_Z z : (0 <= z < 2 ^ 64)%Z → json_as_u64 (json_Z z) = Some z;
  json_as_array_strings l : json_as_array (json_strings l) = Some (json_str <$> l);
  json_is_null_f64 x : is_finite x = true → json_is_null (json_f64 x) = false;
  json_eqb_refl v : json_eqb v v = true;
  json_eqb_strings l l' : json_eqb (json_strings l) (json_strings l') = true → l = l';
  (** Assigning to a key of an object. *)
  json_set_object k x v : json_is_object v = true →
    ∃ v', json_set k x v = Some v' ∧ json_is_object v' = true ∧
      ∀ k', json_get k' v' = if decide (k' = k) then Some x else json_get k' v;
  (** [Null] becomes an object. *)
  json_set_Some k x v v' : json_set k x v = Some v' →
    json_is_object v' = true ∧ ∀ k', json_get k' v' = if decide (k' = k) then Some x else json_get k' v;
  json_remove_is_object k v : json_is_object (json_remove k v) = json_is_object v;
  json_get_remove k k' v : json_get k' (json_remove k v) =
    if decide (k' = k) then None else json_get k' v;
}.

(** [json!({..})] with the given fields. *)
Definition json_object `{J : Json} (fields : list (string * value)) : value :=
  foldl (λ v kx, default v (json_set kx.1 kx.2 v)) json_empty fields.

Lemma json_object_app `{JsonLaws} fields k x :
  json_is_object (json_object (fields ++ [(k, x)])) = true ∧
  ∀ k', json_get k' (json_object (fields ++ [(k, x)])) =
    if decide (k' = k) then Some x else json_get k' (json_object fields).
Proof.
  assert (Hobj : json_is_object (json_object fields) = true).
  { unfold json_object. induction fields as [|[k' x'] fields IH] using rev_ind; [apply json_empty_object|].
    rewrite foldl_app. simpl. destruct (json_set_object k' x' _ IH) as (v' & -> & ? & _). done. }
  unfold json_object in *. rewrite foldl_app. simpl.
  destruct (json_set_object k x _ Hobj) as (v' & -> & ? & Hget). done.
Qed.

Lemma json_object_is_object `{JsonLaws} fields : json_is_object (json_object fields) = true.
Proof.
  destruct fields as [|[k x] fields _] using rev_ind; [apply json_empty_object|].
  apply json_object_app.
Qed.

(** Types that [serde] encodes and decodes. *)
Class Serde `{J : Json} (A : Type) := {
  to_value : A → value;
  from_value : value → option A;
}.

Class SerdeLaws `{J : Json} (A : Type) `{!Serde A} := {
  from_to_value (a : A) : from_value (to_value a) = Some a;
}.

(** * A concrete instance *)

#[global] Instance f64_eq_dec : EqDecision f64.
Proof. solve_decision. Defined.

Inductive tree :=
  | TNull
  | TBool (b : bool)
  | TNum (n : Z)
  | TFloat (x : f64)
  | TStr (s : string)
  | TArr (l : list tree)
  | TObj (fields : list (string * tree)).

Definition fields_get (k : string) (l : list (string * tree)) : option tree :=
  snd <$> List.find (λ kv, kv.1 =s k) l.
Definition fields_remove (k : string) (l : list (string * tree)) : list (string * tree) :=
  List.filter (λ kv, kv.1 <>s k) l.

(** A map keeps its keys in order, so equality goes field by field. *)
Fixpoint fields_insert (k : string) (x : tree) (l : list (string * tree)) : list (string * tree) :=
  match l with
  | [] => [(k, x)]
  | kv :: l' => if String.ltb k kv.1 then (k, x) :: l else kv :: fields_insert k x l'
  end.

Fixpoint tree_eqb (a b : tree) : bool :=
  match a, b with
  | TNull, TNull => true
  | TBool a, TBool b => Bool.eqb a b
  | TNum a, TNum b => Z.eqb a b
  | TFloat a, TFloat b => f64_eq a b || bool_decide (a = b)
  | TStr a, TStr b => a =s b
  | TArr l, TArr l' =>
      (fix go (l l' : list tree) : bool :=
         match l, l' with
         | [], [] => true
         | a :: l, b :: l' => tree_eqb a b && go l l'
         | _, _ => false
         end) l l'
  | TObj l, TObj l' =>
      (fix go (l l' : list (string * tree)) : bool :=
         match l, l' with
         | [], [] => true
         | (k, a) :: l, (k', b) :: l' => (k =s k') && tree_eqb a b && go l l'
         | _, _ => false
         end) l l'
  | _, _ => false
  end.

Definition json_tree : Json := {|
  value := tree;
  json_get k v := match v with TObj l => fields_get k l | _ => None end;
  json_as_str v := match v with TStr s => Some s | _ => None end;
  json_as_bool v := match v with TBool b => Some b | _ => None end;
  json_as_f64 v := match v with TFloat x => Some x | TNum n => Some (f64_of_Z n) | _ => None end;
  json_as_i64 v :=
    match v with
    | TNum n => if (i64_MIN <=? n)%Z && (n <=? i64_MAX)%Z then Some n else None | _ => None end;
  json_as_u64 v := match v with TNum n => if (0 <=? n)%Z && (n <? 2 ^ 64)%Z then Some n else None | _ => None end;
  json_as_array v := match v with TArr l => Some l | _ => None end;
  json_is_object v := match v with TObj _ => true | _ => false end;
  json_is_null v := match v with TNull => true | _ => false end;
  json_empty := TObj [];
  json_bool := TBool;
  json_Z := TNum;
  json_f64 x := if is_finite x then TFloat x else TNull;
  json_str := TStr;
  json_set k x v :=
    match v with
    | TNull => Some (TObj [(k, x)])
    | TObj l => Some (TObj (fields_insert k x (fields_remove k l)))
    | _ => None
    end;
  json_remove k v := match v with TObj l => TObj (fields_remove k l) | v => v end;
  json_strings l := TArr (TStr <$> l);
  json_list := TArr;
  json_null := TNull;
  json_str_map m := TObj (prod_map id TStr <$> btree_entries m);
  json_eqb := tree_eqb;
|}.

Lemma fields_get_remove k k' l :
  fields_get k' (fields_remove k l) = if decide (k' = k) then None else fields_get k' l.
Proof.
  unfold fields_get, fields_remove. induction l as [|[a x] l IH]; simpl; [by case_decide|].
  destruct (a =s k) eqn:Ek; breflect; simpl.
  - rewrite IH. case_decide; [done|]. destruct (a =s k') eqn:E; breflect; congruence.
  - destruct (a =s k') eqn:E; breflect; [|done]. case_decide; congruence.
Qed.

Lemma fields_get_insert k k' x l : fields_get k l = None →
  fields_get k' (fields_insert k x l) = if decide (k' = k) then Some x else fields_get k' l.
Proof.
  unfold fields_get. induction l as [|[a y] l IH]; simpl.
  - intros _. destruct (k =s k') eqn:E; breflect; simpl; case_decide; congruence.
  - destruct (a =s k) eqn:Ea; [done|]. intros Hk.
    destruct (String.ltb k a); simpl.
    + destruct (k =s k') eqn:E; breflect; simpl; case_decide; congruence.
    + destruct (a =s k') eqn:E; breflect; [|by apply IH]. case_decide; congruence.
Qed.

(** Induction over a tree and its parts. *)
Lemma tree_ind' (P : tree → Prop) :
  P TNull → (∀ b, P (TBool b)) → (∀ n, P (TNum n)) → (∀ x, P (TFloat x)) → (∀ s, P (TStr s)) →
  (∀ l, Forall P l → P (TArr l)) → (∀ l, Forall (λ kv, P kv.2) l → P (TObj l)) → ∀ t, P t.
Proof.
  intros Hn Hb Hz Hf Hs Ha Ho. fix go 1.
  intros [|b|n|x|s|l|l]; [exact Hn|apply Hb|apply Hz|apply Hf|apply Hs|apply Ha|apply Ho].
  - induction l as [|t l IH]; constructor; [apply go|exact IH].
  - induction l as [|[k t] l IH]; constructor; [apply go|exact IH].
Qed.

Lemma tree_eqb_refl t : tree_eqb t t = true.
Proof.
  induction t as [|b|n|x|s|l Hl|l Hl] using tree_ind'; simpl; try done.
  - by destruct b.
  - apply Z.eqb_refl.
  - by rewrite bool_decide_eq_true_2, orb_true_r.
  - apply String.eqb_refl.
  - induction Hl as [|t l Ht Hl IH]; [done|]. by rewrite Ht, IH.
  - induction Hl as [|[k t] l Ht Hl IH]; [done|]. simpl in Ht. by rewrite String.eqb_refl, Ht, IH.
Qed.

Global Instance json_tree_laws : JsonLaws json_tree.
Proof.
  split; simpl; try done.
  - by intros k [].
  - intros x ->. done.
  - intros z [H1%Z.leb_le H2%Z.leb_le]. by rewrite H1, H2.
  - intros z [H1%Z.leb_le H2%Z.ltb_lt]. by rewrite H1, H2.
  - intros x ->. done.
  - apply tree_eqb_refl.
  - intros l l'. revert l'. induction l as [|a l IH]; intros [|b l']; simpl; try done.
    intros ?; breflect. f_equal; [done|]. by apply IH.
  - intros k x [| | | | | |l] Hl; try done. eexists. split; [done|]. split; [done|].
    intros k'. rewrite fields_get_insert; [|rewrite fields_get_remove; by case_decide].
    case_decide; [done|]. rewrite fields_get_remove. by rewrite decide_False.
  - intros k x [| | | | | |l] v' [= <-]; (split; [done|]); intros k'; unfold fields_get; simpl.
    + destruct (k =s k') eqn:E; breflect; simpl; case_decide; congruence.
    + fold (fields_get k' (fields_insert k x (fields_remove k l))). fold (fields_get k' l).
      rewrite fields_get_insert; [|rewrite fields_get_remove; by case_decide].
      case_decide; [done|]. rewrite fields_get_remove. by rewrite decide_False.
  - by intros k [].
  - intros k k' [| | | | | |l]; simpl; try by case_decide. apply fields_get_remove.
Qed.
