(* ===== verification/Errors.v ===== *)
(** Errors of the production map services
    ([src/core/production_map/errors.rs]): one constructor per variant, with
    the payload the code carries. *)
From S2P Require Import Prelude.

(** [types/control.rs]: why an order cannot be deleted. *)
Record OrderDeleteBlocker := {
  blocker_code : string;
  blocker_message : string;
}.

Definition OrderDeleteBlocker_new (code message : string) : OrderDeleteBlocker :=
  {| blocker_code := code; blocker_message := message |}.

Inductive ProductionMapError : Type :=
  | ReactivationDenied (_ : string)
  | TemplateIdentityConflict
  | PrintSideChanged
  | MissingId
  | MissingProductCode
  | MissingTitle
  | MissingStart
  | MissingEnd
  | DuplicateNode (_ : string)
  | DuplicateOrderNumber
  | OrderNumberImmutable
  | OrderNumberExhausted
  | MissingEdgeNode (_ : string)
  | Cycle
  | MissingFormulaTarget
  | MissingFormulaExpression
  | InvalidFormulaTarget (_ : string)
  | InvalidFormulaExpression (_ : string)
  | MapNotFound
  | InvalidOrderQty
  | InvalidPrintValSize
  | InvalidNodeQty (_ : string)
  | InvalidLocation (_ : string)
  | UnknownFormulaVariable (_ : string)
  | FormulaDivisionByZero
  | MissingConditionBranch
  | MoveNotAllowed
  | StartedOrderMoveRequiresTransfer
  | StartedProductionMapStageLocked
  | OpenedOrderCalculationLocked
  | ApparatusTransferReasonRequired
  | ApparatusTransferIdempotencyRequired
  | ApparatusTransferIdempotencyConflict
  | ApparatusTransferOrderNotPaused
  | ApparatusTransferSessionNotFound
  | ApparatusTransferProgressNotFound
  | ApparatusTransferSessionMismatch
  | ApparatusTransferProgressMismatch
  | ApparatusTransferTargetConflict
  | StoreFailed
  | QueueActionNotAllowed
  | QueueReorderInvalid
  | QueueReorderConflict
  | QueueReorderFrozen
  | QueueReorderBlocked
  | QueueReorderIdempotencyConflict
  | PrintPreflightActive
  | PrintPreflightNotFound
  | PrintPreflightNotReady
  | PrintPreflightActionNotAllowed
  | QueueSequenceOrderNotFound (_ : string)
  | QueueSequenceApparatusMismatch (_ : string)
  | OrderNotStarted
  | OrderAlreadyCompleted
  | OrderFreezeRequested
  | OrderFrozen
  | OrderControlActionNotAllowed
  | OrderFreezeTargetNotFound
  | OrderFreezeTargetAmbiguous
  | OrderFreezeRequestMismatch
  | OrderDeleteBlocked (_ : list OrderDeleteBlocker)
  | PreviousStageNotCompleted
  | ApparatusNotAssigned
  | ApparatusWidthExceedsCapability
  | ApparatusWidthBelowCapability
  | ApparatusRollCountExceedsCapability
  | ApparatusQueuePolicyLocked
  | RawMaterialInvalidInput
  | RawMaterialGroupNotAllowed
  | RawMaterialGroupAmbiguous (_ : list string)
  | RawMaterialAlreadyAssigned
  | RawMaterialAlreadyAssignedToOrder
  | RawMaterialAssignmentNotFound
  | RawMaterialAssignmentLocked
  | RawMaterialStockUnavailable
  | RawMaterialOrderNotActive
  | QolipLocationNotFound
  | QolipCodeMismatch
  | QolipAlreadyInUse
  | QolipInRework
  | QolipAutomaticConfirmationDisabled
  | QolipPolicyChanged
  | QolipSetChanged
  | QolipInsufficientStock
  | QolipLocationIdentityMismatch
  | RawMaterialScanRequired
  | RawMaterialMismatch
  | RawMaterialStateNotReady
  | RawMaterialScanIncomplete
  | RawMaterialRequirementNotMet
  | RawMaterialRollSizeMissing
  | RawMaterialRollSizeMismatch
  | ProgressInputInvalid
  | BobinaExceedsGross
  | ProgressQrRequired
  | MergeInputRequired
  | MergeInputSame
  | MergeInputAlreadyUsed
  | MergeInputNotAccepted
  | MergeInputFrameCountMismatch (active_kadr_count : Z) (scanned_kadr_count : Z)
  | BosmaCompletionMetricsRequired
  | LaminatsiyaCompletionMetricsRequired
  | LaminatsiyaAstatkaMetricsRequired
  | LaminationRemainderSourceMissing
  | LaminationRemainderSourceAmbiguous
  | RezkaAstatkaMetricsRequired
  | RezkaProgressMetricsRequired
  | RezkaKadrCountRequired
  | InvalidRezkaFrameGroups
  | RezkaFrameCountMismatch
  | RezkaOutputCycleConflict
  | RezkaBobinaModeChanged (_ : bool)
  | RezkaFinalRollRequired
  | WarehouseQrAmbiguous
  | WarehouseWipConflict
  | ProgressBatchNotFound
  | ProgressBatchNotAccepted
  | WipRouteSourceUnresolved
  | WipRouteDestinationUnresolved
  | WipRouteAmbiguous
  | WipRouteChanged
  | ProgressBatchAlreadyUsed (apparatus_name : string)
  | ProgressBatchInUse (apparatus_name : string)
  | ProgressBatchNotResumable
  | ProgressBatchCorrectionReasonRequired
  | ProgressBatchCorrectionForbidden
  | ProgressBatchCorrectionLocked
  | ProgressBatchCorrectionConflict
  | ProgressBatchCorrectionUnchanged
  | OpeningWipInvalidInput
  | OpeningWipEntryMismatch
  | OpeningWipLocationMismatch
  | OpeningWipSourceMismatch
  | OpeningWipSourceFinalStage
  | OpeningWipTargetStageAlreadyCompleted
  | OpeningWipOrderAlreadyStarted
  | OpeningWipIdempotencyConflict
  | OpeningWipDeleteLocked
  | OpeningWipDeleteForbidden
  | PaddonInvalidInput
  | PaddonRollKindConflict
  | PaddonLocked
  | PaddonUnlockForbidden
  | PaddonTransferForbidden
  | ActivePaddonRequired
  | PaddonReceiptConflict
  | PaddonAlreadyReceived
  | PaddonCodeExhausted
  | PaddonNotFound
  | PaddonDeleteLocked
  | PaddonItemAlreadyAssigned
  | PaddonItemNotAssigned
  | CapacityProfileInvalid
  | CapacityProfileNotFound
  | CapabilityNotSupported
  | CapabilityLevelInsufficient
  | CapacityConflict
  | CapacityNoWorkingWindow
  | CapacityUnavailable
  | ScheduleInputInvalid
  | ScheduleIdempotencyConflict
  | ScheduleReservationNotFound
  | ScheduleReservationLocked.

(** [Result<A, ProductionMapError>]. *)
Abbreviation pm_result := (result ProductionMapError).

(** * Panics

    Code that may panic ([expect], indexing, slicing off a character boundary)
    has a second way to stop besides returning an error. *)
Inductive fault := Panic | Fail (e : ProductionMapError).

Abbreviation run_result := (result fault).

(** A computation that cannot panic, run where panics are possible. *)
Definition lift {A} (r : pm_result A) : run_result A :=
  match r with Ok a => Ok a | Err e => Err (Fail e) end.

(** [Option::expect]. *)
Definition expect {A} (o : option A) : run_result A := ok_or o Panic.

Lemma lift_Ok {A} (r : pm_result A) a : lift r = Ok a ↔ r = Ok a.
Proof. destruct r; naive_solver. Qed.

(** Inversion of a computation that may panic, and did not fail. *)
Ltac inv_run :=
  repeat match goal with
  | H : mbind _ _ = Ok _ |- _ => apply bind_Ok in H as (? & ? & H)
  | H : lift _ = Ok _ |- _ => apply lift_Ok in H
  | H : check _ _ = Ok _ |- _ => apply check_Ok in H
  | H : ok_or _ _ = Ok _ |- _ => apply ok_or_Ok in H
  end.

Lemma lift_not_panic {A} (r : pm_result A) : lift r ≠ Err Panic.
Proof. by destruct r. Qed.

Lemma lift_Err {A} (r : pm_result A) f : lift r = Err f ↔ ∃ e, f = Fail e ∧ r = Err e.
Proof. destruct r; naive_solver. Qed.

Lemma expect_Ok {A} (o : option A) a : expect o = Ok a ↔ o = Some a.
Proof. destruct o; naive_solver. Qed.

#[export] Hint Resolve lift_not_panic : mes.
