(* ===== verification/Identity.v ===== *)
(** Apparatus identity.

    [crates/mini_rs_apparatus_contract/src/identity.rs] (the shape of a
    canonical apparatus id) and [src/core/production_map/queue/
    apparatus_identity.rs] with [stage_ids_match] of [progress_session/
    progress.rs] (how live code compares identities).  The theorems give the
    grammar the validator accepts and show that identity comparison is exact:
    blind to surrounding white space, never to anything else. *)
From Stdlib Require Import Ascii.
From S2P Require Import Prelude RustStr.

Definition APPARATUS_ID_PREFIX : string := "apparatus:".
Definition MAX_ID_LENGTH : nat := 128.

Inductive ApparatusIdError := IdEmpty | IdInvalidShape | IdInvalidCharacters.

(** The characters of a namespace or key. *)
Definition id_segment_char (a : ascii) : bool :=
  is_ascii_lowercase a || is_ascii_digit a ||
  Ascii.eqb a "-" || Ascii.eqb a "_" || Ascii.eqb a ".".

Definition validate_shape (value : string) : result ApparatusIdError unit :=
  if is_empty (trim value) then Err IdEmpty
  else if (value <>s trim value) ||
          existsb (λ c, is_whitespace c || is_control c) (chars value)
  then Err IdInvalidCharacters
  else if (MAX_ID_LENGTH <? String.length value)%nat ||
          negb (starts_with value APPARATUS_ID_PREFIX)
  then Err IdInvalidShape
  else
    let rest := drop_bytes (String.length APPARATUS_ID_PREFIX) value in
    match split_on ":" rest with
    | namespace :: opaque_key :: more =>
        if is_empty namespace || is_empty opaque_key || negb (Nat.eqb (length more) 0)
        then Err IdInvalidShape
        else if existsb (λ segment, negb (all_bytes id_segment_char segment))
                  [namespace; opaque_key]
        then Err IdInvalidShape
        else Ok tt
    | _ => Err IdInvalidShape
    end.

(** The validated newtype. *)
Record ApparatusId := mk_ApparatusId { apparatus_id_str : string }.

Definition ApparatusId_new (value : string) : result ApparatusIdError ApparatusId :=
  _ ← validate_shape value; Ok (mk_ApparatusId value).

Definition ApparatusId_is_valid (value : string) : bool := is_ok (validate_shape value).

(** [is_canonical_apparatus_id] and friends of [apparatus_identity.rs]. *)
Definition is_canonical_apparatus_id (value : string) : bool :=
  ApparatusId_is_valid (trim value).

Definition apparatus_ids_match (left right : string) : bool :=
  let left := trim left in
  let right := trim right in
  (left =s right) && ApparatusId_is_valid left.

Definition apparatus_matches_assigned (apparatus : string) (assigned : list string) : bool :=
  let apparatus := trim apparatus in
  ApparatusId_is_valid apparatus && existsb (λ item, trim item =s apparatus) assigned.

Definition apparatus_search_key (value : string) : string :=
  let value := trim value in
  if is_canonical_apparatus_id value then value else "".

(** [progress_session/progress.rs]: task stages are identified by their
    [task:<node-id>] form. *)
Definition is_stable_task_stage_id (value : string) : bool :=
  if negb (starts_with value "task:") then false
  else
    let task_id := drop_bytes 5 value in
    negb (is_empty task_id) &&
    all_bytes (λ c, is_ascii_lowercase c || is_ascii_digit c ||
      Ascii.eqb c "-" || Ascii.eqb c "_" || Ascii.eqb c ":" || Ascii.eqb c ".") task_id.

Definition stage_ids_match (left right : string) : bool :=
  if apparatus_ids_match left right then true
  else
    let left := trim left in
    let right := trim right in
    is_stable_task_stage_id left && is_stable_task_stage_id right && (left =s right).

(** * Lemmas *)

Global Instance ApparatusId_eq_dec : EqDecision ApparatusId.
Proof. solve_decision. Defined.

Lemma starts_with_app s p : starts_with s p = true ↔ s = p +:+ drop_bytes (String.length p) s.
Proof.
  unfold starts_with. revert s. induction p as [|a p IH]; intros s; simpl.
  - split; [done|]. intros _. by destruct s.
  - destruct s as [|b s]; simpl; [done|].
    destruct (ascii_dec a b) as [->|Hne].
    + rewrite IH. change (String b p +:+ ?t) with (String b (p +:+ t)).
      split; [intros H; by rewrite <-H|congruence].
    + split; [done|]. intros [=]. congruence.
Qed.

Lemma split_on_two sep s a b :
  split_on sep s = [a; b] →
  s = a +:+ String sep b ∧
  all_bytes (λ c, negb (Ascii.eqb c sep)) a = true ∧
  all_bytes (λ c, negb (Ascii.eqb c sep)) b = true.
Proof.
  assert (∀ s a, split_on sep s = [a] →
    s = a ∧ all_bytes (λ c, negb (Ascii.eqb c sep)) a = true) as Hone.
  { clear. induction s as [|c s IH]; intros a; simpl; [intros [= <-]; done|].
    destruct (Ascii.eqb c sep) eqn:Ec.
    { destruct (split_on sep s) eqn:E; [|done]. destruct s; simpl in E; [done|].
      repeat case_match; done. }
    destruct (split_on sep s) as [|p ps] eqn:E.
    { destruct s; simpl in E; [done|]. repeat case_match; done. }
    intros [= <- Hp]; subst.
    destruct (IH p eq_refl) as [-> Hall]. split; [done|]. simpl. by rewrite Ec, Hall. }
  revert a b. induction s as [|c s IH]; intros a b; simpl; [done|].
  destruct (Ascii.eqb c sep) eqn:Ec.
  - intros [= <- Hs]. apply Hone in Hs as [-> Hb]. apply Ascii.eqb_eq in Ec as ->. done.
  - destruct (split_on sep s) as [|p ps] eqn:E; [done|].
    intros [= <- ->]. destruct (IH p b eq_refl) as (-> & Ha & Hb).
    split; [done|]. simpl. by rewrite Ec, Ha.
Qed.

Lemma split_on_app sep a b :
  all_bytes (λ c, negb (Ascii.eqb c sep)) a = true →
  all_bytes (λ c, negb (Ascii.eqb c sep)) b = true →
  split_on sep (a +:+ String sep b) = [a; b].
Proof.
  intros Ha Hb.
  assert (split_on sep b = [b]) as Hb1.
  { clear Ha. induction b as [|c b IH]; [done|]. simpl in *.
    apply andb_true_iff in Hb as [Hc Hb]. apply negb_true_iff in Hc.
    by rewrite Hc, IH. }
  induction a as [|c a IH].
  - change ("" +:+ ?t) with t. simpl. by rewrite Ascii.eqb_refl, Hb1.
  - simpl in Ha. apply andb_true_iff in Ha as [Hc Ha]. apply negb_true_iff in Hc.
    change (String c a +:+ ?t) with (String c (a +:+ t)). simpl. by rewrite Hc, IH.
Qed.

Lemma id_char_graphic a : id_segment_char a = true → graphic a = true.
Proof. by destruct a as [[] [] [] [] [] [] [] []]. Qed.
Lemma id_char_not_colon a :
  id_segment_char a = true → negb (Ascii.eqb a ":") = true.
Proof. by destruct a as [[] [] [] [] [] [] [] []]. Qed.

(** The grammar of canonical apparatus ids. *)
Definition canonical_form (value : string) : Prop :=
  ∃ ns key, value = "apparatus:" +:+ ns +:+ ":" +:+ key ∧
    ns ≠ "" ∧ key ≠ "" ∧
    all_bytes id_segment_char ns = true ∧ all_bytes id_segment_char key = true ∧
    String.length value ≤ 128.

Lemma canonical_graphic value : canonical_form value → all_bytes graphic value = true.
Proof.
  intros (ns & key & -> & _ & _ & Hns & Hkey & _).
  rewrite !all_bytes_append.
  rewrite (all_bytes_impl _ _ _ id_char_graphic Hns).
  by rewrite (all_bytes_impl _ _ _ id_char_graphic Hkey).
Qed.

Lemma drop_bytes_append p s : drop_bytes (String.length p) (p +:+ s) = s.
Proof. induction p as [|a p IH]; [by destruct s|]. exact IH. Qed.

Lemma validate_shape_sound value :
  validate_shape value = Ok tt → canonical_form value.
Proof.
  unfold validate_shape. intros H.
  destruct (is_empty (trim value)); [done|].
  destruct ((value <>s trim value) || _); [done|].
  destruct (_ || negb (starts_with _ _)) eqn:E; [done|]. breflect.
  apply starts_with_app in H1.
  destruct (split_on _ _) as [|ns [|key more]] eqn:Hsplit; [done..|].
  destruct (is_empty ns || is_empty key || _) eqn:E1; [done|].
  destruct (existsb _ _) eqn:E2; [done|]. breflect.
  simpl in E2. breflect. destruct more; [|done].
  apply split_on_two in Hsplit as (Hrest & _ & _).
  exists ns, key. rewrite Hrest in H1. apply Nat.ltb_ge in H0.
  split_and!; [exact H1|by destruct ns|by destruct key|done|done|exact H0].
Qed.

Lemma validate_shape_complete value :
  canonical_form value → validate_shape value = Ok tt.
Proof.
  intros Hc. pose proof (canonical_graphic _ Hc) as Hg.
  destruct Hc as (ns & key & Hv & Hns0 & Hkey0 & Hns & Hkey & Hlen).
  unfold validate_shape. rewrite (trim_graphic _ Hg).
  assert (is_empty value = false) as -> by (by rewrite Hv).
  rewrite String.eqb_refl. simpl negb. rewrite orb_false_l.
  assert (existsb (λ c, is_whitespace c || is_control c) (chars value) = false) as ->.
  { apply existsb_false. intros c Hin.
    destruct (chars_graphic _ _ Hg Hin) as [-> ->]. done. }
  assert (starts_with value APPARATUS_ID_PREFIX = true) as ->.
  { apply starts_with_app. rewrite Hv. unfold APPARATUS_ID_PREFIX.
    by rewrite drop_bytes_append. }
  unfold MAX_ID_LENGTH. rewrite (proj2 (Nat.ltb_ge _ _) Hlen). simpl orb.
  rewrite Hv. unfold APPARATUS_ID_PREFIX. rewrite drop_bytes_append.
  change (":" +:+ key) with (String ":" key).
  rewrite split_on_app;
    [|by eapply all_bytes_impl; [apply id_char_not_colon|]..].
  destruct ns; [done|]. destruct key; [done|]. simpl length.
  cbn [existsb is_empty]. by rewrite Hns, Hkey.
Qed.

(** An apparatus id is accepted exactly when it is the prefix followed by
    two non-empty segments of lower-case letters, digits, dash, underscore and
    dot, joined by a colon, and at most 128 bytes long. *)
Theorem validate_shape_grammar value :
  validate_shape value = Ok tt ↔ canonical_form value.
Proof. split; [apply validate_shape_sound|apply validate_shape_complete]. Qed.

Lemma valid_id_trim value : ApparatusId_is_valid value = true → trim value = value.
Proof.
  unfold ApparatusId_is_valid. destruct (validate_shape value) as [[]|] eqn:E; [|done].
  intros _. by apply trim_graphic, canonical_graphic, validate_shape_sound.
Qed.

Lemma apparatus_ids_match_spec l r :
  apparatus_ids_match l r = true ↔ trim l = trim r ∧ ApparatusId_is_valid (trim l) = true.
Proof. unfold apparatus_ids_match. by rewrite andb_true_iff, String.eqb_eq. Qed.
