(* ===== verification/QueueState.v ===== *)
(** The apparatus queue: per-order state machine, sequencing and policies.

    Models [src/core/production_map/queue/state.rs] (states, actions, the
    transition function), [actions.rs] (strict and unordered application),
    [sequence.rs] (the effective sequence and the next actionable order),
    [policy.rs] (the actions offered to operators) and the queue helpers of
    [support.rs] that validate, parse, apply and serialize a queue.

    A [BTreeMap<String, ApparatusQueueOrderState>] is a [gmap]; functions that
    take [&mut] states return the new states. *)
From Stdlib Require Import Ascii.
From S2P Require Import Prelude RustStr Errors Identity.

(** * States and actions (state.rs) *)

Module OrderState.
Inductive t := Pending | PrintPreflight | InProgress | Paused | Frozen | Completed.

Definition parse (value : string) : option t :=
  let value := trim value in
  if eq_ignore_ascii_case value "pending" then Some Pending
  else if eq_ignore_ascii_case value "print_preflight" then Some PrintPreflight
  else if eq_ignore_ascii_case value "in_progress" then Some InProgress
  else if eq_ignore_ascii_case value "paused" then Some Paused
  else if eq_ignore_ascii_case value "frozen" then Some Frozen
  else if eq_ignore_ascii_case value "completed" then Some Completed
  else None.

Definition as_str (s : t) : string :=
  match s with
  | Pending => "pending"
  | PrintPreflight => "print_preflight"
  | InProgress => "in_progress"
  | Paused => "paused"
  | Frozen => "frozen"
  | Completed => "completed"
  end.

Definition is_active (s : t) : bool :=
  match s with InProgress | PrintPreflight => true | _ => false end.

Definition allows_material_intake (s : t) : bool :=
  match s with InProgress | Paused => true | _ => false end.

Global Instance eq_dec : EqDecision t.
Proof. solve_decision. Defined.
End OrderState.

Module Action.
Inductive t := Start | Pause | Freeze | DetachRoll | Resume | Merge | RollComplete | Complete.

Definition parse (value : string) : option t :=
  let value := trim value in
  if eq_ignore_ascii_case value "start" then Some Start
  else if eq_ignore_ascii_case value "pause" then Some Pause
  else if eq_ignore_ascii_case value "freeze" then Some Freeze
  else if eq_ignore_ascii_case value "detach_roll" then Some DetachRoll
  else if eq_ignore_ascii_case value "resume" then Some Resume
  else if eq_ignore_ascii_case value "merge" then Some Merge
  else if eq_ignore_ascii_case value "roll_complete" then Some RollComplete
  else if eq_ignore_ascii_case value "complete" then Some Complete
  else None.

Definition as_str (a : t) : string :=
  match a with
  | Start => "start"
  | Pause => "pause"
  | Freeze => "freeze"
  | DetachRoll => "detach_roll"
  | Resume => "resume"
  | Merge => "merge"
  | RollComplete => "roll_complete"
  | Complete => "complete"
  end.

Definition creates_resumable_output (a : t) : bool :=
  match a with Pause | DetachRoll => true | _ => false end.

Definition records_progress_output (a : t) : bool :=
  match a with Pause | DetachRoll | RollComplete | Complete => true | _ => false end.

Global Instance eq_dec : EqDecision t.
Proof. solve_decision. Defined.

(** The actions that claim the apparatus. *)
Definition claims (a : t) : bool :=
  match a with Start | Resume => true | _ => false end.
End Action.

Definition next_queue_state (current : OrderState.t) (action : Action.t)
  : pm_result OrderState.t :=
  match current, action with
  | (OrderState.Pending | OrderState.PrintPreflight), Action.Start => Ok OrderState.InProgress
  | OrderState.PrintPreflight, Action.Freeze => Ok OrderState.Frozen
  | OrderState.InProgress, Action.Pause => Ok OrderState.Paused
  | OrderState.InProgress, Action.Freeze => Ok OrderState.Frozen
  | OrderState.InProgress, Action.DetachRoll => Ok OrderState.Paused
  | OrderState.Paused, Action.Resume => Ok OrderState.InProgress
  | OrderState.InProgress, (Action.Merge | Action.RollComplete) => Ok OrderState.InProgress
  | OrderState.InProgress, Action.Complete => Ok OrderState.Completed
  | _, _ => Err QueueActionNotAllowed
  end.

(** * Sequencing (sequence.rs) *)

Abbreviation queue_states := (gmap string OrderState.t).

(** [states.get(id).copied().unwrap_or(Pending)]. *)
Definition state_of (states : queue_states) (id : string) : OrderState.t :=
  default OrderState.Pending (states !! id).

(** One pass of [for id in ids]: push the trimmed id when it is kept and
    [seen.insert(id)] is true. *)
Fixpoint push_unseen (keep : string → bool) (ids : list string)
    (seen : gset string) (result : list string) : gset string * list string :=
  match ids with
  | [] => (seen, result)
  | id :: ids =>
      let id := trim id in
      if keep id && bool_decide (id ∉ seen)
      then push_unseen keep ids ({[id]} ∪ seen) (result ++ [id])
      else push_unseen keep ids seen result
  end.

Definition nonempty_trimmed (ids : list string) : gset string :=
  list_to_set (List.filter (λ id, negb (is_empty id)) (trim <$> ids)).

Definition effective_apparatus_sequence_excluding
    (stored_sequence visible_order_ids : list string)
    (excluded_order_ids : gset string) : list string :=
  let excluded := nonempty_trimmed (elements excluded_order_ids) in
  let visible : gset string :=
    list_to_set (List.filter (λ id, negb (is_empty id) && bool_decide (id ∉ excluded))
                   (trim <$> visible_order_ids)) in
  if bool_decide (visible = ∅) then []
  else
    let '(seen, result) :=
      push_unseen (λ id, negb (is_empty id) && bool_decide (id ∈ visible))
        stored_sequence ∅ [] in
    let '(_, result) :=
      push_unseen (λ id, negb (is_empty id) && bool_decide (id ∉ excluded))
        (reverse visible_order_ids) seen result in
    result.

Definition effective_apparatus_sequence
    (stored_sequence visible_order_ids : list string) : list string :=
  effective_apparatus_sequence_excluding stored_sequence visible_order_ids ∅.

(** The scan of [first_actionable_order_id] with its [first_waiting]. *)
Fixpoint first_actionable_from (sequence : list string) (states : queue_states)
    (first_waiting : option string) : option string :=
  match sequence with
  | [] => first_waiting
  | id :: sequence =>
      let id := trim id in
      if is_empty id then first_actionable_from sequence states first_waiting
      else match state_of states id with
      | OrderState.InProgress | OrderState.PrintPreflight => Some id
      | OrderState.Pending | OrderState.Paused =>
          let first_waiting :=
            match first_waiting with Some w => Some w | None => Some id end in
          first_actionable_from sequence states first_waiting
      | OrderState.Frozen | OrderState.Completed =>
          first_actionable_from sequence states first_waiting
      end
  end.

Definition first_actionable_order_id (sequence : list string) (states : queue_states)
  : option string := first_actionable_from sequence states None.

(** * Application (actions.rs) *)

(** [states.iter().any(|(id, state)| id.trim() != order_id && state.is_active())]. *)
Definition other_active (states : queue_states) (order_id : string) : bool :=
  existsb (λ '(id, state), (trim id <>s order_id) && OrderState.is_active state)
    (map_to_list states).

Definition apply_unordered_queue_action (states : queue_states) (order_id : string)
    (action : Action.t) : pm_result queue_states :=
  let order_id := trim order_id in
  if is_empty order_id then Err MissingId
  else if Action.claims action && other_active states order_id
  then Err QueueActionNotAllowed
  else
    next ← next_queue_state (state_of states order_id) action;
    Ok (<[order_id := next]> states).

Definition apply_queue_action (sequence : list string) (states : queue_states)
    (order_id : string) (action : Action.t) : pm_result queue_states :=
  let order_id := trim order_id in
  if is_empty order_id then Err MissingId
  else if negb (existsb (λ id, trim id =s order_id) sequence)
  then Err QueueActionNotAllowed
  else if Action.claims action &&
          bool_decide (first_actionable_order_id sequence states ≠ Some order_id)
  then Err QueueActionNotAllowed
  else apply_unordered_queue_action states order_id action.

(** * Queue requests (support.rs) *)

Inductive ApparatusQueuePolicy := StrictSequence | FreePick.

Definition ApparatusQueuePolicy_parse (value : string) : option ApparatusQueuePolicy :=
  let value := trim value in
  if eq_ignore_ascii_case value "strict_sequence" then Some StrictSequence
  else if eq_ignore_ascii_case value "free_pick" then Some FreePick
  else None.

Definition ApparatusQueuePolicy_as_str (p : ApparatusQueuePolicy) : string :=
  match p with StrictSequence => "strict_sequence" | FreePick => "free_pick" end.

Definition validate_queue_action_request (apparatus order_id : string)
    (assigned_apparatus : list string) : pm_result unit :=
  if is_empty apparatus then Err MissingId
  else if is_empty order_id then Err MissingId
  else if negb (is_canonical_apparatus_id apparatus) then Err ApparatusNotAssigned
  else if negb (apparatus_matches_assigned apparatus assigned_apparatus)
  then Err ApparatusNotAssigned
  else Ok tt.

Definition parsed_queue_states (states : gmap string string) : queue_states :=
  omap OrderState.parse states.

Definition validate_requested_queue_state (states : gmap string string) (order_id : string)
  : pm_result unit :=
  match states !! trim order_id with
  | None => Ok tt
  | Some raw_state => _ ← ok_or (OrderState.parse raw_state) QueueActionNotAllowed; Ok tt
  end.

Definition apply_queue_policy (policy : ApparatusQueuePolicy) (sequence : list string)
    (parsed : queue_states) (order_id : string) (action : Action.t)
  : pm_result queue_states :=
  match policy with
  | StrictSequence => apply_queue_action sequence parsed order_id action
  | FreePick => apply_unordered_queue_action parsed order_id action
  end.

Definition apply_requeued_resume (policy : ApparatusQueuePolicy) (sequence : list string)
    (parsed : queue_states) (order_id : string) : pm_result queue_states :=
  if match policy with StrictSequence => true | FreePick => false end &&
     bool_decide (first_actionable_order_id sequence parsed ≠ Some order_id)
  then Err QueueActionNotAllowed
  else if bool_decide (state_of parsed order_id ≠ OrderState.Pending)
  then Err QueueActionNotAllowed
  else Ok (<[order_id := OrderState.InProgress]> parsed).

Definition serialized_queue_states (parsed : queue_states) : gmap string string :=
  OrderState.as_str <$> parsed.

Definition queue_states_for_order (queue_states : gmap string (gmap string string))
    (order_id : string) : gmap string (gmap string string) :=
  let order_id := trim order_id in
  omap (λ states : gmap string string,
    (λ state, {[order_id := state]}) <$> states !! order_id) queue_states.

(** * Order control (types/control.rs) *)

Module OrderControl.
Inductive t := Active | FreezeRequested | Frozen.

Definition parse (value : string) : option t :=
  let value := trim value in
  if eq_ignore_ascii_case value "active" then Some Active
  else if eq_ignore_ascii_case value "freeze_requested" then Some FreezeRequested
  else if eq_ignore_ascii_case value "frozen" then Some Frozen
  else None.

Definition as_str (s : t) : string :=
  match s with
  | Active => "active"
  | FreezeRequested => "freeze_requested"
  | Frozen => "frozen"
  end.

Global Instance eq_dec : EqDecision t.
Proof. solve_decision. Defined.
End OrderControl.

Module FreezeRequestStatus.
Inductive t := Pending | Frozen | Cancelled | Unfrozen.

Definition parse (value : string) : option t :=
  let value := trim value in
  if eq_ignore_ascii_case value "pending" then Some Pending
  else if eq_ignore_ascii_case value "frozen" then Some Frozen
  else if eq_ignore_ascii_case value "cancelled" then Some Cancelled
  else if eq_ignore_ascii_case value "unfrozen" then Some Unfrozen
  else None.

Definition as_str (s : t) : string :=
  match s with
  | Pending => "pending"
  | Frozen => "frozen"
  | Cancelled => "cancelled"
  | Unfrozen => "unfrozen"
  end.
End FreezeRequestStatus.

(** * Offered actions (policy.rs) *)

Inductive QueueActionPolicyProfile :=
  | Live (order_control : OrderControl.t) (is_rezka merge_ready : bool)
  | Training (is_rezka : bool).

Record QueueActionPolicyInput := {
  input_state : OrderState.t;
  input_profile : QueueActionPolicyProfile;
  requeued_session : bool;
  pending_actionable : bool;
  queue_actionable : bool;
  start_ready : bool;
}.

Definition is_training (p : QueueActionPolicyProfile) : bool :=
  match p with Training _ => true | Live _ _ _ => false end.

(** The [candidates] slice: an action with the runtime facts enabling it. *)
Definition action_candidates (input : QueueActionPolicyInput) : list (Action.t * bool) :=
  match input_state input with
  | OrderState.Pending =>
      [(Action.Start, pending_actionable input && start_ready input)]
  | OrderState.PrintPreflight =>
      match input_profile input with
      | Live OrderControl.FreezeRequested _ _ => [(Action.Freeze, queue_actionable input)]
      | Live _ _ _ => [(Action.Start, pending_actionable input && start_ready input)]
      | Training _ => []
      end
  | OrderState.InProgress =>
      match input_profile input with
      | Live order_control is_rezka merge_ready =>
          let active := bool_decide (order_control = OrderControl.Active) in
          [(Action.Pause, active || bool_decide (order_control = OrderControl.FreezeRequested));
           (Action.Freeze, active);
           (Action.Merge, active && merge_ready);
           (Action.RollComplete, active && is_rezka);
           (Action.Complete, active)]
      | Training is_rezka =>
          [(Action.Pause, true); (Action.DetachRoll, true);
           (Action.Complete, true); (Action.RollComplete, is_rezka)]
      end
  | OrderState.Paused =>
      let resume_allowed :=
        match input_profile input with
        | Live order_control _ _ => bool_decide (order_control = OrderControl.Active)
        | Training _ => true
        end in
      [(Action.Resume, queue_actionable input && resume_allowed)]
  | OrderState.Frozen | OrderState.Completed => []
  end.

Definition allowed_actions_for_control (input : QueueActionPolicyInput) : list Action.t :=
  if bool_decide (input_state input = OrderState.PrintPreflight) &&
     is_training (input_profile input) then []
  else if bool_decide (input_state input = OrderState.Pending) && requeued_session input
  then (* Requeued work resumes from Pending without a normal Start transition. *)
    if pending_actionable input then [Action.Resume] else []
  else
    omap (λ '(action, enabled),
      if enabled && is_ok (next_queue_state (input_state input) action)
      then Some action else None) (action_candidates input).

(** * Disciplines

    What every way of applying an action to an apparatus queue promises to the
    services above it: only the addressed order changes, it changes by the
    transition function, and claiming the apparatus requires that no other
    order occupies it. *)
Class QueueDiscipline (apply : queue_states → string → Action.t → pm_result queue_states) := {
  qd_transition s id a s' : apply s id a = Ok s' →
    next_queue_state (state_of s (trim id)) a = Ok (state_of s' (trim id));
  qd_frame s id a s' k : apply s id a = Ok s' → k ≠ trim id → s' !! k = s !! k;
  qd_exclusive s id a s' k : apply s id a = Ok s' → Action.claims a = true →
    trim k ≠ trim id → OrderState.is_active (state_of s k) = false;
  qd_present s id a s' : apply s id a = Ok s' →
    trim id ≠ "" ∧ is_Some (s' !! trim id);
}.

Lemma other_active_false s id k :
  other_active s id = false → trim k ≠ id → OrderState.is_active (state_of s k) = false.
Proof.
  unfold other_active, state_of. intros H Hk. destruct (s !! k) as [st|] eqn:E; [|done].
  rewrite existsb_false in H. specialize (H (k, st)). simpl in H |- *.
  rewrite elem_of_map_to_list in H. specialize (H E).
  apply andb_false_iff in H as [H|H]; [|done]. breflect. done.
Qed.

Lemma state_of_insert s id st : state_of (<[id := st]> s) id = st.
Proof. unfold state_of. by rewrite lookup_insert_eq. Qed.

Lemma state_of_insert_ne s id k st :
  k ≠ id → state_of (<[id := st]> s) k = state_of s k.
Proof. intros. unfold state_of. by rewrite lookup_insert_ne. Qed.

(** Inversion of a successful unordered application. *)
Lemma apply_unordered_Ok s id a s' :
  apply_unordered_queue_action s id a = Ok s' →
  trim id ≠ "" ∧
  (Action.claims a = true → other_active s (trim id) = false) ∧
  ∃ next, next_queue_state (state_of s (trim id)) a = Ok next ∧
    s' = <[trim id := next]> s.
Proof.
  unfold apply_unordered_queue_action. intros H.
  destruct (is_empty (trim id)) eqn:E1; [done|].
  destruct (Action.claims a && other_active s (trim id)) eqn:E2; [done|].
  inv_ok. split_and!.
  - by destruct (trim id).
  - intros Hc. by rewrite Hc in E2.
  - eauto.
Qed.

Lemma apply_queue_action_Ok seq s id a s' :
  apply_queue_action seq s id a = Ok s' →
  (∃ x, x ∈ seq ∧ trim x = trim id) ∧
  (Action.claims a = true → first_actionable_order_id seq s = Some (trim id)) ∧
  apply_unordered_queue_action s id a = Ok s'.
Proof.
  unfold apply_queue_action. intros H.
  destruct (is_empty (trim id)); [done|].
  destruct (negb (existsb _ _)) eqn:E1; [done|].
  destruct (Action.claims a && _) eqn:E2; [done|].
  apply negb_false_iff, existsb_elem in E1 as (x & Hx & ?%String.eqb_eq).
  split_and!; [by eauto| |].
  - intros Hc. rewrite Hc in E2. simpl in E2. apply bool_decide_eq_false in E2.
    destruct (decide (first_actionable_order_id seq s = Some (trim id))); [done|].
    by destruct E2.
  - unfold apply_unordered_queue_action in *. by rewrite trim_idemp in H.
Qed.

Global Instance unordered_discipline : QueueDiscipline apply_unordered_queue_action.
Proof.
  split; intros s id a s'; intros.
  all: match goal with H : apply_unordered_queue_action _ _ _ = Ok _ |- _ =>
    apply apply_unordered_Ok in H as (Hne & Hoth & next & Hn & ->) end.
  - by rewrite state_of_insert.
  - by rewrite lookup_insert_ne.
  - eapply other_active_false; [by apply Hoth|done].
  - split; [done|]. rewrite lookup_insert_eq. eauto.
Qed.

Global Instance strict_discipline seq : QueueDiscipline (apply_queue_action seq).
Proof.
  split; intros s id a s'; intros.
  all: match goal with H : apply_queue_action _ _ _ _ = Ok _ |- _ =>
    apply apply_queue_action_Ok in H as (_ & _ & H) end.
  - by eapply qd_transition.
  - by eapply qd_frame.
  - by eapply qd_exclusive.
  - by eapply qd_present.
Qed.

Global Instance policy_discipline policy seq : QueueDiscipline (apply_queue_policy policy seq).
Proof. destruct policy; simpl; apply _. Qed.
