(* ===== verification/QueueFacts.v ===== *)
(** Correctness of the apparatus queue: the application of an action, the
    strict order of a sequenced queue, the effective sequence, and the actions
    offered to operators. *)
From Stdlib Require Import Ascii.
From S2P Require Import Prelude RustStr Errors Identity QueueState.

(** * Occupation *)

(** At most one order (up to the spelling of its id) occupies the apparatus. *)
Definition single_active (s : queue_states) : Prop :=
  ∀ k1 k2, OrderState.is_active (state_of s k1) = true →
    OrderState.is_active (state_of s k2) = true → trim k1 = trim k2.

Lemma non_claim_keeps_active st a st' :
  next_queue_state st a = Ok st' → Action.claims a = false →
  OrderState.is_active st' = true → OrderState.is_active st = true.
Proof. destruct st, a; naive_solver. Qed.

Lemma discipline_single_active apply `{!QueueDiscipline apply} s id a s' :
  single_active s → apply s id a = Ok s' → single_active s'.
Proof.
  intros Hs Ha.
  pose proof (qd_transition _ _ _ _ Ha) as Ht.
  assert (∀ k, k ≠ trim id → state_of s' k = state_of s k) as Hf.
  { intros k Hk. unfold state_of. by rewrite (qd_frame _ _ _ _ k Ha Hk). }
  assert (∀ k, OrderState.is_active (state_of s' k) = true → trim k ≠ trim id →
    Action.claims a = false ∧ OrderState.is_active (state_of s k) = true) as Hothers.
  { intros k Hk Hne. rewrite Hf in Hk by (intros ->; by rewrite trim_idemp in Hne).
    split; [|done]. destruct (Action.claims a) eqn:Hc; [|done].
    by rewrite (qd_exclusive _ _ _ _ k Ha Hc Hne) in Hk. }
  assert (∀ k, OrderState.is_active (state_of s' k) = true → Action.claims a = false →
    OrderState.is_active (state_of s k) = true) as Hback.
  { intros k Hk Hc. destruct (decide (k = trim id)) as [->|Hne].
    - by eapply non_claim_keeps_active.
    - by rewrite <-Hf. }
  intros k1 k2 H1 H2.
  destruct (decide (trim k1 = trim id)) as [E1|E1], (decide (trim k2 = trim id)) as [E2|E2].
  - congruence.
  - destruct (Hothers k2 H2 E2) as [Hc ?]. apply Hs; auto.
  - destruct (Hothers k1 H1 E1) as [Hc ?]. apply Hs; auto.
  - destruct (Hothers k1 H1 E1) as [Hc ?]. apply Hs; auto.
Qed.

(** * Sequencing *)

Definition is_waiting (st : OrderState.t) : bool :=
  match st with OrderState.Pending | OrderState.Paused => true | _ => false end.

(** The ids of a sequence that name an order. *)
Definition named (seq : list string) : list string :=
  List.filter (λ id, negb (is_empty id)) (trim <$> seq).

(** Reference: an occupied apparatus first, else the first waiting order. *)
Definition first_actionable_spec (seq : list string) (s : queue_states) : option string :=
  match List.find (λ id, OrderState.is_active (state_of s id)) (named seq) with
  | Some id => Some id
  | None => List.find (λ id, is_waiting (state_of s id)) (named seq)
  end.

Lemma first_actionable_from_spec seq s w :
  first_actionable_from seq s w =
  match List.find (λ id, OrderState.is_active (state_of s id)) (named seq) with
  | Some id => Some id
  | None => match w with
            | Some w => Some w
            | None => List.find (λ id, is_waiting (state_of s id)) (named seq)
            end
  end.
Proof.
  revert w. induction seq as [|id seq IH]; intros w; simpl; [by destruct w|].
  unfold named in *. simpl. destruct (is_empty (trim id)) eqn:E; simpl; [apply IH|].
  destruct (state_of s (trim id)) eqn:Est; simpl; rewrite ?IH; simpl; try done;
    destruct w; done.
Qed.

Lemma first_actionable_eq seq s :
  first_actionable_order_id seq s = first_actionable_spec seq s.
Proof. apply first_actionable_from_spec. Qed.

Lemma find_first {A} (f : A → bool) l x :
  List.find f l = Some x →
  ∃ l1 l2, l = l1 ++ x :: l2 ∧ f x = true ∧ ∀ y, y ∈ l1 → f y = false.
Proof.
  induction l as [|y l IH]; simpl; [done|]. destruct (f y) eqn:E.
  - intros [= ->]. exists [], l. set_solver.
  - intros (l1 & l2 & -> & Hx & Hl)%IH. exists (y :: l1), l2. set_solver.
Qed.

Lemma find_first_iff {A} (f : A → bool) l x :
  List.find f l = Some x ↔
  ∃ l1 l2, l = l1 ++ x :: l2 ∧ f x = true ∧ ∀ y, y ∈ l1 → f y = false.
Proof.
  split; [apply find_first|]. intros (l1 & l2 & -> & Hx & Hl). induction l1 as [|y l1 IH]; simpl.
  - by rewrite Hx.
  - rewrite (Hl y) by set_solver. apply IH. set_solver.
Qed.

(** The order whose turn it is: the first running one of the sequence or, when none runs, a
    waiting one behind completed and frozen ones only. *)
Inductive next_in_line (seq : list string) (s : queue_states) (id : string) : Prop :=
  | next_running before after :
      named seq = before ++ id :: after → OrderState.is_active (state_of s id) = true →
      (∀ x, x ∈ before → OrderState.is_active (state_of s x) = false) → next_in_line seq s id
  | next_waiting before after :
      named seq = before ++ id :: after → is_waiting (state_of s id) = true →
      (∀ x, x ∈ named seq → OrderState.is_active (state_of s x) = false) →
      (∀ x, x ∈ before → state_of s x = OrderState.Completed ∨ state_of s x = OrderState.Frozen) →
      next_in_line seq s id.

Lemma first_actionable_next seq s id :
  first_actionable_order_id seq s = Some id ↔ next_in_line seq s id.
Proof.
  rewrite first_actionable_eq. unfold first_actionable_spec. split.
  - destruct (List.find (λ id, OrderState.is_active _) _) as [x|] eqn:E.
    + intros [= ->]. apply find_first in E as (l1 & l2 & ? & ? & ?). by eapply next_running.
    + rewrite find_none_elem in E. intros (l1 & l2 & Hn & Hw & Hl)%find_first.
      eapply next_waiting; [done..|]. intros x Hx. specialize (Hl x Hx).
      specialize (E x ltac:(rewrite Hn; set_solver)). simpl in *. destruct (state_of s x); naive_solver.
  - intros [before after Hn Ha Hb|before after Hn Hw Ha Hb].
    + assert (List.find (λ id, OrderState.is_active (state_of s id)) (named seq) = Some id) as ->; [|done].
      apply find_first_iff. eauto.
    + assert (List.find (λ id, OrderState.is_active (state_of s id)) (named seq) = None) as ->.
      { by apply find_none_elem. }
      apply find_first_iff. exists before, after. split; [done|]. split; [done|].
      intros y [->| ->]%Hb; done.
Qed.

(** In a strict queue a waiting order that starts or resumes is the next
    one: no order of the queue is running, and every order before it is
    completed or frozen. *)
Theorem strict_claim_is_next seq s id a s' :
  apply_queue_action seq s id a = Ok s' → Action.claims a = true →
  is_waiting (state_of s (trim id)) = true →
  (∀ x, x ∈ named seq → OrderState.is_active (state_of s x) = false) ∧
  ∃ before after, named seq = before ++ trim id :: after ∧
    ∀ x, x ∈ before →
      state_of s x = OrderState.Completed ∨ state_of s x = OrderState.Frozen.
Proof.
  intros (_ & Hf & _)%apply_queue_action_Ok Hc Hw. specialize (Hf Hc).
  rewrite first_actionable_eq in Hf. unfold first_actionable_spec in Hf.
  destruct (List.find _ _) as [x|] eqn:E1; simplify_eq.
  { apply find_elem in E1 as [_ E1]. by destruct (state_of s (trim id)). }
  rewrite find_none_elem in E1. split; [done|].
  apply find_first in Hf as (l1 & l2 & Heq & _ & Hl1).
  exists l1, l2. split; [done|]. intros x Hx.
  specialize (Hl1 x Hx). specialize (E1 x ltac:(rewrite Heq; set_solver)). simpl in *.
  destruct (state_of s x); naive_solver.
Qed.

(** A strict queue whose running order is part of the sequence never
    deadlocks: some action of the first actionable order succeeds. *)
Theorem strict_queue_live seq s id :
  first_actionable_order_id seq s = Some id →
  (∀ k, OrderState.is_active (state_of s k) = true → trim k = k ∧ k ∈ named seq) →
  single_active s →
  ∃ a s', apply_queue_action seq s id a = Ok s'.
Proof.
  intros Hf Hact Hs. pose proof Hf as Hspec.
  rewrite first_actionable_eq in Hspec. unfold first_actionable_spec in Hspec.
  assert (id ∈ named seq ∧
    (OrderState.is_active (state_of s id) = true ∨
     is_waiting (state_of s id) = true ∧
     ∀ k, OrderState.is_active (state_of s k) = false)) as [Hin Hst].
  { destruct (List.find (λ id, OrderState.is_active _) _) as [x|] eqn:E; simplify_eq.
    - apply find_elem in E. naive_solver.
    - apply find_elem in Hspec as [? ?]. rewrite find_none_elem in E.
      split; [done|]. right. split; [done|]. intros k.
      destruct (OrderState.is_active (state_of s k)) eqn:Ek; [|done].
      destruct (Hact k Ek) as [_ Hk]. by rewrite (E k Hk) in Ek. }
  apply filterb_elem in Hin as [(x & -> & Hx)%list_elem_of_fmap Hne].
  assert (∀ a next, next_queue_state (state_of s (trim x)) a = Ok next →
    apply_queue_action seq s (trim x) a = Ok (<[trim x := next]> s)) as Hok.
  { intros a next Hn. unfold apply_queue_action, apply_unordered_queue_action.
    rewrite !trim_idemp. apply negb_true_iff in Hne as ->.
    assert (existsb (λ y, trim y =s trim x) seq = true) as ->.
    { apply existsb_elem. exists x. by rewrite String.eqb_refl. }
    rewrite Hf, bool_decide_false by naive_solver. rewrite andb_false_r. simpl.
    assert (other_active s (trim x) = false) as ->.
    { apply existsb_false. intros [k st] Hk%elem_of_map_to_list.
      destruct (OrderState.is_active st) eqn:Est; [|by rewrite andb_false_r].
      assert (state_of s k = st) as Hkst by (unfold state_of; by rewrite Hk).
      destruct Hst as [Hst|[_ Hst]].
      - rewrite (Hs k (trim x)) by congruence. by rewrite trim_idemp, String.eqb_refl.
      - specialize (Hst k). congruence. }
    by rewrite andb_false_r, Hn. }
  destruct (state_of s (trim x)) eqn:Est; simpl in Hst;
    [exists Action.Start|exists Action.Start|exists Action.Pause|exists Action.Resume|naive_solver..];
    eexists; by apply Hok.
Qed.

(** ** The effective sequence *)

Lemma dedup_seen_ext seen1 seen2 l :
  seen1 = seen2 → dedup_seen seen1 l = dedup_seen seen2 l.
Proof. by intros ->. Qed.

Lemma push_unseen_spec keep ids seen result :
  push_unseen keep ids seen result =
  (list_to_set (List.filter keep (trim <$> ids)) ∪ seen,
   result ++ dedup_seen seen (List.filter keep (trim <$> ids))).
Proof.
  revert seen result. induction ids as [|id ids IH]; intros seen result; simpl.
  { by rewrite (left_id_L ∅ (∪)), app_nil_r. }
  destruct (keep (trim id)) eqn:Ek; simpl; [|apply IH].
  destruct (decide (trim id ∈ seen)) as [Hin|Hin].
  - rewrite bool_decide_false by naive_solver. rewrite IH.
    f_equal. set_solver.
  - rewrite bool_decide_true by done. rewrite IH, <-(assoc_L (++)).
    f_equal. set_solver.
Qed.

(** The orders a sequence may contain: visible, named and not excluded. *)
Definition eligible (visible : list string) (excluded : gset string) (x : string) : Prop :=
  x ∈ named visible ∧ x ∉ named (elements excluded).

Lemma elem_of_nonempty_trimmed ids x : x ∈ nonempty_trimmed ids ↔ x ∈ named ids.
Proof. unfold nonempty_trimmed, named. by rewrite elem_of_list_to_set. Qed.

(** The stored order first, then the remaining eligible orders oldest first;
    every eligible order exactly once. *)
Lemma effective_sequence_spec stored visible excluded :
  let result := effective_apparatus_sequence_excluding stored visible excluded in
  NoDup result ∧
  (∀ x, x ∈ result ↔ eligible visible excluded x) ∧
  ∃ placed appended, result = placed ++ appended ∧
    placed `sublist_of` (trim <$> stored) ∧
    appended `sublist_of` (trim <$> reverse visible) ∧
    ∀ x, x ∈ placed ↔ eligible visible excluded x ∧ x ∈ trim <$> stored.
Proof.
  unfold effective_apparatus_sequence_excluding.
  set (ex := nonempty_trimmed (elements excluded)).
  set (keep := λ id, negb (is_empty id) && bool_decide (id ∉ ex)).
  set (vis := list_to_set (List.filter keep (trim <$> visible)) : gset string).
  set (kept := λ id, negb (is_empty id) && bool_decide (id ∈ vis)).
  assert (∀ x, x ∈ vis ↔ eligible visible excluded x) as Hvis.
  { intros x. unfold vis, keep, eligible, named, ex.
    rewrite elem_of_list_to_set, !filterb_elem, andb_true_iff, bool_decide_eq_true,
      elem_of_nonempty_trimmed. unfold named. rewrite filterb_elem. naive_solver. }
  assert (∀ x, eligible visible excluded x → negb (is_empty x) = true) as Hne.
  { intros x [Hx _]. unfold named in Hx. by apply filterb_elem in Hx as [_ ?]. }
  case_bool_decide as Hempty.
  { split_and!; [constructor|set_solver|]. exists [], [].
    split_and!; [done|apply sublist_nil_l..|set_solver]. }
  rewrite !push_unseen_spec. simpl.
  set (l1 := List.filter kept (trim <$> stored)).
  set (l2 := List.filter keep (trim <$> reverse visible)).
  rewrite (right_id_L ∅ (∪)).
  assert (∀ x, x ∈ dedup_seen ∅ l1 ↔ eligible visible excluded x ∧ x ∈ trim <$> stored) as H1.
  { intros x. rewrite elem_of_dedup_seen. unfold l1, kept.
    rewrite filterb_elem, andb_true_iff, bool_decide_eq_true, Hvis. set_solver. }
  assert (∀ x, x ∈ l2 ↔ eligible visible excluded x) as H2.
  { intros x. rewrite <-Hvis. unfold vis, l2.
    rewrite elem_of_list_to_set, !filterb_elem, !list_elem_of_fmap.
    by setoid_rewrite elem_of_reverse. }
  split_and!.
  - apply NoDup_app. split_and!; [apply NoDup_dedup_seen| |apply NoDup_dedup_seen].
    intros x Hx [_ Hn]%elem_of_dedup_seen. apply Hn, elem_of_list_to_set.
    by apply elem_of_dedup_seen in Hx as [? _].
  - intros x. rewrite elem_of_app, H1, elem_of_dedup_seen, H2, elem_of_list_to_set.
    destruct (decide (x ∈ l1)) as [Hin|Hin]; [|naive_solver].
    assert (x ∈ dedup_seen ∅ l1) by (rewrite elem_of_dedup_seen; set_solver).
    naive_solver.
  - exists (dedup_seen ∅ l1), (dedup_seen (list_to_set l1) l2). split_and!; [done|..|done].
    + etrans; [apply dedup_seen_sublist|apply filterb_sublist].
    + etrans; [apply dedup_seen_sublist|apply filterb_sublist].
Qed.

(** The effective sequence lists each visible, non-excluded order exactly
    once: first those of the stored sequence in its order, then the remaining
    ones oldest first. *)
Theorem effective_sequence_correct stored visible excluded :
  let result := effective_apparatus_sequence_excluding stored visible excluded in
  NoDup result ∧
  (∀ x, x ∈ result ↔ eligible visible excluded x) ∧
  ∃ placed appended, result = placed ++ appended ∧
    placed `sublist_of` (trim <$> stored) ∧
    appended `sublist_of` (trim <$> reverse visible) ∧
    ∀ x, x ∈ placed ↔ eligible visible excluded x ∧ x ∈ trim <$> stored.
Proof. apply effective_sequence_spec. Qed.

Lemma eligible_trimmed visible excluded x : eligible visible excluded x → trim x = x.
Proof.
  intros [[Hx _]%filterb_elem _]. apply list_elem_of_fmap in Hx as (y & -> & _). apply trim_idemp.
Qed.

(** * Wire names *)

Ltac parse_inv H :=
  repeat match type of H with
  | context [if ?b then _ else _] => destruct b eqn:?
  end; simplify_eq.

(** Parsing accepts exactly the wire name, up to case and outer white space. *)
Theorem order_state_parse_iff value st :
  OrderState.parse value = Some st ↔
  to_ascii_lowercase (trim value) = OrderState.as_str st.
Proof.
  unfold OrderState.parse, eq_ignore_ascii_case. split.
  - intros H. parse_inv H; breflect; done.
  - intros ->. by destruct st.
Qed.

Theorem action_parse_iff value a :
  Action.parse value = Some a ↔ to_ascii_lowercase (trim value) = Action.as_str a.
Proof.
  unfold Action.parse, eq_ignore_ascii_case. split.
  - intros H. parse_inv H; breflect; done.
  - intros ->. by destruct a.
Qed.

(** Serializing the states of a queue to text and parsing them back gives
    the same states. *)
Theorem queue_states_roundtrip (parsed : queue_states) :
  parsed_queue_states (serialized_queue_states parsed) = parsed.
Proof.
  apply map_eq. intros k. unfold parsed_queue_states, serialized_queue_states.
  rewrite lookup_omap, lookup_fmap. destruct (parsed !! k) as [st|]; [|done]. simpl.
  by destruct st.
Qed.

(** * Offered actions *)

Lemma elem_of_allowed i a :
  a ∈ allowed_actions_for_control i →
  (input_state i = OrderState.Pending ∧ requeued_session i = true ∧
     pending_actionable i = true ∧ a = Action.Resume) ∨
  ((a, true) ∈ action_candidates i ∧ ∃ st, next_queue_state (input_state i) a = Ok st).
Proof.
  unfold allowed_actions_for_control.
  destruct (bool_decide _ && is_training _); [set_solver|].
  destruct (bool_decide _ && requeued_session i) eqn:E.
  { apply andb_true_iff in E as [?%bool_decide_eq_true ?].
    destruct (pending_actionable i); [|set_solver].
    intros ->%list_elem_of_singleton. auto. }
  intros ([a' en] & Hin & Ha)%list_elem_of_omap. right.
  destruct en; [|done]. simpl in Ha.
  destruct (next_queue_state _ a') eqn:En; simplify_eq/=. eauto.
Qed.

(** Every action the server offers executes: when the facts it was offered
    under hold of the queue, applying it to the strict queue succeeds. *)
Theorem offered_action_executes i a seq s id :
  a ∈ allowed_actions_for_control i → requeued_session i = false →
  trim id = id → id ≠ "" → id ∈ trim <$> seq → input_state i = state_of s id →
  (Action.claims a = true →
     first_actionable_order_id seq s = Some id ∧ other_active s id = false) →
  ∃ s', apply_queue_action seq s id a = Ok s'.
Proof.
  intros Ha Hrq Htrim Hne Hseq Hst Hfacts.
  apply elem_of_allowed in Ha as [(_ & Hr & _)|(_ & st & Hn)]; [congruence|].
  rewrite Hst in Hn. exists (<[id := st]> s).
  unfold apply_queue_action, apply_unordered_queue_action. rewrite !Htrim.
  assert (is_empty id = false) as -> by (by destruct id).
  assert (existsb (λ y, trim y =s id) seq = true) as ->.
  { apply list_elem_of_fmap in Hseq as (x & -> & Hx). apply existsb_elem.
    exists x. by rewrite String.eqb_refl. }
  destruct (Action.claims a); simpl; [|by rewrite Hn].
  destruct (Hfacts eq_refl) as [Hf Ho]. rewrite bool_decide_false by naive_solver.
  by rewrite Ho, Hn.
Qed.

(** Facts only narrow: a claim needs its queue slot, and while a freeze is
    requested a running order can only be paused. *)
Theorem offered_claims_are_actionable i a :
  a ∈ allowed_actions_for_control i → Action.claims a = true →
  pending_actionable i = true ∨ queue_actionable i = true.
Proof.
  intros Ha Hc. apply elem_of_allowed in Ha as [(_ & _ & H & _)|[Hin _]]; [by left|].
  unfold action_candidates in Hin.
  repeat case_match; simplify_eq/=;
    repeat (apply elem_of_cons in Hin as [Hin|Hin]); simplify_eq/=; try done;
    try (by apply elem_of_nil in Hin);
    repeat match goal with
    | H : true = _ && _ |- _ => symmetry in H; apply andb_true_iff in H as [? ?]
    end; auto.
Qed.

Theorem freeze_requested_offers_pause_only is_rezka merge_ready rq pa qa sr :
  allowed_actions_for_control
    {| input_state := OrderState.InProgress;
       input_profile := Live OrderControl.FreezeRequested is_rezka merge_ready;
       requeued_session := rq; pending_actionable := pa;
       queue_actionable := qa; start_ready := sr |} = [Action.Pause].
Proof. by destruct is_rezka, merge_ready, rq, pa, qa, sr. Qed.

(** * Requeued work *)

(** In a strict queue a requeued order resumes only at its turn, and mutual
    exclusion survives, provided the running order is part of the sequence. *)
Theorem requeued_resume_strict seq s id s' :
  apply_requeued_resume StrictSequence seq s id = Ok s' →
  (∀ k, OrderState.is_active (state_of s k) = true → k ∈ named seq) →
  single_active s'.
Proof.
  unfold apply_requeued_resume. intros H Hact.
  simpl in H. destruct (bool_decide (first_actionable_order_id _ _ ≠ _)) eqn:E1; [done|].
  destruct (bool_decide (state_of _ _ ≠ _)) eqn:E2; [done|].
  injection H as <-. apply bool_decide_eq_false in E1, E2.
  apply dec_stable in E1, E2.
  rewrite first_actionable_eq in E1. unfold first_actionable_spec in E1.
  destruct (List.find _ _) as [x|] eqn:E; simplify_eq.
  { apply find_elem in E as [_ E]. by rewrite E2 in E. }
  rewrite find_none_elem in E.
  assert (∀ k, OrderState.is_active (state_of s k) = false) as Hnone.
  { intros k. destruct (OrderState.is_active (state_of s k)) eqn:Ek; [|done].
    by rewrite (E k (Hact k Ek)) in Ek. }
  intros k1 k2 H1 H2.
  destruct (decide (k1 = id)) as [->|N1]; [|by rewrite state_of_insert_ne, Hnone in H1].
  destruct (decide (k2 = id)) as [->|N2]; [done|by rewrite state_of_insert_ne, Hnone in H2].
Qed.

(** Under free pick, resuming a requeued order has no occupancy guard of
    its own: beside an order in colour trial it makes a second order active,
    which a normal start refuses. *)
Theorem requeued_resume_free_pick_unguarded :
  let s : queue_states := {["trial" := OrderState.PrintPreflight]} in
  single_active s ∧
  ∃ s', apply_requeued_resume FreePick ["requeued"; "trial"] s "requeued" = Ok s' ∧
    ¬ single_active s' ∧
    apply_unordered_queue_action s "requeued" Action.Start = Err QueueActionNotAllowed.
Proof.
  intros s. split.
  - assert (∀ k, OrderState.is_active (state_of s k) = true → k = "trial") as Hk.
    { intros k. unfold s, state_of. rewrite lookup_singleton. by case_decide. }
    by intros k1 k2 ->%Hk ->%Hk.
  - eexists. split; [reflexivity|]. split; [|reflexivity].
    intros H. specialize (H "trial" "requeued" eq_refl eq_refl). by vm_compute in H.
Qed.
