(* ===== verification/OrderLayout.v ===== *)
(** Product layout of one order ([src/core/order_layout.rs]): the ordered
    product blocks of a printing layout, their validation, the physical lanes
    they expand to and the widths of consecutive lane groups. *)
From Stdlib Require Import Ascii.
From S2P Require Import Prelude RustStr F64 Identity.

Local Open Scope Z_scope.

Record OrderProduct := {
  product_id : string;
  product_item_code : string;
  product_product : string;
  frame_product_size_mm : f64;
  product_frame_count : Z;
}.

Record OrderLane := {
  lane_id : string;
  lane_product_id : string;
  lane_order_number : string;
  lane_item_code : string;
  lane_product : string;
  lane_width_mm : f64;
}.

(** [Iterator::sum] over [f64]: a left fold from [-0.0]. *)
Definition f64_sum (l : list f64) : f64 := foldl f64_add (S754_zero true) l.

Definition useful_width (products : list OrderProduct) : f64 :=
  f64_sum ((λ p, f64_mul (frame_product_size_mm p) (f64_of_Z (product_frame_count p))) <$> products).

Definition product_id_char (c : ascii) : bool :=
  is_ascii_alphanumeric c || Ascii.eqb c "-" || Ascii.eqb c "_".

(** The loop body of [validate_products]: [index], the ids seen and the frames
    counted so far. *)
Definition validate_product (index : nat) (product : OrderProduct)
    (ids : gset string) (frames : Z) : result string (gset string * Z) :=
  if is_empty (product_id product) ||
     (100 <? String.length (product_id product))%nat ||
     negb (all_bytes product_id_char (product_id product)) ||
     bool_decide (product_id product ∈ ids) ||
     blank (product_item_code product) ||
     blank (product_product product)
  then Err (Z_to_string (Z.of_nat index + 1) +:+ "-mahsulotni tanlang")
  else if negb (is_finite (frame_product_size_mm product)) ||
     f64_le (frame_product_size_mm product) f64_zero ||
     negb ((1 <=? product_frame_count product) && (product_frame_count product <=? 1024))
  then Err (Z_to_string (Z.of_nat index + 1) +:+
            "-mahsulotning kadr eni yoki soni noto‘g‘ri")
  else Ok ({[product_id product]} ∪ ids, frames + product_frame_count product).

Fixpoint validate_product_list (index : nat) (products : list OrderProduct)
    (ids : gset string) (frames : Z) : result string Z :=
  match products with
  | [] => Ok frames
  | product :: products =>
      '(ids, frames) ← validate_product index product ids frames;
      validate_product_list (S index) products ids frames
  end.

Definition validate_products (products : list OrderProduct) : result string unit :=
  if (64 <? length products)%nat
  then Err "Ko‘pi bilan 64 ta mahsulot bloki kiritish mumkin"
  else
    frames ← validate_product_list 0 products ∅ 0;
    if (1024 <? frames) || negb (is_finite (useful_width products))
    then Err "Jami kadr soni 1024 dan oshmasligi va en to‘g‘ri bo‘lishi kerak"
    else Ok tt.

(** [sum.saturating_add(p.frame_count)] on [i64]. *)
Definition frame_count (products : list OrderProduct) : Z :=
  foldl (λ sum p, i64_saturate (sum + product_frame_count p)) 0 products.

Fixpoint join (sep : string) (l : list string) : string :=
  match l with
  | [] => ""
  | [x] => x
  | x :: l => x +:+ sep +:+ join sep l
  end.

Definition title (products : list OrderProduct) : string :=
  join " + " ((λ p, trim (product_product p)) <$> products).

(** Lanes of one product: [(0..frame_count)]. *)
Definition product_lanes (order_id order_number : string) (index : nat)
    (product : OrderProduct) : list OrderLane :=
  (λ frame,
    {| lane_id := product_id product +:+ ":" +:+ Z_to_string (Z.of_nat frame + 1);
       lane_product_id := order_id +:+ ":product:" +:+ product_id product;
       lane_order_number := order_number +:+ "/" +:+ Z_to_string (Z.of_nat index + 1);
       lane_item_code := product_item_code product;
       lane_product := product_product product;
       lane_width_mm := frame_product_size_mm product |})
  <$> seq 0 (Z.to_nat (product_frame_count product)).

Definition lanes (products : list OrderProduct) (order_id order_number : string)
  : list OrderLane :=
  concat (imap (product_lanes order_id order_number) products).

(** One group: [lanes.get(offset..end)?.iter().sum()]. *)
Fixpoint group_widths_from (lanes : list f64) (offset : nat) (groups : list Z)
  : option (nat * list f64) :=
  match groups with
  | [] => Some (offset, [])
  | count :: groups =>
      if count <=? 0 then None
      else
        let stop := (offset + Z.to_nat count)%nat in
        if (length lanes <? stop)%nat then None
        else
          let width := f64_sum (take (Z.to_nat count) (drop offset lanes)) in
          match group_widths_from lanes stop groups with
          | Some (last, widths) => Some (last, width :: widths)
          | None => None
          end
  end.

Definition group_widths (lanes : list f64) (groups : list Z) : option (list f64) :=
  let groups := match groups with [] => replicate (length lanes) 1 | _ => groups end in
  match group_widths_from lanes 0 groups with
  | Some (offset, widths) => if Nat.eqb offset (length lanes) then Some widths else None
  | None => None
  end.

(** * Facts

    Correctness of the product layout: a validated layout expands to one lane
    per frame with distinct ids, and grouping lanes partitions them. *)

Local Open Scope Z_scope.

(** * Decimal text is injective *)

Fixpoint decimal (s : string) (acc : N) : N :=
  match s with
  | EmptyString => acc
  | String a s => decimal s (10 * acc + (byte_of a - 48))
  end.

Lemma digit_value d : (d < 10)%N → (byte_of (digit_char d) - 48 = d)%N.
Proof.
  intros Hd. unfold digit_char, byte_of. rewrite N_ascii_embedding by lia. lia.
Qed.

Lemma N_digits_S fuel n acc :
  N_digits (S fuel) n acc =
  let acc := String (digit_char (n mod 10)) acc in
  if (n <? 10)%N then acc else N_digits fuel (n / 10) acc.
Proof. done. Qed.

Lemma decimal_digits fuel n acc :
  (n < 2 ^ N.of_nat (S fuel))%N → decimal (N_digits (S fuel) n acc) 0 = decimal acc n.
Proof.
  revert n acc. induction fuel as [|fuel IH]; intros n acc Hn.
  - assert (n < 2)%N by (change (2 ^ N.of_nat 1)%N with 2%N in Hn; lia).
    simpl. assert ((n <? 10)%N = true) as -> by (apply N.ltb_lt; lia). simpl.
    rewrite N.mod_small, digit_value by lia. done.
  - rewrite N_digits_S. cbv zeta. destruct (N.ltb_spec n 10) as [Hlt|Hge].
    + simpl. rewrite N.mod_small, digit_value by lia. done.
    + rewrite IH.
      * simpl. rewrite digit_value by (apply N.mod_lt; lia).
        f_equal. pose proof (N.div_mod n 10). lia.
      * rewrite (Nat2N.inj_succ (S fuel)), N.pow_succ_r' in Hn.
        apply N.Div0.div_lt_upper_bound. lia.
Qed.

Lemma decimal_N_to_string k : decimal (N_to_string k) 0 = k.
Proof.
  unfold N_to_string. rewrite decimal_digits; [done|].
  rewrite Nat2N.inj_succ, N2Nat.id. destruct (N.eq_dec k 0) as [->|]; [simpl; lia|].
  apply N.log2_spec. lia.
Qed.

Lemma N_to_string_inj n m : N_to_string n = N_to_string m → n = m.
Proof. intros Heq. by rewrite <-(decimal_N_to_string n), <-(decimal_N_to_string m), Heq. Qed.

(** Leading zeros do not change the number. *)
Lemma decimal_zeros k s : decimal (zeros k +:+ s) 0 = decimal s 0.
Proof. induction k as [|k IH]; [done|]. exact IH. Qed.

Lemma Z_to_string_nat_inj (n m : nat) :
  Z_to_string (Z.of_nat n + 1) = Z_to_string (Z.of_nat m + 1) → n = m.
Proof.
  unfold Z_to_string. destruct (Z.of_nat n + 1) eqn:Hn; try lia.
  destruct (Z.of_nat m + 1) eqn:Hm; try lia. intros Heq%N_to_string_inj. lia.
Qed.

(** A text splits at its first colon in one way. *)
Lemma split_colon a b c d :
  all_bytes product_id_char a = true → all_bytes product_id_char c = true →
  a +:+ ":" +:+ b = c +:+ ":" +:+ d → a = c ∧ b = d.
Proof.
  unfold String.append. revert c. induction a as [|x a IH]; intros [|y c]; simpl;
    rewrite ?andb_true_iff.
  - by intros _ _ [= ->].
  - intros _ [Hy _] [= <- _]. done.
  - intros [Hx _] _ [= -> _]. done.
  - intros [_ Ha] [_ Hc] [= -> Heq]. destruct (IH c Ha Hc Heq) as [-> ->]. done.
Qed.

(** * Lanes *)

Record valid_product (p : OrderProduct) : Prop := {
  valid_id_chars : all_bytes product_id_char (product_id p) = true;
  valid_frames : 1 ≤ product_frame_count p ≤ 1024;
}.

Definition total_frames (products : list OrderProduct) : Z :=
  foldr (λ p n, product_frame_count p + n) 0 products.

Lemma validate_product_list_spec index products ids frames total :
  validate_product_list index products ids frames = Ok total →
  NoDup (product_id <$> products) ∧ (∀ p, p ∈ products → valid_product p ∧ product_id p ∉ ids) ∧
  total = frames + total_frames products.
Proof.
  revert index ids frames. induction products as [|p products IH]; intros index ids frames; simpl.
  { intros [= ->]. split_and!; [constructor|set_solver|lia]. }
  intros ([ids' frames'] & Hp & Hrest)%bind_Ok. unfold validate_product in Hp.
  destruct (_ || _) eqn:Hid in Hp; [done|]. destruct (_ || _) eqn:Hfr in Hp; [done|].
  injection Hp as <- <-. destruct (IH _ _ _ Hrest) as (Hnd & Hall & ->). breflect.
  match goal with H : bool_decide _ = false |- _ => apply bool_decide_eq_false in H end.
  split_and!.
  - constructor; [|done]. intros (q & Hq & Hin)%list_elem_of_fmap.
    destruct (Hall q Hin) as [_ Hq']. set_solver.
  - intros q [->|Hin]%elem_of_cons; [split; [split; [done|lia]|done]|].
    destruct (Hall q Hin). set_solver.
  - unfold total_frames. simpl. lia.
Qed.

Lemma product_lanes_id order number index p lane :
  lane ∈ product_lanes order number index p →
  ∃ f : nat, lane_id lane = product_id p +:+ ":" +:+ Z_to_string (Z.of_nat f + 1).
Proof. intros (f & -> & _)%list_elem_of_fmap. by exists f. Qed.

Lemma lanes_ids_nodup order number products k :
  (∀ p, p ∈ products → valid_product p) → NoDup (product_id <$> products) →
  NoDup (lane_id <$> concat (imap (λ i, product_lanes order number (k + i)) products)).
Proof.
  revert k. induction products as [|p products IH]; intros k Hall Hnd; [constructor|].
  simpl. rewrite fmap_app. apply NoDup_app. apply NoDup_cons in Hnd as [Hp Hnd]. split_and!.
  - unfold product_lanes. rewrite <-list_fmap_compose. apply NoDup_fmap_2; [|apply NoDup_seq].
    intros f f' Heq. simpl in Heq.
    apply split_colon in Heq as [_ Heq]; [by apply Z_to_string_nat_inj|..];
      (apply Hall; set_solver).
  - intros x (lane & -> & (f & Hf)%product_lanes_id)%list_elem_of_fmap.
    intros (lane' & Heq & Hin)%list_elem_of_fmap. rewrite Heq in Hf.
    apply list_elem_of_In, in_concat in Hin as (ls & Hls & Hin).
    apply list_elem_of_In in Hls, Hin.
    apply list_elem_of_lookup in Hls as [j Hj].
    rewrite list_lookup_imap in Hj. destruct (products !! j) as [q|] eqn:Hq; simplify_eq/=.
    apply product_lanes_id in Hin as (f' & Hf'). rewrite Hf' in Hf.
    apply list_elem_of_lookup_2 in Hq.
    apply split_colon in Hf as [Hpq _]; [|apply Hall; set_solver..].
    apply Hp. rewrite <-Hpq. by apply list_elem_of_fmap_2.
  - rewrite (imap_ext _ (λ i, product_lanes order number (S k + i))).
    + apply IH; [set_solver|done].
    + intros i q _. simpl. f_equal. lia.
Qed.

Lemma lanes_length order number products k :
  (∀ p, p ∈ products → valid_product p) →
  Z.of_nat (length (concat (imap (λ i, product_lanes order number (k + i)) products))) =
  total_frames products.
Proof.
  revert k. induction products as [|p products IH]; intros k Hall; [done|]. simpl.
  rewrite length_app, Nat2Z.inj_add.
  rewrite (imap_ext _ (λ i, product_lanes order number (S k + i)))
    by (intros i q _; simpl; f_equal; lia).
  rewrite IH by set_solver. unfold product_lanes. rewrite length_fmap, length_seq.
  destruct (valid_frames p); [apply Hall; set_solver|]. unfold total_frames. simpl. lia.
Qed.

Lemma frame_count_total products n :
  (∀ p, p ∈ products → valid_product p) → 0 ≤ n → n + total_frames products ≤ i64_MAX →
  foldl (λ sum p, i64_saturate (sum + product_frame_count p)) n products =
  n + total_frames products.
Proof.
  revert n. induction products as [|p products IH]; intros n Hall Hn Hmax;
    [unfold total_frames; simpl; lia|].
  assert (0 ≤ total_frames products).
  { clear -Hall. induction products as [|q l IH]; [done|]. unfold total_frames. simpl.
    destruct (valid_frames q); [apply Hall; set_solver|].
    fold (total_frames l). assert (0 ≤ total_frames l) by (apply IH; set_solver). lia. }
  destruct (valid_frames p); [apply Hall; set_solver|].
  unfold total_frames in *. simpl in *. unfold i64_saturate. unfold i64_MIN, i64_MAX in *.
  rewrite IH; [lia|set_solver|lia|lia].
Qed.

(** * Groups *)

(** Cutting a list into consecutive pieces of the given lengths. *)
Definition cuts (lanes : list f64) (groups : list Z) (pieces : list (list f64)) : Prop :=
  concat pieces = lanes ∧ (λ piece, Z.of_nat (length piece)) <$> pieces = groups ∧
  ∀ piece, piece ∈ pieces → piece ≠ [].

Lemma group_widths_from_spec ls offset groups last widths :
  (offset ≤ length ls)%nat →
  group_widths_from ls offset groups = Some (last, widths) →
  (offset ≤ last ≤ length ls)%nat ∧
  ∃ pieces, cuts (take (last - offset) (drop offset ls)) groups pieces ∧ widths = f64_sum <$> pieces.
Proof.
  revert offset last widths. induction groups as [|g groups IH]; intros offset last widths Hoff; simpl.
  { intros [= <- <-]. split; [lia|]. exists []. rewrite Nat.sub_diag.
    split; [|done]. unfold cuts. split_and!; [done|done|set_solver]. }
  destruct (Z.leb_spec g 0); [done|].
  destruct (Nat.ltb_spec (length ls) (offset + Z.to_nat g)); [done|].
  destruct (group_widths_from ls _ groups) as [[last' ws]|] eqn:Hrest; [|done].
  intros [= <- <-]. destruct (IH (offset + Z.to_nat g)%nat last' ws)
    as (Hb & pieces & (Hcat & Hlen & Hne) & ->); [lia|done|].
  split; [lia|]. exists (take (Z.to_nat g) (drop offset ls) :: pieces). split; [|done].
  assert (Hl : length (take (Z.to_nat g) (drop offset ls)) = Z.to_nat g)
    by (rewrite length_take, length_drop; lia).
  split_and!.
  - simpl. rewrite Hcat, <-drop_drop.
    replace (last' - offset)%nat with (Z.to_nat g + (last' - (offset + Z.to_nat g)))%nat by lia.
    by rewrite <-take_take_drop.
  - rewrite fmap_cons, Hlen, Hl. f_equal. lia.
  - intros piece [->|Hin]%elem_of_cons; [|by apply Hne]. intros Hnil. rewrite Hnil in Hl.
    simpl in Hl. lia.
Qed.

(** Cutting is unique, so the pieces are the groups. *)
Lemma cuts_total ls groups pieces :
  cuts ls groups pieces → (∀ g, g ∈ groups → 0 < g) ∧
  Z.of_nat (length ls) = foldr Z.add 0 groups.
Proof.
  intros (<- & <- & Hne). split.
  - intros g (piece & -> & Hin)%list_elem_of_fmap. specialize (Hne piece Hin).
    destruct piece; simpl; [done|lia].
  - clear Hne. induction pieces as [|p l IH]; [done|]. csimpl. rewrite length_app. lia.
Qed.

Lemma group_widths_from_complete ls offset groups :
  (∀ g, g ∈ groups → 0 < g) →
  Z.of_nat offset + foldr Z.add 0 groups = Z.of_nat (length ls) →
  is_Some (group_widths_from ls offset groups).
Proof.
  revert offset. induction groups as [|g groups IH]; intros offset Hpos Hsum; simpl in *; [eauto|].
  assert (0 < g) by (apply Hpos; set_solver).
  assert (0 ≤ foldr Z.add 0 groups).
  { clear -Hpos. induction groups as [|x l IH]; simpl; [lia|].
    assert (0 < x) by (apply Hpos; set_solver).
    assert (0 ≤ foldr Z.add 0 l) by (apply IH; set_solver). lia. }
  destruct (Z.leb_spec g 0); [lia|].
  destruct (Nat.ltb_spec (length ls) (offset + Z.to_nat g)); [lia|].
  destruct (IH (offset + Z.to_nat g)%nat) as [[last ws] ->]; [set_solver|lia|eauto].
Qed.

(** The groups the code uses: one per lane when none are given. *)
Definition effective_groups (ls : list f64) (groups : list Z) : list Z :=
  match groups with [] => replicate (length ls) 1 | _ => groups end.

(** * Theorems *)

(** A validated product layout gives at most 1024 lanes, as many as
    frame_count says, and no two lanes share an id. *)
Theorem validated_lanes_are_distinct products order number :
  validate_products products = Ok tt →
  NoDup (lane_id <$> lanes products order number) ∧
  Z.of_nat (length (lanes products order number)) = frame_count products ∧
  frame_count products ≤ 1024.
Proof.
  unfold validate_products. destruct (64 <? length products)%nat; [done|].
  intros (total & Hv & Hlim)%bind_Ok. destruct (_ || _) eqn:E in Hlim; [done|]. breflect.
  apply validate_product_list_spec in Hv as (Hnd & Hall & ->).
  assert (∀ p, p ∈ products → valid_product p) as Hvalid by (intros p Hp; by apply Hall).
  assert (frame_count products = total_frames products) as ->
    by (apply (frame_count_total products 0); [done|lia|unfold i64_MAX; lia]).
  split_and!; [|apply (lanes_length order number products 0); done|lia].
  by apply (lanes_ids_nodup order number products 0).
Qed.

(** Grouping lane widths succeeds exactly when the groups are positive and
    cover the lanes, and then each width is the sum of consecutive lanes that
    together partition the layout. *)
Theorem group_widths_partition ls groups :
  (∀ widths, group_widths ls groups = Some widths →
     ∃ pieces, cuts ls (effective_groups ls groups) pieces ∧ widths = f64_sum <$> pieces) ∧
  (is_Some (group_widths ls groups) ↔
     (∀ g, g ∈ effective_groups ls groups → 0 < g) ∧
     Z.of_nat (length ls) = foldr Z.add 0 (effective_groups ls groups)).
Proof.
  unfold group_widths. fold (effective_groups ls groups).
  set (gs := effective_groups ls groups).
  assert (Hsound : ∀ last ws, group_widths_from ls 0 gs = Some (last, ws) → last = length ls →
    ∃ pieces, cuts ls gs pieces ∧ ws = f64_sum <$> pieces).
  { intros last ws Hg ->. apply group_widths_from_spec in Hg as (_ & pieces & Hc & ->); [|lia].
    exists pieces. split; [|done]. by rewrite Nat.sub_0_r, firstn_all in Hc. }
  split.
  - intros widths. destruct (group_widths_from ls 0 gs) as [[last ws]|] eqn:E; [|done].
    destruct (Nat.eqb_spec last (length ls)); [|done]. intros [= <-]. by eapply Hsound.
  - split.
    + intros [w Hw]. destruct (group_widths_from ls 0 gs) as [[last ws]|] eqn:E; [|done].
      destruct (Nat.eqb_spec last (length ls)); [|done].
      destruct (Hsound last ws) as (pieces & Hc & _); [done..|]. by eapply cuts_total.
    + intros [Hpos Hsum]. destruct (group_widths_from_complete ls 0 gs) as [[last ws] E];
        [done|lia|]. rewrite E. apply group_widths_from_spec in E as (Hb & pieces & Hc & _); [|lia].
      apply cuts_total in Hc as [_ Hlen]. rewrite drop_0, length_take in Hlen.
      assert (last = length ls) as -> by lia. rewrite Nat.eqb_refl. eauto.
Qed.
