(* ===== verification/MapDefinition.v ===== *)
(** Data of a production map ([src/core/production_map/catalog/definition.rs]):
    the graph an administrator draws, the program it compiles to and the result
    of running it, with the accessors of the map and its nodes that need no
    other component. *)
From Stdlib Require Import Ascii.
From S2P Require Import Prelude RustStr F64 Identity OrderLayout.

(** [src/core/combo.rs]. *)
Record ComboReference := {
  combo_id : string;
  combo_item_code : string;
  combo_name : string;
  combo_revision : Z;
  combo_layout_fingerprint : string;
}.

Record ProductionFormula := {
  formula_target : string;
  formula_expression : string;
}.

Module NodeKind.
Inductive t :=
  | Start | Location | Material | Apparatus | KkProduct | Formula
  | Condition | Task | Wait | Output | End_.
Global Instance eq_dec : EqDecision t.
Proof. solve_decision. Defined.
Definition eqb (a b : t) : bool := bool_decide (a = b).
End NodeKind.

Record ProductionMapNode := {
  node_id : string;
  node_kind : NodeKind.t;
  node_title : string;
  node_apparatus_id : string;
  node_formula : option ProductionFormula;
  node_role_code : string;
  node_item_code : string;
  node_qty_formula : string;
  node_from_location : string;
  node_to_location : string;
  alternative_group_id : string;
  alternative_group_label : string;
  alternative_assigned_title : string;
  alternative_assigned_apparatus_id : string;
  rezka_kadr_count : option Z;
  rezka_frame_groups : list Z;
  rezka_label_length : option f64;
  node_x : f64;
  node_y : f64;
}.

Record ProductionMapEdge := {
  edge_from : string;
  edge_to : string;
  edge_branch : string;
}.

Record ProductionMapDefinition := {
  map_combo : option ComboReference;
  map_products : list OrderProduct;
  map_id : string;
  map_product_code : string;
  map_title : string;
  map_code : string;
  map_order_number : string;
  map_customer_name : string;
  map_image_id : string;
  map_roll_count : option Z;
  map_width_mm : option f64;
  map_print_val_size_mm : option f64;
  map_order_kg : option f64;
  map_base_length : option f64;
  map_duplicate_rezka_labels : option bool;
  map_include_bobina_in_net : option bool;
  map_standard_print_side : option bool;
  map_nodes : list ProductionMapNode;
  map_edges : list ProductionMapEdge;
}.

Record ProductionMapOperation := {
  op_order : nat;
  op_node_id : string;
  op_code : string;
  op_args : gmap string string;
}.

Record ProductionMapProgram := {
  program_map_id : string;
  program_product_code : string;
  program_operations : list ProductionMapOperation;
}.

Record ProductionTaskDraft := {
  task_order : nat;
  task_node_id : string;
  task_kind : string;
  task_title : string;
  task_role_code : string;
  task_item_code : string;
  task_from_location : string;
  task_to_location : string;
  task_qty : f64;
}.

Record ProductionMapRunResult := {
  run_map_id : string;
  run_product_code : string;
  run_order_qty : f64;
  run_variables : gmap string f64;
  run_tasks : list ProductionTaskDraft;
  run_visited_node_ids : list string;
  run_awaiting_node_id : string;
  run_awaiting_variable : string;
  run_awaiting_expression : string;
}.

(** [impl ProductionMapNode]. *)
Definition canonical_apparatus_id (node : ProductionMapNode) : option ApparatusId :=
  let assigned := trim (alternative_assigned_apparatus_id node) in
  let value := if is_empty assigned then trim (node_apparatus_id node) else assigned in
  ok (ApparatusId_new value).

Definition base_apparatus_id (node : ProductionMapNode) : option ApparatusId :=
  ok (ApparatusId_new (trim (node_apparatus_id node))).

(** [impl ProductionMapDefinition]. *)
Definition layout_lanes (map : ProductionMapDefinition) : list OrderLane :=
  lanes (map_products map) (map_id map) (map_order_number map).

Definition layout_widths (map : ProductionMapDefinition) : list f64 :=
  lane_width_mm <$> layout_lanes map.

Definition useful_width_mm (map : ProductionMapDefinition) : option f64 :=
  match map_products map with
  | [] => map_width_mm map
  | products => Some (useful_width products)
  end.

Definition print_compatibility_width_mm (map : ProductionMapDefinition) : option f64 :=
  match map_print_val_size_mm map with Some w => Some w | None => map_width_mm map end.

(** [map.nodes.iter().find(|node| node.id == id)]. *)
Definition find_node (map : ProductionMapDefinition) (id : string)
  : option ProductionMapNode :=
  List.find (λ n, node_id n =s id) (map_nodes map).

(** The node a [BTreeMap<&str, &ProductionMapNode>] built from [map.nodes]
    holds for an id: a later duplicate replaces an earlier one. *)
Definition node_by_id (map : ProductionMapDefinition) (id : string)
  : option ProductionMapNode :=
  List.find (λ n, node_id n =s id) (rev (map_nodes map)).

Lemma find_node_elem map id n :
  find_node map id = Some n → n ∈ map_nodes map ∧ node_id n = id.
Proof. intros [? ?%String.eqb_eq]%find_elem. done. Qed.

Lemma find_node_exists map n :
  n ∈ map_nodes map → is_Some (find_node map (node_id n)).
Proof.
  intros Hn. destruct (find_node map (node_id n)) eqn:E; [done|].
  unfold find_node in E. rewrite find_none_elem in E.
  specialize (E n Hn). simpl in E. by rewrite String.eqb_refl in E.
Qed.

(** With distinct ids both lookups agree. *)
Lemma find_nodup {A} (key : A → string) l x :
  NoDup (key <$> l) → x ∈ l → List.find (λ n, key n =s key x) l = Some x.
Proof.
  induction l as [|y l IH]; simpl; [set_solver|].
  intros [Hy Hl]%NoDup_cons [->|Hx]%elem_of_cons; [by rewrite String.eqb_refl|].
  destruct (key y =s key x) eqn:E; breflect; [|auto].
  exfalso. apply Hy. rewrite E. by apply list_elem_of_fmap_2.
Qed.

Lemma node_by_id_find map id :
  NoDup (node_id <$> map_nodes map) → node_by_id map id = find_node map id.
Proof.
  intros Hnd. destruct (find_node map id) as [n|] eqn:E.
  - apply find_node_elem in E as [Hn <-]. unfold node_by_id.
    apply (find_nodup node_id).
    + eapply NoDup_Permutation_proper; [|exact Hnd].
      apply fmap_Permutation. symmetry. apply Permutation_rev.
    + by rewrite list_elem_of_In, <-in_rev, <-list_elem_of_In.
  - unfold node_by_id, find_node in *. rewrite find_none_elem in E |- *.
    intros x Hx. apply E. rewrite list_elem_of_In in *. by apply in_rev.
Qed.
