(* ===== verification/Formula.v ===== *)
(** The formula language of production maps.

    Models [src/core/production_map/compiler/formula_parser.rs] (the recursive
    descent scanner, in its checking and its evaluating form) and
    [compiler/formula.rs] (the entry points).  The parser's position is the
    suffix of the input still to read; it only ever moves over ASCII bytes, so
    the suffix starts on a character boundary and [peek] may look at one byte:
    a byte above 127 starts a character that no test of the parser accepts.

    Recursion is on fuel; [parse_fuel] gives enough for every input (theorem
    [formula_parser_total]), so the fallback of the entry points is never
    taken. *)
From Stdlib Require Import Ascii.
From S2P Require Import Prelude RustStr F64 Errors.

Abbreviation variables := (gmap string f64).

(** * Scanning *)

Fixpoint skip_whitespace (s : string) : string :=
  match s with
  | String a s' => if is_ascii_whitespace a then skip_whitespace s' else s
  | EmptyString => s
  end.

(** [consume(expected)] for an ASCII character. *)
Definition consume (expected : ascii) (s : string) : option string :=
  match s with
  | String a s' => if Ascii.eqb a expected then Some s' else None
  | EmptyString => None
  end.

Definition ident_start (a : ascii) : bool := is_ascii_alphabetic a || Ascii.eqb a "_".
Definition ident_char (a : ascii) : bool := is_ascii_alphanumeric a || Ascii.eqb a "_".

(** The longest prefix whose bytes satisfy [f], and what follows. *)
Fixpoint span (f : ascii → bool) (s : string) : string * string :=
  match s with
  | String a s' =>
      if f a then let '(p, r) := span f s' in (String a p, r) else (EmptyString, s)
  | EmptyString => (EmptyString, EmptyString)
  end.

Definition read_identifier (s : string) : option (string * string) :=
  match s with
  | String a s' =>
      if ident_start a
      then let '(p, r) := span ident_char s' in Some (String a p, r)
      else None
  | EmptyString => None
  end.

Definition read_number (s : string) : option (f64 * string) :=
  let '(int, r) := span is_ascii_digit s in
  let '(text, r) :=
    match consume "." r with
    | Some r' => let '(frac, r'') := span is_ascii_digit r' in (int +:+ "." +:+ frac, r'')
    | None => (int, r)
    end in
  if is_empty text then None
  else (λ v, (v, r)) <$> parse_f64 text.

Definition is_identifier (value : string) : bool :=
  match value with
  | EmptyString => false
  | String first chars => ident_start first && all_bytes ident_char chars
  end.

(** [m?] where [m] may also be out of fuel ([None]). *)
Definition and_then {A B} (m : option (pm_result A)) (k : A → option (pm_result B))
  : option (pm_result B) :=
  match m with
  | Some (Ok a) => k a
  | Some (Err e) => Some (Err e)
  | None => None
  end.
Notation "'let?' x ':=' m 'in' k" := (and_then m (λ x, k))
  (at level 10, x pattern, m at level 100, k at level 200).

(** * Checking *)

Section parser.
(** The whole input, quoted by the errors. *)
Context (input : string).

Definition invalid {A} : option (pm_result A) := Some (Err (InvalidFormulaExpression input)).

Fixpoint parse_expression (fuel : nat) (s : string) : option (pm_result string) :=
  match fuel with
  | O => None
  | S fuel =>
      let? s := parse_term fuel s in parse_expression_loop fuel s
  end
with parse_expression_loop (fuel : nat) (s : string) : option (pm_result string) :=
  match fuel with
  | O => None
  | S fuel =>
      let s := skip_whitespace s in
      match (match consume "+" s with Some s' => Some s' | None => consume "-" s end) with
      | Some s' =>
          let? s := parse_term fuel s' in parse_expression_loop fuel s
      | None => Some (Ok s)
      end
  end
with parse_term (fuel : nat) (s : string) : option (pm_result string) :=
  match fuel with
  | O => None
  | S fuel =>
      let? s := parse_factor fuel s in parse_term_loop fuel s
  end
with parse_term_loop (fuel : nat) (s : string) : option (pm_result string) :=
  match fuel with
  | O => None
  | S fuel =>
      let s := skip_whitespace s in
      match (match consume "*" s with Some s' => Some s' | None => consume "/" s end) with
      | Some s' =>
          let? s := parse_factor fuel s' in parse_term_loop fuel s
      | None => Some (Ok s)
      end
  end
with parse_factor (fuel : nat) (s : string) : option (pm_result string) :=
  match fuel with
  | O => None
  | S fuel =>
      let s := skip_whitespace s in
      match consume "-" s with
      | Some s' => parse_factor fuel s'
      | None =>
          match consume "(" s with
          | Some s' =>
              let? s := parse_expression fuel s' in
              match consume ")" (skip_whitespace s) with
              | Some s' => Some (Ok s')
              | None => invalid
              end
          | None =>
              match read_identifier s with
              | Some (_, s') => Some (Ok s')
              | None =>
                  match read_number s with
                  | Some (_, s') => Some (Ok s')
                  | None => invalid
                  end
              end
          end
      end
  end.

(** * Evaluation *)

Context (vars : variables).

Definition eval_result : Type := option (pm_result (f64 * string)).

Fixpoint evaluate_expression (fuel : nat) (s : string) : eval_result :=
  match fuel with
  | O => None
  | S fuel =>
      let? (value, s) := evaluate_term fuel s in evaluate_expression_loop fuel value s
  end
with evaluate_expression_loop (fuel : nat) (value : f64) (s : string) : eval_result :=
  match fuel with
  | O => None
  | S fuel =>
      let s := skip_whitespace s in
      match consume "+" s with
      | Some s' =>
          let? (v, s) := evaluate_term fuel s' in
          evaluate_expression_loop fuel (f64_add value v) s
      | None =>
          match consume "-" s with
          | Some s' =>
              let? (v, s) := evaluate_term fuel s' in
              evaluate_expression_loop fuel (f64_sub value v) s
          | None => Some (Ok (value, s))
          end
      end
  end
with evaluate_term (fuel : nat) (s : string) : eval_result :=
  match fuel with
  | O => None
  | S fuel =>
      let? (value, s) := evaluate_factor fuel s in evaluate_term_loop fuel value s
  end
with evaluate_term_loop (fuel : nat) (value : f64) (s : string) : eval_result :=
  match fuel with
  | O => None
  | S fuel =>
      let s := skip_whitespace s in
      match consume "*" s with
      | Some s' =>
          let? (v, s) := evaluate_factor fuel s' in
          evaluate_term_loop fuel (f64_mul value v) s
      | None =>
          match consume "/" s with
          | Some s' =>
              let? (divisor, s) := evaluate_factor fuel s' in
              if f64_eq divisor f64_zero
              then Some (Err FormulaDivisionByZero)
              else evaluate_term_loop fuel (f64_div value divisor) s
          | None => Some (Ok (value, s))
          end
      end
  end
with evaluate_factor (fuel : nat) (s : string) : eval_result :=
  match fuel with
  | O => None
  | S fuel =>
      let s := skip_whitespace s in
      match consume "-" s with
      | Some s' =>
          let? (v, s) := evaluate_factor fuel s' in Some (Ok (f64_neg v, s))
      | None =>
          match consume "(" s with
          | Some s' =>
              let? (value, s) := evaluate_expression fuel s' in
              match consume ")" (skip_whitespace s) with
              | Some s' => Some (Ok (value, s'))
              | None => invalid
              end
          | None =>
              match read_identifier s with
              | Some (identifier, s') =>
                  match vars !! identifier with
                  | Some v => Some (Ok (v, s'))
                  | None => Some (Err (UnknownFormulaVariable identifier))
                  end
              | None =>
                  match read_number s with
                  | Some (number, s') => Some (Ok (number, s'))
                  | None => invalid
                  end
              end
          end
      end
  end.
End parser.

(** Enough for every input: four calls per byte. *)
Definition parse_fuel (expression : string) : nat := 4 * String.length expression + 4.

(** * Entry points (formula.rs) *)

Definition validate_formula_target (target : string) : pm_result unit :=
  if is_identifier (trim target) then Ok tt else Err (InvalidFormulaTarget target).

Definition validate_formula_expression (expression : string) : pm_result unit :=
  match parse_expression expression (parse_fuel expression) expression with
  | Some (Ok s) =>
      if is_empty (skip_whitespace s) then Ok tt
      else Err (InvalidFormulaExpression expression)
  | Some (Err e) => Err e
  | None => Err (InvalidFormulaExpression expression)
  end.

Definition evaluate_formula (expression : string) (vars : variables) : pm_result f64 :=
  match evaluate_expression expression vars (parse_fuel expression) expression with
  | Some (Ok (value, s)) =>
      if is_empty (skip_whitespace s) then Ok value
      else Err (InvalidFormulaExpression expression)
  | Some (Err e) => Err e
  | None => Err (InvalidFormulaExpression expression)
  end.

(** The operators in the order the code tries them. *)
Definition condition_operators : list string := [">="; "<="; "=="; "!="; ">"; "<"].

(** The scan of [split_condition]: [before] is [expression[..index]] and [s]
    is [expression[index..]]; slicing panics off a character boundary. *)
Fixpoint split_condition_from (before s : string) (depth : nat)
  : run_result (option (string * string * string)) :=
  match s with
  | EmptyString => Ok None
  | String a s' =>
      let next depth := split_condition_from (before +:+ String a "") s' depth in
      if Ascii.eqb a "(" then next (S depth)
      else if Ascii.eqb a ")" then next (pred depth)
      else if Nat.eqb depth 0 then
        if negb (at_char_boundary s) then Err Panic
        else
          let splits op :=
            starts_with s op && negb (blank before) &&
            negb (blank (drop_bytes (String.length op) s)) in
          match List.find splits condition_operators with
          | Some op => Ok (Some (trim before, op, trim (drop_bytes (String.length op) s)))
          | None => next depth
          end
      else next depth
  end.

Definition split_condition (expression : string)
  : run_result (option (string * string * string)) :=
  split_condition_from "" expression 0.

(** The comparison an operator stands for. *)
Definition compare_op (operator expression : string) (left right : f64) : pm_result bool :=
  if operator =s ">" then Ok (f64_lt right left)
  else if operator =s ">=" then Ok (f64_le right left)
  else if operator =s "<" then Ok (f64_lt left right)
  else if operator =s "<=" then Ok (f64_le left right)
  else if operator =s "==" then Ok (f64_lt (f64_abs (f64_sub left right)) f64_EPSILON)
  else if operator =s "!=" then Ok (f64_le f64_EPSILON (f64_abs (f64_sub left right)))
  else Err (InvalidFormulaExpression expression).

Definition evaluate_condition (expression : string) (vars : variables) : run_result bool :=
  split ← split_condition expression;
  match split with
  | Some (l, operator, r) =>
      l ← lift (evaluate_formula l vars);
      r ← lift (evaluate_formula r vars);
      lift (compare_op operator expression l r)
  | None =>
      value ← lift (evaluate_formula expression vars);
      Ok (negb (f64_eq value f64_zero))
  end.

Definition validate_condition_expression (expression : string) : run_result unit :=
  match evaluate_condition expression ∅ with
  | Ok _ => Ok tt
  | Err (Fail (UnknownFormulaVariable _)) => Ok tt
  | Err f => Err f
  end.

(** [is_alphanumeric] of a character outside ASCII is the Unicode Alphabetic or
    Numeric property of the toolchain's tables. *)
Class UnicodeTables := { unicode_alphanumeric : N → bool }.

Definition is_alphanumeric `{UnicodeTables} (c : N) : bool :=
  if (c <? 128)%N then is_ascii_alphanumeric (Ascii.ascii_of_N c)
  else unicode_alphanumeric c.

Definition location_punct (c : N) : bool :=
  existsb (N.eqb c) [45; 95; 46; 47; 40; 41]%N.

Definition validate_location_ref `{UnicodeTables} (location : string) : pm_result unit :=
  let location := trim location in
  if is_empty location then Ok tt
  else
    let valid :=
      (String.length location <=? 120)%nat &&
      existsb is_alphanumeric (chars location) &&
      forallb (λ ch, is_alphanumeric ch || is_whitespace ch || location_punct ch)
        (chars location) in
    if valid then Ok tt else Err (InvalidLocation location).
