(* ===== verification/FormulaFacts.v ===== *)
(** Correctness of the formula language: the parser terminates on every input
    within its fuel, checking and evaluating accept the same expressions, the
    only failures of a checked formula are data-dependent, and condition
    splitting panics exactly on expressions with characters outside ASCII
    ahead of their operator. *)
From Stdlib Require Import Ascii.
From S2P Require Import Prelude RustStr F64 Errors Formula.

(** * What the scanners consume *)

Lemma skip_whitespace_len s : String.length (skip_whitespace s) ≤ String.length s.
Proof. induction s as [|a s IH]; simpl; [done|]. case_match; simpl; lia. Qed.

Lemma consume_len c s s' : consume c s = Some s' → String.length s = S (String.length s').
Proof. destruct s as [|a s]; simpl; [done|]. case_match; naive_solver. Qed.

Lemma span_app f s p r : span f s = (p, r) → s = p +:+ r ∧ all_bytes f p = true.
Proof.
  revert p r. induction s as [|a s IH]; intros p r; simpl.
  - by intros [= <- <-].
  - destruct (f a) eqn:E; [|by intros [= <- <-]].
    destruct (span f s) as [p' r'] eqn:Es. intros [= <- <-].
    destruct (IH p' r' eq_refl) as [-> Hp]. split; [done|]. simpl. by rewrite E.
Qed.

Lemma span_len f s p r : span f s = (p, r) →
  String.length s = String.length p + String.length r.
Proof. intros [-> _]%span_app. apply append_length. Qed.

Lemma read_identifier_len s id r :
  read_identifier s = Some (id, r) → String.length r < String.length s.
Proof.
  destruct s as [|a s]; simpl; [done|]. case_match; [|done].
  destruct (span ident_char s) as [p r'] eqn:E. intros [= <- <-].
  apply span_len in E. lia.
Qed.

Lemma read_number_len s v r :
  read_number s = Some (v, r) → String.length r < String.length s.
Proof.
  unfold read_number. destruct (span is_ascii_digit s) as [int r1] eqn:E1.
  apply span_len in E1. destruct (consume "." r1) as [r2|] eqn:E2.
  - apply consume_len in E2. destruct (span is_ascii_digit r2) as [frac r3] eqn:E3.
    apply span_len in E3. case_match; [done|].
    destruct (parse_f64 _); intros [=]; subst. lia.
  - destruct (is_empty int) eqn:E; [done|].
    destruct (parse_f64 _); intros [=]; subst. destruct int; [done|]. simpl in *. lia.
Qed.

Lemma read_identifier_ident s id r :
  read_identifier s = Some (id, r) → is_identifier id = true.
Proof.
  destruct s as [|a s]; simpl; [done|]. destruct (ident_start a) eqn:Ea; [|done].
  destruct (span ident_char s) as [p r'] eqn:E. intros [= <- <-].
  apply span_app in E as [_ Hp]. simpl. by rewrite Ea.
Qed.

(** * Termination

    A parser step with enough fuel returns, and what it returns has read at
    least [d] bytes. *)
Definition reads (d : nat) (s : string) (r : option (pm_result string)) : Prop :=
  ∃ x, r = Some x ∧ ∀ s', x = Ok s' → String.length s' + d ≤ String.length s.

Lemma reads_ok d s s' : String.length s' + d ≤ String.length s → reads d s (Some (Ok s')).
Proof. intros H. exists (Ok s'). naive_solver. Qed.

Lemma reads_err d s e : reads d s (Some (Err e)).
Proof. by exists (Err e). Qed.

(** Sequencing: run the continuation on what the first parser left. *)
Lemma reads_seq d n s s0 (m : option (pm_result string)) k :
  reads d s0 m → String.length s0 + n ≤ String.length s + d →
  (∀ s', String.length s' + d ≤ String.length s0 → reads 0 s' (k s')) →
  reads n s (and_then m k).
Proof.
  intros (x & -> & Hx) Hs Hk. destruct x as [s'|e]; [|apply reads_err]. simpl.
  specialize (Hx s' eq_refl). destruct (Hk s' Hx) as (y & -> & Hy).
  exists y. split; [done|]. intros t Ht. specialize (Hy t Ht). lia.
Qed.

Lemma reads_then d n s s0 (m : option (pm_result string)) :
  reads d s0 m → String.length s0 + n ≤ String.length s + d → reads n s m.
Proof.
  intros (x & -> & Hx) Hs. exists x. split; [done|]. intros t Ht.
  specialize (Hx t Ht). lia.
Qed.

Section total.
Context (input : string).

Let P_expr fuel := ∀ s, 4 * String.length s + 3 ≤ fuel →
  reads 1 s (parse_expression input fuel s).
Let P_eloop fuel := ∀ s, 4 * String.length s + 1 ≤ fuel →
  reads 0 s (parse_expression_loop input fuel s).
Let P_term fuel := ∀ s, 4 * String.length s + 2 ≤ fuel →
  reads 1 s (parse_term input fuel s).
Let P_tloop fuel := ∀ s, 4 * String.length s + 1 ≤ fuel →
  reads 0 s (parse_term_loop input fuel s).
Let P_factor fuel := ∀ s, 4 * String.length s + 1 ≤ fuel →
  reads 1 s (parse_factor input fuel s).

Lemma parse_total fuel :
  P_expr fuel ∧ P_eloop fuel ∧ P_term fuel ∧ P_tloop fuel ∧ P_factor fuel.
Proof.
  unfold P_expr, P_eloop, P_term, P_tloop, P_factor.
  induction fuel as [|fuel (He & Hel & Ht & Htl & Hf)]; [split_and!; intros; lia|].
  split_and!; intros s Hs; simpl;
    pose proof (skip_whitespace_len s); set (s1 := skip_whitespace s) in *.
  - apply (reads_seq 1 _ _ s); [apply Ht; lia|lia|]. intros s' ?. apply Hel. lia.
  - destruct (match consume "+" s1 with Some s' => _ | None => _ end) as [s2|] eqn:E;
      [|apply reads_ok; lia].
    assert (String.length s1 = S (String.length s2)).
    { destruct (consume "+" s1) eqn:E1; simplify_eq; by eapply consume_len. }
    apply (reads_seq 1 _ _ s2); [apply Ht; lia|lia|]. intros s' ?. apply Hel. lia.
  - apply (reads_seq 1 _ _ s); [apply Hf; lia|lia|]. intros s' ?. apply Htl. lia.
  - destruct (match consume "*" s1 with Some s' => _ | None => _ end) as [s2|] eqn:E;
      [|apply reads_ok; lia].
    assert (String.length s1 = S (String.length s2)).
    { destruct (consume "*" s1) eqn:E1; simplify_eq; by eapply consume_len. }
    apply (reads_seq 1 _ _ s2); [apply Hf; lia|lia|]. intros s' ?. apply Htl. lia.
  - destruct (consume "-" s1) as [s2|] eqn:E1.
    { apply consume_len in E1. apply (reads_then 1 _ _ s2); [apply Hf; lia|lia]. }
    destruct (consume "(" s1) as [s2|] eqn:E2.
    { apply consume_len in E2. apply (reads_seq 1 _ _ s2); [apply He; lia|lia|].
      intros s3 ?. pose proof (skip_whitespace_len s3).
      destruct (consume ")" _) as [s4|] eqn:E3; [|apply reads_err].
      apply consume_len in E3. apply reads_ok. lia. }
    destruct (read_identifier s1) as [[id s2]|] eqn:E3.
    { apply read_identifier_len in E3. apply reads_ok. lia. }
    destruct (read_number s1) as [[v s2]|] eqn:E4; [|apply reads_err].
    apply read_number_len in E4. apply reads_ok. lia.
Qed.
End total.

(** * Checking and evaluating agree *)

Section agree.
Context (input : string) (vars : variables).

(** The failures that depend on the variables and not on the text. *)
Definition data_error (e : ProductionMapError) : Prop :=
  (∃ x, e = UnknownFormulaVariable x ∧ vars !! x = None ∧ is_identifier x = true) ∨
  e = FormulaDivisionByZero.

(** The evaluator's answer [e] against the checker's answer [p] at the same
    fuel: the same position, the same syntax error, or an earlier stop at
    the data. *)
Inductive agrees : option (pm_result string) → option (pm_result (f64 * string)) → Prop :=
  | agrees_value s v : agrees (Some (Ok s)) (Some (Ok (v, s)))
  | agrees_syntax e : agrees (Some (Err e)) (Some (Err e))
  | agrees_data p e : data_error e → agrees p (Some (Err e))
  | agrees_fuel : agrees None None.
Hint Constructors agrees : core.

Lemma agrees_then p e kp ke :
  agrees p e → (∀ s v, agrees (kp s) (ke (v, s))) →
  agrees (and_then p kp) (and_then e ke).
Proof. destruct 1; intros Hk; simpl; auto. Qed.

Lemma evaluate_agrees fuel :
  (∀ s, agrees (parse_expression input fuel s) (evaluate_expression input vars fuel s)) ∧
  (∀ s v, agrees (parse_expression_loop input fuel s)
            (evaluate_expression_loop input vars fuel v s)) ∧
  (∀ s, agrees (parse_term input fuel s) (evaluate_term input vars fuel s)) ∧
  (∀ s v, agrees (parse_term_loop input fuel s) (evaluate_term_loop input vars fuel v s)) ∧
  (∀ s, agrees (parse_factor input fuel s) (evaluate_factor input vars fuel s)).
Proof.
  induction fuel as [|fuel (He & Hel & Ht & Htl & Hf)]; [by split_and!|].
  split_and!; intros s; intros; simpl; try (set (s1 := skip_whitespace s)).
  - apply agrees_then; auto.
  - destruct (consume "+" s1); [apply agrees_then; auto|].
    destruct (consume "-" s1); [apply agrees_then; auto|auto].
  - apply agrees_then; auto.
  - destruct (consume "*" s1); [apply agrees_then; auto|].
    destruct (consume "/" s1); [|auto]. apply agrees_then; [done|].
    intros s' d. destruct (f64_eq d f64_zero); [|auto].
    apply agrees_data. by right.
  - destruct (consume "-" s1).
    { destruct (Hf s0); simpl; auto. }
    destruct (consume "(" s1).
    { apply agrees_then; [done|]. intros s' v. unfold invalid.
      destruct (consume ")" _); auto. }
    destruct (read_identifier s1) as [[x s2]|] eqn:E.
    { apply read_identifier_ident in E.
      destruct (vars !! x) eqn:Ex; [auto|]. apply agrees_data. left. eauto. }
    destruct (read_number s1) as [[v s2]|]; unfold invalid; auto.
Qed.
End agree.

(** * Errors of the checker *)

Section syntax_errors.
Context (input : string).

Definition only_invalid (r : option (pm_result string)) : Prop :=
  ∀ e, r = Some (Err e) → e = InvalidFormulaExpression input.

Lemma only_invalid_then m k :
  only_invalid m → (∀ s, only_invalid (k s)) → only_invalid (and_then m k).
Proof. destruct m as [[s|e]|]; unfold only_invalid in *; simpl; naive_solver. Qed.

Lemma parse_errors fuel :
  (∀ s, only_invalid (parse_expression input fuel s)) ∧
  (∀ s, only_invalid (parse_expression_loop input fuel s)) ∧
  (∀ s, only_invalid (parse_term input fuel s)) ∧
  (∀ s, only_invalid (parse_term_loop input fuel s)) ∧
  (∀ s, only_invalid (parse_factor input fuel s)).
Proof.
  induction fuel as [|fuel (He & Hel & Ht & Htl & Hf)]; [by split_and!|].
  split_and!; intros s; simpl; repeat case_match;
    auto using only_invalid_then; try (intros e [= <-]; done).
  apply only_invalid_then; [done|]. intros s'. case_match; intros e [= <-]; done.
Qed.
End syntax_errors.

Lemma validate_formula_error e err :
  validate_formula_expression e = Err err → err = InvalidFormulaExpression e.
Proof.
  unfold validate_formula_expression. destruct (parse_errors e (parse_fuel e)) as (H & _).
  destruct (parse_expression _ _ _) as [[s|e']|] eqn:E; [|intros [= <-]; by eapply H|congruence].
  case_match; congruence.
Qed.

(** * More variables

    Giving a value to further variables does not change an evaluation that
    succeeded without them. *)
Section mono.
Context (input : string) (vars vars' : variables) (Hsub : vars ⊆ vars').

Definition kept (r r' : eval_result) : Prop := ∀ x, r = Some (Ok x) → r' = Some (Ok x).

Lemma kept_then m m' k k' :
  kept m m' → (∀ x, kept (k x) (k' x)) → kept (and_then m k) (and_then m' k').
Proof.
  intros Hm Hk x. destruct m as [[y|e]|]; simpl; [|done..].
  rewrite (Hm y eq_refl). simpl. apply Hk.
Qed.

Lemma evaluate_mono fuel :
  (∀ s, kept (evaluate_expression input vars fuel s) (evaluate_expression input vars' fuel s)) ∧
  (∀ s v, kept (evaluate_expression_loop input vars fuel v s)
            (evaluate_expression_loop input vars' fuel v s)) ∧
  (∀ s, kept (evaluate_term input vars fuel s) (evaluate_term input vars' fuel s)) ∧
  (∀ s v, kept (evaluate_term_loop input vars fuel v s)
            (evaluate_term_loop input vars' fuel v s)) ∧
  (∀ s, kept (evaluate_factor input vars fuel s) (evaluate_factor input vars' fuel s)).
Proof.
  induction fuel as [|fuel (He & Hel & Ht & Htl & Hf)]; [by split_and!|].
  split_and!; intros s; intros; simpl; try (set (s1 := skip_whitespace s)).
  - apply kept_then; [auto|]. intros []; auto.
  - destruct (consume "+" s1); [apply kept_then; [auto|intros []; auto]|].
    destruct (consume "-" s1); [apply kept_then; [auto|intros []; auto]|by intros ?].
  - apply kept_then; [auto|]. intros []; auto.
  - destruct (consume "*" s1); [apply kept_then; [auto|intros []; auto]|].
    destruct (consume "/" s1); [apply kept_then; [auto|]|by intros ?].
    intros []. case_match; [by intros ?|auto].
  - destruct (consume "-" s1); [apply kept_then; [auto|by intros [] ?]|].
    destruct (consume "(" s1); [apply kept_then; [auto|by intros [] ?]|].
    destruct (read_identifier s1) as [[x s2]|]; [|by intros ?].
    destruct (vars !! x) as [v|] eqn:Ex; [|by intros ?].
    rewrite (lookup_weaken _ _ _ _ Ex Hsub). by intros ?.
Qed.
End mono.

Lemma evaluate_formula_mono e vars vars' v :
  vars ⊆ vars' → evaluate_formula e vars = Ok v → evaluate_formula e vars' = Ok v.
Proof.
  intros Hsub. unfold evaluate_formula.
  destruct (evaluate_mono e vars vars' Hsub (parse_fuel e)) as (Hkept & _).
  destruct (evaluate_expression e vars (parse_fuel e) e) as [x|] eqn:E; [|done].
  destruct x as [[w s]|err]; [|done]. by rewrite (Hkept e _ E).
Qed.

Lemma evaluate_condition_mono e vars vars' b :
  vars ⊆ vars' → evaluate_condition e vars = Ok b → evaluate_condition e vars' = Ok b.
Proof.
  intros Hsub. unfold evaluate_condition. destruct (split_condition e) as [[[[l op] r]|]|];
    simpl; [| |done].
  - intros (v & Hv%lift_Ok & (w & Hw%lift_Ok & Hc)%bind_Ok)%bind_Ok.
    rewrite (evaluate_formula_mono l vars vars' v), (evaluate_formula_mono r vars vars' w); done.
  - intros (v & Hv%lift_Ok & Hc)%bind_Ok. rewrite (evaluate_formula_mono e vars vars' v); done.
Qed.

Lemma parse_returns e : ∃ r, parse_expression e (parse_fuel e) e = Some r.
Proof.
  destruct (parse_total e (parse_fuel e)) as (H & _).
  destruct (H e) as (x & Hx & _); [unfold parse_fuel; lia|eauto].
Qed.

Lemma evaluate_returns e vars :
  ∃ r, evaluate_expression e vars (parse_fuel e) e = Some r.
Proof.
  destruct (evaluate_agrees e vars (parse_fuel e)) as (H & _). specialize (H e).
  destruct (parse_returns e) as [r Hr]. rewrite Hr in H. inversion H; eauto.
Qed.

(** The recursive-descent checker and evaluator return on every input
    within fuel linear in its length. *)
Theorem formula_parser_total expression vars :
  (∃ r, parse_expression expression (parse_fuel expression) expression = Some r) ∧
  (∃ r, evaluate_expression expression vars (parse_fuel expression) expression = Some r).
Proof. split; [apply parse_returns|apply evaluate_returns]. Qed.

Lemma evaluate_formula_cases e vars :
  (∃ v, validate_formula_expression e = Ok tt ∧ evaluate_formula e vars = Ok v) ∨
  (∃ err, validate_formula_expression e = Err err ∧ evaluate_formula e vars = Err err) ∨
  (∃ d, data_error vars d ∧ evaluate_formula e vars = Err d).
Proof.
  unfold validate_formula_expression, evaluate_formula.
  destruct (evaluate_agrees e vars (parse_fuel e)) as (H & _). specialize (H e).
  destruct H as [s v|err|p d Hd|]; eauto.
  destruct (is_empty (skip_whitespace s)); eauto.
Qed.

Lemma evaluate_formula_unknown e vars x :
  evaluate_formula e vars = Err (UnknownFormulaVariable x) →
  vars !! x = None ∧ is_identifier x = true.
Proof.
  intros He. destruct (evaluate_formula_cases e vars)
    as [(v & _ & H)|[(err & H1%validate_formula_error & H)|(d & [(y & -> & ? & ?)| ->] & H)]];
    split; congruence.
Qed.

(** The errors an evaluation may return. *)
Definition formula_error (e : ProductionMapError) : Prop :=
  (∃ x, e = UnknownFormulaVariable x) ∨ e = FormulaDivisionByZero ∨
  (∃ s, e = InvalidFormulaExpression s).

Lemma evaluate_formula_errors e vars err :
  evaluate_formula e vars = Err err → formula_error err.
Proof.
  intros He. unfold formula_error. destruct (evaluate_formula_cases e vars)
    as [(v & _ & H)|[(err' & H1%validate_formula_error & H)|(d & [(y & -> & ? & ?)| ->] & H)]];
    rewrite He in H; simplify_eq; eauto.
Qed.

Lemma split_condition_from_errors before s depth f :
  split_condition_from before s depth = Err f → f = Panic.
Proof.
  revert before depth. induction s as [|a s IH]; intros before depth; simpl; [done|].
  repeat match goal with |- context [if ?b then _ else _] => destruct b end; eauto; congruence.
Qed.

Lemma evaluate_condition_errors e vars err :
  evaluate_condition e vars = Err (Fail err) → formula_error err.
Proof.
  unfold evaluate_condition. intros [Hs|([[[l op] r]|] & _ & Hs)]%bind_Err.
  - by apply split_condition_from_errors in Hs.
  - repeat (apply bind_Err in Hs as [(? & [= <-] & ?)%lift_Err|(? & _ & Hs)];
      [by eapply evaluate_formula_errors|]).
    apply lift_Err in Hs as (? & [= <-] & Hs). unfold compare_op in Hs.
    repeat case_match; simplify_eq. right. right. eauto.
  - apply bind_Err in Hs as [(? & [= <-] & ?)%lift_Err|(v & _ & Hs)]; [|done].
    by eapply evaluate_formula_errors.
Qed.

Lemma evaluate_condition_unknown e vars x :
  evaluate_condition e vars = Err (Fail (UnknownFormulaVariable x)) →
  vars !! x = None ∧ is_identifier x = true.
Proof.
  unfold evaluate_condition. intros [Hs|([[[l op] r]|] & _ & Hs)]%bind_Err.
  - by apply split_condition_from_errors in Hs.
  - apply bind_Err in Hs as [(? & [= <-] & ?)%lift_Err|(v & _ & Hs)];
      [by eapply evaluate_formula_unknown|].
    apply bind_Err in Hs as [(? & [= <-] & ?)%lift_Err|(w & _ & Hs)];
      [by eapply evaluate_formula_unknown|].
    apply lift_Err in Hs as (? & [= <-] & Hs). unfold compare_op in Hs. by repeat case_match.
  - apply bind_Err in Hs as [(? & [= <-] & ?)%lift_Err|(v & _ & Hs)]; [|done].
    by eapply evaluate_formula_unknown.
Qed.

(** A formula that evaluates is one the map validator accepts. *)
Theorem evaluated_formula_is_valid expression vars v :
  evaluate_formula expression vars = Ok v →
  validate_formula_expression expression = Ok tt.
Proof.
  intros Hv. destruct (evaluate_formula_cases expression vars)
    as [(w & H & _)|[(err & _ & H)|(d & _ & H)]]; congruence.
Qed.

(** A formula the validator accepts can only fail on the data: on an
    unbound variable that is an identifier, or on a zero divisor. *)
Theorem valid_formula_evaluates expression vars :
  validate_formula_expression expression = Ok tt →
  (∃ v, evaluate_formula expression vars = Ok v) ∨
  (∃ x, evaluate_formula expression vars = Err (UnknownFormulaVariable x) ∧
        vars !! x = None ∧ is_identifier x = true) ∨
  evaluate_formula expression vars = Err FormulaDivisionByZero.
Proof.
  intros Hv. destruct (evaluate_formula_cases expression vars)
    as [(v & _ & H)|[(err & H & _)|(d & [(x & -> & ? & ?)| ->] & H)]];
    [by left; eauto|congruence|by right; left; eauto|by right; right].
Qed.

(** * Conditions *)

Lemma split_condition_from_panic before s depth :
  split_condition_from before s depth = Err Panic →
  all_bytes is_ascii s = false.
Proof.
  revert before depth. induction s as [|a s IH]; intros before depth; simpl; [done|].
  assert (∀ b, b = false → is_ascii a && b = false) as Hand by (intros b ->; apply andb_false_r).
  destruct (Ascii.eqb a "("); [by intros ?%IH; apply Hand|].
  destruct (Ascii.eqb a ")"); [by intros ?%IH; apply Hand|].
  destruct (Nat.eqb depth 0); [|by intros ?%IH; apply Hand].
  destruct (is_char_start a) eqn:Ea; simpl.
  - repeat match goal with |- context [if ?b then _ else _] => destruct b end;
      try done; intros ?%IH; by apply Hand.
  - intros _. apply andb_false_iff. left.
    by destruct a as [[] [] [] [] [] [] [] []].
Qed.

(** Conditions over ASCII text never panic. *)
Theorem ascii_condition_no_panic expression vars :
  all_bytes is_ascii expression = true →
  evaluate_condition expression vars ≠ Err Panic ∧
  validate_condition_expression expression ≠ Err Panic.
Proof.
  intros Ha.
  assert (∀ vs, evaluate_condition expression vs ≠ Err Panic) as H.
  { intros vs. unfold evaluate_condition.
    intros [Hs|(sp & _ & Hs)]%bind_Err.
    - apply split_condition_from_panic in Hs. congruence.
    - destruct sp as [[[l op] r]|].
      + apply bind_Err in Hs as [Hs|(v & _ & Hs)]; [by apply lift_not_panic in Hs|].
        apply bind_Err in Hs as [Hs|(w & _ & Hs)]; [by apply lift_not_panic in Hs|].
        by apply lift_not_panic in Hs.
      + apply bind_Err in Hs as [Hs|(v & _ & Hs)]; [by apply lift_not_panic in Hs|done]. }
  split; [done|]. specialize (H ∅). unfold validate_condition_expression.
  destruct (evaluate_condition expression ∅) as [|[|[]]]; congruence.
Qed.

(** The byte-wise scan of a condition slices inside a character when one
    outside ASCII stands outside parentheses before the operator: the validator
    itself panics. *)
Theorem condition_panics_on_utf8 :
  validate_condition_expression "é > 1" = Err Panic ∧
  validate_condition_expression "(é) > 1" = Err (Fail (InvalidFormulaExpression "(é)")).
Proof. by vm_compute. Qed.

(** Checking a condition evaluates it without variables and stops at the
    first unbound one: a condition with a malformed right-hand side is accepted,
    and fails whenever it is run. *)
Theorem condition_check_is_incomplete :
  validate_condition_expression "order_qty > )(" = Ok tt ∧
  ∀ q, evaluate_condition "order_qty > )(" {["order_qty" := q]} =
    Err (Fail (InvalidFormulaExpression ")(")).
Proof. split; [by vm_compute|]. intros q. by vm_compute. Qed.
