(* ===== verification/Compiler.v ===== *)
(** The production map compiler.

    Models [src/core/production_map/compiler/]: [normalize.rs] (canonical text
    and branches), [validation.rs] (the well-formedness check), [graph.rs]
    (Kahn's topological order), [operation.rs] (one operation per node),
    [mod.rs] ([compile_map]) and [runner.rs] (walking the compiled map and
    producing task drafts).

    A condition may panic (see [Formula]) and the graph code uses [expect], so
    results are [run_result]s; the theorems of [CompilerFacts] show the
    [expect]s never fire. *)
From Stdlib Require Import Ascii.
From S2P Require Import Prelude RustStr F64 Errors Identity OrderLayout MapDefinition Formula.

(** * Normalization *)

Definition normalize_branch (branch : string) : string :=
  let branch := trim branch in
  if (branch =s "1") || eq_ignore_ascii_case branch "ha" ||
     eq_ignore_ascii_case branch "yes" || eq_ignore_ascii_case branch "true"
  then "true"
  else if (branch =s "0") || eq_ignore_ascii_case branch "yo'q" ||
     eq_ignore_ascii_case branch "yoq" || eq_ignore_ascii_case branch "no" ||
     eq_ignore_ascii_case branch "false"
  then "false"
  else to_ascii_lowercase branch.

Definition normalize_node (node : ProductionMapNode) : ProductionMapNode :=
  {| node_id := to_ascii_lowercase (trim (node_id node));
     node_kind := node_kind node;
     node_title := trim (node_title node);
     node_apparatus_id := trim (node_apparatus_id node);
     node_formula :=
       (λ f, {| formula_target := trim (formula_target f);
                formula_expression := trim (formula_expression f) |}) <$> node_formula node;
     node_role_code := trim (node_role_code node);
     node_item_code := trim (node_item_code node);
     node_qty_formula := trim (node_qty_formula node);
     node_from_location := trim (node_from_location node);
     node_to_location := trim (node_to_location node);
     alternative_group_id := trim (alternative_group_id node);
     alternative_group_label := trim (alternative_group_label node);
     alternative_assigned_title := trim (alternative_assigned_title node);
     alternative_assigned_apparatus_id := trim (alternative_assigned_apparatus_id node);
     rezka_kadr_count := rezka_kadr_count node;
     rezka_frame_groups := rezka_frame_groups node;
     rezka_label_length := rezka_label_length node;
     node_x := if is_finite (node_x node) then node_x node else f64_zero;
     node_y := if is_finite (node_y node) then node_y node else f64_zero |}.

Definition normalize_edge (edge : ProductionMapEdge) : ProductionMapEdge :=
  {| edge_from := to_ascii_lowercase (trim (edge_from edge));
     edge_to := to_ascii_lowercase (trim (edge_to edge));
     edge_branch := normalize_branch (edge_branch edge) |}.

Definition normalize_map (map : ProductionMapDefinition) : ProductionMapDefinition :=
  {| map_combo := map_combo map;
     map_products := map_products map;
     map_id := to_ascii_lowercase (trim (map_id map));
     map_product_code := trim (map_product_code map);
     map_title := trim (map_title map);
     map_code := trim (map_code map);
     map_order_number := trim (map_order_number map);
     map_customer_name := map_customer_name map;
     map_image_id := map_image_id map;
     map_roll_count :=
       if is_some_and (map_roll_count map) (λ v, (v <=? 0)%Z) then None else map_roll_count map;
     map_width_mm :=
       if is_some_and (map_width_mm map) (λ v, negb (is_finite v) || f64_le v f64_zero)
       then None else map_width_mm map;
     map_print_val_size_mm := map_print_val_size_mm map;
     map_order_kg := map_order_kg map;
     map_base_length := map_base_length map;
     map_duplicate_rezka_labels := map_duplicate_rezka_labels map;
     map_include_bobina_in_net := map_include_bobina_in_net map;
     map_standard_print_side := map_standard_print_side map;
     map_nodes := normalize_node <$> map_nodes map;
     map_edges := normalize_edge <$> map_edges map |}.

Definition reject_order_number_immutable (maps : gmap string ProductionMapDefinition)
    (next : ProductionMapDefinition) : pm_result unit :=
  let id := trim (map_id next) in
  if negb (starts_with id "zakaz-") then Ok tt
  else
    let order_number := trim (map_order_number next) in
    if is_empty order_number then Ok tt
    else match maps !! id with
    | None => Ok tt
    | Some existing =>
        let existing_number := trim (map_order_number existing) in
        if negb (is_empty existing_number) && (existing_number <>s order_number)
        then Err OrderNumberImmutable else Ok tt
    end.

(** * Validation *)

Definition validate_rezka_frame_groups (node : ProductionMapNode) : pm_result unit :=
  match rezka_frame_groups node with
  | [] => Ok tt
  | groups =>
      match rezka_kadr_count node with
      | Some expected =>
          if negb (0 <? expected)%Z then Err InvalidRezkaFrameGroups
          else
            total ← for_each (λ group total,
              if (group <=? 0)%Z then Err InvalidRezkaFrameGroups
              else ok_or (i64_checked (total + group)) InvalidRezkaFrameGroups) groups 0%Z;
            check (negb (total =? expected)%Z) InvalidRezkaFrameGroups
      | None => Err InvalidRezkaFrameGroups
      end
  end.

Definition validate_apparatus_identity (map : ProductionMapDefinition)
    (node : ProductionMapNode) : pm_result unit :=
  let apparatus_id := trim (node_apparatus_id node) in
  if is_empty apparatus_id || negb (is_ok (ApparatusId_new apparatus_id)) then Err MissingId
  else
    let assigned_id := trim (alternative_assigned_apparatus_id node) in
    if is_empty assigned_id then
      if negb (blank (alternative_assigned_title node)) then Err MissingId else Ok tt
    else if negb (is_ok (ApparatusId_new assigned_id)) then Err MissingId
    else
      let group_id := trim (alternative_group_id node) in
      if is_empty group_id ||
         negb (existsb (λ candidate,
           NodeKind.eqb (node_kind candidate) NodeKind.Apparatus &&
           (trim (alternative_group_id candidate) =s group_id) &&
           (trim (node_apparatus_id candidate) =s assigned_id)) (map_nodes map))
      then Err MissingId else Ok tt.

Definition validate_qty_formula (node : ProductionMapNode) : pm_result unit :=
  if blank (node_qty_formula node) then Ok tt
  else validate_formula_expression (node_qty_formula node).

(** The [match node.kind] of the node loop. *)
Definition validate_node_kind (map : ProductionMapDefinition) (node : ProductionMapNode)
  : run_result unit :=
  match node_kind node with
  | NodeKind.Start | NodeKind.End_ | NodeKind.Location => Ok tt
  | NodeKind.Formula =>
      match node_formula node with
      | None => Err (Fail MissingFormulaExpression)
      | Some formula =>
          if blank (formula_target formula) then Err (Fail MissingFormulaTarget)
          else if blank (formula_expression formula) then Err (Fail MissingFormulaExpression)
          else
            _ ← lift (validate_formula_target (formula_target formula));
            lift (validate_formula_expression (formula_expression formula))
      end
  | NodeKind.Condition =>
      match node_formula node with
      | None => Err (Fail MissingFormulaExpression)
      | Some formula =>
          if blank (formula_expression formula) then Err (Fail MissingFormulaExpression)
          else validate_condition_expression (formula_expression formula)
      end
  | NodeKind.Apparatus =>
      _ ← lift (validate_apparatus_identity map node);
      _ ← lift (validate_rezka_frame_groups node);
      lift (validate_qty_formula node)
  | NodeKind.Material | NodeKind.KkProduct | NodeKind.Task | NodeKind.Wait
  | NodeKind.Output => lift (validate_qty_formula node)
  end.

Section with_unicode.
Context `{UnicodeTables}.

(** One iteration of the node loop; the state is [ids], [start_count] and
    [end_count]. *)
Definition validate_node (map : ProductionMapDefinition) (node : ProductionMapNode)
    (st : gset string * nat * nat) : run_result (gset string * nat * nat) :=
  let '(ids, start_count, end_count) := st in
  if bool_decide (node_id node ∈ ids) then Err (Fail (DuplicateNode (node_id node)))
  else
    let ids := {[node_id node]} ∪ ids in
    let start_count :=
      if NodeKind.eqb (node_kind node) NodeKind.Start then S start_count else start_count in
    let end_count :=
      if NodeKind.eqb (node_kind node) NodeKind.End_ then S end_count else end_count in
    _ ← validate_node_kind map node;
    _ ← lift (validate_location_ref (node_from_location node));
    _ ← lift (validate_location_ref (node_to_location node));
    Ok (ids, start_count, end_count).

Definition validate_edge (ids : gset string) (edge : ProductionMapEdge) (_ : unit)
  : run_result unit :=
  if bool_decide (edge_from edge ∉ ids) then Err (Fail (MissingEdgeNode (edge_from edge)))
  else if bool_decide (edge_to edge ∉ ids) then Err (Fail (MissingEdgeNode (edge_to edge)))
  else Ok tt.

(** A condition node needs an outgoing edge for each branch. *)
Definition validate_branches (map : ProductionMapDefinition) (node : ProductionMapNode)
    (_ : unit) : run_result unit :=
  if negb (NodeKind.eqb (node_kind node) NodeKind.Condition) then Ok tt
  else
    let outgoing := List.filter (λ edge, edge_from edge =s node_id node) (map_edges map) in
    let has branch := existsb (λ edge, normalize_branch (edge_branch edge) =s branch) outgoing in
    if negb (has "true") || negb (has "false")
    then Err (Fail MissingConditionBranch) else Ok tt.

Definition validate_combo (map : ProductionMapDefinition) : pm_result unit :=
  match map_combo map with
  | Some combo =>
      if (match map_products map with [] => true | _ => false end) ||
         (combo_revision combo <? 1)%Z || is_empty (combo_id combo) ||
         (map_product_code map <>s combo_item_code combo) ||
         (map_title map <>s combo_name combo)
      then Err ProgressInputInvalid else Ok tt
  | None => Ok tt
  end.

Definition validate_map (map : ProductionMapDefinition) : run_result unit :=
  _ ← lift (validate_combo map);
  _ ← (match validate_products (map_products map) with
       | Ok _ => Ok tt
       | Err _ => Err (Fail ProgressInputInvalid)
       end : run_result unit);
  _ ← check (is_some_and (map_print_val_size_mm map)
        (λ size, negb (is_finite size) || f64_le size f64_zero)) (Fail InvalidPrintValSize);
  _ ← check (blank (map_id map)) (Fail MissingId);
  _ ← check (blank (map_product_code map)) (Fail MissingProductCode);
  _ ← check (blank (map_title map)) (Fail MissingTitle);
  st ← for_each (validate_node map) (map_nodes map) (∅, 0, 0);
  let '(ids, start_count, end_count) := st in
  _ ← check (negb (Nat.eqb start_count 1)) (Fail MissingStart);
  _ ← check (negb (Nat.eqb end_count 1)) (Fail MissingEnd);
  _ ← for_each (validate_edge ids) (map_edges map) tt;
  for_each (validate_branches map) (map_nodes map) tt.
End with_unicode.

(** * Topological order (graph.rs) *)

Abbreviation indegrees := (gmap string nat).

Record kahn_state := {
  kahn_indegree : indegrees;
  kahn_outgoing : gmap string (list string);
}.

Definition kahn_init_nodes (map : ProductionMapDefinition) : kahn_state :=
  foldl (λ st node,
    {| kahn_indegree := <[node_id node := 0]> (kahn_indegree st);
       kahn_outgoing := <[node_id node := []]> (kahn_outgoing st) |})
    {| kahn_indegree := ∅; kahn_outgoing := ∅ |} (map_nodes map).

Definition kahn_add_edge (edge : ProductionMapEdge) (st : kahn_state) : run_result kahn_state :=
  count ← expect (kahn_indegree st !! edge_to edge);
  children ← expect (kahn_outgoing st !! edge_from edge);
  Ok {| kahn_indegree := <[edge_to edge := S count]> (kahn_indegree st);
        kahn_outgoing := <[edge_from edge := children ++ [edge_to edge]]> (kahn_outgoing st) |}.

(** The body of the pop loop over one node's children: decrement, and push
    the child when its count reaches zero. *)
Definition kahn_child (child : string) (st : indegrees * list string)
  : run_result (indegrees * list string) :=
  let '(indegree, queue) := st in
  count ← expect (indegree !! child);
  let count := pred count in
  let indegree := <[child := count]> indegree in
  Ok (indegree, if Nat.eqb count 0 then queue ++ [child] else queue).

(** [while let Some(id) = queue.pop_front()].  One unit of fuel per pop. *)
Fixpoint kahn_loop (fuel : nat) (outgoing : gmap string (list string))
    (indegree : indegrees) (queue order : list string) : run_result (list string) :=
  match queue with
  | [] => Ok order
  | id :: queue =>
      match fuel with
      | O => Err Panic
      | S fuel =>
          let children := default [] (outgoing !! id) in
          '(indegree, queue) ← for_each kahn_child children (indegree, queue);
          kahn_loop fuel outgoing indegree queue (order ++ [id])
      end
  end.

(** The initial queue: the nodes of indegree zero in key order. *)
Definition kahn_roots (indegree : indegrees) : list string :=
  List.filter (λ id, bool_decide (indegree !! id = Some 0)) (btree_keys indegree).

Definition topological_order (map : ProductionMapDefinition) : run_result (list string) :=
  st ← for_each kahn_add_edge (map_edges map) (kahn_init_nodes map);
  order ← kahn_loop (length (map_nodes map)) (kahn_outgoing st) (kahn_indegree st)
            (kahn_roots (kahn_indegree st)) [];
  if negb (Nat.eqb (length order) (length (map_nodes map)))
  then Err (Fail Cycle) else Ok order.

(** * Operations (operation.rs) *)

Definition insert_nonempty (key value : string) (args : gmap string string) : gmap string string :=
  if is_empty value then args else <[key := value]> args.

Definition node_args (node : ProductionMapNode) : gmap string string :=
  let args : gmap string string := {["title" := node_title node]} in
  let args := if NodeKind.eqb (node_kind node) NodeKind.Apparatus
              then <["apparatus_id" := node_apparatus_id node]> args else args in
  let args := insert_nonempty "role_code" (node_role_code node) args in
  let args := insert_nonempty "item_code" (node_item_code node) args in
  let args := insert_nonempty "qty_formula" (node_qty_formula node) args in
  let args := insert_nonempty "from_location" (node_from_location node) args in
  let args := insert_nonempty "to_location" (node_to_location node) args in
  let args := insert_nonempty "alternative_group_id" (alternative_group_id node) args in
  let args := insert_nonempty "alternative_group_label" (alternative_group_label node) args in
  let args := insert_nonempty "alternative_assigned_title"
                (alternative_assigned_title node) args in
  let args := insert_nonempty "alternative_assigned_apparatus_id"
                (alternative_assigned_apparatus_id node) args in
  let args := match rezka_kadr_count node with
              | Some value => <["rezka_kadr_count" := Z_to_string value]> args
              | None => args end in
  match rezka_label_length node with
  | Some value => <["rezka_label_length" := f64_to_string value]> args
  | None => args
  end.

Definition compile_node (order : nat) (node : ProductionMapNode)
  : pm_result ProductionMapOperation :=
  let args := node_args node in
  let op code args :=
    Ok {| op_order := order; op_node_id := node_id node; op_code := code; op_args := args |} in
  match node_kind node with
  | NodeKind.Start => op "start" args
  | NodeKind.Location => op "warehouse_location" args
  | NodeKind.Material => op "require_material" args
  | NodeKind.Apparatus => op "apparatus" args
  | NodeKind.KkProduct => op "kk_product" args
  | NodeKind.Formula =>
      match node_formula node with
      | None => Err MissingFormulaExpression
      | Some formula =>
          op "calculate" (<["expression" := formula_expression formula]>
                            (<["target" := formula_target formula]> args))
      end
  | NodeKind.Condition =>
      match node_formula node with
      | None => Err MissingFormulaExpression
      | Some formula =>
          op "condition" (<["expression" := formula_expression formula]> args)
      end
  | NodeKind.Task => op "create_task" args
  | NodeKind.Wait => op "wait_dependency" args
  | NodeKind.Output => op "produce_output" args
  | NodeKind.End_ => op "end" args
  end.

(** * Compilation (mod.rs) *)

(** [for (index, node_id) in order.into_iter().enumerate()]. *)
Fixpoint compile_operations (map : ProductionMapDefinition) (index : nat) (order : list string)
  : run_result (list ProductionMapOperation) :=
  match order with
  | [] => Ok []
  | id :: order =>
      node ← expect (node_by_id map id);
      operation ← lift (compile_node (S index) node);
      operations ← compile_operations map (S index) order;
      Ok (operation :: operations)
  end.

Definition compile_map `{UnicodeTables} (map : ProductionMapDefinition)
  : run_result ProductionMapProgram :=
  _ ← validate_map map;
  order ← topological_order map;
  operations ← compile_operations map 0 order;
  Ok {| program_map_id := map_id map;
        program_product_code := map_product_code map;
        program_operations := operations |}.
