(* ===== verification/GraphFacts.v ===== *)
(** Correctness of the topological order of a production map.

    On a graph whose node ids are distinct and whose edges join known nodes,
    Kahn's algorithm never hits one of its [expect]s and stays within its
    fuel; it returns an order exactly when the graph has no cycle, and the
    order is a permutation of the nodes along which every edge goes forward. *)
From S2P Require Import Prelude RustStr F64 Errors Identity OrderLayout MapDefinition Formula Compiler.

Definition node_ids (map : ProductionMapDefinition) : list string := node_id <$> map_nodes map.

Definition has_edge (map : ProductionMapDefinition) (u v : string) : Prop :=
  ∃ e, e ∈ map_edges map ∧ edge_from e = u ∧ edge_to e = v.

(** What the compiler needs of the graph; [validate_map] establishes it. *)
Record wf_graph (map : ProductionMapDefinition) : Prop := {
  wf_nodup : NoDup (node_ids map);
  wf_edge : ∀ e, e ∈ map_edges map → edge_from e ∈ node_ids map ∧ edge_to e ∈ node_ids map;
}.

Definition acyclic (map : ProductionMapDefinition) : Prop := ∀ v, ¬ tc (has_edge map) v v.

(** [order] lists the source of every edge before its target. *)
Definition edges_forward (map : ProductionMapDefinition) (order : list string) : Prop :=
  ∀ u v, has_edge map u v → ∃ i j, order !! i = Some u ∧ order !! j = Some v ∧ i < j.

(** * Counting *)

Definition occ (v : string) (l : list string) : nat := length (filter (λ x, x = v) l).

Lemma occ_cons v x l : occ v (x :: l) = (if decide (x = v) then 1 else 0) + occ v l.
Proof. unfold occ. rewrite filter_cons. by case_decide. Qed.

Lemma occ_pos v l : occ v l ≠ 0 ↔ v ∈ l.
Proof.
  induction l as [|x l IH]; [set_solver|].
  rewrite occ_cons, elem_of_cons. case_decide; naive_solver lia.
Qed.

Lemma occ_app v l k : occ v (l ++ k) = occ v l + occ v k.
Proof. unfold occ. by rewrite filter_app, length_app. Qed.

Section edges.
Context (es : list ProductionMapEdge).

(** The targets of the edges leaving [u], and how many edges reach [v] from
    outside [done]. *)
Definition children (u : string) : list string :=
  edge_to <$> filter (λ e, edge_from e = u) es.
Definition open_edges (done : list string) (v : string) : nat :=
  occ v (edge_to <$> filter (λ e, edge_from e ∉ done) es).

Lemma open_edges_zero done v :
  open_edges done v = 0 ↔ ∀ e, e ∈ es → edge_to e = v → edge_from e ∈ done.
Proof.
  unfold open_edges. split.
  - intros H e He <-. destruct (decide (edge_from e ∈ done)); [done|]. exfalso.
    revert H. apply occ_pos. apply list_elem_of_fmap. exists e.
    by rewrite list_elem_of_filter.
  - intros H. destruct (decide (occ v (edge_to <$> filter (λ e, edge_from e ∉ done) es) = 0))
      as [|Hn]; [done|]. exfalso.
    apply occ_pos, list_elem_of_fmap in Hn as (e & -> & [Hd He]%list_elem_of_filter).
    naive_solver.
Qed.
End edges.

Lemma open_edges_step es done u v :
  u ∉ done →
  open_edges es done v = open_edges es (done ++ [u]) v + occ v (children es u).
Proof.
  intros Hu. unfold open_edges, children.
  induction es as [|e es IH]; [done|]. rewrite !filter_cons.
  repeat case_decide; rewrite ?fmap_cons, ?occ_cons, IH; try lia; set_solver.
Qed.

Lemma open_edges_snoc es e v :
  open_edges (es ++ [e]) [] v = (if decide (edge_to e = v) then 1 else 0) + open_edges es [] v.
Proof.
  unfold open_edges. rewrite filter_app, fmap_app, occ_app, filter_cons, filter_nil.
  rewrite decide_True by set_solver. rewrite fmap_cons, fmap_nil, occ_cons.
  change (occ v []) with 0. lia.
Qed.

Lemma children_snoc es e u :
  children (es ++ [e]) u = children es u ++ (if decide (edge_from e = u) then [edge_to e] else []).
Proof.
  unfold children. rewrite filter_app, fmap_app, filter_cons, filter_nil.
  by case_decide.
Qed.

(** * The initial tables *)

Lemma kahn_init_spec map :
  (∀ v, v ∈ node_ids map → kahn_indegree (kahn_init_nodes map) !! v = Some 0 ∧
                            kahn_outgoing (kahn_init_nodes map) !! v = Some []) ∧
  (∀ v, is_Some (kahn_indegree (kahn_init_nodes map) !! v) → v ∈ node_ids map).
Proof.
  unfold kahn_init_nodes, node_ids.
  induction (map_nodes map) as [|n ns [IH1 IH2]] using rev_ind;
    [split; [set_solver|intros v [x Hx]; simpl in Hx; by rewrite lookup_empty in Hx]|].
  rewrite foldl_app, fmap_app. simpl. split.
  - intros v [Hv|Hv%list_elem_of_singleton]%elem_of_app; [|by subst; rewrite !lookup_insert_eq].
    destruct (decide (node_id n = v)) as [->|]; [by rewrite !lookup_insert_eq|].
    rewrite !lookup_insert_ne by done. auto.
  - intros v. rewrite elem_of_app, list_elem_of_singleton.
    destruct (decide (node_id n = v)) as [->|]; [by right|].
    rewrite lookup_insert_ne by done. auto.
Qed.

(** The tables once the edges [es] are counted. *)
Definition tables (ids : list string) (es : list ProductionMapEdge) (st : kahn_state) : Prop :=
  (∀ v, v ∈ ids → kahn_indegree st !! v = Some (open_edges es [] v) ∧
                  kahn_outgoing st !! v = Some (children es v)) ∧
  (∀ v, is_Some (kahn_indegree st !! v) → v ∈ ids).

Lemma kahn_add_edge_spec ids es e st :
  tables ids es st → edge_from e ∈ ids → edge_to e ∈ ids →
  ∃ st', kahn_add_edge e st = Ok st' ∧ tables ids (es ++ [e]) st'.
Proof.
  intros [Hids Hdom] Hf Ht. destruct (Hids _ Ht) as [Hti _]. destruct (Hids _ Hf) as [_ Hfo].
  unfold kahn_add_edge. rewrite Hti, Hfo. simpl. eexists; split; [done|]. split; simpl.
  - intros v Hv. destruct (Hids v Hv) as [H1 H2].
    rewrite open_edges_snoc, children_snoc. split.
    + case_decide; subst; [by rewrite lookup_insert_eq|by rewrite lookup_insert_ne].
    + case_decide; subst; [by rewrite lookup_insert_eq|].
      by rewrite lookup_insert_ne, app_nil_r.
  - intros v. destruct (decide (edge_to e = v)) as [<-|]; [done|].
    rewrite lookup_insert_ne by done. auto.
Qed.

Lemma kahn_tables map :
  wf_graph map →
  ∃ st, for_each kahn_add_edge (map_edges map) (kahn_init_nodes map) = Ok st ∧
        tables (node_ids map) (map_edges map) st.
Proof.
  intros [_ Hw]. induction (map_edges map) as [|e es IH] using rev_ind.
  - exists (kahn_init_nodes map). split; [done|]. apply kahn_init_spec.
  - destruct IH as (st & Hst & Htab); [intros; apply Hw; set_solver|].
    destruct (Hw e) as [??]; [set_solver|].
    destruct (kahn_add_edge_spec _ _ e _ Htab) as (st' & He & Htab'); [done..|].
    exists st'. rewrite for_each_app, Hst. simpl. by rewrite He.
Qed.

(** * One pop *)

Lemma kahn_children cs ind q :
  (∀ v, v ∈ cs → ∃ d, ind !! v = Some d ∧ occ v cs ≤ d) →
  ∃ ind' news, for_each kahn_child cs (ind, q) = Ok (ind', q ++ news) ∧
    (∀ v, ind' !! v = (λ d, d - occ v cs) <$> ind !! v) ∧ NoDup news ∧
    (∀ v, v ∈ news ↔ v ∈ cs ∧ ind !! v = Some (occ v cs)).
Proof.
  revert ind q. induction cs as [|c cs IH]; intros ind q Hcs.
  { exists ind, []. rewrite app_nil_r. split_and!; [done| |constructor|set_solver].
    intros v. destruct (ind !! v); simpl; [f_equal; unfold occ; simpl; lia|done]. }
  destruct (Hcs c) as (d & Hd & Hle); [set_solver|].
  rewrite occ_cons, decide_True in Hle by done.
  destruct (IH (<[c := pred d]> ind) (if Nat.eqb (pred d) 0 then q ++ [c] else q))
    as (ind' & news & Hok & Hind & Hnd & Hnews).
  { intros v Hv. destruct (decide (c = v)) as [->|Hne].
    - rewrite lookup_insert_eq. eexists; split; [done|lia].
    - rewrite lookup_insert_ne by done. destruct (Hcs v) as (dv & ? & Hdv); [set_solver|].
      rewrite occ_cons, decide_False in Hdv by done. eauto. }
  assert (Hfirst : pred d = 0 → c ∉ cs).
  { intros Hz ?%occ_pos. lia. }
  exists ind', ((if Nat.eqb (pred d) 0 then [c] else []) ++ news).
  simpl for_each. rewrite Hd. simpl. rewrite Hok. split_and!.
  - destruct (Nat.eqb _ _); simpl; by rewrite <-?app_assoc.
  - intros v. rewrite Hind, occ_cons. case_decide; subst.
    + rewrite lookup_insert_eq, Hd. simpl. f_equal. lia.
    + by rewrite lookup_insert_ne.
  - destruct (Nat.eqb_spec (pred d) 0); [|done]. simpl. constructor; [|done].
    rewrite Hnews. intros [? _]. naive_solver.
  - intros v. rewrite elem_of_app, Hnews, occ_cons, elem_of_cons.
    destruct (decide (c = v)) as [<-|Hne].
    + rewrite lookup_insert_eq, Hd.
      destruct (Nat.eqb_spec (pred d) 0) as [Hz|Hz]; rewrite ?list_elem_of_singleton.
      * assert (occ c cs = 0) as ->.
        { destruct (decide (occ c cs = 0)) as [|?%occ_pos]; naive_solver. }
        split; [|by left]. intros _. split; [by left|]. f_equal. lia.
      * rewrite elem_of_nil. split.
        -- intros [[]|[? [= ?]]]. split; [by left|]. f_equal. lia.
        -- intros [_ [= ?]]. right. split; [|f_equal; lia]. apply occ_pos. lia.
    + rewrite lookup_insert_ne by done. destruct (Nat.eqb _ _); set_solver.
Qed.

(** * The loop *)

Section loop.
Context (map : ProductionMapDefinition) (outgoing : gmap string (list string)).
Context (Hwf : wf_graph map).
Context (Hout : ∀ v, v ∈ node_ids map → outgoing !! v = Some (children (map_edges map) v)).

Abbreviation open := (open_edges (map_edges map)).

Record kahn_inv (ind : indegrees) (queue order : list string) : Prop := {
  inv_nodup : NoDup (order ++ queue);
  inv_nodes : ∀ v, v ∈ order ++ queue → v ∈ node_ids map;
  inv_count : ∀ v, v ∈ node_ids map → ind !! v = Some (open order v);
  inv_ready : ∀ v, v ∈ node_ids map → v ∈ order ++ queue ↔ open order v = 0;
  inv_forward : ∀ j v u, order !! j = Some v → has_edge map u v →
    ∃ i, order !! i = Some u ∧ i < j;
}.

Lemma children_edge u v : v ∈ children (map_edges map) u ↔ has_edge map u v.
Proof.
  unfold children, has_edge. rewrite list_elem_of_fmap. setoid_rewrite list_elem_of_filter.
  naive_solver.
Qed.

Lemma has_edge_nodes u v : has_edge map u v → u ∈ node_ids map ∧ v ∈ node_ids map.
Proof. intros (e & He & <- & <-). by apply (wf_edge _ Hwf). Qed.

Lemma kahn_pop ind id queue order :
  kahn_inv ind (id :: queue) order →
  ∃ ind' queue',
    for_each kahn_child (default [] (outgoing !! id)) (ind, queue) = Ok (ind', queue') ∧
    kahn_inv ind' queue' (order ++ [id]).
Proof.
  intros [Hnd Hnodes Hcount Hready Hfwd].
  assert (Hid : id ∈ node_ids map) by (apply Hnodes; set_solver).
  assert (Hido : id ∉ order) 
    by (apply NoDup_app in Hnd as (_ & Hx & _); intros Ho; apply (Hx id Ho); by left).
  assert (Hstep : ∀ v, open order v = open (order ++ [id]) v + occ v (children (map_edges map) id))
    by (intros; by apply open_edges_step).
  rewrite (Hout id Hid). simpl.
  destruct (kahn_children (children (map_edges map) id) ind queue)
    as (ind' & news & Hok & Hind & Hnn & Hnews).
  { intros v [_ Hv]%children_edge%has_edge_nodes. eexists; split; [by apply Hcount|].
    rewrite Hstep. lia. }
  exists ind', (queue ++ news). split; [done|].
  assert (Hnew : ∀ v, v ∈ node_ids map → v ∈ news ↔ open order v ≠ 0 ∧ open (order ++ [id]) v = 0).
  { intros v Hv. rewrite Hnews, Hcount, <-occ_pos, (Hstep v) by done.
    split; [intros [? [= ?]]; lia|intros [??]; split; [lia|f_equal; lia]]. }
  assert (Hnew_nodes : ∀ v, v ∈ news → v ∈ node_ids map).
  { intros v [Hv _]%Hnews. by apply children_edge, has_edge_nodes in Hv as [_ ?]. }
  assert (Happ : (order ++ [id]) ++ queue ++ news = (order ++ id :: queue) ++ news)
    by (by rewrite <-!app_assoc).
  split.
  - rewrite Happ. apply NoDup_app. split_and!; [done| |done].
    intros v Hv Hn. pose proof (Hnew_nodes v Hn) as Hvn.
    apply Hready in Hv; [|done]. apply Hnew in Hn as [? _]; done.
  - intros v. rewrite Happ, elem_of_app. intros [?|?]; auto.
  - intros v Hv. rewrite Hind, Hcount, (Hstep v) by done. simpl. f_equal. lia.
  - intros v Hv. rewrite Happ, elem_of_app, Hready, Hnew by done. specialize (Hstep v). lia.
  - intros j v u Hj He. destruct (decide (j < length order)).
    + rewrite lookup_app_l in Hj by done. destruct (Hfwd j v u Hj He) as (i & Hi & ?).
      exists i. split; [by rewrite lookup_app_l by lia|lia].
    + rewrite lookup_app_r in Hj by lia. apply list_lookup_singleton_Some in Hj as [Hj <-].
      assert (open order id = 0) as Hz by (apply Hready; set_solver).
      destruct He as (e & He & <- & Het).
      rewrite open_edges_zero in Hz. specialize (Hz e He Het).
      apply list_elem_of_lookup in Hz as [i Hi].
      pose proof (lookup_lt_Some _ _ _ Hi). exists i. split; [by rewrite lookup_app_l by lia|lia].
Qed.

Lemma kahn_loop_spec fuel ind queue order :
  kahn_inv ind queue order → length (node_ids map) ≤ fuel + length order →
  ∃ order' ind', kahn_loop fuel outgoing ind queue order = Ok order' ∧ kahn_inv ind' [] order'.
Proof.
  revert ind queue order. induction fuel as [|fuel IH]; intros ind queue order Hinv Hfuel;
    (destruct queue as [|id queue]; [by exists order, ind|]).
  - pose proof (submseteq_length _ _ (NoDup_submseteq _ _ (inv_nodup _ _ _ Hinv)
      (inv_nodes _ _ _ Hinv))) as Hlen.
    rewrite length_app in Hlen. simpl in *. lia.
  - simpl. destruct (kahn_pop ind id queue order Hinv) as (ind' & queue' & -> & Hinv').
    simpl. apply (IH _ _ _ Hinv'). rewrite length_app. simpl. lia.
Qed.
End loop.

(** A set of nodes each having a predecessor in it contains a cycle: walk
    backwards until a node repeats. *)
Lemma backward_walk (map : ProductionMapDefinition) (rest : list string) :
  (∀ v, v ∈ rest → ∃ u, u ∈ rest ∧ has_edge map u v) →
  ∀ n v visited, length rest < n + length visited → v ∈ rest → NoDup visited →
    (∀ w, w ∈ visited → w ∈ rest ∧ tc (has_edge map) v w) →
    ∃ w, tc (has_edge map) w w.
Proof.
  intros Hpred n. induction n as [|n IH]; intros v visited Hlen Hv Hnd Hvis.
  - assert (visited ⊆+ rest) as Hsub%submseteq_length; [|lia].
    apply NoDup_submseteq; [done|]. intros w Hw. by apply Hvis.
  - destruct (decide (v ∈ visited)) as [Hin|Hin]; [exists v; by apply Hvis|].
    destruct (Hpred v Hv) as (u & Hu & He).
    apply (IH u (v :: visited)); [simpl; lia|done|by constructor|].
    intros w [->|[? ?]%Hvis]%elem_of_cons; [eauto using tc_once|].
    split; [done|]. by eapply tc_l.
Qed.

Lemma edges_forward_acyclic map order :
  NoDup order → edges_forward map order → acyclic map.
Proof.
  intros Hnd Hf v Hv.
  assert (Htc : ∀ u w, tc (has_edge map) u w →
    ∃ i j, order !! i = Some u ∧ order !! j = Some w ∧ i < j).
  { induction 1 as [u w He|u w x He _ (i & j & Hi & Hj & ?)]; [by apply Hf|].
    destruct (Hf _ _ He) as (i' & j' & ? & ? & ?).
    assert (j' = i) as -> by (by eapply NoDup_lookup). exists i', j. split_and!; try done. lia. }
  destruct (Htc v v Hv) as (i & j & ? & ? & ?).
  assert (i = j) by (by eapply NoDup_lookup). lia.
Qed.

Lemma kahn_roots_inv map st :
  tables (node_ids map) (map_edges map) st →
  kahn_inv map (kahn_indegree st) (kahn_roots (kahn_indegree st)) [].
Proof.
  intros [Htab Hdom].
  assert (Hr : ∀ v, v ∈ kahn_roots (kahn_indegree st) ↔ kahn_indegree st !! v = Some 0).
  { intros v. unfold kahn_roots. rewrite filterb_elem, elem_of_btree_keys, bool_decide_eq_true.
    split; [naive_solver|]. intros H; split; [by rewrite H|done]. }
  split; simpl.
  - apply filterb_NoDup. auto with mes.
  - intros v Hv%Hr. apply Hdom. by rewrite Hv.
  - intros v Hv. by apply Htab.
  - intros v Hv. rewrite Hr. destruct (Htab v Hv) as [-> _]. naive_solver.
  - done.
Qed.

(** When the loop stops short of a node, the nodes left over hold a cycle. *)
Lemma kahn_stuck_cycle map ind order v :
  wf_graph map → kahn_inv map ind [] order → v ∈ node_ids map → v ∉ order →
  ∃ w, tc (has_edge map) w w.
Proof.
  intros Hwf [_ _ _ Hready _] Hv Hvo. rewrite app_nil_r in Hready.
  set (rest := filter (λ v, v ∉ order) (node_ids map)).
  apply (backward_walk map rest) with (n := S (length rest)) (v := v) (visited := []);
    [|simpl; lia|by apply list_elem_of_filter|constructor|set_solver].
  intros w [Hwo Hw]%list_elem_of_filter.
  assert (open_edges (map_edges map) order w ≠ 0) as Hn by (intros Hz; by apply Hwo, Hready).
  apply occ_pos, list_elem_of_fmap in Hn as (e & -> & [Heo He]%list_elem_of_filter).
  exists (edge_from e). split; [|by exists e].
  apply list_elem_of_filter. split; [done|]. by apply (wf_edge _ Hwf).
Qed.

Lemma kahn_done_forward map ind order :
  wf_graph map → kahn_inv map ind [] order → (∀ v, v ∈ node_ids map → v ∈ order) →
  order ≡ₚ node_ids map ∧ edges_forward map order.
Proof.
  intros Hwf [Hnd Hnodes _ _ Hfwd] Hall. rewrite app_nil_r in *. split.
  - apply NoDup_Permutation; [done|apply Hwf|]. naive_solver.
  - intros u v He. destruct (has_edge_nodes map Hwf u v He) as [_ Hv%Hall].
    apply list_elem_of_lookup in Hv as [j Hj].
    destruct (Hfwd j v u Hj He) as (i & ? & ?). eauto.
Qed.

Lemma topological_order_cases map :
  wf_graph map →
  (∃ order, topological_order map = Ok order ∧ order ≡ₚ node_ids map ∧ edges_forward map order) ∨
  (topological_order map = Err (Fail Cycle) ∧ ∃ v, tc (has_edge map) v v).
Proof.
  intros Hwf. destruct (kahn_tables map Hwf) as (st & Hst & Htab).
  unfold topological_order. rewrite Hst. simpl.
  assert (Hlen : length (map_nodes map) = length (node_ids map))
    by (unfold node_ids; by rewrite length_fmap).
  destruct (kahn_loop_spec map (kahn_outgoing st) Hwf) with (fuel := length (map_nodes map))
    (ind := kahn_indegree st) (queue := kahn_roots (kahn_indegree st)) (order := @nil string)
    as (order & ind & -> & Hinv); simpl;
    [intros v Hv; by apply Htab|by apply kahn_roots_inv|lia|].
  destruct (Nat.eqb_spec (length order) (length (map_nodes map))) as [He|Hne]; simpl.
  - left. exists order. split; [done|]. apply (kahn_done_forward map ind); [done..|].
    destruct Hinv as [Hnd Hnodes _ _ _]. rewrite app_nil_r in *.
    assert (order ≡ₚ node_ids map) as Hp; [|intros v; by rewrite Hp].
    apply submseteq_length_Permutation; [by apply NoDup_submseteq|lia].
  - right. split; [done|].
    destruct (decide (Forall (λ v, v ∈ order) (node_ids map))) as [Hall|Hn].
    + exfalso. apply Hne. rewrite Hlen. apply Permutation_length.
      apply (kahn_done_forward map ind); [done..|]. by apply Forall_forall.
    + apply not_Forall_Exists, Exists_exists in Hn as (v & Hv & Hvo); [|apply _].
      by eapply kahn_stuck_cycle.
Qed.
