(* ===== verification/CompilerFacts.v ===== *)
(** Correctness of the map compiler: normalization is idempotent, validation
    establishes the graph invariant, and [compile_map] accepts a valid map
    exactly when its graph has no cycle, with one numbered operation per node
    in an order that respects every edge. *)
From Stdlib Require Import Ascii.
From S2P Require Import Prelude RustStr F64 Errors Identity OrderLayout MapDefinition Formula FormulaFacts Compiler GraphFacts.

(** * Normalization *)

Lemma normalize_branch_lower b :
  normalize_branch (to_ascii_lowercase (trim b)) = normalize_branch b.
Proof.
  unfold normalize_branch, eq_ignore_ascii_case.
  rewrite trim_lower, trim_idemp, to_ascii_lowercase_idemp.
  by rewrite (to_ascii_lowercase_digits (trim b) "1"), (to_ascii_lowercase_digits (trim b) "0").
Qed.

Lemma normalize_branch_idemp b : normalize_branch (normalize_branch b) = normalize_branch b.
Proof.
  pose proof (normalize_branch_lower b) as H.
  unfold normalize_branch at 2 3. repeat case_match; [done..|].
  rewrite H. unfold normalize_branch. by repeat case_match.
Qed.

Lemma normalize_edge_idemp e : normalize_edge (normalize_edge e) = normalize_edge e.
Proof.
  unfold normalize_edge. simpl. by rewrite !lower_trim_idemp, normalize_branch_idemp.
Qed.

Lemma normalize_node_idemp n : normalize_node (normalize_node n) = normalize_node n.
Proof.
  unfold normalize_node. simpl. rewrite !lower_trim_idemp, !trim_idemp.
  f_equal.
  - destruct (node_formula n); simpl; [by rewrite !trim_idemp|done].
  - by destruct (is_finite (node_x n)) eqn:E; rewrite ?E.
  - by destruct (is_finite (node_y n)) eqn:E; rewrite ?E.
Qed.

Lemma normalize_map_idemp m : normalize_map (normalize_map m) = normalize_map m.
Proof.
  unfold normalize_map. simpl. rewrite !lower_trim_idemp, !trim_idemp. f_equal.
  - destruct (map_roll_count m) as [v|]; simpl; [|done].
    destruct (v <=? 0)%Z eqn:E; simpl; by rewrite ?E.
  - destruct (map_width_mm m) as [v|]; simpl; [|done].
    destruct (negb (is_finite v) || f64_le v f64_zero) eqn:E; simpl; by rewrite ?E.
  - rewrite <-list_fmap_compose. apply list_fmap_ext. intros ? ? _. apply normalize_node_idemp.
  - rewrite <-list_fmap_compose. apply list_fmap_ext. intros ? ? _. apply normalize_edge_idemp.
Qed.

(** * What validation establishes *)

Definition count_kind (k : NodeKind.t) (ns : list ProductionMapNode) : nat :=
  length (List.filter (λ n, NodeKind.eqb (node_kind n) k) ns).

Section facts.
Context `{UnicodeTables}.

Lemma validate_nodes_inv map ns ids st :
  for_each (validate_node map) ns (∅, 0, 0) = Ok (ids, st.1, st.2) →
  ids = list_to_set (node_id <$> ns) ∧ NoDup (node_id <$> ns) ∧
  st = (count_kind NodeKind.Start ns, count_kind NodeKind.End_ ns) ∧
  ∀ n, n ∈ ns → validate_node_kind map n = Ok tt.
Proof.
  revert ids st. induction ns as [|n ns IH] using rev_ind; intros ids [sc ec]; simpl.
  { intros [= <- <- <-]. split_and!; [done|constructor|done|set_solver]. }
  rewrite for_each_app. intros ([[ids1 sc1] ec1] & H1 & H2)%bind_Ok.
  destruct (IH ids1 (sc1, ec1) H1) as (-> & Hnd & [= -> ->] & Hk).
  simpl in H2. apply bind_Ok in H2 as ([[ids2 sc2] ec2] & H2 & [= -> -> ->]).
  unfold validate_node in H2. case_bool_decide as Hin; [done|]. inv_ok.
  rewrite elem_of_list_to_set in Hin. rewrite fmap_app, list_to_set_app_L.
  split_and!.
  - simpl. set_solver.
  - apply NoDup_app. split_and!; [done| |apply NoDup_singleton]. set_solver.
  - unfold count_kind. rewrite !List.filter_app, !length_app. simpl.
    f_equal; case_match; simpl; lia.
  - intros x [Hx|Hx%list_elem_of_singleton]%elem_of_app; [auto|].
    subst. by repeat match goal with u : unit |- _ => destruct u end.
Qed.

(** The facts later stages of the compiler rely on. *)
Record valid_map (map : ProductionMapDefinition) : Prop := {
  valid_graph : wf_graph map;
  valid_start : count_kind NodeKind.Start (map_nodes map) = 1;
  valid_end : count_kind NodeKind.End_ (map_nodes map) = 1;
  valid_kind : ∀ n, n ∈ map_nodes map → validate_node_kind map n = Ok tt;
  valid_branch : ∀ n, n ∈ map_nodes map → validate_branches map n tt = Ok tt;
}.

Lemma validate_map_valid map : validate_map map = Ok tt → valid_map map.
Proof.
  unfold validate_map. intros Hv. repeat (apply bind_Ok in Hv as (? & ? & Hv)).
  destruct x5 as [[ids sc] ec]. repeat (apply bind_Ok in Hv as (? & ? & Hv)). inv_ok.
  destruct (validate_nodes_inv map (map_nodes map) ids (sc, ec)) as (-> & Hnd & [= -> ->] & Hk);
    [done|]. breflect. split; [split| | | |]; try done.
  - intros e He.
    match goal with H : for_each (validate_edge _) _ _ = _ |- _ =>
      rewrite for_each_checks in H; specialize (H e He); unfold validate_edge in H end.
    repeat case_bool_decide; try done. rewrite !elem_of_list_to_set in *.
    done.
  - by apply for_each_checks.
Qed.

(** * Compilation *)

Lemma compile_node_ok map n i :
  validate_node_kind map n = Ok tt →
  ∃ op, compile_node i n = Ok op ∧ op_order op = i ∧ op_node_id op = node_id n.
Proof.
  unfold validate_node_kind, compile_node.
  destruct (node_kind n); eauto; destruct (node_formula n); eauto; done.
Qed.

Lemma compile_operations_spec map i order :
  valid_map map → (∀ id, id ∈ order → id ∈ node_ids map) →
  ∃ ops, compile_operations map i order = Ok ops ∧
    op_node_id <$> ops = order ∧ op_order <$> ops = seq (S i) (length order).
Proof.
  intros Hvalid. revert i. induction order as [|id order IH]; intros i Hin; simpl; [by exists []|].
  destruct (list_elem_of_fmap_1 node_id (map_nodes map) id) as (n & -> & Hn);
    [apply Hin; set_solver|].
  rewrite node_by_id_find by apply Hvalid. unfold find_node.
  rewrite (find_nodup node_id) by (done || apply Hvalid). simpl.
  destruct (compile_node_ok map n (S i)) as (op & -> & Ho & Hid); [by apply Hvalid|]. simpl.
  destruct (IH (S i)) as (ops & -> & Hids & Hords); [set_solver|]. simpl.
  eexists; split; [done|]. by rewrite !fmap_cons, Hids, Hords, Ho, Hid.
Qed.

Lemma compile_map_cases map :
  validate_map map = Ok tt →
  (acyclic map ∧ ∃ p, compile_map map = Ok p ∧
    (op_node_id <$> program_operations p) ≡ₚ node_ids map ∧
    edges_forward map (op_node_id <$> program_operations p) ∧
    op_order <$> program_operations p = seq 1 (length (map_nodes map))) ∨
  ((∃ v, tc (has_edge map) v v) ∧ compile_map map = Err (Fail Cycle)).
Proof.
  intros Hv. pose proof (validate_map_valid map Hv) as Hvalid.
  unfold compile_map. rewrite Hv. simpl.
  destruct (topological_order_cases map) as [(order & -> & Hp & Hf)|[-> Hc]];
    [apply Hvalid| |by right]. left.
  assert (NoDup order) by (rewrite Hp; apply Hvalid).
  split; [by eapply edges_forward_acyclic|]. simpl.
  destruct (compile_operations_spec map 0 order Hvalid) as (ops & -> & Hids & Hords);
    [intros id; by rewrite Hp|].
  eexists; split; [done|]. simpl. rewrite Hids, Hords. split_and!; [done..|].
  by rewrite Hp; unfold node_ids; rewrite length_fmap.
Qed.

(** Every condition of the map is ASCII text: the drawing tools only write
    identifiers, numbers and operators. *)
Definition ascii_conditions (map : ProductionMapDefinition) : Prop :=
  ∀ n f, n ∈ map_nodes map → node_formula n = Some f →
    all_bytes is_ascii (formula_expression f) = true.

Lemma for_each_not_panic {A S} (f : A → S → run_result S) l s :
  (∀ x t, x ∈ l → f x t ≠ Err Panic) → for_each f l s ≠ Err Panic.
Proof.
  revert s. induction l as [|x l IH]; intros s Hf; simpl; [done|].
  intros [Hp|(t & _ & Hp)]%bind_Err; [by eapply Hf; [|exact Hp]; set_solver|].
  revert Hp. apply IH. intros y u Hy. apply Hf. set_solver.
Qed.

Lemma bind_not_panic {A B} (m : run_result A) (k : A → run_result B) :
  m ≠ Err Panic → (∀ a, m = Ok a → k a ≠ Err Panic) → (x ← m; k x) ≠ Err Panic.
Proof. intros Hm Hk [?|(a & ? & ?)]%bind_Err; naive_solver. Qed.

Lemma check_not_panic b e : check b (Fail e) ≠ Err Panic.
Proof. by destruct b. Qed.
Hint Resolve bind_not_panic check_not_panic : mes.

Lemma condition_not_panic e vars :
  all_bytes is_ascii e = true → evaluate_condition e vars ≠ Err Panic.
Proof.
  intros Ha. unfold evaluate_condition. apply bind_not_panic.
  - intros Hs%split_condition_from_panic. congruence.
  - intros [[[l op] r]|] _; auto 7 with mes.
Qed.

Lemma validate_node_kind_no_panic map n :
  ascii_conditions map → n ∈ map_nodes map → validate_node_kind map n ≠ Err Panic.
Proof.
  intros Ha Hn. unfold validate_node_kind.
  destruct (node_kind n); auto with mes; destruct (node_formula n) as [f|] eqn:E; try done;
    repeat case_match; auto with mes; try done.
  unfold validate_condition_expression.
  pose proof (condition_not_panic (formula_expression f) ∅ (Ha n f Hn E)) as Hc.
  destruct (evaluate_condition _ _) as [|[|[]]]; congruence.
Qed.

Lemma validate_map_no_panic map : ascii_conditions map → validate_map map ≠ Err Panic.
Proof.
  intros Ha. unfold validate_map.
  repeat (apply bind_not_panic; [auto with mes; try (by case_match)|intros ? _]).
  - apply for_each_not_panic. intros n [[ids sc] ec] Hn. unfold validate_node.
    case_bool_decide; [done|].
    repeat (apply bind_not_panic; [auto using validate_node_kind_no_panic with mes|intros ? _]).
    done.
  - destruct a5 as [[ids sc] ec].
    repeat (apply bind_not_panic; [auto with mes|intros ? _]).
    + apply for_each_not_panic. intros e [] He. unfold validate_edge. by repeat case_match.
    + apply for_each_not_panic. intros e [] He. unfold validate_branches. by repeat case_match.
Qed.

Lemma compile_map_no_panic map : ascii_conditions map → compile_map map ≠ Err Panic.
Proof.
  intros Ha Hp. destruct (validate_map map) as [[]|f] eqn:Hv.
  - destruct (compile_map_cases map Hv) as [(_ & p & ? & _)|[_ ?]]; congruence.
  - unfold compile_map in Hp. rewrite Hv in Hp. simpl in Hp. injection Hp as ->.
    by eapply validate_map_no_panic.
Qed.

(** What a validated condition node has: a syntactically checked condition and
    an outgoing edge for either outcome. *)
Lemma valid_condition_branches map n branch :
  valid_map map → n ∈ map_nodes map → node_kind n = NodeKind.Condition →
  branch = "true" ∨ branch = "false" →
  ∃ e, e ∈ map_edges map ∧ edge_from e = node_id n ∧ normalize_branch (edge_branch e) = branch.
Proof.
  intros Hv Hn Hk Hb. pose proof (valid_branch _ Hv n Hn) as Hc. unfold validate_branches in Hc.
  assert (NodeKind.eqb (node_kind n) NodeKind.Condition = true) as Hkb
    by (by apply bool_decide_eq_true). rewrite Hkb in Hc. simpl in Hc.
  destruct (negb _ || negb _) eqn:E in Hc; [done|].
  apply orb_false_iff in E as [Ht%negb_false_iff Hf%negb_false_iff].
  assert (existsb (λ edge, normalize_branch (edge_branch edge) =s branch)
    (List.filter (λ edge, edge_from edge =s node_id n) (map_edges map)) = true) as Hx
    by (by destruct Hb; subst).
  apply existsb_elem in Hx as (e & [He ?%String.eqb_eq]%filterb_elem & ?%String.eqb_eq).
  by exists e.
Qed.

(** * Theorems *)

(** C3: Compiling a valid map succeeds exactly when its graph has no cycle, and
    reports Cycle otherwise; the program then has one operation per node,
    numbered from one, and every edge of the map goes from an earlier to a later
    operation. *)
Theorem compile_accepts_exactly_acyclic map :
  validate_map map = Ok tt →
  (acyclic map → ∃ p, compile_map map = Ok p ∧
     (op_node_id <$> program_operations p) ≡ₚ node_ids map ∧
     edges_forward map (op_node_id <$> program_operations p) ∧
     op_order <$> program_operations p = seq 1 (length (map_nodes map))) ∧
  (¬ acyclic map → compile_map map = Err (Fail Cycle)).
Proof.
  intros Hv. destruct (compile_map_cases map Hv) as [[Ha Hp]|[[v Hc] He]].
  - split; [done|]. by intros Hn.
  - split; [|done]. intros Ha. by destruct (Ha v).
Qed.

(** Neither the expects of the compiler nor slicing inside a character can
    panic on a map whose condition expressions are ASCII text. *)
Theorem compile_never_panics map : ascii_conditions map → compile_map map ≠ Err Panic.
Proof. apply compile_map_no_panic. Qed.

(** A map that passes validation has distinct node ids, edges between its
    own nodes, exactly one start and one end node, and both a true and a false
    branch at every condition. *)
Theorem validated_map_is_well_formed map :
  validate_map map = Ok tt →
  NoDup (node_ids map) ∧
  (∀ e, e ∈ map_edges map → edge_from e ∈ node_ids map ∧ edge_to e ∈ node_ids map) ∧
  count_kind NodeKind.Start (map_nodes map) = 1 ∧ count_kind NodeKind.End_ (map_nodes map) = 1 ∧
  ∀ n branch, n ∈ map_nodes map → node_kind n = NodeKind.Condition →
    branch = "true" ∨ branch = "false" →
    ∃ e, e ∈ map_edges map ∧ edge_from e = node_id n ∧ normalize_branch (edge_branch e) = branch.
Proof.
  intros Hv%validate_map_valid. split_and!; try apply Hv.
  intros n branch. by apply valid_condition_branches.
Qed.

(** Normalizing a map twice gives the same map as normalizing it once. *)
Theorem normalization_is_idempotent map : normalize_map (normalize_map map) = normalize_map map.
Proof. apply normalize_map_idemp. Qed.

End facts.
