(* ===== verification/Runner.v ===== *)
(** Running a production map ([src/core/production_map/compiler/runner.rs]).

    The runner walks the compiled map from its start node, evaluates formulas
    and conditions into the variable store and drafts one task per work node.
    The walk stops at the end node, at a node without an outgoing edge, at a
    node already visited, or at a condition whose variable is not known yet:
    that run is returned as awaiting the variable. *)
From Stdlib Require Import Ascii.
From S2P Require Import Prelude RustStr F64 Errors Identity OrderLayout MapDefinition Formula Compiler.

Definition input_variables (order_qty : f64) (vars : variables) : variables :=
  <["order_qty" := order_qty]> vars.

Definition node_qty (node : ProductionMapNode) (order_qty : f64) (vars : variables)
  : pm_result f64 :=
  qty ← (if blank (node_qty_formula node) then Ok order_qty
         else evaluate_formula (node_qty_formula node) vars);
  if is_finite qty && f64_lt f64_zero qty then Ok qty
  else Err (InvalidNodeQty (node_id node)).

(** [outgoing.get(id)]: the edges leaving a node, in the map's order. *)
Definition outgoing_edges (map : ProductionMapDefinition) (id : string)
  : list ProductionMapEdge :=
  List.filter (λ edge, edge_from edge =s id) (map_edges map).

Definition task_draft (order : nat) (node : ProductionMapNode) (kind : string) (qty : f64)
  : ProductionTaskDraft :=
  {| task_order := order;
     task_node_id := node_id node;
     task_kind := kind;
     task_title := node_title node;
     task_role_code := node_role_code node;
     task_item_code := node_item_code node;
     task_from_location := node_from_location node;
     task_to_location := node_to_location node;
     task_qty := qty |}.

(** What the [match node.kind] of the loop does: go on with new variables and
    tasks, or return early awaiting a variable. *)
Inductive node_effect :=
  | Continue (vars : variables) (tasks : list ProductionTaskDraft)
  | Await (variable expression : string).

Definition f64_one : f64 := f64_of_Z 1.

Definition execute_node (order_qty : f64) (node : ProductionMapNode) (vars : variables)
    (tasks : list ProductionTaskDraft) : run_result node_effect :=
  match node_kind node with
  | NodeKind.Formula =>
      match node_formula node with
      | None => Err (Fail MissingFormulaExpression)
      | Some formula =>
          value ← lift (evaluate_formula (formula_expression formula) vars);
          Ok (Continue (<[formula_target formula := value]> vars) tasks)
      end
  | NodeKind.Condition =>
      match node_formula node with
      | None => Err (Fail MissingFormulaExpression)
      | Some formula =>
          match evaluate_condition (formula_expression formula) vars with
          | Ok result =>
              Ok (Continue (<[node_id node := if result : bool then f64_one else f64_zero]> vars)
                    tasks)
          | Err (Fail (UnknownFormulaVariable variable)) =>
              Ok (Await variable (formula_expression formula))
          | Err f => Err f
          end
      end
  | NodeKind.Material | NodeKind.Apparatus | NodeKind.KkProduct | NodeKind.Task
  | NodeKind.Wait | NodeKind.Output =>
      qty ← lift (node_qty node order_qty vars);
      operation ← lift (compile_node (S (length tasks)) node);
      Ok (Continue vars (tasks ++ [task_draft (S (length tasks)) node (op_code operation) qty]))
  | NodeKind.Location | NodeKind.Start | NodeKind.End_ => Ok (Continue vars tasks)
  end.

(** The edge the walk takes; [Ok None] ends it. *)
Definition next_edge (map : ProductionMapDefinition) (current_id : string)
    (node : ProductionMapNode) (vars : variables) : pm_result (option ProductionMapEdge) :=
  let edges := outgoing_edges map current_id in
  if NodeKind.eqb (node_kind node) NodeKind.Condition then
    let branch :=
      if negb (f64_eq (default f64_zero (vars !! node_id node)) f64_zero)
      then "true" else "false" in
    match List.find (λ edge, normalize_branch (edge_branch edge) =s branch) edges with
    | Some next => Ok (Some next)
    | None => Err MissingConditionBranch
    end
  else Ok (head edges).

Section run.
Context (map : ProductionMapDefinition) (order_qty : f64).

Definition run_done (vars : variables) (tasks : list ProductionTaskDraft)
    (visited : list string) (awaiting : string * string * string) : ProductionMapRunResult :=
  let '(id, variable, expression) := awaiting in
  {| run_map_id := map_id map;
     run_product_code := map_product_code map;
     run_order_qty := order_qty;
     run_variables := vars;
     run_tasks := tasks;
     run_visited_node_ids := visited;
     run_awaiting_node_id := id;
     run_awaiting_variable := variable;
     run_awaiting_expression := expression |}.

(** [while visited.insert(current_id)]; [visited_node_ids] lists the set. *)
Fixpoint run_loop (fuel : nat) (current_id : string) (vars : variables)
    (tasks : list ProductionTaskDraft) (visited : list string)
  : run_result ProductionMapRunResult :=
  if bool_decide (current_id ∈ visited) then Ok (run_done vars tasks visited ("", "", ""))
  else match fuel with
  | O => Err Panic
  | S fuel =>
      node ← expect (node_by_id map current_id);
      let visited := visited ++ [node_id node] in
      if NodeKind.eqb (node_kind node) NodeKind.End_
      then Ok (run_done vars tasks visited ("", "", ""))
      else
        effect ← execute_node order_qty node vars tasks;
        match effect with
        | Await variable expression =>
            Ok (run_done vars tasks visited (node_id node, variable, expression))
        | Continue vars tasks =>
            next ← lift (next_edge map current_id node vars);
            match next with
            | Some edge => run_loop fuel (edge_to edge) vars tasks visited
            | None => Ok (run_done vars tasks visited ("", "", ""))
            end
        end
  end.
End run.

Definition start_node (map : ProductionMapDefinition) : option ProductionMapNode :=
  List.find (λ node, NodeKind.eqb (node_kind node) NodeKind.Start) (map_nodes map).

Definition run_map_with_variables `{UnicodeTables} (map : ProductionMapDefinition)
    (order_qty : f64) (run_variables : variables) : run_result ProductionMapRunResult :=
  if f64_le order_qty f64_zero then Err (Fail InvalidOrderQty)
  else
    _ ← compile_map map;
    match start_node map with
    | None => Err (Fail MissingStart)
    | Some start =>
        run_loop map order_qty (length (map_nodes map)) (node_id start)
          (input_variables order_qty run_variables) [] []
    end.
