(* ===== verification/RunnerFacts.v ===== *)
(** Correctness of the map runner.

    A run of a compiled map is a walk: it starts at the start node, follows
    edges, visits no node twice and stops at the end node, at a dead end, or at
    a condition awaiting a variable nobody has set.  It drafts exactly one task
    per visited work node, in visiting order, with a positive finite quantity.
    A run that awaits a variable is a prefix of the run that is given it. *)
From Stdlib Require Import Ascii.
From S2P Require Import Prelude RustStr F64 Errors Identity OrderLayout MapDefinition Formula FormulaFacts Compiler GraphFacts CompilerFacts Runner.

(** The nodes a task is drafted for. *)
Definition work_kind (k : NodeKind.t) : bool :=
  match k with
  | NodeKind.Material | NodeKind.Apparatus | NodeKind.KkProduct | NodeKind.Task
  | NodeKind.Wait | NodeKind.Output => true
  | _ => false
  end.

Definition is_work_id (map : ProductionMapDefinition) (id : string) : bool :=
  is_some_and (node_by_id map id) (λ n, work_kind (node_kind n)).

Definition walk (map : ProductionMapDefinition) (l : list string) : Prop :=
  ∀ i u v, l !! i = Some u → l !! S i = Some v → has_edge map u v.

Definition good_qty (t : ProductionTaskDraft) : Prop :=
  is_finite (task_qty t) = true ∧ f64_lt f64_zero (task_qty t) = true.

(** One draft per visited work node, numbered from one. *)
Definition drafts (map : ProductionMapDefinition) (visited : list string)
    (tasks : list ProductionTaskDraft) : Prop :=
  task_node_id <$> tasks = List.filter (is_work_id map) visited ∧
  task_order <$> tasks = seq 1 (length tasks) ∧
  Forall good_qty tasks.

(** Why the walk ended at its last node. *)
Definition stops_at (map : ProductionMapDefinition) (r : ProductionMapRunResult)
    (n : ProductionMapNode) : Prop :=
  (node_kind n = NodeKind.Condition ∧ run_awaiting_node_id r = node_id n ∧
   run_variables r !! run_awaiting_variable r = None ∧
   formula_expression <$> node_formula n = Some (run_awaiting_expression r)) ∨
  (run_awaiting_node_id r = "" ∧
   (node_kind n = NodeKind.End_ ∨ outgoing_edges map (node_id n) = [])).

(** * Walks *)

Lemma walk_tc map l i j u v :
  walk map l → i < j → l !! i = Some u → l !! j = Some v → tc (has_edge map) u v.
Proof.
  intros Hw. revert v. induction j as [|j IH]; intros v Hij Hi Hj; [lia|].
  destruct (lookup_lt_is_Some_2 l j) as [w Hjw]; [apply lookup_lt_Some in Hj; lia|].
  pose proof (Hw j w v Hjw Hj) as He. destruct (decide (i = j)) as [->|].
  - simplify_eq. by apply tc_once.
  - eapply tc_r; [|exact He]. apply IH; [lia|done..].
Qed.

Lemma walk_fresh map visited cur :
  acyclic map → walk map (visited ++ [cur]) → cur ∉ visited.
Proof.
  intros Ha Hw [i Hi]%list_elem_of_lookup. apply (Ha cur).
  pose proof (lookup_lt_Some _ _ _ Hi).
  eapply (walk_tc map _ i (length visited)); [done|lia| |].
  - by rewrite lookup_app_l by lia.
  - by rewrite list_lookup_middle.
Qed.

Lemma walk_snoc map l u v :
  walk map (l ++ [u]) → has_edge map u v → walk map ((l ++ [u]) ++ [v]).
Proof.
  intros Hw He i a b Ha Hb. apply lookup_snoc_Some in Ha, Hb.
  rewrite length_app in Ha, Hb. simpl in Ha, Hb.
  destruct Ha as [[? Ha]|[-> <-]], Hb as [[? Hb]|[Hi <-]]; try lia.
  - by eapply Hw.
  - assert (i = length l) as -> by lia. rewrite list_lookup_middle in Ha by done. by simplify_eq.
Qed.

Lemma next_edge_edge map cur n vars e :
  next_edge map cur n vars = Ok (Some e) → e ∈ map_edges map ∧ edge_from e = cur.
Proof.
  unfold next_edge, outgoing_edges. intros Hn.
  assert (e ∈ List.filter (λ edge, edge_from edge =s cur) (map_edges map)) as He.
  { case_match; [case_match; simplify_eq; by eapply find_elem|].
    injection Hn as Hn. by apply head_Some_elem_of. }
  apply filterb_elem in He as [? ?%String.eqb_eq]. done.
Qed.

(** * Tasks *)

Lemma node_qty_good n q vars qty :
  node_qty n q vars = Ok qty → is_finite qty = true ∧ f64_lt f64_zero qty = true.
Proof.
  intros (x & _ & H)%bind_Ok. case_match; simplify_eq. by breflect.
Qed.

Lemma execute_node_tasks map q n vars tasks vars' tasks' visited :
  node_by_id map (node_id n) = Some n → drafts map visited tasks →
  execute_node q n vars tasks = Ok (Continue vars' tasks') →
  drafts map (visited ++ [node_id n]) tasks'.
Proof.
  intros Hn (Hids & Hord & Hqty) He. unfold drafts. rewrite List.filter_app. simpl.
  unfold is_work_id at 2. rewrite Hn. simpl.
  unfold execute_node in He. destruct (node_kind n) eqn:Hk; simpl;
    try (break; inv_ok; simplify_eq; by rewrite app_nil_r);
    apply bind_Ok in He as (qty & [Hfin Hpos]%lift_Ok%node_qty_good & He);
    apply bind_Ok in He as (op & _ & [= <- <-]);
    rewrite !fmap_app, Hids, Hord, length_app, seq_app, Forall_app, Forall_singleton; by split_and!.
Qed.

Lemma drafts_idle map visited tasks n :
  node_by_id map (node_id n) = Some n → work_kind (node_kind n) = false →
  drafts map visited tasks → drafts map (visited ++ [node_id n]) tasks.
Proof.
  intros Hn Hk (? & ? & ?). unfold drafts. rewrite List.filter_app. simpl.
  unfold is_work_id at 2. rewrite Hn. simpl. rewrite Hk. by rewrite app_nil_r.
Qed.

(** Awaiting is always for a variable that is not set. *)
Lemma execute_node_await q n vars tasks x e :
  execute_node q n vars tasks = Ok (Await x e) →
  node_kind n = NodeKind.Condition ∧ (vars !! x = None ∧ is_identifier x = true) ∧
  formula_expression <$> node_formula n = Some e.
Proof.
  unfold execute_node. intros He.
  destruct (node_kind n) eqn:Hk; break; inv_ok; simplify_eq.
  split; [done|]. split; [|done]. by eapply evaluate_condition_unknown.
Qed.

(** * The loop *)

Section loop.
Context (map : ProductionMapDefinition) (order_qty : f64).
Context (Hvalid : valid_map map) (Hacyclic : acyclic map).

(** The loop invariant: the trace so far, with the node about to be visited. *)
Record run_inv (cur : string) (visited : list string) (tasks : list ProductionTaskDraft)
  : Prop := {
  run_cur : cur ∈ node_ids map;
  run_known : ∀ id, id ∈ visited → id ∈ node_ids map;
  run_nodup : NoDup visited;
  run_walk : walk map (visited ++ [cur]);
  run_drafts : drafts map visited tasks;
}.

Lemma run_inv_node cur visited tasks :
  run_inv cur visited tasks →
  (cur ∉ visited) ∧ (∃ n, node_by_id map cur = Some n ∧ n ∈ map_nodes map ∧ node_id n = cur).
Proof using Hvalid Hacyclic.
  intros [Hcur _ _ Hwalk _]. split; [by eapply walk_fresh|].
  apply list_elem_of_fmap in Hcur as (n & -> & Hn). exists n.
  rewrite node_by_id_find by apply Hvalid. split_and!; [|done..].
  apply (find_nodup node_id); [apply Hvalid|done].
Qed.

Lemma run_inv_next cur visited tasks tasks' e :
  run_inv cur visited tasks → drafts map (visited ++ [cur]) tasks' →
  e ∈ map_edges map → edge_from e = cur → run_inv (edge_to e) (visited ++ [cur]) tasks'.
Proof using Hvalid Hacyclic.
  intros Hinv Hd He Hf. destruct (run_inv_node _ _ _ Hinv) as [Hfresh _].
  destruct Hinv. split; [by apply Hvalid| | | |done].
  - intros id [?|?%list_elem_of_singleton]%elem_of_app; [auto|by subst].
  - apply NoDup_app. split_and!; [done| |apply NoDup_singleton]. set_solver.
  - apply walk_snoc; [done|]. by exists e.
Qed.

(** What a finished run satisfies, given where it started. *)
Definition run_ok (first : option string) (r : ProductionMapRunResult) : Prop :=
  NoDup (run_visited_node_ids r) ∧ walk map (run_visited_node_ids r) ∧
  head (run_visited_node_ids r) = first ∧
  drafts map (run_visited_node_ids r) (run_tasks r) ∧
  ∃ n, n ∈ map_nodes map ∧ last (run_visited_node_ids r) = Some (node_id n) ∧
       stops_at map r n.

Lemma run_stop cur visited tasks tasks' vars aw n :
  run_inv cur visited tasks → node_by_id map cur = Some n →
  drafts map (visited ++ [cur]) tasks' →
  stops_at map (run_done map order_qty vars tasks' (visited ++ [cur]) aw) n →
  run_ok (head (visited ++ [cur])) (run_done map order_qty vars tasks' (visited ++ [cur]) aw).
Proof using Hvalid Hacyclic.
  intros Hinv Hn Hd Hs. destruct (run_inv_node _ _ _ Hinv) as (Hfresh & n' & Hn' & Hin & <-).
  assert (n' = n) as -> by congruence. destruct aw as [[id x] e]. destruct Hinv. unfold run_ok. simpl.
  split_and!; [|done..|].
  - apply NoDup_app. split_and!; [done| |apply NoDup_singleton]. set_solver.
  - exists n. split_and!; [done| |done]. apply last_snoc.
Qed.

Lemma run_loop_ok fuel cur vars tasks visited r :
  run_inv cur visited tasks →
  run_loop map order_qty fuel cur vars tasks visited = Ok r →
  run_ok (head (visited ++ [cur])) r.
Proof using Hvalid Hacyclic.
  revert cur vars tasks visited. induction fuel as [|fuel IH];
    intros cur vars tasks visited Hinv Hr; simpl in Hr;
    pose proof (run_inv_node _ _ _ Hinv) as (Hfresh & n & Hn & Hin & Hcur);
    rewrite bool_decide_false in Hr by done; [done|].
  rewrite Hn in Hr. simpl in Hr. subst cur.
  pose proof (run_drafts _ _ _ Hinv) as Hd.
  destruct (NodeKind.eqb (node_kind n) NodeKind.End_) eqn:Hend.
  { apply bool_decide_eq_true in Hend. injection Hr as <-.
    apply (run_stop (node_id n) visited tasks tasks vars ("", "", "") n); [done..| |].
    - apply drafts_idle; [done|by rewrite Hend|done].
    - right. simpl. auto. }
  apply bind_Ok in Hr as ([vars' tasks'|x e] & He & Hr).
  - pose proof (execute_node_tasks map _ _ _ _ _ _ _ Hn Hd He) as Hd'.
    apply bind_Ok in Hr as (next & Hnext%lift_Ok & Hr). destruct next as [edge|].
    + apply next_edge_edge in Hnext as [Hedge Hfrom].
      apply IH in Hr; [|by eapply run_inv_next].
      by destruct visited.
    + injection Hr as <-.
      apply (run_stop (node_id n) visited tasks tasks' vars' ("", "", "") n); [done..|]. right. simpl. split; [done|]. right.
      unfold next_edge in Hnext. repeat case_match; simplify_eq.
      by destruct (outgoing_edges map (node_id n)).
  - injection Hr as <-. apply execute_node_await in He as (Hk & [Hx _] & Hf).
    apply (run_stop (node_id n) visited tasks tasks vars (node_id n, x, e) n); [done..| |].
    + apply drafts_idle; [done|by rewrite Hk|done].
    + left. by simpl.
Qed.
End loop.

(** * Errors *)

(** The ways a run of a compiled map may fail, all of them about its data. *)
Definition run_error (map : ProductionMapDefinition) (e : ProductionMapError) : Prop :=
  formula_error e ∨ ∃ n, n ∈ map_nodes map ∧ e = InvalidNodeQty (node_id n).

Lemma execute_node_errors map q n vars tasks f :
  n ∈ map_nodes map → validate_node_kind map n = Ok tt → ascii_conditions map →
  execute_node q n vars tasks = Err f → ∃ e, f = Fail e ∧ run_error map e.
Proof.
  intros Hn Hv Ha. unfold execute_node, run_error.
  assert (Hqty : (qty ← lift (node_qty n q vars);
      operation ← lift (compile_node (S (length tasks)) n);
      Ok (Continue vars (tasks ++ [task_draft (S (length tasks)) n (op_code operation) qty]))) = Err f →
    ∃ e, f = Fail e ∧ (formula_error e ∨ ∃ n0, n0 ∈ map_nodes map ∧ e = InvalidNodeQty (node_id n0))).
  { intros [(e & -> & [He|(x & _ & He)]%bind_Err)%lift_Err|(qty & _ & Hop)]%bind_Err.
    - case_match; [done|]. apply evaluate_formula_errors in He. eauto.
    - case_match; simplify_eq. eauto 7.
    - destruct (compile_node_ok map n (S (length tasks)) Hv) as (op & Hc & _).
      by rewrite Hc in Hop. }
  destruct (node_kind n) eqn:Hk; auto; try done;
    unfold validate_node_kind in Hv; rewrite Hk in Hv;
    destruct (node_formula n) as [fm|] eqn:Hf; try done.
  - intros [(e & -> & He%evaluate_formula_errors)%lift_Err|(v & _ & He)]%bind_Err; eauto; done.
  - pose proof (condition_not_panic (formula_expression fm) vars (Ha n fm Hn Hf)) as Hp.
    destruct (evaluate_condition (formula_expression fm) vars) as [b|[|e]] eqn:Hc; [done..|].
    apply evaluate_condition_errors in Hc. intros He. exists e.
    destruct e; simplify_eq; eauto.
Qed.

Lemma next_edge_total map n vars :
  valid_map map → n ∈ map_nodes map → ∃ o, next_edge map (node_id n) n vars = Ok o.
Proof.
  intros Hvalid Hn. pose proof (valid_branch _ Hvalid n Hn) as Hb.
  unfold next_edge, validate_branches in *.
  destruct (NodeKind.eqb (node_kind n) NodeKind.Condition); simpl in Hb; [|eauto].
  destruct (negb _ || negb _) eqn:E in Hb; [done|].
  apply orb_false_iff in E as [Ht%negb_false_iff%existsb_find Hf%negb_false_iff%existsb_find].
  unfold outgoing_edges. destruct (negb (f64_eq _ _));
    [destruct Ht as [e ->]|destruct Hf as [e ->]]; eauto.
Qed.

Lemma run_loop_errors map q fuel cur vars tasks visited f :
  valid_map map → acyclic map → ascii_conditions map → run_inv map cur visited tasks →
  length (node_ids map) ≤ fuel + length visited →
  run_loop map q fuel cur vars tasks visited = Err f → ∃ e, f = Fail e ∧ run_error map e.
Proof.
  intros Hvalid Hac Ha. revert cur vars tasks visited.
  induction fuel as [|fuel IH]; intros cur vars tasks visited Hinv Hfuel; simpl;
    pose proof (run_inv_node _ Hvalid Hac _ _ _ Hinv) as (Hfresh & n & Hn & Hin & Hcur);
    rewrite bool_decide_false by done.
  - exfalso. assert (visited ++ [cur] ⊆+ node_ids map) as Hlen%submseteq_length.
    { apply NoDup_submseteq.
      - apply NoDup_app. destruct Hinv. split_and!; [done|set_solver|apply NoDup_singleton].
      - destruct Hinv. set_solver. }
    rewrite length_app in Hlen. simpl in *. lia.
  - rewrite Hn. simpl. subst cur. case_match; [done|].
    intros [He|([vars' tasks'|x e] & He & Hr)]%bind_Err; [| |done].
    { eapply execute_node_errors; [done|by apply Hvalid|done..]. }
    destruct (next_edge_total map n vars' Hvalid Hin) as [[e|] Hnext];
      rewrite Hnext in Hr; simpl in Hr; [|done].
    pose proof (next_edge_edge _ _ _ _ _ Hnext) as [Hedge Hfrom].
    apply IH in Hr; [done| |rewrite length_app; simpl; lia].
    eapply run_inv_next; [done..| |done|done].
    eapply execute_node_tasks; [done|by destruct Hinv|done].
Qed.

(** * Supplying variables *)

Definition extends (visited : list string) (tasks : list ProductionTaskDraft)
    (r : ProductionMapRunResult) : Prop :=
  visited `prefix_of` run_visited_node_ids r ∧ tasks `prefix_of` run_tasks r.

Lemma execute_node_extends q n vars tasks vars' tasks' :
  execute_node q n vars tasks = Ok (Continue vars' tasks') → tasks `prefix_of` tasks'.
Proof.
  unfold execute_node. intros He. break; inv_ok; simplify_eq; try done; by apply prefix_app_r.
Qed.

Lemma run_loop_extends map q fuel cur vars tasks visited r :
  run_loop map q fuel cur vars tasks visited = Ok r → extends visited tasks r.
Proof.
  revert cur vars tasks visited. induction fuel as [|fuel IH]; intros cur vars tasks visited;
    simpl; case_bool_decide; try done; try (intros [= <-]; by split).
  intros (n & _ & Hr)%bind_Ok. assert (visited `prefix_of` visited ++ [node_id n])
    by (by apply prefix_app_r).
  case_match; [injection Hr as <-; by split|].
  apply bind_Ok in Hr as ([vars' tasks'|x e] & He & Hr); [|injection Hr as <-; by split].
  apply execute_node_extends in He. apply bind_Ok in Hr as ([e|] & _ & Hr).
  - apply IH in Hr as [??]. split; by etrans.
  - injection Hr as <-. by split.
Qed.

Lemma node_qty_mono n q vars vars1 qty :
  vars ⊆ vars1 → node_qty n q vars = Ok qty → node_qty n q vars1 = Ok qty.
Proof.
  intros Hsub. unfold node_qty. case_match; [done|].
  intros (v & Hv & Hq)%bind_Ok. by rewrite (evaluate_formula_mono _ vars vars1 v).
Qed.

Lemma execute_node_mono q n vars vars1 tasks vars' tasks' :
  vars ⊆ vars1 → execute_node q n vars tasks = Ok (Continue vars' tasks') →
  ∃ vars1', execute_node q n vars1 tasks = Ok (Continue vars1' tasks') ∧ vars' ⊆ vars1'.
Proof.
  intros Hsub. unfold execute_node.
  destruct (node_kind n); try (intros [= <- <-]; by eauto);
    try (intros (qty & Hq & Hop)%bind_Ok; apply lift_Ok in Hq;
         rewrite (node_qty_mono _ _ vars vars1 qty) by done; simpl;
         apply bind_Ok in Hop as (op & -> & [= <- <-]); simpl; by eauto);
    destruct (node_formula n) as [fm|]; try done.
  - intros (v & Hv & Hok)%bind_Ok. apply lift_Ok in Hv. injection Hok as <- <-.
    rewrite (evaluate_formula_mono _ vars vars1 v) by done. simpl.
    eexists; split; [done|]. by apply insert_mono.
  - destruct (evaluate_condition (formula_expression fm) vars) as [b|[|[]]] eqn:Hc; try done.
    intros [= <- <-]. rewrite (evaluate_condition_mono _ vars vars1 b) by done.
    eexists; split; [done|]. by apply insert_mono.
Qed.

(** A condition's branch variable is set by its own execution. *)
Lemma next_edge_mono map cur q n vars tasks vars' tasks' vars1' :
  execute_node q n vars tasks = Ok (Continue vars' tasks') → vars' ⊆ vars1' →
  next_edge map cur n vars1' = next_edge map cur n vars'.
Proof.
  intros He Hsub. unfold next_edge.
  destruct (NodeKind.eqb (node_kind n) NodeKind.Condition) eqn:Hk; [|done].
  apply bool_decide_eq_true in Hk. unfold execute_node in He. rewrite Hk in He.
  destruct (node_formula n) as [fm|]; [|done].
  destruct (evaluate_condition (formula_expression fm) vars) as [b|[|[]]]; try done.
  injection He as <- <-. by rewrite (lookup_weaken _ _ _ _ (lookup_insert_eq _ _ _) Hsub), lookup_insert_eq.
Qed.

Lemma run_loop_mono map q fuel cur vars vars1 tasks visited r r1 :
  vars ⊆ vars1 →
  run_loop map q fuel cur vars tasks visited = Ok r →
  run_loop map q fuel cur vars1 tasks visited = Ok r1 →
  extends (run_visited_node_ids r) (run_tasks r) r1 ∧
  (run_awaiting_variable r = "" →
   run_visited_node_ids r1 = run_visited_node_ids r ∧ run_tasks r1 = run_tasks r).
Proof.
  revert cur vars vars1 tasks visited.
  induction fuel as [|fuel IH]; intros cur vars vars1 tasks visited Hsub; simpl;
    case_bool_decide; try done; try (intros [= <-] [= <-]; done).
  intros (n & Hn & Hr)%bind_Ok. rewrite Hn. simpl.
  case_match; [intros [= <-]; injection Hr as <-; done|].
  apply bind_Ok in Hr as ([vars' tasks'|x e] & He & Hr).
  - destruct (execute_node_mono _ _ _ vars1 _ _ _ Hsub He) as (vars1' & -> & Hsub').
    simpl. rewrite (next_edge_mono _ _ _ _ _ _ _ _ _ He Hsub').
    apply bind_Ok in Hr as ([edge|] & -> & Hr); simpl; [by eapply IH|].
    injection Hr as <-. by intros [= <-].
  - injection Hr as <-. simpl. intros Hr1. split.
    + apply bind_Ok in Hr1 as ([vars1' tasks1'|x1 e1] & He1 & Hr1);
        [|injection Hr1 as <-; by split].
      apply execute_node_extends in He1.
      apply bind_Ok in Hr1 as ([edge|] & _ & Hr1); [|injection Hr1 as <-; by split].
      apply run_loop_extends in Hr1 as [??]. split; simpl; [done|by etrans].
    + intros ->. by apply execute_node_await in He as (_ & [_ ?] & _).
Qed.

(** * Whole runs *)

Section runs.
Context `{UnicodeTables}.

Lemma compiled_map_inv map p :
  compile_map map = Ok p → valid_map map ∧ acyclic map.
Proof.
  intros Hp. destruct (validate_map map) as [[]|f] eqn:Hv;
    [|unfold compile_map in Hp; by rewrite Hv in Hp].
  split; [by apply validate_map_valid|].
  destruct (compile_map_cases map Hv) as [(? & _)|[_ ?]]; [done|congruence].
Qed.

Lemma start_node_found map :
  valid_map map → ∃ n, start_node map = Some n ∧ n ∈ map_nodes map.
Proof.
  intros Hvalid. destruct (start_node map) as [n|] eqn:E.
  - exists n. split; [done|]. by apply find_elem in E as [? _].
  - exfalso. unfold start_node in E. rewrite find_none_elem in E.
    pose proof (valid_start _ Hvalid) as Hc. unfold count_kind in Hc.
    destruct (List.filter _ _) as [|n l] eqn:Hf; [done|].
    assert (n ∈ n :: l) as Hn by set_solver. rewrite <-Hf in Hn.
    apply filterb_elem in Hn as [Hn Hk]. by rewrite E in Hk.
Qed.

Lemma run_inv_start map n :
  n ∈ map_nodes map → run_inv map (node_id n) [] [].
Proof.
  intros Hn. split; simpl; [by apply list_elem_of_fmap_2|set_solver|constructor| |done].
  intros i u v Hu Hv. apply lookup_lt_Some in Hv. simpl in Hv. lia.
Qed.

(** The run once its guards have passed. *)
Lemma run_map_started map q vs r :
  run_map_with_variables map q vs = r → (∀ f, r = Err f → f64_le q f64_zero = false ∧ is_ok (compile_map map) = true) →
  ∃ n, valid_map map ∧ acyclic map ∧ start_node map = Some n ∧ run_inv map (node_id n) [] [] ∧
    r = run_loop map q (length (map_nodes map)) (node_id n) (input_variables q vs) [] [].
Proof.
  unfold run_map_with_variables. intros Hr Hg.
  destruct (f64_le q f64_zero); [destruct (Hg _ (eq_sym Hr)); done|].
  destruct (compile_map map) as [p|f] eqn:Hp; [|destruct (Hg _ (eq_sym Hr)); done].
  apply compiled_map_inv in Hp as [Hvalid Hac].
  destruct (start_node_found map Hvalid) as (n & Hs & Hn). simpl in Hr. rewrite Hs in Hr.
  exists n. split_and!; [done..|by apply run_inv_start|done].
Qed.

(** A run that returns is a walk of the map from its start node along
    edges, visiting no node twice; the tasks are one per visited work node in
    visiting order, numbered from one, with positive finite quantities, and the
    walk ends at an end node, at a node without outgoing edge, or at a condition
    awaiting a variable it reports. *)
Theorem run_is_a_walk map order_qty vs r :
  run_map_with_variables map order_qty vs = Ok r →
  ∃ start, start_node map = Some start ∧ run_ok map (Some (node_id start)) r.
Proof.
  intros Hr. destruct (run_map_started _ _ _ _ Hr) as (n & Hvalid & Hac & Hs & Hinv & Hloop);
    [done|]. exists n. split; [done|]. by eapply (run_loop_ok map order_qty Hvalid Hac _ _ _ _ []).
Qed.

(** C39: Running a compiled map with ASCII conditions and a positive quantity
    always terminates and never panics: it returns a result, or fails on the
    data only (an unknown variable or a zero divisor in a formula, an invalid
    node quantity, or an expression the validator could not check). *)
Theorem run_fails_on_data_only map order_qty vs p :
  ascii_conditions map → compile_map map = Ok p → f64_le order_qty f64_zero = false →
  (∃ r, run_map_with_variables map order_qty vs = Ok r) ∨
  (∃ e, run_map_with_variables map order_qty vs = Err (Fail e) ∧ run_error map e).
Proof.
  intros Ha Hp Hq. destruct (run_map_with_variables map order_qty vs) as [r|f] eqn:Hr; [by eauto|].
  right. destruct (run_map_started _ _ _ _ Hr) as (n & Hvalid & Hac & Hs & Hinv & Hloop).
  { intros ? _. by rewrite Hp. }
  destruct (run_loop_errors map order_qty (length (map_nodes map)) (node_id n)
    (input_variables order_qty vs) [] [] f) as (e & -> & He); try done; [|by eauto].
  unfold node_ids. rewrite length_fmap. simpl. lia.
Qed.

(** Supplying more variables resumes a run where it stopped: visited nodes
    and tasks of the earlier run are prefixes of the later ones, and a run that
    was not awaiting a variable is unchanged. *)
Theorem run_resumes map order_qty vs vs' r r' :
  vs ⊆ vs' →
  run_map_with_variables map order_qty vs = Ok r →
  run_map_with_variables map order_qty vs' = Ok r' →
  run_visited_node_ids r `prefix_of` run_visited_node_ids r' ∧
  run_tasks r `prefix_of` run_tasks r' ∧
  (run_awaiting_variable r = "" →
   run_visited_node_ids r' = run_visited_node_ids r ∧ run_tasks r' = run_tasks r).
Proof.
  intros Hsub Hr Hr'.
  destruct (run_map_started _ _ _ _ Hr) as (n & _ & _ & Hs & _ & Hloop); [done|].
  destruct (run_map_started _ _ _ _ Hr') as (n' & _ & _ & Hs' & _ & Hloop'); [done|].
  simplify_eq. destruct (run_loop_mono map order_qty (length (map_nodes map)) (node_id n)
    (input_variables order_qty vs) (input_variables order_qty vs') [] [] r r') as [[??] ?];
    [by apply insert_mono|done..].
Qed.
End runs.
