(* ===== verification/Bfs.v ===== *)
(** Breadth-first traversal.

    The chain code walks the map four times with the same loop: pop a node id
    from a [VecDeque], skip it when the visited set already has it, otherwise
    run a body that updates the result and yields the ids to append.  [bfs] is
    that loop; its specification reduces every traversal to a fold over the
    visiting order, which lists exactly the ids reachable from the initial
    queue, each once. *)
From S2P Require Import Prelude.

Section bfs.
Context {St : Type} (body : string → St → St * list string).

Fixpoint bfs (fuel : nat) (queue : list string) (visited : gset string) (st : St) : St :=
  match fuel, queue with
  | S fuel, id :: queue =>
      if decide (id ∈ visited) then bfs fuel queue visited st
      else
        let '(st, more) := body id st in
        bfs fuel (queue ++ more) ({[id]} ∪ visited) st
  | _, _ => st
  end.
End bfs.

(** The ids visited, in order, when the body of [id] yields [next id]. *)
Section order.
Context (next : string → list string).

Fixpoint bfs_order (fuel : nat) (queue : list string) (visited : gset string) : list string :=
  match fuel, queue with
  | S fuel, id :: queue =>
      if decide (id ∈ visited) then bfs_order fuel queue visited
      else id :: bfs_order fuel (queue ++ next id) ({[id]} ∪ visited)
  | _, _ => []
  end.

Lemma bfs_fold {St} (body : string → St → St * list string) fuel queue visited st :
  (∀ id st, (body id st).2 = next id) →
  bfs body fuel queue visited st =
  foldl (λ st id, (body id st).1) st (bfs_order fuel queue visited).
Proof.
  intros Hb. revert queue visited st.
  induction fuel as [|fuel IH]; intros [|id queue] visited st; simpl; try done.
  case_decide; [done|]. specialize (Hb id st). destruct (body id st) as [st' more] eqn:E.
  simpl in *. rewrite E, Hb. apply IH.
Qed.

Lemma bfs_order_nodup fuel queue visited :
  NoDup (bfs_order fuel queue visited) ∧
  ∀ id, id ∈ bfs_order fuel queue visited → id ∉ visited.
Proof.
  revert queue visited. induction fuel as [|fuel IH]; intros [|id queue] visited; simpl;
    try (split; [constructor|set_solver]).
  case_decide as Hv; [apply IH|]. destruct (IH (queue ++ next id) ({[id]} ∪ visited)) as [H1 H2].
  split; [constructor; [|done]; set_solver|]. set_solver.
Qed.

Definition reaches (u v : string) : Prop := rtc (λ a b, b ∈ next a) u v.

Lemma bfs_order_sound fuel queue visited id :
  id ∈ bfs_order fuel queue visited → ∃ r, r ∈ queue ∧ reaches r id.
Proof.
  revert queue visited. induction fuel as [|fuel IH]; intros [|x queue] visited; simpl;
    try set_solver.
  case_decide.
  - intros (r & ? & ?)%IH. exists r. set_solver.
  - intros [->|(r & [Hr|Hr]%elem_of_app & Hreach)%IH]%elem_of_cons.
    + exists x. split; [set_solver|apply rtc_refl].
    + exists r. set_solver.
    + exists x. split; [set_solver|]. by eapply rtc_l.
Qed.

(** Enough fuel: one pop per queued id, and [next id] more for each node of
    a universe [U] outside which nothing is expanded. *)
Context (U : list string) (Hnext : ∀ id, id ∉ U → next id = []).

Definition budget (visited : gset string) : nat :=
  sum_list ((λ id, if decide (id ∈ visited) then 0 else length (next id)) <$> U).

Lemma budget_mono id visited : budget ({[id]} ∪ visited) ≤ budget visited.
Proof using Type.
  clear Hnext. unfold budget. induction U as [|x U' IH]; csimpl; [lia|].
  repeat case_decide; try set_solver; lia.
Qed.

Lemma budget_visit id visited :
  id ∉ visited → budget ({[id]} ∪ visited) + length (next id) ≤ budget visited.
Proof using Hnext.
  intros Hv. destruct (decide (id ∈ U)) as [Hin|Hin];
    [|rewrite (Hnext id Hin); simpl; pose proof (budget_mono id visited); lia].
  clear Hnext. unfold budget. induction U as [|x U' IH]; [set_solver|]. csimpl.
  destruct (decide (x = id)) as [->|Hne].
  - rewrite decide_True by set_solver. rewrite (decide_False (P := id ∈ visited)) by done.
    assert (sum_list ((λ y, if decide (y ∈ {[id]} ∪ visited) then 0 else length (next y)) <$> U')
      ≤ sum_list ((λ y, if decide (y ∈ visited) then 0 else length (next y)) <$> U')).
    { clear. induction U' as [|y U' IH]; csimpl; [lia|]. repeat case_decide; try set_solver; lia. }
    lia.
  - assert (id ∈ U') as Hin' by set_solver. specialize (IH Hin').
    repeat case_decide; try set_solver; lia.
Qed.

Lemma bfs_order_closed fuel queue visited :
  length queue + budget visited ≤ fuel →
  (∀ id, id ∈ queue → id ∈ visited ∨ id ∈ bfs_order fuel queue visited) ∧
  (∀ id x, id ∈ bfs_order fuel queue visited → x ∈ next id →
    x ∈ visited ∨ x ∈ bfs_order fuel queue visited).
Proof using Hnext.
  revert queue visited. induction fuel as [|fuel IH]; intros [|id queue] visited Hf; simpl in *;
    try (split; set_solver); [lia|].
  case_decide as Hv.
  - destruct (IH queue visited) as [H1 H2]; [lia|]. split; [|done]. set_solver.
  - pose proof (budget_visit id visited Hv).
    destruct (IH (queue ++ next id) ({[id]} ∪ visited)) as [H1 H2];
      [rewrite length_app; lia|].
    split.
    + intros x [->|Hx]%elem_of_cons; [set_solver|].
      destruct (H1 x); [set_solver|set_solver|set_solver].
    + intros y x [->|Hy]%elem_of_cons Hx.
      * destruct (H1 x); [set_solver|set_solver|set_solver].
      * destruct (H2 y x Hy Hx); set_solver.
Qed.

Lemma bfs_order_spec fuel roots id :
  length roots + budget ∅ ≤ fuel →
  id ∈ bfs_order fuel roots ∅ ↔ ∃ r, r ∈ roots ∧ reaches r id.
Proof using Hnext.
  intros Hf. split; [apply bfs_order_sound|].
  intros (r & Hr & Hreach). destruct (bfs_order_closed fuel roots ∅ Hf) as [H1 H2].
  assert (r ∈ bfs_order fuel roots ∅) as Hro by (destruct (H1 r Hr); set_solver).
  clear Hr. induction Hreach as [|u v w Huv _ IH]; [done|].
  apply IH. destruct (H2 u v Hro Huv); set_solver.
Qed.

Lemma budget_bound n : (∀ id, length (next id) ≤ n) → budget ∅ ≤ length U * n.
Proof using Type.
  clear Hnext. intros Hn. unfold budget. induction U as [|x U' IH]; csimpl; [lia|].
  specialize (Hn x). case_decide; lia.
Qed.
End order.
