(* ===== verification/Chain.v ===== *)
(** The production chain: physical work stages of a map and their neighbours.

    Models [src/core/production_map/chain/mod.rs] and [chain/adjacent.rs]: which
    stages an order passes, which physical stage precedes or follows another
    along the branch-aware topology, and when an order is ready at a station.
    The node ids of an alternative group alias each other on a route. *)
From Stdlib Require Import Ascii.
From S2P Require Import Prelude RustStr F64 Errors Identity QueueState OrderLayout MapDefinition Formula Compiler Bfs.

Record ChainStage := {
  stage_node_id : string;
  stage_apparatus_id : option string;
  stage_station_title : string;
}.

(** * Identities *)

Definition task_stage_identity (id : string) : string := "task:" +:+ trim id.

Definition is_apparatus (node : ProductionMapNode) : bool :=
  NodeKind.eqb (node_kind node) NodeKind.Apparatus.

Definition station_identity (node : ProductionMapNode) : string :=
  if is_apparatus node then
    let assigned := trim (alternative_assigned_apparatus_id node) in
    if is_empty (trim (alternative_group_id node)) && negb (is_empty assigned)
    then assigned else trim (node_apparatus_id node)
  else task_stage_identity (node_id node).

Definition canonical_apparatus_identity (node : ProductionMapNode) : option string :=
  if is_apparatus node then apparatus_id_str <$> ok (ApparatusId_new (station_identity node))
  else None.

Definition is_unassigned_alternative_apparatus (node : ProductionMapNode) : bool :=
  is_apparatus node && negb (is_empty (trim (alternative_group_id node))).

Definition is_work_stage (node : ProductionMapNode) (seen_apparatus : bool) : bool :=
  match node_kind node with
  | NodeKind.Apparatus => true
  | NodeKind.Task => seen_apparatus
  | _ => false
  end.

Definition is_station_node (node : ProductionMapNode) : bool :=
  match node_kind node with NodeKind.Apparatus | NodeKind.Task => true | _ => false end.

Definition station_matches (node : ProductionMapNode) (station_id : string) : bool :=
  let station_id := trim station_id in
  if is_empty station_id then false
  else if is_apparatus node then
    match canonical_apparatus_identity node with
    | None => false
    | Some id =>
        match ok (ApparatusId_new station_id) with
        | None => false
        | Some requested => id =s apparatus_id_str requested
        end
    end
  else station_identity node =s station_id.

Definition display_title (node : ProductionMapNode) : string :=
  let assigned := trim (alternative_assigned_title node) in
  if is_apparatus node && is_empty (trim (alternative_group_id node)) && negb (is_empty assigned)
  then assigned else trim (node_title node).

Definition alternative_candidate (group_id : string) (candidate : ProductionMapNode) : bool :=
  is_apparatus candidate && (trim (alternative_group_id candidate) =s group_id) &&
  is_ok (ApparatusId_new (trim (node_apparatus_id candidate))).

Definition alternative_stage (candidate : ProductionMapNode) : ChainStage :=
  {| stage_node_id := node_id candidate;
     stage_apparatus_id := Some (trim (node_apparatus_id candidate));
     stage_station_title := display_title candidate |}.

Definition stages_for_node (map : ProductionMapDefinition) (node : ProductionMapNode)
  : list ChainStage :=
  match (if is_apparatus node then canonical_apparatus_identity node
         else Some (station_identity node)) with
  | None => []
  | Some ident =>
      if negb (is_unassigned_alternative_apparatus node) then
        [{| stage_node_id := node_id node;
            stage_apparatus_id := if is_apparatus node then Some ident else None;
            stage_station_title := display_title node |}]
      else
        alternative_stage <$>
          List.filter (alternative_candidate (trim (alternative_group_id node))) (map_nodes map)
  end.

(** [ChainStage::identity] and [ChainStage::occurrence_identity]. *)
Definition stage_identity (stage : ChainStage) : string :=
  match stage_apparatus_id stage with
  | Some id => id
  | None => task_stage_identity (stage_node_id stage)
  end.

Definition occurrence_identity (stage : ChainStage) : string := trim (stage_node_id stage).

Definition chain_stage_matches_station (stage : ChainStage) (station_id : string) : bool :=
  match stage_apparatus_id stage with
  | Some id => apparatus_ids_match id station_id
  | None => stage_identity stage =s trim station_id
  end.

(** * Matching stages of one map *)

Definition resolves_to (id : string) (node : ProductionMapNode) : bool :=
  (trim (node_apparatus_id node) =s id) ||
  is_some_and (canonical_apparatus_identity node) (λ c, c =s id).

Definition stage_ids_match_for_map (map : ProductionMapDefinition) (left right : string) : bool :=
  if stage_ids_match left right then true
  else
    match ok (ApparatusId_new (trim left)), ok (ApparatusId_new (trim right)) with
    | Some left_id, Some right_id =>
        match List.find (resolves_to (apparatus_id_str left_id)) (map_nodes map),
              List.find (resolves_to (apparatus_id_str right_id)) (map_nodes map) with
        | Some left_node, Some right_node =>
            let group_id := trim (alternative_group_id left_node) in
            negb (is_empty group_id || (group_id <>s trim (alternative_group_id right_node)))
        | _, _ => false
        end
    | _, _ => false
    end.

(** [map.nodes.iter().find(|node| node.id.trim() == id)]. *)
Definition find_trimmed (map : ProductionMapDefinition) (id : string)
  : option ProductionMapNode :=
  List.find (λ node, trim (node_id node) =s id) (map_nodes map).

Definition stage_node_ids_match_for_map (map : ProductionMapDefinition) (left right : string)
  : bool :=
  let left := trim left in
  let right := trim right in
  if is_empty left || is_empty right then false
  else if left =s right then true
  else
    match find_trimmed map left with
    | None => false
    | Some left_node =>
        let group_id := trim (alternative_group_id left_node) in
        if negb (is_apparatus left_node) || is_empty group_id then false
        else
          match find_trimmed map right with
          | None => false
          | Some right_node =>
              if negb (is_apparatus right_node) then false
              else if group_id <>s trim (alternative_group_id right_node) then false
              else is_some (canonical_apparatus_identity left_node) &&
                   is_some (canonical_apparatus_identity right_node)
          end
    end.

(** * Routes *)

Definition route_edge_allowed (node : ProductionMapNode) (edge : ProductionMapEdge) : bool :=
  negb (NodeKind.eqb (node_kind node) NodeKind.Condition) ||
  (let branch := normalize_branch (edge_branch edge) in
   (branch =s "true") || (branch =s "false")).

Definition route_node_has_aliases (map : ProductionMapDefinition) (normalized_id : string)
  : bool :=
  negb (is_empty normalized_id) &&
  is_some_and (find_trimmed map normalized_id) (λ node,
    is_apparatus node && negb (is_empty (trim (alternative_group_id node))) &&
    is_some (canonical_apparatus_identity node)).

(** The [matches] closure both route functions build for [node_id]. *)
Definition route_matches (map : ProductionMapDefinition) (id candidate : string) : bool :=
  let normalized_id := trim id in
  let candidate := trim candidate in
  negb (is_empty normalized_id) && negb (is_empty candidate) &&
  ((candidate =s normalized_id) ||
   (route_node_has_aliases map normalized_id &&
    stage_node_ids_match_for_map map candidate normalized_id)).

Definition route_successors (map : ProductionMapDefinition) (id : string) : list string :=
  match find_node map id with
  | None => []
  | Some node =>
      edge_to <$> List.filter (λ edge,
        ((edge_from edge =s id) || route_matches map id (edge_from edge)) &&
        negb (route_matches map id (edge_to edge)) &&
        route_edge_allowed node edge) (map_edges map)
  end.

Definition route_predecessors (map : ProductionMapDefinition) (id : string) : list string :=
  edge_from <$> List.filter (λ edge,
    ((edge_to edge =s id) || route_matches map id (edge_to edge)) &&
    negb (route_matches map id (edge_from edge)) &&
    is_some_and (find_node map (edge_from edge)) (λ node, route_edge_allowed node edge))
    (map_edges map).

(** Pops a traversal makes at most: every node expands to at most all edges,
    and the initial queue is the start node or one such expansion. *)
Definition bfs_fuel (map : ProductionMapDefinition) : nat :=
  S (length (map_nodes map)) * S (length (map_edges map)).

Definition knows (map : ProductionMapDefinition) (id : string) : bool :=
  existsb (λ node, node_id node =s id) (map_nodes map).

Definition reachable_body (map : ProductionMapDefinition) (id : string) (result : list string)
  : list string * list string :=
  if knows map id then (result ++ [id], route_successors map id) else (result, []).

Definition reachable_node_ids (map : ProductionMapDefinition) : list string :=
  match List.find (λ node, NodeKind.eqb (node_kind node) NodeKind.Start) (map_nodes map) with
  | None => []
  | Some start => bfs (reachable_body map) (bfs_fuel map) [node_id start] ∅ []
  end.

(** The stages loop; the state is [stages], [seen_stage_ids], [seen_apparatus]. *)
Definition push_stage (node : ProductionMapNode) (st : list ChainStage * gset string * bool)
    (stage : ChainStage) : list ChainStage * gset string * bool :=
  let '(stages, seen_stage_ids, seen_apparatus) := st in
  let seen_apparatus := is_apparatus node || seen_apparatus in
  let occurrence := occurrence_identity stage in
  if bool_decide (occurrence ∈ seen_stage_ids) then (stages, seen_stage_ids, seen_apparatus)
  else (stages ++ [stage], {[occurrence]} ∪ seen_stage_ids, seen_apparatus).

Definition work_stage_step (map : ProductionMapDefinition)
    (st : list ChainStage * gset string * bool) (current_id : string)
  : list ChainStage * gset string * bool :=
  match node_by_id map current_id with
  | None => st
  | Some node =>
      let '(stages, seen_stage_ids, seen_apparatus) := st in
      if is_work_stage node seen_apparatus
      then foldl (push_stage node) st (stages_for_node map node)
      else (stages, seen_stage_ids, is_apparatus node || seen_apparatus)
  end.

Definition linear_work_stages (map : ProductionMapDefinition) : list ChainStage :=
  (foldl (work_stage_step map) ([], ∅, false) (reachable_node_ids map)).1.1.

(** * Neighbouring stations *)

Definition physical_stage_node_ids (stages : list ChainStage) : gset string :=
  list_to_set (omap (λ stage, (λ _, stage_node_id stage) <$> stage_apparatus_id stage) stages).

(** The body of [collect_previous_stage_ids] and [collect_next_stage_ids]:
    [stop] is the kind that ends the walk, [neighbours] the direction. *)
Definition collect_body (map : ProductionMapDefinition) (stop : NodeKind.t)
    (neighbours : string → list string) (physical : gset string)
    (id : string) (st : list string * gset string) : (list string * gset string) * list string :=
  match find_node map id with
  | None => (st, [])
  | Some node =>
      if NodeKind.eqb (node_kind node) stop then (st, [])
      else if is_apparatus node && bool_decide (node_id node ∈ physical) then
        match canonical_apparatus_identity node with
        | None => (st, [])
        | Some ident =>
            let '(found, seen_ids) := st in
            let key := to_ascii_lowercase ident in
            if negb (is_empty ident) && bool_decide (key ∉ seen_ids)
            then ((found ++ [ident], {[key]} ∪ seen_ids), [])
            else (st, [])
        end
      else (st, neighbours id)
  end.

Definition collect_previous_stage_ids (map : ProductionMapDefinition) (start_id : string)
    (physical : gset string) (st : list string * gset string) : list string * gset string :=
  bfs (collect_body map NodeKind.Start (route_predecessors map) physical) (bfs_fuel map)
    (route_predecessors map start_id) ∅ st.

Definition collect_next_stage_ids (map : ProductionMapDefinition) (start_id : string)
    (physical : gset string) (st : list string * gset string) : list string * gset string :=
  bfs (collect_body map NodeKind.End_ (route_successors map) physical) (bfs_fuel map)
    (route_successors map start_id) ∅ st.

Definition station_nodes (map : ProductionMapDefinition) (station_id : string)
  : list ProductionMapNode :=
  List.filter (λ node, is_station_node node && station_matches node station_id) (map_nodes map).

Definition previous_work_stage_stations_with_stages (map : ProductionMapDefinition)
    (station_id : string) (stages : list ChainStage) : list string :=
  (foldl (λ st node, collect_previous_stage_ids map (node_id node)
            (physical_stage_node_ids stages) st) ([], ∅) (station_nodes map station_id)).1.

Definition previous_work_stage_stations (map : ProductionMapDefinition) (station_id : string)
  : list string :=
  previous_work_stage_stations_with_stages map station_id (linear_work_stages map).

Definition previous_work_stage_station (map : ProductionMapDefinition) (station_id : string)
  : option string := head (previous_work_stage_stations map station_id).

Definition next_work_stage_stations_with_stages (map : ProductionMapDefinition)
    (station_id : string) (stages : list ChainStage) : list string :=
  (foldl (λ st node, collect_next_stage_ids map (node_id node)
            (physical_stage_node_ids stages) st) ([], ∅) (station_nodes map station_id)).1.

Definition next_work_stage_stations (map : ProductionMapDefinition) (station_id : string)
  : list string :=
  next_work_stage_stations_with_stages map station_id (linear_work_stages map).

Definition next_work_stage_station (map : ProductionMapDefinition) (station_id : string)
  : option string := head (next_work_stage_stations map station_id).

Definition previous_stage_resolution_is_unavailable_with_stages (map : ProductionMapDefinition)
    (station_id : string) (stages : list ChainStage) : bool :=
  let physical_stages := List.filter (λ stage, is_some (stage_apparatus_id stage)) stages in
  let node_ids : gset string := list_to_set (stage_node_id <$> physical_stages) in
  if existsb (λ node,
       is_apparatus node && is_empty (trim (alternative_group_id node)) &&
       is_some (canonical_apparatus_identity node) && bool_decide (node_id node ∉ node_ids))
       (map_nodes map)
  then true
  else match position (λ stage, stage_identity stage =s trim station_id) physical_stages with
  | None => negb (Nat.eqb (length physical_stages) 0)
  | Some index =>
      (0 <? index) && is_none (previous_work_stage_station map station_id)
  end.

Definition previous_stage_resolution_is_unavailable (map : ProductionMapDefinition)
    (station_id : string) : bool :=
  previous_stage_resolution_is_unavailable_with_stages map station_id (linear_work_stages map).

Definition work_stage_for_station_with_stages (map : ProductionMapDefinition)
    (station_id preferred_node_id : string) (stages : list ChainStage) : option ChainStage :=
  let preferred_node_id := trim preferred_node_id in
  if negb (is_empty preferred_node_id) then
    List.find (λ stage,
      stage_node_ids_match_for_map map (stage_node_id stage) preferred_node_id &&
      chain_stage_matches_station stage station_id) stages
  else List.find (λ stage, chain_stage_matches_station stage station_id) stages.

Definition work_stage_for_station (map : ProductionMapDefinition)
    (station_id preferred_node_id : string) : option ChainStage :=
  work_stage_for_station_with_stages map station_id preferred_node_id (linear_work_stages map).

(** * Neighbouring stages of one occurrence (adjacent.rs) *)

(** The [BTreeMap] from node id to physical stage: the last one wins. *)
Definition physical_by_node (stages : list ChainStage) (id : string) : option ChainStage :=
  List.find (λ stage, stage_node_id stage =s id)
    (rev (List.filter (λ stage, is_some (stage_apparatus_id stage)) stages)).

Definition adjacent_body (map : ProductionMapDefinition) (neighbours : string → list string)
    (stages : list ChainStage) (id : string) (st : list ChainStage * gset string)
  : (list ChainStage * gset string) * list string :=
  match find_node map id with
  | None => (st, [])
  | Some node =>
      if NodeKind.eqb (node_kind node) NodeKind.Start ||
         NodeKind.eqb (node_kind node) NodeKind.End_ then (st, [])
      else match physical_by_node stages id with
      | Some stage =>
          let '(found, found_nodes) := st in
          if bool_decide (id ∈ found_nodes) then (st, [])
          else ((found ++ [stage], {[id]} ∪ found_nodes), [])
      | None => (st, neighbours id)
      end
  end.

Definition route_neighbours (map : ProductionMapDefinition) (previous : bool)
  : string → list string :=
  if previous then route_predecessors map else route_successors map.

Definition adjacent_physical_stages_for_node_with_stages (map : ProductionMapDefinition)
    (node : string) (previous : bool) (stages : list ChainStage) : list ChainStage :=
  if negb (existsb (λ stage, trim (stage_node_id stage) =s trim node) stages) then []
  else
    let neighbours := route_neighbours map previous in
    (bfs (adjacent_body map neighbours stages) (bfs_fuel map) (neighbours (trim node)) ∅
       ([], ∅)).1.

Definition adjacent_physical_stages_for_node (map : ProductionMapDefinition) (node : string)
    (previous : bool) : list ChainStage :=
  adjacent_physical_stages_for_node_with_stages map node previous (linear_work_stages map).

Definition previous_work_stages_for_node (map : ProductionMapDefinition) (node : string)
  : list ChainStage := adjacent_physical_stages_for_node map node true.
Definition previous_work_stage_for_node (map : ProductionMapDefinition) (node : string)
  : option ChainStage := head (adjacent_physical_stages_for_node map node true).
Definition next_work_stages_for_node (map : ProductionMapDefinition) (node : string)
  : list ChainStage := adjacent_physical_stages_for_node map node false.
Definition next_work_stage_for_node (map : ProductionMapDefinition) (node : string)
  : option ChainStage := head (next_work_stages_for_node map node).

Definition is_final_work_stage_node (map : ProductionMapDefinition) (node : string) : bool :=
  existsb (λ stage, (trim (stage_node_id stage) =s trim node) &&
                    is_some (stage_apparatus_id stage)) (linear_work_stages map) &&
  is_none (next_work_stage_for_node map node).

(** * Physical stages and readiness *)

(** The fallback for maps without a start node. *)
Fixpoint all_apparatus_ids (nodes : list ProductionMapNode) (seen : gset string)
  : option (list string) :=
  match nodes with
  | [] => Some []
  | node :: nodes =>
      if negb (is_apparatus node) then all_apparatus_ids nodes seen
      else match canonical_apparatus_identity node with
      | None => None
      | Some ident =>
          if decide (ident ∈ seen) then all_apparatus_ids nodes seen
          else cons ident <$> all_apparatus_ids nodes ({[ident]} ∪ seen)
      end
  end.

Definition physical_work_stage_ids (map : ProductionMapDefinition) : option (list string) :=
  match reachable_node_ids map with
  | [] => all_apparatus_ids (map_nodes map) ∅
  | reachable_ids =>
      if existsb (λ id, is_some_and (node_by_id map id) (λ node,
           is_apparatus node && is_none (canonical_apparatus_identity node))) reachable_ids
      then None
      else Some (dedup_seen ∅ (omap stage_apparatus_id (linear_work_stages map)))
  end.

(** [BTreeMap<String, BTreeMap<String, String>>]: apparatus, order, state. *)
Abbreviation station_states := (gmap string (gmap string string)).

Definition queue_state_for_station (station_id order_id : string) (all_states : station_states)
  : OrderState.t :=
  default OrderState.Pending
    (states ← all_states !! trim station_id;
     value ← states !! trim order_id;
     OrderState.parse value).

Definition completed_at (station_id order_id : string) (all_states : station_states) : bool :=
  bool_decide (queue_state_for_station station_id order_id all_states = OrderState.Completed).

Definition order_ready_for_station (map : ProductionMapDefinition) (order_id station_id : string)
    (all_states : station_states) : bool :=
  match previous_work_stage_station map station_id with
  | None => true
  | Some previous_id => completed_at previous_id order_id all_states
  end.

Definition order_ready_for_stage_node (map : ProductionMapDefinition) (order_id node : string)
    (all_states : station_states) : bool :=
  match previous_work_stage_for_node map node with
  | None => true
  | Some previous =>
      match stage_apparatus_id previous with
      | None => true
      | Some previous_apparatus => completed_at previous_apparatus order_id all_states
      end
  end.

Definition map_has_work_stage_for_station (map : ProductionMapDefinition) (station_id : string)
  : bool :=
  existsb (λ stage, stage_identity stage =s trim station_id) (linear_work_stages map).

Definition is_final_work_stage_station (map : ProductionMapDefinition) (station_id : string)
  : bool :=
  map_has_work_stage_for_station map station_id &&
  existsb (λ stage, is_some (stage_apparatus_id stage) &&
                    (stage_identity stage =s trim station_id)) (linear_work_stages map) &&
  is_none (next_work_stage_station map station_id).
