(* ===== verification/ChainFacts.v ===== *)
(** Correctness of the production chain: traversals visit exactly what is
    reachable, stages are listed once and belong to nodes of the map, and the
    predecessor and successor relations between physical stages are converse
    to each other on maps without alternative groups. *)
From Stdlib Require Import Ascii.
From S2P Require Import Prelude RustStr F64 Errors Identity QueueState OrderLayout MapDefinition Formula Compiler GraphFacts Bfs Chain.

(** * Fuel *)

Section fuel.
Context (map : ProductionMapDefinition) (next : string → list string).
Context (Hknown : ∀ id, id ∉ node_ids map → next id = []).
Context (Hlen : ∀ id, length (next id) ≤ length (map_edges map)).

Lemma bfs_fuel_enough roots id :
  length roots ≤ S (length (map_edges map)) →
  id ∈ bfs_order next (bfs_fuel map) roots ∅ ↔ ∃ r, r ∈ roots ∧ reaches next r id.
Proof using Hknown Hlen.
  intros Hr. apply (bfs_order_spec next (node_ids map) Hknown).
  pose proof (budget_bound next (node_ids map) _ Hlen) as Hb.
  assert (length (node_ids map) = length (map_nodes map)) as Hn
    by (unfold node_ids; by rewrite length_fmap).
  rewrite Hn in Hb. unfold bfs_fuel. nia.
Qed.
End fuel.

Lemma filterb_length {A} (f : A → bool) l : length (List.filter f l) ≤ length l.
Proof. induction l as [|x l IH]; simpl; [done|]. destruct (f x); simpl; lia. Qed.

Lemma route_successors_length map id : length (route_successors map id) ≤ length (map_edges map).
Proof.
  unfold route_successors. case_match; [|simpl; lia]. rewrite length_fmap. apply filterb_length.
Qed.

Lemma route_predecessors_length map id :
  length (route_predecessors map id) ≤ length (map_edges map).
Proof. unfold route_predecessors. rewrite length_fmap. apply filterb_length. Qed.

Lemma find_node_unknown map id : id ∉ node_ids map → find_node map id = None.
Proof.
  intros Hid. destruct (find_node map id) as [n|] eqn:E; [|done].
  apply find_node_elem in E as [Hn <-]. destruct Hid. by apply list_elem_of_fmap_2.
Qed.

Lemma knows_spec map id : knows map id = true ↔ id ∈ node_ids map.
Proof.
  unfold knows, node_ids. rewrite existsb_elem, list_elem_of_fmap.
  split; intros (n & H); exists n; [|destruct H]; subst; rewrite ?String.eqb_eq in *; naive_solver.
Qed.

(** * Reachability *)

Lemma reachable_order map start :
  bfs (reachable_body map) (bfs_fuel map) [start] ∅ [] =
  List.filter (knows map) (bfs_order (route_successors map) (bfs_fuel map) [start] ∅).
Proof.
  rewrite (bfs_fold (route_successors map)).
  - generalize (bfs_order (route_successors map) (bfs_fuel map) [start] ∅). intros l.
    induction l as [|x l IH] using rev_ind; [done|].
    rewrite foldl_snoc, List.filter_app, IH. unfold reachable_body. simpl.
    destruct (knows map x); simpl; [done|by rewrite app_nil_r].
  - intros id st. unfold reachable_body. destruct (knows map id) eqn:Hk; [done|]. simpl.
    unfold route_successors. rewrite find_node_unknown; [done|].
    intros Hid%knows_spec. congruence.
Qed.

Lemma reachable_node_ids_spec map start :
  List.find (λ node, NodeKind.eqb (node_kind node) NodeKind.Start) (map_nodes map) = Some start →
  NoDup (reachable_node_ids map) ∧
  ∀ id, id ∈ reachable_node_ids map ↔
    id ∈ node_ids map ∧ reaches (route_successors map) (node_id start) id.
Proof.
  intros Hs. unfold reachable_node_ids. rewrite Hs, reachable_order. split.
  - apply filterb_NoDup, bfs_order_nodup.
  - intros id. rewrite filterb_elem, knows_spec.
    rewrite (bfs_fuel_enough map (route_successors map));
      [|intros x Hx; unfold route_successors; by rewrite find_node_unknown
       |apply route_successors_length|simpl; lia].
    set_solver.
Qed.

(** * Stages *)

Definition physical (stage : ChainStage) : Prop := is_Some (stage_apparatus_id stage).

(** A stage is a snapshot of a station node of the map; a physical one carries
    a canonical apparatus id. *)
Definition stage_of_map (map : ProductionMapDefinition) (stage : ChainStage) : Prop :=
  ∃ n, n ∈ map_nodes map ∧ node_id n = stage_node_id stage ∧ is_station_node n = true ∧
    match stage_apparatus_id stage with
    | Some id => is_apparatus n = true ∧ ApparatusId_is_valid id = true
    | None => is_apparatus n = false
    end.

Lemma canonical_identity_valid n id :
  canonical_apparatus_identity n = Some id →
  is_apparatus n = true ∧ ApparatusId_is_valid id = true.
Proof.
  unfold canonical_apparatus_identity, ApparatusId_new, ApparatusId_is_valid.
  destruct (is_apparatus n); [|done]. destruct (validate_shape _) eqn:E; simpl; [|done].
  intros [= <-]. by rewrite E.
Qed.

Lemma station_node_of_apparatus n : is_apparatus n = true → is_station_node n = true.
Proof. unfold is_apparatus, is_station_node. intros ->%bool_decide_eq_true. done. Qed.

Lemma stages_for_node_of_map map n stage :
  n ∈ map_nodes map → is_station_node n = true → stage ∈ stages_for_node map n →
  stage_of_map map stage.
Proof.
  intros Hn Hk. unfold stages_for_node.
  destruct (is_apparatus n) eqn:Ha.
  - destruct (canonical_apparatus_identity n) as [id|] eqn:Hid; [|set_solver].
    apply canonical_identity_valid in Hid as [_ Hid].
    destruct (negb _); [intros ->%list_elem_of_singleton; by exists n; rewrite Ha|].
    rewrite list_elem_of_fmap. intros (c & -> & [Hc Hal]%filterb_elem).
    unfold alternative_candidate in Hal. breflect. exists c. simpl. split_and!; try done.
    + by apply station_node_of_apparatus.
    + unfold ApparatusId_new in *. unfold ApparatusId_is_valid. by destruct (validate_shape _).
  - unfold is_unassigned_alternative_apparatus. rewrite Ha. simpl.
    intros ->%list_elem_of_singleton. exists n. simpl. by rewrite Ha.
Qed.

(** The stages loop keeps each occurrence once. *)
Definition stages_inv (map : ProductionMapDefinition) (st : list ChainStage * gset string * bool)
  : Prop :=
  NoDup (occurrence_identity <$> st.1.1) ∧
  st.1.2 = list_to_set (occurrence_identity <$> st.1.1) ∧
  ∀ stage, stage ∈ st.1.1 → stage_of_map map stage.

Lemma push_stage_inv map n st stage :
  stages_inv map st → stage_of_map map stage → stages_inv map (push_stage n st stage).
Proof.
  destruct st as [[stages seen] flag]. intros (Hnd & Hseen & Hall) Hs. simpl in *. subst seen.
  unfold push_stage. case_bool_decide as Hin; [done|].
  rewrite elem_of_list_to_set in Hin. split_and!; simpl.
  - rewrite fmap_app. apply NoDup_app. split_and!; [done|set_solver|apply NoDup_singleton].
  - rewrite fmap_app, list_to_set_app_L. simpl. set_solver.
  - intros x [?|Hx%list_elem_of_singleton]%elem_of_app; [auto|by subst].
Qed.

Lemma node_by_id_elem map id n : node_by_id map id = Some n → n ∈ map_nodes map ∧ node_id n = id.
Proof.
  intros [Hn ?%String.eqb_eq]%find_elem. split; [|done].
  rewrite list_elem_of_In in *. by apply in_rev.
Qed.

Lemma work_stage_step_inv map st id :
  stages_inv map st → stages_inv map (work_stage_step map st id).
Proof.
  intros Hinv. unfold work_stage_step. destruct (node_by_id map id) as [n|] eqn:Hn; [|done].
  apply node_by_id_elem in Hn as [Hn _]. destruct st as [[stages seen] flag].
  destruct (is_work_stage n flag) eqn:Hw; [|done].
  assert (Hk : is_station_node n = true)
    by (unfold is_work_stage, is_station_node in *; by destruct (node_kind n)).
  assert (Hall : ∀ s, s ∈ stages_for_node map n → stage_of_map map s)
    by (intros; by eapply stages_for_node_of_map).
  revert Hinv Hall. generalize (stages, seen, flag). generalize (stages_for_node map n).
  intros l. induction l as [|s l IH]; intros st Hinv Hall; simpl; [done|].
  apply IH; [|set_solver]. apply push_stage_inv; [done|]. apply Hall. set_solver.
Qed.

Lemma work_stages_inv map l :
  stages_inv map (foldl (work_stage_step map) ([], ∅, false) l).
Proof.
  induction l as [|id l IH] using rev_ind.
  - split_and!; [constructor|done|set_solver].
  - rewrite foldl_snoc. by apply work_stage_step_inv.
Qed.

Lemma linear_work_stages_inv map :
  NoDup (occurrence_identity <$> linear_work_stages map) ∧
  ∀ stage, stage ∈ linear_work_stages map → stage_of_map map stage.
Proof.
  destruct (work_stages_inv map (reachable_node_ids map)) as (? & _ & ?). done.
Qed.

(** Every reachable machine with a canonical identity has a stage. *)
Lemma push_stage_mono n st stage s : s ∈ st.1.1 → s ∈ (push_stage n st stage).1.1.
Proof.
  destruct st as [[stages seen] flag]. unfold push_stage. case_bool_decide; simpl; set_solver.
Qed.

Lemma push_stages_mono n l st s : s ∈ st.1.1 → s ∈ (foldl (push_stage n) st l).1.1.
Proof.
  revert st. induction l as [|x l IH]; intros st Hs; simpl; [done|].
  apply IH. by apply push_stage_mono.
Qed.

Lemma work_stage_step_mono map st id s : s ∈ st.1.1 → s ∈ (work_stage_step map st id).1.1.
Proof.
  unfold work_stage_step. case_match; [|done]. destruct st as [[??]?].
  case_match; [apply push_stages_mono|done].
Qed.

Lemma push_stages_covers map n l st stage :
  stages_inv map st → (∀ s, s ∈ l → stage_of_map map s) → stage ∈ l →
  ∃ s, s ∈ (foldl (push_stage n) st l).1.1 ∧ occurrence_identity s = occurrence_identity stage.
Proof.
  revert st. induction l as [|x l IH]; intros st Hinv Hall; [set_solver|].
  intros [->|Hin]%elem_of_cons; simpl; [|apply IH; [|set_solver|done]].
  - assert (∃ s, s ∈ (push_stage n st x).1.1 ∧ occurrence_identity s = occurrence_identity x)
      as (s & Hs & ?); [|exists s; split; [by apply push_stages_mono|done]].
    destruct st as [[stages seen] flag]. destruct Hinv as (_ & Hseen & _). simpl in Hseen.
    unfold push_stage. case_bool_decide as Hx; simpl; [|exists x; set_solver].
    subst seen. apply elem_of_list_to_set, list_elem_of_fmap in Hx as (s & ? & ?). by exists s.
  - apply push_stage_inv; [done|]. apply Hall. set_solver.
Qed.

Lemma linear_work_stages_complete map id n stage :
  id ∈ reachable_node_ids map → node_by_id map id = Some n → is_apparatus n = true →
  stage ∈ stages_for_node map n →
  ∃ s, s ∈ linear_work_stages map ∧ occurrence_identity s = occurrence_identity stage.
Proof.
  intros Hid Hn Ha Hs. unfold linear_work_stages.
  assert (Hgen : ∀ l, id ∈ l →
    stages_inv map (foldl (work_stage_step map) ([], ∅, false) l) ∧
    ∃ s, s ∈ (foldl (work_stage_step map) ([], ∅, false) l).1.1 ∧
      occurrence_identity s = occurrence_identity stage); [|by apply Hgen].
  induction l as [|x l IH] using rev_ind; [set_solver|].
  rewrite foldl_snoc. pose proof (work_stages_inv map l) as Hinv.
  set (st := foldl (work_stage_step map) ([], ∅, false) l) in *. clearbody st.
  intros Hx. split; [by apply work_stage_step_inv|].
  apply elem_of_app in Hx as [Hl|Hx%list_elem_of_singleton].
  - destruct (IH Hl) as (_ & s & Hs' & ?). exists s. split; [by apply work_stage_step_mono|done].
  - subst x. unfold work_stage_step. rewrite Hn. destruct st as [[stages seen] flag].
    assert (is_work_stage n flag = true) as ->.
    { apply bool_decide_eq_true in Ha. unfold is_work_stage. by rewrite Ha. }
    apply node_by_id_elem in Hn as [Hn _].
    eapply push_stages_covers; [done| |done]. intros s ?.
    eapply stages_for_node_of_map; [done|by apply station_node_of_apparatus|done].
Qed.

(** * Adjacent stages *)

Section adjacent.
Context (map : ProductionMapDefinition) (stages : list ChainStage) (previous : bool).

Abbreviation neighbours := (route_neighbours map previous).

(** Neither the start nor the end of the map. *)
Definition inner (id : string) : bool :=
  is_some_and (find_node map id) (λ n,
    negb (NodeKind.eqb (node_kind n) NodeKind.Start || NodeKind.eqb (node_kind n) NodeKind.End_)).

(** A node routes pass through: no physical stage stands there. *)
Definition transparent (id : string) : bool :=
  inner id && is_none (physical_by_node stages id).

Definition adjacent_next (id : string) : list string :=
  if transparent id then neighbours id else [].

Lemma adjacent_body_next id st : (adjacent_body map neighbours stages id st).2 = adjacent_next id.
Proof.
  unfold adjacent_body, adjacent_next, transparent, inner.
  destruct (find_node map id); simpl; [|done]. case_match; simpl; [done|].
  destruct (physical_by_node stages id); simpl; [|done]. destruct st. by case_match.
Qed.

Definition hit (id : string) : option ChainStage :=
  if inner id then physical_by_node stages id else None.

Lemma adjacent_fold l found seen :
  NoDup l → (∀ id, id ∈ l → id ∉ seen) →
  (foldl (λ st id, (adjacent_body map neighbours stages id st).1) (found, seen) l).1 =
  found ++ omap hit l.
Proof.
  revert found seen. induction l as [|id l IH]; intros found seen Hnd Hseen; simpl;
    [by rewrite app_nil_r|].
  apply NoDup_cons in Hnd as [Hid Hnd]. unfold adjacent_body at 2, hit at 1, inner.
  destruct (find_node map id) as [n|]; simpl; [|apply IH; set_solver].
  destruct (NodeKind.eqb _ _ || _); simpl; [apply IH; set_solver|].
  destruct (physical_by_node stages id) as [s|]; simpl; [|apply IH; set_solver].
  rewrite bool_decide_false by set_solver. simpl. rewrite IH by set_solver.
  by rewrite <-app_assoc.
Qed.

Lemma route_neighbours_length id : length (neighbours id) ≤ length (map_edges map).
Proof.
  unfold route_neighbours. destruct previous;
    [apply route_predecessors_length|apply route_successors_length].
Qed.

(** What [adjacent_physical_stages_for_node_with_stages] finds: the stages
    first met along the routes that leave the node. *)
Lemma adjacent_spec node stage :
  stage ∈ adjacent_physical_stages_for_node_with_stages map node previous stages ↔
  existsb (λ s, trim (stage_node_id s) =s trim node) stages = true ∧
  ∃ r id, r ∈ neighbours (trim node) ∧ reaches adjacent_next r id ∧ hit id = Some stage.
Proof.
  unfold adjacent_physical_stages_for_node_with_stages.
  destruct (existsb _ stages); cbn [negb]; [|set_solver].
  rewrite (bfs_fold adjacent_next) by apply adjacent_body_next.
  rewrite adjacent_fold; [|apply bfs_order_nodup|set_solver]. simpl.
  rewrite list_elem_of_omap. setoid_rewrite (bfs_fuel_enough map adjacent_next).
  - set_solver.
  - intros id Hid. unfold adjacent_next, transparent, inner.
    by rewrite (find_node_unknown map id).
  - intros id. unfold adjacent_next. case_match; [apply route_neighbours_length|simpl; lia].
  - pose proof (route_neighbours_length (trim node)). lia.
Qed.
End adjacent.

(** The stage of a node, when stages are listed once. *)
Lemma physical_by_node_spec map id stage :
  physical_by_node (linear_work_stages map) id = Some stage ↔
  stage ∈ linear_work_stages map ∧ physical stage ∧ stage_node_id stage = id.
Proof.
  destruct (linear_work_stages_inv map) as [Hnd _]. unfold physical_by_node. split.
  - intros [Hin Hid%String.eqb_eq]%find_elem.
    rewrite list_elem_of_In, <-in_rev, <-list_elem_of_In in Hin.
    apply filterb_elem in Hin as [? Hp]. split_and!; try done.
    unfold physical. by destruct (stage_apparatus_id stage).
  - intros (Hin & Hp & <-). apply (find_nodup stage_node_id).
    + eapply NoDup_Permutation_proper; [apply fmap_Permutation; symmetry; apply Permutation_rev|].
      eapply sublist_NoDup; [|apply fmap_sublist, filterb_sublist].
      eapply (NoDup_fmap_1 trim). by rewrite <-list_fmap_compose.
    + rewrite list_elem_of_In, <-in_rev, <-list_elem_of_In. apply filterb_elem.
      split; [done|]. by destruct Hp as [? ->].
Qed.

(** * Converse relations *)

(** Maps as the compiler stores them (trimmed, non-empty ids) without
    alternative groups: every node id names one occurrence. *)
Record plain_map (map : ProductionMapDefinition) : Prop := {
  plain_graph : wf_graph map;
  plain_ids : ∀ n, n ∈ map_nodes map → trim (node_id n) = node_id n ∧ node_id n ≠ "";
  plain_groups : ∀ n, n ∈ map_nodes map → trim (alternative_group_id n) = "";
}.

Section plain.
Context (map : ProductionMapDefinition) (Hplain : plain_map map).

Lemma plain_id id : id ∈ node_ids map → trim id = id ∧ id ≠ "".
Proof using Hplain. intros (n & -> & Hn)%list_elem_of_fmap. by apply Hplain. Qed.

Lemma plain_no_aliases id : route_node_has_aliases map id = false.
Proof using Hplain.
  unfold route_node_has_aliases. destruct (find_trimmed map id) as [n|] eqn:E; simpl;
    [|by rewrite andb_false_r].
  apply find_elem in E as [Hn _]. rewrite (plain_groups _ Hplain n Hn). simpl.
  by rewrite andb_false_r, andb_false_r.
Qed.

Lemma plain_matches u v :
  u ∈ node_ids map → v ∈ node_ids map → route_matches map u v = (v =s u).
Proof using Hplain.
  intros [Hu Hu0]%plain_id [Hv Hv0]%plain_id. unfold route_matches.
  rewrite plain_no_aliases, orb_false_r, Hu, Hv. by destruct u, v.
Qed.

(** One step of a route, in either direction. *)
Definition route_edge (u v : string) : Prop :=
  ∃ e n, e ∈ map_edges map ∧ edge_from e = u ∧ edge_to e = v ∧ u ≠ v ∧
    find_node map u = Some n ∧ route_edge_allowed n e = true.

Lemma plain_successors u v :
  u ∈ node_ids map → v ∈ route_successors map u ↔ route_edge u v.
Proof using Hplain.
  intros Hu. unfold route_successors, route_edge.
  destruct (find_node map u) as [n|] eqn:Hn;
    [|split; [set_solver|intros (? & ? & ?); naive_solver]].
  rewrite list_elem_of_fmap. setoid_rewrite filterb_elem. split.
  - intros (e & -> & He & Hc). destruct (wf_edge _ (plain_graph _ Hplain) e He) as [Hf Ht].
    rewrite !plain_matches in Hc by done. breflect. exists e, n.
    split_and!; try done.
    match goal with H : _ || _ = true |- _ => apply orb_true_iff in H as [?|?] end; by breflect.
  - intros (e & n' & He & <- & <- & Hne & [= <-] & Hal). exists e.
    destruct (wf_edge _ (plain_graph _ Hplain) e He) as [Hf Ht].
    rewrite !plain_matches, String.eqb_refl, Hal by done. split_and!; try done.
    by apply String.eqb_neq in Hne; rewrite String.eqb_sym, Hne.
Qed.

Lemma plain_predecessors u v :
  v ∈ node_ids map → u ∈ route_predecessors map v ↔ route_edge u v.
Proof using Hplain.
  intros Hv. unfold route_predecessors, route_edge.
  rewrite list_elem_of_fmap. setoid_rewrite filterb_elem. split.
  - intros (e & -> & He & Hc). destruct (wf_edge _ (plain_graph _ Hplain) e He) as [Hf Ht].
    rewrite !plain_matches in Hc by done. breflect.
    destruct (find_node map (edge_from e)) as [n|] eqn:Hn; [|done]. exists e, n.
    split_and!; try done.
    match goal with H : _ || _ = true |- _ => apply orb_true_iff in H as [?|?] end; by breflect.
  - intros (e & n & He & <- & <- & Hne & Hn & Hal). exists e.
    destruct (wf_edge _ (plain_graph _ Hplain) e He) as [Hf Ht].
    rewrite !plain_matches, String.eqb_refl, Hn by done. simpl. rewrite Hal.
    split_and!; try done. by apply String.eqb_neq in Hne; rewrite Hne.
Qed.

Lemma plain_neighbours previous u v :
  u ∈ node_ids map →
  v ∈ route_neighbours map previous u ↔ if previous then route_edge v u else route_edge u v.
Proof using Hplain.
  destruct previous; [apply plain_predecessors|apply plain_successors].
Qed.

Lemma route_edge_nodes u v : route_edge u v → u ∈ node_ids map ∧ v ∈ node_ids map.
Proof using Hplain.
  intros (e & _ & He & <- & <- & _). by apply (wf_edge _ (plain_graph _ Hplain)).
Qed.

(** Reversing a route: the same nodes are transparent in both directions. *)
Lemma reverse_route stages previous s r t :
  s ∈ node_ids map → r ∈ route_neighbours map previous s →
  reaches (adjacent_next map stages previous) r t →
  t ∈ node_ids map ∧ ∃ r', r' ∈ route_neighbours map (negb previous) t ∧
    reaches (adjacent_next map stages (negb previous)) r' s.
Proof using Hplain.
  intros Hs Hr Hreach. revert s Hs Hr.
  induction Hreach as [r|r m t Hrm Hmt IH]; intros s Hs Hr.
  - apply plain_neighbours in Hr; [|done].
    assert (r ∈ node_ids map) by (destruct previous; by apply route_edge_nodes in Hr as [??]).
    split; [done|]. exists s. split; [|apply rtc_refl].
    rewrite plain_neighbours by done. by destruct previous.
  - unfold adjacent_next in Hrm. destruct (transparent map stages r) eqn:Htr; [|set_solver].
    apply plain_neighbours in Hr; [|done].
    assert (r ∈ node_ids map) by (destruct previous; by apply route_edge_nodes in Hr as [??]).
    destruct (IH r) as (Ht & r' & Hr' & Hreach'); [done..|].
    split; [done|]. exists r'. split; [done|]. eapply rtc_r; [exact Hreach'|].
    unfold adjacent_next. rewrite Htr. rewrite plain_neighbours by done. by destruct previous.
Qed.

Lemma adjacent_reverse previous s t :
  s ∈ linear_work_stages map → physical s → t ∈ linear_work_stages map →
  t ∈ adjacent_physical_stages_for_node map (stage_node_id s) previous →
  s ∈ adjacent_physical_stages_for_node map (stage_node_id t) (negb previous).
Proof using Hplain.
  intros Hs Hps Ht. destruct (linear_work_stages_inv map) as [_ Hmap].
  destruct (Hmap s Hs) as (ns & Hns & Hsid & Hsk & _).
  assert (Hsn : stage_node_id s ∈ node_ids map)
    by (rewrite <-Hsid; by apply list_elem_of_fmap_2).
  unfold adjacent_physical_stages_for_node. rewrite !adjacent_spec.
  intros (_ & r & id & Hr & Hreach & Hhit). split.
  { apply existsb_elem. exists t. split; [done|]. apply String.eqb_refl. }
  destruct (plain_id _ Hsn) as [Hst _]. rewrite Hst in Hr.
  destruct (reverse_route _ _ _ _ _ Hsn Hr Hreach) as (Hid & r' & Hr' & Hreach').
  unfold hit in Hhit. destruct (inner map id); [|done].
  apply physical_by_node_spec in Hhit as (_ & _ & <-).
  destruct (plain_id _ Hid) as [Htt _]. rewrite Htt.
  exists r', (stage_node_id s). split_and!; [done..|].
  unfold hit, inner. rewrite <-Hsid.
  unfold find_node. rewrite (find_nodup node_id) by (done || apply Hplain). simpl.
  assert (negb (NodeKind.eqb (node_kind ns) NodeKind.Start ||
                NodeKind.eqb (node_kind ns) NodeKind.End_) = true) as ->
    by (unfold is_station_node in Hsk; by destruct (node_kind ns)).
  apply physical_by_node_spec. by rewrite Hsid.
Qed.
End plain.

(** A stage of [adjacent] is a physical stage of the map. *)
Lemma adjacent_stage map node previous stage :
  stage ∈ adjacent_physical_stages_for_node map node previous →
  stage ∈ linear_work_stages map ∧ physical stage.
Proof.
  unfold adjacent_physical_stages_for_node. rewrite adjacent_spec.
  intros (_ & r & id & _ & _ & Hhit). unfold hit in Hhit. case_match; [|done].
  by apply physical_by_node_spec in Hhit as (? & ? & _).
Qed.

(** Where a stage comes from. *)
Definition stage_source (map : ProductionMapDefinition) (ids : list string) (stage : ChainStage)
  : Prop :=
  ∃ id n, id ∈ ids ∧ node_by_id map id = Some n ∧ stage ∈ stages_for_node map n.

Lemma push_stages_elem n l st s :
  s ∈ (foldl (push_stage n) st l).1.1 → s ∈ st.1.1 ∨ s ∈ l.
Proof.
  revert st. induction l as [|x l IH]; intros st; simpl; [by left|].
  intros [Hs|Hs]%IH; [|by right; right].
  destruct st as [[stages seen] flag]. unfold push_stage in Hs.
  case_bool_decide; simpl in *; set_solver.
Qed.

Lemma linear_work_stages_source map stage :
  stage ∈ linear_work_stages map → stage_source map (reachable_node_ids map) stage.
Proof.
  unfold linear_work_stages. induction (reachable_node_ids map) as [|id l IH] using rev_ind;
    [set_solver|].
  rewrite foldl_snoc. destruct (foldl _ _ l) as [[stages seen] flag] eqn:E. simpl in IH.
  assert (Hold : stage ∈ stages → stage_source map (l ++ [id]) stage).
  { intros (x & n & ? & ? & ?)%IH. exists x, n. set_solver. }
  unfold work_stage_step. destruct (node_by_id map id) as [n|] eqn:Hn; [|exact Hold].
  case_match; [|exact Hold].
  intros [Hs|Hs]%push_stages_elem; [by apply Hold|]. exists id, n. set_solver.
Qed.

(** * Theorems *)

(** The breadth-first search lists once each exactly the known node ids
    reachable from the start node along allowed route edges. *)
Theorem reachable_is_exact map start :
  List.find (λ node, NodeKind.eqb (node_kind node) NodeKind.Start) (map_nodes map) = Some start →
  NoDup (reachable_node_ids map) ∧
  ∀ id, id ∈ reachable_node_ids map ↔
    id ∈ node_ids map ∧ reaches (route_successors map) (node_id start) id.
Proof. apply reachable_node_ids_spec. Qed.

(** Work stages are listed once per occurrence; each is a station node of
    the map, with a canonical apparatus id when it is physical, and comes from a
    reachable node; no reachable machine with a canonical id is missing. *)
Theorem linear_work_stages_correct map :
  NoDup (occurrence_identity <$> linear_work_stages map) ∧
  (∀ stage, stage ∈ linear_work_stages map →
     stage_of_map map stage ∧ stage_source map (reachable_node_ids map) stage) ∧
  (∀ id n, id ∈ reachable_node_ids map → node_by_id map id = Some n →
     is_some (canonical_apparatus_identity n) = true →
     ∃ stage, stage ∈ linear_work_stages map ∧ occurrence_identity stage = trim id).
Proof.
  destruct (linear_work_stages_inv map) as [Hnd Hall]. split_and!; [done| |].
  - intros s Hs. split; [by apply Hall|by apply linear_work_stages_source].
  - intros id n Hid Hn Hc. pose proof (node_by_id_elem _ _ _ Hn) as [Hin <-].
    destruct (canonical_apparatus_identity n) as [c|] eqn:Ec; [|done].
    pose proof (canonical_identity_valid _ _ Ec) as [Ha Hvalid].
    assert (∃ s, s ∈ stages_for_node map n ∧ stage_node_id s = node_id n) as (s & Hs & Hsid).
    { unfold stages_for_node. rewrite Ha, Ec.
      destruct (is_unassigned_alternative_apparatus n) eqn:Hu; simpl;
        [|eexists; split; [by left|done]].
      exists (alternative_stage n). split; [|done]. apply list_elem_of_fmap_2.
      apply filterb_elem. split; [done|]. unfold alternative_candidate.
      rewrite Ha, String.eqb_refl. simpl.
      unfold is_unassigned_alternative_apparatus in Hu. rewrite Ha in Hu. simpl in Hu.
      unfold canonical_apparatus_identity, station_identity in Ec. rewrite Ha in Ec.
      apply negb_true_iff in Hu. rewrite Hu in Ec. simpl in Ec. by destruct (ApparatusId_new _). }
    destruct (linear_work_stages_complete map (node_id n) n s Hid Hn Ha Hs) as (s' & ? & Ho).
    exists s'. split; [done|]. rewrite Ho. unfold occurrence_identity. by rewrite Hsid.
Qed.

(** On maps with canonical node ids and no alternative groups, a physical
    stage is a next stage of another exactly when the other is a previous stage
    of it, although the two are computed by separate forward and backward
    searches. *)
Theorem next_and_previous_are_converse map s t :
  plain_map map →
  s ∈ linear_work_stages map → physical s → t ∈ linear_work_stages map → physical t →
  t ∈ next_work_stages_for_node map (stage_node_id s) ↔
  s ∈ previous_work_stages_for_node map (stage_node_id t).
Proof.
  intros Hplain Hs Hps Ht Hpt. split.
  - intros H. by apply (adjacent_reverse map Hplain false).
  - intros H. by apply (adjacent_reverse map Hplain true).
Qed.

(** The last physical stage is the one without a physical successor. *)
Theorem final_stage_has_no_successor map node :
  is_final_work_stage_node map node = true ↔
  (∃ s, s ∈ linear_work_stages map ∧ physical s ∧ trim (stage_node_id s) = trim node) ∧
  ∀ t, t ∉ next_work_stages_for_node map node.
Proof.
  unfold is_final_work_stage_node, next_work_stage_for_node.
  rewrite andb_true_iff, existsb_elem. split.
  - intros [(s & Hs & [Hid%String.eqb_eq Hp]%andb_true_iff) Hn]. split.
    + exists s. split_and!; try done. unfold physical. by destruct (stage_apparatus_id s).
    + intros t Ht. destruct (next_work_stages_for_node map node); [set_solver|done].
  - intros [(s & Hs & [a Ha] & Hid) Hn]. split.
    + exists s. split; [done|]. by rewrite Ha, Hid, String.eqb_refl.
    + destruct (next_work_stages_for_node map node) as [|t l]; [done|].
      exfalso. apply (Hn t). set_solver.
Qed.

(** Matching of stage occurrences is reflexive on non-blank ids, symmetric
    and transitive, although the code tests the two sides differently. *)
Theorem stage_node_match_equivalence map :
  (∀ a, blank a = false → stage_node_ids_match_for_map map a a = true) ∧
  (∀ a b, stage_node_ids_match_for_map map a b = stage_node_ids_match_for_map map b a) ∧
  (∀ a b c, stage_node_ids_match_for_map map a b = true →
            stage_node_ids_match_for_map map b c = true →
            stage_node_ids_match_for_map map a c = true).
Proof.
  unfold stage_node_ids_match_for_map, blank. split_and!.
  - intros a Ha. rewrite Ha. simpl. by rewrite String.eqb_refl.
  - intros a b. rewrite (orb_comm (is_empty (trim b))). case_match; [done|].
    rewrite (String.eqb_sym (trim b)). case_match; [done|].
    destruct (find_trimmed map (trim a)) as [na|], (find_trimmed map (trim b)) as [nb|]; try done;
      [|by case_match..].
    rewrite (String.eqb_sym (trim (alternative_group_id nb))).
    destruct (trim (alternative_group_id na) =s trim (alternative_group_id nb)) eqn:E; simpl;
      [apply String.eqb_eq in E; rewrite E|by repeat case_match].
    destruct (is_apparatus na), (is_apparatus nb); simpl; try done; try by case_match.
    case_match; [done|]. apply andb_comm.
  - intros a b c Hab Hbc.
    destruct (is_empty (trim a)), (is_empty (trim b)), (is_empty (trim c)); try done.
    simpl in *. destruct (trim a =s trim c) eqn:Eac; [done|].
    destruct (trim a =s trim b) eqn:Eab; [apply String.eqb_eq in Eab; rewrite Eab in *;
      by rewrite Eac in Hbc|].
    destruct (trim b =s trim c) eqn:Ebc; [apply String.eqb_eq in Ebc; by rewrite Ebc in *|].
    destruct (find_trimmed map (trim a)) as [na|]; [|done].
    destruct (find_trimmed map (trim b)) as [nb|]; [|by case_match].
    destruct (find_trimmed map (trim c)) as [nc|]; [|by repeat case_match].
    repeat case_match; try done; breflect; try congruence; by apply andb_true_iff.
Qed.
