(* ===== verification/Projection.v ===== *)
(** Read projections of the chain ([src/core/production_map/chain/projection.rs]).

    A [ProjectionMap] memoizes the stages and the neighbours of one immutable
    map behind interior mutability.  The caches are modelled as explicit state;
    the theorems show that they are invisible: whatever was asked before, a
    cached projection answers as the reference path does, and the neighbour
    cache never grows beyond two entries per node.  The fingerprint and the WIP
    routes are cached in the same record; the resolver that fills them is in
    [WipRoute]. *)
From Stdlib Require Import Ascii.
From S2P Require Import Prelude RustStr F64 Errors Identity QueueState OrderLayout MapDefinition Formula Compiler GraphFacts Bfs Chain.

(** [wip_route.rs]: where a roll goes next. *)
Record WipInputRoute := {
  route_source_stage_node_id : string;
  route_stage_node_id : string;
  route_consumer_apparatus_ids : list string;
  route_map_fingerprint : string;
  route_remapped : bool;
}.

Record ProjectionMap := {
  proj_map : ProductionMapDefinition;
  proj_cached : bool;
  proj_stages : option (list ChainStage);
  proj_adjacent : gmap (string * bool) (list ChainStage);
  proj_fingerprint : option string;
  (** Route results by serialized route class. *)
  proj_routes : gmap string (pm_result WipInputRoute);
}.
#[global] Instance ProjectionMap_rebuild : Rebuild ProjectionMap := λ r, {|
  proj_map := proj_map r; proj_cached := proj_cached r; proj_stages := proj_stages r;
  proj_adjacent := proj_adjacent r; proj_fingerprint := proj_fingerprint r;
  proj_routes := proj_routes r |}.

Definition projection_new (map : ProductionMapDefinition) : ProjectionMap :=
  {| proj_map := map; proj_cached := true; proj_stages := None; proj_adjacent := ∅;
     proj_fingerprint := None; proj_routes := ∅ |}.

Definition projection_reference (map : ProductionMapDefinition) : ProjectionMap :=
  (projection_new map) <| proj_cached := false |>.

(** [ProjectionMap::stages]. *)
Definition stages (p : ProjectionMap) : ProjectionMap * list ChainStage :=
  if negb (proj_cached p) then (p, linear_work_stages (proj_map p))
  else
    let value := match proj_stages p with
                 | Some value => value
                 | None => linear_work_stages (proj_map p)
                 end in
    (p <| proj_stages := Some value |>, value).

Definition work_stage (p : ProjectionMap) (station node : string)
  : ProjectionMap * option ChainStage :=
  let '(p, s) := stages p in
  (p, work_stage_for_station_with_stages (proj_map p) station node s).

Definition adjacent_stages (p : ProjectionMap) (node : string) (previous : bool)
  : ProjectionMap * list ChainStage :=
  let key := (trim node, previous) in
  match (if proj_cached p then proj_adjacent p !! key else None) with
  | Some value => (p, value)
  | None =>
      let '(p, s) := stages p in
      let value :=
        adjacent_physical_stages_for_node_with_stages (proj_map p) node previous s in
      if proj_cached p &&
         existsb (λ n, trim (node_id n) =s trim node) (map_nodes (proj_map p))
      then (p <| proj_adjacent := <[key := value]> (proj_adjacent p) |>, value)
      else (p, value)
  end.

Definition previous_stages (p : ProjectionMap) (node : string) := adjacent_stages p node true.
Definition next_stages (p : ProjectionMap) (node : string) := adjacent_stages p node false.

Definition previous_stations (p : ProjectionMap) (station : string)
  : ProjectionMap * list string :=
  let '(p, s) := stages p in
  (p, previous_work_stage_stations_with_stages (proj_map p) station s).

Definition previous_unavailable (p : ProjectionMap) (station : string) : ProjectionMap * bool :=
  let '(p, s) := stages p in
  (p, previous_stage_resolution_is_unavailable_with_stages (proj_map p) station s).

Definition ready_for_stage (p : ProjectionMap) (order_id node : string)
    (states : station_states) : ProjectionMap * bool :=
  let '(p, s) := previous_stages p node in
  (p, match (s ← head s; stage_apparatus_id s) with
      | None => true
      | Some id => completed_at id order_id states
      end).

(** * Queries *)

Inductive query :=
  | AskStages
  | AskWorkStage (station node : string)
  | AskAdjacent (node : string) (previous : bool)
  | AskPreviousStations (station : string)
  | AskUnavailable (station : string)
  | AskReady (order_id node : string) (states : station_states).

Inductive answer :=
  | Stages (s : list ChainStage)
  | Stage (s : option ChainStage)
  | Stations (s : list string)
  | Flag (b : bool).

Definition ask (q : query) (p : ProjectionMap) : ProjectionMap * answer :=
  match q with
  | AskStages => let '(p, s) := stages p in (p, Stages s)
  | AskWorkStage station node => let '(p, s) := work_stage p station node in (p, Stage s)
  | AskAdjacent node previous => let '(p, s) := adjacent_stages p node previous in (p, Stages s)
  | AskPreviousStations station => let '(p, s) := previous_stations p station in (p, Stations s)
  | AskUnavailable station => let '(p, b) := previous_unavailable p station in (p, Flag b)
  | AskReady order_id node states =>
      let '(p, b) := ready_for_stage p order_id node states in (p, Flag b)
  end.

Fixpoint ask_all (qs : list query) (p : ProjectionMap) : ProjectionMap * list answer :=
  match qs with
  | [] => (p, [])
  | q :: qs =>
      let '(p, a) := ask q p in
      let '(p, l) := ask_all qs p in (p, a :: l)
  end.

(** The functions of [chain/mod.rs] the queries stand for. *)
Definition chain_answer (map : ProductionMapDefinition) (q : query) : answer :=
  match q with
  | AskStages => Stages (linear_work_stages map)
  | AskWorkStage station node => Stage (work_stage_for_station map station node)
  | AskAdjacent node previous => Stages (adjacent_physical_stages_for_node map node previous)
  | AskPreviousStations station => Stations (previous_work_stage_stations map station)
  | AskUnavailable station => Flag (previous_stage_resolution_is_unavailable map station)
  | AskReady order_id node states => Flag (order_ready_for_stage_node map order_id node states)
  end.

(** * The caches are invisible *)

Record cache_ok (p : ProjectionMap) : Prop := {
  ok_stages : ∀ s, proj_stages p = Some s → s = linear_work_stages (proj_map p);
  ok_adjacent : ∀ node previous s, proj_adjacent p !! (node, previous) = Some s →
    s = adjacent_physical_stages_for_node (proj_map p) node previous ∧
    node ∈ trim <$> node_ids (proj_map p);
}.

(** Neighbours are looked up by the trimmed node id. *)
Lemma adjacent_trim map node previous s :
  adjacent_physical_stages_for_node_with_stages map (trim node) previous s =
  adjacent_physical_stages_for_node_with_stages map node previous s.
Proof. unfold adjacent_physical_stages_for_node_with_stages. by rewrite trim_idemp. Qed.

Lemma stages_ok p :
  cache_ok p →
  (stages p).2 = linear_work_stages (proj_map p) ∧
  proj_map (stages p).1 = proj_map p ∧ proj_cached (stages p).1 = proj_cached p ∧
  cache_ok (stages p).1.
Proof.
  intros [Hs Ha]. unfold stages. destruct (proj_cached p) eqn:Hc; simpl; [|by split_and!].
  assert (match proj_stages p with Some v => v | None => linear_work_stages (proj_map p) end
    = linear_work_stages (proj_map p)) as Heq by (destruct (proj_stages p); [by apply Hs|done]).
  rewrite Heq. split_and!; [done..|]. split; simpl; [by intros ? [= <-]|exact Ha].
Qed.

Lemma adjacent_stages_ok p node previous :
  cache_ok p →
  (adjacent_stages p node previous).2 =
    adjacent_physical_stages_for_node (proj_map p) node previous ∧
  proj_map (adjacent_stages p node previous).1 = proj_map p ∧
  cache_ok (adjacent_stages p node previous).1.
Proof.
  intros Hok. unfold adjacent_stages.
  destruct (if proj_cached p then _ else None) as [v|] eqn:Hhit.
  { simpl. destruct (proj_cached p); [|done]. split_and!; [|done|done].
    apply (ok_adjacent _ Hok) in Hhit as [-> _].
    unfold adjacent_physical_stages_for_node. by rewrite adjacent_trim. }
  destruct (stages_ok p Hok) as (Hs & Hm & Hc & Hok').
  destruct (stages p) as [p' s] eqn:Hst. simpl in *. subst s.
  destruct (proj_cached p' && _) eqn:Hstore; simpl; rewrite Hm; [|by split_and!].
  split_and!; [done..|]. split; simpl; [intros s ->%(ok_stages _ Hok'); by rewrite Hm|].
  intros n b s. destruct (decide ((trim node, previous) = (n, b))) as [[= <- <-]|Hne].
  - rewrite lookup_insert_eq. intros [= <-]. split.
    + unfold adjacent_physical_stages_for_node. by rewrite adjacent_trim.
    + apply andb_true_iff in Hstore as [_ Hstore]. rewrite Hm in Hstore.
      apply existsb_elem in Hstore as (m & Hin & <-%String.eqb_eq).
      by apply list_elem_of_fmap_2, list_elem_of_fmap_2.
  - rewrite lookup_insert_ne by done. intros Hl%(ok_adjacent _ Hok'). by rewrite Hm in Hl.
Qed.

Lemma ask_ok q p :
  cache_ok p →
  (ask q p).2 = chain_answer (proj_map p) q ∧ proj_map (ask q p).1 = proj_map p ∧
  cache_ok (ask q p).1.
Proof.
  intros Hok. pose proof (stages_ok p Hok) as (Hs & Hm & _ & Hok').
  destruct q; unfold ask, work_stage, previous_stations, previous_unavailable, ready_for_stage,
    previous_stages; simpl.
  1,2,4,5: destruct (stages p) as [p' s] eqn:E; simpl in *; subst s; by rewrite Hm.
  - destruct (adjacent_stages_ok p node previous Hok) as (Ha & Hm' & ?).
    destruct (adjacent_stages p node previous); simpl in *. by subst.
  - destruct (adjacent_stages_ok p node true Hok) as (Ha & Hm' & ?).
    destruct (adjacent_stages p node true) as [p' s]; simpl in *. subst s.
    split_and!; [|done..]. f_equal. unfold order_ready_for_stage_node, previous_work_stage_for_node.
    by destruct (head _).
Qed.

Lemma ask_all_ok qs p :
  cache_ok p →
  (ask_all qs p).2 = chain_answer (proj_map p) <$> qs ∧ proj_map (ask_all qs p).1 = proj_map p ∧
  cache_ok (ask_all qs p).1.
Proof.
  revert p. induction qs as [|q qs IH]; intros p Hok; simpl; [done|].
  destruct (ask_ok q p Hok) as (Ha & Hm & Hok'). destruct (ask q p) as [p' a]; simpl in *.
  destruct (IH p' Hok') as (Hl & Hm' & Hok''). destruct (ask_all qs p') as [p'' l]; simpl in *.
  subst. split_and!; [by rewrite Hm|congruence|done].
Qed.

Lemma new_ok map : cache_ok (projection_new map).
Proof. split; simpl; [done|]. intros n b s. by rewrite lookup_empty. Qed.

Lemma reference_ok map : cache_ok (projection_reference map).
Proof. split; simpl; [done|]. intros n b s. by rewrite lookup_empty. Qed.

(** * Theorems *)

(** Any sequence of queries gets the same answers from a cached read
    projection and from the reference path, namely those of the chain functions
    on the map: the caches are invisible. *)
Theorem projection_refines_chain map qs :
  (ask_all qs (projection_new map)).2 = chain_answer map <$> qs ∧
  (ask_all qs (projection_reference map)).2 = chain_answer map <$> qs.
Proof.
  destruct (ask_all_ok qs _ (new_ok map)) as (-> & _).
  by destruct (ask_all_ok qs _ (reference_ok map)) as (-> & _).
Qed.

(** Whatever is asked of a cached projection, also about unknown nodes, its
    cache of neighbours has at most two entries per node of the map. *)
Theorem projection_cache_is_bounded map qs :
  size (proj_adjacent (ask_all qs (projection_new map)).1) ≤ 2 * length (map_nodes map).
Proof.
  destruct (ask_all_ok qs _ (new_ok map)) as (_ & Hm & Hok). simpl in Hm.
  destruct (ask_all qs (projection_new map)) as [p l]. simpl in *.
  set (keys := (λ id, (trim id, true)) <$> node_ids map).
  set (keys' := (λ id, (trim id, false)) <$> node_ids map).
  assert (elements (dom (proj_adjacent p)) ⊆+ keys ++ keys') as Hsub%submseteq_length.
  { apply NoDup_submseteq; [apply NoDup_elements|].
    intros [n b] [s Hs]%elem_of_elements%elem_of_dom. apply (ok_adjacent _ Hok) in Hs as [_ Hn].
    rewrite Hm in Hn. apply list_elem_of_fmap in Hn as (id & -> & Hid).
    apply elem_of_app. subst keys keys'.
    destruct b; [left|right]; by apply (list_elem_of_fmap_2 (λ id, (trim id, _))). }
  rewrite <-size_dom. unfold size, set_size. simpl. etrans; [exact Hsub|].
  subst keys keys'. unfold node_ids. rewrite length_app, !length_fmap. lia.
Qed.
