(* ===== verification/SequenceMove.v ===== *)
(** Editing the order of an apparatus queue.

    Models [src/core/production_map/sequence_move.rs] (the move command, its
    optimistic version check and the delta sent to clients) with
    [nearest_allowed_sequence] and [validate_active_sequence_barrier] of
    [queue/support.rs] (an active order may not be overtaken).

    A version is the SHA-256 of the serialized state; both come from other
    packages, so the version function is a parameter.  [unwrap] of an absent
    position panics. *)
From Stdlib Require Import Ascii.
From S2P Require Import Prelude RustStr F64 Errors Identity QueueState.

Record SequenceMove := {
  move_apparatus : string;
  move_order_id : string;
  move_before_order_id : option string;
  move_after_order_id : option string;
  move_expected_version : string;
  move_idempotency_key : string;
}.

Definition anchor_invalid (order_id id : string) : bool :=
  blank id || (id <>s trim id) || (id =s order_id).

Definition SequenceMove_validate (m : SequenceMove) : pm_result unit :=
  if negb (is_canonical_apparatus_id (move_apparatus m)) ||
     blank (move_order_id m) || (move_order_id m <>s trim (move_order_id m)) ||
     negb (Nat.eqb (String.length (move_expected_version m)) 64) ||
     negb (all_bytes is_ascii_hexdigit (move_expected_version m)) ||
     blank (move_idempotency_key m) ||
     (200 <? String.length (move_idempotency_key m)) ||
     (is_some (move_before_order_id m) && is_some (move_after_order_id m)) ||
     existsb (anchor_invalid (move_order_id m))
       (option_list (move_before_order_id m) ++ option_list (move_after_order_id m))
  then Err QueueReorderInvalid else Ok tt.

(** The move operation of a live delta; the service adds the versions. *)
Record SequenceDelta := {
  delta_id : string;
  delta_before_id : option string;
  delta_after_id : option string;
  delta_base_version : string;
  delta_version : string;
}.

Definition compute_canonical_sequence_delta (old_sequence new_sequence : list string)
    (moved : string) : option SequenceDelta :=
  if bool_decide (old_sequence = new_sequence) then None
  else
    new_idx ← position (λ id, id =s moved) new_sequence;
    if bool_decide (position (λ id, id =s moved) old_sequence = Some new_idx) then None
    else
      Some {| delta_id := moved;
              delta_before_id := new_sequence !! S new_idx;
              delta_after_id := if (0 <? new_idx) then new_sequence !! pred new_idx else None;
              delta_base_version := "";
              delta_version := "" |}.

(** How a client applies the operation to its own list. *)
Definition apply_client_delta (initial : list string) (op : SequenceDelta) : list string :=
  let id := delta_id op in
  let result := List.filter (λ x, x <>s id) initial in
  match (after ← delta_after_id op; position (λ x, x =s after) result) with
  | Some idx => insert_at (S idx) id result
  | None =>
      match (before ← delta_before_id op; position (λ x, x =s before) result) with
      | Some idx => insert_at idx id result
      | None => insert_at 0 id result
      end
  end.

(** * The active order barrier *)

(** [current_positions.get(id)]: the first index of the trimmed id. *)
Definition trimmed_position (sequence : list string) (id : string) : option nat :=
  position (λ x, trim x =s id) sequence.

(** [prefix_max_current_position]. *)
Fixpoint prefix_max_from (current next : list string) (max_position : option nat)
    (prefix_is_known : bool) : list (option nat) :=
  match next with
  | [] => []
  | id :: next =>
      let '(max_position, prefix_is_known) :=
        match trimmed_position current (trim id) with
        | Some p =>
            (Some (match max_position with Some m => Nat.max m p | None => p end), prefix_is_known)
        | None => (max_position, false)
        end in
      (if prefix_is_known : bool then max_position else None)
        :: prefix_max_from current next max_position prefix_is_known
  end.

(** The loop body over [(order_id, state)]. *)
Definition barrier_entry (current next : list string) (frozen : gset string)
    (entry : string * string) (_ : unit) : run_result unit :=
  match OrderState.parse entry.2 with
  | None => Ok tt
  | Some parsed =>
      if negb (OrderState.is_active parsed) then Ok tt
      else
        let order_id := trim entry.1 in
        if bool_decide (order_id ∈ frozen) then Ok tt
        else match trimmed_position next order_id with
        | None => Err (Fail QueueActionNotAllowed)
        | Some next_index =>
            let current_index := default 0 (trimmed_position current order_id) in
            if (current_index <? next_index) then Err (Fail QueueActionNotAllowed)
            else if (0 <? next_index) then
              limit ← expect (prefix_max_from current next None true !! pred next_index);
              match limit with
              | Some max_position =>
                  check (negb (max_position <? current_index)) (Fail QueueActionNotAllowed)
              | None => Err (Fail QueueActionNotAllowed)
              end
            else Ok tt
        end
  end.

Definition validate_active_sequence_barrier (current next : list string)
    (states : gmap string string) (frozen : gset string) : run_result unit :=
  for_each (barrier_entry current next frozen) (btree_entries states) tt.

(** * The nearest allowed place *)

Definition abs_diff (a b : nat) : nat := (a - b) + (b - a).

(** The order of the slots: distance to the target, then to the original
    place; the sort is stable on ascending indices, so the index decides ties. *)
Definition slot_key (target original i : nat) : nat * nat * nat :=
  (abs_diff i target, abs_diff i original, i).

Definition slot_le (target original : nat) (i j : nat) : Prop :=
  let '(a1, b1, c1) := slot_key target original i in
  let '(a2, b2, c2) := slot_key target original j in
  a1 < a2 ∨ (a1 = a2 ∧ (b1 < b2 ∨ (b1 = b2 ∧ c1 ≤ c2))).

Global Instance slot_le_dec target original : RelDecision (slot_le target original).
Proof. intros i j. unfold slot_le, slot_key. apply _. Defined.

Definition sorted_slots (n target original : nat) : list nat :=
  merge_sort (slot_le target original) (seq 0 (S n)).

(** The first slot whose candidate passes the barrier. *)
Fixpoint first_allowed (current remaining : list string) (moved : string)
    (states : gmap string string) (frozen : gset string) (slots : list nat)
  : run_result (list string) :=
  match slots with
  | [] => Err (Fail QueueActionNotAllowed)
  | index :: slots =>
      let candidate := insert_at index moved remaining in
      match validate_active_sequence_barrier current candidate states frozen with
      | Ok _ => Ok candidate
      | Err Panic => Err Panic
      | Err (Fail _) => first_allowed current remaining moved states frozen slots
      end
  end.

Definition nearest_allowed_sequence (current requested : list string) (moved : string)
    (states : gmap string string) (frozen : gset string) : run_result (list string) :=
  match position (λ id, id =s moved) requested, position (λ id, id =s moved) current with
  | Some requested_index, Some original_index =>
      if negb (Nat.eqb (size (list_to_set requested : gset string)) (length requested)) ||
         existsb (λ id, negb (bool_decide (id ∈ current))) requested
      then Err (Fail QueueActionNotAllowed)
      else
        let remaining := delete original_index current in
        target_index ←
          match requested !! S requested_index with
          | Some next_id => expect (position (λ id, id =s next_id) remaining)
          | None =>
              if (0 <? requested_index) then
                previous ← expect (requested !! pred requested_index);
                i ← expect (position (λ id, id =s previous) remaining);
                Ok (S i)
              else Ok original_index
          end;
        first_allowed current remaining moved states frozen
          (sorted_slots (length remaining) target_index original_index)
  | _, _ => Err (Fail QueueActionNotAllowed)
  end.

(** * The state of one apparatus queue *)

Record SequenceMoveState := {
  seq_apparatus : string;
  seq_order_ids : list string;
  seq_states : gmap string string;
  seq_frozen : gset string;
}.

Definition from_visible (apparatus_id : string) (visible stored : list string)
    (raw_states : gmap string string) (frozen preflight_orders : gset string)
  : SequenceMoveState :=
  let frozen : gset string :=
    list_to_set (List.filter (λ id, bool_decide (id ∈ frozen) ||
      is_some_and (raw_states !! id) (λ state, state =s "frozen")) visible) in
  let order_ids := effective_apparatus_sequence_excluding stored visible frozen in
  {| seq_apparatus := apparatus_id;
     seq_order_ids := order_ids;
     seq_states :=
       foldl (λ states id,
         let state := default "pending" (raw_states !! id) in
         <[id := if bool_decide (id ∈ preflight_orders) then "print_preflight" else state]> states)
         ∅ order_ids;
     seq_frozen := frozen |}.

Record SequenceMoveResult := {
  result_order_ids : list string;
  result_version : string;
  result_adjusted : bool;
  result_revision : option Z;
  result_event : option SequenceDelta;
}.

(** [SequenceMoveState::version]. *)
Class VersionHash := { version : SequenceMoveState → string }.

Section apply.
Context `{VersionHash}.

Definition with_order_ids (st : SequenceMoveState) (order_ids : list string)
  : SequenceMoveState :=
  {| seq_apparatus := seq_apparatus st; seq_order_ids := order_ids;
     seq_states := seq_states st; seq_frozen := seq_frozen st |}.

(** The index the command asks for, in the list without the moved order. *)
Definition requested_target (command : SequenceMove) (rest : list string) : pm_result nat :=
  match move_before_order_id command with
  | Some id => ok_or (position (λ c, c =s id) rest) QueueReorderConflict
  | None =>
      match move_after_order_id command with
      | Some id => S <$> ok_or (position (λ c, c =s id) rest) QueueReorderConflict
      | None => Ok (length rest)
      end
  end.

(** [map_err(|_| QueueReorderBlocked)]: every error but a panic. *)
Definition blocked {A} (r : run_result A) : run_result A :=
  match r with
  | Ok a => Ok a
  | Err Panic => Err Panic
  | Err (Fail _) => Err (Fail QueueReorderBlocked)
  end.

Definition apply_move (st : SequenceMoveState) (command : SequenceMove)
  : run_result SequenceMoveResult :=
  _ ← lift (SequenceMove_validate command);
  if move_apparatus command <>s seq_apparatus st then Err (Fail QueueReorderInvalid)
  else if bool_decide (move_order_id command ∈ seq_frozen st) then Err (Fail QueueReorderFrozen)
  else if move_expected_version command <>s version st then Err (Fail QueueReorderConflict)
  else
    original ← lift (ok_or (position (λ id, id =s move_order_id command) (seq_order_ids st))
                       QueueReorderConflict);
    let rest := delete original (seq_order_ids st) in
    target ← lift (requested_target command rest);
    let requested := insert_at target (move_order_id command) rest in
    order_ids ← blocked (nearest_allowed_sequence (seq_order_ids st) requested
                           (move_order_id command) (seq_states st) (seq_frozen st));
    let next := with_order_ids st order_ids in
    Ok {| result_order_ids := order_ids;
          result_version := version next;
          result_adjusted := bool_decide (order_ids ≠ requested);
          result_revision := None;
          result_event :=
            (λ op, {| delta_id := delta_id op; delta_before_id := delta_before_id op;
                      delta_after_id := delta_after_id op;
                      delta_base_version := move_expected_version command;
                      delta_version := version next |}) <$>
            compute_canonical_sequence_delta (seq_order_ids st) order_ids
              (move_order_id command) |}.
End apply.
