(* ===== verification/SequenceFacts.v ===== *)
(** Correctness of queue editing: the barrier check says exactly that nobody
    overtakes an active order, a move keeps the other orders in place and lands
    on the allowed slot nearest to the requested one, and the delta sent to
    clients reproduces the new sequence. *)
From Stdlib Require Import Ascii.
From S2P Require Import Prelude RustStr F64 Errors Identity QueueState QueueFacts SequenceMove.

(** * Positions *)

Definition trimmed (l : list string) : Prop := ∀ x, x ∈ l → trim x = x.

Lemma index_of l i (a : string) :
  NoDup l → position (λ y, y =s a) l = Some i ↔ l !! i = Some a.
Proof.
  intros Hnd. split; [|by apply position_nodup].
  intros [(x & Hx & ->%String.eqb_eq) _]%position_Some. done.
Qed.

Lemma trimmed_position_eq l a :
  trimmed l → trimmed_position l a = position (λ y, y =s a) l.
Proof.
  unfold trimmed_position, trimmed. induction l as [|x l IH]; intros Hl; [done|]. simpl.
  rewrite Hl by set_solver. by rewrite IH by set_solver.
Qed.

Lemma delete_filter l i (x : string) :
  NoDup l → l !! i = Some x → List.filter (λ y, y <>s x) l = delete i l.
Proof.
  revert i. induction l as [|y l IH]; intros i Hnd Hi; [done|].
  apply NoDup_cons in Hnd as [Hy Hnd]. destruct i as [|i]; simpl in *.
  - simplify_eq. rewrite String.eqb_refl. simpl. clear IH Hnd. revert Hy.
    induction l as [|z l IH]; simpl; [done|]. rewrite not_elem_of_cons. intros [Hne Hx].
    apply not_eq_sym, String.eqb_neq in Hne. rewrite Hne. simpl. by rewrite IH.
  - destruct (String.eqb_spec y x) as [->|]; simpl; [|by rewrite (IH i)].
    destruct Hy. by eapply list_elem_of_lookup_2.
Qed.

Lemma insert_delete l i (x : string) : l !! i = Some x → insert_at i x (delete i l) = l.
Proof.
  intros Hi. unfold insert_at. rewrite delete_take_drop.
  pose proof (lookup_lt_Some _ _ _ Hi).
  rewrite take_app_le, drop_app_ge by (rewrite length_take; lia).
  rewrite length_take, Nat.min_l, Nat.sub_diag by lia. rewrite take_take, Nat.min_id.
  simpl. by apply take_drop_middle.
Qed.

(** * The barrier *)

(** [b] stands before [a]. *)
Definition ahead (l : list string) (b a : string) : Prop :=
  ∃ i j, l !! i = Some b ∧ l !! j = Some a ∧ i < j.

(** No order overtakes [a] between the two sequences. *)
Definition not_overtaken (current next : list string) (a : string) : Prop :=
  a ∈ next ∧ ∀ b, ahead next b a → ahead current b a.

(** The orders the barrier protects. *)
Definition protected (states : gmap string string) (frozen : gset string) (a : string) : Prop :=
  ∃ k v s, states !! k = Some v ∧ trim k = a ∧ OrderState.parse v = Some s ∧
    OrderState.is_active s = true ∧ a ∉ frozen.

Lemma prefix_max_spec current next acc known k :
  k < length next →
  ∃ v, prefix_max_from current next acc known !! k = Some v ∧
    ∀ bound, (match v with Some m => m < bound | None => False end) ↔
      known = true ∧ (∀ m, acc = Some m → m < bound) ∧
      ∀ i x, i ≤ k → next !! i = Some x →
        ∃ p, trimmed_position current (trim x) = Some p ∧ p < bound.
Proof.
  revert acc known k. induction next as [|x next IH]; intros acc known k Hk; simpl in *; [lia|].
  set (st := match trimmed_position current (trim x) with
    | Some p => (Some (match acc with Some m => Nat.max m p | None => p end), known)
    | None => (acc, false) end).
  assert (Hst : ∀ bound, (st.2 = true ∧ ∀ m, st.1 = Some m → m < bound) ↔
    known = true ∧ (∀ m, acc = Some m → m < bound) ∧
    ∃ p, trimmed_position current (trim x) = Some p ∧ p < bound).
  { intros bound. subst st. destruct (trimmed_position current (trim x)) as [p|]; simpl;
      [|naive_solver]. destruct acc as [m|]; simpl; split.
    - intros [? Hm]. specialize (Hm _ eq_refl). split_and!; [done| |exists p; split; [done|lia]].
      intros ? [= <-]. lia.
    - intros (? & Hm & p' & [= <-] & ?). specialize (Hm _ eq_refl). split; [done|].
      intros ? [= <-]. lia.
    - intros [? Hm]. specialize (Hm _ eq_refl). naive_solver.
    - intros (? & _ & p' & [= <-] & ?). split; [done|]. by intros ? [= <-]. }
  destruct st as [acc' known'] eqn:Est. destruct k as [|k]; simpl.
  - eexists; split; [done|]. intros bound. specialize (Hst bound). simpl in Hst.
    assert ((match (if known' then acc' else None) with Some m => m < bound | None => False end) ↔
      known' = true ∧ ∀ m, acc' = Some m → m < bound) as ->.
    { destruct known'; [|naive_solver].
      assert (is_Some acc') as [m ->].
      { subst st. destruct (trimmed_position _ _); simplify_eq; eauto. }
      naive_solver. }
    rewrite Hst. split.
    + intros (? & ? & Hp). split_and!; [done..|]. intros i y Hi Hy.
      assert (i = 0) as -> by lia. by simplify_eq/=.
    + intros (? & ? & Hp). split_and!; [done..|]. by apply (Hp 0 x).
  - destruct (IH acc' known' k) as (v & Hv & Hspec); [lia|]. exists v. split; [done|].
    intros bound. rewrite Hspec. specialize (Hst bound). simpl in Hst. split.
    + intros (Hk' & Hacc & Hall). destruct Hst as [Hst _].
      destruct Hst as (? & ? & Hp); [done|]. split_and!; [done..|].
      intros [|i] y Hi Hy; simpl in Hy; [by simplify_eq|]. eapply Hall; [|done]. lia.
    + intros (? & ? & Hall). destruct Hst as [_ Hst]. destruct Hst as (? & ?).
      { split_and!; [done..|]. apply (Hall 0 x); [lia|done]. }
      split_and!; [done..|]. intros i y Hi Hy. apply (Hall (S i) y); [lia|done].
Qed.

Section barrier.
Context (current next : list string).
Context (Hct : trimmed current) (Hcn : NoDup current) (Hnt : trimmed next) (Hnn : NoDup next).

Lemma next_index_le a i c :
  next !! i = Some a → current !! c = Some a →
  (∀ b, ahead next b a → ahead current b a) → i ≤ c.
Proof using Hcn Hnn.
  intros Hi Hc Hall. assert (take i next ⊆+ take c current) as Hsub%submseteq_length.
  { apply NoDup_submseteq; [by eapply sublist_NoDup; [|apply sublist_take]|].
    intros b (k & Hk & Hlt)%elem_of_take.
    destruct (Hall b) as (k' & c' & Hk' & Hc' & Hlt').
    { exists k, i. split_and!; [done|done|lia]. }
    assert (c' = c) as -> by (by eapply (NoDup_lookup current)).
    apply elem_of_take. by exists k'. }
  rewrite !length_take in Hsub. apply lookup_lt_Some in Hi, Hc. lia.
Qed.

(** The positions test of the code says that nobody before [a] in [next]
    came from behind it. *)
Lemma prefix_test a i c :
  next !! i = Some a → current !! c = Some a → 0 < i →
  (∃ m, prefix_max_from current next None true !! pred i = Some (Some m) ∧ m < c) ↔
  ∀ b, ahead next b a → ahead current b a.
Proof using Hcn Hct Hnn Hnt.
  intros Hi Hc Hpos. pose proof (lookup_lt_Some _ _ _ Hi).
  destruct (prefix_max_spec current next None true (pred i)) as (v & -> & Hspec); [lia|].
  specialize (Hspec c).
  trans (match v with Some m => m < c | None => False end); [destruct v; naive_solver|].
  rewrite Hspec. split.
  - intros (_ & _ & Hall) b (k & j & Hk & Hj & Hlt).
    assert (j = i) as -> by (by eapply (NoDup_lookup next)).
    destruct (Hall k b) as (p & Hp & Hpc); [lia|done|].
    assert (trim b = b) as Hb by (apply Hnt; by eapply list_elem_of_lookup_2).
    rewrite Hb, trimmed_position_eq, index_of in Hp by done. by exists p, c.
  - intros Hall. split_and!; [done..|]. intros k b Hk Hb.
    destruct (Hall b) as (p & c' & Hp & Hc' & Hlt).
    { exists k, i. split_and!; [done|done|lia]. }
    assert (c' = c) as -> by (by eapply (NoDup_lookup current)).
    exists p. split; [|done].
    assert (trim b = b) as -> by (apply Hnt; by eapply list_elem_of_lookup_2).
    by rewrite trimmed_position_eq, index_of.
Qed.

Definition entry_protected (frozen : gset string) (entry : string * string) : Prop :=
  ∃ s, OrderState.parse entry.2 = Some s ∧ OrderState.is_active s = true ∧ trim entry.1 ∉ frozen.

Lemma barrier_entry_spec frozen entry :
  (barrier_entry current next frozen entry tt = Ok tt ∧
   (entry_protected frozen entry → not_overtaken current next (trim entry.1))) ∨
  (barrier_entry current next frozen entry tt = Err (Fail QueueActionNotAllowed) ∧
   entry_protected frozen entry ∧ ¬ not_overtaken current next (trim entry.1)).
Proof using Hcn Hct Hnn Hnt.
  unfold barrier_entry, entry_protected. destruct (OrderState.parse entry.2) as [s|];
    [|left; naive_solver].
  destruct (OrderState.is_active s) eqn:Hact; simpl;
    [|left; split; [done|]; intros (s0 & [= <-] & ? & _); congruence].
  case_bool_decide as Hfr; [left; split; [done|]; by intros (? & _ & _ & ?)|].
  set (a := trim entry.1) in *. unfold not_overtaken.
  rewrite !trimmed_position_eq by done.
  assert (Hprot : ∃ s0, Some s = Some s0 ∧ OrderState.is_active s0 = true ∧ a ∉ frozen)
    by eauto.
  destruct (position (λ y, y =s a) next) as [i|] eqn:Hi.
  2:{ right. split_and!; [done..|]. intros [Hin _]. rewrite position_None in Hi.
      specialize (Hi a Hin). by rewrite String.eqb_refl in Hi. }
  rewrite index_of in Hi by done.
  assert (a ∈ next) by (by eapply list_elem_of_lookup_2).
  destruct (position (λ y, y =s a) current) as [c|] eqn:Hc; simpl.
  - rewrite index_of in Hc by done.
    destruct (Nat.ltb_spec c i) as [Hci|Hci].
    { right. split_and!; [done..|]. intros [_ Hall].
      pose proof (next_index_le a i c Hi Hc Hall). lia. }
    destruct (Nat.ltb_spec 0 i) as [Hpos|Hpos].
    2:{ left. split; [done|]. intros _. split; [done|]. intros b (k & j & _ & Hj & ?).
        assert (j = i) as -> by (by eapply (NoDup_lookup next)). lia. }
    pose proof (prefix_test a i c Hi Hc Hpos) as Htest.
    destruct (prefix_max_spec current next None true (pred i)) as (v & Hv & _);
      [apply lookup_lt_Some in Hi; lia|].
    rewrite Hv in Htest |- *. simpl. destruct v as [m|].
    + destruct (Nat.ltb_spec m c); simpl; [left; naive_solver|].
      right. split_and!; [done..|]. intros [_ Hall]. apply Htest in Hall. naive_solver lia.
    + right. split_and!; [done..|]. intros [_ Hall]. apply Htest in Hall. naive_solver.
  - destruct (Nat.ltb_spec 0 i) as [Hpos|Hpos].
    + right. split_and!; [done..|]. intros [_ Hall].
      destruct (lookup_lt_is_Some_2 next 0) as [b Hb]; [apply lookup_lt_Some in Hi; lia|].
      destruct (Hall b) as (_ & c & _ & Hc' & _); [by exists 0, i|].
      apply (index_of current) in Hc'; [|done]. congruence.
    + left. split; [done|]. intros _. split; [done|]. intros b (k & j & _ & Hj & ?).
      assert (j = i) as -> by (by eapply (NoDup_lookup next)). lia.
Qed.

(** The barrier check is exact and never panics. *)
Lemma barrier_spec states frozen :
  (validate_active_sequence_barrier current next states frozen = Ok tt ∧
   ∀ a, protected states frozen a → not_overtaken current next a) ∨
  (validate_active_sequence_barrier current next states frozen = Err (Fail QueueActionNotAllowed) ∧
   ∃ a, protected states frozen a ∧ ¬ not_overtaken current next a).
Proof using Hcn Hct Hnn Hnt.
  assert (Hprot : ∀ a, protected states frozen a ↔
    ∃ e, e ∈ btree_entries states ∧ entry_protected frozen e ∧ trim e.1 = a).
  { intros a. split.
    - intros (k & v & s & Hk & <- & ? & ? & ?). exists (k, v).
      rewrite elem_of_btree_entries. split_and!; try done. by exists s.
    - intros ([k v] & Hk%elem_of_btree_entries & (s & ? & ? & ?) & <-). by exists k, v, s. }
  setoid_rewrite Hprot. clear Hprot. unfold validate_active_sequence_barrier.
  induction (btree_entries states) as [|e l IH]; simpl; [left; set_solver|].
  destruct (barrier_entry_spec frozen e) as [[-> He]|[-> [Hp Hno]]]; simpl; [|right; set_solver].
  destruct IH as [[-> Hl]|[-> (a & (e' & ? & ? & ?) & ?)]]; [left|right; set_solver].
  split; [done|]. intros a (e' & [->|Hin]%elem_of_cons & Hp & <-); [auto|]. apply Hl. eauto.
Qed.
End barrier.

(** * The nearest allowed slot *)

Global Instance slot_le_total target original : Total (slot_le target original).
Proof. intros i j. unfold slot_le, slot_key. lia. Qed.

Global Instance slot_le_trans target original : Transitive (slot_le target original).
Proof. intros i j k. unfold slot_le, slot_key. lia. Qed.

Lemma sorted_slots_sorted n target original :
  StronglySorted (slot_le target original) (sorted_slots n target original).
Proof. apply Sorted_StronglySorted; [apply _|]. apply Sorted_merge_sort, _. Qed.

Lemma elem_of_sorted_slots n target original i :
  i ∈ sorted_slots n target original ↔ i ≤ n.
Proof.
  unfold sorted_slots. rewrite merge_sort_Permutation, elem_of_seq. lia.
Qed.

Lemma insert_at_other i (x : string) l :
  x ∉ l → List.filter (λ y, y <>s x) (insert_at i x l) = l.
Proof.
  intros Hx. unfold insert_at. rewrite List.filter_app. simpl. rewrite String.eqb_refl. simpl.
  rewrite <-List.filter_app, take_drop. clear i. induction l as [|y l IH]; simpl; [done|].
  apply not_elem_of_cons in Hx as [Hne Hx]. apply not_eq_sym, String.eqb_neq in Hne.
  rewrite Hne. simpl. by rewrite IH.
Qed.

Section nearest.
Context (current : list string) (moved : string) (original : nat).
Context (states : gmap string string) (frozen : gset string).
Context (Ht : trimmed current) (Hnd : NoDup current) (Ho : current !! original = Some moved).

Abbreviation remaining := (delete original current).

Lemma remaining_fresh : moved ∉ remaining.
Proof using Ht Hnd Ho.
  rewrite <-(delete_filter _ _ _ Hnd Ho), filterb_elem, String.eqb_refl. by intros [_ ?].
Qed.

Lemma candidate_perm i : insert_at i moved remaining ≡ₚ current.
Proof using Ho.
  rewrite insert_at_perm. symmetry. rewrite <-(insert_delete _ _ _ Ho) at 1.
  apply insert_at_perm.
Qed.

Lemma candidate_wf i : trimmed (insert_at i moved remaining) ∧ NoDup (insert_at i moved remaining).
Proof using Ht Hnd Ho.
  split; [intros x; rewrite candidate_perm; apply Ht|by rewrite candidate_perm].
Qed.

(** The barrier holds at slot [i]. *)
Definition allowed (i : nat) : Prop :=
  ∀ a, protected states frozen a → not_overtaken current (insert_at i moved remaining) a.

Lemma barrier_at i :
  (validate_active_sequence_barrier current (insert_at i moved remaining) states frozen = Ok tt ∧
   allowed i) ∨
  (validate_active_sequence_barrier current (insert_at i moved remaining) states frozen =
     Err (Fail QueueActionNotAllowed) ∧ ¬ allowed i).
Proof using Ht Hnd Ho.
  destruct (candidate_wf i) as [??].
  destruct (barrier_spec current (insert_at i moved remaining)) with (states := states)
    (frozen := frozen) as [[-> ?]|[-> (a & Ha & Hno)]]; try done; [by left|right].
  split; [done|]. intros Hall. by apply Hno, Hall.
Qed.

Lemma first_allowed_spec (R : nat → nat → Prop) slots :
  Reflexive R → StronglySorted R slots →
  match first_allowed current remaining moved states frozen slots with
  | Ok c => ∃ i, i ∈ slots ∧ c = insert_at i moved remaining ∧ allowed i ∧
                 ∀ j, j ∈ slots → allowed j → R i j
  | Err f => f = Fail QueueActionNotAllowed ∧ ∀ i, i ∈ slots → ¬ allowed i
  end.
Proof using Ht Hnd Ho.
  intros Hrefl. induction 1 as [|i slots Hs IH Hi]; simpl; [split; [done|set_solver]|].
  destruct (barrier_at i) as [[-> Hal]|[-> Hno]].
  - exists i. split_and!; [set_solver|done..|].
    intros j [->|Hj]%elem_of_cons _; [done|]. rewrite Forall_forall in Hi. auto.
  - destruct (first_allowed _ _ _ _ _ _) as [c|f].
    + destruct IH as (k & Hk & -> & Hal & Hmin). exists k. split_and!; [set_solver|done..|].
      intros j [->|Hj]%elem_of_cons Haj; [done|auto].
    + destruct IH as [-> Hnone]. split; [done|]. intros j [->|Hj]%elem_of_cons; auto.
Qed.

(** The original place is allowed unless a protected order is missing. *)
Lemma original_allowed :
  (∀ a, protected states frozen a → a ∈ current) → allowed original.
Proof using Ho.
  intros Hall a Ha. rewrite (insert_delete _ _ _ Ho). split; [by apply Hall|done].
Qed.

Lemma remaining_index x : x ∈ current → x ≠ moved → is_Some (position (λ y, y =s x) remaining).
Proof using Ht Hnd Ho.
  intros Hx Hne. destruct (position _ _) eqn:Hp; [eauto|]. exfalso.
  rewrite position_None in Hp. specialize (Hp x). rewrite String.eqb_refl in Hp.
  discriminate Hp. rewrite <-(delete_filter _ _ _ Hnd Ho), filterb_elem.
  split; [done|]. apply negb_true_iff. by apply String.eqb_neq.
Qed.

(** The index in [remaining] at which the request puts the moved order. *)
Definition asks_for (requested : list string) (ri target : nat) : Prop :=
  match requested !! S ri with
  | Some next => remaining !! target = Some next
  | None =>
      if (0 <? ri)%nat
      then ∃ prev i, requested !! pred ri = Some prev ∧ remaining !! i = Some prev ∧ target = S i
      else target = original
  end.

Lemma remaining_nodup : NoDup remaining.
Proof using Ht Hnd Ho.
  rewrite <-(delete_filter _ _ _ Hnd Ho). by apply filterb_NoDup.
Qed.

Lemma nearest_spec requested ri :
  NoDup requested → (∀ x, x ∈ requested → x ∈ current) → requested !! ri = Some moved →
  ∃ target, asks_for requested ri target ∧
  match nearest_allowed_sequence current requested moved states frozen with
  | Ok c => ∃ i, i ≤ length remaining ∧ c = insert_at i moved remaining ∧ allowed i ∧
                 ∀ j, j ≤ length remaining → allowed j → slot_le target original i j
  | Err f => f = Fail QueueActionNotAllowed ∧ ∀ i, i ≤ length remaining → ¬ allowed i
  end.
Proof using Ht Hnd Ho.
  intros Hrn Hsub Hri. unfold nearest_allowed_sequence.
  rewrite (position_nodup requested ri moved), (position_nodup current original moved) by done.
  rewrite size_list_to_set, Nat.eqb_refl by done. cbn [negb orb].
  assert (existsb (λ id, negb (bool_decide (id ∈ current))) requested = false) as ->.
  { apply existsb_false. intros x Hx. by rewrite bool_decide_true by auto. }
  assert (Hne : ∀ k x, k ≠ ri → requested !! k = Some x → x ≠ moved).
  { intros k x Hk Hx ->. apply Hk. by eapply (NoDup_lookup requested). }
  assert (Htarget : ∃ target, asks_for requested ri target ∧
    match requested !! S ri with
    | Some next_id => expect (position (λ id, id =s next_id) remaining)
    | None =>
        if (0 <? ri) then
          previous ← expect (requested !! pred ri);
          i ← expect (position (λ id, id =s previous) remaining);
          Ok (S i)
        else Ok original
    end = Ok target).
  { unfold asks_for. pose proof remaining_nodup as Hrem.
    destruct (requested !! S ri) as [next|] eqn:Hn.
    - destruct (remaining_index next) as [t Hpos];
        [apply Hsub; by eapply list_elem_of_lookup_2|eapply Hne; [|done]; lia|].
      exists t. rewrite Hpos. split; [by apply index_of|done].
    - destruct (Nat.ltb_spec 0 ri) as [Hpos|]; [|by exists original].
      destruct (lookup_lt_is_Some_2 requested (pred ri)) as [prev Hprev];
        [apply lookup_lt_Some in Hri; lia|].
      destruct (remaining_index prev) as [t Ht'];
        [apply Hsub; by eapply list_elem_of_lookup_2|eapply Hne; [|done]; lia|].
      exists (S t). split; [exists prev, t; split_and!; [done|by apply index_of|done]|].
      rewrite Hprev. simpl. by rewrite Ht'. }
  destruct Htarget as (target & Hask & ->). exists target. split; [done|]. cbn [mbind result_bind].
  pose proof (first_allowed_spec (slot_le target original)
    (sorted_slots (length remaining) target original)) as Hspec.
  destruct (first_allowed _ _ _ _ _ _) as [c|f].
  - destruct Hspec as (i & Hi%elem_of_sorted_slots & -> & Hal & Hmin);
      [intros ?; unfold slot_le, slot_key; lia|apply sorted_slots_sorted|].
    exists i. split_and!; [done..|]. intros j Hj. apply Hmin. by apply elem_of_sorted_slots.
  - destruct Hspec as [-> Hno];
      [intros ?; unfold slot_le, slot_key; lia|apply sorted_slots_sorted|].
    split; [done|]. intros i Hi. apply Hno. by apply elem_of_sorted_slots.
Qed.
End nearest.

(** * Deltas *)

Lemma lookup_insert_at_lt {A} i (x : A) l j : j < i → i ≤ length l → insert_at i x l !! j = l !! j.
Proof.
  intros Hj Hi. unfold insert_at. rewrite lookup_app_l by (rewrite length_take; lia).
  by rewrite lookup_take_lt by lia.
Qed.

Lemma lookup_insert_at_eq {A} i (x : A) l : i ≤ length l → insert_at i x l !! i = Some x.
Proof.
  intros Hi. unfold insert_at. rewrite list_lookup_middle; [done|]. rewrite length_take. lia.
Qed.

Lemma lookup_insert_at_succ {A} i (x : A) l j :
  i ≤ j → i ≤ length l → insert_at i x l !! S j = l !! j.
Proof.
  intros Hj Hi. unfold insert_at.
  rewrite lookup_app_r by (rewrite length_take; lia). rewrite length_take, Nat.min_l by lia.
  replace (S j - i) with (S (j - i)) by lia. simpl. rewrite lookup_drop. f_equal. lia.
Qed.

Lemma delta_replays old moved o i :
  NoDup old → old !! o = Some moved → i ≤ length (delete o old) →
  match compute_canonical_sequence_delta old (insert_at i moved (delete o old)) moved with
  | Some op => apply_client_delta old op = insert_at i moved (delete o old)
  | None => insert_at i moved (delete o old) = old
  end.
Proof.
  intros Hnd Ho Hi. set (rest := delete o old) in *. set (new := insert_at i moved rest).
  assert (Hp : new ≡ₚ old).
  { subst new rest. rewrite insert_at_perm. symmetry.
    rewrite <-(insert_delete _ _ _ Ho) at 1. apply insert_at_perm. }
  assert (Hnn : NoDup new) by (by rewrite Hp).
  assert (Hrn : NoDup rest) by (subst rest; rewrite <-(delete_filter _ _ _ Hnd Ho); by apply filterb_NoDup).
  assert (Hni : new !! i = Some moved) by (by apply lookup_insert_at_eq).
  unfold compute_canonical_sequence_delta. case_bool_decide as Heq; [done|].
  rewrite (position_nodup new i moved), (position_nodup old o moved) by done. simpl.
  case_bool_decide as Hoi; [injection Hoi as ->; subst new rest; by apply insert_delete|].
  unfold apply_client_delta. simpl. rewrite (delete_filter _ _ _ Hnd Ho). fold rest.
  destruct (Nat.ltb_spec 0 i) as [Hpos|Hpos].
  - destruct (lookup_lt_is_Some_2 rest (pred i)) as [p Hpp]; [lia|].
    subst new. rewrite lookup_insert_at_lt, Hpp by lia. simpl.
    rewrite (position_nodup rest (pred i) p) by done. by replace (S (pred i)) with i by lia.
  - assert (i = 0) as -> by lia. subst new.
    change (insert_at 0 moved rest !! 1) with (rest !! 0).
    destruct (rest !! 0) as [n|] eqn:Hn; simpl; [|done].
    by rewrite (position_nodup rest 0 n).
Qed.

(** * Whole moves *)

(** What every queue state of the service satisfies. *)
Record wf_state (st : SequenceMoveState) : Prop := {
  state_nodup : NoDup (seq_order_ids st);
  state_trimmed : trimmed (seq_order_ids st);
  state_protected : ∀ a, protected (seq_states st) (seq_frozen st) a → a ∈ seq_order_ids st;
}.

Lemma from_visible_wf apparatus visible stored raw frozen preflight :
  wf_state (from_visible apparatus visible stored raw frozen preflight).
Proof.
  unfold from_visible. set (fr := list_to_set _ : gset string).
  destruct (effective_sequence_spec stored visible fr) as (Hnd & Helem & _). split; simpl.
  - done.
  - intros x Hx%Helem. by eapply eligible_trimmed.
  - intros a (k & v & s & Hk & <- & _).
    assert (Hdom : ∀ l (m : gmap string string), foldl (λ states id, <[id := if bool_decide (id ∈ preflight)
        then "print_preflight" else default "pending" (raw !! id)]> states) m l !! k = Some v →
      k ∈ l ∨ m !! k = Some v).
    { induction l as [|x l IH]; intros m Hm; simpl in Hm; [by right|].
      apply IH in Hm as [?|Hm]; [left; set_solver|].
      destruct (decide (x = k)) as [->|]; [left; set_solver|].
      rewrite lookup_insert_ne in Hm by done. by right. }
    apply Hdom in Hk as [Hk|Hk]; [|by rewrite lookup_empty in Hk].
    assert (trim k = k) as ->; [|done]. apply Helem in Hk. by eapply eligible_trimmed.
Qed.

Section moves.
Context `{VersionHash} (st : SequenceMoveState) (Hwf : wf_state st).

(** The request handed to [nearest_allowed_sequence] is well formed. *)
Lemma requested_wf original moved target :
  seq_order_ids st !! original = Some moved →
  target ≤ length (delete original (seq_order_ids st)) →
  let requested := insert_at target moved (delete original (seq_order_ids st)) in
  NoDup requested ∧ (∀ x, x ∈ requested → x ∈ seq_order_ids st) ∧
  requested !! target = Some moved.
Proof using Hwf.
  intros Ho Ht requested. subst requested. split_and!.
  - rewrite candidate_perm by done. apply Hwf.
  - intros x. by rewrite candidate_perm.
  - by apply lookup_insert_at_eq.
Qed.

Lemma requested_target_le command rest target :
  requested_target command rest = Ok target → target ≤ length rest.
Proof using Type.
  unfold requested_target. intros Hr.
  destruct (move_before_order_id command) as [b|].
  { destruct (position _ rest) as [i|] eqn:E; simplify_eq/=.
    apply position_Some in E as [(x & Hx%lookup_lt_Some & _) _]. lia. }
  destruct (move_after_order_id command) as [a|]; [|by simplify_eq].
  destruct (position _ rest) as [i|] eqn:E; simplify_eq/=.
  apply position_Some in E as [(x & Hx%lookup_lt_Some & _) _]. lia.
Qed.

Lemma requested_target_err command rest e :
  requested_target command rest = Err e → e = QueueReorderConflict.
Proof using Type.
  unfold requested_target. intros Hr.
  destruct (move_before_order_id command) as [b|].
  { destruct (position _ rest); simpl in Hr; congruence. }
  destruct (move_after_order_id command) as [a|]; [|done].
  destruct (position _ rest); simpl in Hr; congruence.
Qed.

(** The move once its guards have passed. *)
Lemma apply_move_cases command original target :
  SequenceMove_validate command = Ok tt → move_apparatus command = seq_apparatus st →
  move_order_id command ∉ seq_frozen st → move_expected_version command = version st →
  position (λ id, id =s move_order_id command) (seq_order_ids st) = Some original →
  requested_target command (delete original (seq_order_ids st)) = Ok target →
  ∃ i r, i ≤ length (delete original (seq_order_ids st)) ∧
    apply_move st command = Ok r ∧
    result_order_ids r = insert_at i (move_order_id command) (delete original (seq_order_ids st)) ∧
    allowed (seq_order_ids st) (move_order_id command) original (seq_states st) (seq_frozen st) i ∧
    result_version r = version (with_order_ids st (result_order_ids r)) ∧
    result_event r =
      (λ op, {| delta_id := delta_id op; delta_before_id := delta_before_id op;
                delta_after_id := delta_after_id op; delta_base_version := version st;
                delta_version := result_version r |}) <$>
      compute_canonical_sequence_delta (seq_order_ids st) (result_order_ids r)
        (move_order_id command).
Proof using Hwf.
  intros Hv Hap Hfr Hver Hpos Htar.
  pose proof Hpos as Ho. apply index_of in Ho; [|apply Hwf].
  destruct (requested_wf original _ target Ho) as (Hrn & Hsub & Hri);
    [by eapply requested_target_le|].
  destruct (nearest_spec (seq_order_ids st) (move_order_id command) original (seq_states st)
    (seq_frozen st) (state_trimmed _ Hwf) (state_nodup _ Hwf) Ho _ target Hrn Hsub Hri)
    as (t & _ & Hnear).
  unfold apply_move. rewrite Hv, Hap, String.eqb_refl. simpl.
  rewrite bool_decide_false by done. rewrite Hver, String.eqb_refl. simpl.
  rewrite Hpos. simpl. rewrite Htar. simpl.
  destruct (nearest_allowed_sequence _ _ _ _ _) as [c|f].
  - destruct Hnear as (i & Hi & -> & Hal & _). simpl. eexists i, _. split_and!; done.
  - destruct Hnear as [_ Hno]. exfalso. apply (Hno original).
    + pose proof (lookup_lt_Some _ _ _ Ho).
      rewrite length_delete by (by eexists). lia.
    + apply original_allowed; [done|apply Hwf].
Qed.

Lemma apply_move_guards command r :
  apply_move st command = Ok r →
  ∃ original target,
    SequenceMove_validate command = Ok tt ∧ move_apparatus command = seq_apparatus st ∧
    (move_order_id command ∉ seq_frozen st) ∧ move_expected_version command = version st ∧
    position (λ id, id =s move_order_id command) (seq_order_ids st) = Some original ∧
    requested_target command (delete original (seq_order_ids st)) = Ok target.
Proof using Type.
  unfold apply_move. intros ([] & Hv%lift_Ok & Hm)%bind_Ok.
  destruct (String.eqb_spec (move_apparatus command) (seq_apparatus st)); simpl in Hm; [|done].
  case_bool_decide; [done|].
  destruct (String.eqb_spec (move_expected_version command) (version st)); simpl in Hm; [|done].
  apply bind_Ok in Hm as (original & Hpos%lift_Ok & (target & Ht%lift_Ok & _)%bind_Ok).
  exists original, target. split_and!; try done. by destruct (position _ _); simplify_eq/=.
Qed.
End moves.

(** * Theorems *)

(** The prefix-maximum barrier check accepts a new sequence exactly when
    every protected (active, unfrozen) order is still in it and every order now
    in front of a protected one already was in front of it. *)
Theorem barrier_is_exact current next states frozen :
  trimmed current → NoDup current → trimmed next → NoDup next →
  validate_active_sequence_barrier current next states frozen = Ok tt ↔
  ∀ a, protected states frozen a → not_overtaken current next a.
Proof.
  intros H1 H2 H3 H4.
  destruct (barrier_spec current next H1 H2 H3 H4 states frozen) as [[-> ?]|[-> (a & Ha & Hn)]];
    [done|]. split; [done|]. intros Hall. by destruct Hn; apply Hall.
Qed.

(** The nearest-slot search always answers: with the queue in which the
    moved order stands at the allowed slot nearest to the requested one (the
    original place deciding ties), or with QueueActionNotAllowed when a
    protected order is not in the queue at all. *)
Theorem nearest_slot_is_nearest current requested moved states frozen original ri :
  trimmed current → NoDup current → current !! original = Some moved →
  NoDup requested → (∀ x, x ∈ requested → x ∈ current) → requested !! ri = Some moved →
  ∃ target, asks_for current original requested ri target ∧
  match nearest_allowed_sequence current requested moved states frozen with
  | Ok c => ∃ i, i ≤ length (delete original current) ∧
      c = insert_at i moved (delete original current) ∧
      allowed current moved original states frozen i ∧
      ∀ j, j ≤ length (delete original current) → allowed current moved original states frozen j →
        slot_le target original i j
  | Err f => f = Fail QueueActionNotAllowed ∧
      ∃ a, protected states frozen a ∧ a ∉ current
  end.
Proof.
  intros H1 H2 Ho Hrn Hsub Hri.
  destruct (nearest_spec current moved original states frozen H1 H2 Ho requested ri Hrn Hsub Hri)
    as (target & Hask & Hn).
  exists target. split; [done|]. destruct (nearest_allowed_sequence _ _ _ _ _); [done|].
  destruct Hn as [-> Hno]. split; [done|].
  destruct (barrier_spec current current H1 H2 H1 H2 states frozen) as [[_ Hall]|[_ (a & Ha & Hn)]].
  - destruct (Hno original).
    + pose proof (lookup_lt_Some _ _ _ Ho). rewrite length_delete by (by eexists). lia.
    + intros a Ha. rewrite (insert_delete _ _ _ Ho). by apply Hall.
  - exists a. split; [done|]. intros Hin. by apply Hn.
Qed.

(** C2: A queue move that succeeds only moves its order: the sequence is a
    permutation in which the other orders keep their relative order, the moved
    order was not frozen, no protected (active, unfrozen) order is overtaken,
    and the delta, chained to the old and new version, makes a client that
    applies it reach the same sequence. *)
Theorem move_is_sound `{VersionHash} st command r :
  wf_state st → apply_move st command = Ok r →
  result_order_ids r ≡ₚ seq_order_ids st ∧
  List.filter (λ x, x <>s move_order_id command) (result_order_ids r) =
    List.filter (λ x, x <>s move_order_id command) (seq_order_ids st) ∧
  (move_order_id command ∉ seq_frozen st) ∧
  (∀ a, protected (seq_states st) (seq_frozen st) a →
     not_overtaken (seq_order_ids st) (result_order_ids r) a) ∧
  match result_event r with
  | Some op => apply_client_delta (seq_order_ids st) op = result_order_ids r ∧
      delta_base_version op = version st ∧
      delta_version op = version (with_order_ids st (result_order_ids r))
  | None => result_order_ids r = seq_order_ids st
  end.
Proof.
  intros Hwf Hr. destruct (apply_move_guards st command r Hr)
    as (original & target & Hv & Hap & Hfr & Hver & Hpos & Htar).
  destruct (apply_move_cases st Hwf command original target)
    as (i & r' & Hi & Hr' & Hids & Hal & Hvn & Hev); try done.
  assert (r' = r) as -> by congruence.
  apply index_of in Hpos as Ho; [|apply Hwf].
  rewrite Hids in *. split_and!.
  - by apply candidate_perm.
  - rewrite insert_at_other by (by eapply remaining_fresh; try apply Hwf).
    by rewrite (delete_filter _ original) by (done || apply Hwf).
  - done.
  - exact Hal.
  - pose proof (delta_replays (seq_order_ids st) _ original i (state_nodup _ Hwf) Ho Hi) as Hd.
    rewrite Hev. destruct (compute_canonical_sequence_delta _ _ _) as [op|]; simpl; [|done].
    by rewrite Hvn.
Qed.

(** On the queue states the service builds, a move is refused only because
    it is malformed or for another apparatus, because its order is frozen, or
    because it is stale or names an unknown order: the barrier never blocks it
    and it never panics. *)
Theorem move_is_never_blocked `{VersionHash} apparatus visible stored raw frozen preflight command f :
  apply_move (from_visible apparatus visible stored raw frozen preflight) command = Err f →
  f = Fail QueueReorderInvalid ∨ f = Fail QueueReorderFrozen ∨ f = Fail QueueReorderConflict.
Proof.
  pose proof (from_visible_wf apparatus visible stored raw frozen preflight) as Hwf.
  set (st := from_visible _ _ _ _ _ _) in *. clearbody st. intros Hf.
  destruct (SequenceMove_validate command) as [[]|e] eqn:Hv.
  2:{ left. unfold apply_move in Hf. rewrite Hv in Hf. unfold SequenceMove_validate in Hv.
      case_match; simplify_eq/=. done. }
  destruct (decide (move_apparatus command = seq_apparatus st)) as [Hap|Hap].
  2:{ left. unfold apply_move in Hf. rewrite Hv in Hf. simpl in Hf.
      apply String.eqb_neq in Hap. rewrite Hap in Hf. by simplify_eq/=. }
  destruct (decide (move_order_id command ∈ seq_frozen st)) as [Hfr|Hfr].
  { right; left. unfold apply_move in Hf. rewrite Hv, Hap, String.eqb_refl in Hf. simpl in Hf.
    rewrite bool_decide_true in Hf by done. by simplify_eq. }
  right; right.
  destruct (decide (move_expected_version command = version st)) as [Hver|Hver].
  2:{ unfold apply_move in Hf. rewrite Hv, Hap, String.eqb_refl in Hf. simpl in Hf.
      rewrite bool_decide_false in Hf by done. apply String.eqb_neq in Hver.
      rewrite Hver in Hf. by simplify_eq/=. }
  destruct (position (λ id, id =s move_order_id command) (seq_order_ids st)) as [o|] eqn:Hpos.
  - destruct (requested_target command (delete o (seq_order_ids st))) as [t|e] eqn:Ht.
    + destruct (apply_move_cases st Hwf command o t) as (i & r & _ & Hr & _); try done. congruence.
    + unfold apply_move in Hf. rewrite Hv, Hap, String.eqb_refl in Hf. simpl in Hf.
      rewrite bool_decide_false, Hver, String.eqb_refl, Hpos in Hf by done. simpl in Hf.
      rewrite Ht in Hf. simplify_eq/=. f_equal.
      by eapply requested_target_err.
  - unfold apply_move in Hf. rewrite Hv, Hap, String.eqb_refl in Hf. simpl in Hf.
    rewrite bool_decide_false, Hver, String.eqb_refl, Hpos in Hf by done. by simplify_eq/=.
Qed.
