(* ===== verification/Scheduler.v ===== *)
(** Finite capacity scheduling of apparatuses.

    Models [src/core/production_map/capacity/]: the data of [mod.rs], the slot
    search of [scheduler.rs], the scheduling handler and its input
    normalization of [service.rs], and the reservation table of
    [memory_store.rs].  The fields of [RuntimeApparatusConfiguration]
    ([crates/mini_rs_apparatus_contract/src/projector.rs]) are those the
    scheduler and the queues read.

    Calendar arithmetic is the [time] crate's: [Clock] is a parameter, with
    its documented behaviour as the laws of [ClockLaws].  Signed arithmetic
    that overflows panics, as it does under overflow checks. *)
From Stdlib Require Import Ascii.
From S2P Require Import Prelude RustStr F64 Errors Identity QueueState OrderLayout MapDefinition.

(** * Data (capacity/mod.rs) *)

Record ApparatusWorkingWindow := {
  window_weekday : Z;
  window_start_minute : Z;
  window_end_minute : Z;
}.

Record ApparatusCapacityProfile := {
  profile_apparatus_id : ApparatusId;
  profile_apparatus : string;
  profile_capacity_slots : Z;
  profile_setup_minutes : Z;
  profile_cleanup_minutes : Z;
  profile_efficiency_percent : Z;
  profile_finite_capacity : bool;
  profile_working_windows : list ApparatusWorkingWindow;
  profile_capabilities : list string;
  profile_capability_levels : gmap string Z;
  profile_notes : string;
  profile_updated_at_unix : Z;
}.

Record ApparatusCapabilityRequirement := {
  requirement_code : string;
  requirement_min_level : Z;
}.

Definition normalized_codes_equal (left right : string) : bool :=
  eq_ignore_ascii_case (trim left) (trim right).

Definition capability_level (profile : ApparatusCapacityProfile) (code : string) : Z :=
  match List.find (λ kv, normalized_codes_equal kv.1 code)
          (btree_entries (profile_capability_levels profile)) with
  | Some (_, level) => level
  | None =>
      if existsb (λ item, normalized_codes_equal item code) (profile_capabilities profile)
      then 1%Z else 0%Z
  end.

Definition supports (profile : ApparatusCapacityProfile)
    (requirements : list ApparatusCapabilityRequirement) : bool :=
  forallb (λ r, (requirement_min_level r <=? capability_level profile (requirement_code r))%Z)
    requirements.

Record QueueActionActor := {
  actor_role : string;
  actor_ref : string;
  actor_display_name : string;
}.

Record ApparatusDowntime := {
  downtime_id : string;
  downtime_apparatus_id : ApparatusId;
  downtime_apparatus : string;
  downtime_starts_at_unix : Z;
  downtime_ends_at_unix : Z;
  downtime_reason : string;
  downtime_active : bool;
  downtime_actor : QueueActionActor;
  downtime_created_at_unix : Z;
}.

Module ScheduleStatus.
Inductive t := Planned | Active | Paused | Completed | Cancelled.
Global Instance eq_dec : EqDecision t.
Proof. solve_decision. Defined.
Definition eqb (a b : t) : bool := bool_decide (a = b).

Definition parse (value : string) : option t :=
  let value := trim value in
  if eq_ignore_ascii_case value "planned" then Some Planned
  else if eq_ignore_ascii_case value "active" then Some Active
  else if eq_ignore_ascii_case value "paused" then Some Paused
  else if eq_ignore_ascii_case value "completed" then Some Completed
  else if eq_ignore_ascii_case value "cancelled" then Some Cancelled
  else None.

Definition as_str (s : t) : string :=
  match s with
  | Planned => "planned" | Active => "active" | Paused => "paused"
  | Completed => "completed" | Cancelled => "cancelled"
  end.

Definition reserves_capacity (s : t) : bool :=
  match s with Planned | Active => true | _ => false end.
End ScheduleStatus.

Record ApparatusScheduleReservation := {
  reservation_id : string;
  reservation_idempotency_key : string;
  reservation_order_id : string;
  reservation_apparatus_id : ApparatusId;
  reservation_apparatus : string;
  reservation_starts_at_unix : Z;
  reservation_ends_at_unix : Z;
  requested_duration_minutes : Z;
  reserved_duration_minutes : Z;
  reservation_status : ScheduleStatus.t;
  reservation_priority : Z;
  reservation_source : string;
  reservation_reason : string;
  reservation_requirements : list ApparatusCapabilityRequirement;
  reservation_actor : QueueActionActor;
  reservation_created_at_unix : Z;
}.

Record ApparatusScheduleCandidate := {
  candidate_apparatus_id : ApparatusId;
  candidate_apparatus : string;
}.

Record ApparatusScheduleRequest := {
  request_order_id : string;
  request_apparatus_id : string;
  request_apparatus : string;
  earliest_start_unix : Z;
  latest_end_unix : option Z;
  duration_minutes : Z;
  request_priority : Z;
  request_source : string;
  request_reason : string;
  request_idempotency_key : string;
  capability_requirements : list ApparatusCapabilityRequirement;
  candidate_apparatuses : list ApparatusScheduleCandidate;
  request_actor : QueueActionActor;
}.

Record ApparatusScheduleCancelRequest := {
  cancel_reservation_id : string;
  cancel_reason : string;
  cancel_actor : QueueActionActor;
}.

(** [progress_session/progress.rs]; the payload is opaque to the scheduler. *)
Module RunStatus.
Inductive t := Active | Paused | Frozen | RollDetached | Completed.
Global Instance eq_dec : EqDecision t.
Proof. solve_decision. Defined.
End RunStatus.

Record OrderRunSession := {
  session_id : string;
  session_apparatus : string;
  session_order_id : string;
  session_stage_node_id : string;
  session_status : RunStatus.t;
  session_worker_role : string;
  session_worker_ref : string;
  session_worker_display_name : string;
  session_started_at_unix : Z;
  session_updated_at_unix : Z;
}.

(** * The slot search (scheduler.rs) *)

(** [time::OffsetDateTime::from_unix_timestamp] with the three components the
    code reads: ISO weekday, hour and minute, in UTC. *)
Class Clock := { clock_at : Z → option (Z * Z * Z) }.

Definition SECONDS_PER_DAY : Z := 86400.
Definition iso_weekday (t : Z) : Z := ((t / SECONDS_PER_DAY + 3) mod 7 + 1)%Z.
Definition day_minute (t : Z) : Z := (t mod SECONDS_PER_DAY / 60)%Z.
(** The last second of the year 9999, the end of the crate's range. *)
Definition MAX_UNIX : Z := 253402300799.

(** The documented behaviour the theorems rely on. *)
Class ClockLaws (C : Clock) := {
  clock_law : ∀ t, (0 ≤ t ≤ MAX_UNIX)%Z →
    clock_at t = Some (iso_weekday t, t mod SECONDS_PER_DAY / 3600, t mod 3600 / 60)%Z;
}.

Definition utc_clock : Clock := {|
  clock_at t :=
    if ((-377705116800 <=? t) && (t <=? MAX_UNIX))%Z
    then Some (iso_weekday t, t mod SECONDS_PER_DAY / 3600, t mod 3600 / 60)%Z
    else None |}.

Global Instance utc_clock_laws : ClockLaws utc_clock.
Proof.
  split. intros t Ht. simpl.
  assert ((-377705116800 <=? t)%Z = true) as -> by (apply Z.leb_le; lia).
  assert ((t <=? MAX_UNIX)%Z = true) as -> by (apply Z.leb_le; lia). done.
Qed.

Definition MAX_SCHEDULE_HORIZON_MINUTES : Z := 366 * 24 * 60.

(** [i64] addition under overflow checks. *)
Definition add64 (a b : Z) : run_result Z := expect (i64_checked (a + b)).

Definition in_route (map : ProductionMapDefinition) (id : ApparatusId) : bool :=
  existsb (λ node, trim (node_apparatus_id node) =s apparatus_id_str id)
    (List.filter (λ node, NodeKind.eqb (node_kind node) NodeKind.Apparatus) (map_nodes map)).

Definition candidate_allowed_for_order (map : ProductionMapDefinition)
    (source_id candidate_id : ApparatusId) : bool :=
  in_route map source_id && in_route map candidate_id.

Definition same_apparatus_id (left right : ApparatusId) : bool :=
  apparatus_id_str left =s apparatus_id_str right.

Definition canonical_id (value : string) : option ApparatusId := ok (ApparatusId_new (trim value)).

(** Division by a zero efficiency panics. *)
Definition effective_duration_minutes (profile : ApparatusCapacityProfile) (duration : Z)
  : run_result Z :=
  let efficiency := profile_efficiency_percent profile in
  if (efficiency =? 0)%Z then Err Panic
  else
    let run := ((duration * 100 + efficiency - 1) / efficiency)%Z in
    let total := (run + profile_setup_minutes profile + profile_cleanup_minutes profile)%Z in
    if (total <=? u32_MAX)%Z then Ok total else Err (Fail ScheduleInputInvalid).

Definition session_reservation (session : OrderRunSession) (apparatus : string)
    (id : ApparatusId) : ApparatusScheduleReservation :=
  {| reservation_id := "active-session:" +:+ trim (session_id session);
     reservation_idempotency_key := "active-session:" +:+ trim (session_id session);
     reservation_order_id := trim (session_order_id session);
     reservation_apparatus_id := id;
     reservation_apparatus := apparatus;
     reservation_starts_at_unix := Z.max (session_started_at_unix session) 60;
     reservation_ends_at_unix := i64_MAX;
     requested_duration_minutes := 1;
     reserved_duration_minutes := 1;
     reservation_status := ScheduleStatus.Active;
     reservation_priority := i32_MAX;
     reservation_source := "active_run_session";
     reservation_reason := "active execution without a schedule reservation";
     reservation_requirements := [];
     reservation_actor := {| actor_role := session_worker_role session;
                             actor_ref := session_worker_ref session;
                             actor_display_name := session_worker_display_name session |};
     reservation_created_at_unix := session_started_at_unix session |}.

Definition add_active_session (result : list ApparatusScheduleReservation)
    (session : OrderRunSession) : list ApparatusScheduleReservation :=
  let apparatus := trim (session_apparatus session) in
  match ApparatusId_new apparatus with
  | Err _ => result
  | Ok id =>
      if existsb (λ r,
           ScheduleStatus.eqb (reservation_status r) ScheduleStatus.Active &&
           (trim (reservation_order_id r) =s trim (session_order_id session)) &&
           (apparatus_id_str (reservation_apparatus_id r) =s apparatus)) result
      then result
      else result ++ [session_reservation session apparatus id]
  end.

Definition reservations_with_active_sessions (reservations : list ApparatusScheduleReservation)
    (sessions : list OrderRunSession) : list ApparatusScheduleReservation :=
  foldl add_active_session reservations
    (List.filter (λ s, bool_decide (session_status s = RunStatus.Active)) sessions).

Definition intervals_overlap (left_start left_end right_start right_end : Z) : bool :=
  (left_start <? right_end)%Z && (right_start <? left_end)%Z.

Section with_clock.
Context `{Clock}.

Definition fits_working_window (profile : ApparatusCapacityProfile) (start end_ : Z) : bool :=
  match profile_working_windows profile with
  | [] => true
  | windows =>
      match clock_at start, clock_at (end_ - 1) with
      | Some (start_weekday, start_hour, start_min), Some (end_weekday, end_hour, end_min) =>
          if negb (start_weekday =? end_weekday)%Z then false
          else
            let start_minute := (start_hour * 60 + start_min)%Z in
            let end_minute := (end_hour * 60 + end_min + 1)%Z in
            existsb (λ window,
              (window_weekday window =? start_weekday)%Z &&
              (window_start_minute window <=? start_minute)%Z &&
              (end_minute <=? window_end_minute window)%Z) windows
      | _, _ => false
      end
  end.

Section slot.
Context (profile : ApparatusCapacityProfile) (input : ApparatusScheduleRequest)
  (apparatus_id : ApparatusId) (duration : Z)
  (downtimes : list ApparatusDowntime) (reservations : list ApparatusScheduleReservation).

Definition downtime_blocks (cursor end_ : Z) : bool :=
  existsb (λ downtime,
    downtime_active downtime &&
    same_apparatus_id (downtime_apparatus_id downtime) apparatus_id &&
    intervals_overlap cursor end_ (downtime_starts_at_unix downtime)
      (downtime_ends_at_unix downtime)) downtimes.

Definition conflicts_at (cursor end_ : Z) : list ApparatusScheduleReservation :=
  List.filter (λ r,
    ScheduleStatus.reserves_capacity (reservation_status r) &&
    same_apparatus_id (reservation_apparatus_id r) apparatus_id &&
    intervals_overlap cursor end_ (reservation_starts_at_unix r) (reservation_ends_at_unix r))
    reservations.

Definition over_capacity (cursor end_ : Z) : bool :=
  profile_finite_capacity profile &&
  (profile_capacity_slots profile <=? Z.of_nat (length (conflicts_at cursor end_)))%Z.

(** [while cursor < horizon]; the fuel is the number of minutes left. *)
Fixpoint slot_loop (fuel : nat) (cursor : Z) : run_result (Z * Z) :=
  match fuel with
  | O => Err (Fail CapacityNoWorkingWindow)
  | S fuel =>
      end_ ← add64 cursor (duration * 60);
      if is_some_and (latest_end_unix input) (λ latest_end, latest_end <? end_)%Z
      then Err (Fail CapacityNoWorkingWindow)
      else if negb (fits_working_window profile cursor end_) then slot_loop fuel (cursor + 60)
      else if downtime_blocks cursor end_ then slot_loop fuel (cursor + 60)
      else if over_capacity cursor end_ then slot_loop fuel (cursor + 60)
      else Ok (cursor, end_)
  end.

Definition find_schedule_slot : run_result (Z * Z) :=
  let cursor := Z.max (earliest_start_unix input) 60 in
  cursor ← add64 cursor 59;
  let cursor := (cursor / 60 * 60)%Z in
  horizon ← add64 cursor (MAX_SCHEDULE_HORIZON_MINUTES * 60);
  slot_loop (Z.to_nat ((horizon - cursor) / 60)) cursor.
End slot.
End with_clock.

(** * Configuration and input (service.rs) *)

Module Capability.
Inductive t := Print | Laminate | Cut | Package | Glue | Tooling | VirtualTask | Training.
End Capability.

#[global] Instance Capability_eq_dec : EqDecision Capability.t.
Proof. solve_decision. Defined.

Definition capability_code_name (code : Capability.t) : string :=
  match code with
  | Capability.Print => "print" | Capability.Laminate => "laminate" | Capability.Cut => "cut"
  | Capability.Package => "package" | Capability.Glue => "glue"
  | Capability.Tooling => "tooling" | Capability.VirtualTask => "virtual_task"
  | Capability.Training => "training"
  end.

Module ExecutionOperation.
Inductive t := Print | Laminate | Cut | Package | Glue.
End ExecutionOperation.
#[global] Instance ExecutionOperation_eq_dec : EqDecision ExecutionOperation.t.
Proof. solve_decision. Defined.

Module ProcessTechnology.
Inductive t :=
  | Rotogravure | Flexographic | AdhesiveLamination | ExtrusionLamination | Slitting | BagMaking
  | ColdGlue.
End ProcessTechnology.
#[global] Instance ProcessTechnology_eq_dec : EqDecision ProcessTechnology.t.
Proof. solve_decision. Defined.

Inductive LifecycleState := LifecycleActive | LifecycleRetired.

(** What a machine needs before it starts (crates/mini_rs_apparatus_contract,
    isa95/model.rs). *)
Record MaterialRequirementSet := {
  requirement_id : string;
  requirement_item_group_ids : list string;
  minimum_required_count : Z;
}.

Inductive MaterialExecutionPolicy :=
  | NotRequired (item_group_ids : list string)
  | AllRequired (item_group_ids : list string)
  | RequirementSets (sets : list MaterialRequirementSet).

Inductive ToolingExecutionPolicy := ToolingNotRequired | QolipScanRequired (tooling_class_id : string).
Inductive VirtualTaskPolicy := VirtualTasksDisabled | InputBridge.
(** [QueueDiscipline]; the constructors carry the name of the field. *)
Inductive QueueDisciplineCode := DisciplineStrictSequence | DisciplineFreePick.

(** Where a projection row came from. *)
Record Provenance := {
  row_apparatus_id : ApparatusId;
  row_source_revision : Z;
  row_source_aasx_sha256 : string;
}.

Record RuntimeApparatusConfiguration := {
  runtime_row : Provenance;
  runtime_display_name : string;
  (** in the order of the codes, as a [BTreeMap] iterates *)
  runtime_capabilities : list (Capability.t * Z);
  runtime_lifecycle : LifecycleState;
  runtime_operation : ExecutionOperation.t;
  runtime_technology : ProcessTechnology.t;
  queue_row : Provenance;
  material_row : Provenance;
  capacity_row : Provenance;
  config_capacity_slots : Z;
  config_setup_minutes : Z;
  config_cleanup_minutes : Z;
  config_efficiency_percent : Z;
  config_finite_capacity : bool;
  config_working_windows : list ApparatusWorkingWindow;
  config_color_station_count : option Z;
  config_min_web_width_mm : option Z;
  config_max_web_width_mm : option Z;
  config_capability_compatible_reroute : bool;
  config_equipment_class_id : string;
  config_virtual_tasks : VirtualTaskPolicy;
  config_discipline : QueueDisciplineCode;
  config_material_policy : MaterialExecutionPolicy;
  config_tooling : ToolingExecutionPolicy;
}.

Definition same_source (a b : Provenance) : bool :=
  same_apparatus_id (row_apparatus_id a) (row_apparatus_id b) &&
  (row_source_revision a =? row_source_revision b)%Z &&
  (row_source_aasx_sha256 a =s row_source_aasx_sha256 b).

Definition has_coherent_source (c : RuntimeApparatusConfiguration) : bool :=
  same_source (queue_row c) (runtime_row c) && same_source (material_row c) (runtime_row c) &&
  same_source (capacity_row c) (runtime_row c).

Definition config_is_active (c : RuntimeApparatusConfiguration) : bool :=
  match runtime_lifecycle c with LifecycleActive => true | LifecycleRetired => false end.

Definition config_supports (c : RuntimeApparatusConfiguration) (capability : Capability.t) : bool :=
  existsb (λ entry : Capability.t * Z, bool_decide (entry.1 = capability)) (runtime_capabilities c).

Definition uses_lamination_workflow (c : RuntimeApparatusConfiguration) : bool :=
  config_is_active c &&
  match runtime_operation c with
  | ExecutionOperation.Laminate => config_supports c Capability.Laminate
  | ExecutionOperation.Glue =>
      bool_decide (runtime_technology c = ProcessTechnology.ColdGlue) &&
      config_supports c Capability.Glue
  | _ => false
  end.

Definition canonical_capacity_profile (canonical : RuntimeApparatusConfiguration) (now_unix : Z)
  : pm_result ApparatusCapacityProfile :=
  if negb (has_coherent_source canonical) || negb (config_is_active canonical)
  then Err StoreFailed
  else
    let capability_levels : gmap string Z :=
      foldl (λ levels entry, <[capability_code_name entry.1 := entry.2]> levels) ∅
        (runtime_capabilities canonical) in
    Ok {| profile_apparatus_id := row_apparatus_id (runtime_row canonical);
          profile_apparatus := runtime_display_name canonical;
          profile_capacity_slots := config_capacity_slots canonical;
          profile_setup_minutes := config_setup_minutes canonical;
          profile_cleanup_minutes := config_cleanup_minutes canonical;
          profile_efficiency_percent := config_efficiency_percent canonical;
          profile_finite_capacity := config_finite_capacity canonical;
          profile_working_windows := config_working_windows canonical;
          profile_capabilities := btree_keys capability_levels;
          profile_capability_levels := capability_levels;
          profile_notes := "";
          profile_updated_at_unix := now_unix |}.

Definition normalize_downtime (downtime : ApparatusDowntime) (now_unix : Z)
  : pm_result ApparatusDowntime :=
  let id := trim (downtime_id downtime) in
  let reason := trim (downtime_reason downtime) in
  if (downtime_starts_at_unix downtime <=? 0)%Z ||
     (downtime_ends_at_unix downtime <=? downtime_starts_at_unix downtime)%Z ||
     is_empty reason
  then Err CapacityProfileInvalid
  else Ok {| downtime_id :=
               if is_empty id then "apparatus-downtime:" +:+ Z_to_string now_unix else id;
             downtime_apparatus_id := downtime_apparatus_id downtime;
             downtime_apparatus := trim (downtime_apparatus downtime);
             downtime_starts_at_unix := downtime_starts_at_unix downtime;
             downtime_ends_at_unix := downtime_ends_at_unix downtime;
             downtime_reason := reason;
             downtime_active := downtime_active downtime;
             downtime_actor := downtime_actor downtime;
             downtime_created_at_unix :=
               if (downtime_created_at_unix downtime <=? 0)%Z then now_unix
               else downtime_created_at_unix downtime |}.

(** The requirement filter, with its [seen] set. *)
Fixpoint normalize_requirements (seen : gset string)
    (requirements : list ApparatusCapabilityRequirement) : list ApparatusCapabilityRequirement :=
  match requirements with
  | [] => []
  | r :: requirements =>
      let code := to_ascii_lowercase (trim (requirement_code r)) in
      if negb (is_empty code) && bool_decide (code ∉ seen)
      then {| requirement_code := code;
              requirement_min_level := Z.max (requirement_min_level r) 1 |}
             :: normalize_requirements ({[code]} ∪ seen) requirements
      else normalize_requirements seen requirements
  end.

(** The candidate loop: the primary and repeated candidates are dropped. *)
Fixpoint normalize_candidates (primary : ApparatusId) (seen : gset string)
    (candidates : list ApparatusScheduleCandidate) : list ApparatusScheduleCandidate :=
  match candidates with
  | [] => []
  | c :: candidates =>
      let key := apparatus_id_str (candidate_apparatus_id c) in
      if negb (same_apparatus_id (candidate_apparatus_id c) primary) && bool_decide (key ∉ seen)
      then {| candidate_apparatus_id := candidate_apparatus_id c;
              candidate_apparatus := trim (candidate_apparatus c) |}
             :: normalize_candidates primary ({[key]} ∪ seen) candidates
      else normalize_candidates primary seen candidates
  end.

Definition normalize_schedule_request (input : ApparatusScheduleRequest)
  : pm_result ApparatusScheduleRequest :=
  let order_id := trim (request_order_id input) in
  let apparatus_id := trim (request_apparatus_id input) in
  let key := trim (request_idempotency_key input) in
  if is_empty order_id || is_empty apparatus_id || (duration_minutes input =? 0)%Z ||
     (30 * 24 * 60 <? duration_minutes input)%Z || (earliest_start_unix input <=? 0)%Z ||
     is_empty key || (200 <? String.length key)%nat
  then Err ScheduleInputInvalid
  else
    primary_id ← ok_or (canonical_id apparatus_id) ScheduleInputInvalid;
    if is_some_and (latest_end_unix input) (λ e, e <=? earliest_start_unix input)%Z
    then Err ScheduleInputInvalid
    else Ok {|
      request_order_id := order_id;
      request_apparatus_id := apparatus_id;
      request_apparatus := trim (request_apparatus input);
      earliest_start_unix := earliest_start_unix input;
      latest_end_unix := latest_end_unix input;
      duration_minutes := duration_minutes input;
      request_priority := request_priority input;
      request_source := trim (request_source input);
      request_reason := trim (request_reason input);
      request_idempotency_key := key;
      capability_requirements := normalize_requirements ∅ (capability_requirements input);
      candidate_apparatuses := normalize_candidates primary_id ∅ (candidate_apparatuses input);
      request_actor := request_actor input |}.

(** * The reservation table (memory_store.rs) *)

Abbreviation reservation_table := (gmap string ApparatusScheduleReservation).

Definition reservation_by_idempotency_key (table : reservation_table) (key : string)
  : option ApparatusScheduleReservation :=
  List.find (λ r, reservation_idempotency_key r =s trim key) (btree_values table).

Definition put_reservation (table : reservation_table)
    (reservation : ApparatusScheduleReservation) (capacity_slots : Z) (finite_capacity : bool)
  : pm_result (reservation_table * ApparatusScheduleReservation) :=
  match List.find (λ item, reservation_idempotency_key item =s
                           reservation_idempotency_key reservation) (btree_values table) with
  | Some existing =>
      if (reservation_order_id existing <>s reservation_order_id reservation) ||
         negb (same_apparatus_id (reservation_apparatus_id existing)
                 (reservation_apparatus_id reservation))
      then Err ScheduleIdempotencyConflict
      else Ok (table, existing)
  | None =>
      let conflicts := length (List.filter (λ item,
        ScheduleStatus.reserves_capacity (reservation_status item) &&
        same_apparatus_id (reservation_apparatus_id item) (reservation_apparatus_id reservation) &&
        (reservation_starts_at_unix item <? reservation_ends_at_unix reservation)%Z &&
        (reservation_starts_at_unix reservation <? reservation_ends_at_unix item)%Z)
        (btree_values table)) in
      if finite_capacity &&
         ((capacity_slots =? 0)%Z || (capacity_slots <=? Z.of_nat conflicts)%Z)
      then Err CapacityConflict
      else Ok (<[reservation_id reservation := reservation]> table, reservation)
  end.

Definition with_status (r : ApparatusScheduleReservation) (status : ScheduleStatus.t)
    (reason : string) (actor : QueueActionActor) : ApparatusScheduleReservation :=
  {| reservation_id := reservation_id r;
     reservation_idempotency_key := reservation_idempotency_key r;
     reservation_order_id := reservation_order_id r;
     reservation_apparatus_id := reservation_apparatus_id r;
     reservation_apparatus := reservation_apparatus r;
     reservation_starts_at_unix := reservation_starts_at_unix r;
     reservation_ends_at_unix := reservation_ends_at_unix r;
     requested_duration_minutes := requested_duration_minutes r;
     reserved_duration_minutes := reserved_duration_minutes r;
     reservation_status := status;
     reservation_priority := reservation_priority r;
     reservation_source := reservation_source r;
     reservation_reason := reason;
     reservation_requirements := reservation_requirements r;
     reservation_actor := actor;
     reservation_created_at_unix := reservation_created_at_unix r |}.

Definition cancel_reservation (table : reservation_table) (input : ApparatusScheduleCancelRequest)
  : pm_result (reservation_table * ApparatusScheduleReservation) :=
  let key := trim (cancel_reservation_id input) in
  r ← ok_or (table !! key) ScheduleReservationNotFound;
  if negb (ScheduleStatus.eqb (reservation_status r) ScheduleStatus.Planned)
  then Err ScheduleReservationLocked
  else
    let reason := trim (cancel_reason input) in
    let reason := if is_empty reason then reservation_reason r
                  else reservation_reason r +:+ "; cancelled: " +:+ reason in
    let r := with_status r ScheduleStatus.Cancelled reason (cancel_actor input) in
    Ok (<[key := r]> table, r).

(** The transitions [update_apparatus_schedule_reservation_status] allows. *)
Definition status_change_allowed (from to : ScheduleStatus.t) : bool :=
  match to, from with
  | ScheduleStatus.Active, (ScheduleStatus.Planned | ScheduleStatus.Paused) => true
  | ScheduleStatus.Paused, ScheduleStatus.Active => true
  | ScheduleStatus.Completed,
      (ScheduleStatus.Planned | ScheduleStatus.Active | ScheduleStatus.Paused) => true
  | _, _ => false
  end.

Definition update_reservation_status (table : reservation_table) (order_id : string)
    (apparatus_id : ApparatusId) (status : ScheduleStatus.t) (actor : QueueActionActor)
  : pm_result reservation_table :=
  match List.find (λ kv, (trim (reservation_order_id kv.2) =s trim order_id) &&
                         same_apparatus_id (reservation_apparatus_id kv.2) apparatus_id)
          (btree_entries table) with
  | None => Ok table
  | Some (key, r) =>
      if ScheduleStatus.eqb (reservation_status r) status then Ok table
      else if negb (status_change_allowed (reservation_status r) status)
      then Err ScheduleReservationLocked
      else Ok (<[key := with_status r status (reservation_reason r) actor]> table)
  end.

(** * The scheduling handler (service.rs) *)

(** The part of the store the handler reads and writes. *)
Record capacity_store := {
  store_maps : list ProductionMapDefinition;
  store_downtimes : gmap string ApparatusDowntime;
  store_reservations : reservation_table;
  store_sessions : list OrderRunSession;
}.

Record ScheduledCandidate := {
  scheduled_index : nat;
  scheduled_candidate : ApparatusScheduleCandidate;
  scheduled_profile : ApparatusCapacityProfile;
  scheduled_duration : Z;
  scheduled_starts_at : Z;
  scheduled_ends_at : Z;
}.

(** The counters and flags of the candidate loop. *)
Record search := {
  route_candidate_count : nat;
  supported_candidate_count : nat;
  capability_not_supported : bool;
  capability_level_insufficient : bool;
  best_slot : option ScheduledCandidate;
}.

(** [(starts_at, index) < (best.starts_at, best.index)]. *)
Definition is_better (starts_at : Z) (index : nat) (best : option ScheduledCandidate) : bool :=
  match best with
  | None => true
  | Some b =>
      (starts_at <? scheduled_starts_at b)%Z ||
      ((starts_at =? scheduled_starts_at b)%Z && (index <? scheduled_index b)%nat)
  end.

Section handler.
(** [resolver] is [apparatus_resolver.resolve]; [now] the system clock, read
    for the two bookkeeping time stamps. *)
Context `{Clock} (resolver : ApparatusId → pm_result (option RuntimeApparatusConfiguration))
  (now : Z).

Definition resolve_canonical_apparatus (id : ApparatusId)
  : pm_result RuntimeApparatusConfiguration :=
  found ← resolver id;
  configuration ← ok_or found StoreFailed;
  if negb (same_apparatus_id (row_apparatus_id (runtime_row configuration)) id) ||
     negb (has_coherent_source configuration) || negb (config_is_active configuration)
  then Err StoreFailed else Ok configuration.

Definition validated_canonical_apparatus (id : ApparatusId)
  : pm_result RuntimeApparatusConfiguration :=
  canonical ← resolve_canonical_apparatus id;
  if negb (same_apparatus_id (row_apparatus_id (runtime_row canonical)) id) ||
     negb (has_coherent_source canonical)
  then Err StoreFailed else Ok canonical.

Definition canonical_capacity_profile_for (id : ApparatusId)
  : pm_result ApparatusCapacityProfile :=
  canonical ← validated_canonical_apparatus id;
  canonical_capacity_profile canonical now.

Definition put_apparatus_downtime (store : capacity_store) (downtime : ApparatusDowntime)
  : pm_result (capacity_store * ApparatusDowntime) :=
  canonical ← validated_canonical_apparatus (downtime_apparatus_id downtime);
  downtime ← normalize_downtime
    {| downtime_id := downtime_id downtime;
       downtime_apparatus_id := downtime_apparatus_id downtime;
       downtime_apparatus := runtime_display_name canonical;
       downtime_starts_at_unix := downtime_starts_at_unix downtime;
       downtime_ends_at_unix := downtime_ends_at_unix downtime;
       downtime_reason := downtime_reason downtime;
       downtime_active := downtime_active downtime;
       downtime_actor := downtime_actor downtime;
       downtime_created_at_unix := downtime_created_at_unix downtime |} now;
  Ok ({| store_maps := store_maps store;
         store_downtimes := <[trim (downtime_id downtime) := downtime]> (store_downtimes store);
         store_reservations := store_reservations store;
         store_sessions := store_sessions store |}, downtime).

(** One iteration of the candidate loop. *)
Definition try_candidate (map : ProductionMapDefinition) (input : ApparatusScheduleRequest)
    (apparatus_id : ApparatusId) (downtimes : list ApparatusDowntime)
    (reservations : list ApparatusScheduleReservation)
    (entry : nat * ApparatusScheduleCandidate) (st : search) : run_result search :=
  let '(index, candidate) := entry in
  let id := candidate_apparatus_id candidate in
  if negb (candidate_allowed_for_order map apparatus_id id) then Ok st
  else
    canonical ← lift (validated_canonical_apparatus id);
    profile ← lift (canonical_capacity_profile canonical now);
    let st := {| route_candidate_count := S (route_candidate_count st);
                 supported_candidate_count := supported_candidate_count st;
                 capability_not_supported := capability_not_supported st;
                 capability_level_insufficient := capability_level_insufficient st;
                 best_slot := best_slot st |} in
    if negb (supports profile (capability_requirements input)) then
      let missing := existsb (λ r, (capability_level profile (requirement_code r) =? 0)%Z)
                       (capability_requirements input) in
      Ok {| route_candidate_count := route_candidate_count st;
            supported_candidate_count := supported_candidate_count st;
            capability_not_supported := missing || capability_not_supported st;
            capability_level_insufficient := negb missing || capability_level_insufficient st;
            best_slot := best_slot st |}
    else
      reserved ← effective_duration_minutes profile (duration_minutes input);
      let st := {| route_candidate_count := route_candidate_count st;
                   supported_candidate_count := S (supported_candidate_count st);
                   capability_not_supported := capability_not_supported st;
                   capability_level_insufficient := capability_level_insufficient st;
                   best_slot := best_slot st |} in
      match find_schedule_slot profile input id reserved downtimes reservations with
      | Err Panic => Err Panic
      | Err (Fail _) => Ok st
      | Ok (starts_at, ends_at) =>
          if is_better starts_at index (best_slot st) then
            Ok {| route_candidate_count := route_candidate_count st;
                  supported_candidate_count := supported_candidate_count st;
                  capability_not_supported := capability_not_supported st;
                  capability_level_insufficient := capability_level_insufficient st;
                  best_slot := Some {|
                    scheduled_index := index;
                    scheduled_candidate := {| candidate_apparatus_id := id;
                      candidate_apparatus := runtime_display_name canonical |};
                    scheduled_profile := profile;
                    scheduled_duration := reserved;
                    scheduled_starts_at := starts_at;
                    scheduled_ends_at := ends_at |} |}
          else Ok st
      end.

Definition new_reservation (input : ApparatusScheduleRequest) (best : ScheduledCandidate)
  : ApparatusScheduleReservation :=
  {| reservation_id := "apparatus-reservation:" +:+ request_idempotency_key input;
     reservation_idempotency_key := request_idempotency_key input;
     reservation_order_id := request_order_id input;
     reservation_apparatus_id := candidate_apparatus_id (scheduled_candidate best);
     reservation_apparatus := candidate_apparatus (scheduled_candidate best);
     reservation_starts_at_unix := scheduled_starts_at best;
     reservation_ends_at_unix := scheduled_ends_at best;
     requested_duration_minutes := duration_minutes input;
     reserved_duration_minutes := scheduled_duration best;
     reservation_status := ScheduleStatus.Planned;
     reservation_priority := request_priority input;
     reservation_source := request_source input;
     reservation_reason := request_reason input;
     reservation_requirements := capability_requirements input;
     reservation_actor := request_actor input;
     reservation_created_at_unix := now |}.

Definition with_reservations (store : capacity_store) (table : reservation_table)
  : capacity_store :=
  {| store_maps := store_maps store; store_downtimes := store_downtimes store;
     store_reservations := table; store_sessions := store_sessions store |}.

(** Every audited session must name a known apparatus. *)
Definition check_session (session : OrderRunSession) (_ : unit) : run_result unit :=
  id ← lift (ok_or (canonical_id (session_apparatus session)) StoreFailed);
  _ ← lift (validated_canonical_apparatus id);
  Ok tt.

Definition search_candidates (store : capacity_store) (map : ProductionMapDefinition)
    (input : ApparatusScheduleRequest) (apparatus_id : ApparatusId) : run_result search :=
  let candidates :=
    {| candidate_apparatus_id := apparatus_id; candidate_apparatus := "" |}
      :: candidate_apparatuses input in
  for_each (try_candidate map input apparatus_id (btree_values (store_downtimes store))
      (reservations_with_active_sessions (btree_values (store_reservations store))
         (store_sessions store)))
    (imap pair candidates)
    {| route_candidate_count := 0; supported_candidate_count := 0;
       capability_not_supported := false; capability_level_insufficient := false;
       best_slot := None |}.

Definition schedule_apparatus_order (store : capacity_store) (input : ApparatusScheduleRequest)
  : run_result (capacity_store * ApparatusScheduleReservation) :=
  input ← lift (normalize_schedule_request input);
  apparatus_id ← lift (ok_or (canonical_id (request_apparatus_id input)) ScheduleInputInvalid);
  _ ← lift (validated_canonical_apparatus apparatus_id);
  map ← lift (ok_or (List.find (λ map, trim (map_id map) =s request_order_id input)
                       (store_maps store)) MapNotFound);
  match reservation_by_idempotency_key (store_reservations store)
          (request_idempotency_key input) with
  | Some existing =>
      if (trim (reservation_order_id existing) <>s request_order_id input) ||
         negb (same_apparatus_id (reservation_apparatus_id existing) apparatus_id)
      then Err (Fail ScheduleIdempotencyConflict)
      else Ok (store, existing)
  | None =>
      _ ← for_each check_session (store_sessions store) tt;
      found ← search_candidates store map input apparatus_id;
      if Nat.eqb (route_candidate_count found) 0 then Err (Fail MoveNotAllowed)
      else match best_slot found with
      | Some best =>
          '(table, reservation) ← lift (put_reservation (store_reservations store)
             (new_reservation input best) (profile_capacity_slots (scheduled_profile best))
             (profile_finite_capacity (scheduled_profile best)));
          Ok (with_reservations store table, reservation)
      | None =>
          if Nat.eqb (supported_candidate_count found) 0 then
            Err (Fail (if capability_not_supported found then CapabilityNotSupported
                       else if capability_level_insufficient found
                       then CapabilityLevelInsufficient
                       else CapacityNoWorkingWindow))
          else Err (Fail CapacityNoWorkingWindow)
      end
  end.

Definition cancel_apparatus_schedule_reservation (store : capacity_store)
    (input : ApparatusScheduleCancelRequest)
  : pm_result (capacity_store * ApparatusScheduleReservation) :=
  '(table, reservation) ← cancel_reservation (store_reservations store) input;
  Ok (with_reservations store table, reservation).

(** The three sources of occupation [ensure_apparatus_execution_capacity]
    counts, each a loop inserting into [occupied_orders]. *)
Definition occupy_queue_state (order_id : string) (occupied : gset string)
    (state : string * string) : gset string :=
  if bool_decide (OrderState.parse state.2 = Some OrderState.InProgress) &&
     negb (eq_ignore_ascii_case state.1 order_id)
  then {[trim state.1]} ∪ occupied else occupied.

Definition occupy_queue (profile_id : ApparatusId) (order_id : string)
    (entry : string * gmap string string) (occupied : gset string) : pm_result (gset string) :=
  id ← ok_or (canonical_id entry.1) StoreFailed;
  if negb (same_apparatus_id id profile_id) then Ok occupied
  else Ok (foldl (occupy_queue_state order_id) occupied (btree_entries entry.2)).

Definition occupy_session (profile_id : ApparatusId) (order_id : string)
    (session : OrderRunSession) (occupied : gset string) : pm_result (gset string) :=
  id ← ok_or (canonical_id (session_apparatus session)) StoreFailed;
  if bool_decide (session_status session = RunStatus.Active) &&
     same_apparatus_id id profile_id &&
     negb (eq_ignore_ascii_case (session_order_id session) order_id)
  then Ok ({[trim (session_order_id session)]} ∪ occupied) else Ok occupied.

Definition occupy_reservation (profile_id : ApparatusId) (order_id : string)
    (occupied : gset string) (r : ApparatusScheduleReservation) : gset string :=
  if ScheduleStatus.reserves_capacity (reservation_status r) &&
     same_apparatus_id (reservation_apparatus_id r) profile_id &&
     (reservation_starts_at_unix r <=? now)%Z && (now <? reservation_ends_at_unix r)%Z &&
     negb (eq_ignore_ascii_case (reservation_order_id r) order_id)
  then {[trim (reservation_order_id r)]} ∪ occupied else occupied.

(** [active_order_run_sessions_for_apparatus] of the store port. *)
Definition active_sessions_for_apparatus (store : capacity_store) (apparatus : string)
  : list OrderRunSession :=
  List.filter (λ s, bool_decide (session_status s = RunStatus.Active) &&
    (trim (session_apparatus s) =s trim apparatus)) (store_sessions store).

(** [ensure_apparatus_execution_capacity] at the instant [now]; [all_states]
    maps apparatus to order to queue state. *)
Definition ensure_apparatus_execution_capacity (store : capacity_store)
    (apparatus order_id : string) (all_states : gmap string (gmap string string))
  : run_result unit :=
  let order_id := trim order_id in
  apparatus_id ← lift (ok_or (canonical_id apparatus) CapacityProfileNotFound);
  profile ← lift (canonical_capacity_profile_for apparatus_id);
  let id := profile_apparatus_id profile in
  _ ← check (existsb (λ d, downtime_active d && same_apparatus_id (downtime_apparatus_id d) id &&
             (downtime_starts_at_unix d <=? now)%Z && (now <? downtime_ends_at_unix d)%Z)
             (btree_values (store_downtimes store))) (Fail CapacityUnavailable);
  minute_end ← add64 now 60;
  _ ← check (negb (fits_working_window profile now minute_end)) (Fail CapacityNoWorkingWindow);
  occupied ← lift (for_each (occupy_queue id order_id) (btree_entries all_states) ∅);
  occupied ← lift (for_each (occupy_session id order_id)
                     (active_sessions_for_apparatus store (apparatus_id_str id)) occupied);
  let occupied := foldl (occupy_reservation id order_id) occupied
                    (btree_values (store_reservations store)) in
  check (profile_finite_capacity profile &&
         (profile_capacity_slots profile <=? Z.of_nat (size occupied))%Z)
    (Fail CapacityConflict).
End handler.
