(* ===== verification/SchedulerFacts.v ===== *)
(** Correctness of apparatus scheduling: the slot search returns the earliest
    feasible slot or proves there is none, a slot lies inside one working
    window, the reservation table never exceeds an apparatus's capacity, and a
    repeated request returns the first reservation. *)
From Stdlib Require Import Ascii.
From S2P Require Import Prelude RustStr F64 Errors Identity QueueState OrderLayout MapDefinition Scheduler.

Open Scope Z_scope.

Lemma add64_small a b : i64_MIN ≤ a + b ≤ i64_MAX → add64 a b = Ok (a + b).
Proof.
  intros [H1 H2]. unfold add64, i64_checked.
  apply Z.leb_le in H1, H2. by rewrite H1, H2.
Qed.

(** * The slot search *)

Section slot.
Context `{Clock} (profile : ApparatusCapacityProfile) (input : ApparatusScheduleRequest)
  (apparatus_id : ApparatusId) (duration : Z)
  (downtimes : list ApparatusDowntime) (reservations : list ApparatusScheduleReservation).

(** The apparatus is open and has a free slot from [s] on. *)
Definition slot_free (s : Z) : bool :=
  fits_working_window profile s (s + duration * 60) &&
  negb (downtime_blocks apparatus_id downtimes s (s + duration * 60)) &&
  negb (over_capacity profile apparatus_id reservations s (s + duration * 60)).

Definition slot_in_time (s : Z) : Prop :=
  ∀ latest, latest_end_unix input = Some latest → s + duration * 60 ≤ latest.

Lemma slot_in_time_mono s s' : s ≤ s' → slot_in_time s' → slot_in_time s.
Proof. intros ? Hs l Hl. specialize (Hs l Hl). lia. Qed.

Lemma slot_loop_step fuel cursor :
  0 ≤ cursor → 0 ≤ duration → cursor + duration * 60 ≤ i64_MAX →
  slot_loop profile input apparatus_id duration downtimes reservations (S fuel) cursor =
  if is_some_and (latest_end_unix input) (λ l, l <? cursor + duration * 60)
  then Err (Fail CapacityNoWorkingWindow)
  else if slot_free cursor then Ok (cursor, cursor + duration * 60)
  else slot_loop profile input apparatus_id duration downtimes reservations fuel (cursor + 60).
Proof.
  intros. simpl. rewrite add64_small by (unfold i64_MIN; lia). simpl.
  destruct (is_some_and _ _); [done|]. unfold slot_free.
  destruct (fits_working_window _ _ _); simpl; [|done].
  destruct (downtime_blocks _ _ _ _); simpl; [done|].
  by destruct (over_capacity _ _ _ _ _).
Qed.

Lemma late_not_in_time s :
  is_some_and (latest_end_unix input) (λ l, l <? s + duration * 60) = true ↔ ¬ slot_in_time s.
Proof.
  unfold slot_in_time. destruct (latest_end_unix input) as [l|]; simpl.
  - rewrite Z.ltb_lt. split; [intros ? Hs; specialize (Hs l eq_refl); lia|].
    intros Hs. destruct (decide (l < s + duration * 60)); [done|].
    exfalso. apply Hs. intros ? [= <-]. lia.
  - split; [done|]. intros Hs. exfalso. by apply Hs.
Qed.

(** The search stops at the first free minute, or there is none in time. *)
Lemma slot_loop_spec fuel cursor :
  0 ≤ cursor → 0 ≤ duration → cursor + 60 * Z.of_nat fuel + duration * 60 ≤ i64_MAX →
  match slot_loop profile input apparatus_id duration downtimes reservations fuel cursor with
  | Ok (s, e) =>
      (∃ k : nat, (k < fuel)%nat ∧ s = cursor + 60 * Z.of_nat k ∧
         ∀ j : nat, (j < k)%nat → slot_free (cursor + 60 * Z.of_nat j) = false) ∧
      e = s + duration * 60 ∧ slot_in_time s ∧ slot_free s = true
  | Err f =>
      f = Fail CapacityNoWorkingWindow ∧
      ∀ k : nat, (k < fuel)%nat → slot_in_time (cursor + 60 * Z.of_nat k) →
        slot_free (cursor + 60 * Z.of_nat k) = false
  end.
Proof.
  revert cursor. induction fuel as [|fuel IH]; intros cursor Hc Hd Hmax;
    [split; [done|intros; lia]|].
  rewrite slot_loop_step by lia.
  destruct (is_some_and _ _) eqn:Hlate.
  { apply late_not_in_time in Hlate. split; [done|]. intros k _ Hk. destruct Hlate.
    eapply slot_in_time_mono; [|exact Hk]. lia. }
  assert (slot_in_time cursor) as Htime.
  { intros l Hl. rewrite Hl in Hlate. simpl in Hlate. breflect. lia. }
  destruct (slot_free cursor) eqn:Hfree.
  { split; [|done]. exists 0%nat. split_and!; [lia|lia|intros; lia]. }
  specialize (IH (cursor + 60)). destruct (slot_loop _ _ _ _ _ _ fuel _) as [[s e]|f].
  - destruct IH as ((k & ? & -> & Hfirst) & -> & ? & ?); [lia..|]. split; [|done].
    exists (S k). split_and!; [lia|lia|]. intros [|j] Hj; [by rewrite Z.add_0_r|].
    replace (cursor + 60 * Z.of_nat (S j)) with (cursor + 60 + 60 * Z.of_nat j) by lia.
    apply Hfirst. lia.
  - destruct IH as [-> Hnone]; [lia..|]. split; [done|].
    intros [|k] Hk Ht; [by rewrite Z.add_0_r|].
    replace (cursor + 60 * Z.of_nat (S k)) with (cursor + 60 + 60 * Z.of_nat k) in * by lia.
    apply Hnone; [lia|done].
Qed.

(** The first whole minute not before the requested start. *)
Definition first_minute : Z := (Z.max (earliest_start_unix input) 60 + 59) / 60 * 60.

(** A start the search may return. *)
Definition slot_ok (s : Z) : Prop :=
  s mod 60 = 0 ∧ earliest_start_unix input ≤ s ∧ 60 ≤ s ∧
  s < first_minute + MAX_SCHEDULE_HORIZON_MINUTES * 60 ∧
  slot_in_time s ∧ slot_free s = true.

Lemma slot_ok_minute s :
  slot_ok s → ∃ k : nat, (k < Z.to_nat MAX_SCHEDULE_HORIZON_MINUTES)%nat ∧
    s = first_minute + 60 * Z.of_nat k.
Proof.
  unfold slot_ok, first_minute. intros (Hm & He & H60 & Hh & _).
  exists (Z.to_nat (s / 60 - (Z.max (earliest_start_unix input) 60 + 59) / 60)).
  unfold MAX_SCHEDULE_HORIZON_MINUTES in *. Z.div_mod_to_equations. lia.
Qed.

Lemma find_slot_cases :
  earliest_start_unix input ≤ MAX_UNIX → 0 ≤ duration ≤ u32_MAX →
  match find_schedule_slot profile input apparatus_id duration downtimes reservations with
  | Ok (s, e) => slot_ok s ∧ e = s + duration * 60 ∧ ∀ s', slot_ok s' → s ≤ s'
  | Err f => f = Fail CapacityNoWorkingWindow ∧ ∀ s', ¬ slot_ok s'
  end.
Proof.
  intros Hearly Hdur. unfold MAX_UNIX, u32_MAX in *.
  assert (Hfm : 60 ≤ first_minute ∧ first_minute ≤ MAX_UNIX + 120 ∧
    earliest_start_unix input ≤ first_minute ∧ first_minute mod 60 = 0).
  { unfold first_minute, MAX_UNIX. Z.div_mod_to_equations. lia. }
  unfold MAX_UNIX in Hfm. unfold find_schedule_slot.
  rewrite add64_small by (unfold i64_MIN, i64_MAX; lia). cbn [mbind result_bind].
  fold first_minute. set (fm := first_minute) in *.
  rewrite add64_small by (unfold i64_MIN, i64_MAX, MAX_SCHEDULE_HORIZON_MINUTES; lia).
  cbn [mbind result_bind].
  replace ((fm + MAX_SCHEDULE_HORIZON_MINUTES * 60 - fm) / 60) with MAX_SCHEDULE_HORIZON_MINUTES
    by (unfold MAX_SCHEDULE_HORIZON_MINUTES; Z.div_mod_to_equations; lia).
  assert (Hh : Z.of_nat (Z.to_nat MAX_SCHEDULE_HORIZON_MINUTES) = 527040)
    by (rewrite Z2Nat.id; unfold MAX_SCHEDULE_HORIZON_MINUTES; lia).
  pose proof slot_ok_minute as Hminute. unfold slot_ok in *. fold fm in Hminute |- *.
  assert (HM : MAX_SCHEDULE_HORIZON_MINUTES = 527040) by done.
  revert Hh Hminute. generalize (Z.to_nat MAX_SCHEDULE_HORIZON_MINUTES) as N. intros N Hh Hminute.
  pose proof (slot_loop_spec N fm) as Hspec.
  assert (fm + 60 * Z.of_nat N + duration * 60 ≤ i64_MAX) as Hmax by (unfold i64_MAX; lia).
  destruct (slot_loop _ _ _ _ _ _ _ _) as [[s e]|f].
  - destruct Hspec as ((k & Hk & -> & Hfirst) & -> & Ht & Hfree); [lia|lia|done|].
    split_and!; try done; try lia; [Z.div_mod_to_equations; lia|].
    intros s' Hs'. destruct (Hminute s' Hs') as (k' & _ & ->).
    destruct (decide (k' < k)%nat) as [Hlt|]; [|lia].
    destruct Hs' as (_ & _ & _ & _ & _ & Hf'). by rewrite Hfirst in Hf'.
  - destruct Hspec as [-> Hnone]; [lia|lia|done|].
    split; [done|]. intros s' Hs'. destruct (Hminute s' Hs') as (k & Hk & ->).
    destruct Hs' as (_ & _ & _ & _ & Ht & Hf). by rewrite Hnone in Hf.
Qed.
End slot.

(** * Working windows *)

Lemma clock_minute t :
  (t mod SECONDS_PER_DAY / 3600) * 60 + t mod 3600 / 60 = day_minute t.
Proof.
  unfold day_minute, SECONDS_PER_DAY.
  assert (t mod 86400 = 3600 * (t mod 86400 / 3600) + t mod 3600) as Hd.
  { Z.div_mod_to_equations. lia. }
  set (h := t mod 86400 / 3600) in *. rewrite Hd at 1.
  replace (3600 * h + t mod 3600) with (t mod 3600 + (h * 60) * 60) by lia.
  rewrite Z.div_add by lia. lia.
Qed.

Lemma same_weekday_same_day s e :
  s ≤ e → e - s < 7 * SECONDS_PER_DAY - SECONDS_PER_DAY → iso_weekday s = iso_weekday e →
  s / SECONDS_PER_DAY = e / SECONDS_PER_DAY.
Proof. unfold iso_weekday, SECONDS_PER_DAY. intros. Z.div_mod_to_equations. lia. Qed.

Lemma day_minute_between s t e :
  s / SECONDS_PER_DAY = e / SECONDS_PER_DAY → s ≤ t ≤ e →
  iso_weekday t = iso_weekday s ∧ day_minute s ≤ day_minute t ≤ day_minute e.
Proof.
  intros Hd Ht.
  assert (t / SECONDS_PER_DAY = s / SECONDS_PER_DAY) as Htd.
  { unfold SECONDS_PER_DAY in *.
    pose proof (Z.div_le_mono s t 86400). pose proof (Z.div_le_mono t e 86400). lia. }
  split; [unfold iso_weekday; by rewrite Htd|].
  unfold day_minute. rewrite !Z.mod_eq by (unfold SECONDS_PER_DAY; lia).
  rewrite Htd, <-Hd. split; apply Z.div_le_mono; lia.
Qed.

(** A window that admits the interval [s, e). *)
Definition inside_window (w : ApparatusWorkingWindow) (s e : Z) : Prop :=
  ∀ t, s ≤ t < e →
    iso_weekday t = window_weekday w ∧ window_start_minute w ≤ day_minute t < window_end_minute w.

Lemma fits_window_inside `{C : Clock, !ClockLaws C} profile s e :
  0 ≤ s < e → e ≤ MAX_UNIX → e - s ≤ 6 * SECONDS_PER_DAY →
  profile_working_windows profile ≠ [] →
  fits_working_window profile s e = true →
  ∃ w, w ∈ profile_working_windows profile ∧ inside_window w s e.
Proof.
  intros Hs He Hlen Hne. unfold fits_working_window.
  destruct (profile_working_windows profile) as [|w0 ws]; [done|].
  rewrite !clock_law, !clock_minute by lia.
  destruct (iso_weekday s =? iso_weekday (e - 1)) eqn:Hw; cbn [negb]; [|done].
  apply Z.eqb_eq in Hw. intros (w & Hin & Hb)%existsb_elem. breflect. exists w. split; [done|].
  apply same_weekday_same_day in Hw; [|lia..].
  intros t Ht. destruct (day_minute_between s t (e - 1) Hw) as [-> ?]; [lia|]. lia.
Qed.

(** * The reservation table *)

(** A reservation that holds a slot of the apparatus at an instant. *)
Definition holds_at (id : ApparatusId) (t : Z) (r : ApparatusScheduleReservation) : bool :=
  ScheduleStatus.reserves_capacity (reservation_status r) &&
  same_apparatus_id (reservation_apparatus_id r) id &&
  (reservation_starts_at_unix r <=? t) && (t <? reservation_ends_at_unix r).

Definition load (table : reservation_table) (id : ApparatusId) (t : Z) : nat :=
  length (List.filter (holds_at id t) (btree_values table)).

Lemma btree_values_perm {A} (m : gmap string A) : btree_values m ≡ₚ (map_to_list m).*2.
Proof. unfold btree_values. by rewrite btree_entries_perm. Qed.

Lemma btree_values_insert {A} (m : gmap string A) k v :
  btree_values (<[k := v]> m) ≡ₚ v :: btree_values (delete k m).
Proof.
  rewrite !btree_values_perm, <-insert_delete_eq.
  rewrite map_to_list_insert by apply lookup_delete_eq. done.
Qed.

Lemma btree_values_delete {A} (m : gmap string A) k :
  btree_values m ≡ₚ option_list (m !! k) ++ btree_values (delete k m).
Proof.
  destruct (m !! k) as [v|] eqn:E; simpl; [|by rewrite delete_id].
  by rewrite <-(insert_id m k v E) at 1; rewrite btree_values_insert.
Qed.

Lemma load_insert table k r id t :
  (load (<[k := r]> table) id t ≤ load table id t + if holds_at id t r then 1 else 0)%nat.
Proof.
  unfold load. rewrite (Permutation_length (filterb_perm _ _ _ (btree_values_insert table k r))).
  rewrite (Permutation_length (filterb_perm _ _ _ (btree_values_delete table k))).
  rewrite List.filter_app, length_app. simpl. destruct (holds_at id t r); simpl; lia.
Qed.

(** Replacing a reservation by one that holds no more leaves the load. *)
Lemma load_replace table k r r' id t :
  table !! k = Some r → (holds_at id t r' = true → holds_at id t r = true) →
  (load (<[k := r']> table) id t ≤ load table id t)%nat.
Proof.
  intros Hk Himp. unfold load.
  rewrite (Permutation_length (filterb_perm _ _ _ (btree_values_insert table k r'))).
  rewrite (Permutation_length (filterb_perm _ _ _ (btree_values_delete table k))).
  rewrite Hk. simpl.
  destruct (holds_at id t r') eqn:E'; [rewrite Himp by done; simpl; lia|].
  destruct (holds_at id t r); simpl; lia.
Qed.

Lemma filterb_length_impl {A} (f g : A → bool) l :
  (∀ x, f x = true → g x = true) → (length (List.filter f l) ≤ length (List.filter g l))%nat.
Proof.
  intros Hfg. induction l as [|x l IH]; simpl; [done|].
  destruct (f x) eqn:Ef; [rewrite (Hfg x Ef); simpl; lia|]. destruct (g x); simpl; lia.
Qed.

Section table.
(** The number of slots of each finite apparatus. *)
Context (slots : ApparatusId → Z).

Definition within_capacity (table : reservation_table) : Prop :=
  ∀ id t, Z.of_nat (load table id t) ≤ slots id.

(** What the service does to the table.  Resuming a paused reservation is
    not among the steps: it takes its slot back without a capacity check. *)
Inductive table_step : reservation_table → reservation_table → Prop :=
  | step_put table r table' r' :
      put_reservation table r (slots (reservation_apparatus_id r)) true = Ok (table', r') →
      table_step table table'
  | step_cancel table input table' r' :
      cancel_reservation table input = Ok (table', r') → table_step table table'
  | step_status table order_id id status actor table' :
      (∀ k r, table !! k = Some r → reservation_status r = ScheduleStatus.Paused →
         status ≠ ScheduleStatus.Active) →
      update_reservation_status table order_id id status actor = Ok table' →
      table_step table table'.

Lemma same_apparatus_id_eq a b : same_apparatus_id a b = true ↔ a = b.
Proof.
  unfold same_apparatus_id. rewrite String.eqb_eq. destruct a, b; simpl. naive_solver.
Qed.

Lemma put_within table r table' r' :
  within_capacity table →
  put_reservation table r (slots (reservation_apparatus_id r)) true = Ok (table', r') →
  within_capacity table'.
Proof.
  intros Hinv. unfold put_reservation. case_match; [case_match; naive_solver|].
  destruct (true && _) eqn:Hfull; [done|]. simpl in Hfull. breflect.
  intros [= <- _] id t. pose proof (load_insert table (reservation_id r) r id t) as Hl.
  specialize (Hinv id t). destruct (holds_at id t r) eqn:Hr; [|lia].
  unfold holds_at in Hr. breflect.
  match goal with H : same_apparatus_id _ _ = true |- _ => apply same_apparatus_id_eq in H; subst id end.
  assert (load table (reservation_apparatus_id r) t ≤ length (List.filter (λ item,
    ScheduleStatus.reserves_capacity (reservation_status item) &&
    same_apparatus_id (reservation_apparatus_id item) (reservation_apparatus_id r) &&
    (reservation_starts_at_unix item <? reservation_ends_at_unix r)%Z &&
    (reservation_starts_at_unix r <? reservation_ends_at_unix item)%Z) (btree_values table)))%nat;
    [|lia].
  apply filterb_length_impl. intros x Hx. unfold holds_at in Hx. breflect.
  rewrite !andb_true_iff, !Z.ltb_lt. split_and!; try done; lia.
Qed.

Lemma replace_within table k r r' :
  within_capacity table → table !! k = Some r →
  (∀ id t, holds_at id t r' = true → holds_at id t r = true) →
  within_capacity (<[k := r']> table).
Proof.
  intros Hinv Hk Himp id t. specialize (Hinv id t).
  pose proof (load_replace table k r r' id t Hk (Himp id t)). lia.
Qed.

(** A status change keeps the interval. *)
Lemma with_status_holds r status reason actor id t :
  (ScheduleStatus.reserves_capacity status = true →
   ScheduleStatus.reserves_capacity (reservation_status r) = true) →
  holds_at id t (with_status r status reason actor) = true → holds_at id t r = true.
Proof.
  intros Himp. unfold holds_at. simpl. rewrite !andb_true_iff. intuition.
Qed.

Lemma table_step_within table table' :
  within_capacity table → table_step table table' → within_capacity table'.
Proof.
  intros Hinv Hst. revert Hinv.
  destruct Hst as [t r t' r' Hput|t input t' r' Hcancel|t oid id status actor t' Hnr Hup];
    intros Hinv.
  - by eapply put_within.
  - unfold cancel_reservation in Hcancel.
    destruct (t !! trim (cancel_reservation_id input)) as [r|] eqn:Hr; [|done]. simpl in Hcancel.
    destruct (negb (ScheduleStatus.eqb _ _)); [done|]. injection Hcancel as <- _.
    eapply replace_within; [done..|]. intros id t0. by apply with_status_holds.
  - unfold update_reservation_status in Hup.
    destruct (List.find _ _) as [[k r]|] eqn:Hf; [|by injection Hup as <-].
    apply find_elem in Hf as [Hk%elem_of_btree_entries _].
    case_match; [by injection Hup as <-|]. case_match; [done|]. injection Hup as <-.
    eapply replace_within; [done..|]. intros id' t0. apply with_status_holds.
    specialize (Hnr k r Hk). breflect. destruct status, (reservation_status r); naive_solver.
Qed.

Lemma reachable_within table :
  (∀ id, 0 ≤ slots id) → rtc table_step ∅ table → within_capacity table.
Proof.
  intros Hs Hr. assert (within_capacity ∅) as H0.
  { intros id t. unfold load. change (btree_values ∅) with (@nil ApparatusScheduleReservation).
    simpl. apply Hs. }
  revert H0. induction Hr as [|t t' t'' Hst _ IH]; [done|]. eauto using table_step_within.
Qed.
End table.

(** * The handler *)

Lemma normalize_request_inv input input' :
  normalize_schedule_request input = Ok input' →
  request_idempotency_key input' = trim (request_idempotency_key input) ∧
  request_order_id input' = trim (request_order_id input) ∧
  earliest_start_unix input' = earliest_start_unix input.
Proof.
  unfold normalize_schedule_request. destruct (_ || _); [done|].
  intros (id & _ & Hn)%bind_Ok. destruct (is_some_and _ _); [done|]. by injection Hn as <-.
Qed.

Section handler.
Context `{Clock} (resolver : ApparatusId → pm_result (option RuntimeApparatusConfiguration))
  (now : Z).

Section choice.
Context (map : ProductionMapDefinition) (input : ApparatusScheduleRequest)
  (apparatus_id : ApparatusId) (downtimes : list ApparatusDowntime)
  (reservations : list ApparatusScheduleReservation).

(** What makes a candidate a choice: it is on the order's route, its
    configuration supports the request, and the slot is its own. *)
Definition choice (b : ScheduledCandidate) : Prop :=
  let id := candidate_apparatus_id (scheduled_candidate b) in
  candidate_allowed_for_order map apparatus_id id = true ∧
  canonical_capacity_profile_for resolver now id = Ok (scheduled_profile b) ∧
  supports (scheduled_profile b) (capability_requirements input) = true ∧
  effective_duration_minutes (scheduled_profile b) (duration_minutes input) =
    Ok (scheduled_duration b) ∧
  find_schedule_slot (scheduled_profile b) input id (scheduled_duration b) downtimes
    reservations = Ok (scheduled_starts_at b, scheduled_ends_at b).

(** The slot a candidate offers. *)
Definition offers (c : ApparatusScheduleCandidate) (s : Z) : Prop :=
  ∃ b, choice b ∧ candidate_apparatus_id (scheduled_candidate b) = candidate_apparatus_id c ∧
       scheduled_starts_at b = s.

(** The order in which slots are preferred: by start, then by the position of
    the candidate in the list. *)
Definition preferred (s i s' i' : Z) : Prop := s < s' ∨ s = s' ∧ i ≤ i'.

Definition search_inv (done : list (nat * ApparatusScheduleCandidate)) (st : search) : Prop :=
  (∀ b, best_slot st = Some b → choice b ∧ ∃ c, (scheduled_index b, c) ∈ done ∧
     candidate_apparatus_id c = candidate_apparatus_id (scheduled_candidate b)) ∧
  (∀ i c s, (i, c) ∈ done → offers c s →
     ∃ b, best_slot st = Some b ∧
          preferred (scheduled_starts_at b) (Z.of_nat (scheduled_index b)) s (Z.of_nat i)).

Lemma try_candidate_inv done i c st st' :
  search_inv done st →
  try_candidate resolver now map input apparatus_id downtimes reservations (i, c) st = Ok st' →
  search_inv (done ++ [(i, c)]) st'.
Proof.
  intros [Hbest Hoff]. unfold try_candidate.
  (* A candidate that leaves the best slot alone and offers nothing. *)
  assert (Hskip : ∀ st'', best_slot st'' = best_slot st → (∀ s, ¬ offers c s) →
    search_inv (done ++ [(i, c)]) st'').
  { intros st'' He Hno. split; rewrite He.
    { intros b (? & c' & ? & ?)%Hbest. split; [done|]. exists c'. set_solver. }
    intros i' c' s [Hin|Hin%list_elem_of_singleton]%elem_of_app Hs; [by eapply Hoff|].
    simplify_eq. by destruct (Hno s). }
  destruct (candidate_allowed_for_order _ _ _) eqn:Hal; cbn [negb].
  2:{ intros [= <-]. apply Hskip; [done|]. intros s (b & (Hb & _) & Hid & _).
      rewrite Hid in Hb. congruence. }
  intros (canonical & Hcan%lift_Ok & (profile & Hprof%lift_Ok & Hrest)%bind_Ok)%bind_Ok.
  assert (Hfor : canonical_capacity_profile_for resolver now (candidate_apparatus_id c) = Ok profile).
  { unfold canonical_capacity_profile_for. rewrite Hcan. done. }
  (* Every offer of this candidate is the one computed here. *)
  assert (Hunique : ∀ b, choice b →
    candidate_apparatus_id (scheduled_candidate b) = candidate_apparatus_id c →
    scheduled_profile b = profile).
  { intros b (_ & Hp & _) Hid. rewrite Hid in Hp. congruence. }
  destruct (supports profile _) eqn:Hsup; cbn [negb] in Hrest.
  2:{ injection Hrest as <-. apply Hskip; [done|]. intros s (b & Hb & Hid & _).
      rewrite <-(Hunique b Hb Hid) in Hsup. destruct Hb as (_ & _ & Hb & _). congruence. }
  apply bind_Ok in Hrest as (dur & Hdur & Hrest).
  assert (Hslot : ∀ b, choice b →
    candidate_apparatus_id (scheduled_candidate b) = candidate_apparatus_id c →
    find_schedule_slot profile input (candidate_apparatus_id c) dur downtimes reservations =
      Ok (scheduled_starts_at b, scheduled_ends_at b)).
  { intros b Hb Hid. pose proof (Hunique b Hb Hid) as Hp.
    destruct Hb as (_ & _ & _ & Hd & Hs). rewrite Hp in Hd, Hs. rewrite Hid in Hs. congruence. }
  destruct (find_schedule_slot _ _ _ _ _ _) as [[s e]|[|err]] eqn:Hfind; [|done|].
  2:{ injection Hrest as <-. apply Hskip; [done|]. intros s (b & Hb & Hid & _).
      by specialize (Hslot b Hb Hid). }
  cbn [best_slot] in Hrest. destruct (is_better s i (best_slot st)) eqn:Hbet;
    injection Hrest as <-; split; simpl.
  - intros b [= <-]. split; [split_and!; done|]. exists c. set_solver.
  - intros i' c' s' [Hin|Hin%list_elem_of_singleton]%elem_of_app Hs'.
    + destruct (Hoff _ _ _ Hin Hs') as (b & Hb & Hle). eexists; split; [done|]. simpl.
      unfold is_better in Hbet. rewrite Hb in Hbet.
      unfold preferred in *. simpl.
      apply orb_true_iff in Hbet as [?%Z.ltb_lt|[?%Z.eqb_eq ?%Nat.ltb_lt]%andb_true_iff]; lia.
    + simplify_eq. eexists; split; [done|]. simpl. destruct Hs' as (b & Hb & Hid & <-).
      specialize (Hslot b Hb Hid). simplify_eq. unfold preferred. lia.
  - intros b (? & c' & ? & ?)%Hbest. split; [done|]. exists c'. set_solver.
  - intros i' c' s' [Hin|Hin%list_elem_of_singleton]%elem_of_app Hs'; [by eapply Hoff|].
    simplify_eq. destruct Hs' as (b & Hb & Hid & <-). specialize (Hslot b Hb Hid). simplify_eq.
    unfold is_better in Hbet. destruct (best_slot st) as [b0|]; [|done].
    exists b0. split; [done|]. unfold preferred.
    apply orb_false_iff in Hbet as [?%Z.ltb_ge Hbet]. apply andb_false_iff in Hbet.
    destruct Hbet as [?%Z.eqb_neq|?%Nat.ltb_ge]; lia.
Qed.
End choice.

(** The entries of an indexed list. *)
Lemma elem_of_imap_pair {A} (l : list A) i x : (i, x) ∈ imap pair l ↔ l !! i = Some x.
Proof.
  rewrite list_elem_of_lookup. split.
  - intros [j Hj]. rewrite list_lookup_imap in Hj. destruct (l !! j) eqn:He; naive_solver.
  - intros Hi. exists i. by rewrite list_lookup_imap, Hi.
Qed.

Lemma search_candidates_inv store map input id st :
  search_candidates resolver now store map input id = Ok st →
  search_inv map input id (btree_values (store_downtimes store))
    (reservations_with_active_sessions (btree_values (store_reservations store))
       (store_sessions store))
    (imap pair ({| candidate_apparatus_id := id; candidate_apparatus := "" |}
                  :: candidate_apparatuses input)) st.
Proof.
  unfold search_candidates. generalize (imap pair ({| candidate_apparatus_id := id;
    candidate_apparatus := "" |} :: candidate_apparatuses input)).
  intros l. revert st. induction l as [|[i c] l IH] using rev_ind; intros st Hst.
  - injection Hst as <-. split; [done|set_solver].
  - rewrite for_each_app in Hst. apply bind_Ok in Hst as (st' & Hl & Hst).
    simpl in Hst. apply bind_Ok in Hst as (st'' & Htry & [= <-]).
    eapply try_candidate_inv; [by apply IH|done].
Qed.

(** A fresh booking, unfolded: the request was normalized, and the chosen
    slot went into the table under its own id. *)
Lemma schedule_fresh store input store' r :
  schedule_apparatus_order resolver now store input = Ok (store', r) →
  ∃ input' id map,
    normalize_schedule_request input = Ok input' ∧
    canonical_id (request_apparatus_id input') = Some id ∧
    is_ok (validated_canonical_apparatus resolver id) = true ∧
    List.find (λ m, trim (map_id m) =s request_order_id input') (store_maps store) = Some map ∧
    match reservation_by_idempotency_key (store_reservations store)
            (request_idempotency_key input') with
    | Some existing => store' = store ∧ r = existing ∧
        trim (reservation_order_id existing) = request_order_id input' ∧
        reservation_apparatus_id existing = id
    | None => ∃ st best,
        search_candidates resolver now store map input' id = Ok st ∧
        best_slot st = Some best ∧ r = new_reservation now input' best ∧
        store' = with_reservations store (<[reservation_id r := r]> (store_reservations store))
    end.
Proof.
  unfold schedule_apparatus_order.
  intros (input' & Hn%lift_Ok & (id & Hid%lift_Ok & (c & Hc%lift_Ok &
    (map & Hm%lift_Ok & Hrest)%bind_Ok)%bind_Ok)%bind_Ok)%bind_Ok.
  exists input', id, map. split; [done|].
  split; [by destruct (canonical_id _); simplify_eq/=|].
  split; [by rewrite Hc|]. split; [by destruct (List.find _ _); simplify_eq/=|].
  assert (Hkey : trim (request_idempotency_key input') = request_idempotency_key input').
  { apply normalize_request_inv in Hn as [-> _]. apply trim_idemp. }
  destruct (reservation_by_idempotency_key _ _) as [ex|] eqn:Hex.
  - destruct (_ || _) eqn:Hconf; [done|]. injection Hrest as <- <-. breflect.
    split_and!; try done. by apply same_apparatus_id_eq.
  - apply bind_Ok in Hrest as ([] & _ & (st & Hst & Hrest)%bind_Ok).
    case_match; [done|]. destruct (best_slot st) as [best|] eqn:Hb; [|by case_match].
    exists st, best. apply bind_Ok in Hrest as ([table r'] & Hput%lift_Ok & [= <- <-]).
    unfold put_reservation in Hput. unfold reservation_by_idempotency_key in Hex.
    rewrite Hkey in Hex. simpl in Hput. rewrite Hex in Hput.
    destruct (profile_finite_capacity _ && _); [done|]. injection Hput as <- <-. by split_and!.
Qed.
End handler.

(** The reservation just booked is the one its key finds. *)
Lemma reservation_by_key_insert table k r :
  reservation_by_idempotency_key table (reservation_idempotency_key r) = None →
  trim (reservation_idempotency_key r) = reservation_idempotency_key r →
  reservation_by_idempotency_key (<[k := r]> table) (reservation_idempotency_key r) = Some r.
Proof.
  unfold reservation_by_idempotency_key. intros Hnone Hkey. rewrite Hkey in *.
  rewrite find_none_elem in Hnone. destruct (List.find _ _) as [x|] eqn:Hx.
  - apply find_elem in Hx as [[k' Hk']%elem_of_btree_values Hx].
    destruct (decide (k = k')) as [->|Hne];
      [rewrite lookup_insert_eq in Hk'; congruence|rewrite lookup_insert_ne in Hk' by done].
    rewrite Hnone in Hx; [done|]. apply elem_of_btree_values. eauto.
  - rewrite find_none_elem in Hx. specialize (Hx r). simpl in Hx.
    rewrite String.eqb_refl in Hx. discriminate Hx. apply elem_of_btree_values.
    exists k. by rewrite lookup_insert_eq.
Qed.

(** * Theorems *)

(** The slot search is total on requests within the calendar: it returns
    the earliest whole minute at which the apparatus is open, free of downtime
    and below capacity and the work ends in time, or reports
    CapacityNoWorkingWindow when the next 366 days have none; it never overflows
    there. *)
Theorem slot_search_finds_earliest `{Clock} profile input id duration downtimes reservations :
  earliest_start_unix input ≤ MAX_UNIX → 0 ≤ duration ≤ u32_MAX →
  match find_schedule_slot profile input id duration downtimes reservations with
  | Ok (s, e) =>
      slot_ok profile input id duration downtimes reservations s ∧ e = s + duration * 60 ∧
      ∀ s', slot_ok profile input id duration downtimes reservations s' → s ≤ s'
  | Err f =>
      f = Fail CapacityNoWorkingWindow ∧
      ∀ s', ¬ slot_ok profile input id duration downtimes reservations s'
  end.
Proof. apply find_slot_cases. Qed.

(** Work of at most six days that passes the working-window test is inside
    one working window at every second of it. *)
Theorem fitting_work_stays_inside_a_window `{C : Clock, !ClockLaws C} profile s e :
  0 ≤ s < e → e ≤ MAX_UNIX → e - s ≤ 6 * SECONDS_PER_DAY →
  profile_working_windows profile ≠ [] →
  fits_working_window profile s e = true →
  ∃ w, w ∈ profile_working_windows profile ∧
    ∀ t, s ≤ t < e →
      iso_weekday t = window_weekday w ∧
      window_start_minute w ≤ day_minute t < window_end_minute w.
Proof. intros. by apply fits_window_inside. Qed.

(** C1: However the reservation table is changed by bookings, cancellations and
    status changes that do not resume paused work, no finite-capacity apparatus
    is at any second booked by more reservations than it has slots. *)
Theorem table_never_overbooked slots table :
  (∀ id, 0 ≤ slots id) → rtc (table_step slots) ∅ table →
  ∀ id t, Z.of_nat (load table id t) ≤ slots id.
Proof. intros Hs Ht. by apply (reachable_within slots). Qed.

(** C32: A new booking made by the scheduling handler is on one of the
    candidates, the requested apparatus first and then the alternatives of the
    request: on the route of the order, supporting the requested capabilities,
    with the effective duration, at the slot the search finds there. It starts
    no later than the slot any candidate offers, the requested apparatus
    included, at a tie the earlier candidate is taken, and adding the booking is
    the only change to the store. *)
Theorem schedule_books_best_slot `{Clock} resolver now store input store' r :
  reservation_by_idempotency_key (store_reservations store) (request_idempotency_key input) = None →
  schedule_apparatus_order resolver now store input = Ok (store', r) →
  ∃ input' id map profile k chosen,
    let downtimes := btree_values (store_downtimes store) in
    let booked := reservations_with_active_sessions (btree_values (store_reservations store))
                    (store_sessions store) in
    let requested := {| candidate_apparatus_id := id; candidate_apparatus := "" |} in
    let candidates := requested :: candidate_apparatuses input' in
    normalize_schedule_request input = Ok input' ∧ map ∈ store_maps store ∧
    trim (map_id map) = request_order_id input' ∧
    canonical_id (request_apparatus_id input') = Some id ∧
    candidates !! k = Some chosen ∧
    candidate_apparatus_id chosen = reservation_apparatus_id r ∧
    in_route map (reservation_apparatus_id r) = true ∧
    canonical_capacity_profile_for resolver now (reservation_apparatus_id r) = Ok profile ∧
    supports profile (capability_requirements input') = true ∧
    effective_duration_minutes profile (duration_minutes input') = Ok (reserved_duration_minutes r) ∧
    find_schedule_slot profile input' (reservation_apparatus_id r) (reserved_duration_minutes r)
      downtimes booked = Ok (reservation_starts_at_unix r, reservation_ends_at_unix r) ∧
    reservation_status r = ScheduleStatus.Planned ∧
    reservation_order_id r = request_order_id input' ∧
    (∀ i c s, candidates !! i = Some c →
       offers resolver now map input' id downtimes booked c s →
       preferred (reservation_starts_at_unix r) (Z.of_nat k) s (Z.of_nat i)) ∧
    store' = with_reservations store (<[reservation_id r := r]> (store_reservations store)).
Proof.
  intros Hnone Hs. apply schedule_fresh in Hs as (input' & id & map & Hn & Hid & _ & Hm & Hcase).
  assert (Hkey : reservation_by_idempotency_key (store_reservations store)
    (request_idempotency_key input') = None).
  { rewrite <-Hnone. apply normalize_request_inv in Hn as [-> _].
    unfold reservation_by_idempotency_key. by rewrite trim_idemp. }
  rewrite Hkey in Hcase. destruct Hcase as (st & best & Hst & Hb & -> & ->).
  apply search_candidates_inv in Hst as [Hbest Hoff].
  destruct (Hbest best Hb) as ((Hal & Hp & Hsup & Hd & Hf) & chosen & Hch & Hcid).
  apply elem_of_imap_pair in Hch. apply find_elem in Hm as [Hin Hmid].
  exists input', id, map, (scheduled_profile best), (scheduled_index best), chosen. simpl.
  apply andb_true_iff in Hal as [_ Hal]. breflect. split_and!; try done.
  intros i c s Hi Ho. destruct (Hoff i c s) as (b & Hb' & Hle); [|done|by simplify_eq].
  by apply elem_of_imap_pair.
Qed.

(** Repeating a request that was booked on the requested apparatus, at any
    later time, returns the same reservation and changes nothing. *)
Theorem schedule_retry_is_idempotent `{Clock} resolver now now' store input store' r id :
  schedule_apparatus_order resolver now store input = Ok (store', r) →
  canonical_id (request_apparatus_id input) = Some id → reservation_apparatus_id r = id →
  schedule_apparatus_order resolver now' store' input = Ok (store', r).
Proof.
  intros Hs Hid Hr. apply schedule_fresh in Hs as (input' & id' & map & Hn & Hid' & Hval & Hm & Hcase).
  pose proof (normalize_request_inv _ _ Hn) as (Hkey & Hord & _).
  assert (id' = id) as ->.
  { unfold normalize_schedule_request in Hn. destruct (_ || _) in Hn; [done|].
    apply bind_Ok in Hn as (? & _ & Hn). destruct (is_some_and _ _) in Hn; [done|].
    injection Hn as <-. unfold canonical_id in *. simpl in Hid'. rewrite trim_idemp in Hid'.
    congruence. }
  assert (Hsame : store_maps store' = store_maps store ∧
    reservation_by_idempotency_key (store_reservations store') (request_idempotency_key input') = Some r ∧
    trim (reservation_order_id r) = request_order_id input').
  { destruct (reservation_by_idempotency_key (store_reservations store) _) as [ex|] eqn:Hex.
    - destruct Hcase as (-> & -> & ? & _). done.
    - destruct Hcase as (st & best & _ & _ & -> & ->). simpl. split; [done|].
      rewrite Hord, trim_idemp. split; [|done].
      by apply (reservation_by_key_insert _ _ (new_reservation now input' best));
        [|simpl; rewrite Hkey, trim_idemp]. }
  destruct Hsame as (Hmaps & Hfind & Horder).
  unfold schedule_apparatus_order. rewrite Hn. simpl. rewrite Hid'. simpl.
  destruct (validated_canonical_apparatus resolver id) as [c|]; [|done]. simpl.
  rewrite Hmaps, Hm. simpl. rewrite Hfind, Horder, String.eqb_refl. simpl.
  by rewrite Hr, (proj2 (same_apparatus_id_eq id id) eq_refl).
Qed.

(** * Starting work now

    The capacity check made when work starts on an apparatus
    ([ensure_apparatus_execution_capacity], capacity/service.rs): it counts the
    distinct other orders occupying the apparatus now, from three sources. *)

(** * Collecting loops *)

(** A loop that adds to a set collects what its bodies add. *)
Lemma foldl_collects {A} (body : gset string → A → gset string) (adds : A → string → Prop) l X x :
  (∀ a X, a ∈ l → x ∈ body X a ↔ x ∈ X ∨ adds a x) →
  x ∈ foldl body X l ↔ x ∈ X ∨ ∃ a, a ∈ l ∧ adds a x.
Proof.
  revert X. induction l as [|a l IH]; intros X Hb; simpl; [set_solver|].
  rewrite IH by (intros; apply Hb; set_solver). rewrite (Hb a) by set_solver. set_solver.
Qed.

Lemma for_each_collects {E A} (body : A → gset string → result E (gset string))
    (adds : A → string → Prop) l X :
  (∀ a X, a ∈ l → ∃ X', body a X = Ok X' ∧ ∀ x, x ∈ X' ↔ x ∈ X ∨ adds a x) →
  ∃ X', for_each body l X = Ok X' ∧ ∀ x, x ∈ X' ↔ x ∈ X ∨ ∃ a, a ∈ l ∧ adds a x.
Proof.
  revert X. induction l as [|a l IH]; intros X Hb; simpl; [exists X; set_solver|].
  destruct (Hb a X) as (Y & -> & HY); [set_solver|]. simpl.
  destruct (IH Y) as (Z & -> & HZ); [intros; apply Hb; set_solver|].
  exists Z. split; [done|]. intros x. rewrite HZ, HY. set_solver.
Qed.

(** * Who occupies an apparatus *)

Section occupancy.
Context (now : Z) (id : ApparatusId) (order_id : string).

(** An order whose id differs from the asking one's beyond ASCII case. *)
Definition another (other : string) : Prop := eq_ignore_ascii_case other order_id = false.

Definition occupies_by_state (kv : string * string) (x : string) : Prop :=
  OrderState.parse kv.2 = Some OrderState.InProgress ∧ another kv.1 ∧ x = trim kv.1.

Definition occupies_by_queue (kv : string * gmap string string) (x : string) : Prop :=
  canonical_id kv.1 = Some id ∧
  ∃ order state, kv.2 !! order = Some state ∧ occupies_by_state (order, state) x.

Definition occupies_by_session (s : OrderRunSession) (x : string) : Prop :=
  session_status s = RunStatus.Active ∧ canonical_id (session_apparatus s) = Some id ∧
  another (session_order_id s) ∧ x = trim (session_order_id s).

Definition occupies_by_reservation (r : ApparatusScheduleReservation) (x : string) : Prop :=
  ScheduleStatus.reserves_capacity (reservation_status r) = true ∧
  reservation_apparatus_id r = id ∧
  (reservation_starts_at_unix r ≤ now < reservation_ends_at_unix r)%Z ∧
  another (reservation_order_id r) ∧ x = trim (reservation_order_id r).

(** The three sources together. *)
Definition occupies (store : capacity_store) (all_states : gmap string (gmap string string))
    (x : string) : Prop :=
  (∃ apparatus states, all_states !! apparatus = Some states ∧
     occupies_by_queue (apparatus, states) x) ∨
  (∃ s, s ∈ store_sessions store ∧ occupies_by_session s x) ∨
  (∃ key r, store_reservations store !! key = Some r ∧ occupies_by_reservation r x).

Definition in_downtime (store : capacity_store) : Prop :=
  ∃ key d, store_downtimes store !! key = Some d ∧ downtime_active d = true ∧
    downtime_apparatus_id d = id ∧
    (downtime_starts_at_unix d ≤ now < downtime_ends_at_unix d)%Z.

Lemma canonical_id_str value other :
  canonical_id value = Some other → apparatus_id_str other = trim value.
Proof. unfold canonical_id, ApparatusId_new. by destruct (validate_shape _); intros [= <-]. Qed.

Lemma occupy_queue_state_adds X kv x :
  x ∈ occupy_queue_state order_id X kv ↔ x ∈ X ∨ occupies_by_state kv x.
Proof.
  unfold occupy_queue_state, occupies_by_state, another.
  destruct (bool_decide _) eqn:Hp; destruct (eq_ignore_ascii_case _ _) eqn:He; simpl;
    [apply bool_decide_eq_true in Hp|apply bool_decide_eq_true in Hp
    |apply bool_decide_eq_false in Hp|apply bool_decide_eq_false in Hp]; set_solver.
Qed.

Lemma occupy_queue_adds kv X :
  is_Some (canonical_id kv.1) →
  ∃ X', occupy_queue id order_id kv X = Ok X' ∧ ∀ x, x ∈ X' ↔ x ∈ X ∨ occupies_by_queue kv x.
Proof.
  intros [other Ho]. unfold occupy_queue, occupies_by_queue. rewrite Ho. simpl.
  destruct (same_apparatus_id other id) eqn:Hs; simpl; eexists; (split; [done|]); intros x.
  - apply same_apparatus_id_eq in Hs as ->.
    rewrite (foldl_collects _ occupies_by_state) by (intros; apply occupy_queue_state_adds).
    assert ((∃ a, a ∈ btree_entries kv.2 ∧ occupies_by_state a x) ↔
      ∃ order state, kv.2 !! order = Some state ∧ occupies_by_state (order, state) x) as ->; [|naive_solver].
    split; [intros ([k v] & ?%elem_of_btree_entries & ?); eauto|].
    intros (k & v & ? & ?). exists (k, v). by rewrite elem_of_btree_entries.
  - assert (other ≠ id) as Hne; [|naive_solver]. intros ->.
    rewrite (proj2 (same_apparatus_id_eq id id)) in Hs; done.
Qed.

Lemma occupy_session_adds s X :
  canonical_id (session_apparatus s) = Some id → session_status s = RunStatus.Active →
  ∃ X', occupy_session id order_id s X = Ok X' ∧ ∀ x, x ∈ X' ↔ x ∈ X ∨ occupies_by_session s x.
Proof.
  intros Hid Hs. unfold occupy_session, occupies_by_session, another. rewrite Hid. simpl.
  rewrite (proj2 (same_apparatus_id_eq id id)) by done. rewrite bool_decide_true by done.
  destruct (eq_ignore_ascii_case _ _) eqn:He; simpl; eexists; (split; [done|]); set_solver.
Qed.

Lemma occupy_reservation_adds X r x :
  x ∈ occupy_reservation now id order_id X r ↔ x ∈ X ∨ occupies_by_reservation r x.
Proof.
  unfold occupy_reservation, occupies_by_reservation, another.
  destruct (_ && _) eqn:Hc.
  - breflect. assert (reservation_apparatus_id r = id) by (by apply same_apparatus_id_eq).
    rewrite elem_of_union, elem_of_singleton. naive_solver.
  - split; [by left|]. intros [?|(Hr & Hi & [Hl Hu] & Ha & _)]; [done|]. exfalso.
    rewrite Hr, Ha, (proj2 (same_apparatus_id_eq _ _) Hi), (proj2 (Z.leb_le _ _) Hl),
      (proj2 (Z.ltb_lt _ _) Hu) in Hc. done.
Qed.

(** The sessions the store returns are the active ones of this apparatus. *)
Lemma active_sessions_elem store s value :
  canonical_id value = Some id →
  s ∈ active_sessions_for_apparatus store (apparatus_id_str id) ↔
  s ∈ store_sessions store ∧ session_status s = RunStatus.Active ∧
  canonical_id (session_apparatus s) = Some id.
Proof.
  intros Hv. unfold active_sessions_for_apparatus. rewrite filterb_elem, andb_true_iff,
    bool_decide_eq_true, String.eqb_eq, (canonical_id_str _ _ Hv), trim_idemp.
  assert (trim (session_apparatus s) = trim value ↔
          canonical_id (session_apparatus s) = Some id) as ->; [|naive_solver].
  split; [unfold canonical_id in *; by intros ->|].
  intros Hs%canonical_id_str. by rewrite <-Hs, <-(canonical_id_str _ _ Hv).
Qed.

(** The three loops run to the end and collect exactly the occupying orders. *)
Lemma occupancy_collected store all_states value :
  canonical_id value = Some id →
  (∀ a, is_Some (all_states !! a) → is_Some (canonical_id a)) →
  ∃ X Y,
    for_each (occupy_queue id order_id) (btree_entries all_states) ∅ = Ok X ∧
    for_each (occupy_session id order_id)
      (active_sessions_for_apparatus store (apparatus_id_str id)) X = Ok Y ∧
    ∀ x, x ∈ foldl (occupy_reservation now id order_id) Y (btree_values (store_reservations store))
      ↔ occupies store all_states x.
Proof.
  intros Hv Hkeys.
  destruct (for_each_collects (occupy_queue id order_id) occupies_by_queue
    (btree_entries all_states) ∅) as (X & HX & HX').
  { intros [k v] X Hk%elem_of_btree_entries. apply occupy_queue_adds. apply Hkeys. eauto. }
  destruct (for_each_collects (occupy_session id order_id) occupies_by_session
    (active_sessions_for_apparatus store (apparatus_id_str id)) X) as (Y & HY & HY').
  { intros s Z (_ & ? & ?)%(active_sessions_elem store s value); [|done].
    by apply occupy_session_adds. }
  exists X, Y. split; [done|]. split; [done|]. intros x.
  rewrite (foldl_collects _ occupies_by_reservation) by (intros; apply occupy_reservation_adds).
  rewrite HY', HX'. unfold occupies. setoid_rewrite elem_of_btree_values.
  setoid_rewrite (active_sessions_elem store _ value Hv).
  split.
  - intros [[[?|([a states] & Ha%elem_of_btree_entries & ?)]|(s & (? & ? & ?) & ?)]|(r & [k ?] & ?)];
      [set_solver|left; eauto|right; left; eauto|right; right; eauto].
  - intros [(a & states & Ha%elem_of_btree_entries & ?)|[(s & ? & Hs)|(k & r & ? & ?)]];
      [left; left; right; eauto|left; right|right; eauto].
    exists s. split; [|done]. destruct Hs as (? & ? & _). done.
Qed.

End occupancy.

Lemma canonical_profile_id resolver now id profile :
  canonical_capacity_profile_for resolver now id = Ok profile → profile_apparatus_id profile = id.
Proof.
  unfold canonical_capacity_profile_for, validated_canonical_apparatus, canonical_capacity_profile.
  intros (c & Hc & Hp)%bind_Ok. apply bind_Ok in Hc as (c' & _ & Hc).
  destruct (negb (same_apparatus_id _ _) || _) eqn:Hb; [done|]. injection Hc as ->. breflect.
  destruct (_ || _); [done|]. injection Hp as <-. simpl. by apply same_apparatus_id_eq.
Qed.

Lemma downtime_test store now id :
  existsb (λ d, downtime_active d && same_apparatus_id (downtime_apparatus_id d) id &&
    (downtime_starts_at_unix d <=? now)%Z && (now <? downtime_ends_at_unix d)%Z)
    (btree_values (store_downtimes store)) = true ↔ in_downtime now id store.
Proof.
  rewrite existsb_elem. unfold in_downtime. setoid_rewrite elem_of_btree_values.
  setoid_rewrite andb_true_iff. setoid_rewrite andb_true_iff. setoid_rewrite andb_true_iff.
  setoid_rewrite Z.leb_le. setoid_rewrite Z.ltb_lt. setoid_rewrite same_apparatus_id_eq.
  naive_solver.
Qed.

(** Work may start on an apparatus exactly when no downtime covers the
    present second, the present minute is inside a working window, and, for
    finite capacity, fewer distinct other orders occupy it (by queue state, run
    session or reservation) than it has slots. *)
Theorem execution_capacity_is_exact `{Clock} resolver now store apparatus order all_states id profile :
  canonical_id apparatus = Some id →
  canonical_capacity_profile_for resolver now id = Ok profile →
  (∀ a, is_Some (all_states !! a) → is_Some (canonical_id a)) →
  (0 ≤ now)%Z → (now + 60 ≤ i64_MAX)%Z →
  ∃ occupied : gset string,
    (∀ x, x ∈ occupied ↔ occupies now id (trim order) store all_states x) ∧
    (ensure_apparatus_execution_capacity resolver now store apparatus order all_states = Ok tt ↔
     ¬ in_downtime now id store ∧ fits_working_window profile now (now + 60) = true ∧
     (profile_finite_capacity profile = true →
      (Z.of_nat (size occupied) < profile_capacity_slots profile)%Z)).
Proof.
  intros Hid Hp Hkeys H0 H1.
  destruct (occupancy_collected now id (trim order) store all_states apparatus Hid Hkeys)
    as (X & Y & HX & HY & Hocc).
  eexists. split; [exact Hocc|]. unfold ensure_apparatus_execution_capacity.
  rewrite Hid. cbn -[canonical_capacity_profile_for existsb for_each add64 fits_working_window].
  rewrite Hp. cbn -[existsb for_each add64 fits_working_window].
  rewrite (canonical_profile_id _ _ _ _ Hp), <-downtime_test, add64_small by (unfold i64_MIN; lia).
  destruct (existsb _ _); simpl; [naive_solver|].
  destruct (fits_working_window _ _ _); simpl; [|naive_solver].
  rewrite HX. simpl. rewrite HY. simpl.
  rewrite check_Ok, andb_false_iff, Z.leb_gt. destruct (profile_finite_capacity profile); naive_solver.
Qed.
