(* ===== verification/Progress.v ===== *)
(** Progress records: run sessions, progress batches and their WIP life cycle.

    Models [src/core/production_map/progress_session/]: the statuses of
    [progress_parts/statuses.rs], the records of [progress.rs], the status
    details of [progress_status.rs] and the batch transitions of
    [service_progress_support.rs], with the opening WIP records of
    [opening_wip.rs].  Payloads are [Json] values.  [payload["k"] = v] panics on
    a payload that is neither an object nor null. *)
From S2P Require Import Prelude RustStr F64 Errors Identity QueueState OrderLayout MapDefinition Scheduler Json.

(** * Statuses (statuses.rs) *)

Definition parse_ascii_variant {T} (value : string) (variants : list (string * T)) : option T :=
  let value := trim value in
  snd <$> List.find (λ nv, eq_ignore_ascii_case value nv.1) variants.

Module OrderRunStatus.
Definition parse (value : string) : option RunStatus.t :=
  parse_ascii_variant value
    [("active", RunStatus.Active); ("paused", RunStatus.Paused); ("frozen", RunStatus.Frozen);
     ("roll_detached", RunStatus.RollDetached); ("completed", RunStatus.Completed)].

Definition as_str (s : RunStatus.t) : string :=
  match s with
  | RunStatus.Active => "active" | RunStatus.Paused => "paused" | RunStatus.Frozen => "frozen"
  | RunStatus.RollDetached => "roll_detached" | RunStatus.Completed => "completed"
  end.

Definition is_open (s : RunStatus.t) : bool :=
  match s with RunStatus.Completed => false | _ => true end.
End OrderRunStatus.

Module BatchStatus.
Inductive t := Paused | RollDetached | Completed | Resumed.
Global Instance eq_dec : EqDecision t.
Proof. solve_decision. Defined.

Definition parse (value : string) : option t :=
  parse_ascii_variant value
    [("paused", Paused); ("roll_detached", RollDetached); ("completed", Completed);
     ("resumed", Resumed)].

Definition as_str (s : t) : string :=
  match s with
  | Paused => "paused" | RollDetached => "roll_detached" | Completed => "completed"
  | Resumed => "resumed"
  end.

Definition is_resumable (s : t) : bool :=
  match s with Paused | RollDetached => true | _ => false end.
End BatchStatus.

Module WipStatus.
Inductive t := Waiting | InUse | Processed | Peremotka.
Global Instance eq_dec : EqDecision t.
Proof. solve_decision. Defined.
Definition eqb (a b : t) : bool := bool_decide (a = b).

Definition parse (value : string) : option t :=
  parse_ascii_variant value
    [("waiting", Waiting); ("peremotka", Peremotka); ("in_use", InUse); ("processed", Processed)].

Definition as_str (s : t) : string :=
  match s with
  | Waiting => "waiting" | Peremotka => "peremotka" | InUse => "in_use" | Processed => "processed"
  end.
End WipStatus.

(** * Opening WIP (opening_wip.rs) *)

Module QuantityBasis.
Inductive t := Measured | Estimated | Unknown.
Definition parse (value : string) : option t :=
  let value := trim value in
  if eq_ignore_ascii_case value "measured" then Some Measured
  else if eq_ignore_ascii_case value "estimated" then Some Estimated
  else if eq_ignore_ascii_case value "unknown" then Some Unknown
  else None.
Definition as_str (s : t) : string :=
  match s with Measured => "measured" | Estimated => "estimated" | Unknown => "unknown" end.
End QuantityBasis.

Module IntakeStatus.
Inductive t := Confirmed | Cancelled.
Global Instance eq_dec : EqDecision t.
Proof. solve_decision. Defined.
Definition parse (value : string) : option t :=
  let value := trim value in
  if eq_ignore_ascii_case value "confirmed" then Some Confirmed
  else if eq_ignore_ascii_case value "cancelled" then Some Cancelled
  else None.
Definition as_str (s : t) : string :=
  match s with Confirmed => "confirmed" | Cancelled => "cancelled" end.
End IntakeStatus.

Module OpeningStatus.
Inductive t := Waiting | InUse | Processed | Void.
Global Instance eq_dec : EqDecision t.
Proof. solve_decision. Defined.
Definition parse (value : string) : option t :=
  let value := trim value in
  if eq_ignore_ascii_case value "waiting" then Some Waiting
  else if eq_ignore_ascii_case value "in_use" then Some InUse
  else if eq_ignore_ascii_case value "processed" then Some Processed
  else if eq_ignore_ascii_case value "void" then Some Void
  else None.
Definition as_str (s : t) : string :=
  match s with
  | Waiting => "waiting" | InUse => "in_use" | Processed => "processed" | Void => "void"
  end.
End OpeningStatus.

Record OpeningWipIntake := {
  intake_id : string;
  intake_idempotency_key : string;
  intake_request_fingerprint : string;
  intake_order_id : string;
  intake_entry_apparatus : string;
  intake_source_operation : string;
  intake_source_apparatus : string;
  intake_current_location : string;
  intake_resume_apparatus : string;
  intake_resume_stage_node_id : string;
  intake_history_status : string;
  intake_status : IntakeStatus.t;
  intake_note : string;
  intake_actor : QueueActionActor;
  intake_created_at_unix : Z;
  intake_updated_at_unix : Z;
}.

Record OpeningWipBatch := {
  opening_batch_id : string;
  opening_parent_batch_id : string;
  opening_intake_id : string;
  opening_order_id : string;
  opening_sequence_no : Z;
  opening_qr_payload : string;
  opening_quantity_basis : QuantityBasis.t;
  opening_quantity : option f64;
  opening_uom : string;
  opening_finished_goods_meter : option f64;
  opening_finished_goods_kg : option f64;
  opening_bobina_kg : option f64;
  opening_diameter : option f64;
  opening_wip_status : OpeningStatus.t;
  opening_used_by_session_id : string;
  opening_used_by_apparatus : string;
  opening_processed_by_session_id : string;
  opening_processed_by_apparatus : string;
  opening_label_item_code : string;
  opening_label_item_name : string;
  opening_created_at_unix : Z;
  opening_updated_at_unix : Z;
}.

Record OpeningWipRecord := {
  record_intake : OpeningWipIntake;
  record_batches : list OpeningWipBatch;
}.

#[global] Instance OpeningWipBatch_rebuild : Rebuild OpeningWipBatch := λ r, {|
  opening_batch_id := opening_batch_id r;
  opening_parent_batch_id := opening_parent_batch_id r;
  opening_intake_id := opening_intake_id r;
  opening_order_id := opening_order_id r;
  opening_sequence_no := opening_sequence_no r;
  opening_qr_payload := opening_qr_payload r;
  opening_quantity_basis := opening_quantity_basis r;
  opening_quantity := opening_quantity r;
  opening_uom := opening_uom r;
  opening_finished_goods_meter := opening_finished_goods_meter r;
  opening_finished_goods_kg := opening_finished_goods_kg r;
  opening_bobina_kg := opening_bobina_kg r;
  opening_diameter := opening_diameter r;
  opening_wip_status := opening_wip_status r;
  opening_used_by_session_id := opening_used_by_session_id r;
  opening_used_by_apparatus := opening_used_by_apparatus r;
  opening_processed_by_session_id := opening_processed_by_session_id r;
  opening_processed_by_apparatus := opening_processed_by_apparatus r;
  opening_label_item_code := opening_label_item_code r;
  opening_label_item_name := opening_label_item_name r;
  opening_created_at_unix := opening_created_at_unix r;
  opening_updated_at_unix := opening_updated_at_unix r |}.

Definition opening_wip_batch_in_use (batch : OpeningWipBatch) (apparatus session_id : string)
    (now : Z) : OpeningWipBatch :=
  batch <| opening_wip_status := OpeningStatus.InUse |>
        <| opening_used_by_session_id := trim session_id |>
        <| opening_used_by_apparatus := trim apparatus |>
        <| opening_processed_by_session_id := "" |>
        <| opening_processed_by_apparatus := "" |>
        <| opening_updated_at_unix := now |>.

Definition opening_wip_batch_processed (batch : OpeningWipBatch) (apparatus session_id : string)
    (now : Z) : OpeningWipBatch :=
  batch <| opening_wip_status := OpeningStatus.Processed |>
        <| opening_processed_by_session_id := trim session_id |>
        <| opening_processed_by_apparatus := trim apparatus |>
        <| opening_updated_at_unix := now |>.

Definition opening_wip_batch_waiting (batch : OpeningWipBatch) (now : Z) : OpeningWipBatch :=
  batch <| opening_wip_status := OpeningStatus.Waiting |>
        <| opening_used_by_session_id := "" |>
        <| opening_used_by_apparatus := "" |>
        <| opening_processed_by_session_id := "" |>
        <| opening_processed_by_apparatus := "" |>
        <| opening_updated_at_unix := now |>.

(** * Progress batches (progress.rs) *)

Record OrderProgressBatchStatusDetail := {
  detail_work_status : string;
  detail_wip_status : string;
  detail_flow_status : string;
  detail_stock_status : string;
}.

Section batches.
Context `{J : Json}.

Record OrderProgressBatch := {
  batch_id : string;
  batch_revision : Z;
  batch_session_id : string;
  batch_started_at_unix : Z;
  batch_completed_at_unix : Z;
  batch_apparatus : string;
  batch_order_id : string;
  batch_action : Action.t;
  batch_status : BatchStatus.t;
  batch_produced_qty : f64;
  batch_uom : string;
  batch_qr_payload : string;
  batch_label_item_code : string;
  batch_label_item_name : string;
  batch_executor_name : string;
  batch_worker_role : string;
  batch_worker_ref : string;
  batch_worker_display_name : string;
  batch_wip_status : WipStatus.t;
  batch_status_detail : OrderProgressBatchStatusDetail;
  batch_current_apparatus : string;
  batch_current_location : string;
  batch_next_apparatus : string;
  batch_parent_batch_id : string;
  batch_used_by_session_id : string;
  batch_used_by_apparatus : string;
  batch_processed_by_session_id : string;
  batch_processed_by_apparatus : string;
  batch_return_ink_kg : option f64;
  batch_lamination_print_leftover_rolls : option f64;
  batch_lamination_film_leftover_rolls : option f64;
  batch_rezka_bosma_waste : option f64;
  batch_rezka_lamination_waste : option f64;
  batch_rezka_edge_waste : option f64;
  batch_total_waste : option f64;
  batch_finished_goods_kg : option f64;
  batch_bobina_kg : option f64;
  batch_finished_goods_meter : option f64;
  batch_diameter : option f64;
  batch_description : string;
  batch_payload_json : value;
}.

#[global] Instance OrderProgressBatch_rebuild : Rebuild OrderProgressBatch := λ r, {|
  batch_id := batch_id r;
  batch_revision := batch_revision r;
  batch_session_id := batch_session_id r;
  batch_started_at_unix := batch_started_at_unix r;
  batch_completed_at_unix := batch_completed_at_unix r;
  batch_apparatus := batch_apparatus r;
  batch_order_id := batch_order_id r;
  batch_action := batch_action r;
  batch_status := batch_status r;
  batch_produced_qty := batch_produced_qty r;
  batch_uom := batch_uom r;
  batch_qr_payload := batch_qr_payload r;
  batch_label_item_code := batch_label_item_code r;
  batch_label_item_name := batch_label_item_name r;
  batch_executor_name := batch_executor_name r;
  batch_worker_role := batch_worker_role r;
  batch_worker_ref := batch_worker_ref r;
  batch_worker_display_name := batch_worker_display_name r;
  batch_wip_status := batch_wip_status r;
  batch_status_detail := batch_status_detail r;
  batch_current_apparatus := batch_current_apparatus r;
  batch_current_location := batch_current_location r;
  batch_next_apparatus := batch_next_apparatus r;
  batch_parent_batch_id := batch_parent_batch_id r;
  batch_used_by_session_id := batch_used_by_session_id r;
  batch_used_by_apparatus := batch_used_by_apparatus r;
  batch_processed_by_session_id := batch_processed_by_session_id r;
  batch_processed_by_apparatus := batch_processed_by_apparatus r;
  batch_return_ink_kg := batch_return_ink_kg r;
  batch_lamination_print_leftover_rolls := batch_lamination_print_leftover_rolls r;
  batch_lamination_film_leftover_rolls := batch_lamination_film_leftover_rolls r;
  batch_rezka_bosma_waste := batch_rezka_bosma_waste r;
  batch_rezka_lamination_waste := batch_rezka_lamination_waste r;
  batch_rezka_edge_waste := batch_rezka_edge_waste r;
  batch_total_waste := batch_total_waste r;
  batch_finished_goods_kg := batch_finished_goods_kg r;
  batch_bobina_kg := batch_bobina_kg r;
  batch_finished_goods_meter := batch_finished_goods_meter r;
  batch_diameter := batch_diameter r;
  batch_description := batch_description r;
  batch_payload_json := batch_payload_json r |}.

(** A string field of a payload, as [get(key).and_then(as_str)] reads it. *)
Definition payload_str (payload : value) (key : string) : option string :=
  v ← json_get key payload; json_as_str v.
Definition payload_bool (payload : value) (key : string) : option bool :=
  v ← json_get key payload; json_as_bool v.

(** [batch.payload_json[key] = x]. *)
Definition set_payload (key : string) (x : value) (batch : OrderProgressBatch)
  : run_result OrderProgressBatch :=
  payload ← expect (json_set key x (batch_payload_json batch));
  Ok (batch <| batch_payload_json := payload |>).

Definition set_payloads (fields : list (string * value)) (batch : OrderProgressBatch)
  : run_result OrderProgressBatch :=
  for_each (λ kx, set_payload kx.1 kx.2) fields batch.

(** [if !payload.is_object() { payload = json!({}) }]. *)
Definition ensure_payload_object (payload : value) : value :=
  if json_is_object payload then payload else json_empty.

(** ** Status details (progress_status.rs) *)

Definition is_layer_remainder (batch : OrderProgressBatch) : bool :=
  bool_decide (payload_str (batch_payload_json batch) "origin" = Some "layer_remainder").

Definition has_consistent_action_status (batch : OrderProgressBatch) : bool :=
  match batch_action batch with
  | Action.Pause =>
      match batch_status batch with BatchStatus.Paused | BatchStatus.Resumed => true | _ => false end
  | Action.DetachRoll =>
      match batch_status batch with
      | BatchStatus.RollDetached | BatchStatus.Resumed => true | _ => false end
  | Action.RollComplete | Action.Complete =>
      match batch_status batch with BatchStatus.Completed => true | _ => false end
  | _ => false
  end.

Definition is_finished_goods_output (batch : OrderProgressBatch) : bool :=
  negb (WipStatus.eqb (batch_wip_status batch) WipStatus.Peremotka) &&
  negb (is_layer_remainder batch) && blank (batch_next_apparatus batch) &&
  has_consistent_action_status batch.

Definition flow_status_for_batch (batch : OrderProgressBatch) : string :=
  let processed_by := trim (batch_processed_by_apparatus batch) in
  match batch_wip_status batch with
  | WipStatus.Waiting =>
      if is_finished_goods_output batch then "free_wip" else "waiting_next_stage"
  | WipStatus.InUse => "in_progress"
  | WipStatus.Peremotka => "peremotka"
  | WipStatus.Processed =>
      if starts_with (to_ascii_lowercase processed_by) "warehouse:"
      then "accepted_to_stock" else "consumed_by_next_stage"
  end.

Definition from_batch (batch : OrderProgressBatch) : OrderProgressBatchStatusDetail :=
  let flow_status := flow_status_for_batch batch in
  {| detail_work_status :=
       match batch_status batch with
       | BatchStatus.Paused => "paused"
       | BatchStatus.RollDetached => "roll_detached"
       | BatchStatus.Resumed => "in_progress"
       | BatchStatus.Completed => "completed"
       end;
     detail_wip_status := WipStatus.as_str (batch_wip_status batch);
     detail_flow_status := flow_status;
     detail_stock_status := if flow_status =s "accepted_to_stock" then "accepted" else "" |}.

Definition refresh_status_detail (batch : OrderProgressBatch) : OrderProgressBatch :=
  batch <| batch_status_detail := from_batch batch |>.

(** ** The WIP transitions (service_progress_support.rs) *)

Definition clear_wip_processing_fields (batch : OrderProgressBatch) : OrderProgressBatch :=
  batch <| batch_processed_by_session_id := "" |>
        <| batch_processed_by_apparatus := "" |>
        <| batch_payload_json := json_remove "wip_processed_at_unix" (batch_payload_json batch) |>.

Definition clear_wip_usage_fields (batch : OrderProgressBatch) : OrderProgressBatch :=
  let batch := clear_wip_processing_fields
    (batch <| batch_used_by_session_id := "" |> <| batch_used_by_apparatus := "" |>) in
  batch <| batch_payload_json := json_remove "wip_in_use_at_unix" (batch_payload_json batch) |>.

Definition wip_waiting_location (apparatus : string) : string :=
  let apparatus := trim apparatus in
  if is_empty apparatus then "" else apparatus +:+ " chiqim".

Definition wip_batch_in_use (batch : OrderProgressBatch) (apparatus session_id : string) (now : Z)
  : run_result OrderProgressBatch :=
  let batch := clear_wip_processing_fields batch in
  let batch :=
    batch <| batch_wip_status := WipStatus.InUse |>
          <| batch_current_apparatus := trim apparatus |>
          <| batch_current_location := trim apparatus |>
          <| batch_used_by_session_id := trim session_id |>
          <| batch_used_by_apparatus := trim apparatus |> in
  batch ← set_payload "wip_in_use_at_unix" (json_Z now) batch;
  Ok (refresh_status_detail batch).

Definition wip_batch_was_consumed_by_producer (batch : OrderProgressBatch) : bool :=
  is_none (json_get "layer_remainder_operation_id" (batch_payload_json batch)) &&
  Action.creates_resumable_output (batch_action batch) &&
  WipStatus.eqb (batch_wip_status batch) WipStatus.Processed &&
  apparatus_ids_match (batch_processed_by_apparatus batch) (batch_apparatus batch) &&
  (blank (batch_used_by_apparatus batch) ||
   apparatus_ids_match (batch_used_by_apparatus batch) (batch_apparatus batch)) &&
  (blank (batch_processed_by_session_id batch) ||
   (trim (batch_processed_by_session_id batch) =s trim (batch_session_id batch))).

(** The waiting state at the producer, shared by the two restorations. *)
Definition waiting_at_producer (batch : OrderProgressBatch) : OrderProgressBatch :=
  let batch := clear_wip_usage_fields batch in
  let batch :=
    batch <| batch_wip_status := WipStatus.Waiting |>
          <| batch_current_apparatus := trim (batch_apparatus batch) |>
          <| batch_current_location := wip_waiting_location (batch_apparatus batch) |> in
  batch <| batch_payload_json := ensure_payload_object (batch_payload_json batch) |>.

Definition restore_self_consumed_wip (batch : OrderProgressBatch)
  : run_result (OrderProgressBatch * bool) :=
  if negb (wip_batch_was_consumed_by_producer batch) then Ok (batch, false)
  else
    batch ← set_payload "recovered_self_consumed_wip" (json_bool true) (waiting_at_producer batch);
    Ok (refresh_status_detail batch, true).

Definition repair_self_consumed_sibling_lineage (batch recovered_parent : OrderProgressBatch)
  : run_result (OrderProgressBatch * bool) :=
  if (trim (batch_parent_batch_id batch) <>s trim (batch_id recovered_parent)) ||
     (trim (batch_session_id batch) <>s trim (batch_session_id recovered_parent)) ||
     negb (apparatus_ids_match (batch_apparatus batch) (batch_apparatus recovered_parent))
  then Ok (batch, false)
  else
    let batch :=
      batch <| batch_parent_batch_id := "" |>
            <| batch_payload_json := ensure_payload_object (batch_payload_json batch) |> in
    batch ← set_payload "recovered_sibling_lineage" (json_bool true) batch;
    Ok (batch, true).

(** The inner loop over the recovered parents stops at the first repair. *)
Fixpoint repair_with (batch : OrderProgressBatch) (parents : list OrderProgressBatch)
  : run_result OrderProgressBatch :=
  match parents with
  | [] => Ok batch
  | parent :: parents =>
      '(batch, repaired) ← repair_self_consumed_sibling_lineage batch parent;
      if repaired : bool then Ok batch else repair_with batch parents
  end.

Fixpoint map_result {E A B} (f : A → result E B) (l : list A) : result E (list B) :=
  match l with
  | [] => Ok []
  | x :: l => y ← f x; l ← map_result f l; Ok (y :: l)
  end.

Definition normalize_self_consumed_wip_history (batches : list OrderProgressBatch)
  : run_result (list OrderProgressBatch) :=
  let recovered_parents := List.filter wip_batch_was_consumed_by_producer batches in
  batches ← map_result (λ batch, repair_with batch recovered_parents) batches;
  map_result (λ batch, fst <$> restore_self_consumed_wip batch) batches.

Definition restore_misbound_output_wip (batch : OrderProgressBatch) (now : Z)
  : run_result OrderProgressBatch :=
  batch ← set_payloads [("recovered_output_input_confusion", json_bool true);
                        ("recovered_at_unix", json_Z now)] (waiting_at_producer batch);
  Ok (refresh_status_detail batch).

Definition wip_batch_worker_handoff (batch : OrderProgressBatch) (apparatus session_id : string)
    (now : Z) : run_result OrderProgressBatch :=
  batch ← wip_batch_in_use batch apparatus session_id now;
  set_payloads [("worker_handoff", json_bool true);
                ("roll_removed_from_apparatus", json_bool false);
                ("worker_handoff_at_unix", json_Z now)] batch.

Definition wip_batch_claimed_after_handoff (batch : OrderProgressBatch)
    (apparatus session_id : string) (now : Z) : run_result OrderProgressBatch :=
  batch ← wip_batch_in_use batch apparatus session_id now;
  set_payloads [("worker_handoff", json_bool false);
                ("roll_removed_from_apparatus", json_bool false);
                ("roll_claimed_after_handoff_at_unix", json_Z now)] batch.

Definition wip_batch_removed_from_apparatus (batch : OrderProgressBatch) (apparatus : string)
    (finished_goods_meter finished_goods_kg bobina_kg : f64) (now : Z)
  : run_result OrderProgressBatch :=
  let batch :=
    batch <| batch_wip_status := WipStatus.Waiting |>
          <| batch_current_apparatus := trim apparatus |>
          <| batch_current_location := trim apparatus +:+ " olib tashlandi" |>
          <| batch_used_by_session_id := "" |>
          <| batch_used_by_apparatus := "" |> in
  batch ← set_payloads [("worker_handoff", json_bool false);
                        ("roll_removed_from_apparatus", json_bool true);
                        ("roll_removed_at_unix", json_Z now);
                        ("roll_removed_finished_goods_meter", json_f64 finished_goods_meter);
                        ("roll_removed_finished_goods_kg", json_f64 finished_goods_kg);
                        ("roll_removed_bobina_kg", json_f64 bobina_kg)] batch;
  Ok (refresh_status_detail (batch <| batch_bobina_kg := Some bobina_kg |>)).

Definition wip_batch_processed (batch : OrderProgressBatch) (apparatus session_id : string)
    (now : Z) : run_result OrderProgressBatch :=
  let batch :=
    batch <| batch_wip_status := WipStatus.Processed |>
          <| batch_current_apparatus := trim apparatus |>
          <| batch_current_location := trim apparatus |>
          <| batch_processed_by_session_id := trim session_id |>
          <| batch_processed_by_apparatus := trim apparatus |> in
  batch ← set_payload "wip_processed_at_unix" (json_Z now) batch;
  Ok (refresh_status_detail batch).

(** [labels.rs]. *)
Definition non_empty_or (value_ fallback : string) : string :=
  let value_ := trim value_ in
  if is_empty value_ then trim fallback else value_.

(** Why a scanned QR is refused, with the machine that holds its roll. *)
Definition progress_batch_usage_error (batch : OrderProgressBatch) (map : ProductionMapDefinition)
  : ProductionMapError :=
  let owner := match batch_wip_status batch with
               | WipStatus.Processed =>
                   non_empty_or (batch_processed_by_apparatus batch) (batch_used_by_apparatus batch)
               | _ => batch_used_by_apparatus batch
               end in
  let owner := non_empty_or owner (batch_current_apparatus batch) in
  let apparatus_name :=
    match List.find (λ node,
            NodeKind.eqb (node_kind node) NodeKind.Apparatus &&
            ((trim (node_apparatus_id node) =s trim owner) || (trim (node_title node) =s trim owner)))
            (map_nodes map) with
    | Some node =>
        let name := trim (node_title node) in
        if starts_with name "apparatus:" then "" else name
    | None => ""
    end in
  match batch_wip_status batch with
  | WipStatus.Processed => ProgressBatchAlreadyUsed apparatus_name
  | WipStatus.InUse => ProgressBatchInUse apparatus_name
  | WipStatus.Waiting | WipStatus.Peremotka => ProgressBatchNotAccepted
  end.

(** [queue/support.rs]: the occurrence a roll goes to. *)
Definition progress_batch_next_stage_node_id (batch : OrderProgressBatch) : string :=
  match (v ← json_get "wip_route_binding" (batch_payload_json batch);
         payload_str v "stage_node_id") with
  | Some stage => trim stage
  | None => trim (default "" (payload_str (batch_payload_json batch) "next_stage_node_id"))
  end.

(** * Run sessions with their payload (progress.rs)

    [OrderRunSession] of [Scheduler] has the fields the scheduler reads. *)
Record RunSession := {
  run_session :> OrderRunSession;
  session_payload_json : value;
}.

Definition set_session_payload (key : string) (x : value) (session : RunSession)
  : run_result RunSession :=
  payload ← expect (json_set key x (session_payload_json session));
  Ok {| run_session := run_session session; session_payload_json := payload |}.

Definition is_print_transfer_continuation (session : RunSession) : bool :=
  is_some_and (json_get "_print_transfer" (session_payload_json session)) (λ marker,
    bool_decide (payload_str marker "session_id" = Some (session_id session)) &&
    bool_decide (payload_str marker "apparatus" = Some (session_apparatus session)) &&
    bool_decide (payload_str marker "stage_node_id" = Some (session_stage_node_id session)) &&
    is_some_and (payload_str marker "transfer_id") (λ id, negb (is_empty id))).

Definition needs_print_transfer_material_check (session : RunSession) : bool :=
  match session_status session with RunStatus.Paused | RunStatus.RollDetached => true | _ => false end &&
  is_print_transfer_continuation session &&
  bool_decide (payload_bool (session_payload_json session) "print_transfer_materials_required" = Some true).

Definition is_requeued_at_tail (session : RunSession) : bool :=
  bool_decide (session_status session = RunStatus.Paused) &&
  bool_decide (payload_bool (session_payload_json session) "requeued_at_tail" = Some true).

Definition order_run_session_was_requeued (session : RunSession) : bool :=
  bool_decide (payload_bool (session_payload_json session) "requeued_at_tail" = Some true).

Definition qolip_reacquisition_required (session : RunSession) : bool :=
  existsb (λ key, bool_decide (payload_bool (session_payload_json session) key = Some true))
    ["qolip_released_on_freeze"; "qolip_released_on_return"; "print_transfer_setup_required"].
End batches.

(** * Actions and statuses (service_progress_support.rs) *)

Definition run_status_for_progress_action (action : Action.t) : RunStatus.t :=
  match action with
  | Action.Pause => RunStatus.Paused
  | Action.Freeze => RunStatus.Frozen
  | Action.DetachRoll => RunStatus.RollDetached
  | Action.Complete => RunStatus.Completed
  | _ => RunStatus.Active
  end.

Definition batch_status_for_progress_action (action : Action.t) : pm_result BatchStatus.t :=
  match action with
  | Action.Pause => Ok BatchStatus.Paused
  | Action.DetachRoll => Ok BatchStatus.RollDetached
  | Action.RollComplete | Action.Complete => Ok BatchStatus.Completed
  | _ => Err ProgressInputInvalid
  end.

(** * Order status (progress_status.rs) *)

Definition flow_status_for_order (order_status : string) : string :=
  if existsb (String.eqb order_status)
       ["print_preflight"; "completed_with_issue"; "completed"; "partially_completed";
        "in_progress"; "paused"; "frozen"; "waiting_next_stage"; "ready"]
  then order_status else "not_started".

Definition work_status_for_order (order_status : string) : string :=
  if order_status =s "print_preflight" then "print_preflight"
  else if order_status =s "in_progress" then "in_progress"
  else if order_status =s "paused" then "paused"
  else if order_status =s "frozen" then "frozen"
  else if (order_status =s "completed") || (order_status =s "completed_with_issue") then "completed"
  else if order_status =s "partially_completed" then "partially_completed"
  else if (order_status =s "waiting_next_stage") || (order_status =s "ready") then "waiting"
  else "not_started".

Definition derive_order_flow_and_stock_status (operational_status : string)
    (free_wip_count waiting_next_stage_count in_use_wip_count accepted_wip_count : nat)
  : string * string :=
  if operational_status =s "print_preflight" then ("print_preflight", "")
  else if (0 <? free_wip_count) && (waiting_next_stage_count =? 0) then ("free_wip", "")
  else if (0 <? accepted_wip_count) && (free_wip_count =? 0) &&
          (waiting_next_stage_count =? 0) && (in_use_wip_count =? 0)
  then ("accepted_to_stock", "accepted")
  else (flow_status_for_order operational_status, "").
