(* ===== verification/ProgressFacts.v ===== *)
(** Progress batches: the WIP life cycle keeps a roll's record well formed.

    [wip_wf] is what the readers of a roll rely on: who holds it agrees with its
    WIP status, its status detail is up to date, and its payload is an object.
    Every transition of the service keeps it, none of them panics, and none
    rewrites the historical facts of the roll.  Repairing the history of rolls
    consumed by their own producer is idempotent. *)
From S2P Require Import Prelude RustStr F64 Errors Identity QueueState OrderLayout MapDefinition Scheduler Json Progress.

Section facts.
Context `{JL : JsonLaws}.

(** * Payload assignments *)

Lemma set_payload_object key x b :
  json_is_object (batch_payload_json b) = true →
  ∃ p, set_payload key x b = Ok (b <| batch_payload_json := p |>) ∧ json_is_object p = true ∧
    ∀ k, json_get k p = if decide (k = key) then Some x else json_get k (batch_payload_json b).
Proof.
  intros Ho. destruct (json_set_object key x _ Ho) as (p & Hp & Hobj & Hg).
  exists p. unfold set_payload. by rewrite Hp.
Qed.

Lemma set_payloads_object fields b :
  json_is_object (batch_payload_json b) = true →
  ∃ p, set_payloads fields b = Ok (b <| batch_payload_json := p |>) ∧ json_is_object p = true ∧
    ∀ k, k ∉ fields.*1 → json_get k p = json_get k (batch_payload_json b).
Proof.
  unfold set_payloads. revert b. induction fields as [|[k x] l IH]; intros b Ho; simpl.
  - exists (batch_payload_json b). by destruct b.
  - destruct (set_payload_object k x b Ho) as (p & -> & Hp & Hg). simpl.
    destruct (IH (b <| batch_payload_json := p |>)) as (q & Hq & Hqo & Hqg); [done|].
    exists q. simpl in *. rewrite Hq. split_and!; [done..|].
    intros k' [Hne Hni]%not_elem_of_cons. rewrite Hqg by done. rewrite Hg. by rewrite decide_False.
Qed.

Lemma ensure_object payload : json_is_object (ensure_payload_object payload) = true.
Proof. unfold ensure_payload_object. destruct (json_is_object payload) eqn:E; [done|]. apply json_empty_object. Qed.

(** * The invariant *)

Definition used_by_nobody (b : OrderProgressBatch) : Prop :=
  batch_used_by_session_id b = "" ∧ batch_used_by_apparatus b = "".
Definition processed_by_nobody (b : OrderProgressBatch) : Prop :=
  batch_processed_by_session_id b = "" ∧ batch_processed_by_apparatus b = "".

Record wip_wf (b : OrderProgressBatch) : Prop := {
  wf_object : json_is_object (batch_payload_json b) = true;
  wf_detail : batch_status_detail b = from_batch b;
  wf_holder :
    match batch_wip_status b with
    | WipStatus.Waiting => used_by_nobody b ∧ processed_by_nobody b
    | WipStatus.InUse =>
        processed_by_nobody b ∧ batch_used_by_apparatus b = batch_current_apparatus b ∧
        batch_current_location b = batch_current_apparatus b
    | WipStatus.Processed =>
        batch_processed_by_apparatus b = batch_current_apparatus b ∧
        batch_current_location b = batch_current_apparatus b
    | WipStatus.Peremotka => True
    end;
}.

(** What is printed on the roll's label and said of its production. *)
Definition same_history (b b' : OrderProgressBatch) : Prop :=
  batch_id b' = batch_id b ∧ batch_session_id b' = batch_session_id b ∧
  batch_apparatus b' = batch_apparatus b ∧ batch_order_id b' = batch_order_id b ∧
  batch_action b' = batch_action b ∧ batch_status b' = batch_status b ∧
  batch_qr_payload b' = batch_qr_payload b ∧ batch_produced_qty b' = batch_produced_qty b ∧
  batch_next_apparatus b' = batch_next_apparatus b.

(** The transitions the service applies to a stored roll. *)
Inductive wip_op :=
  | Use (apparatus session : string) (now : Z)
  | Handoff (apparatus session : string) (now : Z)
  | Claim (apparatus session : string) (now : Z)
  | Remove (apparatus : string) (meter kg bobina : f64) (now : Z)
  | Process (apparatus session : string) (now : Z)
  | RestoreOutput (now : Z)
  | RestoreSelfConsumed.

Definition apply_op (op : wip_op) (b : OrderProgressBatch) : run_result OrderProgressBatch :=
  match op with
  | Use apparatus session now => wip_batch_in_use b apparatus session now
  | Handoff apparatus session now => wip_batch_worker_handoff b apparatus session now
  | Claim apparatus session now => wip_batch_claimed_after_handoff b apparatus session now
  | Remove apparatus meter kg bobina now =>
      wip_batch_removed_from_apparatus b apparatus meter kg bobina now
  | Process apparatus session now => wip_batch_processed b apparatus session now
  | RestoreOutput now => restore_misbound_output_wip b now
  | RestoreSelfConsumed => fst <$> restore_self_consumed_wip b
  end.

(** A roll is removed from the machine that is using it. *)
Definition op_enabled (op : wip_op) (b : OrderProgressBatch) : bool :=
  match op with
  | Remove _ _ _ _ _ => WipStatus.eqb (batch_wip_status b) WipStatus.InUse
  | _ => true
  end.

(** The status detail reads the payload only for the origin of the roll. *)
Lemma from_batch_payload b p :
  json_get "origin" p = json_get "origin" (batch_payload_json b) →
  from_batch (b <| batch_payload_json := p |>) = from_batch b.
Proof.
  intros Hp. unfold from_batch, flow_status_for_batch, is_finished_goods_output,
    is_layer_remainder, payload_str. destruct b; simpl in *. by rewrite Hp.
Qed.

Lemma set_payload_wf key x b :
  key ≠ "origin" → wip_wf b → ∃ b', set_payload key x b = Ok b' ∧ wip_wf b' ∧ same_history b b'.
Proof.
  intros Hk [Ho Hd Hh]. destruct (set_payload_object key x b Ho) as (p & -> & Hp & Hg).
  eexists. split; [done|]. split; [|by destruct b]. split; [by destruct b| |by destruct b].
  rewrite from_batch_payload by (rewrite Hg; by rewrite decide_False). by destruct b.
Qed.

Lemma set_payloads_wf fields b :
  "origin" ∉ fields.*1 → wip_wf b →
  ∃ b', set_payloads fields b = Ok b' ∧ wip_wf b' ∧ same_history b b'.
Proof.
  intros Hk [Ho Hd Hh]. destruct (set_payloads_object fields b Ho) as (p & -> & Hp & Hg).
  eexists. split; [done|]. split; [|by destruct b]. split; [by destruct b| |by destruct b].
  rewrite from_batch_payload by (by rewrite Hg). by destruct b.
Qed.

(** Refreshing the detail after the assignments is well formed when the other
    fields are. *)
Lemma refresh_wf b :
  json_is_object (batch_payload_json b) = true →
  match batch_wip_status b with
  | WipStatus.Waiting => used_by_nobody b ∧ processed_by_nobody b
  | WipStatus.InUse =>
      processed_by_nobody b ∧ batch_used_by_apparatus b = batch_current_apparatus b ∧
      batch_current_location b = batch_current_apparatus b
  | WipStatus.Processed =>
      batch_processed_by_apparatus b = batch_current_apparatus b ∧
      batch_current_location b = batch_current_apparatus b
  | WipStatus.Peremotka => True
  end → wip_wf (refresh_status_detail b).
Proof. intros Ho Hh. split; by destruct b. Qed.

Lemma remove_object k v : json_is_object v = true → json_is_object (json_remove k v) = true.
Proof. by rewrite json_remove_is_object. Qed.

(** Assignments followed by a refresh, on a record whose holder fields agree
    with its status. *)
Ltac assign_and_refresh :=
  match goal with
  | |- context [set_payloads ?l ?b] =>
      destruct (set_payloads_object l b) as (?p & -> & ? & ?); [by simpl; auto using remove_object, ensure_object|]
  | |- context [set_payload ?k ?x ?b] =>
      destruct (set_payload_object k x b) as (?p & -> & ? & ?); [by simpl; auto using remove_object, ensure_object|]
  end;
  eexists; split; [reflexivity|]; split; [apply refresh_wf; [done|]|]; simpl; unfold used_by_nobody, processed_by_nobody, same_history; simpl.

Lemma wip_batch_in_use_wf b apparatus session_id now :
  wip_wf b → ∃ b', wip_batch_in_use b apparatus session_id now = Ok b' ∧ wip_wf b' ∧ same_history b b'.
Proof. intros [Ho _ _]. unfold wip_batch_in_use. assign_and_refresh; done. Qed.

Lemma apply_op_wf op b :
  wip_wf b → op_enabled op b = true →
  ∃ b', apply_op op b = Ok b' ∧ wip_wf b' ∧ same_history b b'.
Proof.
  intros Hwf. pose proof Hwf as [Ho _ Hh]. destruct op; simpl; intros Hen.
  - by apply wip_batch_in_use_wf.
  - unfold wip_batch_worker_handoff.
    destruct (wip_batch_in_use_wf b apparatus session now Hwf) as (b1 & -> & Hwf1 & H1). simpl.
    edestruct (set_payloads_wf) as (b2 & -> & Hwf2 & H2); [|exact Hwf1|]; [set_solver|].
    exists b2. split_and!; [done..|]. unfold same_history in *. naive_solver congruence.
  - unfold wip_batch_claimed_after_handoff.
    destruct (wip_batch_in_use_wf b apparatus session now Hwf) as (b1 & -> & Hwf1 & H1). simpl.
    edestruct (set_payloads_wf) as (b2 & -> & Hwf2 & H2); [|exact Hwf1|]; [set_solver|].
    exists b2. split_and!; [done..|]. unfold same_history in *. naive_solver congruence.
  - unfold wip_batch_removed_from_apparatus. apply bool_decide_eq_true in Hen. rewrite Hen in Hh.
    assign_and_refresh; [|done]. naive_solver.
  - unfold wip_batch_processed. assign_and_refresh; done.
  - unfold restore_misbound_output_wip, waiting_at_producer. assign_and_refresh; done.
  - unfold restore_self_consumed_wip. destruct (negb _) eqn:Hc; simpl; [exists b; by split_and!|].
    unfold waiting_at_producer. assign_and_refresh; done.
Qed.

(** One transition of a stored roll. *)
Definition wip_step (b b' : OrderProgressBatch) : Prop :=
  ∃ op, op_enabled op b = true ∧ apply_op op b = Ok b'.

Lemma same_history_trans b1 b2 b3 : same_history b1 b2 → same_history b2 b3 → same_history b1 b3.
Proof. unfold same_history. naive_solver congruence. Qed.

Lemma wip_run_wf b b' : rtc wip_step b b' → wip_wf b → wip_wf b' ∧ same_history b b'.
Proof.
  induction 1 as [|b1 b2 b3 (op & Hen & Hop) _ IH]; intros Hwf; [by split_and!|].
  destruct (apply_op_wf op b1 Hwf Hen) as (b2' & Hop' & Hwf2 & H12).
  rewrite Hop in Hop'. injection Hop' as <-.
  destruct (IH Hwf2). split; [done|]. by eapply same_history_trans.
Qed.

(** Along every run of WIP transitions a stored roll stays well formed (its
    holder fields agree with its WIP status, its status detail is current, its
    payload is an object) and keeps its identity, producer, label and quantity;
    every enabled transition of a well-formed roll succeeds, so none of the
    payload writes can panic. *)
Theorem wip_lifecycle_preserves_wf b b' :
  wip_wf b → rtc wip_step b b' →
  wip_wf b' ∧ same_history b b' ∧
  ∀ op, op_enabled op b' = true → ∃ b'', apply_op op b' = Ok b''.
Proof.
  intros Hwf Hrun. destruct (wip_run_wf b b' Hrun Hwf) as [Hwf' Hh]. split_and!; [done..|].
  intros op Hen. destruct (apply_op_wf op b' Hwf' Hen) as (b'' & ? & _). eauto.
Qed.

(** * Rolls consumed by their own producer *)

Lemma map_result_Forall2 {E A B} (f : A → result E B) l l' :
  map_result f l = Ok l' ↔ Forall2 (λ x y, f x = Ok y) l l'.
Proof.
  revert l'. induction l as [|x l IH]; intros l'; simpl.
  - split; [intros [= <-]; constructor|by inversion 1].
  - split.
    + intros (y & Hy & (l1 & Hl & [= <-])%bind_Ok)%bind_Ok. constructor; [done|]. by apply IH.
    + inversion 1 as [|? y ? l1 Hy Hl]; subst. rewrite Hy. simpl. apply IH in Hl as ->. done.
Qed.

Lemma map_result_id {E A} (f : A → result E A) l :
  (∀ x, x ∈ l → f x = Ok x) → map_result f l = Ok l.
Proof. intros H. apply map_result_Forall2, Forall_Forall2_diag, Forall_forall. done. Qed.

Lemma map_result_total {E A B} (f : A → result E B) l :
  (∀ x, x ∈ l → ∃ y, f x = Ok y) → ∃ l', map_result f l = Ok l'.
Proof.
  induction l as [|x l IH]; intros H; simpl; [eauto|].
  destruct (H x) as [y ->]; [set_solver|]. simpl.
  destruct IH as [l' ->]; [intros ? ?; apply H; set_solver|]. eauto.
Qed.

Lemma ensure_get k payload : json_get k (ensure_payload_object payload) = json_get k payload.
Proof.
  unfold ensure_payload_object. destruct (json_is_object payload) eqn:E; [done|].
  by rewrite json_get_empty, json_get_object.
Qed.

(** Repairing a sibling keeps everything but its parent and its payload. *)
Lemma repair_sibling_total b parent :
  ∃ b' r, repair_self_consumed_sibling_lineage b parent = Ok (b', r) ∧
    wip_batch_was_consumed_by_producer b' = wip_batch_was_consumed_by_producer b ∧
    batch_wip_status b' = batch_wip_status b ∧ same_history b b'.
Proof.
  unfold repair_self_consumed_sibling_lineage. destruct (_ || _ : bool); [by exists b, false|].
  edestruct (set_payload_object "recovered_sibling_lineage" (json_bool true))
    as (p & -> & Ho & Hg); [simpl; apply ensure_object|].
  eexists _, true. split; [reflexivity|]. split; [|by destruct b].
  unfold wip_batch_was_consumed_by_producer. simpl.
  rewrite Hg. simpl. by rewrite ensure_get.
Qed.

Lemma repair_with_total b parents :
  ∃ b', repair_with b parents = Ok b' ∧
    wip_batch_was_consumed_by_producer b' = wip_batch_was_consumed_by_producer b ∧
    batch_wip_status b' = batch_wip_status b ∧ same_history b b'.
Proof.
  revert b. induction parents as [|parent parents IH]; intros b; simpl; [by exists b|].
  destruct (repair_sibling_total b parent) as (b1 & r & -> & Hc1 & Hs1 & H1). simpl.
  destruct r; [by exists b1|].
  destruct (IH b1) as (b2 & -> & Hc2 & Hs2 & H2). exists b2.
  split_and!; [done|congruence|congruence|]. by eapply same_history_trans.
Qed.

Lemma restore_total b :
  ∃ b', fst <$> restore_self_consumed_wip b = Ok b' ∧
    wip_batch_was_consumed_by_producer b' = false ∧
    batch_wip_status b' =
      (if wip_batch_was_consumed_by_producer b then WipStatus.Waiting else batch_wip_status b) ∧
    same_history b b'.
Proof.
  unfold restore_self_consumed_wip. destruct (wip_batch_was_consumed_by_producer b) eqn:Hc; simpl.
  2: { by exists b. }
  edestruct (set_payload_object "recovered_self_consumed_wip" (json_bool true) (waiting_at_producer b))
    as (p & -> & _ & _); [simpl; apply ensure_object|].
  eexists. split; [reflexivity|]. split; [|by destruct b].
  unfold wip_batch_was_consumed_by_producer. simpl. by rewrite andb_false_r, !andb_false_l.
Qed.

(** The repair of rolls consumed by their own producer is total and idempotent. *)
Theorem normalize_self_consumed_idempotent batches :
  ∃ batches', normalize_self_consumed_wip_history batches = Ok batches' ∧
    normalize_self_consumed_wip_history batches' = Ok batches' ∧
    Forall2 (λ b b', wip_batch_was_consumed_by_producer b' = false ∧ same_history b b' ∧
      batch_wip_status b' = if wip_batch_was_consumed_by_producer b then WipStatus.Waiting
                            else batch_wip_status b) batches batches'.
Proof.
  unfold normalize_self_consumed_wip_history at 1.
  set (parents := List.filter _ batches).
  destruct (map_result_total (λ b, repair_with b parents) batches) as [l1 H1].
  { intros b _. destruct (repair_with_total b parents) as (b' & ? & _). eauto. }
  destruct (map_result_total (λ b, fst <$> restore_self_consumed_wip b) l1) as [l2 H2].
  { intros b _. destruct (restore_total b) as (b' & ? & _). eauto. }
  exists l2. rewrite H1. simpl. split; [done|].
  apply map_result_Forall2 in H1, H2.
  assert (Forall2 (λ b b', wip_batch_was_consumed_by_producer b' = false ∧ same_history b b' ∧
      batch_wip_status b' = if wip_batch_was_consumed_by_producer b then WipStatus.Waiting
                            else batch_wip_status b) batches l2) as Hall.
  { eapply Forall2_trans; [|exact H1|exact H2]. simpl. intros b b1 b2 Hb1 Hb2.
    destruct (repair_with_total b parents) as (? & ? & Hc1 & Hs1 & Hh1).
    destruct (restore_total b1) as (? & ? & Hc2 & Hs2 & Hh2).
    assert (x = b1) as -> by congruence. assert (x0 = b2) as -> by congruence.
    split_and!; [done|by eapply same_history_trans|]. by rewrite Hs2, Hc1, Hs1. }
  split; [|done].
  assert (∀ b, b ∈ l2 → wip_batch_was_consumed_by_producer b = false) as Hn.
  { intros b (i & Hi)%list_elem_of_lookup.
    eapply Forall2_lookup_r in Hall as (? & _ & ? & _); [|exact Hi]. done. }
  unfold normalize_self_consumed_wip_history.
  assert (List.filter wip_batch_was_consumed_by_producer l2 = []) as ->.
  { destruct (List.filter _ l2) as [|b l] eqn:E; [done|].
    assert (b ∈ List.filter wip_batch_was_consumed_by_producer l2) as [Hb Hc]%filterb_elem
      by (rewrite E; set_solver). by rewrite Hn in Hc. }
  rewrite map_result_id by done. simpl. apply map_result_id.
  intros b Hb. unfold restore_self_consumed_wip. by rewrite Hn.
Qed.
End facts.
