(* ===== verification/WipRoute.v ===== *)
(** WIP routes: which occurrence consumes a roll, and on which machines.

    Models [src/core/production_map/wip_route.rs] and the route part of
    [chain/projection.rs] (fingerprint, route classes, the route cache), with
    [waiting_reentry_stage_node_id] of [queue/support.rs].  The resolver asks a
    projection for stages and neighbours, so it is a program of the monad
    [proj_m] over the projection's caches. *)
From Stdlib Require Import Ascii.
From S2P Require Import Prelude RustStr F64 Errors Identity QueueState OrderLayout MapDefinition Formula Compiler Bfs Chain Projection Scheduler Json Progress.

(** * Programs over a projection *)

(** Reading through a projection: the caches are threaded. *)
Definition view (A : Type) : Type := ProjectionMap → ProjectionMap * A.
Global Instance view_ret : MRet view := λ A a p, (p, a).
Global Instance view_bind : MBind view := λ A B f m p, let '(p, a) := m p in f a p.

(** [projection.map()]. *)
Definition view_map : view ProductionMapDefinition := λ p, (p, proj_map p).

(** A loop whose body reads the projection. *)
Fixpoint view_fold {A S} (body : A → S → view S) (l : list A) (s : S) : view S :=
  match l with
  | [] => mret s
  | x :: l => s ← body x s; view_fold body l s
  end.
(** [iter().any] and [iter().filter] with such a predicate. *)
Fixpoint view_any {A} (f : A → view bool) (l : list A) : view bool :=
  match l with
  | [] => mret false
  | x :: l => b ← f x; if b : bool then mret true else view_any f l
  end.
Definition view_filter {A} (f : A → view bool) (l : list A) : view (list A) :=
  view_fold (λ x acc, b ← f x; mret (if b : bool then acc ++ [x] else acc)) l [].

(** Reads that may fail. *)
Definition proj_m (A : Type) : Type := view (pm_result A).
Global Instance proj_ret : MRet proj_m := λ A a p, (p, Ok a).
Global Instance proj_bind : MBind proj_m := λ A B f m p,
  let '(p, r) := m p in
  match r with Ok a => f a p | Err e => (p, Err e) end.

Definition from_result {A} (r : pm_result A) : proj_m A := λ p, (p, r).
Definition get_map : proj_m ProductionMapDefinition := λ p, (p, Ok (proj_map p)).
(** A query of [Projection], which cannot fail. *)
Definition query_m {A} (q : ProjectionMap → ProjectionMap * A) : proj_m A :=
  λ p, let '(p, a) := q p in (p, Ok a).

(** * Code outside the repository

    [serde_json]'s decoding of a stored route binding and the byte chunks
    [serde_json::to_writer] writes for a route class; the SHA-256 digest of a
    serialized map. *)
Section types.
Context `{J : Json}.

(** The fields of a batch a route depends on, as [route_class] serializes
    them. *)
Record RouteKey := {
  key_order_id : string;
  key_records_output : bool;
  key_wip_status : WipStatus.t;
  key_apparatus : string;
  key_next_apparatus : string;
  key_current_apparatus : string;
  key_used_by_apparatus : string;
  key_used : bool;
  key_processed_by_apparatus : string;
  key_processed : bool;
  key_stage_node_id : string;
  key_next_stage_node_id : string;
  key_has_binding : bool;
  key_binding : option value;
}.
End types.

Class RouteCodec {J : Json} := {
  route_of_json : value → option WipInputRoute;
  key_chunks : RouteKey → list string;
  map_digest : ProductionMapDefinition → string;
}.

Fixpoint concat_chunks (l : list string) : string :=
  match l with [] => "" | s :: l => s +:+ concat_chunks l end.

(** Serialization is lossless. *)
Class RouteCodecLaws {J : Json} (C : RouteCodec) := {
  key_chunks_inj k1 k2 : concat_chunks (key_chunks k1) = concat_chunks (key_chunks k2) → k1 = k2;
}.

Section routes.
Context `{J : Json} `{C : !RouteCodec}.

(** * The resolver (wip_route.rs) *)

Definition production_map_fingerprint (map : ProductionMapDefinition) : string := map_digest map.

Definition normalized_route_batch (batch : OrderProgressBatch) : run_result OrderProgressBatch :=
  '(batch, _) ← restore_self_consumed_wip batch;
  Ok (refresh_status_detail batch).

Definition actionable_wip (batch : OrderProgressBatch) : bool :=
  WipStatus.eqb (batch_wip_status batch) WipStatus.Waiting &&
  blank (batch_used_by_apparatus batch) && blank (batch_used_by_session_id batch) &&
  blank (batch_processed_by_apparatus batch) && blank (batch_processed_by_session_id batch) &&
  Action.records_progress_output (batch_action batch).

Definition field (batch : OrderProgressBatch) (key : string) : string :=
  trim (default "" (payload_str (batch_payload_json batch) key)).

Definition node (map : ProductionMapDefinition) (id : string) : option ProductionMapNode :=
  List.find (λ n, (trim (node_id n) =s id) && is_apparatus n) (map_nodes map).

Definition occurrence (n : ProductionMapNode) : string :=
  if blank (alternative_group_id n) then "node:" +:+ trim (node_id n)
  else "group:" +:+ trim (alternative_group_id n).

Definition stage_apparatus (stages : list ChainStage) (id : string) : option string :=
  stage ← List.find (λ stage, trim (stage_node_id stage) =s trim id) stages;
  stage_apparatus_id stage.

(** [stage_apparatus(..).is_some_and(|id| apparatus_ids_match(id, apparatus))]. *)
Definition runs_on (stages : list ChainStage) (id apparatus : string) : bool :=
  is_some_and (stage_apparatus stages id) (λ a, apparatus_ids_match a apparatus).

Definition stage_runs_on (apparatus : string) (stage : ChainStage) : bool :=
  is_some_and (stage_apparatus_id stage) (λ a, apparatus_ids_match a apparatus).

Definition route_binding (batch : OrderProgressBatch) : pm_result (option WipInputRoute) :=
  match json_get "wip_route_binding" (batch_payload_json batch) with
  | None => Ok None
  | Some v => Some <$> ok_or (route_of_json v) WipRouteDestinationUnresolved
  end.

(** The source when the batch does not name its occurrence: the only producer
    of its apparatus, among the predecessors of an explicit target. *)
Definition legacy_source (map : ProductionMapDefinition) (stages : list ChainStage)
    (batch : OrderProgressBatch) (target_id : string) : proj_m ProductionMapNode :=
  _ ← from_result (check (negb (is_empty target_id) && is_none (node map target_id))
                     WipRouteSourceUnresolved);
  _ ← from_result (check (is_empty target_id && blank (batch_next_apparatus batch))
                     WipRouteSourceUnresolved);
  possible_sources ←
    (if is_empty target_id then mret stages else query_m (λ p, previous_stages p target_id));
  let sources : gset string :=
    list_to_set (stage_node_id <$> List.filter (stage_runs_on (batch_apparatus batch))
                                     possible_sources) in
  match elements sources with
  | [id] => from_result (ok_or (node map id) WipRouteSourceUnresolved)
  | _ => from_result (Err WipRouteSourceUnresolved)
  end.

Definition explicit_source (map : ProductionMapDefinition) (stages : list ChainStage)
    (batch : OrderProgressBatch) (source_id : string) : pm_result ProductionMapNode :=
  source ← ok_or (node map source_id) WipRouteSourceUnresolved;
  _ ← check (negb (runs_on stages source_id (batch_apparatus batch))) WipRouteSourceUnresolved;
  Ok source.

(** The logical successors: candidate nodes by occurrence. *)
Definition push_peer (map : ProductionMapDefinition) (stages : list ChainStage)
    (next : ProductionMapNode) (candidates : list ProductionMapNode) (peer : ProductionMapNode)
  : list ProductionMapNode :=
  if stage_node_ids_match_for_map map (node_id next) (node_id peer) &&
     is_some (stage_apparatus stages (node_id peer)) &&
     negb (existsb (λ candidate, node_id candidate =s node_id peer) candidates)
  then candidates ++ [peer] else candidates.

Definition add_successor (map : ProductionMapDefinition) (stages : list ChainStage)
    (groups : gmap string (list ProductionMapNode)) (stage : ChainStage)
  : gmap string (list ProductionMapNode) :=
  match node map (stage_node_id stage) with
  | None => groups
  | Some next =>
      let candidates := default [] (groups !! occurrence next) in
      <[occurrence next := foldl (push_peer map stages next) candidates (map_nodes map)]> groups
  end.

Definition route_groups (map : ProductionMapDefinition) (stages successors : list ChainStage)
  : gmap string (list ProductionMapNode) :=
  foldl (add_successor map stages) ∅ successors.

(** The destination of a batch whose explicit target is missing or deleted. *)
Definition recovered_target (stages : list ChainStage) (groups : gmap string (list ProductionMapNode))
    (batch : OrderProgressBatch) (has_binding : bool) (target_id : string) (legacy : bool)
  : pm_result (ProductionMapNode * bool) :=
  _ ← check (has_binding || (negb (actionable_wip batch) && negb legacy))
        WipRouteDestinationUnresolved;
  _ ← check (1 <? size groups) WipRouteAmbiguous;
  candidates ← ok_or (head (btree_values groups)) WipRouteDestinationUnresolved;
  _ ← check (negb (is_empty target_id) && blank (batch_next_apparatus batch))
        WipRouteDestinationUnresolved;
  let matching := List.filter (λ n, blank (batch_next_apparatus batch) ||
                                runs_on stages (node_id n) (batch_next_apparatus batch)) candidates in
  target ←
    (if blank (batch_next_apparatus batch) then ok_or (head candidates) WipRouteDestinationUnresolved
     else
       _ ← check (1 <? length matching) WipRouteAmbiguous;
       ok_or (head matching) WipRouteDestinationUnresolved);
  Ok (target, negb legacy).

Definition route_target (map : ProductionMapDefinition) (stages : list ChainStage)
    (groups : gmap string (list ProductionMapNode)) (batch : OrderProgressBatch)
    (binding : option WipInputRoute) (target_id : string) (legacy : bool)
  : pm_result (ProductionMapNode * bool) :=
  match (if is_empty target_id then None else node map target_id) with
  | Some target =>
      _ ← check (is_none (groups !! occurrence target)) WipRouteDestinationUnresolved;
      Ok (target, is_some_and binding route_remapped)
  | None => recovered_target stages groups batch (is_some binding) target_id legacy
  end.

(** A roll in use without a pinned route belongs to the machine that uses it. *)
Definition owned_target (stages : list ChainStage) (candidates : list ProductionMapNode)
    (batch : OrderProgressBatch) (binding : option WipInputRoute) (target : ProductionMapNode)
  : pm_result ProductionMapNode :=
  if is_none binding && WipStatus.eqb (batch_wip_status batch) WipStatus.InUse then
    let used_by := if blank (batch_used_by_apparatus batch)
                   then trim (batch_current_apparatus batch)
                   else trim (batch_used_by_apparatus batch) in
    let owned := List.filter (λ candidate, runs_on stages (node_id candidate) used_by) candidates in
    _ ← check (1 <? length owned) WipRouteAmbiguous;
    ok_or (head owned) WipRouteDestinationUnresolved
  else Ok target.

(** The checks that remain once the target is known. *)
Definition check_destination (stages : list ChainStage) (candidates : list ProductionMapNode)
    (batch : OrderProgressBatch) (binding : option WipInputRoute) (target : ProductionMapNode)
  : pm_result unit :=
  _ ← check (is_some binding && negb (blank (batch_used_by_apparatus batch)) &&
             negb (runs_on stages (node_id target) (batch_used_by_apparatus batch)))
        WipRouteDestinationUnresolved;
  check (is_none binding && negb (blank (batch_next_apparatus batch)) &&
         negb (existsb (λ n, runs_on stages (node_id n) (batch_next_apparatus batch)) candidates))
    WipRouteDestinationUnresolved.

(** [collect::<BTreeSet<_>>().into_iter().collect()]. *)
Definition consumer_ids (stages : list ChainStage) (candidates : list ProductionMapNode)
  : list string :=
  sorted_strings (elements (list_to_set (C := gset string)
    (omap (λ n, stage_apparatus stages (node_id n)) candidates))).

Definition fingerprint (p : ProjectionMap) : ProjectionMap * string :=
  if negb (proj_cached p) then (p, production_map_fingerprint (proj_map p))
  else
    let value := match proj_fingerprint p with
                 | Some value => value
                 | None => production_map_fingerprint (proj_map p)
                 end in
    (p <| proj_fingerprint := Some value |>, value).

Definition route_target_id (batch : OrderProgressBatch) (binding : option WipInputRoute) : string :=
  match binding with
  | Some r => route_stage_node_id r
  | None => field batch "next_stage_node_id"
  end.

Definition is_legacy_route (batch : OrderProgressBatch) (binding : option WipInputRoute)
    (source_id target_id : string) : bool :=
  is_none binding && is_empty source_id && is_empty target_id &&
  negb (blank (batch_next_apparatus batch)).

Definition resolve_wip_input_route_projected (batch : OrderProgressBatch) : proj_m WipInputRoute :=
  map ← get_map;
  _ ← from_result (check ((trim (batch_order_id batch) <>s trim (map_id map)) ||
                          negb (Action.records_progress_output (batch_action batch)))
                     ProgressBatchNotAccepted);
  binding ← from_result (route_binding batch);
  let target_id := route_target_id batch binding in
  let source_id := field batch "stage_node_id" in
  stages ← query_m stages;
  let legacy := is_legacy_route batch binding source_id target_id in
  _ ← from_result (check (legacy &&
        negb (length (List.filter (stage_runs_on (batch_next_apparatus batch)) stages) =? 1))
        WipRouteAmbiguous);
  source ← (if negb (is_empty source_id) then from_result (explicit_source map stages batch source_id)
            else legacy_source map stages batch target_id);
  _ ← from_result (check (is_some_and binding (λ r, route_source_stage_node_id r <>s node_id source))
                     WipRouteSourceUnresolved);
  successors ← query_m (λ p, next_stages p (node_id source));
  let groups := route_groups map stages successors in
  '(target, remapped) ← from_result (route_target map stages groups batch binding target_id legacy);
  candidates ← from_result (ok_or (groups !! occurrence target) WipRouteDestinationUnresolved);
  target ← from_result (owned_target stages candidates batch binding target);
  _ ← from_result (check_destination stages candidates batch binding target);
  digest ← query_m fingerprint;
  mret {| route_source_stage_node_id := node_id source;
          route_stage_node_id := node_id target;
          route_consumer_apparatus_ids := consumer_ids stages candidates;
          route_map_fingerprint := digest;
          route_remapped := remapped |}.

Definition resolve_wip_input_route (map : ProductionMapDefinition) (batch : OrderProgressBatch)
  : pm_result WipInputRoute :=
  (resolve_wip_input_route_projected batch (projection_reference map)).2.

(** * Protecting the rolls of an edited map *)

Definition validate_batch_route (previous next : ProductionMapDefinition)
    (batch : OrderProgressBatch) (_ : unit) : run_result unit :=
  batch ← normalized_route_batch batch;
  let in_use := WipStatus.eqb (batch_wip_status batch) WipStatus.InUse in
  if negb (actionable_wip batch) && negb in_use then Ok tt
  else match resolve_wip_input_route previous batch with
  | Err _ => Ok tt
  | Ok previous_route =>
      next_route ← lift (resolve_wip_input_route next batch);
      if in_use then
        _ ← lift (check (route_source_stage_node_id previous_route <>s
                         route_source_stage_node_id next_route) WipRouteSourceUnresolved);
        lift (check (route_stage_node_id previous_route <>s route_stage_node_id next_route)
                WipRouteDestinationUnresolved)
      else Ok tt
  end.

Definition validate_map_wip_routes (previous next : ProductionMapDefinition)
    (batches : list OrderProgressBatch) : run_result unit :=
  for_each (validate_batch_route previous next) batches tt.

Definition route_error_code (error : ProductionMapError) : string :=
  match error with
  | WipRouteSourceUnresolved => "wip_route_source_unresolved"
  | WipRouteDestinationUnresolved => "wip_route_destination_unresolved"
  | WipRouteAmbiguous => "wip_route_ambiguous"
  | WipRouteChanged => "wip_route_changed"
  | _ => "progress_batch_not_accepted"
  end.

(** * The route cache (chain/projection.rs) *)

Definition MAX_ROUTE_CLASSES : nat := 256.
Definition MAX_ROUTE_KEY_BYTES : nat := 4096.

(** [RouteKeyWriter::write]. *)
Definition write_chunk (buffer bytes : string) : option string :=
  if MAX_ROUTE_KEY_BYTES - String.length buffer <? String.length bytes then None
  else Some (buffer +:+ bytes).

Fixpoint write_all (chunks : list string) (buffer : string) : option string :=
  match chunks with
  | [] => Some buffer
  | bytes :: chunks => buffer ← write_chunk buffer bytes; write_all chunks buffer
  end.

Definition route_key (batch : OrderProgressBatch) : RouteKey :=
  {| key_order_id := trim (batch_order_id batch);
     key_records_output := Action.records_progress_output (batch_action batch);
     key_wip_status := batch_wip_status batch;
     key_apparatus := trim (batch_apparatus batch);
     key_next_apparatus := trim (batch_next_apparatus batch);
     key_current_apparatus := trim (batch_current_apparatus batch);
     key_used_by_apparatus := trim (batch_used_by_apparatus batch);
     key_used := negb (blank (batch_used_by_session_id batch));
     key_processed_by_apparatus := trim (batch_processed_by_apparatus batch);
     key_processed := negb (blank (batch_processed_by_session_id batch));
     key_stage_node_id := field batch "stage_node_id";
     key_next_stage_node_id := field batch "next_stage_node_id";
     key_has_binding := is_some (json_get "wip_route_binding" (batch_payload_json batch));
     key_binding := json_get "wip_route_binding" (batch_payload_json batch) |}.

Definition route_class (batch : OrderProgressBatch) : option string :=
  write_all (key_chunks (route_key batch)) "".

Definition route (batch : OrderProgressBatch) : proj_m WipInputRoute := λ p,
  if negb (proj_cached p) then resolve_wip_input_route_projected batch p
  else match route_class batch with
  | None => resolve_wip_input_route_projected batch p
  | Some key =>
      match proj_routes p !! key with
      | Some value => (p, value)
      | None =>
          let '(p, value) := resolve_wip_input_route_projected batch p in
          if size (proj_routes p) <? MAX_ROUTE_CLASSES
          then (p <| proj_routes := <[key := value]> (proj_routes p) |>, value)
          else (p, value)
      end
  end.

(** [queue/support.rs]: the occurrence where a waiting roll re-enters the
    queue of an apparatus. *)
Fixpoint waiting_reentry_stage_node_id (batches : list OrderProgressBatch)
    (order_id apparatus : string) (p : ProjectionMap) : ProjectionMap * option string :=
  match batches with
  | [] => (p, None)
  | batch :: batches =>
      if (trim (batch_order_id batch) <>s trim order_id) ||
         negb (WipStatus.eqb (batch_wip_status batch) WipStatus.Waiting)
      then waiting_reentry_stage_node_id batches order_id apparatus p
      else
        let '(p, r) := route batch p in
        match r with
        | Ok r =>
            if existsb (String.eqb apparatus) (route_consumer_apparatus_ids r)
            then (p, Some (route_stage_node_id r))
            else waiting_reentry_stage_node_id batches order_id apparatus p
        | Err _ => waiting_reentry_stage_node_id batches order_id apparatus p
        end
  end.
End routes.
