(* ===== verification/WipRouteFacts.v ===== *)
(** WIP routes: the route cache is invisible and bounded, resolved routes are
    sound, and a validated edit of a map strands no roll in use. *)
From Stdlib Require Import Ascii.
From S2P Require Import Prelude RustStr F64 Errors Identity QueueState OrderLayout MapDefinition Formula Compiler GraphFacts Bfs Chain ChainFacts Projection Scheduler Json Progress ProgressFacts WipRoute.

(** * The caches of a projection *)

Section caches.
Context `{J : Json} `{C : !RouteCodec}.

Record proj_inv (p : ProjectionMap) : Prop := {
  inv_cache : cache_ok p;
  inv_fingerprint : ∀ s, proj_fingerprint p = Some s →
    s = production_map_fingerprint (proj_map p);
  inv_routes : ∀ key v, proj_routes p !! key = Some v → ∃ batch,
    route_class batch = Some key ∧ v = resolve_wip_input_route (proj_map p) batch;
  inv_bound : size (proj_routes p) ≤ MAX_ROUTE_CLASSES;
}.

(** A program that reads the map only through the caches: its result depends on
    the map alone, and the caches stay right. *)
Definition transparent {A} (m : view A) : Prop := ∀ p q,
  proj_inv p → proj_inv q → proj_map p = proj_map q →
  (m p).2 = (m q).2 ∧ proj_map (m p).1 = proj_map p ∧ proj_inv (m p).1.

Lemma transparent_result {A} (r : pm_result A) : transparent (from_result r).
Proof. by intros p q Hp _ _. Qed.

Lemma transparent_ret {A} (a : A) : transparent (A := pm_result A) (mret (M := proj_m) a).
Proof. by intros p q Hp _ _. Qed.

Lemma transparent_vret {A} (a : A) : transparent (mret (M := view) a).
Proof. by intros p q Hp _ _. Qed.

Lemma transparent_map : transparent get_map.
Proof. intros p q Hp _ Hm. simpl. by rewrite Hm. Qed.

Lemma transparent_view_map : transparent view_map.
Proof. by intros p q Hp _ Hm. Qed.

Lemma transparent_vbind {A B} (m : view A) (k : A → view B) :
  transparent m → (∀ a, transparent (k a)) → transparent (mbind (M := view) k m).
Proof.
  intros Hm Hk p q Hp Hq Hpq. unfold mbind, view_bind.
  destruct (Hm p q Hp Hq Hpq) as (Hr & Hmp & Hip).
  destruct (Hm q p Hq Hp (eq_sym Hpq)) as (_ & Hmq & Hiq).
  destruct (m p) as [p1 a], (m q) as [q1 a']; simpl in *; subst a'.
  destruct (Hk a p1 q1) as (-> & Hm1 & Hi1); [done..|congruence|].
  split_and!; [done|congruence|done].
Qed.

Lemma transparent_bind {A B} (m : proj_m A) (k : A → proj_m B) :
  transparent m → (∀ a, transparent (k a)) → transparent (mbind (M := proj_m) k m).
Proof.
  intros Hm Hk.
  apply (transparent_vbind m (λ r, match r with Ok a => k a | Err e => λ p, (p, Err e) end)) in Hm;
    [|intros [a|e]; [apply Hk|by intros p q Hp _ _]].
  intros p q Hp Hq Hpq. specialize (Hm p q Hp Hq Hpq).
  unfold mbind, proj_bind, view_bind in *. by destruct (m p) as [? []], (m q) as [? []].
Qed.

Lemma transparent_fold {A S} (body : A → S → view S) l s :
  (∀ x s, transparent (body x s)) → transparent (view_fold body l s).
Proof.
  intros Hb. revert s. induction l as [|x l IH]; intros s; simpl; [apply transparent_vret|].
  by apply transparent_vbind.
Qed.

Lemma transparent_any {A} (f : A → view bool) l :
  (∀ x, transparent (f x)) → transparent (view_any f l).
Proof.
  intros Hf. induction l as [|x l IH]; simpl; [apply transparent_vret|].
  apply transparent_vbind; [done|]. intros []; [apply transparent_vret|done].
Qed.

Lemma transparent_filter {A} (f : A → view bool) l :
  (∀ x, transparent (f x)) → transparent (view_filter f l).
Proof.
  intros Hf. apply transparent_fold. intros x s. apply transparent_vbind; [done|].
  intros b. apply transparent_vret.
Qed.

(** A query answers as a function of the map and keeps fingerprint and routes. *)
Lemma transparent_view {A} (q : view A) (f : ProductionMapDefinition → A) :
  (∀ p, proj_inv p → (q p).2 = f (proj_map p) ∧ proj_map (q p).1 = proj_map p ∧
     proj_inv (q p).1) →
  transparent q.
Proof.
  intros Hq p p' Hp Hp' Hm.
  destruct (Hq p Hp) as (Ha & ? & ?), (Hq p' Hp') as (Ha' & _).
  split_and!; [congruence|done..].
Qed.

Lemma transparent_query {A} (q : view A) : transparent q → transparent (query_m q).
Proof.
  intros Hq p p' Hp Hp' Hm. specialize (Hq p p' Hp Hp' Hm). unfold query_m.
  destruct (q p) as [p1 a], (q p') as [p1' a']; simpl in *. destruct Hq as (-> & ? & ?).
  by split_and!.
Qed.

Lemma inv_frame p p' :
  proj_inv p → cache_ok p' → proj_map p' = proj_map p →
  proj_fingerprint p' = proj_fingerprint p → proj_routes p' = proj_routes p → proj_inv p'.
Proof. intros [_ Hf Hr Hb] Hc Hm Hf' Hr'. split; rewrite ?Hf', ?Hr', ?Hm; done. Qed.

Lemma stages_frame p :
  proj_fingerprint (stages p).1 = proj_fingerprint p ∧ proj_routes (stages p).1 = proj_routes p.
Proof. unfold stages. by destruct (proj_cached p). Qed.

Lemma adjacent_frame p id previous :
  proj_fingerprint (adjacent_stages p id previous).1 = proj_fingerprint p ∧
  proj_routes (adjacent_stages p id previous).1 = proj_routes p.
Proof.
  unfold adjacent_stages. destruct (if proj_cached p then _ else _); [done|].
  pose proof (stages_frame p) as H. destruct (stages p) as [p' s]. simpl in *.
  by destruct (proj_cached p' && _).
Qed.

Lemma transparent_stages : transparent stages.
Proof.
  apply (transparent_view _ linear_work_stages). intros p Hp.
  destruct (stages_ok p (inv_cache p Hp)) as (? & ? & _ & ?). destruct (stages_frame p).
  split_and!; [done..|]. by eapply inv_frame.
Qed.

Lemma transparent_adjacent id previous : transparent (λ p, adjacent_stages p id previous).
Proof.
  apply (transparent_view _ (λ map, adjacent_physical_stages_for_node map id previous)).
  intros p Hp. destruct (adjacent_stages_ok p id previous (inv_cache p Hp)) as (? & ? & ?).
  destruct (adjacent_frame p id previous). split_and!; [done..|]. by eapply inv_frame.
Qed.

Lemma cache_ok_fields p p' :
  proj_map p' = proj_map p → proj_stages p' = proj_stages p → proj_adjacent p' = proj_adjacent p →
  cache_ok p → cache_ok p'.
Proof. intros Hm Hs Ha [H1 H2]. split; by rewrite ?Hm, ?Hs, ?Ha. Qed.

Lemma fingerprint_ok p :
  proj_inv p → (fingerprint p).2 = production_map_fingerprint (proj_map p) ∧
  proj_map (fingerprint p).1 = proj_map p ∧ proj_inv (fingerprint p).1.
Proof.
  intros Hp. pose proof Hp as [Hc Hf Hr Hb]. unfold fingerprint.
  destruct (proj_cached p); simpl; [|by split_and!].
  assert (match proj_fingerprint p with
          | Some v => v | None => production_map_fingerprint (proj_map p) end
          = production_map_fingerprint (proj_map p)) as ->
    by (destruct (proj_fingerprint p); [by apply Hf|done]).
  split_and!; [done..|]. split; simpl; [|by intros ? [= <-]|done|done].
  by eapply (cache_ok_fields p).
Qed.

Lemma transparent_fingerprint : transparent fingerprint.
Proof. eapply transparent_view, fingerprint_ok. Qed.

Lemma new_inv map : proj_inv (projection_new map).
Proof.
  split; [apply new_ok|done| |]; simpl.
  - intros key v. by rewrite lookup_empty.
  - rewrite map_size_empty. unfold MAX_ROUTE_CLASSES. lia.
Qed.

Lemma reference_inv map : proj_inv (projection_reference map).
Proof.
  split; [apply reference_ok|done| |]; simpl.
  - intros key v. by rewrite lookup_empty.
  - rewrite map_size_empty. unfold MAX_ROUTE_CLASSES. lia.
Qed.
End caches.

#[export] Hint Resolve transparent_result transparent_ret transparent_vret transparent_map transparent_view_map
  transparent_stages transparent_adjacent transparent_fingerprint : mes.
#[export] Hint Resolve transparent_query : mes.

(** Split a program at its binds and branches. *)
Ltac transparency :=
  repeat first
    [ solve [auto with mes]
    | apply transparent_bind; [|intros ?]
    | apply transparent_vbind; [|intros ?]
    | apply transparent_fold; intros ? ?
    | apply transparent_any; intros ?
    | apply transparent_filter; intros ?
    | match goal with
      | |- transparent (if ?b then _ else _) => destruct b
      | |- transparent (let '(_, _) := ?x in _) => destruct x
      | |- transparent (match ?x with _ => _ end) => destruct x
      end ].

Lemma transparent_legacy_source `{J : Json} `{C : !RouteCodec} map stages batch target_id :
  transparent (legacy_source map stages batch target_id).
Proof. unfold legacy_source, previous_stages. transparency. Qed.
#[export] Hint Resolve transparent_legacy_source : mes.

Section cache_refinement.
Context `{J : Json} `{C : !RouteCodec} `{CL : !RouteCodecLaws C}.

Lemma transparent_resolve batch : transparent (resolve_wip_input_route_projected batch).
Proof.
  unfold resolve_wip_input_route_projected, next_stages. transparency.
Qed.

Lemma resolve_projected_ok batch p :
  proj_inv p →
  (resolve_wip_input_route_projected batch p).2 = resolve_wip_input_route (proj_map p) batch ∧
  proj_map (resolve_wip_input_route_projected batch p).1 = proj_map p ∧
  proj_inv (resolve_wip_input_route_projected batch p).1.
Proof.
  intros Hp. destruct (transparent_resolve batch p (projection_reference (proj_map p)) Hp)
    as (Hr & Hm & Hi); [apply reference_inv|done|]. by split_and!.
Qed.

(** * The route class covers every field the resolver reads *)

Lemma resolve_same_key b1 b2 p :
  route_key b1 = route_key b2 →
  resolve_wip_input_route_projected b1 p = resolve_wip_input_route_projected b2 p.
Proof.
  intros [= Ho Ha Hw Hap Hn Hc Hu Hus Hp Hps Hst Hns _ Hb].
  apply (f_equal negb) in Hus, Hps. rewrite !negb_involutive in Hus, Hps.
  unfold resolve_wip_input_route_projected, route_binding, route_target_id, is_legacy_route,
    explicit_source, legacy_source, route_target, recovered_target, owned_target,
    check_destination, actionable_wip, runs_on, stage_runs_on, apparatus_ids_match, blank in *.
  rewrite Ho, Ha, Hw, Hap, Hn, Hc, Hu, Hus, Hp, Hps, Hst, Hns, Hb. reflexivity.
Qed.

Lemma write_all_concat chunks buffer s :
  write_all chunks buffer = Some s → s = buffer +:+ concat_chunks chunks.
Proof.
  revert buffer. induction chunks as [|c chunks IH]; intros buffer; simpl.
  - intros [= <-]. by rewrite append_nil_r.
  - unfold write_chunk. destruct (_ <? _); simpl; [done|]. intros ->%IH. by rewrite append_assoc.
Qed.

Lemma route_class_inj b1 b2 key :
  route_class b1 = Some key → route_class b2 = Some key → route_key b1 = route_key b2.
Proof.
  intros H1%write_all_concat H2%write_all_concat. apply key_chunks_inj.
  exact (eq_trans (eq_sym H1) H2).
Qed.

Lemma route_ok batch p :
  proj_inv p →
  (route batch p).2 = resolve_wip_input_route (proj_map p) batch ∧
  proj_map (route batch p).1 = proj_map p ∧ proj_inv (route batch p).1.
Proof.
  intros Hp. pose proof (resolve_projected_ok batch p Hp) as (Hr & Hm & Hi).
  unfold route. destruct (negb (proj_cached p)); [by split_and!|].
  destruct (route_class batch) as [key|] eqn:Hk; [|by split_and!].
  destruct (proj_routes p !! key) as [v|] eqn:Hhit.
  { split_and!; [|done..]. simpl. apply (inv_routes p Hp) in Hhit as (b & Hb & ->).
    unfold resolve_wip_input_route. f_equal. apply resolve_same_key. by eapply route_class_inj. }
  destruct (resolve_wip_input_route_projected batch p) as [p' v]. simpl in *.
  destruct (size (proj_routes p') <? MAX_ROUTE_CLASSES) eqn:Hs; simpl; [|by split_and!].
  split_and!; [done..|]. pose proof Hi as [Hc Hf Hrs Hb].
  split; simpl; [by eapply (cache_ok_fields p')|done| |].
  - intros key' v'. destruct (decide (key = key')) as [->|Hne].
    + rewrite lookup_insert_eq. intros [= <-]. exists batch. by rewrite Hm.
    + rewrite lookup_insert_ne by done. apply Hrs.
  - apply Nat.ltb_lt in Hs. rewrite map_size_insert.
    destruct (proj_routes p' !! key); simpl; lia.
Qed.

(** * Requests *)

Inductive request :=
  | AskQuery (q : query)
  | AskFingerprint
  | AskRoute (batch : OrderProgressBatch).

Inductive reply :=
  | ReplyQuery (a : answer)
  | ReplyFingerprint (s : string)
  | ReplyRoute (r : pm_result WipInputRoute).

Definition serve (q : request) (p : ProjectionMap) : ProjectionMap * reply :=
  match q with
  | AskQuery q => let '(p, a) := ask q p in (p, ReplyQuery a)
  | AskFingerprint => let '(p, s) := fingerprint p in (p, ReplyFingerprint s)
  | AskRoute batch => let '(p, r) := route batch p in (p, ReplyRoute r)
  end.

Fixpoint serve_all (qs : list request) (p : ProjectionMap) : ProjectionMap * list reply :=
  match qs with
  | [] => (p, [])
  | q :: qs =>
      let '(p, r) := serve q p in
      let '(p, l) := serve_all qs p in (p, r :: l)
  end.

(** The uncached functions the requests stand for. *)
Definition reference_reply (map : ProductionMapDefinition) (q : request) : reply :=
  match q with
  | AskQuery q => ReplyQuery (chain_answer map q)
  | AskFingerprint => ReplyFingerprint (production_map_fingerprint map)
  | AskRoute batch => ReplyRoute (resolve_wip_input_route map batch)
  end.

Lemma ask_frame q p :
  proj_fingerprint (ask q p).1 = proj_fingerprint p ∧ proj_routes (ask q p).1 = proj_routes p.
Proof.
  destruct q; unfold ask, work_stage, previous_stations, previous_unavailable, ready_for_stage,
    previous_stages; simpl.
  1,2,4,5: pose proof (stages_frame p) as H; by destruct (stages p).
  - pose proof (adjacent_frame p node previous) as H. by destruct (adjacent_stages p node previous).
  - pose proof (adjacent_frame p node true) as H. by destruct (adjacent_stages p node true).
Qed.

Lemma serve_ok q p :
  proj_inv p →
  (serve q p).2 = reference_reply (proj_map p) q ∧ proj_map (serve q p).1 = proj_map p ∧
  proj_inv (serve q p).1.
Proof.
  intros Hp. destruct q as [q| |batch]; simpl.
  - destruct (ask_ok q p (inv_cache p Hp)) as (Ha & Hm & Hc), (ask_frame q p).
    destruct (ask q p); simpl in *. subst. split_and!; [done..|]. by eapply inv_frame.
  - destruct (fingerprint_ok p Hp) as (Ha & Hm & Hi). destruct (fingerprint p); simpl in *.
    by subst.
  - destruct (route_ok batch p Hp) as (Ha & Hm & Hi). destruct (route batch p); simpl in *.
    by subst.
Qed.

Lemma serve_all_ok qs p :
  proj_inv p →
  (serve_all qs p).2 = reference_reply (proj_map p) <$> qs ∧
  proj_map (serve_all qs p).1 = proj_map p ∧ proj_inv (serve_all qs p).1.
Proof.
  revert p. induction qs as [|q qs IH]; intros p Hp; simpl; [done|].
  destruct (serve_ok q p Hp) as (Ha & Hm & Hi). destruct (serve q p) as [p' a]; simpl in *.
  destruct (IH p' Hi) as (Hl & Hm' & Hi'). destruct (serve_all qs p') as [p'' l]; simpl in *.
  subst. split_and!; [by rewrite Hm|congruence|done].
Qed.

(** C29: Any sequence of requests (chain queries, map fingerprints, WIP routes
    of any rolls) gets the same replies from a cached projection and from the
    reference path, namely those of the uncached functions on the map, and the
    route cache never holds more than 256 classes. *)
Theorem projection_refines_reference map qs :
  (serve_all qs (projection_new map)).2 = reference_reply map <$> qs ∧
  (serve_all qs (projection_reference map)).2 = reference_reply map <$> qs ∧
  size (proj_routes (serve_all qs (projection_new map)).1) ≤ MAX_ROUTE_CLASSES.
Proof.
  destruct (serve_all_ok qs _ (new_inv map)) as (-> & _ & Hi).
  destruct (serve_all_ok qs _ (reference_inv map)) as (-> & _).
  split_and!; [done..|]. apply inv_bound, Hi.
Qed.
End cache_refinement.

(** * Soundness of resolved routes *)

Section groups.
Context (map : ProductionMapDefinition) (stages : list ChainStage).

(** [next] is the node of a physical successor. *)
Definition successor_node (succ : list ChainStage) (next : ProductionMapNode) : Prop :=
  ∃ stage, stage ∈ succ ∧ node map (stage_node_id stage) = Some next.

(** [n] is a stage of the map on the same occurrence as [next]. *)
Definition peer_of (next n : ProductionMapNode) : Prop :=
  n ∈ map_nodes map ∧ stage_node_ids_match_for_map map (node_id next) (node_id n) = true ∧
  is_some (stage_apparatus stages (node_id n)) = true.

Lemma push_peers_spec next l cands n :
  n ∈ foldl (push_peer map stages next) cands l →
  n ∈ cands ∨ (n ∈ l ∧ stage_node_ids_match_for_map map (node_id next) (node_id n) = true ∧
    is_some (stage_apparatus stages (node_id n)) = true).
Proof.
  revert cands. induction l as [|x l IH]; intros cands; simpl; [by left|].
  intros [Hn|(? & ? & ?)]%IH; [|right; split_and!; [by right|done..]].
  unfold push_peer in Hn. destruct (_ && _) eqn:E in Hn; [|by left].
  apply elem_of_app in Hn as [?| ->%list_elem_of_singleton]; [by left|]. breflect.
  right. split_and!; [left|done..].
Qed.

Lemma push_peers_mono next l cands n :
  n ∈ cands → n ∈ foldl (push_peer map stages next) cands l.
Proof.
  revert cands. induction l as [|x l IH]; intros cands Hn; simpl; [done|].
  apply IH. unfold push_peer. case_match; [|done]. apply elem_of_app. by left.
Qed.

Lemma push_peers_covers next l cands n :
  n ∈ l → stage_node_ids_match_for_map map (node_id next) (node_id n) = true →
  is_some (stage_apparatus stages (node_id n)) = true →
  ∃ n', n' ∈ foldl (push_peer map stages next) cands l ∧ node_id n' = node_id n.
Proof.
  revert cands. induction l as [|x l IH]; intros cands; simpl; [set_solver|].
  intros [->|Hn]%elem_of_cons Hm Hs; [|by apply IH].
  unfold push_peer at 2. rewrite Hm, Hs. simpl.
  destruct (existsb _ cands) eqn:E; simpl.
  - apply existsb_elem in E as (c & Hc & Hid%String.eqb_eq). exists c. split; [|done].
    by apply push_peers_mono.
  - exists x. split; [|done]. apply push_peers_mono, elem_of_app. right. set_solver.
Qed.

Lemma add_successors_mono l k g :
  is_Some (g !! k) → is_Some (foldl (add_successor map stages) g l !! k).
Proof.
  revert g. induction l as [|x l IH]; intros g Hg; simpl; [done|]. apply IH.
  unfold add_successor. destruct (node map (stage_node_id x)) as [n|]; [|done].
  destruct (decide (occurrence n = k)) as [->|]; [rewrite lookup_insert_eq; eauto|].
  by rewrite lookup_insert_ne.
Qed.

Lemma groups_have_successors l g next :
  successor_node l next → is_Some (foldl (add_successor map stages) g l !! occurrence next).
Proof.
  intros (s & Hs & Hnode). revert g. induction Hs as [s l|s x l Hs IH]; intros g; simpl.
  - apply add_successors_mono. unfold add_successor. rewrite Hnode, lookup_insert_eq. eauto.
  - by apply IH.
Qed.

Lemma route_groups_spec succ k cands :
  route_groups map stages succ !! k = Some cands →
  (∃ next, successor_node succ next ∧ occurrence next = k) ∧
  (∀ n, n ∈ cands → ∃ next, successor_node succ next ∧ occurrence next = k ∧ peer_of next n) ∧
  (∀ n next, successor_node succ next → occurrence next = k → peer_of next n →
     ∃ n', n' ∈ cands ∧ node_id n' = node_id n).
Proof.
  unfold route_groups. revert cands.
  induction succ as [|stage succ IH] using rev_ind; intros cands; simpl; [by rewrite lookup_empty|].
  assert (∀ next, successor_node (succ ++ [stage]) next ↔
    successor_node succ next ∨ node map (stage_node_id stage) = Some next) as Hsn.
  { intros next. unfold successor_node. set_solver. }
  rewrite foldl_app. simpl. unfold add_successor at 1.
  destruct (node map (stage_node_id stage)) as [nx|] eqn:Hnx.
  2: { intros (H1 & H2 & H3)%IH. split_and!.
       - destruct H1 as (next & ? & ?). exists next. rewrite Hsn. auto.
       - intros n (next & ? & ? & ?)%H2. exists next. rewrite Hsn. auto.
       - intros n next [?|?]%Hsn; [by apply H3|done]. }
  destruct (decide (occurrence nx = k)) as [<-|Hne].
  2: { rewrite lookup_insert_ne by done. intros (H1 & H2 & H3)%IH. split_and!.
       - destruct H1 as (next & ? & ?). exists next. rewrite Hsn. auto.
       - intros n (next & ? & ? & ?)%H2. exists next. rewrite Hsn. auto.
       - intros n next [?|?]%Hsn; [by apply H3|congruence]. }
  rewrite lookup_insert_eq. intros [= <-].
  set (old := default [] _).
  assert (∀ n, n ∈ old → ∃ next, successor_node succ next ∧ occurrence next = occurrence nx ∧
    peer_of next n) as Hold.
  { subst old. destruct (_ !! _) as [c|] eqn:E; simpl; [|set_solver].
    by destruct (IH c eq_refl) as (_ & ? & _). }
  split_and!.
  - exists nx. rewrite Hsn. auto.
  - intros n [(next & ? & ? & ?)%Hold|(? & ? & ?)]%push_peers_spec.
    + exists next. rewrite Hsn. auto.
    + exists nx. rewrite Hsn. unfold peer_of. auto.
  - intros n next [Hs|Hs]%Hsn Hk Hpeer;
      [|injection Hs as <-; destruct Hpeer as (? & ? & ?); by apply push_peers_covers].
    destruct (foldl (add_successor map stages) ∅ succ !! occurrence nx) as [c|] eqn:E.
    + destruct (IH c eq_refl) as (_ & _ & H3). destruct (H3 n next Hs Hk Hpeer) as (n' & Hn' & Hid).
      exists n'. split; [|done]. by apply push_peers_mono.
    + destruct (groups_have_successors succ ∅ next Hs) as [c Hc]. congruence.
Qed.
End groups.

Section soundness.
Context `{J : Json} `{C : !RouteCodec}.

(** The reference path is a plain computation: each step of a transparent
    program runs on the reference projection again. *)
Lemma reference_bind_Ok {A B} (m : proj_m A) (k : A → proj_m B) map b :
  transparent m → (∀ a, transparent (k a)) →
  ((m ≫= k) (projection_reference map)).2 = Ok b →
  ∃ a, (m (projection_reference map)).2 = Ok a ∧ (k a (projection_reference map)).2 = Ok b.
Proof.
  intros Hm Hk. unfold mbind, proj_bind.
  destruct (Hm (projection_reference map) _ (reference_inv map) (reference_inv map) eq_refl)
    as (_ & Hmap & Hi).
  destruct (m (projection_reference map)) as [p' [a|e]]; simpl in *; [|done].
  intros Hb. exists a. split; [done|]. rewrite <-Hb.
  destruct (Hk a p' (projection_reference map) Hi (reference_inv map) Hmap) as (-> & _). done.
Qed.

(** Inversion of a step on the reference projection. *)
Ltac ref_step H a Ha :=
  apply reference_bind_Ok in H as (a & Ha & H); [|by transparency|by intros; transparency].

(** The batch was produced at [source]. *)
Definition produced_at (map : ProductionMapDefinition) (batch : OrderProgressBatch)
    (source : ProductionMapNode) : Prop :=
  source ∈ map_nodes map ∧ is_apparatus source = true ∧
  ∃ stage, stage ∈ linear_work_stages map ∧
    trim (stage_node_id stage) = trim (node_id source) ∧
    stage_runs_on (batch_apparatus batch) stage = true.

Lemma node_Some map id n :
  node map id = Some n → n ∈ map_nodes map ∧ trim (node_id n) = id ∧ is_apparatus n = true.
Proof. intros [Hn [H1%String.eqb_eq H2]%andb_true_iff]%find_elem. done. Qed.

Lemma stage_apparatus_Some stages id a :
  stage_apparatus stages id = Some a →
  ∃ stage, stage ∈ stages ∧ trim (stage_node_id stage) = trim id ∧ stage_apparatus_id stage = Some a.
Proof.
  unfold stage_apparatus. destruct (List.find _ stages) as [s|] eqn:E; simpl; [|done].
  apply find_elem in E as [Hs He%String.eqb_eq]. eauto.
Qed.

Lemma explicit_source_sound map batch source_id source :
  explicit_source map (linear_work_stages map) batch source_id = Ok source →
  produced_at map batch source.
Proof.
  unfold explicit_source. intros (n & Hn & (u & Hr & [= <-])%bind_Ok)%bind_Ok.
  destruct (node map source_id) as [n'|] eqn:Hn'; simplify_eq/=.
  apply node_Some in Hn' as (Hin & Hid & Ha). split_and!; [done..|].
  apply check_Ok, negb_false_iff in Hr. unfold runs_on in Hr.
  destruct (stage_apparatus _ source_id) as [a|] eqn:E; [|done].
  apply stage_apparatus_Some in E as (s & Hs & Hsid & Hsa). exists s.
  split_and!; [done| |unfold stage_runs_on; by rewrite Hsa].
  rewrite Hsid, <-Hid. by rewrite trim_idemp.
Qed.

Lemma elements_singleton_elem (X : gset string) x y : elements X = [x] → y ∈ X → y = x.
Proof. intros H Hy%elem_of_elements. rewrite H in Hy. set_solver. Qed.

Lemma legacy_source_sound map batch target_id source :
  (legacy_source map (linear_work_stages map) batch target_id (projection_reference map)).2 = Ok source →
  produced_at map batch source.
Proof.
  unfold legacy_source, previous_stages. intros H. ref_step H u1 Hu1. ref_step H u2 Hu2.
  ref_step H possible Hpossible.
  assert (∀ s, s ∈ possible → s ∈ linear_work_stages map) as Hsub.
  { destruct (is_empty target_id); simpl in Hpossible; injection Hpossible as <-; [done|].
    by intros s [? _]%(adjacent_stage map target_id true). }
  destruct (elements _) as [|id [|]] eqn:He in H; [done| |done].
  simpl in H. destruct (node map id) as [n|] eqn:Hn; simplify_eq/=.
  apply node_Some in Hn as (Hn & Hid & Ha). split_and!; [done..|].
  assert (id ∈ elements (list_to_set (C := gset string)
    (stage_node_id <$> List.filter (stage_runs_on (batch_apparatus batch)) possible))) as Hin
    by (rewrite He; set_solver).
  apply elem_of_elements, elem_of_list_to_set, list_elem_of_fmap in Hin as (s & Hsid & [Hs Hr]%filterb_elem).
  exists s. split_and!; [by apply Hsub| |done]. rewrite <-Hsid, <-Hid. by rewrite !trim_idemp.
Qed.

(** A target the resolver accepts: on the occurrence of the group. *)
Lemma route_target_sound map batch binding target_id legacy succ target remapped :
  let groups := route_groups map (linear_work_stages map) succ in
  route_target map (linear_work_stages map) groups batch binding target_id legacy =
    Ok (target, remapped) →
  target ∈ map_nodes map ∧
  ∀ cands, groups !! occurrence target = Some cands →
    ∃ next, successor_node map succ next ∧ occurrence next = occurrence target.
Proof.
  intros groups H. split.
  2: { intros cands Hc. by apply route_groups_spec in Hc as (? & _). }
  unfold route_target in H. destruct (if is_empty target_id then None else _) as [t|] eqn:Ht.
  { inv_ok. simplify_eq. destruct (is_empty target_id); [done|]. by apply node_Some in Ht as (? & _). }
  unfold recovered_target in H.
  apply bind_Ok in H as (? & _ & H). apply bind_Ok in H as (? & _ & H).
  apply bind_Ok in H as (cands & Hv & H). apply bind_Ok in H as (? & _ & H).
  apply bind_Ok in H as (t & Hin & Heq).
  injection Heq as -> _.
  assert (cands ∈ btree_values groups) as [k Hk]%elem_of_btree_values
    by (destruct (btree_values groups); simplify_eq/=; left).
  apply route_groups_spec in Hk as (_ & Hcands & _).
  assert (target ∈ cands) as Ht'.
  { destruct (blank (batch_next_apparatus batch)).
    - destruct cands; simplify_eq/=. left.
    - apply bind_Ok in Hin as (_ & _ & Hin). destruct (List.filter _ cands) as [|c l] eqn:E; [done|]. injection Hin as ->.
      assert (target ∈ target :: l) as Hc by left. rewrite <-E in Hc. by apply filterb_elem in Hc as [? _]. }
  destruct (Hcands target Ht') as (next & _ & _ & ? & _). done.
Qed.

Lemma owned_target_sound map batch binding cands t target :
  owned_target (linear_work_stages map) cands batch binding t = Ok target →
  (target = t ∨ target ∈ cands) ∧
  (is_none binding = true → batch_wip_status batch = WipStatus.InUse →
   blank (batch_used_by_apparatus batch) = false →
   runs_on (linear_work_stages map) (node_id target) (batch_used_by_apparatus batch) = true).
Proof.
  unfold owned_target.
  destruct (is_none binding && _) eqn:Hin.
  2: { intros [= ->]. split; [by left|]. intros Hb Hw. rewrite Hb in Hin. simpl in Hin.
       unfold WipStatus.eqb in Hin. rewrite Hw in Hin. done. }
  intros (? & _ & Ho)%bind_Ok. destruct (List.filter _ cands) as [|c l] eqn:E; [done|].
  injection Ho as ->. assert (target ∈ target :: l) as Hc by left. rewrite <-E in Hc.
  apply filterb_elem in Hc as [Hc Hr]. split; [by right|]. intros _ _ Hb. rewrite Hb in Hr.
  unfold runs_on, apparatus_ids_match in *. by rewrite trim_idemp in Hr.
Qed.

Lemma consumer_ids_spec stages cands a :
  a ∈ consumer_ids stages cands ↔ ∃ n, n ∈ cands ∧ stage_apparatus stages (node_id n) = Some a.
Proof.
  unfold consumer_ids. rewrite sorted_strings_perm, elem_of_elements, elem_of_list_to_set.
  by rewrite list_elem_of_omap.
Qed.

(** What a resolved route says of the map and the batch. *)
Definition route_sound (map : ProductionMapDefinition) (batch : OrderProgressBatch)
    (r : WipInputRoute) : Prop :=
  let stages := linear_work_stages map in
  ∃ source target next,
    let succ := next_work_stages_for_node map (node_id source) in
    produced_at map batch source ∧ route_source_stage_node_id r = node_id source ∧
    target ∈ map_nodes map ∧ route_stage_node_id r = node_id target ∧
    successor_node map succ next ∧
    (occurrence target = occurrence next ∨
     ∃ next', occurrence next' = occurrence next ∧ successor_node map succ next' ∧
       peer_of map stages next' target) ∧
    (∀ a, a ∈ route_consumer_apparatus_ids r ↔ ∃ next' n,
       successor_node map succ next' ∧ occurrence next' = occurrence next ∧
       peer_of map stages next' n ∧ stage_apparatus stages (node_id n) = Some a) ∧
    (json_get "wip_route_binding" (batch_payload_json batch) = None →
     blank (batch_next_apparatus batch) = false →
     ∃ a, a ∈ route_consumer_apparatus_ids r ∧
       apparatus_ids_match a (batch_next_apparatus batch) = true) ∧
    (batch_wip_status batch = WipStatus.InUse → blank (batch_used_by_apparatus batch) = false →
     runs_on stages (route_stage_node_id r) (batch_used_by_apparatus batch) = true) ∧
    route_map_fingerprint r = production_map_fingerprint map.

Lemma consumers_of_group map succ k cands a :
  route_groups map (linear_work_stages map) succ !! k = Some cands →
  a ∈ consumer_ids (linear_work_stages map) cands ↔ ∃ next' n,
    successor_node map succ next' ∧ occurrence next' = k ∧
    peer_of map (linear_work_stages map) next' n ∧
    stage_apparatus (linear_work_stages map) (node_id n) = Some a.
Proof.
  intros (_ & Hc & Hcov)%route_groups_spec. rewrite consumer_ids_spec. split.
  - intros (n & (next' & ? & ? & ?)%Hc & ?). eauto 10.
  - intros (next' & n & Hs & Hk & Hp & Ha). destruct (Hcov n next' Hs Hk Hp) as (n' & ? & Hid).
    exists n'. by rewrite Hid.
Qed.

Lemma route_binding_None batch b :
  route_binding batch = Ok b →
  json_get "wip_route_binding" (batch_payload_json batch) = None ↔ is_none b = true.
Proof.
  unfold route_binding. destruct (json_get _ _) as [v|]; [|by intros [= <-]].
  simpl. destruct (ok_or _ _); intros [= <-]. done.
Qed.

(** A resolved route starts at the node that produced the roll, leads to a
    node of a logical successor of it, offers exactly the apparatuses of the
    candidates of that occurrence, includes the apparatus the roll was sent to
    when no binding overrides it, and keeps a roll in use on the machine that
    uses it. *)
Theorem wip_route_is_sound map batch r :
  resolve_wip_input_route map batch = Ok r → route_sound map batch r.
Proof.
  unfold resolve_wip_input_route, resolve_wip_input_route_projected, next_stages. intros H.
  ref_step H m Hm. injection Hm as <-. ref_step H u1 Hu1. ref_step H binding Hb.
  ref_step H sts Hst. injection Hst as <-. ref_step H u2 Hu2. ref_step H source Hsource.
  ref_step H u3 Hu3. ref_step H succ Hsucc. injection Hsucc as <-.
  ref_step H target0 Ht0. destruct target0 as [target0 remapped].
  ref_step H cands Hc. ref_step H target Ht. ref_step H u4 Hu4. ref_step H digest Hd.
  injection Hd as <-. injection H as <-. simpl in *.
  assert (produced_at map batch source) as Hprod.
  { destruct (negb (is_empty (field batch "stage_node_id")));
      [exact (explicit_source_sound _ _ _ _ Hsource)|exact (legacy_source_sound _ _ _ _ Hsource)]. }
  change (adjacent_physical_stages_for_node_with_stages map (node_id source) false
    (linear_work_stages map)) with (next_work_stages_for_node map (node_id source)) in *.
  set (succ := next_work_stages_for_node map (node_id source)) in *.
  destruct (route_groups map _ succ !! occurrence target0) as [c|] eqn:Hg; [|done].
  injection Hc as ->.
  destruct (route_target_sound _ _ _ _ _ _ _ _ Ht0) as [Hin0 Hnext].
  destruct (Hnext cands Hg) as (next & Hsn & Hocc).
  destruct (owned_target_sound _ _ _ _ _ _ Ht) as [Htc Hused].
  apply bind_Ok in Hu4 as ([] & Hc1%check_Ok & Hc2%check_Ok).
  pose proof (route_binding_None batch binding Hb) as Hbn.
  exists source, target, next. simpl. split_and!; try done.
  - destruct Htc as [->|Htc]; [done|].
    apply route_groups_spec in Hg as (_ & Hg & _). by destruct (Hg target Htc) as (? & _ & _ & ? & _).
  - destruct Htc as [->|Htc]; [by left|right].
    apply route_groups_spec in Hg as (_ & Hg & _). destruct (Hg target Htc) as (n' & ? & ? & ?).
    exists n'. split_and!; [congruence|done..].
  - intros a. rewrite Hocc. by apply consumers_of_group.
  - intros Hnone%Hbn Hnb. rewrite Hnone, Hnb in Hc2. simpl in Hc2. apply negb_false_iff in Hc2.
    apply existsb_elem in Hc2 as (n & Hn & Hr). unfold runs_on in Hr.
    destruct (stage_apparatus _ (node_id n)) as [a|] eqn:Ha; [|done]. exists a. split; [|done].
    apply consumer_ids_spec. eauto.
  - intros Hw Hnb. destruct binding as [r|]; [|by apply Hused].
    rewrite Hnb in Hc1. simpl in Hc1. by apply negb_false_iff in Hc1.
Qed.
End soundness.

(** * Edits of a map with outstanding rolls *)

Section edits.
Context `{JL : JsonLaws} `{C : !RouteCodec}.

Lemma normalized_route_batch_total b :
  ∃ b', normalized_route_batch b = Ok b' ∧ same_history b b'.
Proof.
  unfold normalized_route_batch. destruct (restore_total b) as (b' & H & _ & _ & Hh).
  destruct (restore_self_consumed_wip b) as [[b1 r]|]; simplify_eq/=.
  exists (refresh_status_detail b'). split; [done|]. by destruct b'.
Qed.

(** The edit keeps the route of one normalized roll. *)
Definition route_kept (previous next : ProductionMapDefinition) (b : OrderProgressBatch) : Prop :=
  actionable_wip b = true ∨ batch_wip_status b = WipStatus.InUse →
  ∀ r, resolve_wip_input_route previous b = Ok r →
  ∃ r', resolve_wip_input_route next b = Ok r' ∧
    (batch_wip_status b = WipStatus.InUse →
     route_source_stage_node_id r' = route_source_stage_node_id r ∧
     route_stage_node_id r' = route_stage_node_id r).

Lemma validate_batch_route_spec previous next b b' :
  normalized_route_batch b = Ok b' →
  validate_batch_route previous next b tt = Ok tt ↔ route_kept previous next b'.
Proof.
  intros Hn. unfold validate_batch_route, route_kept. rewrite Hn. simpl.
  unfold WipStatus.eqb. case_bool_decide as Hw; rewrite ?Hw.
  - rewrite andb_false_r. destruct (resolve_wip_input_route previous b') as [r|]; [|naive_solver].
    destruct (resolve_wip_input_route next b') as [r'|]; simpl; [|naive_solver].
    split.
    + intros (? & H1%lift_Ok%check_Ok & H2%lift_Ok%check_Ok)%bind_Ok _ r1 [= <-].
      exists r'. breflect. naive_solver.
    + intros H. destruct (H (or_intror eq_refl) r eq_refl) as (r1 & [= <-] & Hsame).
      destruct (Hsame eq_refl) as [-> ->]. by rewrite !String.eqb_refl.
  - destruct (actionable_wip b') eqn:Ha; simpl; [|naive_solver].
    destruct (resolve_wip_input_route previous b') as [r|]; [|naive_solver].
    destruct (resolve_wip_input_route next b') as [r'|]; simpl; naive_solver.
Qed.

(** An edit of a map passes the route check exactly when every outstanding
    roll whose route the old map resolves has a route in the new map, with the
    same source and destination if the roll is in use; the check never panics.
    *)
Theorem validated_edit_keeps_routes previous next batches :
  validate_map_wip_routes previous next batches = Ok tt ↔
  ∀ b, b ∈ batches → ∃ b', normalized_route_batch b = Ok b' ∧ route_kept previous next b'.
Proof.
  unfold validate_map_wip_routes. rewrite for_each_checks. split; intros H b Hb.
  - destruct (normalized_route_batch_total b) as (b' & Hn & _). exists b'. split; [done|].
    by apply (validate_batch_route_spec previous next b b' Hn), H.
  - destruct (H b Hb) as (b' & Hn & Hk). by apply (validate_batch_route_spec previous next b b' Hn).
Qed.
End edits.
