(* ===== verification/Lifecycle.v ===== *)
(** Order life cycle: the persisted status of an order and how it is derived.

    Models [src/core/production_map/types/lifecycle.rs] (the statuses, the
    allowed automatic transitions, the record) and the derivations of
    [progress_session/closed_orders.rs]: which life cycle and which operational
    status follow from the queue states and the stage events of an order. *)
From S2P Require Import Prelude RustStr F64 Json Errors Identity QueueState OrderLayout MapDefinition Formula Compiler Bfs Chain Scheduler Progress.

(** * Statuses (types/lifecycle.rs) *)

Module LifecycleStatus.
Inductive t := Released | InProgress | ProductionCompleted | Closed | Cancelled.
Global Instance eq_dec : EqDecision t.
Proof. solve_decision. Defined.
Definition eqb (a b : t) : bool := bool_decide (a = b).

Definition as_str (s : t) : string :=
  match s with
  | Released => "released" | InProgress => "in_progress"
  | ProductionCompleted => "production_completed" | Closed => "closed" | Cancelled => "cancelled"
  end.

Definition is_terminal_for_material_assignment (s : t) : bool :=
  match s with ProductionCompleted | Closed | Cancelled => true | _ => false end.

Definition can_automatically_transition_to (self next : t) : bool :=
  match self with
  | Released => match next with Released | InProgress | ProductionCompleted => true | _ => false end
  | InProgress => match next with InProgress | ProductionCompleted => true | _ => false end
  | ProductionCompleted | Closed | Cancelled => eqb next self
  end.

Definition parse (value : string) : pm_result t :=
  let value := trim value in
  if eq_ignore_ascii_case value "released" then Ok Released
  else if eq_ignore_ascii_case value "in_progress" then Ok InProgress
  else if eq_ignore_ascii_case value "production_completed" then Ok ProductionCompleted
  else if eq_ignore_ascii_case value "closed" then Ok Closed
  else if eq_ignore_ascii_case value "cancelled" then Ok Cancelled
  else Err StoreFailed.
End LifecycleStatus.

Module OperationalStatus.
Inductive t :=
  | NotStarted | Ready | PrintPreflight | InProgress | Paused | Frozen | WaitingNextStage
  | PartiallyCompleted | Completed | CompletedWithIssue.
Global Instance eq_dec : EqDecision t.
Proof. solve_decision. Defined.
Definition eqb (a b : t) : bool := bool_decide (a = b).

Definition as_str (s : t) : string :=
  match s with
  | NotStarted => "not_started" | Ready => "ready" | PrintPreflight => "print_preflight"
  | InProgress => "in_progress" | Paused => "paused" | Frozen => "frozen"
  | WaitingNextStage => "waiting_next_stage" | PartiallyCompleted => "partially_completed"
  | Completed => "completed" | CompletedWithIssue => "completed_with_issue"
  end.

Definition parse (value : string) : pm_result t :=
  let value := trim value in
  if eq_ignore_ascii_case value "not_started" then Ok NotStarted
  else if eq_ignore_ascii_case value "ready" then Ok Ready
  else if eq_ignore_ascii_case value "print_preflight" then Ok PrintPreflight
  else if eq_ignore_ascii_case value "in_progress" then Ok InProgress
  else if eq_ignore_ascii_case value "paused" then Ok Paused
  else if eq_ignore_ascii_case value "frozen" then Ok Frozen
  else if eq_ignore_ascii_case value "waiting_next_stage" then Ok WaitingNextStage
  else if eq_ignore_ascii_case value "partially_completed" then Ok PartiallyCompleted
  else if eq_ignore_ascii_case value "completed" then Ok Completed
  else if eq_ignore_ascii_case value "completed_with_issue" then Ok CompletedWithIssue
  else Err StoreFailed.
End OperationalStatus.

(** * The life cycle record *)

Record ProductionOrderLifecycleRecord := {
  lc_order_id : string;
  lc_status : LifecycleStatus.t;
  lc_completion_outcome : string;
  lc_lifecycle_changed_at_unix : Z;
  lc_production_completed_at_unix : option Z;
  lc_closed_at_unix : option Z;
  lc_lifecycle_version : Z;
  lc_operational_status : OperationalStatus.t;
  lc_operational_status_changed_at_unix : Z;
  lc_completed_with_issue_count : nat;
  lc_flow_status : string;
  lc_stock_status : string;
}.
#[global] Instance lifecycle_rebuild : Rebuild ProductionOrderLifecycleRecord := λ r, {|
  lc_order_id := lc_order_id r;
  lc_status := lc_status r;
  lc_completion_outcome := lc_completion_outcome r;
  lc_lifecycle_changed_at_unix := lc_lifecycle_changed_at_unix r;
  lc_production_completed_at_unix := lc_production_completed_at_unix r;
  lc_closed_at_unix := lc_closed_at_unix r;
  lc_lifecycle_version := lc_lifecycle_version r;
  lc_operational_status := lc_operational_status r;
  lc_operational_status_changed_at_unix := lc_operational_status_changed_at_unix r;
  lc_completed_with_issue_count := lc_completed_with_issue_count r;
  lc_flow_status := lc_flow_status r;
  lc_stock_status := lc_stock_status r |}.

Definition released (order_id : string) : ProductionOrderLifecycleRecord := {|
  lc_order_id := trim order_id;
  lc_status := LifecycleStatus.Released;
  lc_completion_outcome := "";
  lc_lifecycle_changed_at_unix := 0;
  lc_production_completed_at_unix := None;
  lc_closed_at_unix := None;
  lc_lifecycle_version := 0;
  lc_operational_status := OperationalStatus.NotStarted;
  lc_operational_status_changed_at_unix := 0;
  lc_completed_with_issue_count := 0;
  lc_flow_status := "not_started";
  lc_stock_status := "" |}.

Definition transition_to (self : ProductionOrderLifecycleRecord) (status : LifecycleStatus.t)
    (changed_at_unix : Z) : run_result ProductionOrderLifecycleRecord :=
  if LifecycleStatus.eqb (lc_status self) status then Ok self
  else
    version ← add64 (lc_lifecycle_version self) 1;
    let self := self <| lc_status := status |>
                     <| lc_lifecycle_changed_at_unix := changed_at_unix |>
                     <| lc_lifecycle_version := version |> in
    let self :=
      if LifecycleStatus.eqb status LifecycleStatus.ProductionCompleted &&
         is_none (lc_production_completed_at_unix self)
      then self <| lc_production_completed_at_unix := Some changed_at_unix |> else self in
    Ok (if LifecycleStatus.eqb status LifecycleStatus.Closed && is_none (lc_closed_at_unix self)
        then self <| lc_closed_at_unix := Some changed_at_unix |> else self).

(** * Derivation (closed_orders.rs) *)

Definition order_completed_on_apparatus (queue_states : station_states) (order_id apparatus : string)
  : bool :=
  existsb (λ entry : string * gmap string string,
    apparatus_ids_match entry.1 apparatus &&
    is_some_and (entry.2 !! trim order_id)
      (λ value, to_ascii_lowercase (trim value) =s "completed")) (btree_entries queue_states).

Record ProductionStageLifecycleEvent := {
  event_stage_node_id : string;
  event_action : Action.t;
  event_to_state : OrderState.t;
}.

(** [(true, group)] or [(false, node id)]. *)
Definition operation_of_node (n : ProductionMapNode) : bool * string :=
  let group := trim (alternative_group_id n) in
  if is_empty group then (false, trim (node_id n)) else (true, group).

Record operation_table := {
  stages_by_operation : gmap (bool * string) (list ChainStage);
  operation_by_node : gmap string (bool * string);
  occurrence_counts : gmap string nat;
}.

Definition stage_apparatus_or_default (stage : ChainStage) : string :=
  default "" (stage_apparatus_id stage).

Definition add_stage (map : ProductionMapDefinition) (stage : ChainStage) (t : operation_table)
  : option operation_table :=
  node ← find_trimmed map (trim (stage_node_id stage));
  let operation := operation_of_node node in
  let apparatus := stage_apparatus_or_default stage in
  Some {| stages_by_operation :=
            <[operation := default [] (stages_by_operation t !! operation) ++ [stage]]>
              (stages_by_operation t);
          operation_by_node := <[trim (node_id node) := operation]> (operation_by_node t);
          occurrence_counts :=
            <[apparatus := S (default 0 (occurrence_counts t !! apparatus))]> (occurrence_counts t) |}.

Fixpoint add_stages (map : ProductionMapDefinition) (stages : list ChainStage) (t : operation_table)
  : option operation_table :=
  match stages with
  | [] => Some t
  | stage :: stages => t ← add_stage map stage t; add_stages map stages t
  end.

Definition event_completes (event : ProductionStageLifecycleEvent) : bool :=
  bool_decide (event_action event = Action.Complete) &&
  bool_decide (event_to_state event = OrderState.Completed).

Definition latest_operation_events (t : operation_table) (events : list ProductionStageLifecycleEvent)
  : gmap (bool * string) ProductionStageLifecycleEvent :=
  foldl (λ latest event,
    match operation_by_node t !! trim (event_stage_node_id event) with
    | Some operation => <[operation := event]> latest
    | None => latest
    end) ∅ events.

Definition operation_completed (map : ProductionMapDefinition) (queue_states : station_states)
    (t : operation_table) (latest : gmap (bool * string) ProductionStageLifecycleEvent)
    (operation : bool * string) (stages : list ChainStage) : bool :=
  let apparatus := default "" (s ← head stages; stage_apparatus_id s) in
  if negb operation.1 && bool_decide (occurrence_counts t !! apparatus = Some 1) &&
     is_some_and (queue_states !! apparatus) (λ orders, is_some (orders !! trim (map_id map)))
  then order_completed_on_apparatus queue_states (map_id map) apparatus
  else match latest !! operation with
  | Some event => event_completes event
  | None => false
  end.

Definition empty_operation_table : operation_table :=
  {| stages_by_operation := ∅; operation_by_node := ∅; occurrence_counts := ∅ |}.

Definition physical_stages (map : ProductionMapDefinition) : list ChainStage :=
  List.filter (λ stage, is_some (stage_apparatus_id stage)) (linear_work_stages map).

Definition state_starts_work (state : string) : bool :=
  negb (blank state) && negb (eq_ignore_ascii_case (trim state) "pending") &&
  negb (eq_ignore_ascii_case (trim state) "print_preflight").

Definition derive_production_order_lifecycle_with_stage_events (map : ProductionMapDefinition)
    (queue_states : station_states) (stage_events : list ProductionStageLifecycleEvent)
  : option LifecycleStatus.t :=
  _ ← physical_work_stage_ids map;
  t ← add_stages map (physical_stages map) empty_operation_table;
  let latest := latest_operation_events t stage_events in
  let all_occurrences_completed :=
    negb (bool_decide (stages_by_operation t = ∅)) &&
    forallb (λ entry : (bool * string) * list ChainStage,
      operation_completed map queue_states t latest entry.1 entry.2)
      (map_to_list (stages_by_operation t)) in
  if all_occurrences_completed then Some LifecycleStatus.ProductionCompleted
  else
    let has_started_operation :=
      negb (bool_decide (latest = ∅)) ||
      existsb (λ states : gmap string string,
        is_some_and (states !! trim (map_id map)) state_starts_work) (btree_values queue_states) in
    Some (if has_started_operation then LifecycleStatus.InProgress else LifecycleStatus.Released).

Definition derive_production_order_lifecycle (map : ProductionMapDefinition)
    (queue_states : station_states) : option LifecycleStatus.t :=
  derive_production_order_lifecycle_with_stage_events map queue_states [].

Definition derive_production_order_operational_status (lifecycle_status : LifecycleStatus.t)
    (queue_states : station_states) (order_id : string) (completed_with_issue_count : nat)
    (has_roll_detached : bool) (waiting_next_stage_count : nat) : OperationalStatus.t :=
  match lifecycle_status with
  | LifecycleStatus.ProductionCompleted | LifecycleStatus.Closed =>
      if 0 <? completed_with_issue_count then OperationalStatus.CompletedWithIssue
      else OperationalStatus.Completed
  | _ =>
      let states := (λ state, to_ascii_lowercase (trim state)) <$>
        omap (λ states : gmap string string, states !! trim order_id) (btree_values queue_states) in
      let any state := existsb (λ s, s =s state) states in
      if any "frozen" then OperationalStatus.Frozen
      else if any "print_preflight" then OperationalStatus.PrintPreflight
      else if has_roll_detached || any "in_progress" then OperationalStatus.InProgress
      else if any "paused" then OperationalStatus.Paused
      else if any "completed" then OperationalStatus.PartiallyCompleted
      else if 0 <? waiting_next_stage_count then OperationalStatus.WaitingNextStage
      else if any "pending" then OperationalStatus.Ready
      else OperationalStatus.NotStarted
  end.

(** * Facts

    Order life cycle: production is complete exactly when every operation of the
    route is, and automatic transitions never go back. *)

(** * The operation tables *)

Definition operation_of_id (map : ProductionMapDefinition) (id : string) : option (bool * string) :=
  operation_of_node <$> find_trimmed map (trim id).
Definition operation_of_stage (map : ProductionMapDefinition) (stage : ChainStage)
  : option (bool * string) := operation_of_id map (stage_node_id stage).

Definition of_operation (map : ProductionMapDefinition) (op : bool * string) (id : string) : bool :=
  bool_decide (operation_of_id map id = Some op).

Definition runs_at (apparatus : string) (stage : ChainStage) : bool :=
  stage_apparatus_or_default stage =s apparatus.

Record table_spec (map : ProductionMapDefinition) (l : list ChainStage) (t : operation_table)
  : Prop := {
  table_known : ∀ s, s ∈ l → is_Some (operation_of_stage map s);
  table_stages : ∀ op,
    default [] (stages_by_operation t !! op) =
      List.filter (λ s, of_operation map op (stage_node_id s)) l;
  table_stages_nonempty : ∀ op, stages_by_operation t !! op ≠ Some [];
  table_nodes : ∀ id op, operation_by_node t !! id = Some op ↔
    ∃ s, s ∈ l ∧ trim (stage_node_id s) = id ∧ operation_of_stage map s = Some op;
  table_counts : ∀ a, default 0 (occurrence_counts t !! a) = length (List.filter (runs_at a) l);
}.

Lemma add_stages_snoc map l s t :
  add_stages map (l ++ [s]) t = (t' ← add_stages map l t; add_stage map s t').
Proof.
  revert t. induction l as [|x l IH]; intros t; simpl.
  - by destruct (add_stage map s t).
  - destruct (add_stage map x t); simpl; [apply IH|done].
Qed.

Lemma operation_trim map id : operation_of_id map (trim id) = operation_of_id map id.
Proof. unfold operation_of_id. by rewrite trim_idemp. Qed.

Lemma find_trimmed_id map id n : find_trimmed map id = Some n → trim (node_id n) = id.
Proof. by intros [_ ?%String.eqb_eq]%find_elem. Qed.

Lemma filterb_snoc {A} (f : A → bool) l x :
  List.filter f (l ++ [x]) = List.filter f l ++ (if f x then [x] else []).
Proof. rewrite List.filter_app. simpl. by destruct (f x). Qed.

Lemma add_stage_spec map l s t t' :
  table_spec map l t → add_stage map s t = Some t' → table_spec map (l ++ [s]) t'.
Proof.
  intros [Hk Hs Hne Hn Hc]. unfold add_stage.
  destruct (find_trimmed map (trim (stage_node_id s))) as [n|] eqn:Hf; simpl; [|done].
  intros [= <-]. pose proof (find_trimmed_id _ _ _ Hf) as Hid.
  assert (operation_of_stage map s = Some (operation_of_node n)) as Hop
    by (unfold operation_of_stage, operation_of_id; by rewrite Hf).
  split; simpl.
  - intros s' [?| ->%list_elem_of_singleton]%elem_of_app; [by apply Hk|]. by rewrite Hop.
  - intros op. rewrite filterb_snoc. unfold of_operation at 2.
    change (operation_of_id map (stage_node_id s)) with (operation_of_stage map s). rewrite Hop.
    destruct (decide (operation_of_node n = op)) as [<-|Hneq].
    + rewrite lookup_insert_eq, bool_decide_true by done. simpl. by rewrite Hs.
    + rewrite lookup_insert_ne, bool_decide_false by congruence. by rewrite app_nil_r, Hs.
  - intros op. destruct (decide (operation_of_node n = op)) as [<-|Hneq].
    + rewrite lookup_insert_eq. intros [= H]. by destruct (default [] _).
    + by rewrite lookup_insert_ne.
  - intros id op. rewrite Hid. destruct (decide (trim (stage_node_id s) = id)) as [<-|Hneq].
    + rewrite lookup_insert_eq. split.
      * intros [= <-]. exists s. set_solver.
      * intros (s' & _ & Heq & Ho). unfold operation_of_stage in *.
        rewrite <-operation_trim, Heq, operation_trim in Ho. congruence.
    + rewrite lookup_insert_ne by done. rewrite Hn. set_solver.
  - intros a. rewrite filterb_snoc, length_app. unfold runs_at at 2.
    destruct (stage_apparatus_or_default s =s a) eqn:E; breflect.
    + subst a. rewrite lookup_insert_eq. simpl. rewrite Hc. lia.
    + rewrite lookup_insert_ne by done. rewrite Hc. simpl. lia.
Qed.

Lemma add_stages_spec map l t :
  add_stages map l empty_operation_table = Some t → table_spec map l t.
Proof.
  revert t. induction l as [|s l IH] using rev_ind; intros t.
  - simpl. intros [= <-]. split; simpl; intros; rewrite ?lookup_empty; try done; try set_solver.
  - rewrite add_stages_snoc. destruct (add_stages map l _) as [t0|]; simpl; [|done].
    apply add_stage_spec. by apply IH.
Qed.

Lemma add_stages_total map l t :
  (∀ s, s ∈ l → is_Some (operation_of_stage map s)) → is_Some (add_stages map l t).
Proof.
  revert t. induction l as [|s l IH]; intros t Hl; simpl; [eauto|].
  destruct (Hl s) as [op Hop]; [set_solver|]. unfold operation_of_stage, operation_of_id in Hop.
  unfold add_stage. destruct (find_trimmed map _); simpl in *; [|done]. apply IH. set_solver.
Qed.

(** * The latest event of an operation *)

(** Events count when they are on a node of the route. *)
Definition routed (map : ProductionMapDefinition) (id : string) : bool :=
  existsb (λ s, trim (stage_node_id s) =s trim id) (physical_stages map).

Definition events_of (map : ProductionMapDefinition) (op : bool * string)
    (events : list ProductionStageLifecycleEvent) : list ProductionStageLifecycleEvent :=
  List.filter (λ e, routed map (event_stage_node_id e) && of_operation map op (event_stage_node_id e))
    events.

Lemma table_node_lookup map t id :
  table_spec map (physical_stages map) t →
  operation_by_node t !! trim id = if routed map id then operation_of_id map id else None.
Proof.
  intros Ht. destruct (routed map id) eqn:Hr.
  - apply existsb_elem in Hr as (s & Hs & Heq%String.eqb_eq).
    destruct (table_known _ _ _ Ht s Hs) as [op Hop].
    assert (operation_of_id map id = Some op) as ->.
    { unfold operation_of_stage in Hop. by rewrite <-operation_trim, Heq, operation_trim in Hop. }
    apply (table_nodes _ _ _ Ht). eauto.
  - apply eq_None_not_Some. intros [op (s & Hs & Heq & _)%(table_nodes _ _ _ Ht)].
    unfold routed in Hr. rewrite existsb_false in Hr. specialize (Hr s Hs). simpl in Hr.
    by rewrite Heq, String.eqb_refl in Hr.
Qed.

Lemma latest_events_spec map t events op :
  table_spec map (physical_stages map) t →
  latest_operation_events t events !! op = last (events_of map op events).
Proof.
  intros Ht. unfold latest_operation_events, events_of.
  induction events as [|e events IH] using rev_ind; simpl; [by rewrite lookup_empty|].
  rewrite foldl_app, filterb_snoc. simpl.
  rewrite (table_node_lookup map t (event_stage_node_id e) Ht).
  destruct (routed map (event_stage_node_id e)); simpl; [|by rewrite app_nil_r].
  replace (of_operation map op (event_stage_node_id e))
    with (bool_decide (operation_of_id map (event_stage_node_id e) = Some op)) by done.
  destruct (operation_of_id map (event_stage_node_id e)) as [op'|] eqn:E.
  - case_bool_decide as Hd; [injection Hd as ->; by rewrite lookup_insert_eq, last_snoc|].
    rewrite lookup_insert_ne by congruence. by rewrite app_nil_r.
  - by rewrite bool_decide_false, app_nil_r.
Qed.

(** * Completion *)

(** When an operation is finished: its plain single-use apparatus says so, or
    else the last event on its occurrences closed the queue entry. *)
Definition operation_finished (map : ProductionMapDefinition) (queue_states : station_states)
    (events : list ProductionStageLifecycleEvent) (op : bool * string) : Prop :=
  let stages := List.filter (λ s, of_operation map op (stage_node_id s)) (physical_stages map) in
  let apparatus := default "" (s ← head stages; stage_apparatus_id s) in
  if negb op.1 && (length (List.filter (runs_at apparatus) (physical_stages map)) =? 1) &&
     is_some_and (queue_states !! apparatus) (λ orders, is_some (orders !! trim (map_id map)))
  then order_completed_on_apparatus queue_states (map_id map) apparatus = true
  else ∃ e, last (events_of map op events) = Some e ∧ event_completes e = true.

Lemma count_one (m : gmap string nat) a n :
  default 0 (m !! a) = n → bool_decide (m !! a = Some 1) = (n =? 1).
Proof.
  intros <-. destruct (m !! a) as [k|]; [|done].
  change (default 0 (Some k)) with k.
  case_bool_decide; symmetry; [apply Nat.eqb_eq|apply Nat.eqb_neq]; congruence.
Qed.

Lemma operation_completed_spec map queue_states events t op stages :
  table_spec map (physical_stages map) t → stages_by_operation t !! op = Some stages →
  operation_completed map queue_states t (latest_operation_events t events) op stages = true ↔
  operation_finished map queue_states events op.
Proof.
  intros Ht Hst. unfold operation_completed, operation_finished.
  pose proof (table_stages _ _ _ Ht op) as Heq. rewrite Hst in Heq. simpl in Heq. rewrite <-Heq.
  rewrite (count_one _ _ _ (table_counts _ _ _ Ht _)).
  destruct (_ && _) eqn:E; [done|]. rewrite (latest_events_spec map t events op Ht).
  destruct (last _) as [e|]; naive_solver.
Qed.

(** An operation of the table has a stage of the route, and conversely. *)
Lemma table_stage_of map t op l :
  table_spec map (physical_stages map) t → stages_by_operation t !! op = Some l →
  ∃ s, s ∈ physical_stages map ∧ operation_of_stage map s = Some op.
Proof.
  intros Ht Hl. pose proof (table_stages _ _ _ Ht op) as Hst. rewrite Hl in Hst. simpl in Hst.
  destruct l as [|s l]; [by apply (table_stages_nonempty _ _ _ Ht) in Hl|].
  assert (s ∈ s :: l) as Hs by left. rewrite Hst in Hs.
  apply filterb_elem in Hs as [Hs Hop%bool_decide_eq_true]. eauto.
Qed.

Lemma table_of_stage map t s op :
  table_spec map (physical_stages map) t → s ∈ physical_stages map →
  operation_of_stage map s = Some op → is_Some (stages_by_operation t !! op).
Proof.
  intros Ht Hs Hop. pose proof (table_stages _ _ _ Ht op) as Hst.
  assert (s ∈ List.filter (λ s, of_operation map op (stage_node_id s)) (physical_stages map)) as Hin.
  { apply filterb_elem. split; [done|]. unfold of_operation. by apply bool_decide_true. }
  destruct (stages_by_operation t !! op); simpl in Hst; [eauto|]. rewrite <-Hst in Hin. set_solver.
Qed.

Lemma all_completed_spec map queue_states events t :
  table_spec map (physical_stages map) t →
  negb (bool_decide (stages_by_operation t = ∅)) &&
  forallb (λ entry : (bool * string) * list ChainStage,
    operation_completed map queue_states t (latest_operation_events t events) entry.1 entry.2)
    (map_to_list (stages_by_operation t)) = true ↔
  physical_stages map ≠ [] ∧ ∀ s, s ∈ physical_stages map → ∃ op,
    operation_of_stage map s = Some op ∧ operation_finished map queue_states events op.
Proof.
  intros Ht. rewrite andb_true_iff, negb_true_iff, bool_decide_eq_false, forallb_elem. split.
  - intros [Hne Hall]. split.
    + intros Hnil. apply Hne, map_eq. intros op. rewrite lookup_empty. apply eq_None_not_Some.
      intros [l Hl]. apply (table_stage_of map t op l Ht) in Hl as (s & Hs & _).
      rewrite Hnil in Hs. set_solver.
    + intros s Hs. destruct (table_known _ _ _ Ht s Hs) as [op Hop]. exists op. split; [done|].
      destruct (table_of_stage map t s op Ht Hs Hop) as [l Hl].
      apply (operation_completed_spec map queue_states events t op l Ht Hl).
      by apply (Hall (op, l)), elem_of_map_to_list.
  - intros [Hne Hall]. split.
    + intros Hemp. destruct (physical_stages map) as [|s l] eqn:Ep; [done|].
      destruct (Hall s) as (op & Hop & _); [left|]. rewrite <-Ep in Ht.
      destruct (table_of_stage map t s op Ht) as [l' Hl]; [rewrite Ep; left|done|].
      by rewrite Hemp, lookup_empty in Hl.
    + intros [op l] Hl%elem_of_map_to_list. simpl.
      apply (operation_completed_spec map queue_states events t op l Ht Hl).
      destruct (table_stage_of map t op l Ht Hl) as (s & Hs & Hop).
      destruct (Hall s Hs) as (op' & Hop' & Hfin). congruence.
Qed.

(** Production of an order is derived as completed exactly when all its
    physical stages are valid, there is at least one, and the operation of each
    is finished: by its queue state for a plain operation on an apparatus used
    once, by its latest event otherwise. *)
Theorem production_completed_exactly map queue_states events :
  derive_production_order_lifecycle_with_stage_events map queue_states events =
    Some LifecycleStatus.ProductionCompleted ↔
  is_Some (physical_work_stage_ids map) ∧ physical_stages map ≠ [] ∧
  ∀ s, s ∈ physical_stages map → ∃ op,
    operation_of_stage map s = Some op ∧ operation_finished map queue_states events op.
Proof.
  unfold derive_production_order_lifecycle_with_stage_events.
  destruct (physical_work_stage_ids map) as [ids|]; simpl; [|naive_solver].
  destruct (add_stages map (physical_stages map) empty_operation_table) as [t|] eqn:Et; simpl.
  - rewrite <-(all_completed_spec map queue_states events t) by (by apply add_stages_spec).
    destruct (_ && _); [naive_solver|]. split; [by destruct (_ || _ : bool)|naive_solver].
  - split; [done|]. intros (_ & _ & Hall).
    destruct (add_stages_total map (physical_stages map) empty_operation_table) as [t Et'];
      [|congruence].
    intros s Hs. destruct (Hall s Hs) as (op & -> & _). eauto.
Qed.
