(* ===== verification/StageExecution.v ===== *)
(** Stage execution: when an operation of an order is closed.

    Models [src/core/production_map/stage_execution.rs] and
    [stage_execution/inputs.rs].  Candidates of an alternative group share an
    operation.  An operation is closed when its own work is finished and
    reported, no roll is left for it, and every operation before it is closed.
    The code reads a projection, so the functions are programs of [view]. *)
From S2P Require Import Prelude RustStr F64 Errors Identity QueueState OrderLayout MapDefinition Formula Compiler Bfs Chain Projection Scheduler Json Progress WipRoute Lifecycle.

Definition WORK_PROTOCOL : string := "stage_work_protocol".
Definition WORK_REPORT : string := "stage_work_report".

Record StageWorkReport := {
  report_id : string;
  report_sequence : Z;
  report_submitted_at_unix : Z;
  report_worker_ref : string;
  report_worker_role : string;
  report_worker_display_name : string;
}.

(** [serde_json]'s encoding of a report, and what the code relies on. *)
Class ReportCodec {J : Json} := {
  report_of_json : value → option StageWorkReport;
  report_to_json : StageWorkReport → value;
}.
Class ReportCodecLaws {J : Json} (C : ReportCodec) := {
  report_round_trip r : report_of_json (report_to_json r) = Some r;
}.

(** [stage_execution/inputs.rs]. *)
Record StageWorkInput := {
  input_source_node : string;
  input_target_node : string;
  input_source_apparatus : string;
  input_target_apparatus : string;
  input_outstanding : bool;
  input_available : bool;
}.

Record StageWorkStatus := {
  ws_stage_node_id : string;
  ws_upstream_closed : bool;
  ws_completed : bool;
  ws_has_available_input : bool;
  ws_last_apparatus : string;
  ws_last_worker_ref : string;
  ws_last_report_at_unix : Z;
  ws_astatka_required_apparatuses : list string;
}.
#[global] Instance StageWorkStatus_rebuild : Rebuild StageWorkStatus := λ r, {|
  ws_stage_node_id := ws_stage_node_id r;
  ws_upstream_closed := ws_upstream_closed r;
  ws_completed := ws_completed r;
  ws_has_available_input := ws_has_available_input r;
  ws_last_apparatus := ws_last_apparatus r;
  ws_last_worker_ref := ws_last_worker_ref r;
  ws_last_report_at_unix := ws_last_report_at_unix r;
  ws_astatka_required_apparatuses := ws_astatka_required_apparatuses r |}.

Record StageWorkControl := {
  wc_completed : bool;
  wc_local_completed : bool;
  wc_upstream_closed : bool;
  wc_astatka_available : bool;
  wc_astatka_required : bool;
  wc_report_session_id : string;
  wc_upstream_title : string;
  wc_last_apparatus : string;
  wc_last_worker_ref : string;
}.

Section execution.
Context `{J : Json} `{C : !RouteCodec} `{R : !ReportCodec}.

(** * Reports *)

Definition work_report (session : RunSession) : option StageWorkReport :=
  v ← json_get WORK_REPORT (session_payload_json session); report_of_json v.

Definition has_protocol (session : RunSession) : bool :=
  is_some (json_get WORK_PROTOCOL (session_payload_json session)).

Definition is_completed (session : RunSession) : bool :=
  bool_decide (session_status session = RunStatus.Completed).

Definition stamp_work_report (session : RunSession) (id : string) (sequence : Z)
    (actor : QueueActionActor) (now : Z) : run_result RunSession :=
  if negb (is_completed session) || is_some (work_report session) then Ok session
  else
    session ← set_session_payload WORK_PROTOCOL (json_Z 1) session;
    set_session_payload WORK_REPORT (report_to_json
      {| report_id := id; report_sequence := sequence; report_submitted_at_unix := now;
         report_worker_ref := actor_ref actor; report_worker_role := actor_role actor;
         report_worker_display_name := actor_display_name actor |}) session.

(** [(a.started_at_unix, &a.session_id) > (b.started_at_unix, &b.session_id)]. *)
Definition session_after (a b : OrderRunSession) : bool :=
  (session_started_at_unix b <? session_started_at_unix a)%Z ||
  ((session_started_at_unix a =? session_started_at_unix b)%Z &&
   String.ltb (session_id b) (session_id a)).

(** [Iterator::max_by]: the last one among equals. *)
Definition latest_session (sessions : list RunSession) : option RunSession :=
  foldl (λ (best : option RunSession) (session : RunSession),
    match best with
    | Some old => if session_after old session then best else Some session
    | None => Some session
    end) None sessions.

(** * Controls *)

Definition work_control_projected (apparatus id : string) (statuses : list StageWorkStatus)
    (sessions : list RunSession) : view (option StageWorkControl) := λ p,
  let map := proj_map p in
  match List.find (λ s, stage_node_ids_match_for_map map (ws_stage_node_id s) id) statuses with
  | None => (p, None)
  | Some status =>
      if negb (existsb has_protocol sessions) && negb (ws_completed status) then (p, None)
      else
        let latest := latest_session (List.filter (λ s : RunSession,
          (session_order_id s =s map_id map) && (session_apparatus s =s apparatus) &&
          stage_node_ids_match_for_map map (session_stage_node_id s) id) sessions) in
        let '(p, previous) := previous_stages p id in
        (p, Some {|
          wc_completed := ws_completed status;
          wc_local_completed := negb (ws_has_available_input status) &&
            is_some_and latest (λ s, is_completed s && is_some (work_report s));
          wc_upstream_closed := ws_upstream_closed status;
          wc_astatka_available := is_some_and latest is_completed;
          wc_astatka_required :=
            existsb (λ a, a =s apparatus) (ws_astatka_required_apparatuses status);
          wc_report_session_id := default "" ((λ s : RunSession, session_id s) <$> latest);
          wc_upstream_title := join ", " (stage_station_title <$> previous);
          wc_last_apparatus := ws_last_apparatus status;
          wc_last_worker_ref := ws_last_worker_ref status |})
  end.

Definition work_control (map : ProductionMapDefinition) (apparatus id : string)
    (statuses : list StageWorkStatus) (sessions : list RunSession) : option StageWorkControl :=
  (work_control_projected apparatus id statuses sessions (projection_reference map)).2.

(** * Inputs (inputs.rs) *)

Definition batch_input (batch : OrderProgressBatch) : view StageWorkInput := λ p,
  let '(p, target) :=
    if proj_cached p && WipStatus.eqb (batch_wip_status batch) WipStatus.Processed
    then (p, progress_batch_next_stage_node_id batch)
    else
      let '(p, r) := route batch p in
      (p, match r with
          | Ok r => route_stage_node_id r
          | Err _ => progress_batch_next_stage_node_id batch
          end) in
  (p, {| input_source_node :=
           default "" (payload_str (batch_payload_json batch) "stage_node_id");
         input_target_node := target;
         input_source_apparatus := batch_apparatus batch;
         input_target_apparatus := batch_next_apparatus batch;
         input_outstanding :=
           match batch_wip_status batch with
           | WipStatus.Waiting | WipStatus.InUse => true | _ => false end;
         input_available := WipStatus.eqb (batch_wip_status batch) WipStatus.Waiting |}).

Definition opening_is_outstanding (b : OpeningWipBatch) : bool :=
  match opening_wip_status b with
  | OpeningStatus.Waiting | OpeningStatus.InUse => true | _ => false end.

Definition opening_input (r : OpeningWipRecord) : StageWorkInput :=
  let intake := record_intake r in
  let no_source := is_empty (intake_source_apparatus intake) in
  {| input_source_node := if no_source then "" else intake_resume_stage_node_id intake;
     input_target_node := if no_source then intake_resume_stage_node_id intake else "";
     input_source_apparatus := intake_source_apparatus intake;
     input_target_apparatus := intake_resume_apparatus intake;
     input_outstanding := true;
     input_available :=
       existsb (λ b, bool_decide (opening_wip_status b = OpeningStatus.Waiting)) (record_batches r) |}.

Definition opening_inputs (opening : list OpeningWipRecord) : list StageWorkInput :=
  opening_input <$>
    List.filter (λ r, existsb opening_is_outstanding (record_batches r))
      (List.filter (λ r, bool_decide (intake_status (record_intake r) = IntakeStatus.Confirmed))
         opening).

Definition work_inputs_projected (batches : list OrderProgressBatch)
    (opening : list OpeningWipRecord) : view (list StageWorkInput) :=
  inputs ← view_fold (λ b acc, i ← batch_input b; mret (acc ++ [i])) batches [];
  mret (inputs ++ opening_inputs opening).

Definition work_inputs (map : ProductionMapDefinition) (batches : list OrderProgressBatch)
    (opening : list OpeningWipRecord) : list StageWorkInput :=
  (work_inputs_projected batches opening (projection_reference map)).2.

(** * Operations *)

Definition operation_key (n : ProductionMapNode) : string :=
  if blank (alternative_group_id n) then "node:" +:+ node_id n
  else "group:" +:+ trim (alternative_group_id n).

(** Stages by operation, and the operation of each stage node. *)
Definition add_operation (map : ProductionMapDefinition)
    (t : gmap string (list ChainStage) * gmap string string) (stage : ChainStage)
  : gmap string (list ChainStage) * gmap string string :=
  match find_node map (stage_node_id stage) with
  | None => t
  | Some n =>
      let key := operation_key n in
      (<[key := default [] (t.1 !! key) ++ [stage]]> t.1, <[stage_node_id stage := key]> t.2)
  end.

Definition operations_of (map : ProductionMapDefinition) (stages : list ChainStage)
  : gmap string (list ChainStage) * gmap string string :=
  foldl (add_operation map) (∅, ∅) stages.

(** The occurrence a session worked on; a session without one counts only when
    its apparatus is used once. *)
Definition resolve_session (stages : list ChainStage) (session : RunSession)
    (acc : list (RunSession * string)) : view (list (RunSession * string)) :=
  if blank (session_stage_node_id session) &&
     negb (length (List.filter (λ s, bool_decide (stage_apparatus_id s =
                                        Some (session_apparatus session))) stages) =? 1)
  then mret acc
  else
    node ← (λ p, work_stage p (session_apparatus session) (session_stage_node_id session));
    mret (match node with
          | Some node => acc ++ [(session, stage_node_id node)]
          | None => acc
          end).

Definition resolved_sessions (map : ProductionMapDefinition) (stages : list ChainStage)
    (operations : gmap string (list ChainStage)) (sessions : list RunSession)
  : view (list (RunSession * string)) :=
  if bool_decide (operations = ∅) then mret []
  else view_fold (resolve_session stages)
         (List.filter (λ s : RunSession, session_order_id s =s map_id map) sessions) [].

Definition matches_node (candidates : list ChainStage) (id : string) : bool :=
  existsb (λ s, stage_node_id s =s id) candidates.

(** The latest session of each apparatus on the operation. *)
Definition latest_sessions (candidates : list ChainStage) (resolved : list (RunSession * string))
  : gmap string RunSession :=
  foldl (λ (latest : gmap string RunSession) (entry : RunSession * string),
    if negb (matches_node candidates entry.2) then latest
    else
      let session := entry.1 in
      let old := default session (latest !! session_apparatus session) in
      <[session_apparatus session := if session_after session old then session else old]> latest)
    ∅ resolved.

(** Completion of an operation nobody ran a session for: from the last event on
    each of its nodes, or from the queue state of an apparatus used once. *)
Definition done_without_sessions (map : ProductionMapDefinition) (stages : list ChainStage)
    (states : station_states) (events : list ProductionStageLifecycleEvent)
    (candidates : list ChainStage) : bool :=
  let node_events : gmap string ProductionStageLifecycleEvent :=
    foldl (λ m e, <[event_stage_node_id e := e]> m) ∅
      (List.filter (λ e, matches_node candidates (event_stage_node_id e)) events) in
  if negb (bool_decide (node_events = ∅)) then forallb event_completes (btree_values node_events)
  else match candidates with
  | [candidate] =>
      (length (List.filter (λ s, bool_decide (stage_apparatus_id s = stage_apparatus_id candidate))
                 stages) =? 1) &&
      is_some_and (o ← states !! default "" (stage_apparatus_id candidate); o !! map_id map)
        (λ s, s =s "completed")
  | _ => false
  end.

Definition locally_done (map : ProductionMapDefinition) (stages : list ChainStage)
    (states : station_states) (events : list ProductionStageLifecycleEvent)
    (candidates : list ChainStage) (latest : gmap string RunSession) : bool :=
  if bool_decide (latest = ∅) then done_without_sessions map stages states events candidates
  else forallb is_completed (btree_values latest).

(** The winning report, and the apparatuses whose report is missing. *)
Definition collect_reports (latest : gmap string RunSession)
  : option (RunSession * StageWorkReport) * list string :=
  foldl (λ (st : option (RunSession * StageWorkReport) * list string) (session : RunSession),
    let '(last, required) := st in
    match work_report session with
    | Some report =>
        if match last with
           | None => true
           | Some (_, old) => (report_sequence old <? report_sequence report)%Z
           end
        then (Some (session, report), required) else st
    | None =>
        if is_completed session && has_protocol session
        then (last, required ++ [session_apparatus session]) else st
    end) (None, []) (btree_values latest).

Definition operation_predecessors (key_by_node : gmap string string) (key : string)
    (candidates : list ChainStage) : view (gset string) :=
  view_fold (λ candidate prev,
    previous ← (λ p, previous_stages p (stage_node_id candidate));
    mret (foldl (λ prev stage,
      match key_by_node !! stage_node_id stage with
      | Some k => if k =s key then prev else {[k]} ∪ prev
      | None => prev
      end) prev previous)) candidates ∅.

(** Whether an outstanding roll is for this operation. *)
Definition input_is_here (candidates : list ChainStage) (input : StageWorkInput) : view bool :=
  if negb (is_empty (input_target_node input)) then mret (matches_node candidates (input_target_node input))
  else if negb (is_empty (input_source_node input)) then
    next ← (λ p, next_stages p (input_source_node input));
    mret (existsb (λ s, matches_node candidates (stage_node_id s)) next)
  else if negb (is_empty (input_target_apparatus input)) &&
          existsb (λ s, bool_decide (stage_apparatus_id s = Some (input_target_apparatus input)))
            candidates
  then mret true
  else if is_empty (input_source_apparatus input) then mret false
  else view_any (λ s,
    stations ← (λ p, previous_stations p (default "" (stage_apparatus_id s)));
    mret (existsb (String.eqb (input_source_apparatus input)) stations)) candidates.

Record operation_state := {
  op_local_done : bool;
  op_predecessors : gset string;
  op_status : StageWorkStatus;
}.

(** The body of the loop over the operations. *)
Definition operation_step (map : ProductionMapDefinition) (stages : list ChainStage)
    (key_by_node : gmap string string) (resolved : list (RunSession * string))
    (inputs : list StageWorkInput) (states : station_states)
    (events : list ProductionStageLifecycleEvent) (key : string) (candidates : list ChainStage)
  : view operation_state :=
  let latest := latest_sessions candidates resolved in
  let done := locally_done map stages states events candidates latest in
  let '(last, required) := collect_reports latest in
  prev ← operation_predecessors key_by_node key candidates;
  inputs_here ← view_filter (input_is_here candidates) (List.filter input_outstanding inputs);
  let has_available := existsb input_available inputs_here in
  mret {|
    op_local_done := done && bool_decide (required = []) && bool_decide (length inputs_here = 0);
    op_predecessors := prev;
    op_status := {|
      ws_stage_node_id := default "" (stage_node_id <$> head candidates);
      ws_upstream_closed := false;
      ws_completed := false;
      ws_has_available_input := has_available;
      ws_last_apparatus := default "" ((λ sr : RunSession * _, session_apparatus (fst sr)) <$> last);
      ws_last_worker_ref := default "" ((λ sr, report_worker_ref (snd sr)) <$> last);
      ws_last_report_at_unix := default 0%Z ((λ sr, report_submitted_at_unix (snd sr)) <$> last);
      ws_astatka_required_apparatuses := if has_available then [] else required |} |}.

(** One pass of the closure over the operations in key order. *)
Definition close_key (table : gmap string operation_state) (closed : gset string) (key : string)
  : gset string :=
  match table !! key with
  | Some op =>
      if op_local_done op && bool_decide (op_predecessors op ⊆ closed) then {[key]} ∪ closed
      else closed
  | None => closed
  end.

Definition close_pass (table : gmap string operation_state) (keys : list string)
    (closed : gset string) : gset string :=
  foldl (close_key table) closed keys.

Fixpoint close_rounds (table : gmap string operation_state) (keys : list string) (n : nat)
    (closed : gset string) : gset string :=
  match n with
  | O => closed
  | S n => close_rounds table keys n (close_pass table keys closed)
  end.

Definition finish_status (closed : gset string) (key : string) (op : operation_state)
  : StageWorkStatus :=
  let upstream_closed := bool_decide (op_predecessors op ⊆ closed) in
  let status := (op_status op) <| ws_upstream_closed := upstream_closed |>
                               <| ws_completed := bool_decide (key ∈ closed) |> in
  if upstream_closed then status else status <| ws_astatka_required_apparatuses := [] |>.

Definition finish_statuses (table : gmap string operation_state) : list StageWorkStatus :=
  let closed := close_rounds table (btree_keys table) (size table) ∅ in
  (λ entry : string * operation_state, finish_status closed entry.1 entry.2) <$> btree_entries table.

Definition stage_work_table (sessions : list RunSession) (inputs : list StageWorkInput)
    (states : station_states) (events : list ProductionStageLifecycleEvent)
  : view (gmap string operation_state) :=
  map ← view_map;
  stages ← (stages : view _);
  let stages := List.filter (λ s, is_some (stage_apparatus_id s)) stages in
  let '(operations, key_by_node) := operations_of map stages in
  resolved ← resolved_sessions map stages operations sessions;
  view_fold (λ (entry : string * list ChainStage) table,
    op ← operation_step map stages key_by_node resolved inputs states events entry.1 entry.2;
    mret (<[entry.1 := op]> table)) (btree_entries operations) ∅.

Definition stage_work_statuses_projected (sessions : list RunSession)
    (inputs : list StageWorkInput) (states : station_states)
    (events : list ProductionStageLifecycleEvent) : view (list StageWorkStatus) :=
  table ← stage_work_table sessions inputs states events;
  mret (finish_statuses table).

Definition stage_work_statuses (map : ProductionMapDefinition) (sessions : list RunSession)
    (inputs : list StageWorkInput) (states : station_states)
    (events : list ProductionStageLifecycleEvent) : list StageWorkStatus :=
  (stage_work_statuses_projected sessions inputs states events (projection_reference map)).2.

Definition work_lifecycle (fallback : LifecycleStatus.t) (statuses : list StageWorkStatus)
    (sessions : list RunSession) : LifecycleStatus.t :=
  if negb (existsb has_protocol sessions) then fallback
  else if negb (bool_decide (length statuses = 0)) && forallb ws_completed statuses
  then LifecycleStatus.ProductionCompleted
  else LifecycleStatus.InProgress.
End execution.
