(* ===== verification/StageFacts.v ===== *)
(** Stage execution: closure is a least fixed point, cached and reference
    snapshots agree, and reports are stamped once. *)
From S2P Require Import Prelude RustStr F64 Errors Identity QueueState OrderLayout MapDefinition Formula Compiler Bfs Chain ChainFacts Projection Scheduler Json Progress ProgressFacts WipRoute WipRouteFacts Lifecycle StageExecution.

(** * The closure of operations *)

Section closure.
Context (table : gmap string operation_state).

(** The specification: the least set of operations that are done themselves and
    whose predecessors all belong to it. *)
Inductive closed_op : string → Prop :=
  | closed_intro key op :
      table !! key = Some op → op_local_done op = true →
      (∀ k, k ∈ op_predecessors op → closed_op k) → closed_op key.

Abbreviation keys := (btree_keys table).

Lemma close_pass_grows l closed : closed ⊆ close_pass table l closed.
Proof.
  revert closed. induction l as [|k l IH]; intros closed; simpl; [done|].
  etrans; [|apply IH]. unfold close_key. repeat case_match; set_solver.
Qed.

Lemma close_pass_ready l closed key op :
  key ∈ l → table !! key = Some op → op_local_done op = true → op_predecessors op ⊆ closed →
  key ∈ close_pass table l closed.
Proof.
  intros Hin Hop Hdone. revert closed. induction Hin as [key l|key k l Hin IH]; intros closed Hp; simpl.
  - apply close_pass_grows. unfold close_key. rewrite Hop, Hdone. simpl.
    rewrite bool_decide_true by done. set_solver.
  - apply IH; [done..|]. etrans; [exact Hp|]. unfold close_key. repeat case_match; set_solver.
Qed.

Lemma close_pass_sound l closed :
  (∀ k, k ∈ closed → closed_op k) → ∀ k, k ∈ close_pass table l closed → closed_op k.
Proof.
  revert closed. induction l as [|key l IH]; intros closed Hc; simpl; [done|].
  apply IH. intros k. unfold close_key. destruct (table !! key) as [op|] eqn:Hop; [|apply Hc].
  destruct (_ && _) eqn:E; [|apply Hc]. apply andb_true_iff in E as [Hd Hp%bool_decide_eq_true].
  intros [->%elem_of_singleton|?]%elem_of_union; [|by apply Hc]. econstructor; [done..|].
  set_solver.
Qed.

Lemma close_rounds_sound n closed :
  (∀ k, k ∈ closed → closed_op k) → ∀ k, k ∈ close_rounds table keys n closed → closed_op k.
Proof.
  revert closed. induction n as [|n IH]; intros closed Hc; simpl; [done|].
  apply IH. by apply close_pass_sound.
Qed.

Lemma closed_op_key k : closed_op k → k ∈ keys.
Proof. inversion 1 as [? op Hop]; subst. apply elem_of_btree_keys. eauto. Qed.

(** A pass that adds nothing has reached the fixed point. *)
Lemma fixed_point_complete closed :
  close_pass table keys closed ⊆ closed → ∀ k, closed_op k → k ∈ closed.
Proof.
  intros Hfix k Hk. induction Hk as [key op Hop Hdone _ IH].
  apply Hfix. eapply close_pass_ready; [|done..|by intros ? ?; apply IH].
  apply elem_of_btree_keys. eauto.
Qed.

Lemma close_rounds_progress n closed :
  (∀ k, closed_op k → k ∈ close_rounds table keys n closed) ∨
  n + size closed ≤ size (close_rounds table keys n closed).
Proof.
  revert closed. induction n as [|n IH]; intros closed; simpl; [right; lia|].
  destruct (decide (close_pass table keys closed ⊆ closed)) as [Hfix|Hgrow].
  - left. intros k Hk. pose proof (fixed_point_complete closed Hfix k Hk) as Hin.
    clear IH. assert (∀ m c, k ∈ c → k ∈ close_rounds table keys m c) as Hmono.
    { induction m as [|m IHm]; intros c Hc; simpl; [done|]. by apply IHm, close_pass_grows. }
    by apply Hmono, close_pass_grows.
  - destruct (IH (close_pass table keys closed)) as [?|Hs]; [by left|right].
    assert (size closed < size (close_pass table keys closed)); [|lia].
    apply subset_size. split; [apply close_pass_grows|done].
Qed.

Lemma close_rounds_exact k :
  k ∈ close_rounds table keys (size table) ∅ ↔ closed_op k.
Proof.
  split; [apply close_rounds_sound; set_solver|].
  destruct (close_rounds_progress (size table) ∅) as [H|Hsize]; [apply H|].
  intros Hk. set (c := close_rounds table keys (size table) ∅) in *.
  assert (c ⊆ dom table) as Hsub.
  { intros x Hx. apply close_rounds_sound in Hx; [|set_solver].
    apply closed_op_key, elem_of_btree_keys in Hx. by apply elem_of_dom. }
  assert (c = dom table) as ->.
  { apply set_subseteq_size_eq; [done|]. rewrite size_dom. lia. }
  apply elem_of_dom, elem_of_btree_keys, closed_op_key, Hk.
Qed.

(** No operation on a cycle of predecessors is closed. *)
Definition precedes (k1 k2 : string) : Prop :=
  ∃ op, table !! k2 = Some op ∧ k1 ∈ op_predecessors op.

Lemma closed_acc k : closed_op k → Acc precedes k.
Proof.
  induction 1 as [key op Hop _ _ IH]. constructor. intros k (op' & Hop' & Hk). apply IH.
  by simplify_eq.
Qed.

Lemma tc_last_step x y : tc precedes x y → ∃ w, (x = w ∨ tc precedes x w) ∧ precedes w y.
Proof.
  induction 1 as [x y Hxy|x y z Hxy _ (w & [->|Hw] & Hwz)].
  - exists x. eauto.
  - exists w. split; [right; by apply tc_once|done].
  - exists w. split; [right; by eapply tc_l|done].
Qed.

Lemma acc_tc x : Acc precedes x → Acc (tc precedes) x.
Proof.
  induction 1 as [x _ IH]. constructor. intros y (w & [->|Hw] & Hwx)%tc_last_step; [by apply IH|].
  exact (Acc_inv (IH w Hwx) Hw).
Qed.

Lemma cycle_stays_open k : tc precedes k k → ¬ closed_op k.
Proof.
  intros Hcycle Hk%closed_acc%acc_tc. induction Hk as [k _ IH]. by eapply IH.
Qed.
End closure.

(** * Snapshots do not depend on the caches *)

Section snapshots.
Context `{J : Json} `{C : !RouteCodec} `{CL : !RouteCodecLaws C} `{R : !ReportCodec}.

Lemma vbind_eq {A B} (m : view A) (k : A → view B) p :
  mbind (M := view) k m p = k (m p).2 (m p).1.
Proof. unfold mbind, view_bind. by destruct (m p). Qed.

Lemma transparent_route batch : transparent (route batch).
Proof. apply (transparent_view _ (λ map, resolve_wip_input_route map batch)), route_ok. Qed.

Lemma transparent_work_stage station id : transparent (λ p, work_stage p station id).
Proof.
  apply (transparent_view _ (λ map, work_stage_for_station map station id)). intros p Hp.
  destruct (serve_ok (AskQuery (AskWorkStage station id)) p Hp) as (Ha & Hm & Hi). simpl in *.
  destruct (work_stage p station id); simpl in *. by simplify_eq.
Qed.

Lemma transparent_previous_stations station : transparent (λ p, previous_stations p station).
Proof.
  apply (transparent_view _ (λ map, previous_work_stage_stations map station)). intros p Hp.
  destruct (serve_ok (AskQuery (AskPreviousStations station)) p Hp) as (Ha & Hm & Hi). simpl in *.
  destruct (previous_stations p station); simpl in *. by simplify_eq.
Qed.
#[local] Hint Resolve transparent_route transparent_work_stage transparent_previous_stations : mes.

Lemma transparent_resolved map stages operations sessions :
  transparent (resolved_sessions map stages operations sessions).
Proof. unfold resolved_sessions, resolve_session. transparency. Qed.

Lemma transparent_predecessors key_by_node key candidates :
  transparent (operation_predecessors key_by_node key candidates).
Proof. unfold operation_predecessors, previous_stages. transparency. Qed.

Lemma transparent_input candidates input : transparent (input_is_here candidates input).
Proof. unfold input_is_here, next_stages. transparency. Qed.
#[local] Hint Resolve transparent_predecessors transparent_input : mes.

Lemma transparent_operation map stages key_by_node resolved inputs states events key candidates :
  transparent (operation_step map stages key_by_node resolved inputs states events key candidates).
Proof.
  unfold operation_step. destruct (collect_reports _) as [last required]. transparency.
Qed.
#[local] Hint Resolve transparent_resolved transparent_operation : mes.

Lemma transparent_table sessions inputs states events :
  transparent (stage_work_table sessions inputs states events).
Proof. unfold stage_work_table. transparency. Qed.

Lemma transparent_statuses sessions inputs states events :
  transparent (stage_work_statuses_projected sessions inputs states events).
Proof. unfold stage_work_statuses_projected. apply transparent_vbind; [apply transparent_table|]. auto with mes. Qed.

(** ** Inputs *)

(** Inputs that agree where the statuses look: on outstanding rolls. *)
Definition same_input (i j : StageWorkInput) : Prop :=
  input_outstanding i = input_outstanding j ∧ (input_outstanding i = true → i = j).

Lemma same_inputs_filter l l' :
  Forall2 same_input l l' → List.filter input_outstanding l = List.filter input_outstanding l'.
Proof.
  induction 1 as [|i j l l' [Ho Hi] _ IH]; simpl; [done|].
  destruct (input_outstanding i) eqn:E; rewrite <-Ho; [|done]. by rewrite Hi, IH.
Qed.

Lemma batch_input_agrees batch p q :
  proj_inv p → proj_inv q → proj_map p = proj_map q →
  same_input (batch_input batch p).2 (batch_input batch q).2 ∧
  proj_map (batch_input batch p).1 = proj_map p ∧ proj_inv (batch_input batch p).1.
Proof.
  intros Hp Hq Hm. unfold batch_input.
  destruct (route_ok batch p Hp) as (Hrp & Hmp & Hip).
  destruct (route_ok batch q Hq) as (Hrq & Hmq & Hiq).
  destruct (route batch p) as [p' rp], (route batch q) as [q' rq]; simpl in *.
  assert (rp = rq) as -> by congruence.
  destruct (WipStatus.eqb (batch_wip_status batch) WipStatus.Processed) eqn:Hw.
  - apply bool_decide_eq_true in Hw. rewrite Hw.
    destruct (proj_cached p), (proj_cached q); simpl; split_and!; done.
  - rewrite !andb_false_r. simpl. by split_and!.
Qed.

Lemma batch_inputs_agree batches acc acc' p q :
  proj_inv p → proj_inv q → proj_map p = proj_map q → Forall2 same_input acc acc' →
  let fold acc p := view_fold (λ b acc, i ← batch_input b; mret (M := view) (acc ++ [i])) batches acc p in
  Forall2 same_input (fold acc p).2 (fold acc' q).2 ∧
  proj_map (fold acc p).1 = proj_map p ∧ proj_inv (fold acc p).1.
Proof.
  simpl. revert acc acc' p q. induction batches as [|b batches IH]; intros acc acc' p q Hp Hq Hm Hacc;
    simpl; [by split_and!|].
  destruct (batch_input_agrees b p q Hp Hq Hm) as (Hs & Hmp & Hip).
  destruct (batch_input_agrees b q p Hq Hp (eq_sym Hm)) as (_ & Hmq & Hiq).
  rewrite !vbind_eq. cbn [mret view_ret fst snd].
  destruct (batch_input b p) as [p' i], (batch_input b q) as [q' j]; simpl in *.
  destruct (IH (acc ++ [i]) (acc' ++ [j]) p' q') as (? & Hm' & ?); [done..|congruence| |].
  { apply Forall2_app; [done|]. by constructor. }
  split_and!; [done|congruence|done].
Qed.

Lemma operation_step_inputs map stages key_by_node resolved inputs inputs' states events key candidates :
  List.filter input_outstanding inputs = List.filter input_outstanding inputs' →
  operation_step map stages key_by_node resolved inputs states events key candidates =
  operation_step map stages key_by_node resolved inputs' states events key candidates.
Proof. intros H. unfold operation_step. by rewrite H. Qed.

Lemma table_inputs sessions inputs inputs' states events :
  List.filter input_outstanding inputs = List.filter input_outstanding inputs' →
  stage_work_statuses_projected sessions inputs states events =
  stage_work_statuses_projected sessions inputs' states events.
Proof. intros H. unfold stage_work_statuses_projected, stage_work_table, operation_step. by rewrite H. Qed.

(** A work snapshot as the readers take it: the inputs, then the statuses, on
    one projection. *)
Definition work_snapshot (sessions : list RunSession) (batches : list OrderProgressBatch)
    (opening : list OpeningWipRecord) (states : station_states)
    (events : list ProductionStageLifecycleEvent) : view (list StageWorkStatus) :=
  inputs ← work_inputs_projected batches opening;
  stage_work_statuses_projected sessions inputs states events.

(** The stage statuses computed through a projection are those of the
    uncached functions, whatever the projection was asked before, although the
    cached path skips the routes of processed rolls. *)
Theorem work_snapshot_ignores_caches map requests sessions batches opening states events :
  (work_snapshot sessions batches opening states events
     (serve_all requests (projection_new map)).1).2 =
  stage_work_statuses map sessions (work_inputs map batches opening) states events.
Proof.
  destruct (serve_all_ok requests _ (new_inv map)) as (_ & Hm & Hi). simpl in Hm.
  set (p := (serve_all requests (projection_new map)).1) in *. clearbody p.
  unfold work_snapshot, stage_work_statuses, work_inputs, work_inputs_projected.
  rewrite !vbind_eq. cbn [mret view_ret fst snd].
  destruct (batch_inputs_agree batches [] [] p (projection_reference map) Hi (reference_inv map) Hm)
    as (Hs & Hmp & Hip); [constructor|].
  erewrite table_inputs; [apply transparent_statuses; [done|apply reference_inv|by rewrite Hmp]|].
  apply same_inputs_filter, Forall2_app; [exact Hs|].
  apply Forall_Forall2_diag, Forall_forall. intros i _. by split.
Qed.

(** * What closure means *)

(** On the reference projection a loop is a plain fold. *)
Lemma reference_vbind {A B} (m : view A) (k : A → view B) map :
  transparent m → (∀ a, transparent (k a)) →
  (mbind (M := view) k m (projection_reference map)).2 =
  (k (m (projection_reference map)).2 (projection_reference map)).2.
Proof.
  intros Hm Hk. rewrite vbind_eq.
  destruct (Hm (projection_reference map) _ (reference_inv map) (reference_inv map) eq_refl)
    as (_ & Hmap & Hi).
  by destruct (Hk (m (projection_reference map)).2 _ _ Hi (reference_inv map) Hmap) as (-> & _).
Qed.

Lemma reference_fold {A S} (body : A → S → view S) l s map :
  (∀ x s, transparent (body x s)) →
  (view_fold body l s (projection_reference map)).2 =
  foldl (λ s x, (body x s (projection_reference map)).2) s l.
Proof.
  intros Hb. revert s. induction l as [|x l IH]; intros s; simpl; [done|].
  rewrite reference_vbind; [apply IH|apply Hb|]. intros a. by apply transparent_fold.
Qed.

Lemma reference_filter {A} (f : A → view bool) l map :
  (∀ x, transparent (f x)) →
  (view_filter f l (projection_reference map)).2 =
  List.filter (λ x, (f x (projection_reference map)).2) l.
Proof.
  intros Hf. unfold view_filter. rewrite reference_fold by (intros; apply transparent_vbind; auto with mes).
  assert (∀ acc, foldl (λ s x, ((b ← f x; mret (if b : bool then s ++ [x] else s))
      (projection_reference map)).2) acc l =
    acc ++ List.filter (λ x, (f x (projection_reference map)).2) l) as ->; [|done].
  induction l as [|x l IH]; intros acc; simpl; [by rewrite app_nil_r|].
  rewrite IH, vbind_eq. simpl. destruct ((f x (projection_reference map)).2); [|done].
  by rewrite <-app_assoc.
Qed.

Lemma foldl_pointwise {A S} (f g : S → A → S) s l :
  (∀ s x, f s x = g s x) → foldl f s l = foldl g s l.
Proof. intros H. revert s. induction l as [|x l IH]; intros s; simpl; [done|]. by rewrite H. Qed.

Lemma foldl_insert_fresh {V} (f : string * list ChainStage → V) l (m : gmap string V) key cands :
  NoDup l.*1 → (key, cands) ∈ l →
  foldl (λ m entry, <[entry.1 := f entry]> m) m l !! key = Some (f (key, cands)).
Proof.
  revert m. induction l as [|[k c] l IH]; intros m Hnd Hin; [set_solver|]. simpl in *.
  apply NoDup_cons in Hnd as [Hk Hnd]. apply elem_of_cons in Hin as [[= <- <-]|Hin].
  - clear IH. assert (∀ m : gmap string V,
      foldl (λ m entry, <[entry.1 := f entry]> m) m l !! key = m !! key) as Hnone.
    { induction l as [|[k' c'] l IH]; intros m'; simpl; [done|].
      rewrite IH; [|set_solver|by apply NoDup_cons in Hnd as [_ ?]].
      rewrite lookup_insert_ne; [done|set_solver]. }
    by rewrite Hnone, lookup_insert_eq.
  - by apply IH.
Qed.

(** The state of each operation, on the reference path. *)
Lemma table_entry map sessions inputs states events key candidates :
  let stages := physical_stages map in
  let operations := (operations_of map stages).1 in
  let resolved := (resolved_sessions map stages operations sessions (projection_reference map)).2 in
  operations !! key = Some candidates →
  (stage_work_table sessions inputs states events (projection_reference map)).2 !! key =
  Some (operation_step map stages (operations_of map stages).2 resolved inputs states events
          key candidates (projection_reference map)).2.
Proof.
  intros stages operations resolved Hop. unfold stage_work_table.
  rewrite !reference_vbind by (intros; transparency).
  cbn [view_map fst snd].
  change (List.filter _ ((Projection.stages : view _) (projection_reference map)).2) with stages.
  cbn [projection_reference set_field proj_map projection_new].
  destruct (operations_of map stages) as [ops key_by_node] eqn:Eo. simpl in operations. subst operations.
  rewrite reference_vbind by (intros; transparency).
  rewrite reference_fold by (intros; transparency).
  set (f := λ entry : string * list ChainStage,
    (operation_step map stages key_by_node resolved inputs states events entry.1 entry.2
       (projection_reference map)).2).
  rewrite (foldl_pointwise _ (λ m entry, <[entry.1 := f entry]> m))
    by (intros; rewrite vbind_eq; done).
  apply (foldl_insert_fresh f); [by rewrite btree_entries_keys; apply NoDup_btree_keys|].
  by apply elem_of_btree_entries.
Qed.

Lemma finish_statuses_exact table :
  Forall2 (λ (entry : string * operation_state) status,
    ws_stage_node_id status = ws_stage_node_id (op_status entry.2) ∧
    (ws_completed status = true ↔ closed_op table entry.1) ∧
    (ws_upstream_closed status = true ↔
     ∀ k, k ∈ op_predecessors entry.2 → closed_op table k)) (btree_entries table) (finish_statuses table).
Proof.
  unfold finish_statuses. apply Forall2_fmap_r, Forall_Forall2_diag, Forall_forall.
  intros [key op] _. simpl. unfold finish_status.
  set (closed := close_rounds table (btree_keys table) (size table) ∅).
  assert (∀ k, k ∈ closed ↔ closed_op table k) as Hc by apply close_rounds_exact.
  destruct (bool_decide (op_predecessors op ⊆ closed)) eqn:E; simpl; split_and!; try done.
  1,3: rewrite bool_decide_eq_true; apply Hc.
  - apply bool_decide_eq_true in E. set_solver.
  - apply bool_decide_eq_false in E. split; [done|]. intros H. destruct E. set_solver.
Qed.

(** C28: The bounded passes of the stage closure compute exactly the least fixed
    point: an operation is reported completed if and only if it is locally done
    and all operations before it are, inductively; its upstream flag says so of
    its predecessors; and an operation on a cycle of predecessors is never
    closed. *)
Theorem stage_closure_is_least_fixed_point map sessions inputs states events :
  let table := (stage_work_table sessions inputs states events (projection_reference map)).2 in
  Forall2 (λ (entry : string * operation_state) status,
    ws_stage_node_id status = ws_stage_node_id (op_status entry.2) ∧
    (ws_completed status = true ↔ closed_op table entry.1) ∧
    (ws_upstream_closed status = true ↔
     ∀ k, k ∈ op_predecessors entry.2 → closed_op table k))
    (btree_entries table) (stage_work_statuses map sessions inputs states events) ∧
  ∀ key, tc (precedes table) key key → ¬ closed_op table key.
Proof.
  intros table. split; [|apply cycle_stays_open].
  unfold stage_work_statuses, stage_work_statuses_projected. rewrite vbind_eq.
  apply finish_statuses_exact.
Qed.

(** ** A closed operation has no open work *)

Lemma collect_reports_required (latest : gmap string RunSession) :
  (collect_reports latest).2 = [] → ∀ a s, latest !! a = Some s →
  is_completed s = true → is_some (work_report s) = true ∨ has_protocol s = false.
Proof.
  intros Hnil a s Hs Hc. destruct (work_report s) as [r|] eqn:Er; [by left|right].
  destruct (has_protocol s) eqn:Hp; [exfalso|done].
  assert (s ∈ btree_values latest) as Hin by (apply elem_of_btree_values; eauto).
  unfold collect_reports in Hnil. revert Hin Hnil. generalize (btree_values latest).
  set (step := λ st (session : RunSession), _).
  assert (∀ l st, (st.2 ≠ []) → (foldl step st l).2 ≠ []) as Hmono.
  { induction l as [|x l IH]; intros [last req] Hne; simpl; [done|]. apply IH. unfold step.
    repeat case_match; simpl in *; try done. by intros [? _]%app_nil. }
  assert (∀ l st, s ∈ l → (foldl step st l).2 ≠ []) as Hall; [|by intros l Hin; apply Hall].
  induction l as [|x l IH]; intros [last req] Hin; simpl; [set_solver|].
  apply elem_of_cons in Hin as [<-|Hin]; [|by apply IH]. apply Hmono. unfold step.
  rewrite Er, Hc, Hp. simpl. by intros [_ ?]%app_nil.
Qed.

(** When an operation is closed, the latest session of every apparatus that
    worked on it is completed and, under the reporting protocol, has its work
    report, and no outstanding roll is left for it. *)
Theorem closed_operation_has_no_open_work map sessions inputs states events key candidates :
  let stages := physical_stages map in
  let p := projection_reference map in
  let operations := (operations_of map stages).1 in
  let resolved := (resolved_sessions map stages operations sessions p).2 in
  operations !! key = Some candidates →
  closed_op (stage_work_table sessions inputs states events p).2 key →
  (∀ apparatus (session : RunSession), latest_sessions candidates resolved !! apparatus = Some session →
     session_status session = RunStatus.Completed ∧
     (is_some (work_report session) = true ∨ has_protocol session = false)) ∧
  (∀ input, input ∈ inputs → input_outstanding input = true →
     (input_is_here candidates input p).2 = false).
Proof.
  cbv zeta. intros Hop Hcl. inversion Hcl as [? op Hlook Hdone _ Hk]. clear Hk.
  pose proof (table_entry map sessions inputs states events key candidates Hop) as Hent.
  rewrite Hlook in Hent. injection Hent as ->. revert Hdone.
  unfold operation_step. destruct (collect_reports _) as [last required] eqn:Ecr.
  rewrite !reference_vbind by (intros; transparency). cbn [mret view_ret snd op_local_done].
  rewrite reference_filter by auto with mes.
  intros [[Hdone Hreq%bool_decide_eq_true]%andb_true_iff Hin%bool_decide_eq_true]%andb_true_iff.
  split.
  - intros apparatus session Hs.
    assert (is_completed session = true) as Hc.
    { unfold locally_done in Hdone. case_bool_decide as Hemp;
        [by rewrite Hemp, lookup_empty in Hs|].
      eapply forallb_elem in Hdone; [exact Hdone|]. apply elem_of_btree_values. eauto. }
    split; [by apply bool_decide_eq_true in Hc|].
    eapply collect_reports_required; [|exact Hs|exact Hc]. by rewrite Ecr.
  - intros input Hi Ho. destruct ((input_is_here candidates input (projection_reference map)).2) eqn:E; [exfalso|done].
    apply length_zero_iff_nil in Hin.
    assert (input ∈ List.filter (λ x, (input_is_here candidates x (projection_reference map)).2)
      (List.filter input_outstanding inputs)) as Hf by (by rewrite !filterb_elem).
    rewrite Hin in Hf. set_solver.
Qed.
End snapshots.

(** * Stamping a report *)

Section stamping.
Context `{JL : JsonLaws} `{R : !ReportCodec} `{RL : !ReportCodecLaws R}.

Lemma set_session_payload_object key x session :
  json_is_object (session_payload_json session) = true →
  ∃ p, set_session_payload key x session =
         Ok {| run_session := run_session session; session_payload_json := p |} ∧
    json_is_object p = true ∧
    ∀ k, json_get k p = if decide (k = key) then Some x else json_get k (session_payload_json session).
Proof.
  intros Ho. destruct (json_set_object key x _ Ho) as (p & Hp & Hobj & Hg).
  exists p. unfold set_session_payload. by rewrite Hp.
Qed.

(** Stamping a report on a completed session without one stores exactly
    that report, so that it is read back, marks the session as reporting, leaves
    every other payload field and the session itself alone, and any further
    stamp changes nothing. *)
Theorem stamped_report_is_read_back session id sequence actor now :
  json_is_object (session_payload_json session) = true →
  session_status session = RunStatus.Completed → work_report session = None →
  ∃ session', stamp_work_report session id sequence actor now = Ok session' ∧
    run_session session' = run_session session ∧
    work_report session' = Some {| report_id := id; report_sequence := sequence;
      report_submitted_at_unix := now; report_worker_ref := actor_ref actor;
      report_worker_role := actor_role actor;
      report_worker_display_name := actor_display_name actor |} ∧
    has_protocol session' = true ∧
    (∀ k, k ≠ WORK_REPORT → k ≠ WORK_PROTOCOL →
       json_get k (session_payload_json session') = json_get k (session_payload_json session)) ∧
    ∀ id2 sequence2 actor2 now2,
      stamp_work_report session' id2 sequence2 actor2 now2 = Ok session'.
Proof.
  intros Ho Hc Hn. unfold stamp_work_report, is_completed. rewrite Hn, Hc. simpl.
  destruct (set_session_payload_object WORK_PROTOCOL (json_Z 1) session Ho) as (p & -> & Hp & Hg).
  simpl. match goal with |- context [report_to_json ?r] => set (report := r) end.
  match goal with |- context [set_session_payload WORK_REPORT ?x ?s] =>
    destruct (set_session_payload_object WORK_REPORT x s Hp) as (q & -> & Hq & Hgq) end.
  simpl in Hgq. eexists. split; [done|]. simpl.
  assert (json_get WORK_REPORT q = Some (report_to_json report)) as Hr
    by (rewrite Hgq; by rewrite decide_True).
  unfold work_report. simpl. rewrite Hr. simpl. rewrite report_round_trip. split_and!; [done|done| | |].
  - unfold has_protocol. simpl. rewrite Hgq, Hg. by vm_compute.
  - intros k H1 H2. rewrite Hgq, Hg. by rewrite !decide_False.
  - intros. by rewrite Hc.
Qed.
End stamping.
