(* ===== verification/OrderRefresh.v ===== *)
(** Refreshing the life cycle of orders after a queue write.

    Models the queue part of the memory store,
    [src/core/production_map/memory_store/queue.rs]: reading and writing queue
    states, appending queue events, and [refresh_production_order_lifecycles],
    which recomputes the persisted life cycle of the orders touched from queue
    states, events, sessions, rolls and holds.  The data of a hold is that of
    [types/control.rs], the event that of [queue/types.rs]. *)
From S2P Require Import Prelude RustStr F64 Json Errors Identity QueueState OrderLayout MapDefinition Formula Compiler Bfs Chain Projection Scheduler Progress WipRoute Lifecycle StageExecution.

(** * Holds (types/control.rs) *)

Record OrderFreezeRequest := {
  freeze_scope : string;
  freeze_stage_node_id : string;
  freeze_request_id : string;
  freeze_status : FreezeRequestStatus.t;
  freeze_target_session_id : string;
  freeze_target_apparatus : string;
  freeze_target_worker_role : string;
  freeze_target_worker_ref : string;
  freeze_target_worker_display_name : string;
  freeze_requested_at_unix : Z;
  freeze_transitioned_at_unix : Z;
}.

Record OrderEarlyClose := {
  close_comment : string;
  close_actor : QueueActionActor;
  close_requested_at_unix : Z;
  close_closed_at_unix : option Z;
}.

Record OrderControlRecord := {
  control_order_id : string;
  control_stage_node_id : string;
  control_state : OrderControl.t;
  control_actor : QueueActionActor;
  control_requested_at_unix : Z;
  control_frozen_at_unix : option Z;
  control_freeze_request : option OrderFreezeRequest;
  control_early_close : option OrderEarlyClose;
}.

Section store.
Context `{J : Json} `{C : !RouteCodec} `{R : !ReportCodec}.

(** [queue/types.rs]. *)
Record ApparatusQueueActionEvent := {
  qe_event_id : string;
  qe_apparatus : string;
  qe_order_id : string;
  qe_stage_node_id : string;
  qe_action : Action.t;
  qe_from_state : OrderState.t;
  qe_to_state : OrderState.t;
  qe_policy : ApparatusQueuePolicy;
  qe_actor : QueueActionActor;
  qe_assigned_apparatus : list string;
  qe_payload_json : value;
}.

(** The tables of the store the refresh reads, and the one it writes. *)
Record order_store := {
  st_maps : gmap string ProductionMapDefinition;
  st_queue_states : station_states;
  st_queue_events : list ApparatusQueueActionEvent;
  st_order_run_sessions : gmap string RunSession;
  st_order_progress_batches : gmap string OrderProgressBatch;
  st_opening_wip_records : gmap string OpeningWipRecord;
  st_order_controls : gmap string OrderControlRecord;
  st_stage_order_controls : gmap (string * string * string) OrderControlRecord;
  st_lifecycles : gmap string ProductionOrderLifecycleRecord;
}.
#[global] Instance order_store_rebuild : Rebuild order_store := λ r, {|
  st_maps := st_maps r;
  st_queue_states := st_queue_states r;
  st_queue_events := st_queue_events r;
  st_order_run_sessions := st_order_run_sessions r;
  st_order_progress_batches := st_order_progress_batches r;
  st_opening_wip_records := st_opening_wip_records r;
  st_order_controls := st_order_controls r;
  st_stage_order_controls := st_stage_order_controls r;
  st_lifecycles := st_lifecycles r |}.

(** * What an order's history says *)

Definition event_flag (key : string) (e : ApparatusQueueActionEvent) : bool :=
  bool_decide (payload_bool (qe_payload_json e) key = Some true).

Definition completed_with_issue_count (store : order_store) (order_id : string) : nat :=
  length (List.filter (λ e, event_flag "completed_with_issue" e && (trim (qe_order_id e) =s order_id))
    (st_queue_events store)).

Definition stage_events (store : order_store) (order_id : string)
  : list ProductionStageLifecycleEvent :=
  omap (λ e,
    if negb (event_flag "completion_request" e) && negb (blank (qe_stage_node_id e)) &&
       (trim (qe_order_id e) =s order_id)
    then Some {| event_stage_node_id := trim (qe_stage_node_id e);
                 event_action := qe_action e; event_to_state := qe_to_state e |}
    else None) (st_queue_events store).

Definition has_roll_detached (store : order_store) (order_id : string) : bool :=
  existsb (λ s : RunSession,
    bool_decide (session_status s = RunStatus.RollDetached) && (trim (session_order_id s) =s order_id))
    (btree_values (st_order_run_sessions store)).

(** Rolls of the order with a flow status; returned layers are not counted. *)
Definition flow_count (store : order_store) (order_id flow : string) : nat :=
  length (List.filter (λ b,
    (trim (batch_order_id b) =s order_id) && negb (is_layer_remainder b) &&
    (flow_status_for_batch b =s flow)) (btree_values (st_order_progress_batches store))).

(** A frozen queue entry under a pending or a local hold counts as paused. *)
Definition operational_states (store : order_store) (order_id : string) : station_states :=
  let global := control_state <$> st_order_controls store !! order_id in
  map_imap (λ apparatus (states : gmap string string), Some (
    if is_some_and (states !! order_id) (λ s, s =s "frozen") &&
       (bool_decide (global = Some OrderControl.FreezeRequested) ||
        existsb (λ entry : (string * string * string) * OrderControlRecord,
          (control_order_id entry.2 =s order_id) &&
          bool_decide (control_state entry.2 = OrderControl.Frozen) &&
          is_some_and (control_freeze_request entry.2) (λ r, freeze_target_apparatus r =s apparatus))
          (map_to_list (st_stage_order_controls store)))
    then <[order_id := "paused"]> states else states)) (st_queue_states store).

(** The life cycle the order's evidence supports. *)
Definition derived_lifecycle (store : order_store) (map : ProductionMapDefinition) (order_id : string)
  : pm_result LifecycleStatus.t :=
  status ← ok_or (derive_production_order_lifecycle_with_stage_events map (st_queue_states store)
                    (stage_events store order_id)) StoreFailed;
  let sessions := List.filter (λ s : RunSession, session_order_id s =s order_id)
                    (btree_values (st_order_run_sessions store)) in
  let batches := List.filter (λ b, batch_order_id b =s order_id)
                   (btree_values (st_order_progress_batches store)) in
  let opening := List.filter (λ r, intake_order_id (record_intake r) =s order_id)
                   (btree_values (st_opening_wip_records store)) in
  let inputs := work_inputs map batches opening in
  let stages := stage_work_statuses map sessions inputs (st_queue_states store)
                  (stage_events store order_id) in
  Ok (work_lifecycle status stages sessions).

(** * The refresh *)

Definition advance (record : ProductionOrderLifecycleRecord) (status : LifecycleStatus.t)
  : run_result ProductionOrderLifecycleRecord :=
  if LifecycleStatus.can_automatically_transition_to (lc_status record) status then
    changed_at_unix ← add64 (lc_lifecycle_version record) 1;
    transition_to record status changed_at_unix
  else Ok record.

Definition with_outcome (issues : nat) (record : ProductionOrderLifecycleRecord)
  : ProductionOrderLifecycleRecord :=
  let record := record <| lc_completed_with_issue_count := issues |> in
  if LifecycleStatus.eqb (lc_status record) LifecycleStatus.ProductionCompleted
  then record <| lc_completion_outcome := if 0 <? issues then "with_issue" else "normal" |>
  else record.

Definition refreshed_record (store : order_store) (map : ProductionMapDefinition) (order_id : string)
    (record : ProductionOrderLifecycleRecord) : run_result ProductionOrderLifecycleRecord :=
  status ← lift (derived_lifecycle store map order_id);
  record ← advance record status;
  let issues := completed_with_issue_count store order_id in
  let record := with_outcome issues record in
  let waiting := flow_count store order_id "waiting_next_stage" in
  let operational :=
    if bool_decide (control_state <$> st_order_controls store !! order_id = Some OrderControl.Frozen)
    then OperationalStatus.Frozen
    else derive_production_order_operational_status (lc_status record)
           (operational_states store order_id) order_id issues (has_roll_detached store order_id)
           waiting in
  record ←
    (if OperationalStatus.eqb (lc_operational_status record) operational then Ok record
     else
       changed ← add64 (lc_operational_status_changed_at_unix record) 1;
       Ok (record <| lc_operational_status := operational |>
                  <| lc_operational_status_changed_at_unix := changed |>));
  let '(flow_status, stock_status) :=
    derive_order_flow_and_stock_status (OperationalStatus.as_str operational)
      (flow_count store order_id "free_wip") waiting (flow_count store order_id "in_progress")
      (flow_count store order_id "accepted_to_stock") in
  Ok (record <| lc_flow_status := flow_status |> <| lc_stock_status := stock_status |>).

(** The loop writes the record of each order before it goes on: an error
    keeps what was written. *)
Fixpoint refresh_production_order_lifecycles (order_ids : list string) (store : order_store)
  : order_store * run_result unit :=
  match order_ids with
  | [] => (store, Ok tt)
  | order_id :: order_ids =>
      let order_id := trim order_id in
      match st_maps store !! order_id with
      | None => refresh_production_order_lifecycles order_ids store
      | Some map =>
          let record := default (released order_id) (st_lifecycles store !! order_id) in
          match refreshed_record store map order_id record with
          | Err f => (store, Err f)
          | Ok record =>
              refresh_production_order_lifecycles order_ids
                (store <| st_lifecycles := <[order_id := record]> (st_lifecycles store) |>)
          end
      end
  end.

(** * Queue states and events *)

(** The rows of a table by the canonical id of their apparatus; two rows of one
    apparatus are an error. *)
Fixpoint read_rows {A} (entries : list (string * A)) (result_ : gmap string A) : pm_result (gmap string A) :=
  match entries with
  | [] => Ok result_
  | (apparatus, row) :: entries =>
      match ApparatusId_new (trim apparatus) with
      | Err _ => read_rows entries result_
      | Ok id =>
          if is_some (result_ !! apparatus_id_str id) then Err StoreFailed
          else read_rows entries (<[apparatus_id_str id := row]> result_)
      end
  end.

Definition apparatus_queue_states (store : order_store) : pm_result station_states :=
  read_rows (btree_entries (st_queue_states store)) ∅.

Definition put_apparatus_queue_states (apparatus : string) (states : gmap string string)
    (store : order_store) : order_store * run_result unit :=
  match ApparatusId_new (trim apparatus) with
  | Err _ => (store, Err (Fail StoreFailed))
  | Ok id =>
      refresh_production_order_lifecycles (btree_keys states)
        (store <| st_queue_states := <[apparatus_id_str id := states]> (st_queue_states store) |>)
  end.

Definition validate_queue_event (event : ApparatusQueueActionEvent) : pm_result unit :=
  if is_ok (ApparatusId_new (trim (qe_apparatus event))) &&
     forallb (λ a, is_ok (ApparatusId_new (trim a))) (qe_assigned_apparatus event)
  then Ok tt else Err StoreFailed.

Definition append_apparatus_queue_action_event (event : ApparatusQueueActionEvent)
    (store : order_store) : order_store * run_result unit :=
  match validate_queue_event event with
  | Err e => (store, Err (Fail e))
  | Ok _ =>
      refresh_production_order_lifecycles [trim (qe_order_id event)]
        (store <| st_queue_events := st_queue_events store ++ [event] |>)
  end.
End store.

(** * Facts

    The persisted life cycle of an order only moves forward, whatever is written
    to the store, and it follows the evidence when the transition is allowed. *)

(** * Transitions *)

Module L := LifecycleStatus.

Lemma transition_refl s : L.can_automatically_transition_to s s = true.
Proof. by destruct s. Qed.

Lemma transition_trans s1 s2 s3 :
  L.can_automatically_transition_to s1 s2 = true → L.can_automatically_transition_to s2 s3 = true →
  L.can_automatically_transition_to s1 s3 = true.
Proof. by destruct s1, s2, s3. Qed.

(** How an automatically maintained record may develop. *)
Record record_le (r r' : ProductionOrderLifecycleRecord) : Prop := {
  le_status : L.can_automatically_transition_to (lc_status r) (lc_status r') = true;
  le_version : (lc_lifecycle_version r ≤ lc_lifecycle_version r')%Z;
  le_bumped : lc_status r ≠ lc_status r' → (lc_lifecycle_version r < lc_lifecycle_version r')%Z;
  le_completed : ∀ t, lc_production_completed_at_unix r = Some t →
    lc_production_completed_at_unix r' = Some t;
  le_closed : lc_closed_at_unix r' = lc_closed_at_unix r;
  le_order : lc_order_id r' = lc_order_id r;
}.

Lemma record_le_refl r : record_le r r.
Proof. split; try done. apply transition_refl. Qed.

Lemma record_le_trans r1 r2 r3 : record_le r1 r2 → record_le r2 r3 → record_le r1 r3.
Proof.
  intros [Hs Hv Hb Hc Hcl Ho] [Hs' Hv' Hb' Hc' Hcl' Ho'].
  split; [by eapply transition_trans|lia| |eauto|congruence|congruence].
  intros Hne. destruct (decide (lc_status r1 = lc_status r2)) as [E|E]; [|specialize (Hb E); lia].
  rewrite E in Hne. specialize (Hb' Hne). lia.
Qed.

(** Completed production has a completion time. *)
Definition completion_timed (r : ProductionOrderLifecycleRecord) : Prop :=
  lc_status r = L.ProductionCompleted → is_Some (lc_production_completed_at_unix r).

Lemma add64_Ok a b n : add64 a b = Ok n → n = (a + b)%Z.
Proof. unfold add64, i64_checked. case_match; simpl; congruence. Qed.

Lemma transition_to_spec r status t r' :
  transition_to r status t = Ok r' →
  L.can_automatically_transition_to (lc_status r) status = true →
  lc_status r' = status ∧ record_le r r' ∧ (completion_timed r → completion_timed r').
Proof.
  unfold transition_to, L.eqb. case_bool_decide as Heq.
  { intros [= <-] _. split_and!; [done|apply record_le_refl|done]. }
  intros (v & Hv%add64_Ok & [= <-])%bind_Ok Hcan. subst v.
  assert (status ≠ L.Closed) as Hncl by (intros ->; by destruct (lc_status r)).
  rewrite (bool_decide_false (status = L.Closed)) by done. simpl.
  unfold completion_timed. case_bool_decide as Hpc; simpl.
  - destruct (lc_production_completed_at_unix r) as [u|] eqn:Eu; simpl.
    + split_and!; [done| |eauto]. split; simpl; try done; [lia..|congruence].
    + split_and!; [done| |eauto]. split; simpl; try done; [lia..|congruence].
  - split_and!; [done| |done]. split; simpl; try done; lia.
Qed.

Section refresh.
Context `{J : Json} `{C : !RouteCodec} `{R : !ReportCodec}.

Lemma advance_spec r status r' :
  advance r status = Ok r' →
  lc_status r' = (if L.can_automatically_transition_to (lc_status r) status then status else lc_status r) ∧
  record_le r r' ∧ (completion_timed r → completion_timed r').
Proof.
  unfold advance. destruct (L.can_automatically_transition_to (lc_status r) status) eqn:Hc.
  - intros (t & _ & H)%bind_Ok. by eapply transition_to_spec.
  - intros [= <-]. split_and!; [done|apply record_le_refl|done].
Qed.

(** The refresh after the transition touches only derived fields. *)
Lemma record_le_fields r r' r'' :
  record_le r r' → lc_status r'' = lc_status r' → lc_lifecycle_version r'' = lc_lifecycle_version r' →
  lc_production_completed_at_unix r'' = lc_production_completed_at_unix r' →
  lc_closed_at_unix r'' = lc_closed_at_unix r' → lc_order_id r'' = lc_order_id r' → record_le r r''.
Proof. intros [] Hs Hv Hc Hcl Ho. split; rewrite ?Hs, ?Hv, ?Hc, ?Hcl, ?Ho; done. Qed.

Lemma with_outcome_spec issues r :
  let r' := with_outcome issues r in
  lc_status r' = lc_status r ∧ lc_lifecycle_version r' = lc_lifecycle_version r ∧
  lc_production_completed_at_unix r' = lc_production_completed_at_unix r ∧
  lc_closed_at_unix r' = lc_closed_at_unix r ∧ lc_order_id r' = lc_order_id r ∧
  (lc_status r' = L.ProductionCompleted →
   lc_completion_outcome r' = if 0 <? issues then "with_issue" else "normal").
Proof. unfold with_outcome, L.eqb. simpl. case_bool_decide; simpl; naive_solver. Qed.

Lemma refreshed_record_spec store map order_id r r' :
  refreshed_record store map order_id r = Ok r' →
  ∃ status, derived_lifecycle store map order_id = Ok status ∧
  lc_status r' = (if L.can_automatically_transition_to (lc_status r) status then status else lc_status r) ∧
  record_le r r' ∧ (completion_timed r → completion_timed r') ∧
  (lc_status r' = L.ProductionCompleted →
   lc_completion_outcome r' =
     if 0 <? completed_with_issue_count store order_id then "with_issue" else "normal").
Proof.
  unfold refreshed_record. intros (status & Hst%lift_Ok & H)%bind_Ok.
  apply bind_Ok in H as (r1 & Hadv & H). apply advance_spec in Hadv as (Hs1 & Hle & Htimed).
  exists status. split; [done|].
  set (issues := completed_with_issue_count store order_id) in *.
  set (r2 := with_outcome issues r1) in H.
  pose proof (with_outcome_spec issues r1) as Hr2. cbv zeta in Hr2. fold r2 in Hr2.
  clearbody r2. apply bind_Ok in H as (r3 & H3 & H).
  destruct (derive_order_flow_and_stock_status _ _ _ _ _) as [flow stock]. injection H as <-. simpl.
  assert (lc_status r3 = lc_status r2 ∧ lc_lifecycle_version r3 = lc_lifecycle_version r2 ∧
    lc_production_completed_at_unix r3 = lc_production_completed_at_unix r2 ∧
    lc_closed_at_unix r3 = lc_closed_at_unix r2 ∧ lc_order_id r3 = lc_order_id r2 ∧
    lc_completion_outcome r3 = lc_completion_outcome r2) as Hr3.
  { destruct (OperationalStatus.eqb _ _); [by injection H3 as <-|].
    apply bind_Ok in H3 as (n & _ & H3). by injection H3 as <-. }
  destruct Hr2 as (? & ? & ? & ? & ? & Hout), Hr3 as (? & ? & ? & ? & ? & ?).
  split_and!.
  - congruence.
  - eapply record_le_fields; [exact Hle|simpl; congruence..].
  - unfold completion_timed in *. simpl. intros Ht Hpc.
    replace (lc_production_completed_at_unix r3) with (lc_production_completed_at_unix r1) by congruence.
    apply Htimed; [done|congruence].
  - intros Hpc. replace (lc_completion_outcome r3) with (lc_completion_outcome r2) by congruence.
    apply Hout. congruence.
Qed.

(** * The store *)

(** Records persist and only move forward; completed ones stay timed. *)
Definition forward (m m' : gmap string ProductionOrderLifecycleRecord) : Prop :=
  (∀ id r, m !! id = Some r → ∃ r', m' !! id = Some r' ∧ record_le r r') ∧
  (map_Forall (λ _, completion_timed) m → map_Forall (λ _, completion_timed) m').

Lemma forward_refl m : forward m m.
Proof. split; [|done]. intros id r Hr. exists r. split; [done|apply record_le_refl]. Qed.

Lemma forward_trans m1 m2 m3 : forward m1 m2 → forward m2 m3 → forward m1 m3.
Proof.
  intros [H1 T1] [H2 T2]. split; [|auto]. intros id r Hr.
  destruct (H1 id r Hr) as (r' & Hr' & Hle). destruct (H2 id r' Hr') as (r'' & Hr'' & Hle').
  exists r''. split; [done|]. by eapply record_le_trans.
Qed.

Lemma refresh_forward order_ids store :
  forward (st_lifecycles store)
    (st_lifecycles (refresh_production_order_lifecycles order_ids store).1).
Proof.
  revert store. induction order_ids as [|order_id ids IH]; intros store; simpl; [apply forward_refl|].
  destruct (st_maps store !! trim order_id) as [map|]; [|apply IH].
  set (r := default _ _). destruct (refreshed_record _ _ _ r) as [r'|f] eqn:Hr; [|apply forward_refl].
  eapply forward_trans; [|apply IH]. simpl.
  apply refreshed_record_spec in Hr as (status & _ & _ & Hle & Htimed & _).
  split.
  - intros id r0 Hr0. destruct (decide (trim order_id = id)) as [<-|Hne].
    + exists r'. rewrite lookup_insert_eq. split; [done|]. subst r. by rewrite Hr0 in Hle.
    + exists r0. rewrite lookup_insert_ne by done. split; [done|apply record_le_refl].
  - intros Hall. apply map_Forall_insert_2; [|done]. apply Htimed. subst r.
    destruct (st_lifecycles store !! trim order_id) as [r0|] eqn:E; simpl; [by eapply Hall|done].
Qed.

Lemma refresh_forward_from order_ids store store' :
  st_lifecycles store = st_lifecycles store' →
  forward (st_lifecycles store)
    (st_lifecycles (refresh_production_order_lifecycles order_ids store').1).
Proof. intros ->. apply refresh_forward. Qed.

(** A write to the store: queue states, a queue event, or any other table. *)
Inductive store_step (store : order_store) : order_store → Prop :=
  | StepQueueStates apparatus states :
      store_step store (put_apparatus_queue_states apparatus states store).1
  | StepQueueEvent event :
      store_step store (append_apparatus_queue_action_event event store).1
  | StepOther store' :
      st_lifecycles store' = st_lifecycles store → store_step store store'.

Lemma store_step_forward store store' :
  store_step store store' → forward (st_lifecycles store) (st_lifecycles store').
Proof.
  intros [apparatus states|event|s Heq].
  - unfold put_apparatus_queue_states. destruct (ApparatusId_new _) as [a|]; [|apply forward_refl].
    by apply refresh_forward_from.
  - unfold append_apparatus_queue_action_event. destruct (validate_queue_event event); [|apply forward_refl].
    by apply refresh_forward_from.
  - rewrite Heq. apply forward_refl.
Qed.

(** C24: Whatever queue states and queue events are written to the store, in any
    order, the persisted life cycle of an order only moves forward: its status
    changes along the allowed automatic transitions, every change raises the
    version, a recorded completion time is kept, and completed production always
    has one. *)
Theorem lifecycle_never_regresses store store' id r :
  rtc store_step store store' → st_lifecycles store !! id = Some r →
  (∃ r', st_lifecycles store' !! id = Some r' ∧ record_le r r') ∧
  (map_Forall (λ _, completion_timed) (st_lifecycles store) →
   map_Forall (λ _, completion_timed) (st_lifecycles store')).
Proof.
  intros Hrun Hr.
  assert (forward (st_lifecycles store) (st_lifecycles store')) as [Hf Ht].
  { clear Hr. induction Hrun as [|s1 s2 s3 Hstep _ IH]; [apply forward_refl|].
    eapply forward_trans; [by apply store_step_forward|done]. }
  split; [by apply Hf|done].
Qed.

(** Refreshing an order sets its status to the one its queue states,
    events, sessions and rolls support when that transition is allowed and
    leaves it otherwise, records the completion outcome by the number of issues,
    and touches no other order. *)
Theorem refresh_follows_evidence store order_id map store' :
  trim order_id = order_id → st_maps store !! order_id = Some map →
  refresh_production_order_lifecycles [order_id] store = (store', Ok tt) →
  ∃ r' status, st_lifecycles store' !! order_id = Some r' ∧
    derived_lifecycle store map order_id = Ok status ∧
    let r := default (released order_id) (st_lifecycles store !! order_id) in
    lc_status r' = (if L.can_automatically_transition_to (lc_status r) status then status
                    else lc_status r) ∧
    (lc_status r' = L.ProductionCompleted → lc_completion_outcome r' =
       if 0 <? completed_with_issue_count store order_id then "with_issue" else "normal") ∧
    (∀ id, id ≠ order_id → st_lifecycles store' !! id = st_lifecycles store !! id).
Proof.
  intros Htrim Hmap. simpl. rewrite Htrim, Hmap.
  destruct (refreshed_record store map order_id _) as [r'|f] eqn:Hr; [|done].
  intros [= <-]. apply refreshed_record_spec in Hr as (status & Hst & Hs & _ & _ & Hout).
  exists r', status. simpl. rewrite lookup_insert_eq. split_and!; [done..|].
  intros id Hne. by rewrite lookup_insert_ne.
Qed.
End refresh.
