(* ===== verification/OrderStore.v ===== *)
(** The order tables of the memory store.

    Models [src/core/production_map/catalog/memory_store.rs] (saving and deleting
    maps, queue sequences) and [put_order_control_state] of [memory_store.rs],
    which keeps holds and early closures.  A write returns the store it left
    behind together with its outcome, since an error after a write keeps it. *)
From S2P Require Import Prelude RustStr F64 Errors Identity QueueState OrderLayout MapDefinition Formula Compiler Bfs Chain Projection Scheduler Json Progress WipRoute Lifecycle StageExecution OrderRefresh.

Record OrderFreezeAuditRecord := {
  audit_order_id : string;
  audit_request : OrderFreezeRequest;
  audit_actor : QueueActionActor;
  audit_occurred_at_unix : Z;
}.

(** [OrderControlRecord::active]. *)
Definition OrderControlRecord_active (order_id : string) : OrderControlRecord := {|
  control_order_id := trim order_id;
  control_stage_node_id := "";
  control_state := OrderControl.Active;
  control_actor := {| actor_role := ""; actor_ref := ""; actor_display_name := "" |};
  control_requested_at_unix := 0;
  control_frozen_at_unix := None;
  control_freeze_request := None;
  control_early_close := None |}.

#[global] Instance FreezeRequestStatus_eq_dec : EqDecision FreezeRequestStatus.t.
Proof. solve_decision. Defined.
#[global] Instance QueueActionActor_eq_dec : EqDecision QueueActionActor.
Proof. solve_decision. Defined.
#[global] Instance OrderEarlyClose_eq_dec : EqDecision OrderEarlyClose.
Proof. solve_decision. Defined.

Section tables.
Context `{J : Json} `{C : !RouteCodec} `{R : !ReportCodec}.

(** The tables of [order_store] with the sequences and the freeze audit. *)
Record order_tables := {
  os_orders :> order_store;
  os_sequences : gmap string (list string);
  os_freeze_requests : gmap string OrderFreezeAuditRecord;
}.
#[global] Instance order_tables_rebuild : Rebuild order_tables := λ r, {|
  os_orders := os_orders r; os_sequences := os_sequences r;
  os_freeze_requests := os_freeze_requests r |}.

Definition with_maps (maps : gmap string ProductionMapDefinition) (s : order_tables) : order_tables :=
  s <| os_orders := (os_orders s) <| st_maps := maps |> |>.
Definition with_lifecycles (lifecycles : gmap string ProductionOrderLifecycleRecord)
    (s : order_tables) : order_tables :=
  s <| os_orders := (os_orders s) <| st_lifecycles := lifecycles |> |>.
Definition with_controls (controls : gmap string OrderControlRecord) (s : order_tables) : order_tables :=
  s <| os_orders := (os_orders s) <| st_order_controls := controls |> |>.

(** * Maps (catalog/memory_store.rs) *)

(** Another map already has the order number; [same] compares the ids. *)
Definition duplicate_order_number (same : string → string → bool)
    (maps : gmap string ProductionMapDefinition) (map : ProductionMapDefinition) : bool :=
  negb (blank (map_order_number map)) &&
  existsb (λ existing,
    (trim (map_order_number existing) =s trim (map_order_number map)) &&
    negb (same (map_id existing) (map_id map))) (btree_values maps).

Definition same_trimmed_id (a b : string) : bool := trim a =s trim b.

(** [lifecycles.entry(id).or_insert_with(released)]. *)
Definition ensure_lifecycle (map : ProductionMapDefinition)
    (lifecycles : gmap string ProductionOrderLifecycleRecord)
  : gmap string ProductionOrderLifecycleRecord :=
  let order_id := trim (map_id map) in
  match lifecycles !! order_id with
  | Some _ => lifecycles
  | None => <[order_id := released order_id]> lifecycles
  end.

Definition insert_map (map : ProductionMapDefinition) (maps : gmap string ProductionMapDefinition)
  : gmap string ProductionMapDefinition := <[map_id map := map]> maps.

Definition put_map (map : ProductionMapDefinition) (s : order_tables) : order_tables * pm_result unit :=
  match (_ ← reject_order_number_immutable (st_maps s) map;
         check (duplicate_order_number same_trimmed_id (st_maps s) map) DuplicateOrderNumber) with
  | Err e => (s, Err e)
  | Ok _ =>
      (with_lifecycles (ensure_lifecycle map (st_lifecycles s))
         (with_maps (insert_map map (st_maps s)) s), Ok tt)
  end.

(** The batch is checked against the stored maps before any of it is stored. *)
Definition put_maps_batch (maps : list ProductionMapDefinition) (s : order_tables)
  : order_tables * pm_result unit :=
  match for_each (λ map _,
          _ ← reject_order_number_immutable (st_maps s) map;
          check (duplicate_order_number same_trimmed_id (st_maps s) map) DuplicateOrderNumber)
          maps tt with
  | Err e => (s, Err e)
  | Ok _ =>
      (with_lifecycles (foldl (λ lifecycles map, ensure_lifecycle map lifecycles) (st_lifecycles s) maps)
         (with_maps (foldl (λ stored map, insert_map map stored) (st_maps s) maps) s), Ok tt)
  end.

(** One map of an atomic save, checked against the maps saved before it. *)
Definition save_map (map : ProductionMapDefinition) (maps : gmap string ProductionMapDefinition)
  : pm_result (gmap string ProductionMapDefinition) :=
  _ ← reject_order_number_immutable maps map;
  _ ← check (duplicate_order_number String.eqb maps map) DuplicateOrderNumber;
  Ok (insert_map map maps).

Definition put_maps_with_sequences (maps : list ProductionMapDefinition)
    (expected_sequences sequences : gmap string (list string)) (s : order_tables)
  : order_tables * pm_result unit :=
  match (_ ← check (negb (forallb (λ a, is_ok (ApparatusId_new a)) (btree_keys sequences))) StoreFailed;
         _ ← check (existsb (λ entry : string * list string,
                      negb (bool_decide (default [] (os_sequences s !! entry.1) = entry.2)))
                      (btree_entries expected_sequences)) QueueReorderConflict;
         for_each save_map maps (st_maps s)) with
  | Err e => (s, Err e)
  | Ok next_maps => ((with_maps next_maps s) <| os_sequences := sequences ∪ os_sequences s |>, Ok tt)
  end.

Definition delete_map (id : string) (s : order_tables) : order_tables * pm_result unit :=
  let id := trim id in
  if is_some_and (st_order_controls s !! id) (λ record, is_some (control_early_close record))
  then (s, Err (OrderDeleteBlocked [OrderDeleteBlocker_new "early_close_history"
         "Erta yopilgan buyurtmaning sababi va tarixini o‘chirib bo‘lmaydi"]))
  else
    let orders := (os_orders s) <| st_maps := delete id (st_maps s) |>
                                <| st_lifecycles := delete id (st_lifecycles s) |>
                                <| st_queue_states := (λ states : gmap string string, delete id states) <$> st_queue_states s |>
                                <| st_order_controls := delete id (st_order_controls s) |> in
    (s <| os_orders := orders |>
       <| os_sequences := List.filter (λ order_id, trim order_id <>s id) <$> os_sequences s |>, Ok tt).

Definition production_order_lifecycles (order_ids : list string) (s : order_tables)
  : gmap string ProductionOrderLifecycleRecord :=
  let requested := List.filter (λ id, negb (is_empty id)) (trim <$> order_ids) in
  filter (λ entry : string * ProductionOrderLifecycleRecord, requested = [] ∨ entry.1 ∈ requested)
    (st_lifecycles s).

(** * Sequences *)

Definition apparatus_sequences (s : order_tables) : pm_result (gmap string (list string)) :=
  read_rows (btree_entries (os_sequences s)) ∅.

Definition put_apparatus_sequence (apparatus : string) (order_ids : list string) (s : order_tables)
  : order_tables * pm_result unit :=
  match ApparatusId_new (trim apparatus) with
  | Err _ => (s, Err StoreFailed)
  | Ok id => (s <| os_sequences := <[apparatus_id_str id := order_ids]> (os_sequences s) |>, Ok tt)
  end.

(** * Holds and early closures (memory_store.rs) *)

Definition occurred_at (request : OrderFreezeRequest) : Z :=
  if bool_decide (freeze_status request = FreezeRequestStatus.Pending)
  then freeze_requested_at_unix request else freeze_transitioned_at_unix request.

Definition audit (request_id : string) (request : OrderFreezeRequest) (record : OrderControlRecord)
    (s : order_tables) : order_tables :=
  s <| os_freeze_requests :=
       <[request_id +:+ ":" +:+ FreezeRequestStatus.as_str (freeze_status request) :=
           {| audit_order_id := control_order_id record; audit_request := request;
              audit_actor := control_actor record; audit_occurred_at_unix := occurred_at request |}]>
         (os_freeze_requests s) |>.

(** [refresh_production_order_lifecycles] on the tables. *)
Definition refresh (order_ids : list string) (s : order_tables) : order_tables * run_result unit :=
  let '(orders, r) := refresh_production_order_lifecycles order_ids (os_orders s) in
  (s <| os_orders := orders |>, r).

Definition put_stage_control (record : OrderControlRecord) (s : order_tables)
  : order_tables * run_result unit :=
  match (request ← ok_or (control_freeze_request record) OrderFreezeTargetNotFound;
         let apparatus := trim (freeze_target_apparatus request) in
         _ ← check (is_empty apparatus) OrderFreezeTargetNotFound;
         _ ← check (is_some (control_early_close record)) OrderControlActionNotAllowed;
         Ok (request, apparatus)) with
  | Err e => (s, Err (Fail e))
  | Ok (request, apparatus) =>
      let s := s <| os_orders := (os_orders s) <| st_stage_order_controls :=
                 <[(control_order_id record, apparatus, control_stage_node_id record) := record]>
                   (st_stage_order_controls s) |> |> in
      refresh [control_order_id record] (audit (freeze_request_id request) request record s)
  end.

(** What a recorded early closure requires of the next record. *)
Definition check_early_close (previous : option OrderControlRecord) (record : OrderControlRecord)
  : pm_result unit :=
  match (p ← previous; control_early_close p) with
  | None => Ok tt
  | Some close =>
      next ← ok_or (control_early_close record) OrderControlActionNotAllowed;
      check ((close_comment close <>s close_comment next) ||
             negb (bool_decide (close_actor close = close_actor next)) ||
             negb (close_requested_at_unix close =? close_requested_at_unix next)%Z ||
             (is_some (close_closed_at_unix close) && negb (bool_decide (close = next))) ||
             bool_decide (control_state record = OrderControl.Active)) OrderControlActionNotAllowed
  end.

(** An early closure that has taken effect cancels the order. *)
Definition cancel_lifecycle (closed_at : Z) (lifecycle : ProductionOrderLifecycleRecord)
  : run_result ProductionOrderLifecycleRecord :=
  if LifecycleStatus.eqb (lc_status lifecycle) LifecycleStatus.Cancelled then Ok lifecycle
  else
    version ← add64 (lc_lifecycle_version lifecycle) 1;
    Ok (lifecycle <| lc_status := LifecycleStatus.Cancelled |>
                  <| lc_lifecycle_version := version |>
                  <| lc_lifecycle_changed_at_unix := closed_at |>
                  <| lc_closed_at_unix := Some closed_at |>
                  <| lc_completion_outcome := "with_issue" |>).

Definition cancel_order (id : string) (closed_at : Z) (s : order_tables) : run_result order_tables :=
  match st_lifecycles s !! id with
  | None => Ok s
  | Some lifecycle =>
      lifecycle ← cancel_lifecycle closed_at lifecycle;
      Ok (with_lifecycles (<[id := lifecycle]> (st_lifecycles s)) s)
  end.

(** [sequence.retain(|id| id != order_id)] on every sequence. *)
Definition drop_order (order_id : string) (s : order_tables) : order_tables :=
  s <| os_sequences := List.filter (λ order, order <>s order_id) <$> os_sequences s |>.

Definition apply_early_close (record : OrderControlRecord) (s : order_tables)
  : run_result order_tables :=
  match (close ← control_early_close record; close_closed_at_unix close) with
  | None => Ok s
  | Some closed_at =>
      s ← cancel_order (trim (control_order_id record)) closed_at s;
      Ok (drop_order (control_order_id record) s)
  end.

Definition put_order_control (record : OrderControlRecord) (s : order_tables)
  : order_tables * run_result unit :=
  let id := trim (control_order_id record) in
  let checked : run_result order_tables :=
    (_ ← lift (check_early_close (st_order_controls s !! id) record); apply_early_close record s) in
  match checked with
  | Err e => (s, Err e)
  | Ok closed =>
      let s := with_controls (<[id := record]> (st_order_controls closed)) closed in
      let s := match control_freeze_request record with
               | None => s
               | Some request =>
                   let request_id := trim (freeze_request_id request) in
                   if is_empty request_id then s else audit request_id request record s
               end in
      refresh [control_order_id record] s
  end.

Definition put_order_control_state (record : OrderControlRecord) (s : order_tables)
  : order_tables * run_result unit :=
  if blank (control_stage_node_id record) then put_order_control record s
  else put_stage_control record s.
End tables.
