(* ===== verification/OrderStoreFacts.v ===== *)
(** What the order tables keep, whatever is written to them: order numbers are
    unique, an early closure is permanent, and a closed order stays cancelled. *)
From S2P Require Import Prelude RustStr F64 Json Errors Identity QueueState OrderLayout MapDefinition Formula Compiler Bfs Chain Projection Scheduler Progress WipRoute Lifecycle StageExecution OrderRefresh OrderStore.

Section facts.
Context `{J : Json} `{C : !RouteCodec} `{R : !ReportCodec}.

(** * Frames *)

(** Maps and holds are left alone, life cycles move forward. *)
Definition frame (s s' : order_store) : Prop :=
  st_maps s' = st_maps s ∧ st_order_controls s' = st_order_controls s ∧
  forward (st_lifecycles s) (st_lifecycles s').

Lemma refresh_frame order_ids s : frame s (refresh_production_order_lifecycles order_ids s).1.
Proof.
  split; [|split; [|apply refresh_forward]]; revert s;
    induction order_ids as [|id ids IH]; intros s; simpl; try done;
    (destruct (st_maps s !! trim id); [|by rewrite IH]);
    (destruct (refreshed_record _ _ _ _); [|done]); by rewrite IH.
Qed.

Lemma frame_refl s : frame s s.
Proof. split_and!; [done..|apply forward_refl]. Qed.

Lemma refresh_frame_from order_ids s s' :
  st_maps s' = st_maps s → st_order_controls s' = st_order_controls s →
  st_lifecycles s' = st_lifecycles s →
  frame s (refresh_production_order_lifecycles order_ids s').1.
Proof.
  intros E1 E2 E3. destruct (refresh_frame order_ids s') as (H1 & H2 & H3).
  split_and!; [congruence..|by rewrite <-E3].
Qed.

Lemma refresh_tables ids (s : order_tables) :
  os_orders (refresh ids s).1 = (refresh_production_order_lifecycles ids (os_orders s)).1.
Proof. unfold refresh. by destruct (refresh_production_order_lifecycles ids (os_orders s)). Qed.

Lemma queue_states_frame apparatus states s : frame s (put_apparatus_queue_states apparatus states s).1.
Proof.
  unfold put_apparatus_queue_states. destruct (ApparatusId_new _); [|apply frame_refl].
  by apply refresh_frame_from.
Qed.

Lemma queue_event_frame event s : frame s (append_apparatus_queue_action_event event s).1.
Proof.
  unfold append_apparatus_queue_action_event. destruct (validate_queue_event event); [|apply frame_refl].
  by apply refresh_frame_from.
Qed.

Lemma stage_control_frame record (s : order_tables) : frame s (put_stage_control record s).1.
Proof.
  unfold put_stage_control.
  match goal with |- context [match ?x with _ => _ end] => destruct x as [[request apparatus]|] end;
    [|apply frame_refl].
  rewrite refresh_tables. by apply refresh_frame_from.
Qed.

Lemma sequence_frame apparatus ids (s : order_tables) : frame s (put_apparatus_sequence apparatus ids s).1.
Proof. unfold put_apparatus_sequence. destruct (ApparatusId_new _); apply frame_refl. Qed.

(** * Saved maps *)

Lemma saved_maps_from maps stored stored' :
  for_each save_map maps stored = Ok stored' →
  ∀ k m, stored' !! k = Some m → stored !! k = Some m ∨ (m ∈ maps ∧ k = map_id m).
Proof.
  revert stored. induction maps as [|map maps IH]; intros stored; simpl.
  { intros [= <-]. auto. }
  intros (stored1 & Hs & H)%bind_Ok k m Hk. unfold save_map in Hs. inv_ok.
  destruct (IH _ H k m Hk) as [Hk'|[? ?]]; [|set_solver].
  unfold insert_map in Hk'. apply lookup_insert_Some in Hk' as [[<- <-]|[_ Hk']]; set_solver.
Qed.

Lemma inserted_maps_from maps stored k m :
  foldl (λ stored map, insert_map map stored) stored maps !! k = Some m →
  stored !! k = Some m ∨ (m ∈ maps ∧ k = map_id m).
Proof.
  revert stored. induction maps as [|map maps IH]; intros stored; simpl; [auto|].
  intros Hk. destruct (IH _ Hk) as [Hk'|[? ?]]; [|set_solver].
  unfold insert_map in Hk'. apply lookup_insert_Some in Hk' as [[<- <-]|[_ Hk']]; set_solver.
Qed.

Lemma insert_map_keeps map stored k : is_Some (stored !! k) → is_Some (insert_map map stored !! k).
Proof. unfold insert_map. intros. rewrite lookup_insert_is_Some'. auto. Qed.

Lemma inserted_maps_keep maps stored k :
  is_Some (stored !! k) →
  is_Some (foldl (λ stored map, insert_map map stored) stored maps !! k).
Proof.
  revert stored. induction maps as [|map maps IH]; intros stored H; simpl; [done|].
  by apply IH, insert_map_keeps.
Qed.

Lemma saved_maps_keep maps stored stored' k :
  for_each save_map maps stored = Ok stored' → is_Some (stored !! k) → is_Some (stored' !! k).
Proof.
  intros H Hk. apply (for_each_inv save_map (λ t, is_Some (t !! k)) maps stored); [|done|done].
  intros map t t' _ Ht Hs. unfold save_map in Hs. inv_ok. by apply insert_map_keeps.
Qed.

(** * Life cycle records of saved maps *)

Lemma ensure_lifecycle_spec map lifecycles :
  is_Some (ensure_lifecycle map lifecycles !! trim (map_id map)) ∧
  ∀ id lc, lifecycles !! id = Some lc → ensure_lifecycle map lifecycles !! id = Some lc.
Proof.
  unfold ensure_lifecycle. destruct (lifecycles !! trim (map_id map)) as [lc|] eqn:E; [by eauto|].
  rewrite lookup_insert_eq. split; [eauto|]. intros id lc Hid.
  rewrite lookup_insert_ne; [done|]. intros <-. congruence.
Qed.

Lemma ensure_lifecycles_keep maps lifecycles id lc :
  lifecycles !! id = Some lc →
  foldl (λ lifecycles map, ensure_lifecycle map lifecycles) lifecycles maps !! id = Some lc.
Proof.
  revert lifecycles. induction maps as [|map maps IH]; intros l H; simpl; [done|].
  by apply IH, ensure_lifecycle_spec.
Qed.

Lemma ensure_lifecycles_cover maps lifecycles map :
  map ∈ maps →
  is_Some (foldl (λ lifecycles map, ensure_lifecycle map lifecycles) lifecycles maps !! trim (map_id map)).
Proof.
  revert lifecycles. induction maps as [|m maps IH]; intros l; simpl; [by intros ?%elem_of_nil|].
  intros [->|H]%elem_of_cons; [|by apply IH].
  destruct (ensure_lifecycle_spec m l) as [[lc Hlc] _].
  exists lc. by apply ensure_lifecycles_keep.
Qed.

(** * Order numbers *)

(** Two maps with the same order number are versions of the same order. *)
Definition same_order (m1 m2 : ProductionMapDefinition) : Prop :=
  blank (map_order_number m1) = false →
  trim (map_order_number m1) = trim (map_order_number m2) → trim (map_id m1) = trim (map_id m2).

Definition unique_numbers (maps : gmap string ProductionMapDefinition) : Prop :=
  ∀ k1 k2 m1 m2, maps !! k1 = Some m1 → maps !! k2 = Some m2 → same_order m1 m2.

Lemma same_order_refl m : same_order m m.
Proof. done. Qed.

Lemma same_order_sym m1 m2 : same_order m1 m2 → same_order m2 m1.
Proof.
  unfold same_order, blank. intros H Hb Heq. symmetry. apply H; [|done]. by rewrite <-Heq.
Qed.

Lemma no_duplicate_same_order same maps map k m :
  (∀ a b, same a b = true → trim a = trim b) →
  duplicate_order_number same maps map = false → maps !! k = Some m → same_order map m.
Proof.
  intros Hsame Hd Hk Hb Heq. unfold duplicate_order_number in Hd. rewrite Hb in Hd. simpl in Hd.
  assert (m ∈ btree_values maps) as Hm by (apply elem_of_btree_values; eauto).
  eapply existsb_false in Hd; [|exact Hm]. apply andb_false_iff in Hd as [Hd|Hd]; breflect.
  - by rewrite Heq in Hd.
  - symmetry. by apply Hsame.
Qed.

Lemma same_trimmed_id_spec a b : same_trimmed_id a b = true → trim a = trim b.
Proof. unfold same_trimmed_id. intros. by breflect. Qed.

Lemma insert_map_unique map maps :
  unique_numbers maps → (∀ k m, maps !! k = Some m → same_order map m) →
  unique_numbers (insert_map map maps).
Proof.
  intros Hu Hm k1 k2 m1 m2. unfold insert_map.
  intros [[_ <-]|[_ H1]]%lookup_insert_Some [[_ <-]|[_ H2]]%lookup_insert_Some.
  - apply same_order_refl.
  - by eapply Hm.
  - apply same_order_sym. by eapply Hm.
  - by eapply Hu.
Qed.

Lemma saved_maps_unique maps stored stored' :
  for_each save_map maps stored = Ok stored' → unique_numbers stored → unique_numbers stored'.
Proof.
  intros H Hu. apply (for_each_inv save_map unique_numbers maps stored); [|done|done].
  intros map t t' _ Ht Hs. unfold save_map in Hs. inv_ok. apply insert_map_unique; [done|].
  intros k m. eapply no_duplicate_same_order; [|done]. intros a b Hab. breflect. by subst.
Qed.

(** * The kinds of writes *)

(** Life cycle records persist, and a cancelled one stays cancelled. *)
Definition keeps_cancelled (l l' : gmap string ProductionOrderLifecycleRecord) : Prop :=
  ∀ id lc, l !! id = Some lc → ∃ lc', l' !! id = Some lc' ∧
    (lc_status lc = L.Cancelled → lc_status lc' = L.Cancelled).

Lemma keeps_cancelled_trans l1 l2 l3 :
  keeps_cancelled l1 l2 → keeps_cancelled l2 l3 → keeps_cancelled l1 l3.
Proof.
  intros H1 H2 id lc Hl. destruct (H1 id lc Hl) as (lc' & Hl' & ?).
  destruct (H2 id lc' Hl') as (lc'' & ? & ?). eauto.
Qed.

Lemma forward_keeps_cancelled l l' : forward l l' → keeps_cancelled l l'.
Proof.
  intros [Hf _] id lc Hl. destruct (Hf id lc Hl) as (lc' & Hl' & Hle). exists lc'. split; [done|].
  intros Hc. pose proof (le_status _ _ Hle) as Hs. rewrite Hc in Hs. simpl in Hs.
  by apply bool_decide_eq_true in Hs.
Qed.

(** Orders that were closed early, with the closure in effect. *)
Definition closed_early (r : OrderControlRecord) : Prop :=
  ∃ close t, control_early_close r = Some close ∧ close_closed_at_unix close = Some t.

(** How a closure may develop: its author and reason are fixed, and once it has
    taken effect nothing of it changes. *)
Definition closure_le (c c' : OrderEarlyClose) : Prop :=
  close_comment c' = close_comment c ∧ close_actor c' = close_actor c ∧
  close_requested_at_unix c' = close_requested_at_unix c ∧
  (is_Some (close_closed_at_unix c) → c' = c).

Inductive order_write (s s' : order_store) : Prop :=
  | WriteFrame : frame s s' → order_write s s'
  | WriteSaved :
      st_order_controls s' = st_order_controls s →
      (∀ k, is_Some (st_maps s !! k) → is_Some (st_maps s' !! k)) →
      (∀ k m, st_maps s' !! k = Some m → st_maps s !! k = Some m ∨
         (k = map_id m ∧ is_Some (st_lifecycles s' !! trim (map_id m)))) →
      (∀ id lc, st_lifecycles s !! id = Some lc → st_lifecycles s' !! id = Some lc) →
      (unique_numbers (st_maps s) → unique_numbers (st_maps s')) →
      order_write s s'
  | WriteDeleted id :
      (∀ r, st_order_controls s !! id = Some r → control_early_close r = None) →
      st_maps s' = delete id (st_maps s) → st_lifecycles s' = delete id (st_lifecycles s) →
      st_order_controls s' = delete id (st_order_controls s) → order_write s s'
  | WriteControl id record :
      trim id = id → is_Some (st_maps s !! id) → st_maps s' = st_maps s →
      st_order_controls s' = <[id := record]> (st_order_controls s) →
      check_early_close (st_order_controls s !! id) record = Ok tt →
      keeps_cancelled (st_lifecycles s) (st_lifecycles s') →
      (closed_early record → is_Some (st_lifecycles s !! id) →
         ∃ lc, st_lifecycles s' !! id = Some lc ∧ lc_status lc = L.Cancelled) →
      order_write s s'.

(** The writes the services make: a whole-order hold is only written for a saved
    order, an atomic move of apparatuses saves orders that have a life cycle, and
    a batch holds no order number twice. *)
Inductive order_step (s : order_tables) : order_tables → Prop :=
  | StepPutMap map : order_step s (put_map map s).1
  | StepPutBatch maps : (∀ m m', m ∈ maps → m' ∈ maps → same_order m m') →
      order_step s (put_maps_batch maps s).1
  | StepPutMaps maps expected sequences :
      (∀ m, m ∈ maps → is_Some (st_lifecycles s !! trim (map_id m))) →
      order_step s (put_maps_with_sequences maps expected sequences s).1
  | StepDelete id : order_step s (delete_map id s).1
  | StepSequence apparatus ids : order_step s (put_apparatus_sequence apparatus ids s).1
  | StepControl record :
      (blank (control_stage_node_id record) = true → is_Some (st_maps s !! trim (control_order_id record))) →
      order_step s (put_order_control_state record s).1
  | StepStates apparatus states :
      order_step s (s <| os_orders := (put_apparatus_queue_states apparatus states s).1 |>)
  | StepEvent event :
      order_step s (s <| os_orders := (append_apparatus_queue_action_event event s).1 |>).

Lemma put_map_write map (s : order_tables) : order_write s (put_map map s).1.
Proof.
  unfold put_map. match goal with |- context [match ?x with _ => _ end] => destruct x as [u|] eqn:H end;
    [|apply WriteFrame, frame_refl]. inv_ok. simpl.
  destruct (ensure_lifecycle_spec map (st_lifecycles s)) as [Hcover Hkeep].
  apply WriteSaved; simpl; [done| | |done|].
  - intros k. apply insert_map_keeps.
  - intros k m. unfold insert_map. intros [[<- <-]|[_ Hk]]%lookup_insert_Some; auto.
  - intros Hu. apply insert_map_unique; [done|]. intros k m.
    eapply no_duplicate_same_order; [apply same_trimmed_id_spec|done].
Qed.

Lemma put_maps_write maps expected sequences (s : order_tables) :
  (∀ m, m ∈ maps → is_Some (st_lifecycles s !! trim (map_id m))) →
  order_write s (put_maps_with_sequences maps expected sequences s).1.
Proof.
  intros Hcover. unfold put_maps_with_sequences.
  match goal with |- context [match ?x with _ => _ end] => destruct x as [stored|] eqn:H end;
    [|apply WriteFrame, frame_refl]. inv_ok. simpl.
  apply WriteSaved; simpl; [done| | |done|].
  - intros k. by eapply saved_maps_keep.
  - intros k m Hk. destruct (saved_maps_from _ _ _ H1 k m Hk) as [?|[Hm ->]]; auto.
  - by apply (saved_maps_unique maps).
Qed.

Lemma batch_checked_spec maps (s : order_tables) map :
  for_each (λ map (_ : unit),
    _ ← reject_order_number_immutable (st_maps s) map;
    check (duplicate_order_number same_trimmed_id (st_maps s) map) DuplicateOrderNumber) maps tt = Ok tt →
  map ∈ maps → ∀ k m, st_maps s !! k = Some m → same_order map m.
Proof.
  induction maps as [|map0 maps IH]; simpl; [by intros _ ?%elem_of_nil|].
  intros ([] & H0 & H)%bind_Ok [->|Hin]%elem_of_cons; [|by apply IH].
  inv_ok. intros k m. eapply no_duplicate_same_order; [apply same_trimmed_id_spec|done].
Qed.

Lemma put_batch_write maps (s : order_tables) :
  (∀ m m', m ∈ maps → m' ∈ maps → same_order m m') → order_write s (put_maps_batch maps s).1.
Proof.
  intros Hdistinct. unfold put_maps_batch.
  match goal with |- context [match ?x with _ => _ end] => destruct x as [[]|] eqn:H end;
    [|apply WriteFrame, frame_refl]. simpl.
  apply WriteSaved; simpl; [done| | | |].
  - intros k. apply inserted_maps_keep.
  - intros k m Hk. destruct (inserted_maps_from _ _ _ _ Hk) as [?|[Hm ->]]; [by left|right].
    split; [done|]. by apply ensure_lifecycles_cover.
  - intros id lc. apply ensure_lifecycles_keep.
  - intros Hu k1 k2 m1 m2 H1 H2. pose proof (batch_checked_spec maps s) as Hb.
    destruct (inserted_maps_from _ _ _ _ H1) as [H1'|[H1' _]],
      (inserted_maps_from _ _ _ _ H2) as [H2'|[H2' _]].
    + by eapply Hu.
    + apply same_order_sym. by eapply Hb.
    + by eapply Hb.
    + by apply Hdistinct.
Qed.

Lemma delete_write id (s : order_tables) : order_write s (delete_map id s).1.
Proof.
  unfold delete_map. destruct (is_some_and _ _) eqn:H; [apply WriteFrame, frame_refl|]. simpl.
  apply (WriteDeleted _ _ (trim id)); simpl; [|done..].
  intros r Hr. rewrite Hr in H. simpl in H. by destruct (control_early_close r).
Qed.

Lemma check_early_close_Ok previous record p close :
  check_early_close previous record = Ok tt → previous = Some p →
  control_early_close p = Some close →
  control_state record ≠ OrderControl.Active ∧
  ∃ next, control_early_close record = Some next ∧ closure_le close next.
Proof.
  intros H -> Hc. unfold check_early_close in H. simpl in H. rewrite Hc in H.
  apply bind_Ok in H as (next & Hn & H). unfold ok_or in Hn.
  destruct (control_early_close record) as [n|]; [|done]. injection Hn as ->.
  apply check_Ok in H. breflect. rewrite bool_decide_eq_false in *. breflect.
  split; [done|]. exists next. split; [done|].
  repeat match goal with H : bool_decide _ = true |- _ => apply bool_decide_eq_true in H end.
  split_and!; try done.
  intros [t Ht]. match goal with H : _ && _ = false |- _ => rewrite Ht in H; simpl in H end.
  breflect. by match goal with H : bool_decide (close = next) = true |- _ => apply bool_decide_eq_true in H end.
Qed.

Lemma cancel_order_spec id t (s s' : order_tables) :
  cancel_order id t s = Ok s' →
  st_maps s' = st_maps s ∧ st_order_controls s' = st_order_controls s ∧
  keeps_cancelled (st_lifecycles s) (st_lifecycles s') ∧
  ∀ lc, st_lifecycles s !! id = Some lc →
    ∃ lc', st_lifecycles s' !! id = Some lc' ∧ lc_status lc' = L.Cancelled.
Proof.
  unfold cancel_order. destruct (st_lifecycles s !! id) as [lc|] eqn:Hl.
  - intros (lc' & Hlc & [= <-])%bind_Ok. simpl.
    assert (lc_status lc' = L.Cancelled) as Hc.
    { unfold cancel_lifecycle, L.eqb in Hlc. case_bool_decide; [by injection Hlc as <-|].
      apply bind_Ok in Hlc as (v & _ & [= <-]). done. }
    split_and!; [done|done| |].
    + intros id' lc0 H0. destruct (decide (id = id')) as [<-|Hne].
      * exists lc'. by rewrite lookup_insert_eq.
      * exists lc0. by rewrite lookup_insert_ne.
    + intros lc0 _. exists lc'. by rewrite lookup_insert_eq.
  - intros [= <-]. split_and!; [done|done| |done]. intros id' lc0 H0. eauto.
Qed.

Lemma apply_early_close_spec record (s s' : order_tables) :
  apply_early_close record s = Ok s' →
  st_maps s' = st_maps s ∧ st_order_controls s' = st_order_controls s ∧
  keeps_cancelled (st_lifecycles s) (st_lifecycles s') ∧
  (closed_early record → ∀ lc, st_lifecycles s !! trim (control_order_id record) = Some lc →
    ∃ lc', st_lifecycles s' !! trim (control_order_id record) = Some lc' ∧
      lc_status lc' = L.Cancelled).
Proof.
  unfold apply_early_close. destruct (control_early_close record) as [close|] eqn:Hc; simpl;
    [destruct (close_closed_at_unix close) as [t|] eqn:Ht|].
  - intros (s1 & H1 & [= <-])%bind_Ok. apply cancel_order_spec in H1 as (? & ? & ? & ?).
    by split_and!.
  - intros [= <-]. split_and!; [done|done| |]; [intros id lc ?; eauto|].
    intros (c & u & Hc' & Hu). congruence.
  - intros [= <-]. split_and!; [done|done| |]; [intros id lc ?; eauto|].
    intros (c & u & Hc' & Hu). congruence.
Qed.

Lemma control_write record (s : order_tables) :
  is_Some (st_maps s !! trim (control_order_id record)) → order_write s (put_order_control record s).1.
Proof.
  intros Hmap. unfold put_order_control. cbv zeta.
  match goal with |- context [match ?x with _ => _ end] => destruct x as [closed|] eqn:H end;
    [|apply WriteFrame, frame_refl].
  apply bind_Ok in H as ([] & Hcheck%lift_Ok & Hclose).
  apply apply_early_close_spec in Hclose as (Hm & Hco & Hk & Hcan).
  rewrite refresh_tables.
  match goal with |- context [refresh_production_order_lifecycles _ (os_orders ?t)] => set (s2 := t) end.
  assert (st_maps s2 = st_maps closed ∧ st_lifecycles s2 = st_lifecycles closed ∧
    st_order_controls s2 = <[trim (control_order_id record) := record]> (st_order_controls closed))
    as (E1 & E2 & E3).
  { subst s2. destruct (control_freeze_request record) as [request|]; [|done].
    by destruct (is_empty _). }
  clearbody s2. destruct (refresh_frame [control_order_id record] s2) as (F1 & F2 & F3).
  rewrite E2 in F3. apply forward_keeps_cancelled in F3.
  apply (WriteControl _ _ (trim (control_order_id record)) record);
    [apply trim_idemp|done|congruence| |done| |].
  - by rewrite F2, E3, Hco.
  - by eapply keeps_cancelled_trans.
  - intros Hce [lc Hlc]. destruct (Hcan Hce lc Hlc) as (lc1 & Hlc1 & Hs1).
    destruct (F3 _ _ Hlc1) as (lc2 & Hlc2 & Hs2). exists lc2. auto.
Qed.

Lemma order_step_write s s' : order_step s s' → order_write s s'.
Proof.
  intros [map|maps|maps expected sequences|id|apparatus ids|record Hr|apparatus states|event].
  - apply put_map_write.
  - by apply put_batch_write.
  - by apply put_maps_write.
  - apply delete_write.
  - apply WriteFrame, sequence_frame.
  - unfold put_order_control_state. destruct (blank _); [by apply control_write, Hr|].
    apply WriteFrame, stage_control_frame.
  - apply WriteFrame, queue_states_frame.
  - apply WriteFrame, queue_event_frame.
Qed.

(** * Theorems *)

(** Along every run of writes to the order tables in which no batch repeats
    an order number, two saved maps with the same order number are versions of
    the same order. *)
Theorem order_numbers_stay_unique s s' :
  rtc order_step s s' → unique_numbers (st_maps s) → unique_numbers (st_maps s').
Proof.
  induction 1 as [|s1 s2 s3 Hstep%order_step_write _ IH]; [done|]. intros Hu. apply IH.
  destruct Hstep as [(Hm & _)|_ _ _ _ Hs|id _ Hm|id record _ _ Hm]; [by rewrite Hm|auto| |by rewrite Hm].
  rewrite Hm. intros k1 k2 m1 m2 [_ H1]%lookup_delete_Some [_ H2]%lookup_delete_Some. by eapply Hu.
Qed.

Lemma closure_le_refl c : closure_le c c.
Proof. by split_and!. Qed.

Lemma closure_le_trans c1 c2 c3 : closure_le c1 c2 → closure_le c2 c3 → closure_le c1 c3.
Proof.
  intros (A1 & A2 & A3 & A4) (B1 & B2 & B3 & B4). split_and!; [congruence..|].
  intros Ht. rewrite (A4 Ht) in *. auto.
Qed.

(** An order whose closure was recorded. *)
Definition being_closed (close : OrderEarlyClose) (id : string) (s : order_store) : Prop :=
  is_Some (st_maps s !! id) ∧ ∃ r c, st_order_controls s !! id = Some r ∧
    control_early_close r = Some c ∧ closure_le close c ∧ control_state r ≠ OrderControl.Active.

Lemma order_write_being_closed close id s s' :
  order_write s s' → being_closed close id s → being_closed close id s'.
Proof.
  intros Hw (Hm & r & c & Hr & Hc & Hle & Hst).
  destruct Hw as [(Em & Ec & _)|Ec Hk _ _ _|id' Hn Em _ Ec|id' record _ Hid Em Ec Hcheck _ _].
  - split; [by rewrite Em|]. exists r, c. by rewrite Ec.
  - split; [by apply Hk|]. exists r, c. by rewrite Ec.
  - assert (id' ≠ id) by (intros ->; specialize (Hn r Hr); congruence).
    split; [by rewrite Em, lookup_delete_ne|]. exists r, c. by rewrite Ec, lookup_delete_ne.
  - split; [by rewrite Em|]. rewrite Ec. destruct (decide (id' = id)) as [->|Hne].
    + destruct (check_early_close_Ok _ _ _ _ Hcheck Hr Hc) as (Hs & next & Hnext & Hle').
      exists record, next. rewrite lookup_insert_eq. split_and!; [done..| |done].
      by eapply closure_le_trans.
    + exists r, c. by rewrite lookup_insert_ne.
Qed.

(** Whatever is written to the order tables in any order, an early closure
    that was recorded for an order stays: its reason, author and time are fixed,
    once in effect nothing of it changes, the order is never made active again,
    and neither the order nor its record can be deleted. *)
Theorem early_close_is_permanent s s' id r close :
  rtc order_step s s' → is_Some (st_maps s !! id) → st_order_controls s !! id = Some r →
  control_early_close r = Some close → control_state r ≠ OrderControl.Active →
  is_Some (st_maps s' !! id) ∧ ∃ r' close', st_order_controls s' !! id = Some r' ∧
    control_early_close r' = Some close' ∧ closure_le close close' ∧
    control_state r' ≠ OrderControl.Active.
Proof.
  intros Hrun Hm Hr Hc Hst.
  assert (being_closed close id s) as Hb by (split; [done|]; exists r, close; by split_and!).
  clear Hm Hr Hc Hst. induction Hrun as [|s1 s2 s3 Hstep%order_step_write _ IH]; [exact Hb|].
  apply IH. by eapply order_write_being_closed.
Qed.

(** Saved orders have a life cycle, and the closed ones are cancelled. *)
Definition closures_in_effect (s : order_store) : Prop :=
  (∀ k, is_Some (st_maps s !! k) → trim k = k → is_Some (st_lifecycles s !! k)) ∧
  ∀ id r, st_order_controls s !! id = Some r → closed_early r →
    ∃ lc, st_lifecycles s !! id = Some lc ∧ lc_status lc = L.Cancelled.

Lemma keeps_some l l' id : keeps_cancelled l l' → is_Some (l !! id) → is_Some (l' !! id).
Proof. intros Hk [lc Hlc]. destruct (Hk id lc Hlc) as (lc' & -> & _). by eexists. Qed.

Lemma keeps_cancelled_lookup (l l' : gmap string ProductionOrderLifecycleRecord) id :
  keeps_cancelled l l' → (∃ lc, l !! id = Some lc ∧ lc_status lc = L.Cancelled) →
  ∃ lc, l' !! id = Some lc ∧ lc_status lc = L.Cancelled.
Proof. intros Hk (lc & Hlc & Hs). destruct (Hk id lc Hlc) as (lc' & ? & ?). eauto. Qed.

Lemma order_write_closures s s' :
  order_write s s' → closures_in_effect s → closures_in_effect s'.
Proof.
  intros Hw [Hl Hc].
  destruct Hw as [(Em & Ec & Hf%forward_keeps_cancelled)|Ec _ Hfrom Hk _|id' Hn Em El Ec|
                  id' record Htrim Hid Em Ec _ Hk Hclosed].
  - split; [rewrite Em|rewrite Ec].
    + intros k ??. by eapply keeps_some, Hl.
    + intros id r ??. by eapply keeps_cancelled_lookup, Hc.
  - split; [|rewrite Ec].
    + intros k [m Hm] Ht. destruct (Hfrom k m Hm) as [Hm'|[-> Hlc]]; [|by rewrite Ht in Hlc].
      destruct (Hl k) as [lc Hlc]; [by eexists|done|]. rewrite (Hk _ _ Hlc). by eexists.
    + intros id r Hr Hcl. destruct (Hc id r Hr Hcl) as (lc & Hlc & ?). eauto.
  - split; rewrite El; [rewrite Em|rewrite Ec].
    + intros k [m [Hne Hm]%lookup_delete_Some] Ht. rewrite lookup_delete_ne by done. apply Hl; eauto.
    + intros id r [Hne Hr]%lookup_delete_Some Hcl. rewrite lookup_delete_ne by done. by eapply Hc.
  - split; [rewrite Em|rewrite Ec].
    + intros k ??. by eapply keeps_some, Hl.
    + intros id r [[<- <-]|[Hne Hr]]%lookup_insert_Some Hcl.
      * apply Hclosed; [done|]. by apply Hl.
      * by eapply keeps_cancelled_lookup, Hc.
Qed.

(** C36: Along every run of writes to the order tables, saved orders have a life
    cycle record and every order whose early closure is in effect is cancelled:
    no later queue write, event, hold or save revives it. *)
Theorem closed_orders_stay_cancelled s s' :
  rtc order_step s s' → closures_in_effect s → closures_in_effect s'.
Proof.
  induction 1 as [|s1 s2 s3 Hstep%order_step_write _ IH]; [done|]. intros Hc.
  apply IH. by eapply order_write_closures.
Qed.

(** A batch is checked against the stored maps only: two new orders of one batch
    may share an order number. *)
Lemma batch_accepts_duplicate_numbers map map' (s : order_tables) :
  map_id map ≠ map_id map' → trim (map_id map) ≠ trim (map_id map') →
  map_order_number map = map_order_number map' → blank (map_order_number map) = false →
  st_maps s = ∅ →
  (put_maps_batch [map; map'] s).2 = Ok tt ∧
  ¬ unique_numbers (st_maps (put_maps_batch [map; map'] s).1).
Proof.
  intros Hid Htrim Hn Hb He. unfold put_maps_batch, reject_order_number_immutable,
    duplicate_order_number. simpl. rewrite He.
  assert (btree_values (∅ : gmap string ProductionMapDefinition) = []) as -> by done.
  simpl. rewrite !lookup_empty, !andb_false_r.
  destruct (negb (starts_with (trim (map_id map)) "zakaz-")),
    (negb (starts_with (trim (map_id map')) "zakaz-")); simpl; repeat case_match; simplify_eq/=;
    (split; [done|]); intros Hu;
    apply Htrim, (Hu (map_id map) (map_id map') map map'); try done; try (by rewrite Hn);
    unfold insert_map; rewrite ?lookup_insert_eq; try done;
    by rewrite lookup_insert_ne, lookup_insert_eq.
Qed.
End facts.
