(* ===== verification/Visibility.v ===== *)
(** Which orders belong to the queue of an apparatus.

    Models [src/core/production_map/queue/apparatus.rs] (visible and selected
    orders), the sequence updates of a frozen or restored order of
    [queue/support.rs], the apparatus classes of [pechat/implementation.rs], and
    [from_data] and [from_projection] of [sequence_move.rs]. *)
From S2P Require Import Prelude RustStr F64 Errors Identity QueueState QueueFacts OrderLayout MapDefinition Formula Compiler Bfs Chain ChainFacts Projection SequenceMove Scheduler.

(** * Visible orders *)

Definition is_template_map (map : ProductionMapDefinition) : bool :=
  starts_with (trim (map_id map)) "template-".

Definition is_visible_queue_order (map : ProductionMapDefinition) : bool :=
  let order_id := trim (map_id map) in
  if is_empty order_id || is_template_map map then false
  else negb (blank (map_code map)) || negb (blank (map_order_number map)) ||
       starts_with order_id "zakaz-".

Definition visible_order_ids_for_apparatus (maps : list ProductionMapDefinition) (apparatus : string)
  : list string :=
  let apparatus := trim apparatus in
  if negb (ApparatusId_is_valid apparatus) then []
  else
    List.filter (λ id, negb (is_empty id))
      ((λ map, trim (map_id map)) <$>
        List.filter (λ map, negb (is_template_map map) && map_has_work_stage_for_station map apparatus)
          maps).

(** The apparatuses of the stages of a map, each once. *)
Fixpoint stage_apparatuses (stages : list ChainStage) (seen : gset string) : list string :=
  match stages with
  | [] => []
  | stage :: stages =>
      match trim <$> stage_apparatus_id stage with
      | None => stage_apparatuses stages seen
      | Some id =>
          if negb (ApparatusId_is_valid id) || bool_decide (id ∈ seen)
          then stage_apparatuses stages seen
          else id :: stage_apparatuses stages ({[id]} ∪ seen)
      end
  end.

Definition add_order (order_id : string) (visible : gmap string (list string)) (apparatus_id : string)
  : gmap string (list string) :=
  <[apparatus_id := default [] (visible !! apparatus_id) ++ [order_id]]> visible.

Definition add_map_orders (include : ProductionMapDefinition → bool) (map : ProductionMapDefinition)
    (stages : list ChainStage) (visible : gmap string (list string)) : gmap string (list string) :=
  let order_id := trim (map_id map) in
  if is_empty order_id || negb (include map) then visible
  else foldl (add_order order_id) visible (stage_apparatuses stages ∅).

Definition order_ids_by_apparatus (maps : list ProductionMapDefinition)
    (include : ProductionMapDefinition → bool) : gmap string (list string) :=
  foldl (λ visible map, add_map_orders include map (linear_work_stages map) visible) ∅ maps.

Definition visible_order_ids_by_apparatus (maps : list ProductionMapDefinition)
  : gmap string (list string) := order_ids_by_apparatus maps is_visible_queue_order.

Definition queue_order_ids_by_apparatus (maps : list ProductionMapDefinition)
  : gmap string (list string) := order_ids_by_apparatus maps (λ map, negb (is_template_map map)).

(** * Classes of apparatuses *)

Definition is_rezka_apparatus (c : RuntimeApparatusConfiguration) : bool :=
  config_is_active c && bool_decide (runtime_operation c = ExecutionOperation.Cut) &&
  config_supports c Capability.Cut.

Definition requires_previous_stage (c : RuntimeApparatusConfiguration) : bool :=
  uses_lamination_workflow c || is_rezka_apparatus c.

(** [policy_for(..).is_some()] of [pechat/implementation.rs]. *)
Definition is_pechat_apparatus (c : RuntimeApparatusConfiguration) : bool :=
  config_is_active c && bool_decide (runtime_operation c = ExecutionOperation.Print) &&
  config_supports c Capability.Print.

(** * Print alternatives *)

Definition config_apparatus_id (c : RuntimeApparatusConfiguration) : string :=
  apparatus_id_str (row_apparatus_id (runtime_row c)).

Definition group_candidates (map : ProductionMapDefinition) (group : string) : list ProductionMapNode :=
  List.filter (λ candidate,
    is_apparatus candidate && (trim (alternative_group_id candidate) =s group)) (map_nodes map).

Definition node_allows_order (map : ProductionMapDefinition) (apparatus_id : string)
    (node : ProductionMapNode) : bool :=
  if negb (is_apparatus node) || (trim (node_apparatus_id node) <>s apparatus_id) then false
  else
    let group := trim (alternative_group_id node) in
    if is_empty group then true
    else
      let candidates := group_candidates map group in
      (Nat.eqb (length candidates) 1 && blank (alternative_assigned_apparatus_id node)) ||
      forallb (λ candidate, trim (alternative_assigned_apparatus_id candidate) =s apparatus_id)
        candidates.

Definition print_assignment_allows_order (map : ProductionMapDefinition)
    (apparatus : RuntimeApparatusConfiguration) : bool :=
  if negb (bool_decide (runtime_operation apparatus = ExecutionOperation.Print)) then true
  else existsb (node_allows_order map (config_apparatus_id apparatus)) (map_nodes map).

(** [by_id.get(id.trim())]: of the maps with the same id the last one is kept. *)
Definition last_map (maps : list ProductionMapDefinition) (id : string) : option ProductionMapDefinition :=
  List.find (λ map, trim (map_id map) =s trim id) (rev maps).

Definition retain_selected_print_orders (maps : list ProductionMapDefinition)
    (apparatus : RuntimeApparatusConfiguration) (orders : list string) : list string :=
  if negb (bool_decide (runtime_operation apparatus = ExecutionOperation.Print)) then orders
  else List.filter (λ id,
         is_some_and (last_map maps id) (λ map, print_assignment_allows_order map apparatus)) orders.

Definition selected_order_ids_for_apparatus (maps : list ProductionMapDefinition)
    (apparatus : RuntimeApparatusConfiguration) : list string :=
  retain_selected_print_orders maps apparatus
    (visible_order_ids_for_apparatus maps (config_apparatus_id apparatus)).

Definition filter_unselected_print_orders (maps : list ProductionMapDefinition)
    (apparatuses : list RuntimeApparatusConfiguration) (orders : gmap string (list string))
  : gmap string (list string) :=
  foldl (λ orders apparatus,
    let id := config_apparatus_id apparatus in
    match orders !! id with
    | Some ids => <[id := retain_selected_print_orders maps apparatus ids]> orders
    | None => orders
    end) orders apparatuses.

(** * Sequences after an order is frozen or restored (queue/support.rs) *)

Definition append_order (order_id : string) (visible sequence : list string) : list string :=
  let sequence := List.filter (λ candidate, trim candidate <>s order_id) sequence in
  if existsb (λ candidate, trim candidate =s order_id) visible then sequence ++ [order_id] else sequence.

(** One pass of the loop: [updates] with the storage keys seen. *)
Definition frozen_update (visible_by_apparatus sequences : gmap string (list string))
    (excluded : gset string) (appended : option string)
    (st : gmap string (list string) * gset string) (requested : string)
  : gmap string (list string) * gset string :=
  let '(updates, seen) := st in
  let storage_key := trim requested in
  if bool_decide (storage_key ∈ seen) then (updates, seen)
  else
    let seen := {[storage_key]} ∪ seen in
    let visible := default [] (visible_by_apparatus !! requested) in
    match visible with
    | [] => (updates, seen)
    | _ =>
        let stored :=
          match sequences !! storage_key with
          | Some stored => stored
          | None => default [] (sequences !! requested)
          end in
        let sequence := effective_apparatus_sequence_excluding stored visible excluded in
        let sequence :=
          match trim <$> appended with
          | Some order_id => if is_empty order_id then sequence else append_order order_id visible sequence
          | None => sequence
          end in
        (<[storage_key := sequence]> updates, seen)
    end.

Definition sequence_updates_for_frozen_transition (maps : list ProductionMapDefinition)
    (sequences : gmap string (list string)) (excluded_order_ids : gset string)
    (appended_order_id : option string) : gmap string (list string) :=
  let visible_by_apparatus := visible_order_ids_by_apparatus maps in
  let known := List.filter (λ key, negb (is_empty (apparatus_search_key key)))
    (sorted_strings (elements (dom sequences ∪ dom visible_by_apparatus : gset string))) in
  (foldl (frozen_update visible_by_apparatus sequences excluded_order_ids appended_order_id) (∅, ∅)
     known).1.

(** * Through projections *)

(** One [projection] of the loops below; [stages] may fill its cache. *)
Definition add_projection_orders (include : ProductionMapDefinition → bool)
    (st : list ProjectionMap * gmap string (list string)) (projection : ProjectionMap)
  : list ProjectionMap * gmap string (list string) :=
  let '(done, visible) := st in
  let map := proj_map projection in
  if is_empty (trim (map_id map)) || negb (include map) then (done ++ [projection], visible)
  else
    let '(projection, stages) := stages projection in
    (done ++ [projection], add_map_orders include map stages visible).

Definition order_ids_by_projection (projections : list ProjectionMap)
    (include : ProductionMapDefinition → bool) : list ProjectionMap * gmap string (list string) :=
  foldl (add_projection_orders include) ([], ∅) projections.

Definition visible_order_ids_by_projection (projections : list ProjectionMap)
  : list ProjectionMap * gmap string (list string) :=
  order_ids_by_projection projections is_visible_queue_order.

Definition queue_order_ids_by_projection (projections : list ProjectionMap)
  : list ProjectionMap * gmap string (list string) :=
  order_ids_by_projection projections (λ map, negb (is_template_map map)).

Definition view_has_stage (id : string) (view : ProjectionMap) : ProjectionMap * bool :=
  if is_template_map (proj_map view) then (view, false)
  else
    let '(view, stages) := stages view in
    (view, existsb (λ stage, bool_decide (stage_apparatus_id stage = Some id)) stages).

Definition selected_order_ids_for_projection (projections : list ProjectionMap)
    (apparatus : RuntimeApparatusConfiguration) : list ProjectionMap * list string :=
  let id := config_apparatus_id apparatus in
  let views := view_has_stage id <$> projections in
  let orders := List.filter (λ id, negb (is_empty id))
    ((λ view : ProjectionMap * bool, trim (map_id (proj_map view.1))) <$> List.filter snd views) in
  (views.*1, retain_selected_print_orders (proj_map <$> projections) apparatus orders).

(** * Queue snapshots for moves (sequence_move.rs) *)

Definition from_data (canonical : RuntimeApparatusConfiguration) (maps : list ProductionMapDefinition)
    (stored : list string) (raw_states : gmap string string) (frozen preflight_orders : gset string)
  : SequenceMoveState :=
  from_visible (config_apparatus_id canonical) (selected_order_ids_for_apparatus maps canonical)
    stored raw_states frozen preflight_orders.

Definition from_projection (canonical : RuntimeApparatusConfiguration)
    (projections : list ProjectionMap) (stored : list string) (raw_states : gmap string string)
    (frozen preflight_orders : gset string) : list ProjectionMap * SequenceMoveState :=
  let '(projections, visible) := selected_order_ids_for_projection projections canonical in
  (projections,
   from_visible (config_apparatus_id canonical) visible stored raw_states frozen preflight_orders).

(** * What the queues show

    Queue membership: what is read through projections is what the maps say, print
    alternatives are exclusive, and a frozen order leaves every queue. *)

(** * Projections *)

Lemma projection_orders_ok include projections st :
  Forall cache_ok projections → Forall cache_ok st.1 →
  let '(projections', visible) := foldl (add_projection_orders include) st projections in
  Forall cache_ok projections' ∧ proj_map <$> projections' = (proj_map <$> st.1) ++ (proj_map <$> projections) ∧
  visible = foldl (λ visible map, add_map_orders include map (linear_work_stages map) visible) st.2
    (proj_map <$> projections).
Proof.
  intros Hp. revert st. induction Hp as [|p ps Hp Hps IH]; intros [qs visible] Hq; simpl.
  { by rewrite app_nil_r. }
  destruct (is_empty (trim (map_id (proj_map p))) || negb (include (proj_map p))) eqn:Hskip.
  - specialize (IH (qs ++ [p], visible)). simpl in IH.
    destruct (foldl _ _ ps) as [projections' visible'].
    destruct IH as (H1 & H2 & H3); [apply Forall_app; split; [done|by constructor]|]. split_and!; [done| |].
    + rewrite H2, fmap_app. by rewrite <-app_assoc.
    + rewrite H3. unfold add_map_orders at 3. by rewrite Hskip.
  - destruct (stages_ok p Hp) as (Hs & Hm & _ & Hc). destruct (stages p) as [p' s]. simpl in Hs, Hm, Hc.
    subst s. specialize (IH (qs ++ [p'], add_map_orders include (proj_map p) (linear_work_stages (proj_map p)) visible)).
    simpl in IH. destruct (foldl _ _ ps) as [projections' visible'].
    destruct IH as (H1 & H2 & H3); [apply Forall_app; split; [done|by constructor]|]. split_and!; [done| |done].
    rewrite H2, fmap_app. simpl. rewrite Hm. by rewrite <-app_assoc.
Qed.

Lemma task_identity_not_valid id : ApparatusId_is_valid (task_stage_identity id) = false.
Proof.
  unfold ApparatusId_is_valid. destruct (validate_shape _) as [[]|] eqn:H; [|done].
  by apply validate_shape_sound in H as (ns & key & [=] & _).
Qed.

Lemma existsb_same {A} (f g : A → bool) l : (∀ x, f x = g x) → existsb f l = existsb g l.
Proof. intros H. induction l as [|x l IH]; [done|]. simpl. by rewrite H, IH. Qed.

(** The two ways of asking whether a map uses an apparatus. *)
Lemma has_stage_is_station map id :
  ApparatusId_is_valid id = true →
  existsb (λ stage, bool_decide (stage_apparatus_id stage = Some id)) (linear_work_stages map) =
  map_has_work_stage_for_station map id.
Proof.
  intros Hv. unfold map_has_work_stage_for_station. rewrite (valid_id_trim id Hv).
  apply existsb_same. intros stage. unfold stage_identity.
  destruct (stage_apparatus_id stage) as [a|].
  - destruct (String.eqb_spec a id) as [->|Hne]; [by rewrite bool_decide_eq_true_2|].
    apply bool_decide_eq_false_2. congruence.
  - rewrite bool_decide_eq_false_2 by done. symmetry. apply String.eqb_neq. intros <-.
    by rewrite task_identity_not_valid in Hv.
Qed.

Lemma view_has_stage_ok id p :
  cache_ok p → ApparatusId_is_valid id = true →
  (view_has_stage id p).2 =
    negb (is_template_map (proj_map p)) && map_has_work_stage_for_station (proj_map p) id ∧
  proj_map (view_has_stage id p).1 = proj_map p ∧ cache_ok (view_has_stage id p).1.
Proof.
  intros Hp Hv. unfold view_has_stage. destruct (is_template_map (proj_map p)); [done|].
  destruct (stages_ok p Hp) as (Hs & Hm & _ & Hc). destruct (stages p) as [p' s]. simpl in *. subst s.
  by rewrite has_stage_is_station.
Qed.

Lemma selected_views_ok id projections :
  Forall cache_ok projections → ApparatusId_is_valid id = true →
  let views := view_has_stage id <$> projections in
  (λ view : ProjectionMap * bool, trim (map_id (proj_map view.1))) <$> List.filter snd views =
    (λ map, trim (map_id map)) <$>
      List.filter (λ map, negb (is_template_map map) && map_has_work_stage_for_station map id)
        (proj_map <$> projections) ∧
  Forall cache_ok views.*1.
Proof.
  intros Hp Hv. induction Hp as [|p ps Hp Hps [IH1 IH2]]; [done|]. simpl.
  destruct (view_has_stage_ok id p Hp Hv) as (H1 & H2 & H3).
  destruct (view_has_stage id p) as [p' b]. simpl in H1, H2, H3. subst b. split; [|by constructor].
  destruct (_ && _); [|exact IH1]. simpl. rewrite H2. f_equal. exact IH1.
Qed.

(** Queue membership computed through projections is that of the maps, whatever
    their caches hold. *)
Theorem queue_membership_ignores_projections canonical projections stored states frozen preflight :
  Forall cache_ok projections → ApparatusId_is_valid (config_apparatus_id canonical) = true →
  (from_projection canonical projections stored states frozen preflight).2 =
    from_data canonical (proj_map <$> projections) stored states frozen preflight ∧
  (visible_order_ids_by_projection projections).2 =
    visible_order_ids_by_apparatus (proj_map <$> projections) ∧
  (queue_order_ids_by_projection projections).2 =
    queue_order_ids_by_apparatus (proj_map <$> projections) ∧
  Forall cache_ok (from_projection canonical projections stored states frozen preflight).1.
Proof.
  intros Hp Hv.
  destruct (selected_views_ok _ _ Hp Hv) as [Hsel Hok].
  assert (∀ include, (order_ids_by_projection projections include).2 =
    order_ids_by_apparatus (proj_map <$> projections) include) as Hby.
  { intros include. pose proof (projection_orders_ok include projections ([], ∅) Hp) as H.
    unfold order_ids_by_projection. destruct (foldl _ _ _) as [qs visible]. simpl in H.
    by destruct H as (_ & _ & ->). }
  split_and!; [|apply Hby..|exact Hok].
  unfold from_projection, from_data, selected_order_ids_for_projection,
    selected_order_ids_for_apparatus, visible_order_ids_for_apparatus. simpl.
  rewrite Hsel, valid_id_trim, Hv by done. done.
Qed.

(** * Print alternatives *)

Lemma allows_candidates map id node :
  node_allows_order map id node = true → node ∈ map_nodes map → blank (alternative_group_id node) = false →
  let candidates := group_candidates map (trim (alternative_group_id node)) in
  trim (node_apparatus_id node) = id ∧ node ∈ candidates ∧
  (candidates = [node] ∨ ∀ n, n ∈ candidates → trim (alternative_assigned_apparatus_id n) = id).
Proof.
  unfold node_allows_order. intros H Hin Hg. destruct (is_apparatus node) eqn:Ha; [|done].
  destruct (trim (node_apparatus_id node) <>s id) eqn:Hid; [done|]. breflect. simpl in H.
  unfold blank in Hg. rewrite Hg in H.
  assert (node ∈ group_candidates map (trim (alternative_group_id node))) as Hc.
  { apply filterb_elem. split; [done|]. by rewrite Ha, String.eqb_refl. }
  split_and!; [done|done|]. apply orb_true_iff in H as [H|H].
  - left. breflect. destruct (group_candidates _ _) as [|n [|]]; try done.
    apply list_elem_of_singleton in Hc as ->. done.
  - right. intros n Hn. eapply forallb_elem in H; [|exact Hn]. by breflect.
Qed.

(** Two stations of one alternative group never both show an order. *)
Theorem print_alternatives_are_exclusive map id id' node node' :
  node ∈ map_nodes map → node' ∈ map_nodes map →
  node_allows_order map id node = true → node_allows_order map id' node' = true →
  blank (alternative_group_id node) = false →
  trim (alternative_group_id node) = trim (alternative_group_id node') → id = id'.
Proof.
  intros Hn Hn' H H' Hg Heq.
  assert (blank (alternative_group_id node') = false) as Hg' by (unfold blank in *; by rewrite <-Heq).
  destruct (allows_candidates _ _ _ H Hn Hg) as (Hid & Hc & Hcase).
  destruct (allows_candidates _ _ _ H' Hn' Hg') as (Hid' & Hc' & Hcase').
  cbv zeta in *. rewrite <-Heq in *.
  destruct Hcase as [Hs|Hall].
  { rewrite Hs in Hc'. apply list_elem_of_singleton in Hc' as ->. congruence. }
  destruct Hcase' as [Hs|Hall'].
  { rewrite Hs in Hc. apply list_elem_of_singleton in Hc as ->. congruence. }
  by rewrite <-(Hall node), <-(Hall' node).
Qed.

(** * Frozen and restored orders *)

Lemma stage_apparatuses_valid stages seen id :
  id ∈ stage_apparatuses stages seen → ApparatusId_is_valid id = true.
Proof.
  revert seen. induction stages as [|s stages IH]; intros seen; simpl; [by intros ?%elem_of_nil|].
  destruct (trim <$> stage_apparatus_id s) as [a|]; [|by apply IH].
  destruct (negb (ApparatusId_is_valid a) || _) eqn:H; [by apply IH|]. breflect.
  by intros [->|?%IH]%elem_of_cons.
Qed.

Lemma visible_entry_named maps k visible :
  visible_order_ids_by_apparatus maps !! k = Some visible →
  visible ≠ [] ∧ ApparatusId_is_valid k = true.
Proof.
  set (P (m : gmap string (list string)) := ∀ k v, m !! k = Some v → v ≠ [] ∧ ApparatusId_is_valid k = true).
  assert (∀ order_id ids m, P m → (∀ id, id ∈ ids → ApparatusId_is_valid id = true) →
    P (foldl (add_order order_id) m ids)) as Hids.
  { intros order_id ids. induction ids as [|id ids IH]; intros m Hm Hv; [done|]. simpl.
    apply IH; [|intros ? ?; apply Hv; by right]. unfold add_order. intros k' v.
    intros [[<- <-]|[_ Hk]]%lookup_insert_Some; [|by eapply Hm].
    split; [by destruct (default [] _)|apply Hv; by left]. }
  unfold visible_order_ids_by_apparatus, order_ids_by_apparatus.
  cut (∀ m, P m → P (foldl (λ visible map,
    add_map_orders is_visible_queue_order map (linear_work_stages map) visible) m maps)).
  { intros H. apply (H ∅). by intros ???. }
  induction maps as [|map maps IH]; intros m Hm; [done|]. simpl. apply IH.
  unfold add_map_orders. destruct (_ || _); [done|]. apply Hids; [done|].
  intros id. apply stage_apparatuses_valid.
Qed.

Section frozen.
Context (visible_by sequences : gmap string (list string)) (excluded : gset string)
  (appended : option string).

(** The new sequence of one queue. *)
Definition updated_sequence (key : string) (visible : list string) : list string :=
  let sequence :=
    effective_apparatus_sequence_excluding (default [] (sequences !! key)) visible excluded in
  match trim <$> appended with
  | Some order_id => if is_empty order_id then sequence else append_order order_id visible sequence
  | None => sequence
  end.

Lemma frozen_update_trimmed updates seen key :
  trim key = key → key ∉ seen →
  frozen_update visible_by sequences excluded appended (updates, seen) key =
    (match visible_by !! key with
     | Some (id :: ids) => <[key := updated_sequence key (id :: ids)]> updates
     | _ => updates
     end, {[key]} ∪ seen).
Proof.
  intros Ht Hs. unfold frozen_update. rewrite Ht, bool_decide_eq_false_2 by done.
  destruct (visible_by !! key) as [[|id ids]|]; simpl; try done. unfold updated_sequence.
  by destruct (sequences !! key).
Qed.

Lemma frozen_updates_lookup keys updates seen k :
  NoDup keys → (∀ key, key ∈ keys → trim key = key ∧ key ∉ seen) →
  (foldl (frozen_update visible_by sequences excluded appended) (updates, seen) keys).1 !! k =
  match visible_by !! k with
  | Some (id :: ids) =>
      if bool_decide (k ∈ keys) then Some (updated_sequence k (id :: ids)) else updates !! k
  | _ => updates !! k
  end.
Proof.
  intros Hnd. revert updates seen. induction Hnd as [|key keys Hk Hnd IH]; intros updates seen Hkeys.
  { cbn [foldl fst]. destruct (visible_by !! k) as [[]|]; [done| |done].
    by rewrite bool_decide_eq_false_2 by apply not_elem_of_nil. }
  destruct (Hkeys key) as [Ht Hs]; [by left|]. cbn [foldl]. rewrite frozen_update_trimmed by done.
  rewrite IH.
  - destruct (decide (k = key)) as [->|Hne].
    + rewrite (bool_decide_eq_false_2 (key ∈ keys)), (bool_decide_eq_true_2 (key ∈ key :: keys))
        by (done || by left). destruct (visible_by !! key) as [[]|]; try done. apply lookup_insert_eq.
    + rewrite (bool_decide_ext (k ∈ key :: keys) (k ∈ keys)) by (rewrite elem_of_cons; naive_solver).
      destruct (visible_by !! k) as [[]|], (visible_by !! key) as [[]|];
        rewrite ?lookup_insert_ne by done; done.
  - intros key' Hk'. destruct (Hkeys key') as [? ?]; [by right|]. split; [done|].
    apply not_elem_of_union. split; [|done]. intros ->%elem_of_singleton. done.
Qed.
End frozen.

(** What a queue looks like afterwards: its visible orders that are not excluded,
    the placed ones in their order, and the restored order at the tail. *)
Definition queue_after (excluded : gset string) (appended : option string)
    (stored visible seq : list string) : Prop :=
  NoDup seq ∧
  (∀ id, id ∈ seq ↔
     eligible visible excluded id ∨ (Some id = trim <$> appended ∧ id ∈ named visible)) ∧
  (∀ id, Some id = trim <$> appended → id ∈ named visible → last seq = Some id) ∧
  (∃ placed rest, seq = placed ++ rest ∧ placed `sublist_of` (trim <$> stored) ∧
     ∀ id, id ∈ placed ↔
       eligible visible excluded id ∧ id ∈ trim <$> stored ∧ Some id ≠ trim <$> appended).

Lemma elem_of_named id ids : id ∈ named ids ↔ id ∈ trim <$> ids ∧ id ≠ "".
Proof.
  unfold named. rewrite filterb_elem. split; intros [H1 H2]; split; try done.
  - intros ->. done.
  - by destruct id.
Qed.

Lemma eligible_nonempty visible excluded id : eligible visible excluded id → trim id = id ∧ id ≠ "".
Proof.
  intros [[(x & -> & _)%list_elem_of_fmap H]%elem_of_named _]. split; [apply trim_idemp|done].
Qed.

Lemma existsb_named order_id visible :
  order_id ≠ "" →
  existsb (λ candidate, trim candidate =s order_id) visible = true ↔ order_id ∈ named visible.
Proof.
  intros Hne. rewrite existsb_elem, elem_of_named, list_elem_of_fmap. split.
  - intros (x & Hx & ?). breflect. subst. eauto.
  - intros [(x & -> & ?) _]. exists x. by rewrite String.eqb_refl.
Qed.

Lemma updated_sequence_spec sequences excluded appended key visible :
  queue_after excluded appended (default [] (sequences !! key)) visible
    (updated_sequence sequences excluded appended key visible).
Proof.
  unfold updated_sequence, queue_after. set (stored := default [] (sequences !! key)). cbv zeta.
  destruct (effective_sequence_spec stored visible excluded) as (Hnd & Hin & placed & new & Hseq & Hsub & _ & Hpl).
  set (sequence := effective_apparatus_sequence_excluding stored visible excluded) in *.
  assert (∀ id, id ∈ sequence → trim id = id ∧ id ≠ "") as Htrim.
  { intros id Hid. eapply eligible_nonempty, Hin, Hid. }
  destruct (trim <$> appended) as [order_id|] eqn:Happ; [destruct (is_empty order_id) eqn:He|].
  - assert (order_id = "") as -> by (by destruct order_id). split_and!; [done| | |].
    + intros id. rewrite Hin. split; [by left|]. intros [?|[[= ->] [_ ?]%elem_of_named]]; done.
    + intros id [= ->] [_ ?]%elem_of_named. done.
    + exists placed, new. split_and!; [done..|]. intros id. rewrite Hpl. split; [|naive_solver].
      intros [H1 H2]. split_and!; [done..|]. intros [= ->]. by apply eligible_nonempty in H1 as [_ ?].
  - assert (order_id ≠ "") as Hne by (by destruct order_id).
    set (kept := List.filter (λ candidate, trim candidate <>s order_id) sequence).
    assert (∀ id, id ∈ kept ↔ eligible visible excluded id ∧ id ≠ order_id) as Hkept.
    { intros id. unfold kept. rewrite filterb_elem. split.
      - intros [H1 H2]. breflect. destruct (Htrim id H1) as [Ht _]. rewrite Ht in H2. by rewrite <-Hin.
      - intros [H1 H2]. rewrite Hin. split; [done|]. apply negb_true_iff, String.eqb_neq.
        apply eligible_nonempty in H1 as [-> _]. done. }
    assert (kept = List.filter (λ candidate, trim candidate <>s order_id) placed ++
      List.filter (λ candidate, trim candidate <>s order_id) new) as Hsplit
      by (unfold kept; by rewrite Hseq, List.filter_app).
    assert (∀ id, id ∈ List.filter (λ candidate, trim candidate <>s order_id) placed ↔
      eligible visible excluded id ∧ id ∈ trim <$> stored ∧ Some id ≠ Some order_id) as Hplaced.
    { intros id. rewrite filterb_elem, Hpl. split.
      - intros [[H1 H2] H3]. breflect. split_and!; [done..|]. intros [= ->]. apply H3.
        by apply eligible_nonempty in H1 as [-> _].
      - intros (H1 & H2 & H3). split; [done|]. apply negb_true_iff, String.eqb_neq.
        apply eligible_nonempty in H1 as [-> _]. congruence. }
    assert (NoDup kept) as Hndk by (by apply filterb_NoDup).
    unfold append_order. fold kept. destruct (existsb _ visible) eqn:Hex.
    + apply existsb_named in Hex; [|done]. split_and!.
      * apply NoDup_app. split_and!; [done| |apply NoDup_singleton].
        intros id Hid ->%list_elem_of_singleton. by apply Hkept in Hid as [_ ?].
      * intros id. rewrite elem_of_app, Hkept, list_elem_of_singleton. split.
        -- intros [[Hel _]| ->]; auto.
        -- intros [?|[[= ->] _]]; [destruct (decide (id = order_id)); auto|auto].
      * intros id [= ->] _. by rewrite last_snoc.
      * eexists _, _. rewrite Hsplit, <-app_assoc. split_and!; [done| |done].
        etrans; [apply filterb_sublist|done].
    + assert (order_id ∉ named visible) as Hno.
      { intros H. apply existsb_named in H; [|done]. congruence. }
      split_and!; [done| | |].
      * intros id. rewrite Hkept. split; [intros [Hel _]; by left|].
        intros [H|[[= ->] Hin']]; [|done]. split; [done|]. intros ->. by destruct H.
      * by intros id [= ->] ?.
      * eexists _, _. split_and!; [exact Hsplit| |done]. etrans; [apply filterb_sublist|done].
  - split_and!; [done| |done|].
    + intros id. rewrite Hin. split; [by left|]. by intros [?|[? _]].
    + exists placed, new. split_and!; [done..|]. intros id. rewrite Hpl. naive_solver.
Qed.

(** The sequences written when orders are frozen or restored cover exactly
    the queues with visible orders; each holds, without repetition, the visible
    orders that are not excluded, keeps the stored relative order, leaves frozen
    orders out and puts a restored order last. *)
Theorem frozen_order_leaves_every_queue maps sequences excluded appended :
  (∀ k, is_Some (sequences !! k) → trim k = k) →
  let visible_by := visible_order_ids_by_apparatus maps in
  let updates := sequence_updates_for_frozen_transition maps sequences excluded appended in
  dom updates = dom visible_by ∧
  ∀ k seq visible, updates !! k = Some seq → visible_by !! k = Some visible →
    queue_after excluded appended (default [] (sequences !! k)) visible seq.
Proof.
  intros Htrim visible_by updates.
  assert (∀ k, updates !! k = updated_sequence sequences excluded appended k <$> visible_by !! k) as Hlook.
  { intros k. unfold updates, sequence_updates_for_frozen_transition. fold visible_by.
    rewrite frozen_updates_lookup.
    - destruct (visible_by !! k) as [v|] eqn:Hv; [|done].
      destruct (visible_entry_named _ _ _ Hv) as [Hne Hvalid]. destruct v as [|id ids]; [done|].
      rewrite bool_decide_eq_true_2; [done|]. apply filterb_elem. split.
      + rewrite sorted_strings_perm. apply elem_of_elements, elem_of_union. right.
        by apply elem_of_dom.
      + unfold apparatus_search_key, is_canonical_apparatus_id.
        rewrite !(valid_id_trim _ Hvalid), Hvalid. by destruct k.
    - apply filterb_NoDup. rewrite sorted_strings_perm. apply NoDup_elements.
    - intros key [Hkey _]%filterb_elem. split; [|apply not_elem_of_empty].
      rewrite sorted_strings_perm in Hkey. apply elem_of_elements, elem_of_union in Hkey as [H|H].
      + apply Htrim. by apply elem_of_dom.
      + apply elem_of_dom in H as [v Hv]. by apply valid_id_trim, (visible_entry_named _ _ _ Hv). }
  split.
  - apply set_eq. intros k. rewrite !elem_of_dom, Hlook. apply fmap_is_Some.
  - intros k seq visible Hk Hv. rewrite Hlook, Hv in Hk. injection Hk as <-.
    apply updated_sequence_spec.
Qed.
