(* ===== verification/Preflight.v ===== *)
(** Colour trials before a print run.

    Models [src/core/production_map/print_preflight.rs], the holds of the memory
    store ([memory_store_trait_impl.rs]), and the reads of whole-order and stage
    holds a trial depends on ([order_control/scoped.rs], [store_port.rs],
    [progress_session/runs.rs]).

    A service operation runs under the guard of its apparatus and yields the store
    it left behind with its answer.  The control the queue snapshot offers for the
    order is an argument of [begin_print_preflight]. *)
From S2P Require Import Prelude RustStr F64 Errors Identity QueueState OrderLayout MapDefinition Formula Compiler Bfs Chain Projection Scheduler Json Progress WipRoute Lifecycle StageExecution OrderRefresh OrderStore SequenceMove Visibility.

Module PreflightStatus.
Inductive t := Held | Running | Passed | Failed | Cancelled | Consumed.

Definition as_str (s : t) : string :=
  match s with
  | Held => "held" | Running => "running" | Passed => "passed" | Failed => "failed"
  | Cancelled => "cancelled" | Consumed => "consumed"
  end.

Definition parse (value : string) : option t :=
  let value := to_ascii_lowercase (trim value) in
  if value =s "held" then Some Held
  else if value =s "running" then Some Running
  else if value =s "passed" then Some Passed
  else if value =s "failed" then Some Failed
  else if value =s "cancelled" then Some Cancelled
  else if value =s "consumed" then Some Consumed
  else None.

Definition reserves_apparatus (s : t) : bool :=
  match s with Held | Running | Passed => true | _ => false end.
End PreflightStatus.

#[global] Instance PreflightStatus_eq_dec : EqDecision PreflightStatus.t.
Proof. solve_decision. Defined.

Record PrintPreflightHold := {
  hold_id : string;
  hold_idempotency_key : string;
  hold_order_id : string;
  hold_apparatus : string;
  hold_stage_node_id : string;
  hold_status : PreflightStatus.t;
  hold_revision : Z;
  hold_actor : QueueActionActor;
  hold_created_at_unix : Z;
  hold_updated_at_unix : Z;
  hold_previous_queue_state : option string;
  hold_expires_at_unix : Z;
}.
#[global] Instance PrintPreflightHold_rebuild : Rebuild PrintPreflightHold := λ r, {|
  hold_id := hold_id r;
  hold_idempotency_key := hold_idempotency_key r;
  hold_order_id := hold_order_id r;
  hold_apparatus := hold_apparatus r;
  hold_stage_node_id := hold_stage_node_id r;
  hold_status := hold_status r;
  hold_revision := hold_revision r;
  hold_actor := hold_actor r;
  hold_created_at_unix := hold_created_at_unix r;
  hold_updated_at_unix := hold_updated_at_unix r;
  hold_previous_queue_state := hold_previous_queue_state r;
  hold_expires_at_unix := hold_expires_at_unix r |}.

(** [PrintPreflightHold::is_live_at]; the time is not looked at. *)
Definition is_live (hold : PrintPreflightHold) : bool :=
  PreflightStatus.reserves_apparatus (hold_status hold).

(** [checked_add(1)] of an [i64]. *)
Definition succ64 (z : Z) : option Z := i64_checked (z + 1).

Definition next_revision (revision : Z) : pm_result Z := ok_or (succ64 revision) PrintPreflightNotReady.

Section preflight.
Context `{J : Json} `{C : !RouteCodec} `{R : !ReportCodec}.

Record trial_store := {
  ts_tables :> order_tables;
  ts_holds : gmap string PrintPreflightHold;
}.
#[global] Instance trial_store_rebuild : Rebuild trial_store := λ r, {|
  ts_tables := ts_tables r; ts_holds := ts_holds r |}.

Definition with_holds (holds : gmap string PrintPreflightHold) (s : trial_store) : trial_store :=
  s <| ts_holds := holds |>.
Definition with_queue_states (states : station_states) (s : trial_store) : trial_store :=
  s <| ts_tables := (ts_tables s) <|
       os_orders := (os_orders (ts_tables s)) <| st_queue_states := states |> |> |>.

(** [refresh_production_order_lifecycles] on the tables of the store. *)
Definition refresh_orders (order_ids : list string) (s : trial_store) : trial_store * run_result unit :=
  let '(tables, r) := refresh order_ids (ts_tables s) in
  (s <| ts_tables := tables |>, r).

(** * Holds of the memory store *)

Definition active_print_preflight_holds (s : trial_store) : list PrintPreflightHold :=
  List.filter is_live (btree_values (ts_holds s)).

Definition print_preflight_hold_by_id (id : string) (s : trial_store) : option PrintPreflightHold :=
  ts_holds s !! trim id.

Definition print_preflight_hold_by_idempotency_key (key : string) (s : trial_store)
  : option PrintPreflightHold :=
  List.find (λ hold, trim (hold_idempotency_key hold) =s trim key) (btree_values (ts_holds s)).

(** [entry(apparatus).or_default()] and a change of the row of the order. *)
Definition set_queue_state (apparatus order_id : string) (state : option string) (states : station_states)
  : station_states :=
  let rows := default ∅ (states !! apparatus) in
  <[apparatus := match state with Some v => <[order_id := v]> rows | None => delete order_id rows end]>
    states.

Definition put_print_preflight_hold (hold : PrintPreflightHold) (s : trial_store)
  : trial_store * run_result unit :=
  if is_some (ts_holds s !! trim (hold_id hold)) then (s, Err (Fail PrintPreflightActive))
  else
    let states := set_queue_state (hold_apparatus hold) (hold_order_id hold) (Some "print_preflight")
                    (st_queue_states s) in
    refresh_orders [hold_order_id hold]
      (with_holds (<[trim (hold_id hold) := hold]> (ts_holds s)) (with_queue_states states s)).

(** An update names the decision before it and may not move the hold. *)
Definition update_conflicts (current hold : PrintPreflightHold) : bool :=
  negb (bool_decide (succ64 (hold_revision current) = Some (hold_revision hold))) ||
  (hold_order_id current <>s hold_order_id hold) ||
  (hold_apparatus current <>s hold_apparatus hold) ||
  (hold_stage_node_id current <>s hold_stage_node_id hold).

Definition update_print_preflight_hold (hold : PrintPreflightHold) (s : trial_store)
  : trial_store * run_result unit :=
  match (current ← ok_or (ts_holds s !! trim (hold_id hold)) PrintPreflightNotFound;
         check (negb (is_live current) || update_conflicts current hold) PrintPreflightNotReady) with
  | Err e => (s, Err (Fail e))
  | Ok _ =>
      let state := if is_live hold then Some "print_preflight" else hold_previous_queue_state hold in
      let states := set_queue_state (hold_apparatus hold) (hold_order_id hold) state (st_queue_states s) in
      refresh_orders [hold_order_id hold]
        (with_holds (<[trim (hold_id hold) := hold]> (ts_holds s)) (with_queue_states states s))
  end.

Definition reopen_print_preflight_hold (hold : PrintPreflightHold) (s : trial_store)
  : trial_store * run_result unit :=
  match (current ← ok_or (ts_holds s !! trim (hold_id hold)) PrintPreflightNotFound;
         check (negb (bool_decide (hold_status hold = PreflightStatus.Running)) ||
                negb (bool_decide (hold_status current = PreflightStatus.Passed)) ||
                update_conflicts current hold ||
                negb (bool_decide ((st_queue_states s !! hold_apparatus hold ≫= lookup (hold_order_id hold))
                                   = Some "print_preflight")) ||
                is_some_and (st_order_controls s !! hold_order_id hold)
                  (λ c, negb (bool_decide (control_state c = OrderControl.Active))))
           PrintPreflightNotReady) with
  | Err e => (s, Err (Fail e))
  | Ok _ => (with_holds (<[trim (hold_id hold) := hold]> (ts_holds s)) s, Ok tt)
  end.

(** The hold of a queue write: looked up, checked, advanced by one revision. *)
Definition settle_hold (id order_id apparatus : string) (actor : QueueActionActor) (now : Z)
    (allowed : PreflightStatus.t → bool) (status : PreflightStatus.t) (s : trial_store)
  : trial_store * pm_result unit :=
  match (hold ← ok_or (ts_holds s !! trim id) PrintPreflightNotFound;
         _ ← check ((trim (hold_order_id hold) <>s trim order_id) ||
                    negb (apparatus_ids_match (hold_apparatus hold) apparatus) ||
                    negb (allowed (hold_status hold))) PrintPreflightNotReady;
         revision ← next_revision (hold_revision hold);
         Ok (hold <| hold_revision := revision |> <| hold_status := status |>
                  <| hold_actor := actor |> <| hold_updated_at_unix := now |>)) with
  | Err e => (s, Err e)
  | Ok hold => (with_holds (<[trim id := hold]> (ts_holds s)) s, Ok tt)
  end.

Definition consume_print_preflight_hold (id order_id apparatus : string) (actor : QueueActionActor)
    (now : Z) : trial_store → trial_store * pm_result unit :=
  settle_hold id order_id apparatus actor now
    (λ status, bool_decide (status = PreflightStatus.Passed) && PreflightStatus.reserves_apparatus status)
    PreflightStatus.Consumed.

Definition cancel_print_preflight_hold (id order_id apparatus : string) (actor : QueueActionActor)
    (now : Z) : trial_store → trial_store * pm_result unit :=
  settle_hold id order_id apparatus actor now PreflightStatus.reserves_apparatus
    PreflightStatus.Cancelled.

(** * Holds in force (order_control/, store_port.rs) *)

Definition map_by_id (id : string) (s : order_store) : option ProductionMapDefinition :=
  List.find (λ map, trim (map_id map) =s trim id) (btree_values (st_maps s)).

Definition required_existing_order_id (order_id : string) (s : order_store) : pm_result string :=
  let order_id := trim order_id in
  _ ← check (is_empty order_id) MissingId;
  _ ← check (negb (starts_with order_id "zakaz-")) MapNotFound;
  _ ← check (is_none (map_by_id order_id s)) MapNotFound;
  Ok order_id.

Definition order_control_by_id (order_id : string) (s : order_store) : option OrderControlRecord :=
  st_order_controls s !! trim order_id.

Definition current_order_control (order_id : string) (s : order_store) : OrderControlRecord :=
  default (OrderControlRecord_active order_id) (order_control_by_id order_id s).

Definition order_control_state (order_id : string) (s : order_store) : pm_result OrderControlRecord :=
  order_id ← required_existing_order_id order_id s;
  Ok (current_order_control order_id s).

Definition stage_order_control_by_id (order_id apparatus stage_node_id : string) (s : order_store)
  : pm_result (option OrderControlRecord) :=
  match List.filter (λ record,
          (trim (control_order_id record) =s trim order_id) &&
          (trim (control_stage_node_id record) =s trim stage_node_id) &&
          is_some_and (control_freeze_request record)
            (λ request, apparatus_ids_match (freeze_target_apparatus request) apparatus))
          (map_to_list (st_stage_order_controls s)).*2 with
  | [] => Ok None
  | [record] => Ok (Some record)
  | _ => Err OrderFreezeTargetAmbiguous
  end.

(** The order overlay always wins; local holds apply only to this occurrence. *)
Definition effective_order_control_for_stage (order_id apparatus stage_node_id : string) (s : order_store)
  : pm_result OrderControlRecord :=
  global ← order_control_state order_id s;
  if negb (bool_decide (control_state global = OrderControl.Active)) || is_some (control_early_close global)
  then Ok global
  else
    map ← ok_or (map_by_id order_id s) MapNotFound;
    stage ← ok_or (work_stage_for_station map apparatus stage_node_id) OrderFreezeTargetNotFound;
    control ← stage_order_control_by_id order_id apparatus (Chain.stage_node_id stage) s;
    match control with
    | Some c => if bool_decide (control_state c = OrderControl.Active) then Ok global else Ok c
    | None => Ok global
    end.

(** [progress_session/runs.rs]. *)
Definition active_order_run_session (apparatus order_id : string) (s : order_store)
  : pm_result (option RunSession) :=
  match ApparatusId_new (trim apparatus) with
  | Err _ => Err StoreFailed
  | Ok id =>
      Ok (List.find (λ session : RunSession,
            apparatus_ids_match (session_apparatus session) (apparatus_id_str id) &&
            (trim (session_order_id session) =s trim order_id) && OrderRunStatus.is_open (session_status session))
            (btree_values (st_order_run_sessions s)))
  end.

(** The occurrence of the open session, else the first one on the apparatus. *)
Definition occurrence_on (order_id apparatus : string) (session : option RunSession) (s : order_store)
  : pm_result string :=
  match session with
  | Some session => Ok (session_stage_node_id session)
  | None =>
      map ← ok_or (map_by_id order_id s) MapNotFound;
      stage ← ok_or (work_stage_for_station map apparatus "") OrderFreezeTargetNotFound;
      Ok (Chain.stage_node_id stage)
  end.

Definition effective_order_control_for_apparatus (order_id apparatus : string) (s : order_store)
  : pm_result OrderControlRecord :=
  session ← active_order_run_session apparatus order_id s;
  stage ← occurrence_on order_id apparatus session s;
  effective_order_control_for_stage order_id apparatus stage s.

Definition require_active_order (order_id apparatus : string) (s : order_store) : pm_result unit :=
  control ← effective_order_control_for_apparatus order_id apparatus s;
  match control_state control with
  | OrderControl.Active => Ok tt
  | OrderControl.FreezeRequested => Err OrderFreezeRequested
  | OrderControl.Frozen => Err OrderFrozen
  end.

(** * The service (print_preflight.rs) *)

Context (resolver : ApparatusId → pm_result (option RuntimeApparatusConfiguration)).

Definition resolve_canonical_apparatus_text (value : string) : pm_result RuntimeApparatusConfiguration :=
  match ApparatusId_new (trim value) with
  | Err _ => Err StoreFailed
  | Ok id => resolve_canonical_apparatus resolver id
  end.

(** The part of a control the trial reads. *)
Record PreflightControl := {
  pc_print_preflight_allowed : bool;
  pc_stage_node_id : string;
}.

(** A reserved trial that begins. *)
Definition start_held (now : Z) (hold : PrintPreflightHold) (s : trial_store)
  : trial_store * run_result PrintPreflightHold :=
  match next_revision (hold_revision hold) with
  | Err e => (s, Err (Fail e))
  | Ok revision =>
      let running := hold <| hold_status := PreflightStatus.Running |>
                          <| hold_revision := revision |> <| hold_updated_at_unix := now |> in
      let '(s, r) := update_print_preflight_hold running s in
      (s, _ ← r; Ok running)
  end.

Definition continue_hold (now : Z) (hold : PrintPreflightHold) (s : trial_store)
  : trial_store * run_result PrintPreflightHold :=
  if bool_decide (hold_status hold = PreflightStatus.Held) then start_held now hold s
  else (s, Ok hold).

(** Either a hold that answers the request, or the hold to store. *)
Inductive begin_plan :=
  | Existing (hold : PrintPreflightHold)
  | Fresh (hold : PrintPreflightHold).

Definition plan_begin (apparatus order_id id idempotency_key : string) (actor : QueueActionActor)
    (now : Z) (control : pm_result (option PreflightControl)) (s : trial_store) : pm_result begin_plan :=
  let apparatus := trim apparatus in
  let order_id := trim order_id in
  let id := trim id in
  let idempotency_key := trim idempotency_key in
  _ ← check (is_empty apparatus || is_empty order_id || is_empty id || is_empty idempotency_key ||
             (200 <? String.length id)%nat || (200 <? String.length idempotency_key)%nat)
        PrintPreflightNotReady;
  _ ← require_active_order order_id apparatus s;
  match print_preflight_hold_by_idempotency_key idempotency_key s with
  | Some existing =>
      _ ← check (negb ((trim (hold_order_id existing) =s order_id) &&
                       apparatus_ids_match (hold_apparatus existing) apparatus)) PrintPreflightActive;
      Ok (Existing existing)
  | None =>
      canonical ← resolve_canonical_apparatus_text apparatus;
      _ ← check (negb (is_pechat_apparatus canonical)) PrintPreflightNotReady;
      let canonical_id := config_apparatus_id canonical in
      match List.find (λ hold, is_live hold && apparatus_ids_match (hold_apparatus hold) canonical_id)
              (active_print_preflight_holds s) with
      | Some existing =>
          _ ← check (trim (hold_order_id existing) <>s order_id) PrintPreflightActive;
          Ok (Existing existing)
      | None =>
          control ← control;
          control ← ok_or control QueueActionNotAllowed;
          _ ← check (negb (pc_print_preflight_allowed control)) QueueActionNotAllowed;
          states ← apparatus_queue_states s;
          Ok (Fresh {|
            hold_id := id;
            hold_idempotency_key := idempotency_key;
            hold_order_id := order_id;
            hold_apparatus := canonical_id;
            hold_stage_node_id := pc_stage_node_id control;
            hold_status := PreflightStatus.Running;
            hold_revision := 0;
            hold_actor := actor;
            hold_created_at_unix := now;
            hold_updated_at_unix := now;
            hold_previous_queue_state := states !! canonical_id ≫= lookup order_id;
            hold_expires_at_unix := 0 |})
      end
  end.

Definition begin_print_preflight (apparatus order_id id idempotency_key : string)
    (actor : QueueActionActor) (now : Z) (control : pm_result (option PreflightControl)) (s : trial_store)
  : trial_store * run_result PrintPreflightHold :=
  match plan_begin apparatus order_id id idempotency_key actor now control s with
  | Err e => (s, Err (Fail e))
  | Ok (Existing hold) => continue_hold now hold s
  | Ok (Fresh hold) =>
      let '(s, r) := put_print_preflight_hold hold s in
      (s, _ ← r; Ok hold)
  end.

(** A decision that was already made. *)
Definition already_decided (action : string) (status : PreflightStatus.t) : bool :=
  match status with
  | PreflightStatus.Running => (action =s "start") || (action =s "reopen")
  | PreflightStatus.Passed => action =s "passed"
  | PreflightStatus.Failed => action =s "failed"
  | PreflightStatus.Cancelled => action =s "cancel"
  | _ => false
  end.

Definition next_status (action : string) (status : PreflightStatus.t) : pm_result PreflightStatus.t :=
  match status with
  | PreflightStatus.Held =>
      if action =s "start" then Ok PreflightStatus.Running
      else if action =s "failed" then Ok PreflightStatus.Failed
      else if action =s "cancel" then Ok PreflightStatus.Cancelled
      else Err PrintPreflightActionNotAllowed
  | PreflightStatus.Running =>
      if action =s "passed" then Ok PreflightStatus.Passed
      else if action =s "failed" then Ok PreflightStatus.Failed
      else if action =s "cancel" then Ok PreflightStatus.Cancelled
      else Err PrintPreflightActionNotAllowed
  | PreflightStatus.Passed =>
      if action =s "reopen" then Ok PreflightStatus.Running else Err PrintPreflightActionNotAllowed
  | _ => Err PrintPreflightActionNotAllowed
  end.

(** A stale revision: neither the current one nor the one before. *)
Definition revision_stale (expected : option Z) (current : Z) : bool :=
  is_some_and expected (λ revision,
    (revision <? 0)%Z ||
    (negb (revision =? current)%Z && negb (bool_decide (succ64 revision = Some current)))).

(** Either the acknowledged hold, or the hold with the new decision. *)
Inductive advance_plan :=
  | Acknowledged (hold : PrintPreflightHold)
  | Decided (reopened : bool) (hold : PrintPreflightHold).

Definition plan_advance (apparatus order_id id action : string) (expected_revision : option Z)
    (actor : QueueActionActor) (now : Z) (s : trial_store) : pm_result advance_plan :=
  let order_id := trim order_id in
  let apparatus := trim apparatus in
  hold ← ok_or (print_preflight_hold_by_id (trim id) s) PrintPreflightNotFound;
  _ ← check ((trim (hold_order_id hold) <>s order_id) ||
             negb (apparatus_ids_match (hold_apparatus hold) apparatus)) PrintPreflightNotReady;
  let action := to_ascii_lowercase (trim action) in
  _ ← check (revision_stale expected_revision (hold_revision hold)) PrintPreflightNotReady;
  if already_decided action (hold_status hold) then Ok (Acknowledged hold)
  else
    _ ← check (negb (bool_decide (expected_revision = Some (hold_revision hold))) &&
               negb (is_none expected_revision && (hold_revision hold =? 0)%Z && (action <>s "reopen")))
          PrintPreflightNotReady;
    _ ← check (negb (is_live hold)) PrintPreflightNotReady;
    _ ← require_active_order order_id apparatus s;
    status ← next_status action (hold_status hold);
    revision ← next_revision (hold_revision hold);
    Ok (Decided (action =s "reopen")
          (hold <| hold_status := status |> <| hold_revision := revision |>
                <| hold_actor := actor |> <| hold_updated_at_unix := now |>)).

Definition advance_print_preflight_at_revision (apparatus order_id id action : string)
    (expected_revision : option Z) (actor : QueueActionActor) (now : Z) (s : trial_store)
  : trial_store * run_result PrintPreflightHold :=
  match plan_advance apparatus order_id id action expected_revision actor now s with
  | Err e => (s, Err (Fail e))
  | Ok (Acknowledged hold) => (s, Ok hold)
  | Ok (Decided reopened hold) =>
      let '(s, r) :=
        if reopened : bool then reopen_print_preflight_hold hold s
        else update_print_preflight_hold hold s in
      (s, _ ← r; Ok hold)
  end.

Definition advance_print_preflight (apparatus order_id id action : string) (actor : QueueActionActor)
    (now : Z) : trial_store → trial_store * run_result PrintPreflightHold :=
  advance_print_preflight_at_revision apparatus order_id id action None actor now.

Definition validate_print_preflight_start (apparatus order_id id : string) (s : trial_store)
  : pm_result unit :=
  canonical ← resolve_canonical_apparatus_text apparatus;
  if negb (is_pechat_apparatus canonical) then Ok tt
  else
    let canonical_id := config_apparatus_id canonical in
    let holds := active_print_preflight_holds s in
    if blank id then
      check (existsb (λ hold, is_live hold && apparatus_ids_match (hold_apparatus hold) canonical_id) holds)
        PrintPreflightNotReady
    else
      hold ← ok_or (List.find (λ hold, trim (hold_id hold) =s trim id) holds) PrintPreflightNotFound;
      check ((trim (hold_order_id hold) <>s trim order_id) ||
             negb (apparatus_ids_match (hold_apparatus hold) canonical_id) ||
             negb (bool_decide (hold_status hold = PreflightStatus.Passed))) PrintPreflightNotReady.
End preflight.
