(* ===== verification/PreflightFacts.v ===== *)
(** Colour trials: at most one live trial per apparatus, every decision is one step of
    the state machine and one revision, retries change nothing, and a failed trial
    leaves the queue as it was. *)
From S2P Require Import Prelude RustStr F64 Errors Identity QueueState OrderLayout MapDefinition Formula Compiler Bfs Chain Projection Scheduler Json Progress WipRoute Lifecycle StageExecution OrderRefresh OrderStore SequenceMove Visibility Preflight.

Module PS := PreflightStatus.

Section facts.
Context `{J : Json} `{C : !RouteCodec} `{R : !ReportCodec}.
Context (resolver : ApparatusId → pm_result (option RuntimeApparatusConfiguration)).

(** * The state machine of a trial *)

(** A decision: of the operator, of the start that consumes a passed trial, or of the
    freeze that cancels it. *)
Definition status_step (a b : PS.t) : Prop :=
  match a, b with
  | PS.Held, (PS.Running | PS.Failed | PS.Cancelled) => True
  | PS.Running, (PS.Passed | PS.Failed | PS.Cancelled) => True
  | PS.Passed, (PS.Running | PS.Consumed | PS.Cancelled) => True
  | _, _ => False
  end.

Definition same_trial (h h' : PrintPreflightHold) : Prop :=
  hold_id h' = hold_id h ∧ hold_idempotency_key h' = hold_idempotency_key h ∧
  hold_order_id h' = hold_order_id h ∧ hold_apparatus h' = hold_apparatus h ∧
  hold_stage_node_id h' = hold_stage_node_id h ∧
  hold_created_at_unix h' = hold_created_at_unix h ∧
  hold_previous_queue_state h' = hold_previous_queue_state h.

Definition hold_step (h h' : PrintPreflightHold) : Prop :=
  same_trial h h' ∧ hold_revision h' = (hold_revision h + 1)%Z ∧
  status_step (hold_status h) (hold_status h').

(** What an operation may do to the table of holds. *)
Inductive holds_change (holds : gmap string PrintPreflightHold) : gmap string PrintPreflightHold → Prop :=
  | HoldsSame : holds_change holds holds
  | HoldsDecided k h h' : holds !! k = Some h → hold_step h h' → holds_change holds (<[k := h']> holds)
  | HoldsBegun k h : holds !! k = None → k = trim (hold_id h) →
      ApparatusId_is_valid (hold_apparatus h) = true →
      hold_status h = PS.Running → hold_revision h = 0%Z →
      (∀ k' h', holds !! k' = Some h' → is_live h' = true →
         apparatus_ids_match (hold_apparatus h') (hold_apparatus h) = false) →
      holds_change holds (<[k := h]> holds).

(** Stored under their id, on canonical apparatuses, one live trial each. *)
Definition trials_wf (holds : gmap string PrintPreflightHold) : Prop :=
  (∀ k h, holds !! k = Some h → k = trim (hold_id h) ∧
     ApparatusId_is_valid (hold_apparatus h) = true) ∧
  (∀ k k' h h', holds !! k = Some h → holds !! k' = Some h' →
     is_live h = true → is_live h' = true → hold_apparatus h = hold_apparatus h' → k = k').

Lemma status_step_live a b : status_step a b → PS.reserves_apparatus a = true.
Proof. by destruct a, b. Qed.

Lemma valid_ids_match a : ApparatusId_is_valid a = true → apparatus_ids_match a a = true.
Proof. intros Hv. apply apparatus_ids_match_spec. by rewrite (valid_id_trim a Hv). Qed.

Lemma holds_change_wf holds holds' : holds_change holds holds' → trials_wf holds → trials_wf holds'.
Proof.
  intros [|k h h' Hk ((Hid & _ & _ & Ha & _) & _ & Hstep)|k h Hk Hkey Hv Hs _ Hno] [H1 H2]; [done|split..|split].
  - intros k1 h1 [[<- <-]|[_ ?]]%lookup_insert_Some; [rewrite Hid, Ha|]; by apply H1.
  - apply status_step_live in Hstep as Hlive.
    intros k1 k2 h1 h2 [[<- <-]|[? L1]]%lookup_insert_Some [[<- <-]|[? L2]]%lookup_insert_Some;
      [done|rewrite Ha|rewrite Ha|]; eauto.
  - intros k1 h1 [[<- <-]|[_ ?]]%lookup_insert_Some; [done|by apply H1].
  - intros k1 k2 h1 h2 [[<- <-]|[? L1]]%lookup_insert_Some [[<- <-]|[? L2]]%lookup_insert_Some V1 V2 E;
      [done| | |eauto].
    + specialize (Hno _ _ L2 V2). rewrite E, valid_ids_match in Hno; [done|]. by apply (H1 k2).
    + specialize (Hno _ _ L1 V1). rewrite E, valid_ids_match in Hno; done.
Qed.

(** * The operations *)

Lemma refresh_orders_frame ids s :
  ts_holds (refresh_orders ids s).1 = ts_holds s ∧
  st_queue_states (refresh_orders ids s).1 = st_queue_states s.
Proof.
  unfold refresh_orders, refresh.
  assert (∀ ids orders, st_queue_states (refresh_production_order_lifecycles ids orders).1 = st_queue_states orders) as H.
  { clear. intros ids. induction ids as [|id ids IH]; intros s; simpl; [done|].
    destruct (st_maps s !! trim id); [|done]. destruct (refreshed_record _ _ _ _); [|done]. by rewrite IH. }
  specialize (H ids (os_orders (ts_tables s))).
  by destruct (refresh_production_order_lifecycles ids (os_orders (ts_tables s))).
Qed.

Lemma update_holds hold s :
  let s' := (update_print_preflight_hold hold s).1 in
  s' = s ∨
  (ts_holds s' = <[trim (hold_id hold) := hold]> (ts_holds s) ∧
   st_queue_states s' = set_queue_state (hold_apparatus hold) (hold_order_id hold)
     (if is_live hold then Some "print_preflight" else hold_previous_queue_state hold) (st_queue_states s)).
Proof.
  unfold update_print_preflight_hold.
  match goal with |- context [match ?x with _ => _ end] => destruct x end; [right|by left]. cbv zeta.
  by rewrite !(proj1 (refresh_orders_frame _ _)), !(proj2 (refresh_orders_frame _ _)).
Qed.

Lemma succ64_eq z z' : succ64 z = Some z' → z' = (z + 1)%Z.
Proof. unfold succ64, i64_checked. by case_match; intros [= <-]. Qed.

Lemma next_revision_eq z z' : next_revision z = Ok z' → z' = (z + 1)%Z.
Proof. unfold next_revision. destruct (succ64 z) eqn:E; [|done]. intros [= <-]. by apply succ64_eq. Qed.

Lemma continue_hold_change now k hold s :
  trials_wf (ts_holds s) → ts_holds s !! k = Some hold →
  holds_change (ts_holds s) (ts_holds (continue_hold now hold s).1).
Proof.
  intros [Hwf _] Hk. unfold continue_hold. case_bool_decide as Hheld; [|constructor].
  unfold start_held. destruct (next_revision (hold_revision hold)) as [revision|] eqn:Hr; [|constructor].
  match goal with |- context [update_print_preflight_hold ?h s] => set (running := h);
    pose proof (update_holds running s) as Hu; destruct (update_print_preflight_hold running s) as [s' r] end.
  cbv zeta in Hu. simpl in Hu. simpl. destruct Hu as [->|[-> _]]; [constructor|].
  destruct (Hwf k hold Hk) as [-> _]. eapply HoldsDecided; [exact Hk|].
  apply next_revision_eq in Hr. split_and!; try done. simpl. by rewrite Hheld.
Qed.

Lemma resolve_canonical_id apparatus canonical :
  resolve_canonical_apparatus_text resolver apparatus = Ok canonical →
  config_apparatus_id canonical = trim apparatus ∧ ApparatusId_is_valid (config_apparatus_id canonical) = true.
Proof.
  unfold resolve_canonical_apparatus_text. destruct (ApparatusId_new _) as [aid|] eqn:Haid; [|done].
  unfold resolve_canonical_apparatus. intros H. inv_ok.
  match goal with H : (if ?b then _ else _) = Ok _ |- _ => destruct b eqn:Hb; [done|]; injection H as -> end.
  breflect. unfold same_apparatus_id in *. breflect. unfold config_apparatus_id.
  match goal with H : apparatus_id_str _ = apparatus_id_str aid |- _ => rewrite H end.
  unfold ApparatusId_new in Haid. unfold ApparatusId_is_valid.
  destruct (validate_shape (trim _)) as [u|] eqn:Hs; [|done]. injection Haid as <-. simpl. by rewrite Hs.
Qed.

Lemma plan_begin_spec apparatus order_id id key actor now control s plan :
  plan_begin resolver apparatus order_id id key actor now control s = Ok plan →
  match plan with
  | Existing hold => ∃ k, ts_holds s !! k = Some hold
  | Fresh hold =>
      hold_id hold = trim id ∧ hold_status hold = PS.Running ∧ hold_revision hold = 0%Z ∧
      ApparatusId_is_valid (hold_apparatus hold) = true ∧
      (∀ k' h', ts_holds s !! k' = Some h' → is_live h' = true →
         apparatus_ids_match (hold_apparatus h') (hold_apparatus hold) = false)
  end.
Proof.
  unfold plan_begin. intros H. inv_ok.
  destruct (print_preflight_hold_by_idempotency_key _ s) as [existing|] eqn:Hkey.
  { inv_ok. apply find_elem in Hkey as [Hin _]. apply elem_of_btree_values in Hin as [k ?]. by exists k. }
  inv_ok. match goal with H : resolve_canonical_apparatus_text _ _ = Ok ?c |- _ =>
    rename H into Hcanonical; rename c into canonical end.
  destruct (List.find _ _) as [existing|] eqn:Hfind.
  { inv_ok. apply find_elem in Hfind as [Hin _]. apply filterb_elem in Hin as [Hin _].
    apply elem_of_btree_values in Hin as [k ?]. by exists k. }
  inv_ok. simpl. split_and!; [done..| |].
  - by apply resolve_canonical_id in Hcanonical as [_ ?].
  - intros k' h' Hk' Hlive. eapply find_none_elem in Hfind.
    + apply andb_false_iff in Hfind as [Hf|Hf]; [|exact Hf]. by rewrite Hlive in Hf.
    + apply filterb_elem. split; [|done]. apply elem_of_btree_values. eauto.
Qed.

Lemma begin_change apparatus order_id id key actor now control s :
  trials_wf (ts_holds s) →
  holds_change (ts_holds s)
    (ts_holds (begin_print_preflight resolver apparatus order_id id key actor now control s).1).
Proof.
  intros Hwf. unfold begin_print_preflight.
  destruct (plan_begin _ _ _ _ _ _ _ _ s) as [[hold|hold]|] eqn:Hplan; [| |constructor];
    apply plan_begin_spec in Hplan.
  - destruct Hplan as [k Hk]. by eapply continue_hold_change.
  - destruct Hplan as (Hid & Hst & Hrev & Hv & Hno).
    unfold put_print_preflight_hold. destruct (is_some _) eqn:Hsome; [constructor|].
    match goal with |- context [refresh_orders ?ids ?t] =>
      pose proof (refresh_orders_frame ids t) as [Hf _]; destruct (refresh_orders ids t) as [s' r] end.
    simpl in Hf. simpl. rewrite Hf. apply HoldsBegun; try done.
    by destruct (ts_holds s !! trim (hold_id hold)).
Qed.

Lemma next_status_step action a b : next_status action a = Ok b → status_step a b.
Proof. unfold next_status. destruct a; repeat case_match; intros; simplify_eq; done. Qed.

Lemma next_status_decided action a b : next_status action a = Ok b → already_decided action b = true.
Proof. unfold next_status. destruct a; repeat case_match; intros; simplify_eq; simpl; breflect; by subst. Qed.

Lemma plan_advance_spec apparatus order_id id action expected actor now s plan :
  plan_advance apparatus order_id id action expected actor now s = Ok plan →
  ∃ current, ts_holds s !! trim id = Some current ∧
    trim (hold_order_id current) = trim order_id ∧
    apparatus_ids_match (hold_apparatus current) (trim apparatus) = true ∧
    match plan with
    | Acknowledged hold => hold = current ∧
        already_decided (to_ascii_lowercase (trim action)) (hold_status current) = true ∧
        revision_stale expected (hold_revision current) = false
    | Decided reopened hold =>
        hold_step current hold ∧
        next_status (to_ascii_lowercase (trim action)) (hold_status current) = Ok (hold_status hold) ∧
        succ64 (hold_revision current) = Some (hold_revision hold) ∧
        (expected = Some (hold_revision current) ∨ expected = None ∧ hold_revision current = 0%Z) ∧
        (∀ revision, expected = Some revision → (0 <= revision)%Z) ∧
        require_active_order (trim order_id) (trim apparatus) s = Ok tt
    end.
Proof.
  unfold plan_advance, print_preflight_hold_by_id. rewrite trim_idemp.
  intros (current & Hcur & H)%bind_Ok. exists current.
  unfold ok_or in Hcur. destruct (ts_holds s !! trim id) as [h|]; [|done]. injection Hcur as ->.
  split; [done|]. inv_ok.
  match goal with H : _ || negb (apparatus_ids_match _ _) = false |- _ => rename H into Howner end.
  apply orb_false_iff in Howner as [Horder Happ]. apply negb_false_iff in Horder, Happ.
  apply String.eqb_eq in Horder. split; [exact Horder|]. split; [exact Happ|].
  match goal with H : revision_stale _ _ = false |- _ => rename H into Hstale end.
  destruct (already_decided _ _) eqn:Hack; inv_ok; [by split_and!|].
  match goal with H : next_status _ _ = Ok _ |- _ => rename H into Hnext end.
  match goal with H : next_revision _ = Ok _ |- _ => rename H into Hrev end.
  match goal with H : require_active_order _ _ _ = Ok ?u |- _ => destruct u; rename H into Hactive end.
  split_and!; simpl.
  - split_and!; try done; simpl; [by apply next_revision_eq|by eapply next_status_step].
  - done.
  - unfold next_revision in Hrev. destruct (succ64 _); [|done]. by injection Hrev as ->.
  - match goal with H : negb (bool_decide _) && _ = false |- _ => apply andb_false_iff in H as [H|H] end;
      breflect.
    + left. by match goal with H : bool_decide _ = true |- _ => apply bool_decide_eq_true in H end.
    + right. by destruct expected.
  - intros revision ->. unfold revision_stale in Hstale. simpl in Hstale.
    apply orb_false_iff in Hstale as [Hs _]. by breflect.
  - done.
Qed.

Lemma hold_step_key current hold k (holds : gmap string PrintPreflightHold) :
  trials_wf holds → holds !! k = Some current → hold_step current hold → trim (hold_id hold) = k.
Proof. intros [Hwf _] Hk ((-> & _) & _). by destruct (Hwf k current Hk) as [-> _]. Qed.

(** The store writes of a decision. *)
Lemma reopen_holds hold s :
  let s' := (reopen_print_preflight_hold hold s).1 in
  s' = s ∨ s' = with_holds (<[trim (hold_id hold) := hold]> (ts_holds s)) s.
Proof.
  unfold reopen_print_preflight_hold.
  match goal with |- context [match ?x with _ => _ end] => destruct x end; [by right|by left].
Qed.

Definition write_decision (reopened : bool) (hold : PrintPreflightHold) (s : trial_store)
  : trial_store * run_result unit :=
  if reopened then reopen_print_preflight_hold hold s else update_print_preflight_hold hold s.

Lemma write_decision_holds reopened hold s :
  ts_holds (write_decision reopened hold s).1 = ts_holds s ∨
  ts_holds (write_decision reopened hold s).1 = <[trim (hold_id hold) := hold]> (ts_holds s).
Proof.
  destruct reopened; simpl.
  - destruct (reopen_holds hold s) as [->|Hr]; [by left|right]. cbv zeta in Hr. by rewrite Hr.
  - destruct (update_holds hold s) as [->|[-> _]]; [by left|by right].
Qed.

Lemma advance_change apparatus order_id id action expected actor now s :
  trials_wf (ts_holds s) →
  holds_change (ts_holds s)
    (ts_holds (advance_print_preflight_at_revision apparatus order_id id action expected actor now s).1).
Proof.
  intros Hwf. unfold advance_print_preflight_at_revision.
  destruct (plan_advance _ _ _ _ _ _ _ s) as [[hold|reopened hold]|] eqn:Hplan; [constructor| |constructor].
  apply plan_advance_spec in Hplan as (current & Hcur & _ & _ & Hstep & _).
  fold (write_decision reopened hold s). pose proof (write_decision_holds reopened hold s) as Hw.
  destruct (write_decision reopened hold s) as [s' r]. simpl in *. destruct Hw as [->|Hw]; [constructor|].
  rewrite Hw, (hold_step_key _ _ _ _ Hwf Hcur Hstep). by eapply HoldsDecided.
Qed.

Lemma settle_change id order_id apparatus actor now allowed status s :
  (∀ a, allowed a = true → status_step a status) →
  holds_change (ts_holds s) (ts_holds (settle_hold id order_id apparatus actor now allowed status s).1).
Proof.
  intros Hallowed. unfold settle_hold.
  match goal with |- context [match ?x with _ => _ end] => destruct x as [hold|] eqn:H end; [|constructor].
  apply bind_Ok in H as (current & Hcur & H). unfold ok_or in Hcur.
  destruct (ts_holds s !! trim id) as [h|] eqn:Hk; [|done]. injection Hcur as ->. inv_ok.
  simpl. eapply HoldsDecided; [exact Hk|].
  match goal with H : next_revision _ = Ok _ |- _ => apply next_revision_eq in H end. breflect.
  split_and!; try done. simpl. by apply Hallowed.
Qed.

Lemma consume_change id order_id apparatus actor now s :
  holds_change (ts_holds s) (ts_holds (consume_print_preflight_hold id order_id apparatus actor now s).1).
Proof. apply settle_change. intros []; simpl; intros H; done. Qed.

Lemma cancel_change id order_id apparatus actor now s :
  holds_change (ts_holds s) (ts_holds (cancel_print_preflight_hold id order_id apparatus actor now s).1).
Proof. apply settle_change. by intros []. Qed.

(** * Runs *)

(** Operations on trials, and any write of the other tables. *)
Inductive trial_step (s : trial_store) : trial_store → Prop :=
  | TrialBegin apparatus order_id id key actor now control :
      trial_step s (begin_print_preflight resolver apparatus order_id id key actor now control s).1
  | TrialAdvance apparatus order_id id action expected actor now :
      trial_step s
        (advance_print_preflight_at_revision apparatus order_id id action expected actor now s).1
  | TrialConsume id order_id apparatus actor now :
      trial_step s (consume_print_preflight_hold id order_id apparatus actor now s).1
  | TrialCancel id order_id apparatus actor now :
      trial_step s (cancel_print_preflight_hold id order_id apparatus actor now s).1
  | TrialTables tables : trial_step s (s <| ts_tables := tables |>).

Lemma trial_step_change s s' :
  trial_step s s' → trials_wf (ts_holds s) → holds_change (ts_holds s) (ts_holds s').
Proof.
  intros []; intros Hwf; auto using begin_change, advance_change, consume_change, cancel_change.
  constructor.
Qed.

(** The later state of a trial: one step of the machine per revision. *)
Definition hold_le (h h' : PrintPreflightHold) : Prop :=
  same_trial h h' ∧ (hold_revision h <= hold_revision h')%Z ∧
  nsteps status_step (Z.to_nat (hold_revision h' - hold_revision h)) (hold_status h) (hold_status h') ∧
  (hold_revision h' = hold_revision h → h' = h).

Lemma same_trial_trans h1 h2 h3 : same_trial h1 h2 → same_trial h2 h3 → same_trial h1 h3.
Proof. unfold same_trial. intros. destruct_and!. split_and!; congruence. Qed.

Lemma hold_le_refl h : hold_le h h.
Proof. split_and!; try done. rewrite Z.sub_diag. constructor. Qed.

Lemma hold_step_le h h' : hold_step h h' → hold_le h h'.
Proof.
  intros (H1 & H2 & H3). split_and!; [done|lia| |lia]. rewrite H2.
  replace (Z.to_nat _) with 1 by lia. by apply nsteps_once.
Qed.

Lemma hold_le_trans h1 h2 h3 : hold_le h1 h2 → hold_le h2 h3 → hold_le h1 h3.
Proof.
  intros (A1 & A2 & A3 & A4) (B1 & B2 & B3 & B4). split_and!.
  - by eapply same_trial_trans.
  - lia.
  - replace (Z.to_nat (hold_revision h3 - hold_revision h1)) with
      (Z.to_nat (hold_revision h2 - hold_revision h1) + Z.to_nat (hold_revision h3 - hold_revision h2)) by lia.
    by eapply nsteps_trans.
  - intros E. rewrite B4, A4 by lia. done.
Qed.

Lemma holds_change_le holds holds' k h :
  holds_change holds holds' → holds !! k = Some h → ∃ h', holds' !! k = Some h' ∧ hold_le h h'.
Proof.
  intros [|k1 h1 h2 Hk1 Hstep|k1 h1 Hk1 _ _ _ _ _] Hk; [by eauto using hold_le_refl|..];
    (destruct (decide (k1 = k)) as [->|Hne]; [|rewrite lookup_insert_ne by done; by eauto using hold_le_refl]).
  - rewrite lookup_insert_eq. exists h2. split; [done|]. assert (h1 = h) as -> by congruence.
    by apply hold_step_le.
  - congruence.
Qed.

(** C35: Along every run of trial requests, starts that consume a trial, freezes
    that cancel it and other writes, at most one colour trial of an apparatus is
    live, and every trial is stored under its id on a canonical apparatus. *)
Theorem one_live_trial_per_apparatus s s' :
  rtc trial_step s s' → trials_wf (ts_holds s) → trials_wf (ts_holds s').
Proof.
  induction 1 as [|s1 s2 s3 Hstep _ IH]; [done|]. intros Hwf. apply IH.
  eapply holds_change_wf; [|done]. by apply trial_step_change.
Qed.

(** A trial refines its state machine: along every run it keeps its order,
    apparatus and stage, takes exactly one transition of the machine per
    revision, and never changes again once it has ended. *)
Theorem trial_decisions_are_versioned s s' k h :
  rtc trial_step s s' → trials_wf (ts_holds s) → ts_holds s !! k = Some h →
  ∃ h', ts_holds s' !! k = Some h' ∧ hold_le h h' ∧
    (is_live h = false → h' = h).
Proof.
  intros Hrun Hwf Hk.
  assert (∃ h', ts_holds s' !! k = Some h' ∧ hold_le h h') as (h' & Hk' & Hle).
  { revert h Hk. induction Hrun as [s|s1 s2 s3 Hstep _ IH]; intros h Hk; [by eauto using hold_le_refl|].
    pose proof (trial_step_change _ _ Hstep Hwf) as Hc.
    destruct (holds_change_le _ _ _ _ Hc Hk) as (h2 & Hk2 & Hle).
    destruct (IH (holds_change_wf _ _ Hc Hwf) h2 Hk2) as (h3 & Hk3 & Hle').
    eauto using hold_le_trans. }
  exists h'. split_and!; [done|done|]. intros Hlive. destruct Hle as (_ & Hle & Hsteps & Heq).
  apply Heq. destruct (Z.to_nat _) as [|n] eqn:Hn in Hsteps; [lia|].
  inversion Hsteps as [|n' a b c Hs _]; subst. apply status_step_live in Hs. unfold is_live in Hlive. congruence.
Qed.

Lemma acknowledge apparatus order_id id action expected actor now s hold :
  ts_holds s !! trim id = Some hold → trim (hold_order_id hold) = trim order_id →
  apparatus_ids_match (hold_apparatus hold) (trim apparatus) = true →
  revision_stale expected (hold_revision hold) = false →
  already_decided (to_ascii_lowercase (trim action)) (hold_status hold) = true →
  advance_print_preflight_at_revision apparatus order_id id action expected actor now s = (s, Ok hold).
Proof.
  intros Hk Ho Ha Hst Hack. unfold advance_print_preflight_at_revision, plan_advance, print_preflight_hold_by_id.
  rewrite trim_idemp, Hk. simpl. by rewrite Ho, Ha, String.eqb_refl, Hst, Hack.
Qed.

Lemma write_decision_Ok reopened hold s s' u :
  write_decision reopened hold s = (s', Ok u) →
  ts_holds s' = <[trim (hold_id hold) := hold]> (ts_holds s).
Proof.
  destruct reopened; simpl.
  - unfold reopen_print_preflight_hold.
    match goal with |- context [match ?x with _ => _ end] => destruct x end; intros [= <- <-]; done.
  - unfold update_print_preflight_hold.
    match goal with |- context [match ?x with _ => _ end] => destruct x end; [|done]. intros H.
    match type of H with refresh_orders ?ids ?t = _ => pose proof (refresh_orders_frame ids t) as [Hf _] end.
    rewrite H in Hf. exact Hf.
Qed.

(** An accepted decision either was already made or is one step from the revision it
    names; repeating it, by anyone and at any time, answers the same and changes nothing. *)
Theorem retried_decision_changes_nothing apparatus order_id id action expected actor now s s' hold :
  trials_wf (ts_holds s) →
  advance_print_preflight_at_revision apparatus order_id id action expected actor now s = (s', Ok hold) →
  (s' = s ∨
   ∃ current, ts_holds s !! trim id = Some current ∧ hold_step current hold ∧
     (expected = Some (hold_revision current) ∨ expected = None ∧ hold_revision current = 0%Z) ∧
     require_active_order (trim order_id) (trim apparatus) s = Ok tt) ∧
  ts_holds s' !! trim id = Some hold ∧
  ∀ actor' now',
    advance_print_preflight_at_revision apparatus order_id id action expected actor' now' s' = (s', Ok hold).
Proof.
  intros Hwf. unfold advance_print_preflight_at_revision at 1.
  destruct (plan_advance _ _ _ _ _ _ _ s) as [[ack|reopened decided]|] eqn:Hplan; [| |done];
    apply plan_advance_spec in Hplan as (current & Hcur & Ho & Ha & Hspec).
  - intros [= <- <-]. destruct Hspec as (-> & Hack & Hst).
    split_and!; [by left|done|]. intros. by apply acknowledge.
  - fold (write_decision reopened decided s). destruct (write_decision _ _ _) as [s1 r] eqn:Hw.
    destruct r as [u|]; [|done]. intros [= <- <-]. apply write_decision_Ok in Hw.
    destruct Hspec as (Hstep & Hnext & Hrev & Hexp & Hpos & Hactive).
    rewrite (hold_step_key _ _ _ _ Hwf Hcur Hstep) in Hw.
    assert (ts_holds s1 !! trim id = Some decided) as Hk by (rewrite Hw; apply lookup_insert_eq).
    split_and!; [right; by exists current|done|]. intros actor' now'.
    destruct Hstep as ((_ & _ & Eo & Ea & _) & _ & _).
    apply acknowledge; [done|by rewrite Eo|by rewrite Ea| |by eapply next_status_decided].
    unfold revision_stale. destruct Hexp as [->|[-> _]]; [|done]. simpl.
    rewrite (proj2 (Z.ltb_ge _ _)) by (by apply Hpos).
    rewrite Hrev, bool_decide_eq_true_2 by done. by rewrite andb_false_r.
Qed.

(** * A failed trial *)

Definition queue_row (states : station_states) (apparatus order_id : string) : option string :=
  states !! apparatus ≫= lookup order_id.

Lemma queue_row_set apparatus order_id state states a o :
  queue_row (set_queue_state apparatus order_id state states) a o =
  if bool_decide (a = apparatus ∧ o = order_id) then state else queue_row states a o.
Proof.
  unfold queue_row, set_queue_state. destruct (decide (a = apparatus)) as [->|Ha].
  - rewrite lookup_insert_eq. simpl. destruct (decide (o = order_id)) as [->|Ho].
    + rewrite bool_decide_eq_true_2 by done. destruct state; [apply lookup_insert_eq|apply lookup_delete_eq].
    + rewrite bool_decide_eq_false_2 by naive_solver.
      destruct state; rewrite ?lookup_insert_ne, ?lookup_delete_ne by done;
        destruct (states !! apparatus); simpl; [done|apply lookup_empty|done|apply lookup_empty].
  - rewrite bool_decide_eq_false_2 by naive_solver. by rewrite lookup_insert_ne.
Qed.

(** Rows of canonical apparatuses are read as they are stored. *)
Definition canonical_keys {A} (rows : gmap string A) : Prop :=
  ∀ a, is_Some (rows !! a) → ApparatusId_is_valid a = true.

Lemma read_rows_lookup {A} (entries : list (string * A)) acc result_ :
  read_rows entries acc = Ok result_ → NoDup entries.*1 →
  (∀ e, e ∈ entries → ApparatusId_is_valid e.1 = true) →
  ∀ a, result_ !! a = match (list_to_map entries : gmap string A) !! a with
                      | Some v => Some v | None => acc !! a end.
Proof.
  revert acc. induction entries as [|[a0 v0] entries IH]; intros acc H Hnd Hv a; simpl in *.
  { by injection H as <-. }
  pose proof (Hv (a0, v0) ltac:(by left)) as Hv0. simpl in Hv0. apply NoDup_cons in Hnd as [Ha0 Hnd].
  rewrite (valid_id_trim _ Hv0) in H. unfold ApparatusId_new in H. unfold ApparatusId_is_valid in Hv0.
  destruct (validate_shape a0); [|done]. simpl in H. destruct (is_some (acc !! a0)); [done|].
  rewrite (IH _ H) by (done || (intros e ?; apply Hv; by right)). destruct (decide (a = a0)) as [->|Hne].
  - rewrite (not_elem_of_list_to_map_1 _ _ Ha0). by rewrite !lookup_insert_eq.
  - by rewrite !lookup_insert_ne by done.
Qed.

Lemma read_rows_id {A} (rows read : gmap string A) :
  canonical_keys rows → read_rows (btree_entries rows) ∅ = Ok read → ∀ a, read !! a = rows !! a.
Proof.
  intros Hc Hr a. rewrite (read_rows_lookup _ _ _ Hr).
  - rewrite (list_to_map_proper _ (map_to_list rows)).
    + rewrite list_to_map_to_list. by destruct (rows !! a).
    + rewrite btree_entries_keys. apply NoDup_btree_keys.
    + apply btree_entries_perm.
  - rewrite btree_entries_keys. apply NoDup_btree_keys.
  - intros [k v] Hin%elem_of_btree_entries. apply Hc. by eexists.
Qed.

Lemma begin_fresh apparatus order_id id key actor now control s s1 hold :
  trials_wf (ts_holds s) →
  begin_print_preflight resolver apparatus order_id id key actor now control s = (s1, Ok hold) →
  ts_holds s !! trim (hold_id hold) = None →
  plan_begin resolver apparatus order_id id key actor now control s = Ok (Fresh hold) ∧
  put_print_preflight_hold hold s = (s1, Ok tt).
Proof.
  intros Hwf Hb Hnone. unfold begin_print_preflight in Hb.
  destruct (plan_begin _ _ _ _ _ _ _ _ s) as [[old|fresh]|] eqn:Hplan; [| |done].
  - exfalso. apply plan_begin_spec in Hplan as [k Hk]. destruct Hwf as [Hkey _].
    destruct (Hkey k old Hk) as [-> _].
    assert (hold_id hold = hold_id old) as E; [|rewrite E in Hnone; congruence].
    unfold continue_hold, start_held in Hb. case_bool_decide; [|by injection Hb as _ <-].
    destruct (next_revision _); [|done]. destruct (update_print_preflight_hold _ s) as [s' [u|]]; [|done].
    by injection Hb as _ <-.
  - destruct (put_print_preflight_hold fresh s) as [s' [[]|]] eqn:Hput; [|done].
    by injection Hb as <- <-.
Qed.

Lemma plan_begin_row apparatus order_id id key actor now control (s : trial_store) hold :
  canonical_keys (st_queue_states s) →
  plan_begin resolver apparatus order_id id key actor now control s = Ok (Fresh hold) →
  hold_previous_queue_state hold = queue_row (st_queue_states s) (hold_apparatus hold) (hold_order_id hold) ∧
  hold_status hold = PS.Running.
Proof.
  intros Hc. unfold plan_begin. intros H. inv_ok.
  destruct (print_preflight_hold_by_idempotency_key _ s); inv_ok; [done|].
  destruct (List.find _ _); inv_ok; [done|].
  simpl.
  match goal with H : apparatus_queue_states _ = Ok _ |- _ =>
    pose proof (read_rows_id _ _ Hc H) as Hl end.
  split; [|done]. unfold queue_row. by rewrite Hl.
Qed.

(** Starting a colour trial puts its order in the state print_preflight,
    and a failed or cancelled trial restores every queue state of every
    apparatus to what it was before the trial began. *)
Theorem failed_trial_restores_queue apparatus order_id id key actor now control s s1 hold
    apparatus' order_id' action expected actor' now' s2 hold' :
  trials_wf (ts_holds s) → canonical_keys (st_queue_states s) →
  ts_holds s !! trim (hold_id hold) = None →
  begin_print_preflight resolver apparatus order_id id key actor now control s = (s1, Ok hold) →
  advance_print_preflight_at_revision apparatus' order_id' (hold_id hold) action expected actor' now' s1 =
    (s2, Ok hold') →
  is_live hold' = false →
  queue_row (st_queue_states s1) (hold_apparatus hold) (hold_order_id hold) = Some "print_preflight" ∧
  ∀ a o, queue_row (st_queue_states s2) a o = queue_row (st_queue_states s) a o.
Proof.
  intros Hwf Hc Hnone Hbegin Hadv Hdead.
  destruct (begin_fresh _ _ _ _ _ _ _ _ _ _ Hwf Hbegin Hnone) as [Hplan Hput].
  destruct (plan_begin_row _ _ _ _ _ _ _ _ _ Hc Hplan) as [Hprev Hrun].
  unfold put_print_preflight_hold in Hput. rewrite Hnone in Hput. simpl in Hput.
  match type of Hput with refresh_orders ?ids ?t = _ => pose proof (refresh_orders_frame ids t) as [Hh Hq] end.
  rewrite Hput in Hh, Hq. simpl in Hh, Hq.
  assert (ts_holds s1 !! trim (hold_id hold) = Some hold) as Hk by (rewrite Hh; apply lookup_insert_eq).
  unfold advance_print_preflight_at_revision in Hadv.
  destruct (plan_advance _ _ _ _ _ _ _ s1) as [[ack|reopened decided]|] eqn:Hp; [| |done];
    apply plan_advance_spec in Hp as (current & Hcur & _ & _ & Hspec);
    rewrite Hk in Hcur; injection Hcur as <-.
  { destruct Hspec as (-> & _). injection Hadv as _ <-. unfold is_live in Hdead. by rewrite Hrun in Hdead. }
  destruct Hspec as (((_ & _ & Eo & Ea & _ & _ & Ep) & _) & _).
  assert (∃ u, (if reopened then reopen_print_preflight_hold decided s1
    else update_print_preflight_hold decided s1) = (s2, Ok u) ∧ decided = hold') as (u & Hw & ->).
  { destruct (if reopened : bool then _ else _) as [s' [u|]]; [|done]. injection Hadv as <- <-. by exists u. }
  destruct reopened.
  { unfold reopen_print_preflight_hold in Hw.
    match type of Hw with match ?x with _ => _ end = _ => destruct x eqn:Hr; [|done] end.
    inv_ok. exfalso. repeat match goal with H : _ || _ = false |- _ => apply orb_false_iff in H as [? ?] end.
    breflect. match goal with H : bool_decide (hold_status hold' = _) = true |- _ =>
      apply bool_decide_eq_true in H; unfold is_live in Hdead; by rewrite H in Hdead end. }
  unfold update_print_preflight_hold in Hw.
  match type of Hw with match ?x with _ => _ end = _ => destruct x; [|done] end.
  match type of Hw with refresh_orders ?ids ?t = _ => pose proof (refresh_orders_frame ids t) as [_ Hq2] end.
  rewrite Hw in Hq2. simpl in Hq2. rewrite Hdead, Ep, Eo, Ea in Hq2.
  assert (∀ a o, queue_row (st_queue_states s1) a o =
    if bool_decide (a = hold_apparatus hold ∧ o = hold_order_id hold) then Some "print_preflight"
    else queue_row (st_queue_states s) a o) as H1 by (intros; rewrite Hq; apply queue_row_set).
  split; [by rewrite H1, bool_decide_eq_true_2|]. intros station order.
  rewrite Hq2, queue_row_set, H1, Hprev. case_bool_decide as Heq; [|done]. by destruct Heq as [-> ->].
Qed.
End facts.
