(* ===== verification/QueueMoves.v ===== *)
(** Queue moves with their receipts: the store that applies a move once, and the two
    service entries that lead to it.

    Models [move_apparatus_sequence] of [memory_store_trait_impl.rs] and of
    [sequence_move.rs], and [set_apparatus_sequence], [reorder_apparatus_sequence] and
    [save_apparatus_sequence] of [queue/service.rs].  The live notifications are not
    modelled; the random key of a legacy move is an argument. *)
From S2P Require Import Prelude RustStr F64 Errors Identity QueueState OrderLayout MapDefinition Formula Compiler Bfs Chain Projection SequenceMove Scheduler Json Progress WipRoute Lifecycle StageExecution OrderRefresh OrderStore Visibility Preflight.

#[global] Instance SequenceMove_eq_dec : EqDecision SequenceMove.
Proof. solve_decision. Defined.

Section moves.
Context `{J : Json} `{C : !RouteCodec} `{R : !ReportCodec} `{V : !VersionHash}.

(** Apparatus, role and reference of the actor, idempotency key. *)
Definition receipt_key : Type := string * string * string * string.

Record move_store := {
  ms_trials :> trial_store;
  ms_receipts : gmap receipt_key (SequenceMove * SequenceMoveResult);
}.
#[global] Instance move_store_rebuild : Rebuild move_store := λ r, {|
  ms_trials := ms_trials r; ms_receipts := ms_receipts r |}.

Definition move_key (command : SequenceMove) (actor : QueueActionActor) : receipt_key :=
  (move_apparatus command, actor_role actor, actor_ref actor, move_idempotency_key command).

Definition with_sequence (apparatus : string) (order_ids : list string) (s : move_store) : move_store :=
  s <| ms_trials := (ms_trials s) <|
       ts_tables := (ts_tables (ms_trials s)) <|
         os_sequences := <[apparatus := order_ids]> (os_sequences (ts_tables (ms_trials s))) |> |> |>.

(** * The store *)

Definition frozen_order_ids (s : order_store) : gset string :=
  list_to_set (fst <$>
    List.filter (λ entry : string * OrderControlRecord,
      bool_decide (control_state entry.2 = OrderControl.Frozen)) (btree_entries (st_order_controls s))).

(** The orders on trial at the apparatus. *)
Definition held_order_ids (apparatus : string) (s : trial_store) : gset string :=
  list_to_set (hold_order_id <$>
    List.filter (λ hold, (hold_apparatus hold =s apparatus) && is_live hold)
      (active_print_preflight_holds s)).

(** [SequenceMoveState::from_data] on the tables. *)
Definition stored_queue (canonical : RuntimeApparatusConfiguration) (stored : list string)
    (states : gmap string string) (held : gset string) (s : order_store) : SequenceMoveState :=
  from_data canonical (btree_values (st_maps s)) stored states (frozen_order_ids s) held.

(** The queue a move of the store is applied to. *)
Definition current_queue (canonical : RuntimeApparatusConfiguration) (apparatus : string)
    (s : trial_store) : pm_result SequenceMoveState :=
  states ← apparatus_queue_states s;
  Ok (stored_queue canonical (default [] (os_sequences s !! apparatus))
        (default ∅ (states !! apparatus)) (held_order_ids apparatus s) s).

Definition with_revision (result : SequenceMoveResult) : SequenceMoveResult :=
  {| result_order_ids := result_order_ids result; result_version := result_version result;
     result_adjusted := result_adjusted result;
     result_revision := if is_some (result_event result) then Some 1%Z else result_revision result;
     result_event := result_event result |}.

Definition commit_move (command : SequenceMove) (actor : QueueActionActor) (result : SequenceMoveResult)
    (s : move_store) : move_store :=
  let s :=
    if is_some (result_event result)
    then with_sequence (move_apparatus command) (result_order_ids result) s else s in
  s <| ms_receipts := <[move_key command actor := (command, with_revision result)]> (ms_receipts s) |>.

Definition move_apparatus_sequence (canonical : RuntimeApparatusConfiguration) (command : SequenceMove)
    (actor : QueueActionActor) (s : move_store) : move_store * run_result SequenceMoveResult :=
  match SequenceMove_validate command with
  | Err e => (s, Err (Fail e))
  | Ok _ =>
      match ms_receipts s !! move_key command actor with
      | Some (previous, result) =>
          (s, if bool_decide (previous = command) then Ok result
              else Err (Fail QueueReorderIdempotencyConflict))
      | None =>
          match (queue ← lift (current_queue canonical (move_apparatus command) s);
                 apply_move queue command) with
          | Err f => (s, Err f)
          | Ok result => (commit_move command actor result s, Ok (with_revision result))
          end
      end
  end.

(** * The service *)

Context (resolver : ApparatusId → pm_result (option RuntimeApparatusConfiguration)).

Definition service_move_apparatus_sequence (command : SequenceMove) (actor : QueueActionActor)
    (s : move_store) : move_store * run_result SequenceMoveResult :=
  match (_ ← SequenceMove_validate command;
         resolve_canonical_apparatus_text resolver (move_apparatus command)) with
  | Err e => (s, Err (Fail e))
  | Ok canonical => move_apparatus_sequence canonical command actor s
  end.

(** The orders on trial at the apparatus, as the service collects them. *)
Definition preflight_order_ids (canonical_id : string) (s : trial_store) : list string :=
  hold_order_id <$>
    List.filter (λ hold, is_live hold && apparatus_ids_match (hold_apparatus hold) canonical_id)
      (active_print_preflight_holds s).

Definition check_known (known visible : list string) (order_id : string) : pm_result unit :=
  _ ← check (negb (bool_decide (order_id ∈ known))) (QueueSequenceOrderNotFound order_id);
  check (negb (bool_decide (order_id ∈ visible))) (QueueSequenceApparatusMismatch order_id).

(** What a save needs of the store. *)
Record save_view := {
  sv_canonical : RuntimeApparatusConfiguration;
  sv_order_ids : list string;
  sv_held : list string;
  sv_current : list string;
  sv_states : gmap string string;
}.

Definition view_for_save (apparatus : string) (order_ids : list string) (moved_order_id : option string)
    (s : trial_store) : pm_result save_view :=
  _ ← check (negb (is_canonical_apparatus_id apparatus)) MissingId;
  let order_ids := List.filter (λ id, negb (is_empty id)) (trim <$> order_ids) in
  let maps := btree_values (st_maps s) in
  let known := List.filter (λ id, negb (is_empty id)) ((λ map, trim (map_id map)) <$> maps) in
  canonical ← resolve_canonical_apparatus_text resolver apparatus;
  let held := preflight_order_ids (config_apparatus_id canonical) s in
  _ ← check (is_none moved_order_id && negb (bool_decide (held = []))) PrintPreflightActive;
  let visible := selected_order_ids_for_apparatus maps canonical in
  _ ← for_each (λ order_id _, check_known known visible order_id) order_ids tt;
  sequences ← apparatus_sequences s;
  states ← apparatus_queue_states s;
  Ok {| sv_canonical := canonical; sv_order_ids := order_ids; sv_held := held;
        sv_current := default [] (sequences !! apparatus);
        sv_states := default ∅ (states !! apparatus) |}.

(** The move a reordered list stands for. *)
Definition legacy_command (apparatus moved : string) (order_ids : list string) (key : string)
    (context : SequenceMoveState) : pm_result SequenceMove :=
  _ ← check (negb (Nat.eqb (size (list_to_set order_ids : gset string)) (length order_ids)))
        QueueActionNotAllowed;
  _ ← check (bool_decide (moved ∈ seq_frozen context)) QueueReorderFrozen;
  let requested := List.filter (λ id, negb (bool_decide (id ∈ seq_frozen context))) order_ids in
  index ← ok_or (position (λ id, id =s moved) requested) QueueActionNotAllowed;
  let before := requested !! S index in
  Ok {| move_apparatus := apparatus;
        move_order_id := moved;
        move_before_order_id := before;
        move_after_order_id :=
          if is_none before && (0 <? index)%nat then requested !! pred index else None;
        move_expected_version := version context;
        move_idempotency_key := "legacy-" +:+ key |}.

Definition legacy_actor : QueueActionActor :=
  {| actor_role := "system"; actor_ref := "legacy-queue-reorder"; actor_display_name := "" |}.

Definition reorder_one (apparatus moved key : string) (view : save_view) (s : move_store)
  : move_store * run_result (list string) :=
  let context := stored_queue (sv_canonical view) (sv_current view) (sv_states view)
                   (list_to_set (sv_held view)) s in
  match legacy_command apparatus moved (sv_order_ids view) key context with
  | Err e => (s, Err (Fail e))
  | Ok command =>
      let '(s, r) := move_apparatus_sequence (sv_canonical view) command legacy_actor s in
      (s, result ← r;
          Ok (result_order_ids result ++
                List.filter (λ id, bool_decide (id ∈ seq_frozen context)) (sv_order_ids view)))
  end.

Definition barrier_states (view : save_view) : gmap string string :=
  foldl (λ states order_id, <[order_id := "print_preflight"]> states) (sv_states view) (sv_held view).

(** [put_apparatus_sequence] of the tables. *)
Definition store_sequence (apparatus : string) (order_ids : list string) (s : move_store)
  : move_store * pm_result unit :=
  let '(tables, r) := put_apparatus_sequence apparatus order_ids (ts_tables (ms_trials s)) in
  (s <| ms_trials := (ms_trials s) <| ts_tables := tables |> |>, r).

Definition replace_list (apparatus : string) (view : save_view) (s : move_store)
  : move_store * run_result (list string) :=
  match validate_active_sequence_barrier (sv_current view) (sv_order_ids view)
          (barrier_states view) (frozen_order_ids s) with
  | Err f => (s, Err f)
  | Ok _ =>
      let '(s, r) := store_sequence apparatus (sv_order_ids view) s in
      (s, _ ← lift r; Ok (sv_order_ids view))
  end.

Definition save_apparatus_sequence (apparatus : string) (order_ids : list string)
    (moved_order_id : option string) (key : string) (s : move_store)
  : move_store * run_result (list string) :=
  let apparatus := trim apparatus in
  match view_for_save apparatus order_ids moved_order_id s with
  | Err e => (s, Err (Fail e))
  | Ok view =>
      match moved_order_id with
      | Some moved => reorder_one apparatus moved key view s
      | None => replace_list apparatus view s
      end
  end.

Definition set_apparatus_sequence (apparatus : string) (order_ids : list string) (key : string)
    (s : move_store) : move_store * run_result unit :=
  let '(s, r) := save_apparatus_sequence apparatus order_ids None key s in
  (s, _ ← r; Ok tt).

Definition reorder_apparatus_sequence (apparatus : string) (order_ids : list string)
    (moved_order_id key : string) : move_store → move_store * run_result (list string) :=
  save_apparatus_sequence apparatus order_ids (Some (trim moved_order_id)) key.
End moves.
