(* ===== verification/QueueMovesFacts.v ===== *)
(** Queue moves: a move is committed once whatever happens between its retries, the
    queue is read back as it was left, and the full lists of old clients are
    translated into moves that the store never refuses as stale or blocked. *)
From S2P Require Import Prelude RustStr F64 Errors Identity QueueState QueueFacts OrderLayout MapDefinition Formula Compiler Bfs Chain Projection SequenceMove SequenceFacts Scheduler Json Progress WipRoute Lifecycle StageExecution OrderRefresh OrderStore Visibility Preflight PreflightFacts QueueMoves.

Section facts.
Context `{J : Json} `{C : !RouteCodec} `{R : !ReportCodec} `{V : !VersionHash}.
Context (resolver : ApparatusId → pm_result (option RuntimeApparatusConfiguration)).

(** * Receipts *)

(** Moves by anyone, list writes, and any write of the other tables. *)
Inductive move_step (s : move_store) : move_store → Prop :=
  | MoveOne canonical command actor : move_step s (move_apparatus_sequence canonical command actor s).1
  | MoveSave apparatus order_ids moved key :
      move_step s (save_apparatus_sequence resolver apparatus order_ids moved key s).1
  | MoveTables trials : move_step s (s <| ms_trials := trials |>).

Definition receipts_kept (s s' : move_store) : Prop :=
  ∀ k v, ms_receipts s !! k = Some v → ms_receipts s' !! k = Some v.

Lemma move_cases canonical command actor s s' res :
  move_apparatus_sequence canonical command actor s = (s', res) →
  (s' = s ∧ ∀ r, res = Ok r → ms_receipts s !! move_key command actor = Some (command, r)) ∨
  (∃ queue r, ms_receipts s !! move_key command actor = None ∧
     SequenceMove_validate command = Ok tt ∧
     current_queue canonical (move_apparatus command) s = Ok queue ∧
     apply_move queue command = Ok r ∧
     s' = commit_move command actor r s ∧ res = Ok (with_revision r)).
Proof.
  unfold move_apparatus_sequence. destruct (SequenceMove_validate command) as [[]|e]; [|intros [= <- <-]; by left].
  destruct (ms_receipts s !! _) as [[previous r]|] eqn:Hk.
  - intros [= <- <-]. left. split; [done|]. intros r'. case_bool_decide; [|done]. intros [= ->]. by subst.
  - destruct (current_queue _ _ _) as [queue|e] eqn:Hq; [|intros [= <- <-]; by left].
    cbn [lift mbind result_bind]. destruct (apply_move queue command) as [r|f] eqn:Hm; intros [= <- <-]; [|by left].
    right. by exists queue, r.
Qed.

Lemma commit_receipts command actor r s :
  ms_receipts (commit_move command actor r s) =
  <[move_key command actor := (command, with_revision r)]> (ms_receipts s).
Proof. unfold commit_move. by destruct (is_some _). Qed.

Lemma move_receipts canonical command actor s :
  receipts_kept s (move_apparatus_sequence canonical command actor s).1.
Proof.
  intros k v Hk. destruct (move_apparatus_sequence canonical command actor s) as [s' res] eqn:H.
  destruct (move_cases _ _ _ _ _ _ H) as [[-> _]|(q & r & Hn & _ & _ & _ & -> & _)]; [done|].
  cbn [fst]. rewrite commit_receipts, lookup_insert_ne; [done|]. intros <-. by rewrite Hk in Hn.
Qed.

Lemma move_step_receipts s s' : move_step s s' → receipts_kept s s'.
Proof.
  intros []; [by apply move_receipts| |by intros ??]. unfold save_apparatus_sequence.
  destruct (view_for_save _ _ _ _ _) as [view|]; [|by intros ??]. destruct moved as [moved|].
  - unfold reorder_one. destruct (legacy_command _ _ _ _ _) as [command|]; [|by intros ??].
    pose proof (move_receipts (sv_canonical view) command legacy_actor s) as Hm.
    by destruct (move_apparatus_sequence _ _ _ _).
  - unfold replace_list. destruct (validate_active_sequence_barrier _ _ _ _); [|by intros ??].
    unfold store_sequence. destruct (put_apparatus_sequence _ _ _). by intros ??.
Qed.

Lemma move_run_receipts s s' : rtc move_step s s' → receipts_kept s s'.
Proof.
  induction 1 as [|s1 s2 s3 Hstep _ IH]; [by intros ??|]. intros k v Hk.
  by eapply IH, move_step_receipts.
Qed.

(** Once a queue move was accepted, repeating it returns the same result
    and changes nothing, whatever moves, list writes and other writes happened
    in between, and another move under the same key is refused with
    QueueReorderIdempotencyConflict. *)
Theorem moves_are_committed_once canonical command actor s s1 r s2 :
  move_apparatus_sequence canonical command actor s = (s1, Ok r) → rtc move_step s1 s2 →
  (∀ canonical' actor', actor_role actor' = actor_role actor → actor_ref actor' = actor_ref actor →
     move_apparatus_sequence canonical' command actor' s2 = (s2, Ok r)) ∧
  (∀ canonical' command', SequenceMove_validate command' = Ok tt → command' ≠ command →
     move_key command' actor = move_key command actor →
     move_apparatus_sequence canonical' command' actor s2 =
       (s2, Err (Fail QueueReorderIdempotencyConflict))).
Proof.
  intros Hmove Hrun. assert (SequenceMove_validate command = Ok tt) as Hv.
  { unfold move_apparatus_sequence in Hmove. by destruct (SequenceMove_validate command) as [[]|]. }
  assert (ms_receipts s2 !! move_key command actor = Some (command, r)) as Hk.
  { apply (move_run_receipts _ _ Hrun).
    destruct (move_cases _ _ _ _ _ _ Hmove) as [[-> H]|(q & r' & _ & _ & _ & _ & -> & [= ->])].
    - by apply H.
    - rewrite commit_receipts. apply lookup_insert_eq. }
  split.
  - intros canonical' actor' Er Ef. unfold move_apparatus_sequence. rewrite Hv.
    replace (move_key command actor') with (move_key command actor)
      by (unfold move_key; by rewrite Er, Ef).
    rewrite Hk. by rewrite bool_decide_eq_true_2.
  - intros canonical' command' Hv' Hne Ek. unfold move_apparatus_sequence. rewrite Hv', Ek, Hk.
    by rewrite bool_decide_eq_false_2 by congruence.
Qed.

(** * Reading the queue back *)

Lemma sublist_full {A} (l k : list A) : l `sublist_of` k → length k ≤ length l → l = k.
Proof.
  induction 1 as [|x l k Hs IH|x l k Hs IH]; intros Hl; simpl in *; [done|f_equal; apply IH; lia|].
  apply sublist_length in Hs. lia.
Qed.

(** A sequence of exactly the orders of the queue is kept as it is. *)
Lemma effective_sequence_id seq visible excluded :
  NoDup seq → (∀ x, x ∈ seq ↔ eligible visible excluded x) →
  effective_apparatus_sequence_excluding seq visible excluded = seq.
Proof.
  intros Hnd Hin.
  destruct (effective_sequence_spec seq visible excluded) as (Hnd' & Hin' & placed & added & Heq & Hsub & _ & Hpl).
  cbv zeta in *. set (result := effective_apparatus_sequence_excluding seq visible excluded) in *.
  assert (trim <$> seq = seq) as Ht.
  { rewrite <-(list_fmap_id seq) at 2. apply list_fmap_ext. intros i x Hx.
    eapply eligible_trimmed, Hin. by eapply list_elem_of_lookup_2. }
  rewrite Ht in *. assert (added = []) as ->.
  { destruct added as [|x added]; [done|]. exfalso. rewrite Heq in Hnd'. apply NoDup_app in Hnd' as (_ & Hd & _).
    assert (x ∈ result) as Hx by (rewrite Heq; apply elem_of_app; right; by left).
    apply Hin' in Hx. apply (Hd x); [|by left]. apply Hpl. split; [done|]. by apply Hin. }
  rewrite app_nil_r in Heq. rewrite Heq. apply sublist_full; [done|]. apply Nat.eq_le_incl.
  apply Permutation_length, NoDup_Permutation; [done|by rewrite <-Heq|].
  intros x. rewrite <-Heq, Hin', Hin. done.
Qed.

Lemma foldl_insert_fn {A} (f : string → A) ids (m : gmap string A) k :
  foldl (λ m id, <[id := f id]> m) m ids !! k = if bool_decide (k ∈ ids) then Some (f k) else m !! k.
Proof.
  revert m. induction ids as [|id ids IH]; intros m; [done|]. cbn [foldl]. rewrite IH.
  destruct (decide (k = id)) as [->|Hne].
  - rewrite lookup_insert_eq. rewrite (bool_decide_eq_true_2 (id ∈ id :: ids)) by by left. by case_match.
  - rewrite lookup_insert_ne by done.
    by rewrite (bool_decide_ext (k ∈ id :: ids) (k ∈ ids)) by (rewrite elem_of_cons; naive_solver).
Qed.

Lemma from_visible_again apparatus visible stored raw frozen held order_ids :
  let queue := from_visible apparatus visible stored raw frozen held in
  order_ids ≡ₚ seq_order_ids queue →
  from_visible apparatus visible order_ids raw frozen held = with_order_ids queue order_ids.
Proof.
  intros queue Hp. pose proof (from_visible_wf apparatus visible stored raw frozen held) as Hwf.
  fold queue in Hwf. unfold from_visible in queue |- *. set (fr := list_to_set _ : gset string) in *.
  assert (effective_apparatus_sequence_excluding order_ids visible fr = order_ids) as Hid.
  { apply effective_sequence_id; [rewrite Hp; apply Hwf|]. intros x. rewrite Hp. subst queue. simpl.
    apply effective_sequence_spec. }
  unfold with_order_ids. rewrite Hid. f_equal. apply map_eq. intros k.
  rewrite (foldl_insert_fn (λ id, if bool_decide (id ∈ held) then "print_preflight"
    else default "pending" (raw !! id)) order_ids).
  rewrite (bool_decide_ext (k ∈ order_ids) (k ∈ seq_order_ids queue)) by (by rewrite Hp).
  symmetry. apply foldl_insert_fn.
Qed.
(** What an accepted move is: the moved order put back at one place of the queue. *)
Lemma accepted_move queue command r :
  wf_state queue → apply_move queue command = Ok r →
  result_order_ids r ≡ₚ seq_order_ids queue ∧
  List.filter (λ x, x <>s move_order_id command) (result_order_ids r) =
    List.filter (λ x, x <>s move_order_id command) (seq_order_ids queue) ∧
  result_version r = version (with_order_ids queue (result_order_ids r)) ∧
  result_revision r = None ∧
  (is_some (result_event r) = false ↔ result_order_ids r = seq_order_ids queue).
Proof.
  intros Hwf Hr.
  destruct (apply_move_guards queue command r Hr) as (o & target & Hv & Hap & Hfr & Hver & Hpos & Htar).
  destruct (apply_move_cases queue Hwf command o target) as (i & r' & Hi & Hr' & Hids & _ & Hvn & Hev); try done.
  assert (r' = r) as -> by congruence. apply index_of in Hpos as Ho; [|apply Hwf].
  assert (result_revision r = None) as Hrev.
  { clear -Hr. unfold apply_move in Hr. inv_ok. repeat case_match; inv_ok; done. }
  split_and!; [|  |exact Hvn|exact Hrev|].
  - rewrite Hids. by apply candidate_perm.
  - rewrite Hids, insert_at_other by (by eapply remaining_fresh; try apply Hwf).
    by rewrite (delete_filter _ o) by (done || apply Hwf).
  - pose proof (delta_replays (seq_order_ids queue) _ o i (state_nodup _ Hwf) Ho Hi) as Hd.
    rewrite <-Hids in Hd. rewrite Hev.
    destruct (compute_canonical_sequence_delta (seq_order_ids queue) (result_order_ids r)
      (move_order_id command)) as [op|] eqn:Hop; simpl; [|by split].
    split; [done|]. intros E. unfold compute_canonical_sequence_delta in Hop.
    by rewrite bool_decide_eq_true_2 in Hop by done.
Qed.

Lemma current_queue_wf canonical apparatus s queue :
  current_queue canonical apparatus s = Ok queue → wf_state queue.
Proof. unfold current_queue. intros H. inv_ok. apply from_visible_wf. Qed.

(** A queue depends on the sequence only through its own row. *)
Lemma current_queue_sequence canonical apparatus a order_ids (s : move_store) :
  current_queue canonical a (with_sequence apparatus order_ids s) =
  (states ← apparatus_queue_states s;
   Ok (stored_queue canonical (default [] (<[apparatus := order_ids]> (os_sequences s) !! a))
         (default ∅ (states !! a)) (held_order_ids a s) s)).
Proof. done. Qed.

Lemma commit_queue command actor r (s : move_store) canonical a :
  current_queue canonical a (commit_move command actor r s) =
  if is_some (result_event r)
  then current_queue canonical a (with_sequence (move_apparatus command) (result_order_ids r) s)
  else current_queue canonical a s.
Proof. unfold commit_move. by destruct (is_some _). Qed.

Lemma committed_queue canonical command actor (s : move_store) queue r :
  current_queue canonical (move_apparatus command) s = Ok queue → apply_move queue command = Ok r →
  current_queue canonical (move_apparatus command) (commit_move command actor r s) =
    Ok (with_order_ids queue (result_order_ids r)).
Proof.
  intros Hq Ha.
  destruct (accepted_move queue command r (current_queue_wf _ _ _ _ Hq) Ha) as (Hp & _ & _ & _ & Hev).
  rewrite commit_queue. destruct (is_some (result_event r)) eqn:He.
  - rewrite current_queue_sequence, lookup_insert_eq. unfold current_queue in Hq.
    destruct (apparatus_queue_states s) as [states|]; [|done]. cbn [mbind result_bind] in Hq |- *.
    injection Hq as <-. f_equal. by apply from_visible_again.
  - rewrite Hq. f_equal. rewrite (proj1 Hev eq_refl). by destruct queue.
Qed.

(** The queue read back after a new move is the old one with exactly the
    orders of the answer, so the answered version is the one the next move must
    name; a revision is answered exactly when the order changed, and the queues
    of other apparatuses stay as they were. *)
Theorem committed_move_is_read_back canonical command actor s s' r :
  move_apparatus_sequence canonical command actor s = (s', Ok r) →
  ms_receipts s !! move_key command actor = None →
  ∃ queue, current_queue canonical (move_apparatus command) s = Ok queue ∧
    current_queue canonical (move_apparatus command) s' =
      Ok (with_order_ids queue (result_order_ids r)) ∧
    result_version r = version (with_order_ids queue (result_order_ids r)) ∧
    result_order_ids r ≡ₚ seq_order_ids queue ∧
    (result_revision r = None ↔ result_order_ids r = seq_order_ids queue) ∧
    ∀ canonical' a, a ≠ move_apparatus command →
      current_queue canonical' a s' = current_queue canonical' a s.
Proof.
  intros Hmove Hnone.
  destruct (move_cases _ _ _ _ _ _ Hmove) as [[_ H]|(queue & r0 & _ & Hv & Hq & Ha & -> & [= ->])].
  { by rewrite (H r eq_refl) in Hnone. }
  exists queue. destruct (accepted_move queue command r0 (current_queue_wf _ _ _ _ Hq) Ha)
    as (Hp & _ & Hver & Hrev & Hev).
  cbn [with_revision result_order_ids result_version result_revision].
  split_and!; [done| |done|done| |].
  - by apply committed_queue.
  - destruct (is_some (result_event r0)) eqn:He; [|naive_solver]. split; [done|]. intros E.
    by apply Hev in E.
  - intros canonical' a Hne. rewrite commit_queue. destruct (is_some (result_event r0)); [|done].
    rewrite current_queue_sequence, lookup_insert_ne by done. done.
Qed.
(** * Lists of old clients *)

(** A version is the lower-case hexadecimal SHA-256 of the serialized queue. *)
Definition version_hex : Prop :=
  ∀ queue, String.length (version queue) = 64 ∧ all_bytes is_ascii_hexdigit (version queue) = true.

(** The random key of a legacy move: 32 hexadecimal digits. *)
Definition random_key (key : string) : Prop :=
  String.length key = 32 ∧ all_bytes is_ascii_hexdigit key = true.

Lemma legacy_key_valid key :
  random_key key → blank ("legacy-" +:+ key) = false ∧ String.length ("legacy-" +:+ key) = 39.
Proof.
  intros [Hlen Hhex]. split; [|by rewrite append_length, Hlen].
  unfold blank. rewrite trim_graphic; [done|]. simpl. apply (all_bytes_impl is_ascii_hexdigit); [|done].
  intros [[] [] [] [] [] [] [] []]; done.
Qed.

Lemma trials_valid (s : trial_store) hold :
  trials_wf (ts_holds s) → hold ∈ active_print_preflight_holds s →
  ApparatusId_is_valid (hold_apparatus hold) = true ∧ is_live hold = true.
Proof.
  intros [Hwf _] [Hin Hl]%filterb_elem. apply elem_of_btree_values in Hin as [k Hk].
  split; [|done]. by destruct (Hwf k hold Hk).
Qed.

(** The service and the store see the same orders on trial. *)
Lemma held_orders_agree apparatus (s : trial_store) :
  trials_wf (ts_holds s) → ApparatusId_is_valid apparatus = true →
  list_to_set (preflight_order_ids apparatus s) = held_order_ids apparatus s.
Proof.
  intros Hwf Hv. apply set_eq. intros id. unfold preflight_order_ids, held_order_ids.
  rewrite !elem_of_list_to_set, !list_elem_of_fmap. f_equiv. intros hold. f_equiv. rewrite !filterb_elem.
  split; intros [Hin Hm]; (split; [done|]); destruct (trials_valid s hold Hwf Hin) as [Hh Hl];
    rewrite Hl in Hm |- *; apply andb_true_iff in Hm as [H1 H2].
  - apply apparatus_ids_match_spec in H2 as [H2 _]. rewrite !valid_id_trim in H2 by done. rewrite andb_true_r.
    by apply String.eqb_eq.
  - apply String.eqb_eq in H1. rewrite H1. simpl. by apply valid_ids_match.
Qed.

Lemma selected_orders_trimmed maps canonical id :
  id ∈ selected_order_ids_for_apparatus maps canonical → trim id = id ∧ id ≠ "".
Proof.
  assert (∀ apparatus, id ∈ visible_order_ids_for_apparatus maps apparatus → trim id = id ∧ id ≠ "") as Hv.
  { intros apparatus. unfold visible_order_ids_for_apparatus.
    destruct (negb _); [by intros ?%elem_of_nil|]. intros [(m & -> & _)%list_elem_of_fmap H]%filterb_elem.
    split; [apply trim_idemp|]. by intros E; rewrite E in H. }
  unfold selected_order_ids_for_apparatus, retain_selected_print_orders.
  destruct (negb _); [apply Hv|]. intros [H _]%filterb_elem. by eapply Hv.
Qed.

(** A listed order that is not frozen is in the queue. *)
Lemma listed_order_queued apparatus visible stored raw frozen held id :
  let queue := from_visible apparatus visible stored raw frozen held in
  (∀ x, x ∈ visible → trim x = x ∧ x ≠ "") → id ∈ visible → id ∉ seq_frozen queue →
  id ∈ seq_order_ids queue.
Proof.
  intros queue Ht Hid Hf. apply effective_sequence_spec. split.
  - apply filterb_elem. destruct (Ht id Hid) as [E Hne]. split; [apply list_elem_of_fmap; by exists id|].
    by destruct id.
  - intros [(x & -> & Hx)%list_elem_of_fmap _]%filterb_elem. apply Hf. apply elem_of_elements in Hx.
    apply elem_of_list_to_set, filterb_elem in Hx as Hx'. destruct Hx' as [Hvis _].
    rewrite (proj1 (Ht x Hvis)). by apply elem_of_list_to_set.
Qed.

Section legacy.
Context (queue : SequenceMoveState) (apparatus moved key : string) (order_ids : list string).
Context (Hver : version_hex) (Hap : is_canonical_apparatus_id apparatus = true).
Context (Hkey : random_key key) (Hwf : wf_state queue).
Context (Hids : ∀ x, x ∈ order_ids → trim x = x ∧ x ≠ "").
Context (Hnd : NoDup order_ids) (Hmoved : moved ∈ order_ids) (Hfree : moved ∉ seq_frozen queue).
Context (Hqueued : ∀ x, x ∈ order_ids → x ∉ seq_frozen queue → x ∈ seq_order_ids queue).

Lemma legacy_anchor_valid x :
  x ∈ order_ids → x ≠ moved → anchor_invalid moved x = false.
Proof using Hids.
  intros Hx Hne. destruct (Hids x Hx) as [E Hn]. unfold anchor_invalid, blank. rewrite E.
  rewrite !orb_false_iff. split_and!; [by destruct x|by rewrite String.eqb_refl|by apply String.eqb_neq].
Qed.

Lemma legacy_command_spec :
  ∃ command, legacy_command apparatus moved order_ids key queue = Ok command ∧
    SequenceMove_validate command = Ok tt ∧ move_apparatus command = apparatus ∧
    move_order_id command = moved ∧ move_expected_version command = version queue ∧
    move_idempotency_key command = "legacy-" +:+ key ∧
    ∀ original, seq_order_ids queue !! original = Some moved →
      ∃ target, requested_target command (delete original (seq_order_ids queue)) = Ok target.
Proof using All.
  unfold legacy_command. rewrite size_list_to_set by done. rewrite Nat.eqb_refl. cbn [negb check].
  rewrite bool_decide_eq_false_2 by done. cbn [check mbind result_bind].
  set (requested := List.filter _ order_ids).
  assert (∀ x, x ∈ requested ↔ x ∈ order_ids ∧ x ∉ seq_frozen queue) as Hreq.
  { intros x. unfold requested. rewrite filterb_elem. by rewrite negb_true_iff, bool_decide_eq_false. }
  assert (NoDup requested) as Hndr by (by apply filterb_NoDup).
  assert (moved ∈ requested) as [index Hi]%list_elem_of_lookup by (by apply Hreq).
  rewrite (proj2 (index_of requested index moved Hndr) Hi). cbn [ok_or mbind result_bind].
  assert (∀ j x, requested !! j = Some x → j ≠ index →
    x ∈ order_ids ∧ x ≠ moved ∧ x ∈ seq_order_ids queue) as Hother.
  { intros j x Hj Hne. apply list_elem_of_lookup_2 in Hj as Hx. apply Hreq in Hx as [Hx Hf].
    split_and!; [done| |by apply Hqueued]. intros ->. by apply Hne, (NoDup_lookup requested j index moved). }
  set (before := requested !! S index).
  set (after := if is_none before && (0 <? index) then requested !! pred index else None).
  assert (∀ x, x ∈ option_list before ++ option_list after →
    x ∈ order_ids ∧ x ≠ moved ∧ x ∈ seq_order_ids queue) as Hanchor.
  { intros x. destruct before as [b|] eqn:Hb; simpl.
    - intros ->%list_elem_of_singleton. apply (Hother (S index)); [done|lia].
    - destruct (0 <? index) eqn:Hpos; subst after; simpl; [|by intros ?%elem_of_nil].
      apply Nat.ltb_lt in Hpos. destruct (requested !! pred index) as [a|] eqn:Ha; simpl;
        [|by intros ?%elem_of_nil].
      intros ->%list_elem_of_singleton. apply (Hother (pred index)); [done|lia]. }
  eexists. split; [done|]. cbn [move_apparatus move_order_id move_before_order_id move_after_order_id
    move_expected_version move_idempotency_key]. split_and!; try done.
  - unfold SequenceMove_validate. cbn [move_apparatus move_order_id move_before_order_id
      move_after_order_id move_expected_version move_idempotency_key].
    destruct (Hver queue) as [Hlen Hhex]. destruct (Hids moved Hmoved) as [Ht Hne].
    destruct (legacy_key_valid key Hkey) as [Hb Hl].
    match goal with |- (if ?b then _ else _) = _ => assert (b = false) as ->; [|done] end.
    rewrite Hap, Hlen, Hhex, Hb, Hl. unfold blank. rewrite Ht, String.eqb_refl.
    destruct (is_empty moved) eqn:He; [by destruct moved|]. cbn [negb orb Nat.eqb].
    apply orb_false_iff. split; [by destruct before|]. apply existsb_false. intros x Hx.
    by destruct (Hanchor x Hx) as (? & ? & _); apply legacy_anchor_valid.
  - intros original Ho. pose proof (remaining_index (seq_order_ids queue) moved original
      (state_trimmed _ Hwf) (state_nodup _ Hwf) Ho) as Hrem.
    unfold requested_target. cbn [move_before_order_id move_after_order_id]. fold before after.
    destruct before as [b|]; [|destruct after as [a|]]; simpl in Hanchor |- *; [| |by eexists].
    + destruct (Hanchor b) as (_ & Hne & Hin); [by left|]. destruct (Hrem b Hin Hne) as [i ->]. by exists i.
    + destruct (Hanchor a) as (_ & Hne & Hin); [by left|]. destruct (Hrem a Hin Hne) as [i ->]. by exists (S i).
Qed.
End legacy.
Lemma check_known_ok known visible order_ids :
  for_each (λ order_id _, check_known known visible order_id) order_ids tt = Ok tt →
  ∀ id, id ∈ order_ids → id ∈ visible.
Proof.
  induction order_ids as [|id0 order_ids IH]; [by intros _ id ?%elem_of_nil|].
  cbn [for_each]. intros H. apply bind_Ok in H as ([] & Hc & H). unfold check_known in Hc.
  apply bind_Ok in Hc as (_ & _ & Hc). apply check_Ok, negb_false_iff, bool_decide_eq_true in Hc.
  intros id [->|?]%elem_of_cons; [done|by apply IH].
Qed.

(** What the checks of a save establish. *)
Lemma view_for_save_spec apparatus order_ids moved (s : trial_store) view :
  canonical_keys (os_sequences s) → view_for_save resolver apparatus order_ids moved s = Ok view →
  is_canonical_apparatus_id apparatus = true ∧ trim apparatus = config_apparatus_id (sv_canonical view) ∧
  ApparatusId_is_valid (config_apparatus_id (sv_canonical view)) = true ∧
  (∀ id, id ∈ sv_order_ids view →
     id ∈ selected_order_ids_for_apparatus (btree_values (st_maps s)) (sv_canonical view)) ∧
  sv_held view = preflight_order_ids (config_apparatus_id (sv_canonical view)) s ∧
  sv_current view = default [] (os_sequences s !! apparatus) ∧
  ∃ states, apparatus_queue_states s = Ok states ∧ sv_states view = default ∅ (states !! apparatus).
Proof.
  intros Hc Hview. unfold view_for_save in Hview. inv_ok. simpl. breflect.
  match goal with H : resolve_canonical_apparatus_text _ _ = Ok ?c |- _ =>
    destruct (resolve_canonical_id resolver _ _ H) as [E Hv] end.
  match goal with H : apparatus_sequences _ = Ok _ |- _ => rewrite (read_rows_id _ _ Hc H) end.
  split_and!; try done; by eauto using check_known_ok.
Qed.

(** C33: The full list an old client submits is translated into a move the store
    always accepts: for a checked list without repetitions that contains the
    moved, unfrozen order, the request is never stale, blocked or invalid, and
    leaves a permutation of the queue in which the other orders keep their
    relative order. A version is assumed to be 64 hexadecimal digits. *)
Theorem legacy_reorder_succeeds apparatus order_ids moved key (s : move_store) view queue :
  version_hex → random_key key →
  trials_wf (ts_holds s) → canonical_keys (os_sequences s) →
  ms_receipts s !! (trim apparatus, "system", "legacy-queue-reorder", "legacy-" +:+ key) = None →
  view_for_save resolver (trim apparatus) order_ids (Some (trim moved)) s = Ok view →
  current_queue (sv_canonical view) (trim apparatus) s = Ok queue →
  NoDup (sv_order_ids view) → trim moved ∈ sv_order_ids view → trim moved ∉ seq_frozen queue →
  ∃ s' ids,
    reorder_apparatus_sequence resolver apparatus order_ids moved key s =
      (s', Ok (ids ++ List.filter (λ id, bool_decide (id ∈ seq_frozen queue)) (sv_order_ids view))) ∧
    ids ≡ₚ seq_order_ids queue ∧
    List.filter (λ x, x <>s trim moved) ids = List.filter (λ x, x <>s trim moved) (seq_order_ids queue) ∧
    current_queue (sv_canonical view) (trim apparatus) s' = Ok (with_order_ids queue ids).
Proof.
  intros Hver Hkey Hwf Hseq Hnone Hview Hqueue Hnd Hin Hfree.
  destruct (view_for_save_spec _ _ _ _ _ Hseq Hview)
    as (Hcan & Hid & Hvalid & Hvis & Hheld & Hcur & states & Hstates & Hrows).
  rewrite trim_idemp in Hid.
  assert (stored_queue (sv_canonical view) (sv_current view) (sv_states view)
    (list_to_set (sv_held view)) s = queue) as Hctx.
  { unfold current_queue in Hqueue. rewrite Hstates in Hqueue. cbn [mbind result_bind] in Hqueue.
    injection Hqueue as <-. rewrite Hheld, Hcur, Hrows, held_orders_agree by done. by rewrite Hid. }
  assert (wf_state queue) as Hqwf by (by eapply current_queue_wf).
  assert (seq_apparatus queue = trim apparatus) as Hqa by (by rewrite <-Hctx, Hid).
  assert (∀ x, x ∈ sv_order_ids view → x ∉ seq_frozen queue → x ∈ seq_order_ids queue) as Hqueued.
  { intros x Hx. rewrite <-Hctx. apply listed_order_queued; [|by apply Hvis].
    intros y. apply selected_orders_trimmed. }
  destruct (legacy_command_spec queue (trim apparatus) (trim moved) key (sv_order_ids view))
    as (command & Hcmd & Hcv & Hca & Hco & Hce & Hck & Htarget); try done.
  { intros x Hx. eapply selected_orders_trimmed. by apply Hvis. }
  pose proof (Hqueued (trim moved) Hin Hfree) as [original Ho]%list_elem_of_lookup.
  destruct (Htarget original Ho) as [target Ht].
  destruct (apply_move_cases queue Hqwf command original target) as (i & r & _ & Hr & _);
    rewrite ?Hca, ?Hco, ?Hqa; try done.
  { by apply index_of; [apply Hqwf|]. }
  assert (move_apparatus_sequence (sv_canonical view) command legacy_actor s =
    (commit_move command legacy_actor r s, Ok (with_revision r))) as Hmove.
  { unfold move_apparatus_sequence. rewrite Hcv.
    assert (ms_receipts s !! move_key command legacy_actor = None) as ->
      by (unfold move_key; rewrite Hca, Hck; exact Hnone).
    rewrite Hca, Hqueue. cbn [lift mbind result_bind]. by rewrite Hr. }
  destruct (accepted_move queue command r Hqwf Hr) as (Hp & Hf & _). rewrite Hco in Hf.
  eexists _, (result_order_ids r). split_and!; [|done|done|].
  - unfold reorder_apparatus_sequence, save_apparatus_sequence. rewrite Hview. unfold reorder_one.
    rewrite Hctx, Hcmd, Hmove. done.
  - rewrite <-Hca in Hqueue. rewrite <-Hca. by apply committed_queue.
Qed.
End facts.
