(* ===== verification/Epc.v ===== *)
(** EPC codes of printed labels.

    Models [crates/mini_rs_gscale_domain/src/epc.rs], the generator of label
    identities, with [normalize_client_epc] of [service/print.rs], which accepts
    the codes a client reports back.  Machine integers are [Z] with their wrap
    written out; the generator's mutex makes a call atomic, so its state is
    threaded. *)
From Stdlib Require Import Ascii SpecFloat.
From S2P Require Import Prelude RustStr F64 Json.

Local Open Scope Z_scope.

(** * Formatting *)

Definition u32_mask : Z := 2 ^ 32 - 1.

(** [u32::rotate_left]. *)
Definition rotate_left (x k : Z) : Z :=
  Z.land (Z.lor (Z.shiftl x k) (Z.shiftr x (32 - k))) u32_mask.

Definition hex_digit (n : Z) : ascii :=
  Ascii.ascii_of_N (Z.to_N (if n <? 10 then 48 + n else 55 + n)).

(** [{:0nX}] on a value of at most [n] digits. *)
Fixpoint hex_upper (n : nat) (v : Z) : string :=
  match n with
  | O => ""
  | S n => hex_upper n (v / 16) +:+ String (hex_digit (v mod 16)) ""
  end.

Definition epc_time (ns : Z) : Z := Z.land (ns mod 2 ^ 64) (2 ^ 56 - 1).

Definition epc_tail (ns seq salt : Z) : Z :=
  let atom := Z.land (ns mod 2 ^ 64 / 1000) u32_mask in
  let tail := Z.lxor (Z.lxor (Z.lxor atom (rotate_left (ns mod 2 ^ 32) 13)) (rotate_left seq 7)) salt in
  Z.lor tail 1.

Definition format_epc_24 (ns seq salt : Z) : string :=
  "30" +:+ hex_upper 14 (epc_time ns) +:+ hex_upper 8 (epc_tail ns seq salt).

(** * The generator *)

Record EpcState := {
  epc_last_ns : Z;
  epc_seq : Z;
  epc_salt : Z;
}.

Definition with_salt (salt : Z) : EpcState :=
  {| epc_last_ns := 0; epc_seq := 0; epc_salt := Z.lor salt 1 |}.

Definition next_at_unix_ns (state : EpcState) (ns : Z) : EpcState * string :=
  let state :=
    if negb (ns =? epc_last_ns state)
    then {| epc_last_ns := ns; epc_seq := 0; epc_salt := epc_salt state |}
    else {| epc_last_ns := epc_last_ns state; epc_seq := (epc_seq state + 1) mod 2 ^ 32;
            epc_salt := epc_salt state |} in
  (state, format_epc_24 ns (epc_seq state) (epc_salt state)).

(** The codes handed out at the given clock readings. *)
Fixpoint epcs (state : EpcState) (clock : list Z) : list string :=
  match clock with
  | [] => []
  | ns :: clock => let '(state, epc) := next_at_unix_ns state ns in epc :: epcs state clock
  end.

(** * Codes reported by clients *)

Definition ascii_upper (a : ascii) : ascii :=
  if is_ascii_lowercase a then Ascii.ascii_of_N (byte_of a - 32) else a.
Fixpoint to_ascii_uppercase (s : string) : string :=
  match s with
  | EmptyString => EmptyString
  | String a s => String (ascii_upper a) (to_ascii_uppercase s)
  end.

Definition normalize_client_epc (value : string) : result string string :=
  let epc := to_ascii_uppercase (trim value) in
  if negb (String.length epc =? 24)%nat || negb (starts_with epc "30") ||
     negb (all_bytes is_ascii_hexdigit epc)
  then Err "client_print_epc_invalid" else Ok epc.

(** * Hexadecimal digits *)

Lemma length_append (a b : string) : (String.length (a +:+ b) = String.length a + String.length b)%nat.
Proof. induction a as [|c a IH]; [done|]. unfold String.append. simpl. f_equal. exact IH. Qed.

Lemma append_inj (a a' b b' : string) :
  String.length a = String.length a' → a +:+ b = a' +:+ b' → a = a' ∧ b = b'.
Proof.
  revert a'. induction a as [|c a IH]; intros [|c' a'] Hl; try done.
  intros [= <- H]. injection Hl as Hl. destruct (IH a' Hl H) as [-> ->]. done.
Qed.

Lemma hex_upper_length n v : String.length (hex_upper n v) = n.
Proof. revert v. induction n as [|n IH]; intros v; [done|]. simpl. rewrite length_append, IH. simpl. lia. Qed.

(** The sixteen digits, by computation. *)
Lemma hex_digit_cases n : 0 <= n < 16 →
  hex_digit n ∈ ((λ k, hex_digit (Z.of_nat k)) <$> seq 0 16).
Proof.
  intros Hn. apply list_elem_of_fmap. exists (Z.to_nat n). rewrite Z2Nat.id by lia.
  split; [done|]. apply elem_of_seq. lia.
Qed.

Lemma hex_digit_good n : 0 <= n < 16 →
  is_ascii_hexdigit (hex_digit n) = true ∧ ascii_upper (hex_digit n) = hex_digit n ∧
  graphic (hex_digit n) = true.
Proof.
  intros Hn%hex_digit_cases. revert Hn. generalize (hex_digit n). intros a.
  vm_compute (_ <$> _). rewrite !elem_of_cons, elem_of_nil. naive_solver.
Qed.

Lemma hex_digit_inj m n : 0 <= m < 16 → 0 <= n < 16 → hex_digit m = hex_digit n → m = n.
Proof.
  intros Hm Hn Heq. apply (f_equal Ascii.N_of_ascii) in Heq. unfold hex_digit in Heq.
  rewrite !N_ascii_embedding in Heq by (repeat case_match; lia).
  destruct (Z.ltb_spec m 10), (Z.ltb_spec n 10); lia.
Qed.

Lemma hex_upper_inj n v w :
  0 <= v < 16 ^ Z.of_nat n → 0 <= w < 16 ^ Z.of_nat n → hex_upper n v = hex_upper n w → v = w.
Proof.
  revert v w. induction n as [|n IH]; intros v w Hv Hw; [simpl in *; lia|].
  intros [H1 H2]%append_inj; [|by rewrite !hex_upper_length]. injection H2 as H2.
  rewrite Nat2Z.inj_succ, Z.pow_succ_r in Hv, Hw by lia.
  apply hex_digit_inj in H2; [|apply Z.mod_pos_bound; lia..].
  apply IH in H1; [|split; [apply Z.div_pos; lia|apply Z.div_lt_upper_bound; lia]..].
  rewrite (Z.div_mod v 16), (Z.div_mod w 16) by lia. congruence.
Qed.

Lemma to_upper_append a b : to_ascii_uppercase (a +:+ b) = to_ascii_uppercase a +:+ to_ascii_uppercase b.
Proof. induction a as [|c a IH]; [done|]. unfold String.append. simpl. f_equal. exact IH. Qed.

Lemma hex_upper_good n v :
  0 <= v → to_ascii_uppercase (hex_upper n v) = hex_upper n v ∧
  all_bytes is_ascii_hexdigit (hex_upper n v) = true ∧ all_bytes graphic (hex_upper n v) = true.
Proof.
  revert v. induction n as [|n IH]; intros v Hv; [done|].
  destruct (IH (v / 16)) as (H1 & H2 & H3); [apply Z.div_pos; lia|].
  destruct (hex_digit_good (v mod 16)) as (D1 & D2 & D3); [apply Z.mod_pos_bound; lia|].
  cbn [hex_upper]. rewrite to_upper_append, !all_bytes_append, H1, H2, H3. simpl. by rewrite D1, D2, D3.
Qed.

(** * The parts of a code *)

Lemma epc_time_bounds ns : 0 <= epc_time ns < 16 ^ Z.of_nat 14.
Proof.
  unfold epc_time. change (2 ^ 56 - 1) with (Z.ones 56). rewrite Z.land_ones by lia.
  change (16 ^ Z.of_nat 14) with (2 ^ 56). apply Z.mod_pos_bound. lia.
Qed.

Lemma u32_mask_mod x : Z.land x u32_mask = x mod 2 ^ 32.
Proof. unfold u32_mask. change (2 ^ 32 - 1) with (Z.ones 32). by rewrite Z.land_ones by lia. Qed.

(** Bounds of bit operations below [2 ^ 32]: by the bit above. *)
Lemma below_pow2 x n : 0 <= n → 0 <= x → (∀ i, n <= i → Z.testbit x i = false) → x < 2 ^ n.
Proof.
  intros Hn Hx Hb. destruct (Z.eq_dec x 0) as [->|Hne]; [apply Z.pow_pos_nonneg; lia|].
  apply Z.log2_lt_pow2; [lia|]. apply Z.lt_nge. intros Hge.
  pose proof (Hb (Z.log2 x) Hge) as Hf. rewrite Z.bit_log2 in Hf by lia. done.
Qed.

Lemma testbit_above x n i : 0 <= x < 2 ^ n → n <= i → Z.testbit x i = false.
Proof.
  intros Hx Hi. destruct (Z.eq_dec x 0) as [->|Hne]; [apply Z.bits_0|].
  apply Z.bits_above_log2; [lia|]. apply Z.lt_le_trans with n; [|done].
  apply Z.log2_lt_pow2; lia.
Qed.

Lemma lxor_bounds x y : 0 <= x < 2 ^ 32 → 0 <= y < 2 ^ 32 → 0 <= Z.lxor x y < 2 ^ 32.
Proof.
  intros Hx Hy. assert (0 <= Z.lxor x y) by (apply Z.lxor_nonneg; lia). split; [done|].
  apply below_pow2; [lia|done|]. intros i Hi. rewrite Z.lxor_spec.
  by rewrite (testbit_above x 32), (testbit_above y 32).
Qed.

Lemma rotate_bounds x k : 0 <= rotate_left x k < 2 ^ 32.
Proof. unfold rotate_left. rewrite u32_mask_mod. apply Z.mod_pos_bound. lia. Qed.

Lemma epc_tail_bounds ns seq salt :
  0 <= salt < 2 ^ 32 → 0 <= epc_tail ns seq salt < 16 ^ Z.of_nat 8.
Proof.
  intros Hs. unfold epc_tail. change (16 ^ Z.of_nat 8) with (2 ^ 32).
  set (t := Z.lxor _ salt).
  assert (0 <= t < 2 ^ 32) as Ht.
  { subst t. apply lxor_bounds; [|done]. apply lxor_bounds; [|apply rotate_bounds].
    apply lxor_bounds; [|apply rotate_bounds]. rewrite u32_mask_mod. apply Z.mod_pos_bound. lia. }
  assert (0 <= Z.lor t 1) by (apply Z.lor_nonneg; lia). split; [done|].
  apply below_pow2; [lia|done|]. intros i Hi. rewrite Z.lor_spec, (testbit_above t 32) by done.
  by rewrite (testbit_above 1 32) by lia.
Qed.

(** A sequence number below [2 ^ 25] is not rotated out of the word. *)
Lemma rotate_seq s : 0 <= s < 2 ^ 25 → rotate_left s 7 = s * 2 ^ 7.
Proof.
  intros Hs. unfold rotate_left. rewrite Z.shiftl_mul_pow2, Z.shiftr_div_pow2 by lia.
  change (2 ^ (32 - 7)) with (2 ^ 25). rewrite Z.div_small by lia. rewrite Z.lor_0_r, u32_mask_mod.
  apply Z.mod_small. lia.
Qed.

Lemma epc_tail_inj ns s1 s2 salt :
  0 <= s1 < 2 ^ 25 → 0 <= s2 < 2 ^ 25 → epc_tail ns s1 salt = epc_tail ns s2 salt → s1 = s2.
Proof.
  intros H1 H2 Heq. unfold epc_tail in Heq. rewrite !rotate_seq in Heq by done.
  set (base := Z.lxor (Z.land _ _) (rotate_left _ 13)) in Heq.
  assert (s1 * 2 ^ 7 = s2 * 2 ^ 7) as H; [|lia].
  apply Z.bits_inj'. intros i Hi. destruct (Z.eq_dec i 0) as [->|Hne].
  { by rewrite !Z.mul_pow2_bits_low by lia. }
  apply (f_equal (λ z, Z.testbit z i)) in Heq. rewrite !Z.lor_spec, !Z.lxor_spec in Heq.
  rewrite (testbit_above 1 1) in Heq by lia. rewrite !orb_false_r in Heq.
  by destruct (Z.testbit base i), (Z.testbit salt i), (Z.testbit (s1 * 2 ^ 7) i), (Z.testbit (s2 * 2 ^ 7) i).
Qed.

Lemma format_epc_inj ns1 ns2 s1 s2 salt :
  0 <= salt < 2 ^ 32 → format_epc_24 ns1 s1 salt = format_epc_24 ns2 s2 salt →
  epc_time ns1 = epc_time ns2 ∧ epc_tail ns1 s1 salt = epc_tail ns2 s2 salt.
Proof.
  intros Hs H. unfold format_epc_24 in H. apply append_inj in H as [_ H]; [|done].
  apply append_inj in H as [H1 H2]; [|by rewrite !hex_upper_length].
  split; eapply hex_upper_inj; eauto using epc_time_bounds, epc_tail_bounds.
Qed.

Lemma epc_time_mod ns : epc_time ns = ns mod 2 ^ 56.
Proof.
  unfold epc_time. change (2 ^ 56 - 1) with (Z.ones 56). rewrite Z.land_ones by lia.
  apply Z.mod_mod_divide. by exists (2 ^ 8).
Qed.

(** * Theorems *)

Lemma with_salt_range salt : 0 <= salt < 2 ^ 32 → 0 <= epc_salt (with_salt salt) < 2 ^ 32.
Proof.
  intros Hs. simpl. assert (0 <= Z.lor salt 1) by (apply Z.lor_nonneg; lia). split; [done|].
  apply below_pow2; [lia|done|]. intros i Hi. rewrite Z.lor_spec, (testbit_above salt 32) by done.
  by rewrite (testbit_above 1 32) by lia.
Qed.

(** A code the generator hands out is accepted, unchanged, when a client reports it back. *)
Theorem generated_epc_is_accepted state ns :
  0 <= epc_salt state < 2 ^ 32 →
  normalize_client_epc (next_at_unix_ns state ns).2 = Ok (next_at_unix_ns state ns).2.
Proof.
  intros Hs. unfold next_at_unix_ns. cbv zeta. set (st := if negb _ then _ else _).
  assert (epc_salt st = epc_salt state) as -> by (subst st; by case_match).
  cbn [snd]. generalize (epc_seq st). intros seq. unfold format_epc_24.
  destruct (hex_upper_good 14 (epc_time ns)) as (U1 & X1 & G1); [apply epc_time_bounds|].
  destruct (hex_upper_good 8 (epc_tail ns seq (epc_salt state))) as (U2 & X2 & G2);
    [by apply epc_tail_bounds|].
  pose proof (hex_upper_length 14 (epc_time ns)) as L1.
  pose proof (hex_upper_length 8 (epc_tail ns seq (epc_salt state))) as L2.
  set (a := hex_upper 14 _) in *. set (b := hex_upper 8 _) in *. clearbody a b.
  assert (all_bytes graphic ("30" +:+ a +:+ b) = true) as G.
  { unfold String.append at 1. simpl. by rewrite all_bytes_append, G1, G2. }
  unfold normalize_client_epc. rewrite (trim_graphic _ G), !to_upper_append, U1, U2.
  change (to_ascii_uppercase "30") with "30".
  assert (all_bytes is_ascii_hexdigit ("30" +:+ a +:+ b) = true) as ->
    by (rewrite !all_bytes_append, X1, X2; done).
  assert (starts_with ("30" +:+ a +:+ b) "30" = true) as -> by (by destruct (a +:+ b)).
  by rewrite !length_append, L1, L2.
Qed.

(** The clock readings and sequence numbers behind the codes. *)
Fixpoint epc_pairs (state : EpcState) (clock : list Z) : list (Z * Z) :=
  match clock with
  | [] => []
  | ns :: clock =>
      let state := (next_at_unix_ns state ns).1 in (ns, epc_seq state) :: epc_pairs state clock
  end.

Lemma epcs_pairs state clock :
  epcs state clock = (λ p, format_epc_24 p.1 p.2 (epc_salt state)) <$> epc_pairs state clock.
Proof.
  revert state. induction clock as [|ns clock IH]; intros state; [done|]. simpl.
  f_equal; [by case_match|]. rewrite IH. by case_match.
Qed.

(** How often the clock read [n]. *)
Definition readings (n : Z) (clock : list Z) : nat := length (List.filter (Z.eqb n) clock).

Lemma readings_cons n m clock :
  readings n (m :: clock) = ((if (n =? m)%Z then 1 else 0) + readings n clock)%nat.
Proof. unfold readings. simpl. by destruct (n =? m). Qed.

(** Under a clock that never steps back, pairs grow lexicographically and the
    sequence number is below the number of equal readings. *)
Definition pair_lt (p q : Z * Z) : Prop := p.1 < q.1 ∨ (p.1 = q.1 ∧ p.2 < q.2).

Definition epc_budget (state : EpcState) (clock : list Z) : Prop := ∀ n,
  (if n =? epc_last_ns state then epc_seq state else 0) + Z.of_nat (readings n clock) <= 2 ^ 25 - 1.

Lemma next_state_spec state ns clock :
  0 <= epc_seq state → epc_budget state (ns :: clock) →
  let state' := (next_at_unix_ns state ns).1 in
  epc_last_ns state' = ns ∧ 0 <= epc_seq state' < 2 ^ 25 ∧ epc_budget state' clock ∧
  (ns = epc_last_ns state → epc_seq state < epc_seq state').
Proof.
  intros H0 Hb. unfold epc_budget in *. setoid_rewrite readings_cons in Hb. simpl.
  destruct (Z.eqb_spec ns (epc_last_ns state)) as [->|Hne]; simpl.
  - pose proof (Hb (epc_last_ns state)) as Hns. rewrite Z.eqb_refl in Hns. rewrite Z.mod_small by lia. split_and!; [done|lia|lia| |lia].
    intros n. specialize (Hb n). destruct (n =? epc_last_ns state); lia.
  - split_and!; [done|lia|lia| |done].
    intros n. specialize (Hb n). destruct (n =? ns), (n =? epc_last_ns state); lia.
Qed.

Lemma epc_pairs_sorted state clock :
  0 <= epc_seq state → epc_budget state clock → Sorted Z.le (epc_last_ns state :: clock) →
  Sorted pair_lt ((epc_last_ns state, epc_seq state) :: epc_pairs state clock) ∧
  ∀ p, p ∈ epc_pairs state clock → p.1 ∈ clock ∧ 0 <= p.2 < 2 ^ 25.
Proof.
  revert state. induction clock as [|ns clock IH]; intros state H0 Hb Hsort.
  { split; [by repeat constructor|]. set_solver. }
  destruct (next_state_spec state ns clock H0 Hb) as (Hlast & Hseq & Hb' & Hinc).
  apply Sorted_inv in Hsort as [Hsort Hhd]. apply HdRel_inv in Hhd.
  cbn [epc_pairs]. set (state' := (next_at_unix_ns state ns).1) in *. cbv zeta.
  destruct (IH state') as [Hs Hall]; [lia|done|by rewrite Hlast|]. rewrite Hlast in Hs.
  split.
  - constructor; [done|]. constructor. unfold pair_lt. simpl.
    destruct (Z.eq_dec ns (epc_last_ns state)) as [E|]; [right|left; lia]. split; [done|]. by apply Hinc.
  - intros p [->|Hp]%elem_of_cons; simpl; [split; [left|lia]|].
    destruct (Hall p Hp) as [? ?]. split; [by right|done].
Qed.

Lemma sorted_pairs_nodup l : Sorted pair_lt l → NoDup l.
Proof.
  intros Hs. apply Sorted_StronglySorted in Hs.
  2: { intros [a b] [c d] [e f]. unfold pair_lt. simpl. lia. }
  induction Hs as [|p l Hs IH Hall]; constructor; [|done].
  intros Hin. rewrite Forall_forall in Hall. specialize (Hall p Hin). unfold pair_lt in Hall. lia.
Qed.

(** While the clock does not step back, readings span less than 2^56 ns and
    fewer than 2^25 codes are drawn in one nanosecond, the generator never hands
    out the same EPC twice. *)
Theorem generated_epcs_are_distinct salt clock :
  0 <= salt < 2 ^ 32 →
  Sorted Z.le (0 :: clock) →
  (∀ t t', t ∈ clock → t' ∈ clock → t' - t < 2 ^ 56) →
  (∀ n, Z.of_nat (readings n clock) < 2 ^ 25) →
  NoDup (epcs (with_salt salt) clock).
Proof.
  intros Hsalt Hsort Hspan Hcount.
  destruct (epc_pairs_sorted (with_salt salt) clock) as [Hs Hall]; [simpl; lia| |done|].
  { intros n. specialize (Hcount n). simpl. destruct (n =? 0); lia. }
  rewrite epcs_pairs. apply NoDup_fmap_2_strong.
  2: { apply Sorted_inv in Hs as [Hs _]. by apply sorted_pairs_nodup. }
  intros [t1 s1] [t2 s2] H1 H2 Heq. simpl in Heq.
  destruct (Hall _ H1) as [Hc1 Hb1], (Hall _ H2) as [Hc2 Hb2]. simpl in *.
  apply format_epc_inj in Heq as [Ht Htail]; [|by apply with_salt_range].
  rewrite !epc_time_mod in Ht.
  assert (t1 = t2) as <-.
  { pose proof (Hspan t1 t2 Hc1 Hc2). pose proof (Hspan t2 t1 Hc2 Hc1).
    assert ((t1 - t2) mod 2 ^ 56 = 0) as Hm by (rewrite Zminus_mod, Ht, Z.sub_diag; done).
    apply Z.mod_divide in Hm as [k Hk]; [|lia]. nia. }
  f_equal. by eapply epc_tail_inj.
Qed.

(** A clock that steps back resets the sequence number, so an earlier code is handed out again. *)
Theorem clock_step_back_repeats_epc :
  epcs (with_salt 324508639) [1691139600123456789; 1691139600123456790; 1691139600123456789] !! 0%nat =
  epcs (with_salt 324508639) [1691139600123456789; 1691139600123456790; 1691139600123456789] !! 2%nat.
Proof. vm_compute. reflexivity. Qed.

(** * Print jobs

    Label printing and material receipts.
    Models [crates/mini_rs_gscale_domain]: the exact quantities of
    [crates/mini_rs_domain_types/src/quantity.rs], the normalization of print
    requests ([service/jobs.rs]), the outcome of a driver call
    ([service/error.rs]) and the responses of [service/print.rs].  Recording
    receipts is in [Receipts]. *)

(** * Quantities (quantity.rs) *)

Definition ERP_QUANTITY_FACTOR : Z := 1000000.
Definition ERP_QUANTITY_INTEGER_LIMIT : f64 := f64_of_Z 1000000000000.

Definition erp_quantity_to_units (value : f64) : option Z :=
  if negb (is_finite value) || f64_le ERP_QUANTITY_INTEGER_LIMIT (f64_abs value) then None
  else Some (round_as_i64 (f64_mul value (f64_of_Z ERP_QUANTITY_FACTOR))).

Definition erp_quantity_from_units (units : Z) : f64 :=
  f64_div (f64_of_Z units) (f64_of_Z ERP_QUANTITY_FACTOR).

Definition normalize_erp_quantity (value : f64) : option f64 :=
  erp_quantity_from_units <$> erp_quantity_to_units value.

Definition positive_erp_quantity (value : f64) : option f64 :=
  value ← normalize_erp_quantity value;
  if f64_lt f64_zero value then Some value else None.

(** ** Fixed-precision text: [format!("{:.n}", x)] rounds the exact value, ties
    to even. *)
Definition round_half_even (n d : Z) : Z :=
  let q := (n / d)%Z in
  let r := (2 * (n mod d))%Z in
  if (r <? d)%Z then q else if (d <? r)%Z then (q + 1)%Z
  else if Z.even q then q else (q + 1)%Z.

Definition fixed_digits (places : nat) (units : Z) : string :=
  let ds := Z_to_string units in
  let ds := zeros (S places - String.length ds) +:+ ds in
  let len := String.length ds in
  take_bytes (len - places) ds +:+ "." +:+ drop_bytes (len - places) ds.

Definition f64_fixed (places : nat) (x : f64) : string :=
  match x with
  | S754_nan => "NaN"
  | S754_infinity s => if s then "-inf" else "inf"
  | S754_zero s => (if s then "-" else "") +:+ fixed_digits places 0
  | S754_finite s m e =>
      let scale := (10 ^ Z.of_nat places)%Z in
      let units := if (0 <=? e)%Z then (Zpos m * 2 ^ e * scale)%Z
                   else round_half_even (Zpos m * scale) (2 ^ (- e)) in
      (if s then "-" else "") +:+ fixed_digits places units
  end.

(** [f64::min]. *)
Definition is_nan (x : f64) : bool := match x with S754_nan => true | _ => false end.
Definition f64_min (a b : f64) : f64 :=
  if is_nan a then b else if is_nan b then a else if f64_lt b a then b else a.

(** * Errors (error.rs, ports.rs) *)

Inductive GscaleServiceError :=
  | InvalidInput (_ : string)
  | NotConfigured (_ : string)
  | EpcGenerationFailed
  | StoreWrite (_ : string)
  | PrintFailed (detail : string) (delete_error : option string)
  | SubmitFailed (_ : string).

Inductive GscalePortError :=
  | PortInvalidInput (_ : string)
  | PortNotConfigured (_ : string)
  | PortStoreWrite (_ : string)
  | PortDriver (_ : string).

Definition error_code (e : GscaleServiceError) : string :=
  match e with
  | InvalidInput _ => "invalid_input"
  | NotConfigured _ => "gscale_not_configured"
  | EpcGenerationFailed => "epc_generation_failed"
  | StoreWrite _ => "store_write_failed"
  | PrintFailed _ _ => "print_failed"
  | SubmitFailed _ => "submit_failed"
  end.

(** [GscalePortError::to_string]. *)
Definition port_error_text (e : GscalePortError) : string :=
  match e with
  | PortInvalidInput d => "invalid input: " +:+ d
  | PortNotConfigured d => "not configured: " +:+ d
  | PortStoreWrite d => "store write failed: " +:+ d
  | PortDriver d => "driver request failed: " +:+ d
  end.

Definition map_receipt_store_error (e : GscalePortError) : GscaleServiceError :=
  match e with
  | PortInvalidInput d => InvalidInput d
  | PortNotConfigured d => NotConfigured d
  | PortStoreWrite d => StoreWrite d
  | PortDriver d => StoreWrite d
  end.

Definition clean_store_error (message : string) : string :=
  let m := trim message in
  if starts_with m "store write failed: "
  then drop_bytes (String.length "store write failed: ") m else m.

Record ScaleDriverPrintResponse := {
  print_ok : bool;
  print_status : string;
  print_epc : string;
  print_printer : string;
  print_mode_ : string;
  print_qty : f64;
  print_net_qty : f64;
  print_gross_qty : f64;
  print_unit : string;
  print_printer_status : string;
  print_error : string;
  print_detail : string;
}.

Definition print_error_detail (print : ScaleDriverPrintResponse) : string :=
  match List.find (λ v, negb (blank v)) [print_detail print; print_error print; print_status print] with
  | Some v => trim v
  | None => "print failed"
  end.

Definition completed_print (r : result GscalePortError ScaleDriverPrintResponse)
  : result GscaleServiceError ScaleDriverPrintResponse :=
  match r with
  | Ok print =>
      if print_ok print && eq_ignore_ascii_case (trim (print_status print)) "done" then Ok print
      else Err (PrintFailed (print_error_detail print) None)
  | Err error => Err (PrintFailed (port_error_text error) None)
  end.

(** * Normalized jobs (jobs.rs) *)

Definition MIN_BATCH_QTY_KG : f64 := f64_of_dec 1 1.
Definition MAX_MATERIAL_PRINT_COUNT : Z := 100.

Definition normalize_print_count (value : Z) : Z := if (value =? 0)%Z then 1%Z else value.

Definition blank_default (value fallback : string) : string :=
  let value := trim value in if is_empty value then fallback else value.

Definition normalize_label_kind (value : string) : string :=
  let value := to_ascii_lowercase (trim value) in
  if is_empty value then "progress" else value.

Definition is_positive (x : f64) : bool := is_finite x && f64_lt f64_zero x.

Definition normalize_dimensions (width_mm micron : option f64)
  : result GscaleServiceError (option f64 * option f64) :=
  match width_mm, micron with
  | None, None => Ok (None, None)
  | Some w, Some m =>
      if is_positive w && is_positive m then Ok (Some w, Some m)
      else Err (InvalidInput "width_mm_and_micron_must_be_positive")
  | _, _ => Err (InvalidInput "width_mm_and_micron_required_together")
  end.

Definition normalize_length (length_m : option f64) : result GscaleServiceError (option f64) :=
  match length_m with
  | None => Ok None
  | Some l => if is_positive l then Ok (Some l) else Err (InvalidInput "length_m_must_be_positive")
  end.

(** [trim_end_matches(c)]. *)
Fixpoint trim_start_char (c : ascii) (s : string) : string :=
  match s with
  | String a s' => if Ascii.eqb a c then trim_start_char c s' else s
  | EmptyString => s
  end.
Definition trim_end_char (c : ascii) (s : string) : string :=
  String.rev (trim_start_char c (String.rev s)).

Definition compact_dimension (value : f64) : string :=
  trim_end_char "." (trim_end_char "0" (f64_fixed 6 value)).

Definition dimensioned_item_name (item_name : string) (width_mm micron : option f64) : string :=
  match width_mm, micron with
  | Some w, Some m =>
      trim item_name +:+ " " +:+ compact_dimension w +:+ "/" +:+ compact_dimension m
  | _, _ => trim item_name
  end.

Section receipts.
Context `{J : Json}.

Record MaterialReceiptPrintRequest := {
  req_order_id : string;
  req_apparatus : string;
  req_order_assignment : option value;
  req_driver_url : string;
  req_item_code : string;
  req_item_name : string;
  req_warehouse : string;
  req_printer : string;
  req_print_mode : string;
  req_label_kind : string;
  req_gross_qty : f64;
  req_unit : string;
  req_tare_enabled : bool;
  req_tare_kg : f64;
  req_width_mm : option f64;
  req_micron : option f64;
  req_length_m : option f64;
  req_print_count : Z;
  req_actor_role : string;
  req_actor_ref : string;
  req_actor_display_name : string;
}.

Record NormalizedMaterialReceiptJob := {
  job_order_assignment : option value;
  job_driver_url : string;
  job_item_code : string;
  job_item_name : string;
  job_warehouse : string;
  job_printer : string;
  job_print_mode : string;
  job_label_kind : string;
  job_gross_qty : f64;
  job_net_qty : f64;
  job_unit : string;
  job_tare_enabled : bool;
  job_tare_kg : f64;
  job_width_mm : option f64;
  job_micron : option f64;
  job_length_m : option f64;
  job_print_count : Z;
  job_actor_role : string;
  job_actor_ref : string;
  job_actor_display_name : string;
}.

Definition quantity_too_small (label : string) : GscaleServiceError :=
  InvalidInput (label +:+ " | min " +:+ f64_fixed 3 MIN_BATCH_QTY_KG +:+ " kg").

(** The tare of a request: its kilograms when enabled and positive. *)
Definition request_tare (enabled : bool) (tare_kg : f64) : result GscaleServiceError f64 :=
  if (enabled || f64_lt f64_zero tare_kg) && f64_lt f64_zero tare_kg
  then ok_or (positive_erp_quantity tare_kg) (InvalidInput "tare_kg_invalid")
  else Ok f64_zero.

Definition job_from_request (request : MaterialReceiptPrintRequest)
  : result GscaleServiceError NormalizedMaterialReceiptJob :=
  _ ← check (MAX_MATERIAL_PRINT_COUNT <? req_print_count request)%Z
        (InvalidInput ("print_count_must_not_exceed_" +:+ Z_to_string MAX_MATERIAL_PRINT_COUNT));
  let item_code := trim (req_item_code request) in
  let warehouse := trim (req_warehouse request) in
  _ ← check (is_empty item_code || is_empty warehouse) (InvalidInput "item_code_and_warehouse_required");
  gross_qty ← ok_or (positive_erp_quantity (req_gross_qty request))
    (quantity_too_small ("QTY juda kichik: " +:+ f64_fixed 3 (req_gross_qty request) +:+ " kg"));
  _ ← check (f64_lt gross_qty MIN_BATCH_QTY_KG)
        (quantity_too_small ("QTY juda kichik: " +:+ f64_fixed 3 gross_qty +:+ " kg"));
  tare_kg ← request_tare (req_tare_enabled request) (req_tare_kg request);
  let net_qty := if f64_lt f64_zero tare_kg
                 then default f64_zero (positive_erp_quantity (f64_sub gross_qty tare_kg))
                 else gross_qty in
  _ ← check (f64_lt net_qty MIN_BATCH_QTY_KG)
        (quantity_too_small ("NETTO juda kichik: brutto " +:+ f64_fixed 3 gross_qty +:+
           " kg - babina " +:+ f64_fixed 3 tare_kg +:+ " kg = " +:+ f64_fixed 3 net_qty +:+ " kg"));
  '(width_mm, micron) ← normalize_dimensions (req_width_mm request) (req_micron request);
  length_m ← normalize_length (req_length_m request);
  Ok {| job_order_assignment := req_order_assignment request;
        job_driver_url := trim (req_driver_url request);
        job_item_code := item_code;
        job_item_name := dimensioned_item_name (blank_default (req_item_name request) item_code)
                           width_mm micron;
        job_warehouse := warehouse;
        job_printer := to_ascii_lowercase (trim (req_printer request));
        job_print_mode := to_ascii_lowercase (trim (req_print_mode request));
        job_label_kind := to_ascii_lowercase (trim (req_label_kind request));
        job_gross_qty := gross_qty;
        job_net_qty := net_qty;
        job_unit := blank_default (req_unit request) "kg";
        job_tare_enabled := f64_lt f64_zero tare_kg;
        job_tare_kg := tare_kg;
        job_width_mm := width_mm;
        job_micron := micron;
        job_length_m := length_m;
        job_print_count := normalize_print_count (req_print_count request);
        job_actor_role := trim (req_actor_role request);
        job_actor_ref := trim (req_actor_ref request);
        job_actor_display_name := trim (req_actor_display_name request) |}.

Record ScaleDriverPrintRequest := {
  drv_driver_url : string;
  drv_epc : string;
  drv_item_code : string;
  drv_item_name : string;
  drv_warehouse : string;
  drv_executor_name : string;
  drv_label_kind : string;
  drv_printer : string;
  drv_print_mode : string;
  drv_gross_qty : f64;
  drv_qty : option f64;
  drv_unit : string;
  drv_progress_unit : string;
  drv_tare_enabled : bool;
  drv_tare_kg : f64;
  drv_include_bobina_in_net : bool;
  drv_print_count : Z;
}.

#[global] Instance driver_request_rebuild : Rebuild ScaleDriverPrintRequest := λ r, {|
  drv_driver_url := drv_driver_url r; drv_epc := drv_epc r; drv_item_code := drv_item_code r;
  drv_item_name := drv_item_name r; drv_warehouse := drv_warehouse r;
  drv_executor_name := drv_executor_name r; drv_label_kind := drv_label_kind r;
  drv_printer := drv_printer r; drv_print_mode := drv_print_mode r;
  drv_gross_qty := drv_gross_qty r; drv_qty := drv_qty r; drv_unit := drv_unit r;
  drv_progress_unit := drv_progress_unit r; drv_tare_enabled := drv_tare_enabled r;
  drv_tare_kg := drv_tare_kg r; drv_include_bobina_in_net := drv_include_bobina_in_net r;
  drv_print_count := drv_print_count r |}.

Definition driver_request (job : NormalizedMaterialReceiptJob) (epc : string)
  : ScaleDriverPrintRequest := {|
  drv_driver_url := job_driver_url job;
  drv_epc := to_ascii_uppercase (trim epc);
  drv_item_code := job_item_code job;
  drv_item_name := job_item_name job;
  drv_warehouse := job_warehouse job;
  drv_executor_name := "";
  drv_label_kind := job_label_kind job;
  drv_printer := job_printer job;
  drv_print_mode := job_print_mode job;
  drv_gross_qty := job_gross_qty job;
  drv_qty := None;
  drv_unit := job_unit job;
  drv_progress_unit := default "" ((λ l, f64_fixed 3 l +:+ " m") <$> job_length_m job);
  drv_tare_enabled := job_tare_enabled job;
  drv_tare_kg := job_tare_kg job;
  drv_include_bobina_in_net := false;
  drv_print_count := job_print_count job |}.

(** * Responses (print.rs) *)

Record MaterialReceiptPrintResponse := {
  resp_ok : bool;
  resp_status : string;
  resp_draft_name : string;
  resp_epc : string;
  resp_item_code : string;
  resp_item_name : string;
  resp_warehouse : string;
  resp_qty : f64;
  resp_net_qty : f64;
  resp_gross_qty : f64;
  resp_width_mm : option f64;
  resp_micron : option f64;
  resp_length_m : option f64;
  resp_unit : string;
  resp_printer : string;
  resp_print_mode : string;
  resp_printer_status : string;
  resp_print_count : Z;
}.

#[global] Instance print_response_rebuild : Rebuild MaterialReceiptPrintResponse := λ r, {|
  resp_ok := resp_ok r; resp_status := resp_status r; resp_draft_name := resp_draft_name r;
  resp_epc := resp_epc r; resp_item_code := resp_item_code r; resp_item_name := resp_item_name r;
  resp_warehouse := resp_warehouse r; resp_qty := resp_qty r; resp_net_qty := resp_net_qty r;
  resp_gross_qty := resp_gross_qty r; resp_width_mm := resp_width_mm r;
  resp_micron := resp_micron r; resp_length_m := resp_length_m r; resp_unit := resp_unit r;
  resp_printer := resp_printer r; resp_print_mode := resp_print_mode r;
  resp_printer_status := resp_printer_status r; resp_print_count := resp_print_count r |}.

Definition client_printer (value : string) : string :=
  let value := to_ascii_lowercase (trim value) in if is_empty value then "godex" else value.

Definition client_print_mode (value : string) : string :=
  let value := to_ascii_lowercase (trim value) in if is_empty value then "label" else value.

Definition material_receipt_response (epc draft_name status printer print_mode printer_status : string)
    (job : NormalizedMaterialReceiptJob) : MaterialReceiptPrintResponse := {|
  resp_ok := true;
  resp_status := status;
  resp_draft_name := draft_name;
  resp_epc := epc;
  resp_item_code := job_item_code job;
  resp_item_name := job_item_name job;
  resp_warehouse := job_warehouse job;
  resp_qty := job_net_qty job;
  resp_net_qty := job_net_qty job;
  resp_gross_qty := job_gross_qty job;
  resp_width_mm := job_width_mm job;
  resp_micron := job_micron job;
  resp_length_m := job_length_m job;
  resp_unit := job_unit job;
  resp_printer := printer;
  resp_print_mode := print_mode;
  resp_printer_status := printer_status;
  resp_print_count := job_print_count job |}.

(** [MaterialReceiptPrintOutcome::into_response]. *)
Definition into_response (epc draft_name : string) (print : ScaleDriverPrintResponse)
    (job : NormalizedMaterialReceiptJob) (print_count : Z) : MaterialReceiptPrintResponse :=
  (material_receipt_response epc draft_name "printed" (print_printer print) (print_mode_ print)
    (print_printer_status print) job) <| resp_print_count := print_count |>.
End receipts.

(** * Progress labels (jobs.rs, print.rs) *)

Record ProgressLabelPrintRequest := {
  lreq_driver_url : string;
  lreq_qr_payload : string;
  lreq_item_code : string;
  lreq_item_name : string;
  lreq_apparatus : string;
  lreq_apparatus_display_name : string;
  lreq_customer_name : string;
  lreq_executor_name : string;
  lreq_printer : string;
  lreq_print_mode : string;
  lreq_gross_qty : f64;
  lreq_tare_enabled : bool;
  lreq_tare_kg : f64;
  lreq_include_bobina_in_net : bool;
  lreq_progress_qty : f64;
  lreq_unit : string;
  lreq_progress_unit : string;
  lreq_label_kind : string;
  lreq_print_count : Z;
}.

Record NormalizedProgressLabelJob := {
  label_driver_url : string;
  label_qr_payload : string;
  label_item_code : string;
  label_item_name : string;
  label_apparatus : string;
  label_apparatus_display_name : string;
  label_customer_name : string;
  label_executor_name : string;
  label_printer : string;
  label_print_mode : string;
  label_gross_qty : f64;
  label_tare_enabled : bool;
  label_tare_kg : f64;
  label_include_bobina_in_net : bool;
  label_progress_qty : f64;
  label_unit : string;
  label_progress_unit : string;
  label_label_kind : string;
  label_print_count : Z;
}.

Definition label_from_request (request : ProgressLabelPrintRequest)
  : result GscaleServiceError NormalizedProgressLabelJob :=
  let qr_payload := trim (lreq_qr_payload request) in
  let item_code := trim (lreq_item_code request) in
  let item_name := trim (lreq_item_name request) in
  _ ← check (is_empty qr_payload || is_empty item_code || is_empty item_name)
        (InvalidInput "qr_payload_item_code_and_item_name_required");
  gross_qty ← ok_or (positive_erp_quantity (lreq_gross_qty request))
                (InvalidInput "progress_gross_qty_required");
  progress_qty ← ok_or (if f64_lt f64_zero (lreq_progress_qty request)
                        then positive_erp_quantity (lreq_progress_qty request)
                        else Some gross_qty)
                   (InvalidInput "progress_qty_required");
  let include_bobina_in_net := lreq_include_bobina_in_net request &&
    (normalize_label_kind (lreq_label_kind request) =? "progress")%string in
  let tare_enabled := negb include_bobina_in_net &&
    (lreq_tare_enabled request || f64_lt f64_zero (lreq_tare_kg request)) in
  tare_kg ← (if tare_enabled && f64_lt f64_zero (lreq_tare_kg request)
             then tare ← ok_or (positive_erp_quantity (lreq_tare_kg request))
                           (InvalidInput "tare_kg_invalid");
                  Ok (f64_min tare gross_qty)
             else Ok f64_zero);
  Ok {| label_driver_url := trim (lreq_driver_url request);
        label_qr_payload := qr_payload;
        label_item_code := item_code;
        label_item_name := item_name;
        label_apparatus := trim (lreq_apparatus request);
        label_apparatus_display_name := trim (lreq_apparatus_display_name request);
        label_customer_name := trim (lreq_customer_name request);
        label_executor_name := trim (lreq_executor_name request);
        label_printer := to_ascii_lowercase (trim (lreq_printer request));
        label_print_mode := to_ascii_lowercase (trim (lreq_print_mode request));
        label_gross_qty := gross_qty;
        label_tare_enabled := f64_lt f64_zero tare_kg;
        label_tare_kg := tare_kg;
        label_include_bobina_in_net := include_bobina_in_net;
        label_progress_qty := progress_qty;
        label_unit := blank_default (lreq_unit request) "kg";
        label_progress_unit := blank_default (lreq_progress_unit request) "m";
        label_label_kind := normalize_label_kind (lreq_label_kind request);
        label_print_count := normalize_print_count (lreq_print_count request) |}.

Definition label_driver_request (job : NormalizedProgressLabelJob) : ScaleDriverPrintRequest := {|
  drv_driver_url := label_driver_url job;
  drv_epc := label_qr_payload job;
  drv_item_code := label_item_code job;
  drv_item_name := label_item_name job;
  drv_warehouse := "Ijrochi: " +:+ trim (label_executor_name job);
  drv_executor_name := label_executor_name job;
  drv_label_kind := label_label_kind job;
  drv_printer := label_printer job;
  drv_print_mode := label_print_mode job;
  drv_gross_qty := label_gross_qty job;
  drv_qty := Some (label_progress_qty job);
  drv_unit := label_unit job;
  drv_progress_unit := label_progress_unit job;
  drv_tare_enabled := label_tare_enabled job;
  drv_tare_kg := label_tare_kg job;
  drv_include_bobina_in_net := label_include_bobina_in_net job;
  drv_print_count := label_print_count job |}.

Record ProgressLabelPrintResponse := {
  lresp_ok : bool;
  lresp_status : string;
  lresp_qr_payload : string;
  lresp_item_code : string;
  lresp_item_name : string;
  lresp_apparatus : string;
  lresp_apparatus_display_name : string;
  lresp_customer_name : string;
  lresp_executor_name : string;
  lresp_qty : f64;
  lresp_gross_qty : f64;
  lresp_tare_enabled : bool;
  lresp_tare_kg : f64;
  lresp_include_bobina_in_net : bool;
  lresp_unit : string;
  lresp_progress_unit : string;
  lresp_label_kind : string;
  lresp_printer : string;
  lresp_print_mode : string;
  lresp_printer_status : string;
  lresp_print_count : Z;
}.

Definition progress_label_response (status printer print_mode printer_status : string)
    (job : NormalizedProgressLabelJob) : ProgressLabelPrintResponse := {|
  lresp_ok := true;
  lresp_status := status;
  lresp_qr_payload := label_qr_payload job;
  lresp_item_code := label_item_code job;
  lresp_item_name := label_item_name job;
  lresp_apparatus := label_apparatus job;
  lresp_apparatus_display_name := label_apparatus_display_name job;
  lresp_customer_name := label_customer_name job;
  lresp_executor_name := label_executor_name job;
  lresp_qty := label_progress_qty job;
  lresp_gross_qty := label_gross_qty job;
  lresp_tare_enabled := label_tare_enabled job;
  lresp_tare_kg := label_tare_kg job;
  lresp_include_bobina_in_net := label_include_bobina_in_net job;
  lresp_unit := label_unit job;
  lresp_progress_unit := label_progress_unit job;
  lresp_label_kind := label_label_kind job;
  lresp_printer := printer;
  lresp_print_mode := print_mode;
  lresp_printer_status := printer_status;
  lresp_print_count := label_print_count job |}.

Definition prepare_progress_label (request : ProgressLabelPrintRequest)
  : result GscaleServiceError ProgressLabelPrintResponse :=
  job ← label_from_request request;
  Ok (progress_label_response "prepared" (client_printer (label_printer job))
        (client_print_mode (label_print_mode job)) "client_usb_pending" job).

(** [self.driver()?]. *)
Definition scale_driver : Type := ScaleDriverPrintRequest → result GscalePortError ScaleDriverPrintResponse.

Definition require_driver (d : option scale_driver) : result GscaleServiceError scale_driver :=
  ok_or d (NotConfigured "scale driver is not configured").

Definition print_progress_label (d : option scale_driver) (request : ProgressLabelPrintRequest)
  : result GscaleServiceError ProgressLabelPrintResponse :=
  driver ← require_driver d;
  job ← label_from_request request;
  print ← completed_print (driver (label_driver_request job));
  Ok (progress_label_response "printed" (print_printer print) (print_mode_ print)
        (print_printer_status print) job).

Definition print_existing_material_label (d : option scale_driver)
    (request : ProgressLabelPrintRequest) (warehouse : string)
  : result GscaleServiceError ProgressLabelPrintResponse :=
  job ← label_from_request request;
  _ ← check (negb (label_label_kind job =? "material_product")%string || blank warehouse)
        (InvalidInput "material_label_warehouse_required");
  driver ← require_driver d;
  print ← completed_print (driver
    ((label_driver_request job) <| drv_warehouse := trim warehouse |>));
  Ok (progress_label_response "printed" (print_printer print) (print_mode_ print)
        (print_printer_status print) job).
