(* ===== verification/Receipts.v ===== *)
(** Recording material receipts.

    Models [service/recording.rs] of [crates/mini_rs_gscale_domain] and the
    printing flows of [service/print.rs] that record one: the client confirming
    a label it printed, the strict print-then-record flow, and the driver-first
    flow, in which a spawned task records the receipt while the driver prints
    and a one-shot channel tells it how the print ended.  That flow is a step
    relation over both tasks. *)
From Stdlib Require Import Ascii SpecFloat.
From S2P Require Import Prelude RustStr F64 Json Epc.

(** * The store port (ports.rs) *)

Section port_types.
Context `{J : Json}.

Record MaterialReceiptDraft := {
  draft_order_assignment : option value;
  draft_name : string;
  draft_item_code : string;
  draft_warehouse : string;
  draft_qty : f64;
  draft_uom : string;
  draft_barcode : string;
  draft_width_mm : option f64;
  draft_micron : option f64;
  draft_length_m : option f64;
}.

Record RawMaterialStockEntry := {
  stock_id : string;
  stock_warehouse : string;
  stock_item_code : string;
  stock_item_name : string;
  stock_barcode : string;
  stock_qty : f64;
  stock_uom : string;
  stock_status : string;
  stock_reserved_order_id : string;
  stock_source_receipt_id : string;
  stock_width_mm : option f64;
  stock_micron : option f64;
  stock_length_m : option f64;
}.

Record CreateMaterialReceiptDraftInput := {
  create_order_assignment : option value;
  create_item_code : string;
  create_item_name : string;
  create_warehouse : string;
  create_qty : f64;
  create_barcode : string;
  create_width_mm : option f64;
  create_micron : option f64;
  create_length_m : option f64;
  create_actor_role : string;
  create_actor_ref : string;
  create_actor_display_name : string;
}.
End port_types.

(** The operations of [MaterialReceiptStorePort] the flows call, over the state
    of the store; [value_eqb] is [serde_json]'s [==]. *)
Class ReceiptPort {J : Json} := {
  port : Type;
  port_create : CreateMaterialReceiptDraftInput → port →
    port * result GscalePortError MaterialReceiptDraft;
  port_receipt_by_barcode : string → port → result GscalePortError (option MaterialReceiptDraft);
  port_stock_by_barcode : string → port → result GscalePortError (option RawMaterialStockEntry);
  port_submit : string → port → port * result GscalePortError unit;
  port_delete : string → port → port * result GscalePortError unit;
  value_eqb : value → value → bool;
}.

(** What the store promises: a created draft carries its input and is found by
    its barcode; submitting it puts stock with the same content there. *)
Class ReceiptPortLaws {J : Json} (P : ReceiptPort) := {
  value_eqb_refl v : value_eqb v v = true;
  create_found input s s' d :
    port_create input s = (s', Ok d) →
    draft_order_assignment d = create_order_assignment input ∧
    draft_item_code d = create_item_code input ∧ draft_warehouse d = create_warehouse input ∧
    draft_qty d = create_qty input ∧ draft_width_mm d = create_width_mm input ∧
    draft_micron d = create_micron input ∧ draft_length_m d = create_length_m input ∧
    port_receipt_by_barcode (create_barcode input) s' = Ok (Some d);
  submit_stocks barcode d s s' :
    port_receipt_by_barcode barcode s = Ok (Some d) →
    port_submit (draft_name d) s = (s', Ok tt) →
    port_receipt_by_barcode barcode s' = Ok (Some d) ∧
    ∃ stock, port_stock_by_barcode barcode s' = Ok (Some stock) ∧
      stock_item_code stock = draft_item_code d ∧ stock_warehouse stock = draft_warehouse d ∧
      stock_qty stock = draft_qty d ∧ stock_width_mm stock = draft_width_mm d ∧
      stock_micron stock = draft_micron d ∧ stock_length_m stock = draft_length_m d ∧
      stock_source_receipt_id stock = draft_name d;
}.

Section recording.
Context `{J : Json} `{P : !ReceiptPort}.

(** * Recording (recording.rs) *)

Definition TOLERANCE : f64 := f64_of_dec 1 6.

Definition same_optional_number (l r : option f64) : bool :=
  match l, r with
  | None, None => true
  | Some l, Some r => f64_le (f64_abs (f64_sub l r)) TOLERANCE
  | _, _ => false
  end.

Definition validate_existing_receipt (item_code warehouse : string) (qty : f64)
    (width_mm micron length_m : option f64) (job : NormalizedMaterialReceiptJob)
  : result GscaleServiceError unit :=
  check (negb (eq_ignore_ascii_case (trim item_code) (job_item_code job)) ||
         negb (eq_ignore_ascii_case (trim warehouse) (job_warehouse job)) ||
         f64_lt TOLERANCE (f64_abs (f64_sub qty (job_net_qty job))) ||
         negb (same_optional_number width_mm (job_width_mm job)) ||
         negb (same_optional_number micron (job_micron job)) ||
         negb (same_optional_number length_m (job_length_m job)))
    (InvalidInput "client_print_epc_already_used").

Definition create_input (job : NormalizedMaterialReceiptJob) (epc : string)
  : CreateMaterialReceiptDraftInput := {|
  create_order_assignment := job_order_assignment job;
  create_item_code := job_item_code job;
  create_item_name := job_item_name job;
  create_warehouse := job_warehouse job;
  create_qty := job_net_qty job;
  create_barcode := epc;
  create_width_mm := job_width_mm job;
  create_micron := job_micron job;
  create_length_m := job_length_m job;
  create_actor_role := job_actor_role job;
  create_actor_ref := job_actor_ref job;
  create_actor_display_name := job_actor_display_name job |}.

Definition map_err {E F A} (f : E → F) (r : result E A) : result F A :=
  match r with Ok a => Ok a | Err e => Err (f e) end.

Definition store_write (e : GscalePortError) : GscaleServiceError := StoreWrite (port_error_text e).
Definition submit_failed (e : GscalePortError) : GscaleServiceError :=
  SubmitFailed (clean_store_error (port_error_text e)).

Definition create_material_receipt_draft (job : NormalizedMaterialReceiptJob) (epc : string)
    (s : port) : port * result GscaleServiceError MaterialReceiptDraft :=
  let '(s, r) := port_create (create_input job epc) s in (s, map_err store_write r).

Definition ASSIGNMENT_KEYS : list string :=
  ["order_id"; "apparatus"; "item_code"; "assigned_by_ref"; "preparation_formula"].

Definition option_eqb (a b : option value) : bool :=
  match a, b with
  | Some a, Some b => value_eqb a b
  | None, None => true
  | _, _ => false
  end.

Definition same_assignment (draft : MaterialReceiptDraft) (job : NormalizedMaterialReceiptJob) : bool :=
  forallb (λ key,
    option_eqb (v ← draft_order_assignment draft; json_get key v)
               (v ← job_order_assignment job; json_get key v)) ASSIGNMENT_KEYS.

(** The warehouse events sent so far are threaded with the store. *)
Definition record_state : Type := port * list (string * string).

(** Submit the draft and, when a handler is configured, send the event. *)
Definition submit_and_notify (handler : bool) (job : NormalizedMaterialReceiptJob) (name : string)
    (st : record_state) : record_state * result GscaleServiceError unit :=
  let '(s, events) := st in
  let '(s, r) := port_submit name s in
  match r with
  | Err e => ((s, events), Err (submit_failed e))
  | Ok _ => ((s, if handler then events ++ [(job_warehouse job, "raw_material_stock")] else events),
             Ok tt)
  end.

Definition record_confirmed_material_receipt (job : NormalizedMaterialReceiptJob) (epc : string)
    (handler : bool) (st : record_state) : record_state * result GscaleServiceError string :=
  match port_receipt_by_barcode epc st.1 with
  | Err e => (st, Err (store_write e))
  | Ok existing_draft =>
      if is_some_and existing_draft (λ draft, negb (same_assignment draft job))
      then (st, Err (InvalidInput "client_print_epc_already_used"))
      else match port_stock_by_barcode epc st.1 with
      | Err e => (st, Err (store_write e))
      | Ok (Some stock) =>
          (st, match validate_existing_receipt (stock_item_code stock) (stock_warehouse stock)
                       (stock_qty stock) (stock_width_mm stock) (stock_micron stock)
                       (stock_length_m stock) job with
               | Err e => Err e
               | Ok _ => Ok (stock_source_receipt_id stock)
               end)
      | Ok None =>
          let '(s, r) :=
            match existing_draft with
            | Some draft =>
                (st.1, match validate_existing_receipt (draft_item_code draft)
                               (draft_warehouse draft) (draft_qty draft) (draft_width_mm draft)
                               (draft_micron draft) (draft_length_m draft) job with
                       | Err e => Err e
                       | Ok _ => Ok draft
                       end)
            | None => create_material_receipt_draft job epc st.1
            end in
          match r with
          | Err e => ((s, st.2), Err e)
          | Ok draft =>
              let '(st, r) := submit_and_notify handler job (draft_name draft) (s, st.2) in
              (st, match r with Err e => Err e | Ok _ => Ok (draft_name draft) end)
          end
      end
  end.

(** * Printing flows (print.rs) *)

Definition require_single_material_receipt (job : NormalizedMaterialReceiptJob)
  : result GscaleServiceError unit :=
  check (negb (job_print_count job =? 1)%Z)
    (InvalidInput "material_receipt_requires_unique_epc_per_print").

(** The service: whether a receipt store and an event handler are configured,
    and the driver.  [raw] below is the text its EPC source yields. *)
Record GscaleService := {
  svc_receipt_store : bool;
  svc_driver : option scale_driver;
  svc_warehouse_event_handler : bool;
}.

Definition require_store (svc : GscaleService) : result GscaleServiceError unit :=
  check (negb (svc_receipt_store svc)) (NotConfigured "material receipt store is not configured").

Definition next_epc (raw : string) : result GscaleServiceError string :=
  let epc := to_ascii_uppercase (trim raw) in
  if is_empty epc then Err EpcGenerationFailed else Ok epc.

Definition prepare_material_receipt_client_print (request : MaterialReceiptPrintRequest)
    (raw : string) : result GscaleServiceError MaterialReceiptPrintResponse :=
  job ← job_from_request request;
  _ ← require_single_material_receipt job;
  epc ← next_epc raw;
  Ok (material_receipt_response epc "" "prepared" (client_printer (job_printer job))
        (client_print_mode (job_print_mode job)) "client_usb_pending" job).

Definition confirm_material_receipt_client_print (svc : GscaleService)
    (request : MaterialReceiptPrintRequest) (epc : string) (st : record_state)
  : record_state * result GscaleServiceError MaterialReceiptPrintResponse :=
  match (_ ← require_store svc;
         job ← job_from_request request;
         _ ← require_single_material_receipt job;
         epc ← map_err InvalidInput (normalize_client_epc epc);
         Ok (job, epc)) with
  | Err e => (st, Err e)
  | Ok (job, epc) =>
      let '(st, r) := record_confirmed_material_receipt job epc (svc_warehouse_event_handler svc) st in
      (st, draft_name ← r;
           Ok (material_receipt_response epc draft_name "printed" (client_printer (job_printer job))
                 (client_print_mode (job_print_mode job)) "USB OK" job))
  end.

(** The strict flow: print, then record. *)
Definition print_material_receipt_driver_once_job_strict (svc : GscaleService)
    (job : NormalizedMaterialReceiptJob) (raw : string) (st : record_state)
  : record_state * result GscaleServiceError (string * string * ScaleDriverPrintResponse) :=
  match (_ ← require_store svc;
         driver ← require_driver (svc_driver svc);
         epc ← next_epc raw;
         print ← completed_print (driver (driver_request job epc));
         Ok (epc, print)) with
  | Err e => (st, Err e)
  | Ok (epc, print) =>
      let '(st, r) := record_confirmed_material_receipt job epc (svc_warehouse_event_handler svc) st in
      (st, draft_name ← r; Ok (epc, draft_name, print))
  end.

Definition print_material_receipt_driver_once_strict (svc : GscaleService)
    (request : MaterialReceiptPrintRequest) (raw : string) (st : record_state)
  : record_state * result GscaleServiceError MaterialReceiptPrintResponse :=
  match (job ← job_from_request request; _ ← require_single_material_receipt job; Ok job) with
  | Err e => (st, Err e)
  | Ok job =>
      let '(st, r) := print_material_receipt_driver_once_job_strict svc job raw st in
      (st, '(epc, draft_name, print) ← r; Ok (into_response epc draft_name print job 1))
  end.

(** ** The driver-first flow *)

(** The request handler: waiting for the driver, finished, or dropped. *)
Inductive main_state :=
  | MainPrinting
  | MainDone (r : result GscaleServiceError ScaleDriverPrintResponse)
  | MainDropped.

(** The one-shot channel. *)
Inductive channel := ChanEmpty | ChanSent (print_ok : bool) | ChanClosed.

(** The spawned recording task. *)
Inductive recorder :=
  | RecCreate
  | RecWait (draft : MaterialReceiptDraft)
  | RecSubmit (draft : MaterialReceiptDraft)
  | RecDelete (draft : MaterialReceiptDraft)
  | RecDone (r : result GscaleServiceError unit).

(** What was done to the store. *)
Inductive store_call := Created (name : string) | Submitted (name : string) | Deleted (name : string).

Record print_sys := {
  sys_main : main_state;
  sys_chan : channel;
  sys_rec : recorder;
  sys_store : record_state;
  sys_calls : list store_call;
}.

Definition print_init (st : record_state) : print_sys :=
  {| sys_main := MainPrinting; sys_chan := ChanEmpty; sys_rec := RecCreate; sys_store := st;
     sys_calls := [] |}.

#[global] Instance print_sys_rebuild : Rebuild print_sys := λ r, {|
  sys_main := sys_main r; sys_chan := sys_chan r; sys_rec := sys_rec r; sys_store := sys_store r;
  sys_calls := sys_calls r |}.

(** The channel as the receiver sees it: [rx.await.unwrap_or(false)]. *)
Definition received (c : channel) : option bool :=
  match c with ChanEmpty => None | ChanSent b => Some b | ChanClosed => Some false end.

Definition main_result (r : result GscalePortError ScaleDriverPrintResponse) (s : print_sys) : print_sys :=
  match completed_print r with
  | Ok print => s <| sys_main := MainDone (Ok print) |> <| sys_chan := ChanSent true |>
  | Err e => s <| sys_main := MainDone (Err e) |> <| sys_chan := ChanSent false |>
  end.

(** [record_parallel_material_receipt_inner], one await at a time. *)
Definition recorder_step (handler : bool) (job : NormalizedMaterialReceiptJob) (epc : string)
    (s : print_sys) : option print_sys :=
  match sys_rec s with
  | RecCreate =>
      let '(p, r) := create_material_receipt_draft job epc (sys_store s).1 in
      let s := s <| sys_store := (p, (sys_store s).2) |> in
      Some (match r with
            | Err e => s <| sys_rec := RecDone (Err e) |>
            | Ok d => s <| sys_rec := RecWait d |> <| sys_calls := sys_calls s ++ [Created (draft_name d)] |>
            end)
  | RecWait d =>
      print_ok ← received (sys_chan s);
      Some (s <| sys_rec := if print_ok : bool then RecSubmit d else RecDelete d |>)
  | RecSubmit d =>
      let '(st, r) := submit_and_notify handler job (draft_name d) (sys_store s) in
      let s := s <| sys_store := st |> <| sys_rec := RecDone r |> in
      Some (if is_ok r then s <| sys_calls := sys_calls s ++ [Submitted (draft_name d)] |> else s)
  | RecDelete d =>
      let '(p, r) := port_delete (draft_name d) (sys_store s).1 in
      let s := s <| sys_store := (p, (sys_store s).2) |>
                 <| sys_rec := RecDone (map_err store_write r) |> in
      Some (if is_ok r then s <| sys_calls := sys_calls s ++ [Deleted (draft_name d)] |> else s)
  | RecDone _ => None
  end.

(** Either task may run next; the driver answers anything, and the handler may
    be dropped while it waits. *)
Inductive print_step (handler : bool) (job : NormalizedMaterialReceiptJob) (epc : string)
  : print_sys → print_sys → Prop :=
  | StepPrinted s r : sys_main s = MainPrinting → print_step handler job epc s (main_result r s)
  | StepDropped s : sys_main s = MainPrinting →
      print_step handler job epc s (s <| sys_main := MainDropped |> <| sys_chan := ChanClosed |>)
  | StepRecorder s s' : recorder_step handler job epc s = Some s' → print_step handler job epc s s'.
End recording.
