(* ===== verification/ReceiptFacts.v ===== *)
(** Facts about print jobs and material receipts: the bounds of an accepted
    job, confirming a label twice, and every interleaving of the driver-first
    flow. *)
From Stdlib Require Import Ascii SpecFloat.
From S2P Require Import Prelude RustStr F64 Json Epc Receipts.

(** * Floats *)

Lemma f64_sub_self x : is_finite x = true → f64_abs (f64_sub x x) = f64_zero.
Proof.
  destruct x as [[]|[]| |s m e]; try done. intros _. unfold f64_sub, SFsub.
  rewrite Z.min_id. unfold shl_align. rewrite Z.sub_diag. simpl fst.
  by destruct s; simpl cond_Zopp.
Qed.

(** A non-finite difference is NaN, which exceeds nothing. *)
Lemma f64_sub_self_close x : f64_lt TOLERANCE (f64_abs (f64_sub x x)) = false.
Proof.
  destruct (is_finite x) eqn:Hx; [by rewrite f64_sub_self|].
  by destruct x as [[]|[]| |s m e].
Qed.

Lemma f64_lt_total m e x :
  f64_lt f64_zero x = true → f64_lt x (S754_finite false m e) = false →
  f64_le (S754_finite false m e) x = true.
Proof.
  unfold f64_lt, f64_le, SFltb, SFleb, f64_zero.
  destruct x as [[]|[]| |[] m' e']; try done. intros _. simpl.
  rewrite (Z.compare_antisym e' e). destruct (e' ?= e)%Z; simpl; try done.
  pose proof (Pos.compare_cont_antisym m m' Eq) as Ha. simpl in Ha. rewrite <-Ha.
  by destruct (Pos.compare_cont Eq m m').
Qed.

Lemma min_batch_reached x :
  f64_lt f64_zero x = true → f64_lt x MIN_BATCH_QTY_KG = false → f64_le MIN_BATCH_QTY_KG x = true.
Proof.
  destruct MIN_BATCH_QTY_KG as [| | |[] m e] eqn:Hmin; vm_compute in Hmin; try done.
  apply f64_lt_total.
Qed.

Lemma positive_erp_quantity_pos v x : positive_erp_quantity v = Some x → f64_lt f64_zero x = true.
Proof.
  unfold positive_erp_quantity. destruct (normalize_erp_quantity v) as [y|]; [simpl|done].
  destruct (f64_lt f64_zero y) eqn:Hy; [|done]. by intros [= <-].
Qed.

Lemma same_positive x : is_positive x = true → same_optional_number (Some x) (Some x) = true.
Proof.
  unfold is_positive. intros [Hf _]%andb_prop. simpl. by rewrite f64_sub_self.
Qed.

(** * Accepted jobs *)

Section facts.
Context `{J : Json}.

Record job_wf (job : NormalizedMaterialReceiptJob) : Prop := {
  wf_item_code : trim (job_item_code job) = job_item_code job ∧ job_item_code job ≠ "";
  wf_warehouse : trim (job_warehouse job) = job_warehouse job ∧ job_warehouse job ≠ "";
  wf_gross : f64_le MIN_BATCH_QTY_KG (job_gross_qty job) = true;
  wf_net : f64_le MIN_BATCH_QTY_KG (job_net_qty job) = true;
  wf_tare : job_tare_enabled job = f64_lt f64_zero (job_tare_kg job);
  wf_dimensions : match job_width_mm job, job_micron job with
                  | None, None => True
                  | Some w, Some m => is_positive w = true ∧ is_positive m = true
                  | _, _ => False
                  end;
  wf_length : ∀ l, job_length_m job = Some l → is_positive l = true;
  wf_print_count : (1 ≤ job_print_count job ≤ MAX_MATERIAL_PRINT_COUNT)%Z;
}.

Lemma normalize_dimensions_ok w m w' m' :
  normalize_dimensions w m = Ok (w', m') →
  match w', m' with
  | None, None => True
  | Some w, Some m => is_positive w = true ∧ is_positive m = true
  | _, _ => False
  end.
Proof.
  unfold normalize_dimensions. intros H. break; simplify_eq/=; try done.
  by apply andb_prop.
Qed.

Lemma net_qty_positive gross tare :
  f64_lt f64_zero gross = true →
  let net := if f64_lt f64_zero tare
             then default f64_zero (positive_erp_quantity (f64_sub gross tare)) else gross in
  f64_lt net MIN_BATCH_QTY_KG = false → f64_lt f64_zero net = true.
Proof.
  intros Hg net. subst net. destruct (f64_lt f64_zero tare); [|done].
  destruct (positive_erp_quantity _) as [x|] eqn:Hx; simpl; [|done].
  by apply positive_erp_quantity_pos in Hx.
Qed.

Lemma is_empty_false s : is_empty s = false → s ≠ "".
Proof. by destruct s. Qed.

Lemma normalize_length_ok l l' : normalize_length l = Ok l' → ∀ x, l' = Some x → is_positive x = true.
Proof. unfold normalize_length. intros H x ->. break; simplify_eq/=; done. Qed.

Lemma normalize_print_count_bounds n :
  (0 ≤ n ≤ MAX_MATERIAL_PRINT_COUNT)%Z →
  (1 ≤ normalize_print_count n ≤ MAX_MATERIAL_PRINT_COUNT)%Z.
Proof. unfold normalize_print_count, MAX_MATERIAL_PRINT_COUNT. case_match; breflect; lia. Qed.

(** The quantity that reaches the stock: the gross weight less the tare, in
    whole quantity units. *)
Definition net_of (gross tare net : f64) : Prop :=
  if f64_lt f64_zero tare then positive_erp_quantity (f64_sub gross tare) = Some net
  else net = gross.

Lemma net_of_accepted gross tare :
  let net := if f64_lt f64_zero tare
             then default f64_zero (positive_erp_quantity (f64_sub gross tare)) else gross in
  f64_lt net MIN_BATCH_QTY_KG = false → net_of gross tare net.
Proof.
  simpl. unfold net_of. destruct (f64_lt f64_zero tare); [|done].
  by destruct (positive_erp_quantity _) as [x|] eqn:Hx.
Qed.

Lemma job_from_request_spec request job :
  (0 ≤ req_print_count request)%Z → job_from_request request = Ok job →
  job_wf job ∧ net_of (job_gross_qty job) (job_tare_kg job) (job_net_qty job).
Proof.
  intros Hcount H. unfold job_from_request in H. inv_ok. breflect.
  repeat match goal with
  | x : _ * _ |- _ => destruct x
  | H : ok_or _ _ = Ok _ |- _ => apply ok_or_Ok in H
  | H : positive_erp_quantity _ = Some _ |- _ => apply positive_erp_quantity_pos in H
  | H : is_empty _ = false |- _ => apply is_empty_false in H
  | H : normalize_dimensions _ _ = Ok _ |- _ => apply normalize_dimensions_ok in H
  end; inv_ok.
  split; [|by apply net_of_accepted]. constructor; simpl; try done.
  - split; [apply trim_idemp|done].
  - split; [apply trim_idemp|done].
  - by apply min_batch_reached.
  - apply min_batch_reached; [|done]. by apply net_qty_positive.
  - by eapply normalize_length_ok.
  - by apply normalize_print_count_bounds.
Qed.

(** A print request that is accepted gives a job with non-empty trimmed
    item and warehouse, gross and net weight of at least the minimum batch,
    width and thickness both absent or both positive and finite, 1 to 100
    labels, and a net weight that is the gross weight less the tare in whole
    quantity units. *)
Theorem accepted_job_is_well_formed request job :
  (0 ≤ req_print_count request)%Z → job_from_request request = Ok job →
  job_wf job ∧ net_of (job_gross_qty job) (job_tare_kg job) (job_net_qty job).
Proof. apply job_from_request_spec. Qed.

(** * Confirming a label *)

Context `{P : !ReceiptPort}.

Lemma option_eqb_refl `{!ReceiptPortLaws P} o : option_eqb o o = true.
Proof. destruct o; [apply value_eqb_refl|done]. Qed.

Lemma same_assignment_of `{!ReceiptPortLaws P} d job :
  draft_order_assignment d = job_order_assignment job → same_assignment d job = true.
Proof.
  intros Heq. unfold same_assignment. rewrite Heq. apply forallb_forall.
  intros key _. apply option_eqb_refl.
Qed.

(** What [record_confirmed_material_receipt] accepts matches the job. *)
Lemma validate_own_content job :
  job_wf job →
  validate_existing_receipt (job_item_code job) (job_warehouse job) (job_net_qty job)
    (job_width_mm job) (job_micron job) (job_length_m job) job = Ok tt.
Proof.
  intros [[Hi _] [Hw _] _ _ _ Hd Hl _]. unfold validate_existing_receipt.
  rewrite Hi, Hw, !eq_ignore_ascii_case_refl, f64_sub_self_close. simpl.
  assert (∀ o, (∀ x, o = Some x → is_positive x = true) → same_optional_number o o = true) as Hself.
  { intros [x|] Hx; [by apply same_positive, Hx|done]. }
  rewrite !Hself; [done| | |]; try done;
    destruct (job_width_mm job), (job_micron job); naive_solver.
Qed.

(** After a submission the receipt is found again with the same content. *)
Lemma confirmed_again `{!ReceiptPortLaws P} handler job epc d s s' events :
  port_receipt_by_barcode epc s = Ok (Some d) →
  port_submit (draft_name d) s = (s', Ok tt) →
  same_assignment d job = true →
  validate_existing_receipt (draft_item_code d) (draft_warehouse d) (draft_qty d)
    (draft_width_mm d) (draft_micron d) (draft_length_m d) job = Ok tt →
  record_confirmed_material_receipt job epc handler (s', events) = ((s', events), Ok (draft_name d)).
Proof.
  intros Hd Hs Ha Hv.
  destruct (submit_stocks epc d s s' Hd Hs) as (Hr & st & Hst & E1 & E2 & E3 & E4 & E5 & E6 & E7).
  unfold record_confirmed_material_receipt. simpl. rewrite Hr. simpl. rewrite Ha. simpl.
  rewrite Hst. by rewrite E1, E2, E3, E4, E5, E6, Hv, E7.
Qed.

Lemma created_draft_matches `{!ReceiptPortLaws P} job epc s s' d :
  job_wf job → create_material_receipt_draft job epc s = (s', Ok d) →
  port_receipt_by_barcode epc s' = Ok (Some d) ∧ same_assignment d job = true ∧
  validate_existing_receipt (draft_item_code d) (draft_warehouse d) (draft_qty d)
    (draft_width_mm d) (draft_micron d) (draft_length_m d) job = Ok tt.
Proof.
  intros Hwf. unfold create_material_receipt_draft.
  destruct (port_create _ s) as [s1 [d1|]] eqn:Hc; [|done]. simpl. intros [= <- <-].
  apply create_found in Hc as (E1 & E2 & E3 & E4 & E5 & E6 & E7 & Hfound). simpl in *.
  split_and!; [done|by apply same_assignment_of|]. rewrite E2, E3, E4, E5, E6, E7.
  by apply validate_own_content.
Qed.

Lemma submit_and_notify_Ok handler job name s events st' u :
  submit_and_notify handler job name (s, events) = (st', Ok u) →
  ∃ s', port_submit name s = (s', Ok tt) ∧ st'.1 = s'.
Proof.
  simpl. destruct (port_submit name s) as [s' [[]|]]; [|done]. intros [= <- _]. eauto.
Qed.

Lemma record_confirmed_twice `{!ReceiptPortLaws P} handler job epc st st' name :
  job_wf job →
  record_confirmed_material_receipt job epc handler st = (st', Ok name) →
  record_confirmed_material_receipt job epc handler st' = (st', Ok name).
Proof.
  intros Hwf H. pose proof H as H0. unfold record_confirmed_material_receipt in H.
  destruct (port_receipt_by_barcode epc st.1) as [od|] eqn:Hd; [|done].
  destruct (is_some_and od _) eqn:Hsame; [done|].
  destruct (port_stock_by_barcode epc st.1) as [[stock|]|] eqn:Hstock; [|..|done].
  { injection H as <- _. done. }
  match type of H with context [match ?x with _ => _ end] =>
    assert (∀ s d, x = (s, Ok d) → port_receipt_by_barcode epc s = Ok (Some d) ∧
      same_assignment d job = true ∧
      validate_existing_receipt (draft_item_code d) (draft_warehouse d) (draft_qty d)
        (draft_width_mm d) (draft_micron d) (draft_length_m d) job = Ok tt) as Hx end.
  { intros s d. destruct od as [d0|]; [|by apply created_draft_matches].
    simpl in Hsame. apply negb_false_iff in Hsame.
    destruct (validate_existing_receipt _ _ _ _ _ _ _) as [[]|] eqn:Hv; [|done].
    by intros [= <- <-]. }
  destruct (match od with Some _ => _ | None => _ end) as [s [d|]]; [|done].
  destruct (Hx s d eq_refl) as (Hr & Ha & Hv).
  destruct (submit_and_notify _ _ _ _) as [st1 [u|]] eqn:Hsub; [|done].
  injection H as <- <-. apply submit_and_notify_Ok in Hsub as (s' & Hs & Hst1).
  destruct st1 as [p events]. simpl in Hst1. subst p. by eapply confirmed_again.
Qed.

(** Confirming a printed label again after it was recorded gives the same
    answer and changes nothing: no second draft, no second submission, no second
    event. The store is assumed to find a draft by its barcode and to keep its
    content when it is submitted. *)
Theorem confirming_twice_records_once `{!ReceiptPortLaws P} svc request epc st st' response :
  (0 ≤ req_print_count request)%Z →
  confirm_material_receipt_client_print svc request epc st = (st', Ok response) →
  confirm_material_receipt_client_print svc request epc st' = (st', Ok response).
Proof.
  intros Hcount. unfold confirm_material_receipt_client_print.
  match goal with |- context [match ?x with _ => _ end] => destruct x as [[job epc']|] eqn:Hx end;
    [|done].
  inv_ok. apply job_from_request_spec in H0 as [Hwf _]; [|done]. simplify_eq.
  destruct (record_confirmed_material_receipt _ _ _ st) as [st1 [name|]] eqn:Hrec; [|done].
  intros [= <- <-]. by rewrite (record_confirmed_twice _ _ _ _ _ _ Hwf Hrec).
Qed.

(** * The driver-first flow *)

Section interleavings.
Context (handler : bool) (job : NormalizedMaterialReceiptJob) (epc : string).
Local Abbreviation step := (print_step handler job epc).

(** The label came out of the printer. *)
Definition printed (s : print_sys) : bool :=
  match sys_main s with MainDone (Ok _) => true | _ => false end.

(** How a finished recording task ended, by what it did to the store. *)
Definition recorded (s : print_sys) (r : result GscaleServiceError unit) : Prop :=
  match r with
  | Ok _ => ∃ d, sys_calls s = [Created (draft_name d);
                               if printed s then Submitted (draft_name d) else Deleted (draft_name d)]
  | Err _ => sys_calls s = [] ∨ ∃ name, sys_calls s = [Created name]
  end.

Definition chan_inv (s : print_sys) : Prop :=
  received (sys_chan s) = match sys_main s with MainPrinting => None | _ => Some (printed s) end.

Definition rec_inv (s : print_sys) : Prop :=
  match sys_rec s with
  | RecCreate => sys_calls s = []
  | RecWait d => sys_calls s = [Created (draft_name d)]
  | RecSubmit d =>
      sys_calls s = [Created (draft_name d)] ∧ received (sys_chan s) = Some true
  | RecDelete d =>
      sys_calls s = [Created (draft_name d)] ∧ received (sys_chan s) = Some false
  | RecDone r => recorded s r ∧ (is_ok r = true → sys_main s ≠ MainPrinting)
  end.

Lemma main_result_inv r s :
  sys_main s = MainPrinting → chan_inv s → rec_inv s →
  chan_inv (main_result r s) ∧ rec_inv (main_result r s).
Proof.
  destruct s as [m c t st calls]. unfold chan_inv, rec_inv, main_result, recorded, printed. simpl.
  intros -> Hc. destruct (completed_print r); simpl; rewrite Hc;
    destruct t as [| | | |[]]; naive_solver.
Qed.

Lemma dropped_inv s :
  sys_main s = MainPrinting → chan_inv s → rec_inv s →
  let s' := s <| sys_main := MainDropped |> <| sys_chan := ChanClosed |> in
  chan_inv s' ∧ rec_inv s'.
Proof.
  destruct s as [m c t st calls]. unfold chan_inv, rec_inv, recorded, printed. simpl.
  intros -> Hc. rewrite Hc. destruct t as [| | | |[]]; naive_solver.
Qed.

Lemma recorder_inv s s' :
  recorder_step handler job epc s = Some s' → chan_inv s → rec_inv s → chan_inv s' ∧ rec_inv s'.
Proof.
  destruct s as [m c t st calls]. unfold recorder_step, chan_inv, rec_inv, recorded, printed.
  simpl. intros H Hc Hr. destruct t as [|d|d|d|]; simpl in *.
  - destruct (create_material_receipt_draft _ _ _) as [p [d|]]; simplify_eq/=; naive_solver.
  - destruct (received c) as [[]|] eqn:Hrc; [| |done]; injection H as <-; simpl; rewrite Hrc; auto.
  - destruct (submit_and_notify _ _ _ _) as [st' [[]|]]; simplify_eq/=; destruct m as [|[]|]; naive_solver.
  - destruct (port_delete _ _) as [p [[]|]]; simplify_eq/=; destruct m as [|[]|]; naive_solver.
  - done.
Qed.

Lemma step_inv s s' : step s s' → chan_inv s → rec_inv s → chan_inv s' ∧ rec_inv s'.
Proof. intros []; [by apply main_result_inv|by apply dropped_inv|by apply recorder_inv]. Qed.

Lemma run_inv st s : rtc step (print_init st) s → chan_inv s ∧ rec_inv s.
Proof.
  assert (∀ s0, rtc step s0 s → chan_inv s0 → rec_inv s0 → chan_inv s ∧ rec_inv s) as Hgen.
  { intros s0 Hrun. induction Hrun as [|s1 s2 s3 Hs _ IH]; [done|]. intros Hc Hr.
    destruct (step_inv s1 s2 Hs Hc Hr). by apply IH. }
  intros Hrun. by apply (Hgen _ Hrun).
Qed.

(** Steps left: one for the request handler, three for the recording task. *)
Definition steps_left (s : print_sys) : nat :=
  match sys_main s with MainPrinting => 1 | _ => 0 end +
  match sys_rec s with
  | RecCreate => 3 | RecWait _ => 2 | RecSubmit _ | RecDelete _ => 1 | RecDone _ => 0
  end.

Lemma step_decreases s s' : step s s' → steps_left s' < steps_left s.
Proof.
  intros [s0 r Hm|s0 Hm|s0 s1 H]; unfold steps_left.
  - unfold main_result. rewrite Hm. destruct (completed_print r); simpl; lia.
  - rewrite Hm. simpl. lia.
  - destruct s0 as [m c t st calls]. unfold recorder_step in H. destruct t as [|d|d|d|]; simpl in H.
    + destruct (create_material_receipt_draft _ _ _) as [p [d|]]; injection H as <-; simpl; lia.
    + destruct (received c) as [[]|]; [| |done]; injection H as <-; simpl; lia.
    + destruct (submit_and_notify _ _ _ _) as [st' [[]|]]; injection H as <-; simpl; lia.
    + destruct (port_delete _ _) as [p [[]|]]; injection H as <-; simpl; lia.
    + done.
Qed.

Lemma nsteps_decrease n s s' : nsteps step n s s' → n + steps_left s' ≤ steps_left s.
Proof. induction 1 as [|n x y z H%step_decreases]; lia. Qed.

(** Neither task can be stuck while it has work left. *)
Lemma step_progress s : chan_inv s → steps_left s ≠ 0 → red step s.
Proof.
  intros Hc Hleft. destruct (sys_main s) eqn:Hm.
  { eexists. by apply StepDropped. }
  all: unfold steps_left in Hleft; rewrite Hm in Hleft; unfold chan_inv in Hc; rewrite Hm in Hc.
  all: assert (is_Some (recorder_step handler job epc s)) as [s' Hs'];
    [|eexists; by apply StepRecorder]; unfold recorder_step.
  all: destruct (sys_rec s) as [| | | |]; simpl; try lia; try (by rewrite Hc).
  all: try (by destruct (create_material_receipt_draft _ _ _)); by case_match.
Qed.

(** The store calls a run may have made so far, and what they say of the print. *)
Inductive calls_match (s : print_sys) : Prop :=
  | CallsNone : sys_calls s = [] → calls_match s
  | CallsDraft name : sys_calls s = [Created name] → calls_match s
  | CallsSubmitted name : sys_calls s = [Created name; Submitted name] → printed s = true →
      calls_match s
  | CallsDeleted name : sys_calls s = [Created name; Deleted name] → printed s = false →
      sys_main s ≠ MainPrinting → calls_match s.

Lemma rec_inv_calls s : rec_inv s → calls_match s.
Proof.
  unfold rec_inv, recorded. destruct (sys_rec s) as [|d|d|d|[u|e]]; intros Hr.
  - by apply CallsNone.
  - by eapply CallsDraft.
  - destruct Hr as [Hr _]. by eapply CallsDraft.
  - destruct Hr as [Hr _]. by eapply CallsDraft.
  - destruct Hr as [(d & Hd) Hm]. destruct (printed s) eqn:Hp.
    + by eapply CallsSubmitted.
    + eapply CallsDeleted; [done..|]. by apply Hm.
  - destruct Hr as [[Hr|[name Hr]] _]; [by apply CallsNone|by eapply CallsDraft].
Qed.

(** C37: In every interleaving of the request handler and the recording task, a
    receipt draft is submitted only after the label was printed and deleted only
    after printing failed or the request was dropped, never both; a run that
    cannot continue has finished recording, and it succeeded only with the draft
    submitted when printed and deleted otherwise. *)
Theorem driver_first_records_printed_labels st s :
  rtc step (print_init st) s →
  calls_match s ∧ (nf step s → ∃ r, sys_rec s = RecDone r ∧ recorded s r).
Proof.
  intros [Hc Hr]%run_inv. split; [by apply rec_inv_calls|]. intros Hnf.
  destruct (decide (steps_left s = 0)) as [H0|Hn]; [|by destruct Hnf; apply step_progress].
  unfold steps_left in H0. unfold rec_inv in Hr.
  destruct (sys_rec s) as [| | | |r]; try lia. naive_solver.
Qed.

(** The driver-first flow takes at most four steps in every interleaving,
    and while the handler or the recording task has work left some step is
    possible, so it never deadlocks. *)
Theorem driver_first_terminates st n s :
  nsteps step n (print_init st) s → n ≤ 4 ∧ (steps_left s ≠ 0 → red step s).
Proof.
  intros Hn. split.
  - apply nsteps_decrease in Hn. unfold steps_left in Hn at 2. simpl in Hn. lia.
  - apply step_progress. apply (run_inv st), rtc_nsteps. eauto.
Qed.
End interleavings.
End facts.
