(* ===== verification/CutLayout.v ===== *)
(** Cutting rolls into lanes.

    Models [src/core/production_map/layout.rs] (which lanes of the product layout a
    roll carries, how a cutting stage divides them, and what the outputs are called)
    and the frame counts of [progress_session/service_progress_support.rs]. *)
From S2P Require Import Prelude RustStr F64 Json Errors Identity OrderLayout MapDefinition Formula Compiler Bfs Chain Projection Scheduler Progress.

(** Derived equality of lanes. *)
Definition lane_eqb (a b : OrderLane) : bool :=
  (lane_id a =s lane_id b) && (lane_product_id a =s lane_product_id b) &&
  (lane_order_number a =s lane_order_number b) && (lane_item_code a =s lane_item_code b) &&
  (lane_product a =s lane_product b) && f64_eq (lane_width_mm a) (lane_width_mm b).

Fixpoint lanes_eqb (a b : list OrderLane) : bool :=
  match a, b with
  | [], [] => true
  | x :: a, y :: b => lane_eqb x y && lanes_eqb a b
  | _, _ => false
  end.

(** [slice.get(start..end)]. *)
Definition get_range {A} (l : list A) (start count : nat) : option (list A) :=
  if (start + count <=? length l) then Some (take count (drop start l)) else None.

Definition usize_MAX : Z := 2 ^ 64 - 1.
Definition usize_checked (z : Z) : option Z := if (z <=? usize_MAX)%Z then Some z else None.

(** * Frames of a cutting stage (service_progress_support.rs) *)

(** [usize::try_from(value)], positive. *)
Definition frame_group_count (group : Z) : pm_result nat :=
  if (0 <? group)%Z then Ok (Z.to_nat group) else Err InvalidRezkaFrameGroups.

Definition rezka_output_kadr_counts_for_node (node : ProductionMapNode) (input_count : option nat)
    (is_final : bool) : pm_result (list nat) :=
  match rezka_kadr_count node with
  | Some total =>
      if (0 <? total)%Z then
        let total := Z.to_nat total in
        if is_final then
          let count := default total input_count in
          if count =? 0 then Err RezkaKadrCountRequired else Ok (replicate count 1)
        else match rezka_frame_groups node with
             | [] => Ok (replicate total 1)
             | groups => map_result frame_group_count groups
             end
      else Err RezkaKadrCountRequired
  | None => Err RezkaKadrCountRequired
  end.

Definition rezka_output_kadr_counts (map : ProductionMapDefinition) (apparatus stage_node_id : string)
    (input_count : option nat) : pm_result (list nat) :=
  stage ← ok_or (work_stage_for_station map apparatus stage_node_id) ProgressBatchNotAccepted;
  node ← ok_or (List.find (λ node, trim (node_id node) =s trim (Chain.stage_node_id stage)) (map_nodes map))
           ProgressBatchNotAccepted;
  rezka_output_kadr_counts_for_node node input_count (is_final_work_stage_node map (Chain.stage_node_id stage)).

(** * Lanes of a roll (layout.rs) *)

Section layout.
Context `{J : Json} `{!Serde (list OrderLane)}.

Definition payload_lanes (payload : value) : list OrderLane :=
  default [] (v ← json_get "layout_lanes" payload; from_value v).

(** The loop over the groups of a stage: groups are laid out side by side, each
    output is the part of a group that lies on the input. *)
Fixpoint cut_groups (groups : list Z) (start stop cursor : Z) (counts : list nat)
  : pm_result (Z * list nat) :=
  match groups with
  | [] => Ok (cursor, counts)
  | group :: groups =>
      if (0 <? group)%Z then
        boundary ← ok_or (usize_checked (cursor + group)) InvalidRezkaFrameGroups;
        let first := Z.max cursor start in
        let last := Z.min boundary stop in
        cut_groups groups start stop boundary
          (if (first <? last)%Z then counts ++ [Z.to_nat (last - first)] else counts)
      else Err InvalidRezkaFrameGroups
  end.

(** The lanes a cut works on: a first cut has no input and takes the layout. *)
Definition cut_input (map : ProductionMapDefinition) (input : list OrderLane) : list OrderLane :=
  match input with [] => layout_lanes map | _ => input end.

Definition cut_counts (map : ProductionMapDefinition) (stage_node_id : string) (input : list OrderLane)
  : pm_result (list nat) :=
  let all := layout_lanes map in
  let lanes := cut_input map input in
  first ← ok_or (head lanes) InvalidRezkaFrameGroups;
  start ← ok_or (position (λ lane, lane_eqb lane first) all) InvalidRezkaFrameGroups;
  _ ← check (negb (is_some_and (get_range all start (length lanes)) (λ l, lanes_eqb l lanes)))
        InvalidRezkaFrameGroups;
  node ← ok_or (List.find (λ node, node_id node =s stage_node_id) (map_nodes map)) InvalidRezkaFrameGroups;
  match is_final_work_stage_node map stage_node_id, rezka_frame_groups node with
  | true, _ | _, [] => Ok (replicate (length lanes) 1)
  | false, groups =>
      '(cursor, counts) ← cut_groups groups (Z.of_nat start) (Z.of_nat (start + length lanes)) 0 [];
      _ ← check (negb (cursor =? Z.of_nat (length all))%Z ||
                 negb (sum_list counts =? length lanes)) InvalidRezkaFrameGroups;
      Ok counts
  end.

(** Lanes an output carries: a slice of its input. *)
Definition output_lanes (map : ProductionMapDefinition) (input_lanes : list OrderLane) (has_input : bool)
    (lane_offset lane_count : option nat) : pm_result (list OrderLane) :=
  let original := layout_lanes map in
  input ← (match input_lanes with
           | [] => _ ← check has_input ProgressInputInvalid; Ok original
           | _ => Ok input_lanes
           end);
  _ ← check (match input with [] => true | _ => false end ||
             existsb (λ lane, negb (existsb (lane_eqb lane) original)) input) ProgressInputInvalid;
  lanes ← (match lane_offset with
           | Some offset =>
               count ← ok_or lane_count ProgressInputInvalid;
               ok_or (get_range input offset count) ProgressInputInvalid
           | None => Ok input
           end);
  _ ← check (match lanes with [] => true | _ => false end) ProgressInputInvalid;
  Ok lanes.

Definition apply_output_layout (batch : OrderProgressBatch) (map : ProductionMapDefinition)
    (input_lanes : list OrderLane) (has_input : bool) (lane_offset lane_count : option nat)
  : run_result OrderProgressBatch :=
  match map_products map with
  | [] => Ok batch
  | _ =>
      lanes ← lift (output_lanes map input_lanes has_input lane_offset lane_count);
      batch ← set_payloads
        [("layout_lanes", to_value lanes); ("contained_kadr_count", json_Z (Z.of_nat (length lanes)));
         ("layout_width_mm", json_f64 (f64_sum (lane_width_mm <$> lanes)))] batch;
      product ← expect (head lanes);
      if forallb (λ lane, lane_product_id lane =s lane_product_id product) lanes then
        set_payloads
          [("product_id", json_str (lane_product_id product));
           ("product_order_number", json_str (lane_order_number product));
           ("product_code", json_str (lane_item_code product));
           ("product_name", json_str (lane_product product))]
          (batch <| batch_label_item_code := lane_item_code product |>
                 <| batch_label_item_name := lane_product product |>)
      else Ok batch
  end.

(** Item code and name under which a roll goes to stock. *)
Definition finished_product (map : ProductionMapDefinition) (batch : OrderProgressBatch)
  : pm_result (string * string) :=
  match map_products map with
  | [] =>
      _ ← check (is_some (map_combo map)) ProgressInputInvalid;
      Ok (map_product_code map, map_title map)
  | _ =>
      match payload_lanes (batch_payload_json batch) with
      | [first] =>
          _ ← check (negb (existsb (lane_eqb first) (layout_lanes map))) ProgressInputInvalid;
          Ok (lane_item_code first, lane_product first)
      | _ => Err InvalidRezkaFrameGroups
      end
  end.

(** ** The outputs of a session, for display *)
Definition lane_label (lane : OrderLane) : string :=
  lane_product lane +:+ " · №" +:+ lane_order_number lane.

Definition output_group (group : list OrderLane) : value :=
  json_object
    [("name", json_str (String.concat " + " (dedup_seen ∅ (lane_label <$> group))));
     ("width_mm", json_f64 (f64_sum (lane_width_mm <$> group)));
     ("lanes", to_value group)].

Fixpoint output_groups (lanes : list OrderLane) (counts : list Z) (offset : nat) : option (list value * nat) :=
  match counts with
  | [] => Some ([], offset)
  | count :: counts =>
      if (count <? 0)%Z then None
      else
        group ← get_range lanes offset (Z.to_nat count);
        match group with
        | [] => None
        | _ =>
            '(outputs, offset) ← output_groups lanes counts (offset + Z.to_nat count);
            Some (output_group group :: outputs, offset)
        end
  end.

Definition output_layout (map : ProductionMapDefinition) (session : RunSession) (counts : list Z) : value :=
  match map_products map with
  | [] => json_null
  | _ =>
      let stored := payload_lanes (session_payload_json session) in
      let lanes := match stored with [] => layout_lanes map | _ => stored end in
      match output_groups lanes counts 0 with
      | Some (outputs, offset) => if offset =? length lanes then json_list outputs else json_null
      | None => json_null
      end
  end.
End layout.

(** * Facts

    Correctness of cutting: the outputs of a cut partition the lanes of its input along
    the frame groups of the stage, and an output carries lanes of the order. *)

(** * Reference *)

(** The frame groups of a stage as intervals of lanes, side by side. *)
Fixpoint group_spans (groups : list Z) (cursor : Z) : list (Z * Z) :=
  match groups with
  | [] => []
  | group :: groups => (cursor, cursor + group)%Z :: group_spans groups (cursor + group)
  end.

(** How many lanes of a group lie on the input. *)
Definition overlap (start stop : Z) (span : Z * Z) : nat :=
  Z.to_nat (Z.min span.2 stop - Z.max span.1 start).

(** The outputs of a cut: the part of each group on the input, where there is one. *)
Definition reference_counts (groups : list Z) (start stop : Z) : list nat :=
  List.filter (λ n, 0 <? n) (overlap start stop <$> group_spans groups 0).

(** Consecutive slices of a list. *)
Fixpoint slices {A} (counts : list nat) (l : list A) : list (list A) :=
  match counts with
  | [] => []
  | n :: counts => take n l :: slices counts (drop n l)
  end.

Lemma slices_concat {A} counts (l : list A) : sum_list counts = length l → concat (slices counts l) = l.
Proof.
  revert l. induction counts as [|n counts IH]; intros l Hl; simpl in *.
  - by destruct l.
  - rewrite IH; [apply take_drop|]. rewrite length_drop. lia.
Qed.

(** * The loop over the groups *)

Lemma cut_groups_spec groups start stop cursor counts cursor' counts' :
  cut_groups groups start stop cursor counts = Ok (cursor', counts') →
  Forall (λ g, 0 < g)%Z groups ∧ cursor' = (cursor + foldr Z.add 0 groups)%Z ∧
  counts' = counts ++ List.filter (λ n, 0 <? n) (overlap start stop <$> group_spans groups cursor).
Proof.
  revert cursor counts. induction groups as [|g groups IH]; intros cursor counts; simpl.
  - intros [= <- <-]. split_and!; [constructor|lia|by rewrite app_nil_r].
  - destruct (0 <? g)%Z eqn:Hg; [|done]. unfold usize_checked.
    destruct (_ <=? _)%Z; [|done]. simpl. intros (H1 & H2 & H3)%IH. breflect.
    split_and!; [by constructor|lia|]. rewrite H3. unfold overlap at 2. simpl.
    destruct (Z.ltb_spec (Z.max cursor start) (Z.min (cursor + g) stop)) as [Hlt|Hge].
    + assert ((0 <? Z.to_nat (Z.min (cursor + g) stop - Z.max cursor start)) = true) as ->
        by (apply Nat.ltb_lt; lia). by rewrite <-app_assoc.
    + assert ((0 <? Z.to_nat (Z.min (cursor + g) stop - Z.max cursor start)) = false) as ->
        by (apply Nat.ltb_ge; lia). done.
Qed.

Lemma reference_counts_pos groups start stop : Forall (λ n, 0 < n) (reference_counts groups start stop).
Proof. apply Forall_forall. intros n [_ Hn]%filterb_elem. breflect. by apply Nat.ltb_lt. Qed.

Lemma sum_replicate n : sum_list (replicate n 1) = n.
Proof. induction n as [|n IH]; simpl; lia. Qed.

Section facts.
Context `{J : Json} `{!Serde (list OrderLane)}.

(** The outputs of a cut divide the lanes of its input, in order and
    without a rest, into groups of at least one lane; an intermediate cutter
    follows the frame groups configured for its node, restricted to the part of
    the order the input carries, as the reference counts of whole groups give
    them, and any other cut makes one output per lane. *)
Theorem cut_outputs_follow_groups map stage_node_id input counts :
  cut_counts map stage_node_id input = Ok counts →
  let lanes := cut_input map input in
  Forall (λ n, 0 < n) counts ∧ concat (slices counts lanes) = lanes ∧
  ∃ start node all, get_range (layout_lanes map) start (length lanes) = Some all ∧
    lanes_eqb all lanes = true ∧
    node ∈ map_nodes map ∧ node_id node = stage_node_id ∧
    (counts = replicate (length lanes) 1 ∨
     is_final_work_stage_node map stage_node_id = false ∧
     counts = reference_counts (rezka_frame_groups node) (Z.of_nat start)
                (Z.of_nat (start + length lanes)) ∧
     foldr Z.add 0%Z (rezka_frame_groups node) = Z.of_nat (length (layout_lanes map))).
Proof.
  unfold cut_counts. cbv zeta. generalize (cut_input map input) as lanes. intros lanes H.
  inv_ok. destruct (head lanes) as [first|]; [|done]. injection H as <-.
  destruct (position _ _) as [start|]; [|done]. injection H0 as <-.
  destruct (get_range (layout_lanes map) start (length lanes)) as [all|] eqn:Hall; [|done].
  simpl in H1. destruct (List.find _ _) as [node|] eqn:Hnode; [|done]. injection H2 as <-.
  apply find_elem in Hnode as [Hin Hid]. breflect.
  assert (Hone : Forall (λ n, 0 < n) (replicate (length lanes) 1)).
  { apply Forall_replicate. lia. }
  destruct (is_final_work_stage_node map stage_node_id) eqn:Hfinal;
    [|destruct (rezka_frame_groups node) as [|g gs] eqn:Hgs].
  1,2: injection H3 as <-; split_and!;
       [done|by apply slices_concat, sum_replicate|exists start, node, all; by auto 10].
  apply bind_Ok in H3 as ([cursor cs] & Hcut & H3). inv_ok. breflect.
  apply cut_groups_spec in Hcut as (_ & Hcur & Hcs).
  change (counts = reference_counts (g :: gs) (Z.of_nat start) (Z.of_nat (start + length lanes))) in Hcs.
  rewrite <-Hgs in Hcs, Hcur.
  split_and!.
  - rewrite Hcs. apply reference_counts_pos.
  - by apply slices_concat.
  - exists start, node, all. split_and!; try done. right. split_and!; try done. lia.
Qed.
End facts.
