(* ===== verification/Paddon.v ===== *)
(** Pallets of finished rolls.

    Models [src/core/production_map/paddon/] (types, weights and the service) and the pallet tables of the memory store
    ([memory_store_trait_impl.rs]).  The memory store keeps the pallets but not what
    lies on them.  Each operation yields the store it left behind with its answer;
    the clock is an argument. *)
From S2P Require Import Prelude RustStr F64 Json Errors Identity QueueState OrderLayout MapDefinition Formula Compiler Bfs Chain Projection Scheduler Progress Preflight Epc.

(** * Data (types.rs) *)

Record PaddonSummary := {
  paddon_id : string;
  paddon_code : string;
  paddon_apparatus_id : string;
  paddon_location : string;
  paddon_note : string;
  paddon_created_by_ref : string;
  paddon_created_by_display_name : string;
  paddon_created_at_unix : Z;
  paddon_updated_at_unix : Z;
  paddon_item_count : Z;
  paddon_contains_peremotka : bool;
  paddon_locked_at_unix : option Z;
  paddon_total_gross_kg : option f64;
  paddon_total_net_kg : option f64;
}.
#[global] Instance PaddonSummary_rebuild : Rebuild PaddonSummary := λ r, {|
  paddon_id := paddon_id r;
  paddon_code := paddon_code r;
  paddon_apparatus_id := paddon_apparatus_id r;
  paddon_location := paddon_location r;
  paddon_note := paddon_note r;
  paddon_created_by_ref := paddon_created_by_ref r;
  paddon_created_by_display_name := paddon_created_by_display_name r;
  paddon_created_at_unix := paddon_created_at_unix r;
  paddon_updated_at_unix := paddon_updated_at_unix r;
  paddon_item_count := paddon_item_count r;
  paddon_contains_peremotka := paddon_contains_peremotka r;
  paddon_locked_at_unix := paddon_locked_at_unix r;
  paddon_total_gross_kg := paddon_total_gross_kg r;
  paddon_total_net_kg := paddon_total_net_kg r |}.

Record PaddonManagementSettings := {
  free_movement_enabled : bool;
  worker_visibility_enabled : bool;
}.
#[global] Instance PaddonManagementSettings_rebuild : Rebuild PaddonManagementSettings := λ r, {|
  free_movement_enabled := free_movement_enabled r;
  worker_visibility_enabled := worker_visibility_enabled r |}.

Record PaddonPrintConfirmation := {
  confirmation_paddon : PaddonSummary;
  confirmation_newly_locked : bool;
  confirmation_apparatuses : list string;
}.

Record PaddonCreateInput := {
  create_apparatus_id : string;
  create_location : string;
  create_note : string;
  create_actor_ref : string;
  create_actor_display_name : string;
}.

Record PaddonTransferInput := {
  transfer_source_code : string;
  transfer_target_code : string;
  transfer_progress_batch_ids : list string;
}.

(** The roles that manage any pallet. *)
Definition manages_pallets (role : string) : bool :=
  existsb (String.eqb role) ["admin"; "brigader"; "rezka_master"].

Definition paddon_unlock_actor_allowed (locked_by_ref : string) (free_movement : bool)
    (actor : QueueActionActor) : bool :=
  negb (blank (actor_ref actor)) &&
  (manages_pallets (actor_role actor) || free_movement ||
   ((actor_role actor =s "aparatchi") && (trim locked_by_ref =s trim (actor_ref actor)))).

(** * Weights (weights.rs) *)

Section weights.
Context `{J : Json}.

Definition units (value : option f64) : option Z :=
  v ← value;
  if f64_le f64_zero v then erp_quantity_to_units v else None.

Definition validate_bobina_units (gross bobina : option Z) : pm_result unit :=
  match gross, bobina with
  | Some gross, Some bobina => check (gross <? bobina)%Z BobinaExceedsGross
  | _, _ => Ok tt
  end.

Definition validate_bobina_weight (gross bobina : option f64) : pm_result unit :=
  validate_bobina_units (units gross) (units bobina).

Definition payload_f64 (payload : value) (key : string) : option f64 :=
  v ← json_get key payload; json_as_f64 v.

Definition positive_units (value : option f64) : option Z :=
  v ← units value;
  if (0 <? v)%Z then Some v else None.

(** The gross weight of a roll; a correction overrides what was recorded. *)
Definition gross_units (batch : OrderProgressBatch) (corrected_gross : option (option f64)) : option Z :=
  let payload := batch_payload_json batch in
  match corrected_gross with
  | Some value => positive_units value
  | None =>
      if is_some_and (json_get "gross_qty" payload) (λ v, negb (json_is_null v))
      then positive_units (payload_f64 payload "gross_qty")
      else positive_units (batch_finished_goods_kg batch)
  end.

Definition product_weights (batch : OrderProgressBatch) (corrected_gross : option (option f64))
  : option Z * option Z :=
  let gross := gross_units batch corrected_gross in
  let net :=
    if bool_decide (payload_bool (batch_payload_json batch) "include_bobina_in_net" = Some true) then gross
    else
      g ← gross; tare ← units (batch_bobina_kg batch);
      n ← i64_checked (g - tare);
      if (0 <=? n)%Z then Some n else None in
  (gross, net).

Definition validate_batch_bobina (batch : OrderProgressBatch) : pm_result unit :=
  validate_bobina_units (product_weights batch None).1 (units (batch_bobina_kg batch)).

Definition kg_from_values (v : value) : option f64 := payload_f64 v "finished_goods_kg".

Definition audited_kg_changed (old new : value) : bool :=
  negb (bool_decide (units (kg_from_values old) = units (kg_from_values new))).

Definition checked_sum (a b : option Z) : option Z :=
  a ← a; b ← b; i64_checked (a + b).

(** The loop of [set_totals]: a roll met before is not added again. *)
Fixpoint add_totals (items : list (OrderProgressBatch * option (option f64))) (seen : gset string)
    (totals : option Z * option Z) : option Z * option Z :=
  match items with
  | [] => totals
  | (batch, corrected) :: items =>
      if decide (batch_id batch ∈ seen) then add_totals items seen totals
      else
        let '(g, n) := product_weights batch corrected in
        add_totals items ({[batch_id batch]} ∪ seen) (checked_sum totals.1 g, checked_sum totals.2 n)
  end.

Definition set_totals (items : list (OrderProgressBatch * option (option f64))) (summary : PaddonSummary)
  : PaddonSummary :=
  let totals := add_totals items ∅ (Some 0%Z, Some 0%Z) in
  summary <| paddon_total_gross_kg := erp_quantity_from_units <$> totals.1 |>
          <| paddon_total_net_kg := erp_quantity_from_units <$> totals.2 |>.

Record PaddonSnapshot := {
  snapshot_paddon : PaddonSummary;
  snapshot_items : list OrderProgressBatch;
  snapshot_available_items : list OrderProgressBatch;
  snapshot_free_movement_enabled : bool;
  snapshot_can_manage_items : bool;
}.
End weights.

(** * The pallet tables (memory_store_trait_impl.rs) *)

(** Role and reference of an actor, apparatus. *)
Definition selection_key : Type := string * string * string.

Record paddon_store := {
  ps_paddons : gmap string PaddonSummary;
  ps_active_paddons : gmap selection_key string;
  (** by source pallet and selection key *)
  ps_paddon_successors : gmap (string * selection_key) string;
  ps_paddon_lock_owners : gmap string string;
  ps_settings : PaddonManagementSettings;
}.
#[global] Instance paddon_store_rebuild : Rebuild paddon_store := λ r, {|
  ps_paddons := ps_paddons r;
  ps_active_paddons := ps_active_paddons r;
  ps_paddon_successors := ps_paddon_successors r;
  ps_paddon_lock_owners := ps_paddon_lock_owners r;
  ps_settings := ps_settings r |}.

Definition empty_paddon_store : paddon_store := {|
  ps_paddons := ∅; ps_active_paddons := ∅; ps_paddon_successors := ∅; ps_paddon_lock_owners := ∅;
  ps_settings := {| free_movement_enabled := false; worker_visibility_enabled := false |} |}.

Definition select_key (actor : QueueActionActor) (apparatus : string) : selection_key :=
  (actor_role actor, actor_ref actor, apparatus).

Definition is_unlocked (p : PaddonSummary) : bool := is_none (paddon_locked_at_unix p).

Definition store_update_paddon_settings (free_movement worker_visibility : option bool) (s : paddon_store)
  : paddon_store * pm_result PaddonManagementSettings :=
  let settings := ps_settings s in
  let settings :=
    match free_movement with Some v => settings <| free_movement_enabled := v |> | None => settings end in
  let settings :=
    match worker_visibility with Some v => settings <| worker_visibility_enabled := v |> | None => settings end in
  (s <| ps_settings := settings |>, Ok settings).

(** Most recently updated first. *)
Definition paddon_before (a b : PaddonSummary) : Prop :=
  (paddon_updated_at_unix b < paddon_updated_at_unix a)%Z ∨
  (paddon_updated_at_unix b = paddon_updated_at_unix a ∧ String.le (paddon_code a) (paddon_code b)).
#[global] Instance paddon_before_dec : RelDecision paddon_before.
Proof. intros a b. unfold paddon_before. solve_decision. Defined.

Definition paddons_for_apparatus (limit : nat) (selectable_only : bool) (creator_ref apparatus : option string)
    (s : paddon_store) : list PaddonSummary :=
  take limit (merge_sort paddon_before (List.filter (λ p,
    (match creator_ref with Some c => trim (paddon_created_by_ref p) =s c | None => true end) &&
    (match apparatus with Some id => paddon_apparatus_id p =s id | None => true end) &&
    (negb selectable_only || is_unlocked p)) (btree_values (ps_paddons s)))).

Definition paddons_for_creator (limit : nat) (selectable_only : bool) (creator_ref : option string)
    (s : paddon_store) : list PaddonSummary :=
  take limit (merge_sort paddon_before (List.filter (λ p,
    (match creator_ref with Some c => trim (paddon_created_by_ref p) =s c | None => true end) &&
    (negb selectable_only || is_unlocked p)) (btree_values (ps_paddons s)))).

Definition store_active_rezka_paddon (apparatus : string) (actor : QueueActionActor) (s : paddon_store)
  : option string :=
  code ← ps_active_paddons s !! select_key actor apparatus;
  p ← ps_paddons s !! code;
  if negb ((paddon_apparatus_id p =s apparatus) && is_unlocked p) then None
  else if (actor_role actor =s "aparatchi") && (trim (paddon_created_by_ref p) <>s trim (actor_ref actor)) &&
          negb (worker_visibility_enabled (ps_settings s)) then None
  else Some code.

Definition check_selectable (apparatus code : string) (s : paddon_store) : pm_result unit :=
  p ← ok_or (ps_paddons s !! code) PaddonNotFound;
  _ ← check (negb (is_unlocked p)) PaddonLocked;
  check (paddon_apparatus_id p <>s apparatus) PaddonInvalidInput.

Definition store_set_active_rezka_paddon (apparatus : string) (actor : QueueActionActor)
    (code : option string) (s : paddon_store) : paddon_store * pm_result unit :=
  let key := select_key actor apparatus in
  match code with
  | None => (s <| ps_active_paddons := delete key (ps_active_paddons s) |>, Ok tt)
  | Some code =>
      match check_selectable apparatus code s with
      | Err e => (s, Err e)
      | Ok _ => (s <| ps_active_paddons := <[key := code]> (ps_active_paddons s) |>, Ok tt)
      end
  end.

(** [format!("{:05}", n)]. *)
Definition paddon_code_of (n : nat) : string :=
  let ds := Z_to_string (Z.of_nat n) in zeros (5 - String.length ds) +:+ ds.

Definition new_paddon (code : string) (input : PaddonCreateInput) : PaddonSummary := {|
  paddon_id := code;
  paddon_code := code;
  paddon_apparatus_id := create_apparatus_id input;
  paddon_location := create_location input;
  paddon_note := create_note input;
  paddon_created_by_ref := create_actor_ref input;
  paddon_created_by_display_name := create_actor_display_name input;
  paddon_created_at_unix := 0;
  paddon_updated_at_unix := 0;
  paddon_item_count := 0;
  paddon_contains_peremotka := false;
  paddon_locked_at_unix := None;
  paddon_total_gross_kg := Some f64_zero;
  paddon_total_net_kg := Some f64_zero |}.

Definition store_create_paddon (input : PaddonCreateInput) (s : paddon_store)
  : paddon_store * pm_result PaddonSummary :=
  let code := paddon_code_of (size (ps_paddons s) + 1) in
  let paddon := new_paddon code input in
  (s <| ps_paddons := <[code := paddon]> (ps_paddons s) |>, Ok paddon).

(** Printing the label of a pallet locks it and takes it out of every selection;
    the answer lists where the actor had selected it. *)
Definition store_confirm_paddon_print (now : Z) (code : string) (actor : QueueActionActor) (s : paddon_store)
  : paddon_store * pm_result PaddonPrintConfirmation :=
  match ps_paddons s !! code with
  | None => (s, Err PaddonNotFound)
  | Some p =>
      let newly_locked := is_unlocked p in
      let owners :=
        if newly_locked then <[code := trim (actor_ref actor)]> (ps_paddon_lock_owners s)
        else ps_paddon_lock_owners s in
      let p := p <| paddon_locked_at_unix := Some (default now (paddon_locked_at_unix p)) |> in
      let apparatuses := sorted_strings (omap (λ entry : selection_key * string,
        if (entry.1.1.1 =s actor_role actor) && (entry.1.1.2 =s actor_ref actor) && (entry.2 =s code)
        then Some entry.1.2 else None) (map_to_list (ps_active_paddons s))) in
      (s <| ps_paddons := <[code := p]> (ps_paddons s) |>
         <| ps_paddon_lock_owners := owners |>
         <| ps_active_paddons := filter (λ entry : selection_key * string, entry.2 ≠ code)
                                   (ps_active_paddons s) |>,
       Ok {| confirmation_paddon := p; confirmation_newly_locked := newly_locked;
             confirmation_apparatuses := apparatuses |})
  end.

(** May the actor unlock the pallet now. *)
Definition unlock_allowed (code : string) (actor : QueueActionActor) (s : paddon_store) : bool :=
  paddon_unlock_actor_allowed (default "" (ps_paddon_lock_owners s !! code))
    (free_movement_enabled (ps_settings s)) actor.

Definition store_can_unlock_paddon (code : string) (actor : QueueActionActor) (s : paddon_store)
  : pm_result bool :=
  p ← ok_or (ps_paddons s !! code) PaddonNotFound;
  Ok (if is_unlocked p then false else unlock_allowed code actor s).

(** Unlocking forgets the pallets that were created to follow this one. *)
Definition store_unlock_paddon (now : Z) (code : string) (actor : QueueActionActor) (s : paddon_store)
  : paddon_store * pm_result PaddonSummary :=
  match ps_paddons s !! code with
  | None => (s, Err PaddonNotFound)
  | Some p =>
      if is_unlocked p then (s, Ok p)
      else if negb (unlock_allowed code actor s) then (s, Err PaddonUnlockForbidden)
      else
        let p := p <| paddon_locked_at_unix := None |> <| paddon_updated_at_unix := now |> in
        (s <| ps_paddons := <[code := p]> (ps_paddons s) |>
           <| ps_paddon_lock_owners := delete code (ps_paddon_lock_owners s) |>
           <| ps_paddon_successors := filter (λ entry : (string * selection_key) * string, entry.1.1 ≠ code)
                                        (ps_paddon_successors s) |>,
         Ok p)
  end.

(** The memory store has no rolls to list. *)
Definition store_paddon_snapshot `{J : Json} (code : string) (s : paddon_store) : option PaddonSnapshot :=
  p ← ps_paddons s !! code;
  Some {| snapshot_paddon := p; snapshot_items := []; snapshot_available_items := [];
          snapshot_free_movement_enabled := free_movement_enabled (ps_settings s);
          snapshot_can_manage_items := is_unlocked p |}.

(** The default of [store_port.rs]: a worker sees the rolls of the apparatuses
    assigned to them. *)
Definition store_paddon_snapshot_for_apparatuses `{J : Json} (code : string) (actor : QueueActionActor)
    (allowed : list string) (s : paddon_store) : pm_result (option PaddonSnapshot) :=
  match store_paddon_snapshot code s with
  | None => Ok None
  | Some v =>
      _ ← check ((actor_role actor =s "aparatchi") &&
                 negb (bool_decide (paddon_apparatus_id (snapshot_paddon v) ∈ allowed)))
            PaddonTransferForbidden;
      Ok (Some {| snapshot_paddon := snapshot_paddon v; snapshot_items := snapshot_items v;
                  snapshot_available_items :=
                    List.filter (λ b, bool_decide (batch_apparatus b ∈ allowed)) (snapshot_available_items v);
                  snapshot_free_movement_enabled := snapshot_free_movement_enabled v;
                  snapshot_can_manage_items := snapshot_can_manage_items v |})
  end.

(** A worker who closes a pallet goes on with one that follows it, the same one on
    every retry. *)
Definition store_create_active_paddon_successor (code apparatus : string) (actor : QueueActionActor)
    (s : paddon_store) : paddon_store * pm_result PaddonSummary :=
  let key := (code, select_key actor apparatus) in
  match ps_paddon_successors s !! key with
  | Some next =>
      match store_set_active_rezka_paddon apparatus actor (Some next) s with
      | (s, Err e) => (s, Err e)
      | (s, Ok _) => (s, ok_or (ps_paddons s !! next) PaddonNotFound)
      end
  | None =>
      match ps_paddons s !! code with
      | None => (s, Err PaddonNotFound)
      | Some source =>
          if is_unlocked source || (paddon_apparatus_id source <>s apparatus)
          then (s, Err PaddonInvalidInput)
          else
            match store_create_paddon
                    {| create_apparatus_id := apparatus; create_location := apparatus; create_note := "";
                       create_actor_ref := actor_ref actor;
                       create_actor_display_name := actor_display_name actor |} s with
            | (s, Err e) => (s, Err e)
            | (s, Ok paddon) =>
                match store_set_active_rezka_paddon apparatus actor (Some (paddon_code paddon)) s with
                | (s, Err e) => (s, Err e)
                | (s, Ok _) =>
                    (s <| ps_paddon_successors := <[key := paddon_code paddon]> (ps_paddon_successors s) |>,
                     Ok paddon)
                end
            end
      end
  end.

(** * The service (service.rs) *)

Definition MAX_PADDON_BATCH_ITEMS : nat := 500.

(** The ids of a request: trimmed, each once. *)
Fixpoint collect_batch_ids (ids : list string) (seen : gset string) : pm_result (list string) :=
  match ids with
  | [] => Ok []
  | id :: ids =>
      let id := trim id in
      if is_empty id then Err PaddonInvalidInput
      else if decide (id ∈ seen) then collect_batch_ids ids seen
      else rest ← collect_batch_ids ids ({[id]} ∪ seen); Ok (id :: rest)
  end.

Definition normalize_paddon_batch_ids (ids : list string) : pm_result (list string) :=
  normalized ← collect_batch_ids ids ∅;
  _ ← check ((length normalized =? 0) || (MAX_PADDON_BATCH_ITEMS <? length normalized)) PaddonInvalidInput;
  Ok normalized.

(** The request the store is asked to carry out. *)
Definition transfer_paddon_items_input (input : PaddonTransferInput) (actor : QueueActionActor)
  : pm_result PaddonTransferInput :=
  let source := trim (transfer_source_code input) in
  let target := trim (transfer_target_code input) in
  _ ← check (is_empty source || is_empty target || (source =s target) ||
             (128 <? String.length source) || (128 <? String.length target) || blank (actor_ref actor) ||
             negb (manages_pallets (actor_role actor) || (actor_role actor =s "aparatchi")))
        PaddonInvalidInput;
  ids ← normalize_paddon_batch_ids (transfer_progress_batch_ids input);
  Ok {| transfer_source_code := source; transfer_target_code := target;
        transfer_progress_batch_ids := ids |}.

Section service.
Context (resolver : ApparatusId → pm_result (option RuntimeApparatusConfiguration)).

Definition update_paddon_settings (free_movement worker_visibility : option bool) (actor : QueueActionActor)
    (s : paddon_store) : paddon_store * pm_result PaddonManagementSettings :=
  if negb (manages_pallets (actor_role actor)) || blank (actor_ref actor) ||
     (is_none free_movement && is_none worker_visibility)
  then (s, Err PaddonInvalidInput)
  else store_update_paddon_settings free_movement worker_visibility s.

Definition update_paddon_management_settings (enabled : bool) (actor : QueueActionActor) (s : paddon_store)
  : paddon_store * pm_result PaddonManagementSettings :=
  update_paddon_settings (Some enabled) None actor s.

Definition validate_active_paddon_scope (apparatus : string) (actor : QueueActionActor) : pm_result unit :=
  _ ← check (blank (actor_ref actor) || blank (actor_role actor)) PaddonInvalidInput;
  canonical ← resolve_canonical_apparatus_text resolver apparatus;
  check (negb (bool_decide (runtime_operation canonical = ExecutionOperation.Cut))) PaddonInvalidInput.

Definition validate_optional_scope (apparatus : option string) (actor : QueueActionActor) : pm_result unit :=
  match apparatus with Some a => validate_active_paddon_scope a actor | None => Ok tt end.

(** A worker sees their own pallets, unless the plant shows all of them. *)
Definition hides_pallets_of_others (actor : QueueActionActor) (s : paddon_store) : bool :=
  (actor_role actor =s "aparatchi") && negb (worker_visibility_enabled (ps_settings s)).

Definition visible_paddons_for_apparatus (limit : nat) (selectable_only : bool) (apparatus : option string)
    (actor : QueueActionActor) (s : paddon_store) : pm_result (list PaddonSummary) :=
  _ ← validate_optional_scope apparatus actor;
  creator ←
    (if hides_pallets_of_others actor s
     then _ ← check (blank (actor_ref actor)) PaddonInvalidInput; Ok (Some (trim (actor_ref actor)))
     else Ok None);
  Ok (paddons_for_apparatus (Nat.min 200 (Nat.max 1 limit)) selectable_only creator apparatus s).

Definition visible_paddons (limit : nat) (selectable_only : bool) (actor : QueueActionActor)
    (s : paddon_store) : pm_result (list PaddonSummary) :=
  visible_paddons_for_apparatus limit selectable_only None actor s.

Definition ensure_paddon_visible (paddon : PaddonSummary) (actor : QueueActionActor) (s : paddon_store)
  : pm_result unit :=
  check ((actor_role actor =s "aparatchi") &&
         (blank (actor_ref actor) || (trim (paddon_created_by_ref paddon) <>s trim (actor_ref actor))) &&
         negb (worker_visibility_enabled (ps_settings s))) PaddonNotFound.

Definition active_rezka_paddon (apparatus : string) (actor : QueueActionActor) (s : paddon_store)
  : pm_result (option string) :=
  _ ← validate_active_paddon_scope apparatus actor;
  Ok (store_active_rezka_paddon (trim apparatus) actor s).

Definition paddon_summary (code : string) (s : paddon_store) : pm_result PaddonSummary :=
  let code := trim code in
  _ ← check (is_empty code) PaddonInvalidInput;
  ok_or (ps_paddons s !! code) PaddonNotFound.

(** The checks of a selection; a blank code clears it. *)
Definition selection_request (apparatus : string) (actor : QueueActionActor) (code : string)
    (s : paddon_store) : pm_result (option string) :=
  _ ← validate_active_paddon_scope apparatus actor;
  let code := trim code in
  _ ← check (128 <? String.length code) PaddonInvalidInput;
  if is_empty code then Ok None
  else
    paddon ← paddon_summary code s;
    _ ← ensure_paddon_visible paddon actor s;
    _ ← check (paddon_apparatus_id paddon <>s trim apparatus) PaddonInvalidInput;
    Ok (Some code).

Definition set_active_rezka_paddon (apparatus : string) (actor : QueueActionActor) (code : string)
    (s : paddon_store) : paddon_store * pm_result (option string) :=
  match selection_request apparatus actor code s with
  | Err e => (s, Err e)
  | Ok code =>
      let '(s, r) := store_set_active_rezka_paddon (trim apparatus) actor code s in
      (s, (λ _, code) <$> r)
  end.

Definition create_paddon_for_apparatus (apparatus : option string) (location note : string)
    (actor : QueueActionActor) (s : paddon_store) : paddon_store * pm_result PaddonSummary :=
  match (_ ← validate_optional_scope apparatus actor;
         check ((160 <? String.length (trim location)) || (500 <? String.length (trim note)))
           PaddonInvalidInput) with
  | Err e => (s, Err e)
  | Ok _ =>
      store_create_paddon
        {| create_apparatus_id := trim (default "" apparatus); create_location := trim location;
           create_note := trim note; create_actor_ref := trim (actor_ref actor);
           create_actor_display_name := trim (actor_display_name actor) |} s
  end.

Definition create_paddon (location note : string) (actor : QueueActionActor) (s : paddon_store)
  : paddon_store * pm_result PaddonSummary :=
  create_paddon_for_apparatus None location note actor s.

(** [code.is_empty() || code.len() > 128], on the trimmed code. *)
Definition bad_code (code : string) : bool := is_empty (trim code) || (128 <? String.length (trim code)).

Definition confirm_paddon_print (now : Z) (code : string) (actor : QueueActionActor) (s : paddon_store)
  : paddon_store * pm_result PaddonPrintConfirmation :=
  if bad_code code then (s, Err PaddonInvalidInput)
  else store_confirm_paddon_print now (trim code) actor s.

Definition can_unlock_paddon (code : string) (actor : QueueActionActor) (s : paddon_store) : pm_result bool :=
  _ ← check (bad_code code || blank (actor_ref actor)) PaddonInvalidInput;
  store_can_unlock_paddon (trim code) actor s.

Definition unlock_paddon (now : Z) (code : string) (actor : QueueActionActor) (s : paddon_store)
  : paddon_store * pm_result PaddonSummary :=
  if bad_code code || blank (actor_ref actor) then (s, Err PaddonInvalidInput)
  else store_unlock_paddon now (trim code) actor s.

Definition create_active_paddon_successor (code apparatus : string) (actor : QueueActionActor)
    (s : paddon_store) : paddon_store * pm_result PaddonSummary :=
  match (_ ← validate_active_paddon_scope apparatus actor; check (bad_code code) PaddonInvalidInput) with
  | Err e => (s, Err e)
  | Ok _ => store_create_active_paddon_successor (trim code) (trim apparatus) actor s
  end.

Definition paddon_snapshot `{J : Json} (code : string) (s : paddon_store) : pm_result PaddonSnapshot :=
  let code := trim code in
  _ ← check (is_empty code) PaddonInvalidInput;
  ok_or (store_paddon_snapshot code s) PaddonNotFound.

Definition paddon_snapshot_for_apparatuses `{J : Json} (code : string) (actor : QueueActionActor)
    (allowed : list string) (s : paddon_store) : pm_result PaddonSnapshot :=
  v ← store_paddon_snapshot_for_apparatuses (trim code) actor allowed s;
  ok_or v PaddonNotFound.

(** ** One request to the service *)
Inductive paddon_request :=
  | UpdateSettings (free_movement worker_visibility : option bool)
  | SetActive (apparatus code : string)
  | Create (apparatus : option string) (location note : string)
  | ConfirmPrint (now : Z) (code : string)
  | Unlock (now : Z) (code : string)
  | CreateSuccessor (code apparatus : string).

Definition paddon_step (actor : QueueActionActor) (request : paddon_request) (s : paddon_store)
  : paddon_store :=
  match request with
  | UpdateSettings f w => (update_paddon_settings f w actor s).1
  | SetActive apparatus code => (set_active_rezka_paddon apparatus actor code s).1
  | Create apparatus location note => (create_paddon_for_apparatus apparatus location note actor s).1
  | ConfirmPrint now code => (confirm_paddon_print now code actor s).1
  | Unlock now code => (unlock_paddon now code actor s).1
  | CreateSuccessor code apparatus => (create_active_paddon_successor code apparatus actor s).1
  end.

Definition run_requests (requests : list (QueueActionActor * paddon_request)) (s : paddon_store)
  : paddon_store :=
  foldl (λ s r, paddon_step r.1 r.2 s) s requests.
End service.
