(* ===== verification/PaddonFacts.v ===== *)
(** Correctness of pallets: the tables stay consistent along every run of requests,
    a closed pallet is followed by one pallet, only allowed actors unlock, and the
    totals of a pallet are exact. *)
From S2P Require Import Prelude RustStr F64 Json Errors Identity QueueState OrderLayout MapDefinition Scheduler Progress Preflight Epc Paddon.

(** * Codes *)

Lemma paddon_code_of_inj n m : paddon_code_of (n + 1) = paddon_code_of (m + 1) → n = m.
Proof.
  unfold paddon_code_of, Z_to_string. intros H.
  destruct (Z.of_nat (n + 1)) as [|a|] eqn:Ha; [lia| |lia].
  destruct (Z.of_nat (m + 1)) as [|b|] eqn:Hb; [lia| |lia].
  apply (f_equal (λ s, decimal s 0)) in H.
  rewrite !decimal_zeros, !decimal_N_to_string in H. lia.
Qed.

(** * The invariant of the tables *)

Definition is_locked (p : PaddonSummary) : Prop := is_unlocked p = false.

Record pallets_ok (s : paddon_store) : Prop := {
  ok_codes code p : ps_paddons s !! code = Some p →
    paddon_code p = code ∧ ∃ n, n < size (ps_paddons s) ∧ code = paddon_code_of (n + 1);
  ok_owner code : is_Some (ps_paddon_lock_owners s !! code) ↔
    ∃ p, ps_paddons s !! code = Some p ∧ is_locked p;
  ok_active key code : ps_active_paddons s !! key = Some code →
    ∃ p, ps_paddons s !! code = Some p ∧ paddon_apparatus_id p = key.2 ∧ is_unlocked p = true;
  ok_successor code key next : ps_paddon_successors s !! (code, key) = Some next →
    (∃ p, ps_paddons s !! code = Some p ∧ paddon_apparatus_id p = key.2 ∧ is_locked p) ∧
    ∃ q, ps_paddons s !! next = Some q ∧ paddon_apparatus_id q = key.2;
}.

Lemma empty_ok : pallets_ok empty_paddon_store.
Proof.
  split; simpl; try done. intros code. split.
  - intros [? H]. by rewrite lookup_empty in H.
  - intros (? & H & _). by rewrite lookup_empty in H.
Qed.

Lemma fresh_code s : pallets_ok s → ps_paddons s !! paddon_code_of (size (ps_paddons s) + 1) = None.
Proof.
  intros Hok. destruct (ps_paddons s !! _) as [p|] eqn:E; [|done].
  destruct (ok_codes _ Hok _ _ E) as (_ & n & Hn & H%paddon_code_of_inj). lia.
Qed.

Lemma settings_ok f w s : pallets_ok s → pallets_ok (store_update_paddon_settings f w s).1.
Proof. intros [? ? ? ?]. by split. Qed.

Lemma check_selectable_ok apparatus code s u :
  check_selectable apparatus code s = Ok u →
  ∃ p, ps_paddons s !! code = Some p ∧ is_unlocked p = true ∧ paddon_apparatus_id p = apparatus.
Proof.
  unfold check_selectable. intros H. inv_ok. breflect.
  destruct (ps_paddons s !! code) as [p|]; [|done]. simplify_eq/=. eauto.
Qed.

Lemma set_active_ok apparatus actor code s :
  pallets_ok s → pallets_ok (store_set_active_rezka_paddon apparatus actor code s).1.
Proof.
  intros Hok. unfold store_set_active_rezka_paddon. destruct code as [code|].
  - destruct (check_selectable _ _ _) as [u|e] eqn:E; [|done].
    apply check_selectable_ok in E as (p & Hp & Hun & Happ).
    destruct Hok as [? ? Hact ?]. split; simpl; try done.
    intros key code'. rewrite lookup_insert_Some. intros [[<- <-]|[_ H]]; [|by apply Hact].
    by exists p.
  - destruct Hok as [? ? Hact ?]. split; simpl; try done.
    intros key code'. rewrite lookup_delete_Some. intros [_ H]. by apply Hact.
Qed.

Lemma create_ok input s : pallets_ok s → pallets_ok (store_create_paddon input s).1.
Proof.
  intros Hok. pose proof (fresh_code s Hok) as Hf. destruct Hok as [Hc Ho Ha Hs].
  unfold store_create_paddon. set (code := paddon_code_of _) in *.
  assert (Hkeep : ∀ c p, ps_paddons s !! c = Some p →
            <[code := new_paddon code input]> (ps_paddons s) !! c = Some p).
  { intros c p Hp. rewrite lookup_insert_ne; [done|]. congruence. }
  split; simpl.
  - intros c p. rewrite map_size_insert_None by done. rewrite lookup_insert_Some.
    intros [[<- <-]|[_ Hp]]; [by split; [|exists (size (ps_paddons s)); split; [lia|]]|].
    destruct (Hc c p Hp) as (? & n & ? & ?). split; [done|]. exists n. split; [lia|done].
  - intros c. rewrite Ho. split.
    + intros (p & Hp & Hl). eauto.
    + intros (p & Hp & Hl). apply lookup_insert_Some in Hp as [[<- <-]|[_ Hp]]; [done|]. eauto.
  - intros key c Hk. destruct (Ha key c Hk) as (p & Hp & ?). eauto.
  - intros c key next Hk. destruct (Hs c key next Hk) as ((p & Hp & ?) & q & Hq & ?). eauto 10.
Qed.

Lemma confirm_ok now code actor s :
  pallets_ok s → pallets_ok (store_confirm_paddon_print now code actor s).1.
Proof.
  intros [Hc Ho Ha Hs]. unfold store_confirm_paddon_print.
  destruct (ps_paddons s !! code) as [p|] eqn:Hp; [|by split].
  set (p' := p <| paddon_locked_at_unix := _ |>).
  assert (Hlocked : is_locked p') by done.
  assert (Hkeep : ∀ c q, ps_paddons s !! c = Some q → ∃ q',
            <[code := p']> (ps_paddons s) !! c = Some q' ∧ paddon_code q' = paddon_code q ∧
            paddon_apparatus_id q' = paddon_apparatus_id q ∧ (is_locked q → is_locked q') ∧
            (c ≠ code → q' = q)).
  { intros c q Hq. destruct (decide (c = code)) as [->|].
    - exists p'. rewrite lookup_insert_eq. by simplify_eq.
    - exists q. by rewrite lookup_insert_ne. }
  split; simpl.
  - intros c q Hq. assert (∃ q0, ps_paddons s !! c = Some q0 ∧ paddon_code q = paddon_code q0)
      as (q0 & Hq0 & ->).
    { apply lookup_insert_Some in Hq as [[<- <-]|[_ Hq]]; eauto. }
    rewrite map_size_insert_Some by eauto. by apply Hc.
  - intros c. destruct (decide (c = code)) as [->|Hne].
    + rewrite lookup_insert_eq. split; [by eauto|]. intros _.
      destruct (is_unlocked p) eqn:Hu; [rewrite lookup_insert_eq; by eauto|]. apply Ho. eauto.
    + rewrite lookup_insert_ne by done. rewrite <-Ho.
      destruct (is_unlocked p); [by rewrite lookup_insert_ne|done].
  - intros key c. rewrite map_lookup_filter_Some. simpl. intros [Hk Hne].
    destruct (Ha key c Hk) as (q & Hq & ? & ?). exists q. by rewrite lookup_insert_ne.
  - intros c key next Hk. destruct (Hs c key next Hk) as ((q & Hq & Happ & Hl) & r & Hr & Happ').
    destruct (Hkeep c q Hq) as (q' & ? & _ & ? & ? & _).
    destruct (Hkeep next r Hr) as (r' & ? & _ & ? & _ & _).
    split; [exists q'|exists r']; repeat split; try congruence; auto.
Qed.

Lemma unlock_ok now code actor s :
  pallets_ok s → pallets_ok (store_unlock_paddon now code actor s).1.
Proof.
  intros Hok. unfold store_unlock_paddon.
  destruct (ps_paddons s !! code) as [p|] eqn:Hp; [|done].
  destruct (is_unlocked p) eqn:Hu; [done|].
  destruct (unlock_allowed code actor s); [|done]. destruct Hok as [Hc Ho Ha Hs].
  set (p' := p <| paddon_locked_at_unix := None |> <| paddon_updated_at_unix := now |>).
  split; simpl.
  - intros c q Hq. assert (∃ q0, ps_paddons s !! c = Some q0 ∧ paddon_code q = paddon_code q0)
      as (q0 & Hq0 & ->).
    { apply lookup_insert_Some in Hq as [[<- <-]|[_ Hq]]; eauto. }
    rewrite map_size_insert_Some by eauto. by apply Hc.
  - intros c. destruct (decide (c = code)) as [->|Hne].
    + rewrite lookup_delete_eq, lookup_insert_eq. split; [by intros []|].
      intros (q & [= <-] & Hl). done.
    + rewrite lookup_delete_ne, lookup_insert_ne by done. apply Ho.
  - intros key c Hk. destruct (Ha key c Hk) as (q & Hq & ? & ?). exists q.
    rewrite lookup_insert_ne; [done|]. congruence.
  - intros c key next. rewrite map_lookup_filter_Some. simpl. intros [Hk Hne].
    destruct (Hs c key next Hk) as ((q & Hq & ? & ?) & r & Hr & ?). split.
    + exists q. by rewrite lookup_insert_ne.
    + destruct (decide (next = code)) as [->|]; [exists p'|exists r].
      * rewrite lookup_insert_eq. split; [done|]. change (paddon_apparatus_id p = key.2). congruence.
      * by rewrite lookup_insert_ne.
Qed.

Lemma successor_ok code apparatus actor s :
  pallets_ok s → pallets_ok (store_create_active_paddon_successor code apparatus actor s).1.
Proof.
  intros Hok. unfold store_create_active_paddon_successor.
  destruct (ps_paddon_successors s !! _) as [next|] eqn:Hn.
  - pose proof (set_active_ok apparatus actor (Some next) s Hok) as H.
    by destruct (store_set_active_rezka_paddon _ _ _ _) as [s' [u|e]].
  - destruct (ps_paddons s !! code) as [source|] eqn:Hsrc; [|done].
    destruct (_ || _) eqn:Hg; [done|]. breflect.
    set (input := {| create_apparatus_id := apparatus |}).
    pose proof (create_ok input s Hok) as Hc. pose proof (fresh_code s Hok) as Hf. simpl in Hc.
    unfold store_create_paddon. set (c := paddon_code_of _) in *. cbv beta iota.
    set (s1 := s <| ps_paddons := _ |>) in *.
    pose proof (set_active_ok apparatus actor (Some c) s1 Hc) as Ha.
    change (paddon_code (new_paddon c input)) with c.
    destruct (store_set_active_rezka_paddon apparatus actor (Some c) s1) as [s2 [u|e]] eqn:E; [|done].
    assert (Hsame : ps_paddons s2 = ps_paddons s1).
    { revert E. unfold store_set_active_rezka_paddon. by destruct (check_selectable _ _ _); intros [= <- ?]. }
    destruct Ha as [? ? ? Hs]. split; simpl; try done.
    intros c' key next. rewrite lookup_insert_Some. intros [[[= <- <-] <-]|[_ H']]; [|by apply Hs].
    rewrite Hsame. unfold s1. simpl. split.
    + exists source. rewrite lookup_insert_ne by congruence. by split_and!.
    + exists (new_paddon c input). by rewrite lookup_insert_eq.
Qed.

(** * What a store operation keeps *)

Lemma set_active_keeps apparatus actor code s :
  let s' := (store_set_active_rezka_paddon apparatus actor code s).1 in
  ps_paddons s' = ps_paddons s ∧ ps_paddon_successors s' = ps_paddon_successors s.
Proof. unfold store_set_active_rezka_paddon. destruct code; [|done]. by destruct (check_selectable _ _ _). Qed.

(** The tables after a successor was asked for. *)
Lemma successor_cases code apparatus actor s s' r :
  pallets_ok s → store_create_active_paddon_successor code apparatus actor s = (s', r) →
  let key := (code, select_key actor apparatus) in
  (ps_paddons s' = ps_paddons s ∧ ps_paddon_successors s' = ps_paddon_successors s ∧
   (∀ p, r = Ok p → ∃ next, ps_paddon_successors s !! key = Some next ∧ ps_paddons s !! next = Some p)) ∨
  (ps_paddon_successors s !! key = None ∧ ∃ p, r = Ok p ∧
   ps_paddons s !! paddon_code p = None ∧ ps_paddons s' = <[paddon_code p := p]> (ps_paddons s) ∧
   ps_paddon_successors s' = <[key := paddon_code p]> (ps_paddon_successors s)).
Proof.
  intros Hok. unfold store_create_active_paddon_successor. cbv zeta.
  destruct (ps_paddon_successors s !! _) as [next|] eqn:Hn.
  - intros H. left. pose proof (set_active_keeps apparatus actor (Some next) s) as [H1 H2].
    destruct (store_set_active_rezka_paddon _ _ _ _) as [s1 [u|e]]; simpl in *; injection H as <- <-.
    + split_and!; try done. intros p Hp. exists next. split; [done|].
      rewrite <-H1. revert Hp. by destruct (ps_paddons s1 !! next); intros [= ->].
    + by split_and!.
  - destruct (ps_paddons s !! code) as [source|] eqn:Hsrc; [|intros [= <- <-]; by left].
    destruct (_ || _) eqn:Hg; [intros [= <- <-]; by left|].
    set (input := {| create_apparatus_id := apparatus |}).
    pose proof (fresh_code s Hok) as Hf.
    unfold store_create_paddon. set (c := paddon_code_of _) in *. cbv beta iota.
    change (paddon_code (new_paddon c input)) with c.
    unfold store_set_active_rezka_paddon, check_selectable. simpl. rewrite lookup_insert_eq. simpl.
    rewrite String.eqb_refl. simpl. intros [= <- <-]. right. split; [done|].
    exists (new_paddon c input). by split_and!.
Qed.

Section requests.
Context (resolver : ApparatusId → pm_result (option RuntimeApparatusConfiguration)).

Abbreviation step := (paddon_step resolver).
Abbreviation run := (run_requests resolver).

(** Every service operation is refused or is its store operation. *)
Lemma step_cases actor request s :
  step actor request s = s ∨
  match request with
  | UpdateSettings f w => step actor request s = (store_update_paddon_settings f w s).1
  | SetActive apparatus _ => ∃ code,
      step actor request s = (store_set_active_rezka_paddon (trim apparatus) actor code s).1
  | Create _ _ _ => ∃ input, step actor request s = (store_create_paddon input s).1
  | ConfirmPrint now code => step actor request s = (store_confirm_paddon_print now (trim code) actor s).1
  | Unlock now code => step actor request s = (store_unlock_paddon now (trim code) actor s).1
  | CreateSuccessor code apparatus =>
      step actor request s =
      (store_create_active_paddon_successor (trim code) (trim apparatus) actor s).1
  end.
Proof.
  destruct request as [f w|apparatus code|apparatus location note|now code|now code|code apparatus]; simpl.
  - unfold update_paddon_settings. destruct (_ || _); auto.
  - unfold set_active_rezka_paddon. destruct (selection_request _ _ _ _ _) as [c|]; [|by left].
    right. exists c. by destruct (store_set_active_rezka_paddon _ _ _ _).
  - unfold create_paddon_for_apparatus. destruct (_ ← _; _); [|by left]. right. by eexists.
  - unfold confirm_paddon_print. destruct (bad_code _); auto.
  - unfold unlock_paddon. destruct (_ || _); auto.
  - unfold create_active_paddon_successor. destruct (_ ← _; _); auto.
Qed.

Lemma step_ok actor request s : pallets_ok s → pallets_ok (step actor request s).
Proof.
  intros Hok. destruct (step_cases actor request s) as [->|H]; [done|].
  destruct request; [|destruct H as [? H]|destruct H as [? H]| | |]; rewrite H;
    auto using settings_ok, set_active_ok, create_ok, confirm_ok, unlock_ok, successor_ok.
Qed.

Lemma run_ok requests s : pallets_ok s → pallets_ok (run requests s).
Proof.
  revert s. induction requests as [|r requests IH]; intros s Hs; [done|]. apply IH, step_ok, Hs.
Qed.

(** Pallets are never lost, and stay on their apparatus. *)
Lemma step_keeps_pallet actor request s code p :
  pallets_ok s → ps_paddons s !! code = Some p →
  ∃ p', ps_paddons (step actor request s) !! code = Some p' ∧
    paddon_apparatus_id p' = paddon_apparatus_id p ∧
    paddon_created_by_ref p' = paddon_created_by_ref p.
Proof.
  intros Hok Hp. destruct (step_cases actor request s) as [->|H]; [by exists p|].
  destruct request as [f w|a c|a l n|now c|now c|c a]; [|destruct H as [? H]|destruct H as [? H]| | |];
    rewrite H.
  - by exists p.
  - rewrite (proj1 (set_active_keeps _ _ _ _)). by exists p.
  - exists p. simpl. rewrite lookup_insert_ne; [done|]. intros Heq.
    rewrite <-Heq, fresh_code in Hp; done.
  - unfold store_confirm_paddon_print. destruct (ps_paddons s !! trim c) as [q|] eqn:Hq; [|by exists p].
    simpl. destruct (decide (code = trim c)) as [->|].
    + rewrite lookup_insert_eq. simplify_eq. by eexists.
    + rewrite lookup_insert_ne by done. by exists p.
  - unfold store_unlock_paddon. destruct (ps_paddons s !! trim c) as [q|] eqn:Hq; [|by exists p].
    destruct (is_unlocked q); [by exists p|]. destruct (unlock_allowed _ _ _); [|by exists p].
    simpl. destruct (decide (code = trim c)) as [->|].
    + rewrite lookup_insert_eq. simplify_eq. by eexists.
    + rewrite lookup_insert_ne by done. by exists p.
  - destruct (store_create_active_paddon_successor _ _ _ _) as [s' r] eqn:E.
    apply successor_cases in E as [(Hs & _)|(_ & q & _ & Hnew & Hs & _)]; [| |done]; simpl; rewrite Hs.
    + by exists p.
    + exists p. rewrite lookup_insert_ne; [done|]. congruence.
Qed.

Definition unlocks (code : string) (request : paddon_request) : Prop :=
  match request with Unlock _ c => trim c = code | _ => False end.

Lemma step_keeps_successor actor request s code key next :
  pallets_ok s → ¬ unlocks code request → ps_paddon_successors s !! (code, key) = Some next →
  ps_paddon_successors (step actor request s) !! (code, key) = Some next.
Proof.
  intros Hok Hu Hk. destruct (step_cases actor request s) as [->|H]; [done|].
  destruct request as [f w|a c|a l n|now c|now c|c a]; [|destruct H as [? H]|destruct H as [? H]| | |];
    rewrite H.
  - done.
  - by rewrite (proj2 (set_active_keeps _ _ _ _)).
  - done.
  - unfold store_confirm_paddon_print. by destruct (ps_paddons s !! trim c).
  - unfold store_unlock_paddon. destruct (ps_paddons s !! trim c) as [q|]; [|done].
    destruct (is_unlocked q); [done|]. destruct (unlock_allowed _ _ _); [|done]. simpl.
    apply map_lookup_filter_Some. split; [done|]. simpl. intros ->. by apply Hu.
  - destruct (store_create_active_paddon_successor _ _ _ _) as [s' r] eqn:E.
    apply successor_cases in E as [(_ & Hs & _)|(Hn & q & _ & _ & _ & Hs)]; [| |done]; simpl; rewrite Hs.
    + done.
    + rewrite lookup_insert_ne; [done|]. congruence.
Qed.

Lemma run_keeps_successor requests s code key next :
  pallets_ok s → Forall (λ r, ¬ unlocks code r.2) requests →
  ps_paddon_successors s !! (code, key) = Some next →
  ps_paddon_successors (run requests s) !! (code, key) = Some next.
Proof.
  intros Hok Hf. revert s Hok. induction Hf as [|r requests Hr Hf IH]; intros s Hok Hk; [done|].
  apply IH; [by apply step_ok|]. by apply step_keeps_successor.
Qed.

(** * Theorems *)

(** C34: Along every sequence of pallet requests the tables of pallets stay
    consistent: a pallet is stored under its own code, codes are the numbers
    given out so far, a pallet has a lock owner exactly when it is locked, a
    selected pallet exists, is unlocked and belongs to the apparatus of the
    selection, and a pallet that was followed by another is locked and on the
    same apparatus as the one following it. *)
Theorem pallets_stay_consistent requests : pallets_ok (run requests empty_paddon_store).
Proof. apply run_ok, empty_ok. Qed.

(** A closed pallet is followed by one pallet: when an actor asked for the
    successor of a pallet and got one, then asks again after any requests that
    do not unlock the closed pallet, the answer, if any, is the same pallet and
    no pallet is created. *)
Theorem closed_pallet_has_one_successor history requests code apparatus actor p q s1 s2 :
  create_active_paddon_successor resolver code apparatus actor (run history empty_paddon_store)
    = (s1, Ok p) →
  Forall (λ r, ¬ unlocks (trim code) r.2) requests →
  create_active_paddon_successor resolver code apparatus actor (run requests s1) = (s2, Ok q) →
  paddon_code q = paddon_code p ∧ ps_paddons s2 = ps_paddons (run requests s1).
Proof.
  set (s := run history empty_paddon_store).
  assert (Hok : pallets_ok s) by apply run_ok, empty_ok. clearbody s.
  intros H1 Hf H2. pose proof (step_ok actor (CreateSuccessor code apparatus) s Hok) as Hok1.
  simpl in Hok1. rewrite H1 in Hok1. simpl in Hok1.
  unfold create_active_paddon_successor in H1, H2.
  destruct (_ ← _; _) as [u|] in H1, H2; [|done].
  assert (Hk : ps_paddon_successors s1 !! (trim code, select_key actor (trim apparatus))
               = Some (paddon_code p)).
  { apply successor_cases in H1 as [(_ & Hs & Hp)|(_ & p' & [= <-] & _ & _ & ->)]; [| |done].
    - destruct (Hp p eq_refl) as (next & Hn & Hpn). rewrite Hs, Hn. f_equal.
      symmetry. by apply (ok_codes s Hok).
    - by rewrite lookup_insert_eq. }
  pose proof (run_ok requests s1 Hok1) as Hok2.
  eapply run_keeps_successor in Hk; [|done..].
  apply successor_cases in H2 as [(Hp & _ & Hq)|(Hn & _)]; [|congruence|done].
  split; [|done]. destruct (Hq q eq_refl) as (next & Hn & Hqn). rewrite Hk in Hn. injection Hn as <-.
  by apply (ok_codes _ Hok2).
Qed.

(** A locked pallet is unlocked only by a request to unlock it, from a manager, from
    anyone while free movement is on, or from the worker who locked it. *)
Theorem only_allowed_actor_unlocks history actor request code p p' :
  let s := run history empty_paddon_store in
  ps_paddons s !! code = Some p → is_unlocked p = false →
  ps_paddons (step actor request s) !! code = Some p' → is_unlocked p' = true →
  unlocks code request ∧
  (manages_pallets (actor_role actor) = true ∨ free_movement_enabled (ps_settings s) = true ∨
   actor_role actor = "aparatchi" ∧
   ∃ owner, ps_paddon_lock_owners s !! code = Some owner ∧ trim owner = trim (actor_ref actor)).
Proof.
  intros s Hp Hl Hp' Hu. assert (Hok : pallets_ok s) by apply run_ok, empty_ok. clearbody s.
  destruct (step_cases actor request s) as [E|E]; [rewrite E in Hp'; congruence|].
  destruct request as [f w|a c|a l n|now c|now c|c a]; [|destruct E as [? E]|destruct E as [? E]| | |];
    rewrite E in Hp'.
  - simpl in Hp'. congruence.
  - rewrite (proj1 (set_active_keeps _ _ _ _)) in Hp'. congruence.
  - simpl in Hp'. apply lookup_insert_Some in Hp' as [[<- _]|[_ Hp']]; [|congruence].
    rewrite fresh_code in Hp; done.
  - unfold store_confirm_paddon_print in Hp'. destruct (ps_paddons s !! trim c); [|simpl in Hp'; congruence].
    simpl in Hp'. apply lookup_insert_Some in Hp' as [[_ <-]|[_ Hp']]; [done|congruence].
  - unfold store_unlock_paddon in Hp'. destruct (ps_paddons s !! trim c) as [q|] eqn:Hq; [|simpl in Hp'; congruence].
    destruct (is_unlocked q); [simpl in Hp'; congruence|].
    destruct (unlock_allowed (trim c) actor s) eqn:Ha; [|simpl in Hp'; congruence].
    simpl in Hp'. apply lookup_insert_Some in Hp' as [[<- _]|[_ Hp']]; [|congruence].
    split; [done|]. unfold unlock_allowed, paddon_unlock_actor_allowed in Ha.
    apply andb_true_iff in Ha as [_ [[?|?]%orb_true_iff|[Hr Ho]%andb_true_iff]%orb_true_iff];
      [by left|by right; left|]. right. right. breflect. split; [done|].
    destruct (ok_owner s Hok (trim c)) as [_ [owner Howner]]; [by eauto|].
    exists owner. split; [done|]. rewrite Howner in Ho. done.
  - destruct (store_create_active_paddon_successor _ _ _ _) as [s' r] eqn:E'.
    apply successor_cases in E' as [(Hs & _)|(_ & q & _ & Hnew & Hs & _)]; [| |done]; simpl in Hp'; rewrite Hs in Hp'.
    + congruence.
    + apply lookup_insert_Some in Hp' as [[Heq _]|[_ Hp']]; [|congruence]. congruence.
Qed.
End requests.

(** * Totals *)

Section totals.
Context `{J : Json}.

(** The first record of each roll on a list. *)
Fixpoint first_items {A} (items : list (OrderProgressBatch * A)) (seen : gset string)
  : list (OrderProgressBatch * A) :=
  match items with
  | [] => []
  | item :: items =>
      if decide (batch_id item.1 ∈ seen) then first_items items seen
      else item :: first_items items ({[batch_id item.1]} ∪ seen)
  end.

(** The sum of weights that are all known, when it is an [i64]. *)
Definition exact_total (weights : list (option Z)) : option Z :=
  ws ← mapM id weights;
  i64_checked (foldr Z.add 0%Z ws).

Lemma i64_checked_Some z n : i64_checked z = Some n ↔ n = z ∧ (i64_MIN <= z <= i64_MAX)%Z.
Proof.
  unfold i64_checked.
  destruct ((i64_MIN <=? z)%Z && (z <=? i64_MAX)%Z) eqn:E; breflect.
  - split; [intros [= <-]; lia|]. by intros [-> _].
  - split; [done|]. intros [-> [H1 H2]].
    apply Z.leb_le in H1. apply Z.leb_le in H2. by rewrite H1, H2 in E.
Qed.

Lemma positive_units_pos v z : positive_units v = Some z → (0 < z)%Z.
Proof.
  unfold positive_units. destruct (units v) as [u|]; [|done]. simpl.
  destruct (0 <? u)%Z eqn:E; [|done]. intros [= <-]. by breflect.
Qed.

Lemma gross_units_nonneg batch corrected z : gross_units batch corrected = Some z → (0 <= z)%Z.
Proof.
  unfold gross_units. destruct corrected; [|destruct (is_some_and _ _)];
    intros ?%positive_units_pos; lia.
Qed.

Lemma product_weights_nonneg batch corrected z :
  (product_weights batch corrected).1 = Some z ∨ (product_weights batch corrected).2 = Some z → (0 <= z)%Z.
Proof.
  simpl. intros [H|H]; [by eapply gross_units_nonneg|].
  destruct (bool_decide _); [by eapply gross_units_nonneg|].
  destruct (gross_units batch corrected) as [g|]; [|done]. simpl in H.
  destruct (units (batch_bobina_kg batch)) as [t|]; [|done]. simpl in H.
  destruct (i64_checked (g - t)) as [n|]; [|done]. simpl in H.
  destruct (0 <=? n)%Z eqn:E; [|done]. injection H as <-. by breflect.
Qed.

(** Adding up with checks fails exactly when the whole sum is out of range. *)
Lemma checked_sums (ws : list (option Z)) (acc : option Z) :
  Forall (λ w, ∀ z, w = Some z → (0 <= z)%Z) ws → (∀ a, acc = Some a → (0 <= a <= i64_MAX)%Z) →
  foldl checked_sum acc ws =
  (a ← acc; ws ← mapM id ws; i64_checked (a + foldr Z.add 0%Z ws)).
Proof.
  intros Hws. revert acc. induction Hws as [|w ws Hw Hws IH]; intros acc Hacc; simpl.
  - destruct acc as [a|]; [|done]. simpl. symmetry. apply i64_checked_Some.
    destruct (Hacc a eq_refl). unfold i64_MIN. lia.
  - assert (Hnone : ∀ ws', foldl checked_sum None ws' = None) by (induction ws'; auto).
    assert (Hsum : ∀ ws', Forall (λ w, ∀ z, w = Some z → (0 <= z)%Z) ws' →
              ∀ l, mapM id ws' = Some l → (0 <= foldr Z.add 0 l)%Z).
    { clear. induction 1 as [|w ws Hw Hws IH]; intros l; simpl; [by intros [= <-]|].
      destruct w as [z|]; [|done]. simpl. destruct (mapM id ws) as [l'|]; [|done]. simpl.
      intros [= <-]. simpl. specialize (Hw z eq_refl). specialize (IH l' eq_refl). lia. }
    destruct acc as [a|]; simpl; [|apply Hnone].
    destruct w as [z|]; simpl; [|apply Hnone].
    destruct (i64_checked (a + z)) as [b|] eqn:E.
    + apply i64_checked_Some in E as [-> E].
      rewrite IH; [|intros ? [= <-]; specialize (Hw z eq_refl); specialize (Hacc a eq_refl); lia].
      simpl. destruct (mapM id ws) as [l|]; [|done]. simpl. f_equal. lia.
    + rewrite Hnone. destruct (mapM id ws) as [l|] eqn:El; [|done]. simpl.
      destruct (i64_checked (a + (z + foldr Z.add 0%Z l))) as [n|] eqn:En; [|reflexivity].
      apply i64_checked_Some in En as [-> En]. specialize (Hsum ws Hws l El).
      specialize (Hw z eq_refl). specialize (Hacc a eq_refl).
      assert (i64_checked (a + z) = Some (a + z)%Z); [|congruence].
      apply i64_checked_Some. unfold i64_MIN in *. lia.
Qed.

Lemma add_totals_spec items seen totals :
  add_totals items seen totals =
  (foldl checked_sum totals.1 ((λ i, (product_weights i.1 i.2).1) <$> first_items items seen),
   foldl checked_sum totals.2 ((λ i, (product_weights i.1 i.2).2) <$> first_items items seen)).
Proof.
  revert seen totals. induction items as [|[batch corrected] items IH]; intros seen totals; simpl.
  - by destruct totals.
  - case_decide; [apply IH|]. by rewrite IH.
Qed.

(** The totals of a pallet are exact: they add the gross and the net weight
    of every roll once, whatever lists it more than once, are known exactly when
    all of them are known and the sum fits, and intermediate sums never lose or
    change them. *)
Theorem totals_are_exact items summary :
  let rolls := first_items items ∅ in
  paddon_total_gross_kg (set_totals items summary) =
    erp_quantity_from_units <$> exact_total ((λ i, (product_weights i.1 i.2).1) <$> rolls) ∧
  paddon_total_net_kg (set_totals items summary) =
    erp_quantity_from_units <$> exact_total ((λ i, (product_weights i.1 i.2).2) <$> rolls).
Proof.
  assert (Hz : ∀ a, Some 0%Z = Some a → (0 <= a <= i64_MAX)%Z) by (intros ? [= <-]; unfold i64_MAX; lia).
  assert (Hw : ∀ (f : option Z * option Z → option Z) l,
            (∀ p z, f p = Some z → p.1 = Some z ∨ p.2 = Some z) →
            Forall (λ w, ∀ z, w = Some z → (0 <= z)%Z) ((λ i, f (product_weights i.1 i.2)) <$> l)).
  { intros f l Hf. apply Forall_fmap, Forall_true. intros i z Hz'%Hf. by eapply product_weights_nonneg. }
  cbv zeta. unfold set_totals. rewrite add_totals_spec. simpl.
  rewrite !checked_sums by (try done; first [apply (Hw fst)|apply (Hw snd)]; auto). done.
Qed.
End totals.
