(* ===== verification/Metrics.v ===== *)
(** What a worker reports about an output.

    Models [progress_session/service_progress_metrics.rs], the progress input of
    [progress_session/progress.rs] and the records built from them in
    [progress_session/service_progress_support.rs], of [src/core/production_map/]. *)
From S2P Require Import Prelude RustStr F64 Json Errors Identity QueueState OrderLayout MapDefinition SequenceMove Scheduler Progress Visibility Epc Paddon.

(** * The input of a queue action (progress.rs) *)

Record RezkaFrameProgressInput := {
  frame_produced_qty : option f64;
  frame_gross_qty : option f64;
  frame_finished_goods_kg : option f64;
  frame_finished_goods_meter : option f64;
  frame_diameter : option f64;
  frame_bobina_kg : option f64;
  frame_rezka_bosma_waste : option f64;
  frame_rezka_lamination_waste : option f64;
  frame_rezka_edge_waste : option f64;
  frame_total_waste : option f64;
  frame_issue_note : string;
  frame_peremotka_reason : string;
}.

Record QueueProgressInput := {
  qp_lamination_layer_dispositions_attached : bool;
  qp_complete_without_output : bool;
  qp_freeze_request_id : string;
  qp_freeze_with_issue : bool;
  qp_rezka_frames : list RezkaFrameProgressInput;
  qp_rezka_record_frame_index : option Z;
  qp_rezka_output_cycle : string;
  qp_rezka_expected_kadr_counts : list Z;
  qp_produced_qty : option f64;
  qp_gross_qty : option f64;
  qp_uom : string;
  qp_progress_batch_id : string;
  qp_qr_payload : string;
  qp_return_ink_kg : option f64;
  qp_lamination_print_leftover_rolls : option f64;
  qp_lamination_film_leftover_rolls : option f64;
  qp_rezka_bosma_waste : option f64;
  qp_rezka_lamination_waste : option f64;
  qp_rezka_edge_waste : option f64;
  qp_total_waste : option f64;
  qp_finished_goods_kg : option f64;
  qp_bobina_kg : option f64;
  qp_finished_goods_meter : option f64;
  qp_diameter : option f64;
  qp_description : string;
  qp_returned_paint_report_attached : bool;
  qp_force_full_completion_metrics : bool;
  qp_allow_partial_station_completion : bool;
  qp_worker_handoff : bool;
  qp_remove_roll_from_apparatus : bool;
}.

(** [Option::or]. *)
Definition or_else {A} (a b : option A) : option A := match a with Some _ => a | None => b end.

(** The measurements of one frame, as an input of their own. *)
Definition to_queue_progress (frame : RezkaFrameProgressInput) (base : QueueProgressInput)
    (inherit_global_waste : bool) : QueueProgressInput :=
  let waste own global := or_else own (if inherit_global_waste then global else None) in
  {| qp_lamination_layer_dispositions_attached := false;
     qp_complete_without_output := false;
     qp_freeze_request_id := qp_freeze_request_id base;
     qp_freeze_with_issue := qp_freeze_with_issue base;
     qp_rezka_frames := [];
     qp_rezka_record_frame_index := None;
     qp_rezka_output_cycle := "";
     qp_rezka_expected_kadr_counts := [];
     qp_produced_qty := frame_produced_qty frame;
     qp_gross_qty := frame_gross_qty frame;
     qp_uom := if is_some (frame_produced_qty frame) || is_some (frame_finished_goods_meter frame)
               then "m" else qp_uom base;
     qp_progress_batch_id := qp_progress_batch_id base;
     qp_qr_payload := qp_qr_payload base;
     qp_return_ink_kg := qp_return_ink_kg base;
     qp_lamination_print_leftover_rolls := qp_lamination_print_leftover_rolls base;
     qp_lamination_film_leftover_rolls := qp_lamination_film_leftover_rolls base;
     qp_rezka_bosma_waste := waste (frame_rezka_bosma_waste frame) (qp_rezka_bosma_waste base);
     qp_rezka_lamination_waste :=
       waste (frame_rezka_lamination_waste frame) (qp_rezka_lamination_waste base);
     qp_rezka_edge_waste := waste (frame_rezka_edge_waste frame) (qp_rezka_edge_waste base);
     qp_total_waste := waste (frame_total_waste frame) (qp_total_waste base);
     qp_finished_goods_kg := frame_finished_goods_kg frame;
     qp_bobina_kg := frame_bobina_kg frame;
     qp_finished_goods_meter := frame_finished_goods_meter frame;
     qp_diameter := frame_diameter frame;
     qp_description := qp_description base;
     qp_returned_paint_report_attached := qp_returned_paint_report_attached base;
     qp_force_full_completion_metrics := qp_force_full_completion_metrics base;
     qp_allow_partial_station_completion := qp_allow_partial_station_completion base;
     qp_worker_handoff := qp_worker_handoff base;
     qp_remove_roll_from_apparatus := qp_remove_roll_from_apparatus base |}.

Definition has_explicit_waste (frame : RezkaFrameProgressInput) : bool :=
  is_some (frame_rezka_bosma_waste frame) || is_some (frame_rezka_lamination_waste frame) ||
  is_some (frame_rezka_edge_waste frame) || is_some (frame_total_waste frame).

Definition has_reported_output (p : QueueProgressInput) : bool :=
  negb (match qp_rezka_frames p with [] => true | _ => false end) ||
  existsb is_some
    [qp_produced_qty p; qp_gross_qty p; qp_return_ink_kg p; qp_lamination_print_leftover_rolls p;
     qp_lamination_film_leftover_rolls p; qp_rezka_bosma_waste p; qp_rezka_lamination_waste p;
     qp_rezka_edge_waste p; qp_total_waste p; qp_finished_goods_kg p; qp_bobina_kg p;
     qp_finished_goods_meter p; qp_diameter p].

Definition is_positive (value : option f64) : bool :=
  is_some_and value (λ v, is_finite v && f64_lt f64_zero v).

Definition has_rezka_quantity_metrics (p : QueueProgressInput) : bool :=
  is_positive (or_else (qp_produced_qty p) (qp_finished_goods_meter p)) &&
  is_positive (or_else (qp_gross_qty p) (qp_finished_goods_kg p)) && is_positive (qp_diameter p).

Definition has_complete_freeze_safe_stop_output (p : QueueProgressInput) (is_rezka : bool) : bool :=
  if is_rezka
  then negb (match qp_rezka_frames p with [] => true | _ => false end) ||
       (has_rezka_quantity_metrics p && is_some (qp_bobina_kg p))
  else is_some (or_else (qp_produced_qty p) (qp_finished_goods_meter p)) &&
       is_some (or_else (qp_gross_qty p) (qp_finished_goods_kg p)) && is_some (qp_bobina_kg p).

(** * Metrics (service_progress_metrics.rs) *)

Record ProgressMetrics := {
  pmx_return_ink_kg : option f64;
  pmx_lamination_print_leftover_rolls : option f64;
  pmx_lamination_film_leftover_rolls : option f64;
  pmx_rezka_bosma_waste : option f64;
  pmx_rezka_lamination_waste : option f64;
  pmx_rezka_edge_waste : option f64;
  pmx_total_waste : option f64;
  pmx_finished_goods_kg : option f64;
  pmx_bobina_kg : option f64;
  pmx_finished_goods_meter : option f64;
  pmx_diameter : option f64;
}.

(** A quantity is a positive number of six decimals. *)
Definition valid_optional_progress_qty (value : option f64) : pm_result (option f64) :=
  match value with
  | Some v => Some <$> ok_or (positive_erp_quantity v) ProgressInputInvalid
  | None => Ok None
  end.

Definition valid_non_negative_optional_progress_qty (value : option f64) : pm_result (option f64) :=
  match value with
  | Some v => if is_finite v && f64_le f64_zero v then Ok (Some v) else Err ProgressInputInvalid
  | None => Ok None
  end.

(** [if cond { f(value)? } else { None }]. *)
Definition when {A} (cond : bool) (r : pm_result (option A)) : pm_result (option A) :=
  if cond then r else Ok None.

Definition bosma_completion_metrics_are_complete (has_return_ink_or_report : bool)
    (total_waste kg meter : option f64) : bool :=
  has_return_ink_or_report && is_some total_waste && is_some kg && is_some meter.

Definition laminatsiya_completion_metrics_are_complete (print film total_waste kg meter : option f64) : bool :=
  (is_some print || is_some film) && is_some total_waste && is_some kg && is_some meter.

Definition rezka_progress_metrics_are_complete (total bosma lamination edge : option f64) : bool :=
  is_some total || is_some bosma || is_some lamination || is_some edge.

Definition rezka_quantity_metrics_are_complete (produced gross kg meter : option f64) : bool :=
  (is_some produced || is_some meter) && (is_some gross || is_some kg).

Definition validate_progress_metrics (canonical : RuntimeApparatusConfiguration) (action : Action.t)
    (progress : QueueProgressInput) (rezka_gross_qty : option f64) (metrics : ProgressMetrics)
    (allow_partial waste_only : bool) : pm_result unit :=
  let is_complete := bool_decide (action = Action.Complete) in
  let is_rezka := is_rezka_apparatus canonical in
  let is_laminatsiya := uses_lamination_workflow canonical in
  _ ← (if is_rezka then validate_bobina_weight rezka_gross_qty (pmx_bobina_kg metrics) else Ok tt);
  _ ← check (is_complete && is_pechat_apparatus canonical &&
        negb (bosma_completion_metrics_are_complete
                (is_some (pmx_return_ink_kg metrics) || qp_returned_paint_report_attached progress)
                (pmx_total_waste metrics) (pmx_finished_goods_kg metrics)
                (pmx_finished_goods_meter metrics))) BosmaCompletionMetricsRequired;
  _ ← check (is_complete && is_laminatsiya && negb allow_partial &&
        negb (laminatsiya_completion_metrics_are_complete (pmx_lamination_print_leftover_rolls metrics)
                (pmx_lamination_film_leftover_rolls metrics) (pmx_total_waste metrics)
                (pmx_finished_goods_kg metrics) (pmx_finished_goods_meter metrics)))
        LaminatsiyaCompletionMetricsRequired;
  _ ← check (is_complete && is_laminatsiya && allow_partial &&
        (is_none (pmx_finished_goods_kg metrics) || is_none (pmx_finished_goods_meter metrics)))
        LaminatsiyaCompletionMetricsRequired;
  let missing_waste :=
    is_complete && negb allow_partial &&
    (if waste_only then is_none (pmx_total_waste metrics)
     else negb (rezka_progress_metrics_are_complete (pmx_total_waste metrics)
                  (pmx_rezka_bosma_waste metrics) (pmx_rezka_lamination_waste metrics)
                  (pmx_rezka_edge_waste metrics))) in
  let missing_quantity :=
    negb (rezka_quantity_metrics_are_complete (qp_produced_qty progress) rezka_gross_qty
            (pmx_finished_goods_kg metrics) (pmx_finished_goods_meter metrics)) in
  check (is_rezka && (missing_waste || missing_quantity || is_none (pmx_diameter metrics)))
    RezkaProgressMetricsRequired.

Definition validated_progress_metrics (canonical : RuntimeApparatusConfiguration) (action : Action.t)
    (progress : QueueProgressInput) (waste_only : bool) : pm_result ProgressMetrics :=
  let is_complete := bool_decide (action = Action.Complete) in
  let is_rezka_completion :=
    match action with Action.Complete | Action.RollComplete => true | _ => false end in
  let is_rezka := is_rezka_apparatus canonical in
  let is_laminatsiya := uses_lamination_workflow canonical in
  let is_pechat := is_pechat_apparatus canonical in
  rezka_gross_qty ← when is_rezka (valid_optional_progress_qty
                      (or_else (qp_gross_qty progress) (qp_finished_goods_kg progress)));
  let allow_partial := (is_laminatsiya || is_rezka) && is_complete &&
                       qp_allow_partial_station_completion progress in
  let layers := is_laminatsiya && qp_lamination_layer_dispositions_attached progress in
  let leftover v := if layers then valid_non_negative_optional_progress_qty v
                    else valid_optional_progress_qty v in
  let split_waste := is_rezka_completion && negb allow_partial && negb waste_only in
  return_ink ← when is_complete (valid_optional_progress_qty (qp_return_ink_kg progress));
  print ← when (is_complete && negb allow_partial) (leftover (qp_lamination_print_leftover_rolls progress));
  film ← when (is_complete && negb allow_partial) (leftover (qp_lamination_film_leftover_rolls progress));
  bosma ← when split_waste (valid_optional_progress_qty (qp_rezka_bosma_waste progress));
  lamination ← when split_waste (valid_optional_progress_qty (qp_rezka_lamination_waste progress));
  edge ← when split_waste (valid_optional_progress_qty (qp_rezka_edge_waste progress));
  total ← when (negb ((is_rezka && negb is_rezka_completion) ||
                      ((is_laminatsiya || is_pechat) && (negb is_complete || allow_partial))))
            (if waste_only || layers then valid_non_negative_optional_progress_qty (qp_total_waste progress)
             else valid_optional_progress_qty (qp_total_waste progress));
  kg ← valid_optional_progress_qty
         (if is_rezka then or_else (qp_finished_goods_kg progress) (qp_gross_qty progress)
          else qp_finished_goods_kg progress);
  bobina ← valid_optional_progress_qty (qp_bobina_kg progress);
  meter ← valid_optional_progress_qty
            (if is_rezka then or_else (qp_finished_goods_meter progress) (qp_produced_qty progress)
             else qp_finished_goods_meter progress);
  diameter ← when is_rezka (valid_optional_progress_qty (qp_diameter progress));
  let metrics := {|
    pmx_return_ink_kg := return_ink; pmx_lamination_print_leftover_rolls := print;
    pmx_lamination_film_leftover_rolls := film; pmx_rezka_bosma_waste := bosma;
    pmx_rezka_lamination_waste := lamination; pmx_rezka_edge_waste := edge; pmx_total_waste := total;
    pmx_finished_goods_kg := kg; pmx_bobina_kg := bobina; pmx_finished_goods_meter := meter;
    pmx_diameter := diameter |} in
  _ ← validate_progress_metrics canonical action progress rezka_gross_qty metrics allow_partial waste_only;
  Ok metrics.

Definition no_metrics : ProgressMetrics := {|
  pmx_return_ink_kg := None; pmx_lamination_print_leftover_rolls := None;
  pmx_lamination_film_leftover_rolls := None; pmx_rezka_bosma_waste := None;
  pmx_rezka_lamination_waste := None; pmx_rezka_edge_waste := None; pmx_total_waste := None;
  pmx_finished_goods_kg := None; pmx_bobina_kg := None; pmx_finished_goods_meter := None;
  pmx_diameter := None |}.

Definition validated_laminatsiya_worker_handoff_metrics (canonical : RuntimeApparatusConfiguration)
    (progress : QueueProgressInput) : pm_result ProgressMetrics :=
  _ ← check (negb (uses_lamination_workflow canonical)) ProgressInputInvalid;
  print ← valid_non_negative_optional_progress_qty (qp_lamination_print_leftover_rolls progress);
  film ← valid_non_negative_optional_progress_qty (qp_lamination_film_leftover_rolls progress);
  total ← valid_non_negative_optional_progress_qty (qp_total_waste progress);
  bobina ← valid_optional_progress_qty (qp_bobina_kg progress);
  _ ← check (is_none print || is_none film || is_none total) LaminatsiyaCompletionMetricsRequired;
  Ok {| pmx_return_ink_kg := None; pmx_lamination_print_leftover_rolls := print;
        pmx_lamination_film_leftover_rolls := film; pmx_rezka_bosma_waste := None;
        pmx_rezka_lamination_waste := None; pmx_rezka_edge_waste := None; pmx_total_waste := total;
        pmx_finished_goods_kg := None; pmx_bobina_kg := bobina; pmx_finished_goods_meter := None;
        pmx_diameter := None |}.

Definition validated_laminatsiya_removed_roll_metrics (canonical : RuntimeApparatusConfiguration)
    (progress : QueueProgressInput) : pm_result ProgressMetrics :=
  _ ← check (negb (uses_lamination_workflow canonical)) ProgressInputInvalid;
  meter ← valid_optional_progress_qty (or_else (qp_finished_goods_meter progress) (qp_produced_qty progress));
  kg ← valid_optional_progress_qty (or_else (qp_finished_goods_kg progress) (qp_gross_qty progress));
  _ ← check (is_none meter || is_none kg) LaminatsiyaCompletionMetricsRequired;
  bobina ← valid_optional_progress_qty (qp_bobina_kg progress);
  Ok {| pmx_return_ink_kg := None; pmx_lamination_print_leftover_rolls := None;
        pmx_lamination_film_leftover_rolls := None; pmx_rezka_bosma_waste := None;
        pmx_rezka_lamination_waste := None; pmx_rezka_edge_waste := None; pmx_total_waste := None;
        pmx_finished_goods_kg := kg; pmx_bobina_kg := bobina; pmx_finished_goods_meter := meter;
        pmx_diameter := None |}.

(** The quantity of an output (service_progress_support.rs). *)
Record ProgressQuantity := {
  quantity_produced_qty : f64;
  quantity_uom : string;
}.

Section payloads.
Context `{J : Json}.

(** [serde] of an optional number. *)
Definition json_opt_f64 (v : option f64) : value :=
  match v with Some x => json_f64 x | None => json_null end.

Definition metrics_fields (m : ProgressMetrics) : list (string * value) :=
  [("return_ink_kg", json_opt_f64 (pmx_return_ink_kg m));
   ("lamination_print_leftover_rolls", json_opt_f64 (pmx_lamination_print_leftover_rolls m));
   ("lamination_film_leftover_rolls", json_opt_f64 (pmx_lamination_film_leftover_rolls m));
   ("rezka_bosma_waste", json_opt_f64 (pmx_rezka_bosma_waste m));
   ("rezka_lamination_waste", json_opt_f64 (pmx_rezka_lamination_waste m));
   ("rezka_edge_waste", json_opt_f64 (pmx_rezka_edge_waste m));
   ("total_waste", json_opt_f64 (pmx_total_waste m));
   ("finished_goods_kg", json_opt_f64 (pmx_finished_goods_kg m));
   ("bobina_kg", json_opt_f64 (pmx_bobina_kg m));
   ("finished_goods_meter", json_opt_f64 (pmx_finished_goods_meter m));
   ("diameter", json_opt_f64 (pmx_diameter m))].

(** The fields [write_payload_fields] puts on an object. *)
Definition payload_fields (m : ProgressMetrics) (description : string) : list (string * value) :=
  metrics_fields m ++ [("total_waste_uom", json_str "kg"); ("description", json_str description)].
End payloads.
