(* ===== verification/Lineage.v ===== *)
(** Input lineage: which rolls a work session consumed, and which of them each output
    roll was made of.

    Models the lineage payloads of [progress_session/progress.rs], the session payloads,
    output identities and output boundaries of [service_progress_support.rs], the merge
    and the attachment of inputs of [service_progress.rs], and the detachment of a
    scanned input of [scanned_wip.rs], in [src/core/production_map/].  Encoding and
    decoding of the lists kept in payloads is [serde]'s ([Serde]). *)
From S2P Require Import Prelude RustStr F64 Errors Identity QueueState OrderLayout MapDefinition Formula Compiler Bfs Chain Projection Scheduler Json Progress CutLayout Metrics.

Module InputKind.
Inductive t := ProgressBatch | OpeningWip.
Global Instance eq_dec : EqDecision t.
Proof. solve_decision. Defined.
Definition parse (value : string) : option t :=
  parse_ascii_variant value [("progress_batch", ProgressBatch); ("opening_wip", OpeningWip)].
Definition as_str (k : t) : string :=
  match k with ProgressBatch => "progress_batch" | OpeningWip => "opening_wip" end.
End InputKind.

Module InputStatus.
Inductive t := InUse | Processed.
Global Instance eq_dec : EqDecision t.
Proof. solve_decision. Defined.
Definition parse (value : string) : option t :=
  parse_ascii_variant value [("in_use", InUse); ("processed", Processed)].
Definition as_str (s : t) : string := match s with InUse => "in_use" | Processed => "processed" end.
End InputStatus.

(** One input of a session, in splice order. *)
Record OrderRunInputLink := {
  link_input_batch_id : string;
  link_input_qr_payload : string;
  link_source_apparatus : string;
  link_source_kind : InputKind.t;
  link_stage_node_id : string;
  link_sequence_no : Z;
  link_status : InputStatus.t;
  link_linked_at_unix : Z;
  link_processed_at_unix : option Z;
}.
#[global] Instance OrderRunInputLink_rebuild : Rebuild OrderRunInputLink := λ r, {|
  link_input_batch_id := link_input_batch_id r;
  link_input_qr_payload := link_input_qr_payload r;
  link_source_apparatus := link_source_apparatus r;
  link_source_kind := link_source_kind r;
  link_stage_node_id := link_stage_node_id r;
  link_sequence_no := link_sequence_no r;
  link_status := link_status r;
  link_linked_at_unix := link_linked_at_unix r;
  link_processed_at_unix := link_processed_at_unix r |}.

Definition link_in_use (link : OrderRunInputLink) : bool :=
  bool_decide (link_status link = InputStatus.InUse).
Definition link_id (link : OrderRunInputLink) : string := trim (link_input_batch_id link).

Definition link_is_valid (link : OrderRunInputLink) : bool :=
  negb (blank (link_input_batch_id link)) && (0 <? link_sequence_no link)%Z &&
  match link_status link with
  | InputStatus.InUse => is_none (link_processed_at_unix link)
  | InputStatus.Processed => is_some (link_processed_at_unix link)
  end.

(** The unfinished output roll in one frame of a cutter. *)
Record RezkaActivePartialRoll := {
  roll_slot_index : Z;
  roll_generation : Z;
  roll_contained_kadr_count : Z;
  roll_source_input_batch_ids : list string;
  roll_started_at_unix : Z;
  roll_updated_at_unix : Z;
}.
#[global] Instance RezkaActivePartialRoll_rebuild : Rebuild RezkaActivePartialRoll := λ r, {|
  roll_slot_index := roll_slot_index r;
  roll_generation := roll_generation r;
  roll_contained_kadr_count := roll_contained_kadr_count r;
  roll_source_input_batch_ids := roll_source_input_batch_ids r;
  roll_started_at_unix := roll_started_at_unix r;
  roll_updated_at_unix := roll_updated_at_unix r |}.

(** Every [insert] into a set of the ids seen succeeds. *)
Definition all_distinct (ids : list string) : bool := bool_decide (NoDup ids).

(** The counters are unsigned: not zero is positive. *)
Definition roll_is_valid (roll : RezkaActivePartialRoll) : bool :=
  (0 <? roll_slot_index roll)%Z && (0 <? roll_generation roll)%Z &&
  (0 <? roll_contained_kadr_count roll)%Z &&
  forallb (λ id, negb (blank id)) (roll_source_input_batch_ids roll) &&
  all_distinct (trim <$> roll_source_input_batch_ids roll).

(** One input of an output roll. *)
Record ProgressBatchInputLink := {
  source_input_batch_id : string;
  source_input_qr_payload : string;
  source_source_apparatus : string;
  source_source_kind : InputKind.t;
  source_sequence_no : Z;
}.

Definition source_is_valid (link : ProgressBatchInputLink) : bool :=
  negb (blank (source_input_batch_id link)) && (0 <? source_sequence_no link)%Z.

Record SessionProgressLinks := {
  spl_layout_lanes : list OrderLane;
  spl_batch_id : string;
  spl_qr_payload : string;
  spl_apparatus : string;
  spl_source_kind : string;
  spl_stage_node_id : string;
  spl_contained_kadr_count : option Z;
}.

Record ProgressOutputIdentity := {
  oid_lane_offset : option nat;
  oid_batch_id : string;
  oid_qr_payload : string;
  oid_frame_index : option Z;
  oid_frame_count : option Z;
  oid_contained_kadr_count : option nat;
  oid_rezka_output_kind : option string;
}.

Definition u32_checked (z : Z) : option Z := if (0 <=? z)%Z && (z <=? u32_MAX)%Z then Some z else None.

(** * Consistency of a session's lineage *)

Definition links_are_valid (links : list OrderRunInputLink) : bool :=
  forallb link_is_valid links && all_distinct (link_id <$> links) &&
  bool_decide (NoDup (link_sequence_no <$> links)) &&
  (length (List.filter link_in_use links) <=? 1).

Definition rolls_are_valid (rolls : list RezkaActivePartialRoll) : bool :=
  forallb roll_is_valid rolls && bool_decide (NoDup (roll_slot_index <$> rolls)).

Definition sources_are_valid (links : list ProgressBatchInputLink) : bool :=
  forallb source_is_valid links && all_distinct ((λ l, trim (source_input_batch_id l)) <$> links) &&
  bool_decide (NoDup (source_sequence_no <$> links)).

Definition active_link (links : list OrderRunInputLink) : option OrderRunInputLink :=
  List.find link_in_use links.

Definition rezka_merge_state_is_consistent (links : list OrderRunInputLink)
    (rolls : list RezkaActivePartialRoll) : bool :=
  forallb (λ roll,
    forallb (λ id, bool_decide (trim id ∈ link_id <$> links)) (roll_source_input_batch_ids roll) &&
    match active_link links with
    | Some active => existsb (λ source, trim source =s link_id active) (roll_source_input_batch_ids roll)
    | None => match roll_source_input_batch_ids roll with [] => true | _ => false end
    end) rolls.

(** * Mould codes of a session (progress.rs) *)

Section lineage.
Context `{J : Json} `{!Serde (list OrderLane)} `{!Serde (list OrderRunInputLink)}.
Context `{!Serde (list RezkaActivePartialRoll)} `{!Serde (list ProgressBatchInputLink)}.
Context `{!Serde QueueActionActor}.

Record QolipLineage := {
  qolip_set_snapshot : option value;
  qolip_set_id : string;
  qolip_code : string;
  qolip_codes : list string;
}.

(** Codes trimmed, each once up to case. *)
Fixpoint normalize_codes (codes normalized : list string) : list string :=
  match codes with
  | [] => normalized
  | code :: codes =>
      let code := trim code in
      if is_empty code || existsb (λ existing, eq_ignore_ascii_case existing code) normalized
      then normalize_codes codes normalized
      else normalize_codes codes (normalized ++ [code])
  end.

Definition from_codes (codes : list string) : option QolipLineage :=
  let normalized := normalize_codes codes [] in
  code ← head normalized;
  Some {| qolip_set_snapshot := None; qolip_set_id := ""; qolip_code := code; qolip_codes := normalized |}.

Definition code_of_value (v : value) : option string :=
  code ← json_as_str v;
  if blank code then None else Some (trim code).

Definition from_payload (payload : value) : option QolipLineage :=
  let primary := code ← payload_str payload "qolip_code"; if blank code then None else Some (trim code) in
  codes ← (match json_get "qolip_codes" payload with
           | None => Some []
           | Some values => values ← json_as_array values; mapM code_of_value values
           end);
  let codes := match primary with Some code => code :: codes | None => codes end in
  lineage ← from_codes codes;
  Some {| qolip_set_snapshot :=
            (snapshot ← json_get "qolip_set_snapshot" payload;
             if json_is_object snapshot then Some snapshot else None);
          qolip_set_id := default "" (payload_str payload "qolip_set_id");
          qolip_code := qolip_code lineage; qolip_codes := qolip_codes lineage |}.

(** [payload[key] = x]. *)
Definition put_field (payload : value) (kx : string * value) : run_result value :=
  expect (json_set kx.1 kx.2 payload).
Definition put_fields (fields : list (string * value)) (payload : value) : run_result value :=
  for_each (λ kx payload, put_field payload kx) fields payload.

Definition write_to_payload (lineage : QolipLineage) (payload : value) : run_result value :=
  put_fields
    ((if is_empty (qolip_set_id lineage) then [] else [("qolip_set_id", json_str (qolip_set_id lineage))]) ++
     [("qolip_code", json_str (qolip_code lineage)); ("qolip_codes", json_strings (qolip_codes lineage))] ++
     (match qolip_set_snapshot lineage with Some v => [("qolip_set_snapshot", v)] | None => [] end))
    (ensure_payload_object payload).

Definition write_lineage (lineage : option QolipLineage) (payload : value) : run_result value :=
  match lineage with Some l => write_to_payload l payload | None => Ok payload end.

(** * Lists kept in payloads (progress.rs) *)

Definition INPUT_LINEAGE : string := "input_lineage".
Definition ACTIVE_PARTIAL_ROLLS : string := "rezka_active_partial_rolls".
Definition SOURCE_INPUT_LINKS : string := "source_input_links".

Definition order_run_input_links_from_payload (payload : value) : option (list OrderRunInputLink) :=
  match json_get INPUT_LINEAGE payload with
  | None => Some []
  | Some v => links ← from_value v; if links_are_valid links then Some links else None
  end.

Definition rezka_active_partial_rolls_from_payload (payload : value)
  : option (list RezkaActivePartialRoll) :=
  match json_get ACTIVE_PARTIAL_ROLLS payload with
  | None => Some []
  | Some v => rolls ← from_value v; if rolls_are_valid rolls then Some rolls else None
  end.

Definition progress_batch_input_links_from_payload (payload : value)
  : option (list ProgressBatchInputLink) :=
  match json_get SOURCE_INPUT_LINKS payload with
  | None => Some []
  | Some v => links ← from_value v; if sources_are_valid links then Some links else None
  end.

Definition write_order_run_input_links (links : list OrderRunInputLink) (payload : value) : run_result value :=
  put_field (ensure_payload_object payload) (INPUT_LINEAGE, to_value links).
Definition write_rezka_active_partial_rolls (rolls : list RezkaActivePartialRoll) (payload : value)
  : run_result value :=
  put_field (ensure_payload_object payload) (ACTIVE_PARTIAL_ROLLS, to_value rolls).
Definition write_progress_batch_input_links (links : list ProgressBatchInputLink) (payload : value)
  : run_result value :=
  put_field (ensure_payload_object payload) (SOURCE_INPUT_LINKS, to_value links).

(** [json_string_field] and [json_positive_usize_field]. *)
Definition json_string_field (payload : value) (key : string) : string :=
  trim (default "" (payload_str payload key)).
Definition json_positive_usize_field (payload : value) (key : string) : option Z :=
  v ← json_get key payload; n ← json_as_u64 v;
  if (0 <? n)%Z then Some n else None.

(** * Sessions (service_progress_support.rs) *)

Definition session_progress_links (session : RunSession) : SessionProgressLinks :=
  let payload := session_payload_json session in
  {| spl_layout_lanes := payload_lanes payload;
     spl_batch_id := json_string_field payload "input_progress_batch_id";
     spl_qr_payload := json_string_field payload "input_progress_qr_payload";
     spl_apparatus := json_string_field payload "input_progress_apparatus";
     spl_source_kind := json_string_field payload "input_wip_source_kind";
     spl_stage_node_id := trim (session_stage_node_id session);
     spl_contained_kadr_count := json_positive_usize_field payload "contained_kadr_count" |}.

Definition progress_links_from_batch (batch : OrderProgressBatch) : SessionProgressLinks :=
  let payload := batch_payload_json batch in
  {| spl_layout_lanes := payload_lanes payload;
     spl_batch_id := batch_id batch;
     spl_qr_payload := batch_qr_payload batch;
     spl_apparatus := batch_apparatus batch;
     spl_source_kind := "progress_batch";
     spl_stage_node_id := progress_batch_next_stage_node_id batch;
     spl_contained_kadr_count := json_positive_usize_field payload "contained_kadr_count" |}.

Definition progress_links_from_opening_wip (intake : OpeningWipIntake) (batch : OpeningWipBatch)
    (target_stage_node_id : string) : SessionProgressLinks :=
  {| spl_layout_lanes := [];
     spl_batch_id := opening_batch_id batch;
     spl_qr_payload := opening_qr_payload batch;
     spl_apparatus := if blank (intake_source_apparatus intake) then intake_source_operation intake
                      else intake_source_apparatus intake;
     spl_source_kind := "opening_wip";
     spl_stage_node_id := trim target_stage_node_id;
     spl_contained_kadr_count := None |}.

Definition lamination_input_was_released (session : RunSession) : bool :=
  match session_status session with RunStatus.Paused | RunStatus.RollDetached => true | _ => false end &&
  blank (spl_batch_id (session_progress_links session)) &&
  (bool_decide (payload_bool (session_payload_json session) "lamination_astatka_shift_closed" = Some true) ||
   is_some_and (payload_str (session_payload_json session) "layer_remainder_detached_input_batch_id")
     (λ id, negb (blank id))).

(** The input a session is started, merged or resumed with. *)
Definition mounted_link (input : SessionProgressLinks) (kind : InputKind.t) (stage_node_id : string)
    (sequence_no now : Z) : OrderRunInputLink := {|
  link_input_batch_id := spl_batch_id input;
  link_input_qr_payload := spl_qr_payload input;
  link_source_apparatus := spl_apparatus input;
  link_source_kind := kind;
  link_stage_node_id := stage_node_id;
  link_sequence_no := sequence_no;
  link_status := InputStatus.InUse;
  link_linked_at_unix := now;
  link_processed_at_unix := None |}.

Definition trimmed_input (input : SessionProgressLinks) : SessionProgressLinks := {|
  spl_layout_lanes := spl_layout_lanes input;
  spl_batch_id := trim (spl_batch_id input);
  spl_qr_payload := trim (spl_qr_payload input);
  spl_apparatus := trim (spl_apparatus input);
  spl_source_kind := spl_source_kind input;
  spl_stage_node_id := spl_stage_node_id input;
  spl_contained_kadr_count := spl_contained_kadr_count input |}.

Definition input_fields (input : SessionProgressLinks) : list (string * value) :=
  [("input_progress_batch_id", json_str (spl_batch_id input));
   ("input_progress_qr_payload", json_str (spl_qr_payload input));
   ("input_progress_apparatus", json_str (spl_apparatus input));
   ("input_wip_source_kind", json_str (spl_source_kind input))].

(** The optional fields of a new session payload. *)
Definition layout_fields (input : SessionProgressLinks) : list (string * value) :=
  (match spl_layout_lanes input with [] => [] | lanes => [("layout_lanes", to_value lanes)] end) ++
  (match spl_contained_kadr_count input with
   | Some n => [("contained_kadr_count", json_Z n)] | None => [] end).

Definition start_session_payload (actor : QueueActionActor) (input : SessionProgressLinks)
    (input_batch : option OrderProgressBatch) (stage_node_id : string) (now : Z) : run_result value :=
  let payload := json_object
    ([("started_by", to_value actor)] ++ input_fields input ++
     [("wip_started_at_unix", json_Z now); ("wip_waiting_for_resume", json_bool false)]) in
  payload ← put_fields (layout_fields input) payload;
  payload ← write_lineage (b ← input_batch; from_payload (batch_payload_json b)) payload;
  match InputKind.parse (spl_source_kind input) with
  | Some kind =>
      if blank (spl_batch_id input) then Ok payload
      else write_order_run_input_links
             [mounted_link (trimmed_input input) kind (trim stage_node_id) 1 now] payload
  | None => Ok payload
  end.

(** The fields of a session that survive a change of its payload. *)
Definition KEPT_FIELDS : list string :=
  ["qolip_confirmation"; "qolip_released_on_return"; "_reactivation_of_session_id";
   "_reactivation_reserved_outputs"; "reactivation_token"; "start_resources"; INPUT_LINEAGE;
   ACTIVE_PARTIAL_ROLLS; "rezka_output_report"; "rezka_reference_frame_index"; "rezka_output_cycle";
   "rezka_output_revision"; "rezka_recorded_kadr_counts"; "wip_started_at_unix";
   "wip_waiting_for_resume"; "_temporary_pause_revision"; "_temporary_pause_last_interval"].

Definition kept_fields (current : value) : list (string * value) :=
  omap (λ key, pair key <$> json_get key current) KEPT_FIELDS.

Definition preserve_qolip_lineage (current : RunSession) (replacement : value) : run_result value :=
  let payload := session_payload_json current in
  replacement ← write_lineage (from_payload payload) replacement;
  let replacement := ensure_payload_object replacement in
  let owner :=
    match json_get "qolip_lock_owner" replacement, json_get "qolip_lock_owner" payload with
    | None, Some owner => [("qolip_lock_owner", owner)] | _, _ => [] end in
  put_fields (owner ++ kept_fields payload) replacement.

Definition with_session_payload (session : RunSession) (payload : value) : RunSession :=
  {| run_session := run_session session; session_payload_json := payload |}.

Definition ensure_wip_started_at (session : RunSession) : run_result RunSession :=
  let payload := session_payload_json session in
  if is_some (json_get "wip_started_at_unix" payload) then Ok session
  else
    let started := if is_some (json_get "_resume_pause" payload)
                   then session_updated_at_unix session else session_started_at_unix session in
    with_session_payload session <$> put_field payload ("wip_started_at_unix", json_Z started).

Definition resume_wip_clock (session : RunSession) (now : Z) : run_result RunSession :=
  let payload := session_payload_json session in
  if bool_decide (payload_bool payload "wip_waiting_for_resume" = Some true)
  then with_session_payload session <$>
         put_fields [("wip_started_at_unix", json_Z now); ("wip_waiting_for_resume", json_bool false)] payload
  else Ok session.

Definition progress_batch_started_at (session : RunSession) : pm_result Z :=
  let started := default (session_started_at_unix session)
    (v ← json_get "wip_started_at_unix" (session_payload_json session); json_as_i64 v) in
  _ ← check ((started <? 0)%Z || (session_updated_at_unix session <? started)%Z) ProgressInputInvalid;
  Ok started.

(** The payload of a session whose worker reported an output or a stop. *)
Definition progress_session_payload (action : Action.t) (produced_qty : f64) (uom : string)
    (metrics : ProgressMetrics) (description : string) (input : SessionProgressLinks) : run_result value :=
  let payload := json_object
    ([("last_action", json_str (Action.as_str action)); ("last_qty", json_f64 produced_qty);
      ("last_uom", json_str uom)] ++ input_fields input) in
  payload ← put_fields (payload_fields metrics description) payload;
  put_fields (layout_fields input) payload.

Definition stopped_session_payload (handed_over : bool) (metrics : ProgressMetrics) (description : string)
    (input : SessionProgressLinks) : run_result value :=
  payload ← progress_session_payload Action.Pause f64_zero "" metrics description input;
  put_fields [("worker_handoff", json_bool handed_over);
              ("roll_removed_from_apparatus", json_bool (negb handed_over))] payload.

Definition worker_handoff_session_payload := stopped_session_payload true.
Definition removed_roll_session_payload := stopped_session_payload false.

(** ** Partial rolls of a cutter *)

Definition new_roll (sources : list string) (now : Z) (index : nat) (count : nat)
  : pm_result RezkaActivePartialRoll :=
  slot ← ok_or (u32_checked (Z.of_nat index + 1)) InvalidRezkaFrameGroups;
  count ← ok_or (u32_checked (Z.of_nat count)) InvalidRezkaFrameGroups;
  Ok {| roll_slot_index := slot; roll_generation := 1; roll_contained_kadr_count := count;
        roll_source_input_batch_ids := sources; roll_started_at_unix := now;
        roll_updated_at_unix := now |}.

Fixpoint new_rolls (sources : list string) (now : Z) (index : nat) (counts : list nat)
  : pm_result (list RezkaActivePartialRoll) :=
  match counts with
  | [] => Ok []
  | count :: counts =>
      roll ← new_roll sources now index count;
      rolls ← new_rolls sources now (S index) counts;
      Ok (roll :: rolls)
  end.

Definition initialize_rezka_active_partial_rolls (counts : list nat) (now : Z) (payload : value)
  : run_result value :=
  links ← lift (ok_or (order_run_input_links_from_payload payload) ProgressInputInvalid);
  rolls ← lift (new_rolls (link_input_batch_id <$> List.filter link_in_use links) now 0 counts);
  write_rezka_active_partial_rolls rolls payload.

(** ** What an output was made of *)

Definition source_of_link (link : OrderRunInputLink) : ProgressBatchInputLink := {|
  source_input_batch_id := link_input_batch_id link;
  source_input_qr_payload := link_input_qr_payload link;
  source_source_apparatus := link_source_apparatus link;
  source_source_kind := link_source_kind link;
  source_sequence_no := link_sequence_no link |}.

Definition sequence_le (a b : ProgressBatchInputLink) : Prop :=
  (source_sequence_no a <= source_sequence_no b)%Z.
#[global] Instance sequence_le_dec : RelDecision sequence_le.
Proof. intros a b. unfold sequence_le. apply _. Defined.

(** The sources of the frame of an output, where the session tracks frames. *)
Definition selected_sources (rolls : list RezkaActivePartialRoll) (frame_index : option Z)
  : option (list string) :=
  index ← frame_index; slot ← u32_checked index;
  roll_source_input_batch_ids <$> List.find (λ roll, roll_slot_index roll =? slot)%Z rolls.

Definition progress_batch_source_input_links (session : RunSession) (input : SessionProgressLinks)
    (frame_index : option Z) : pm_result (list ProgressBatchInputLink) :=
  let payload := session_payload_json session in
  links ← ok_or (order_run_input_links_from_payload payload) ProgressInputInvalid;
  rolls ← ok_or (rezka_active_partial_rolls_from_payload payload) ProgressInputInvalid;
  _ ← check (negb (rezka_merge_state_is_consistent links rolls)) ProgressInputInvalid;
  let selected :=
    match selected_sources rolls frame_index with
    | Some ids => List.filter (λ link, existsb (λ id, trim id =s link_id link) ids) links
    | None => links
    end in
  match merge_sort sequence_le (source_of_link <$> selected) with
  | [] =>
      match InputKind.parse (spl_source_kind input) with
      | Some kind =>
          if blank (spl_batch_id input) then Ok []
          else Ok [source_of_link (mounted_link (trimmed_input input) kind "" 1 0)]
      | None => Ok []
      end
  | sources => Ok sources
  end.

(** ** Output boundaries *)

Definition close_link (now : Z) (link : OrderRunInputLink) : OrderRunInputLink :=
  link <| link_status := InputStatus.Processed |> <| link_processed_at_unix := Some now |>.

(** [iter_mut().find(..)] and a change of the link found. *)
Fixpoint change_first {A} (f : A → bool) (g : A → A) (l : list A) : list A :=
  match l with
  | [] => []
  | x :: l => if f x then g x :: l else x :: change_first f g l
  end.

Definition is_mounted (id : string) (link : OrderRunInputLink) : bool :=
  (link_id link =s trim id) && link_in_use link.

Definition next_generation (input_batch_id : string) (now : Z) (roll : RezkaActivePartialRoll)
  : pm_result RezkaActivePartialRoll :=
  generation ← ok_or (u32_checked (roll_generation roll + 1)) ProgressInputInvalid;
  Ok (roll <| roll_generation := generation |>
           <| roll_source_input_batch_ids := if blank input_batch_id then [] else [trim input_batch_id] |>
           <| roll_started_at_unix := now |>
           <| roll_updated_at_unix := now |>).

Definition apply_output_boundary_to_session_payload (action : Action.t) (input_batch_id : string) (now : Z)
    (payload : value) : run_result value :=
  payload ← put_fields
    (match action with
     | Action.Pause | Action.DetachRoll => [("wip_waiting_for_resume", json_bool true)]
     | Action.RollComplete =>
         [("wip_started_at_unix", json_Z now); ("wip_waiting_for_resume", json_bool false)]
     | _ => []
     end) payload;
  match action with
  | Action.Complete =>
      links ← lift (ok_or (order_run_input_links_from_payload payload) ProgressInputInvalid);
      payload ← write_order_run_input_links
        (change_first (is_mounted input_batch_id) (close_link now) links) payload;
      write_rezka_active_partial_rolls [] payload
  | Action.RollComplete =>
      rolls ← lift (ok_or (rezka_active_partial_rolls_from_payload payload) ProgressInputInvalid);
      rolls ← lift (map_result (next_generation input_batch_id now) rolls);
      write_rezka_active_partial_rolls rolls payload
  | _ => Ok payload
  end.

(** * Merging another input (build_merged_progress of service_progress.rs) *)

Definition next_sequence_no (links : list OrderRunInputLink) : option Z :=
  u32_checked (foldr Z.max 0%Z (link_sequence_no <$> links) + 1).

(** The links of the session; a session of before lineages has its input only. *)
Definition links_with_current (session : RunSession) (current : SessionProgressLinks) (payload : value)
  : run_result (value * list OrderRunInputLink) :=
  links ← lift (ok_or (order_run_input_links_from_payload payload) MergeInputNotAccepted);
  match links with
  | [] =>
      kind ← lift (ok_or (InputKind.parse (spl_source_kind current)) MergeInputNotAccepted);
      let links := [mounted_link current kind (spl_stage_node_id current) 1
                      (session_started_at_unix session)] in
      payload ← write_order_run_input_links links payload;
      Ok (payload, links)
  | _ => Ok (payload, links)
  end.

Definition merge_frame_counts (map : ProductionMapDefinition) (apparatus stage_node_id : string)
    (input : SessionProgressLinks) : pm_result (list nat) :=
  match map_products map with
  | [] => rezka_output_kadr_counts map apparatus stage_node_id
            (Z.to_nat <$> spl_contained_kadr_count input)
  | _ => cut_counts map stage_node_id (spl_layout_lanes input)
  end.

Definition kadr_total (counts : list nat) : Z := Z.of_nat (sum_list counts).

(** A cutter goes on with the same frames. *)
Definition merge_rolls (map : ProductionMapDefinition) (apparatus : string) (session : RunSession)
    (current next : SessionProgressLinks) (payload : value)
  : run_result (value * list RezkaActivePartialRoll * Z) :=
  rolls ← lift (ok_or (rezka_active_partial_rolls_from_payload payload) MergeInputNotAccepted);
  '(payload, rolls) ←
    (match rolls with
     | [] =>
         counts ← lift (merge_frame_counts map apparatus (spl_stage_node_id current) current);
         started ← lift (progress_batch_started_at session);
         payload ← initialize_rezka_active_partial_rolls counts started payload;
         rolls ← lift (ok_or (rezka_active_partial_rolls_from_payload payload) MergeInputNotAccepted);
         Ok (payload, rolls)
     | _ => Ok (payload, rolls)
     end);
  let active := Z.to_nat ∘ roll_contained_kadr_count <$> rolls in
  scanned ← lift (merge_frame_counts map apparatus (spl_stage_node_id current) next);
  _ ← lift (check (negb (bool_decide (active = scanned)))
              (MergeInputFrameCountMismatch (kadr_total active) (kadr_total scanned)));
  Ok (payload, rolls, kadr_total scanned).

Definition laminatsiya_merge_contained_kadr_count (active scanned : option Z) : pm_result (option Z) :=
  match active, scanned with
  | Some active, Some scanned =>
      _ ← check (negb (active =? scanned)%Z) (MergeInputFrameCountMismatch active scanned);
      Ok (Some active)
  | None, None => Ok None
  | _, _ => Err MergeInputNotAccepted
  end.

Definition splice_roll (next_id : string) (now : Z) (roll : RezkaActivePartialRoll) : RezkaActivePartialRoll :=
  (if existsb (λ id, trim id =s trim next_id) (roll_source_input_batch_ids roll) then roll
   else roll <| roll_source_input_batch_ids := roll_source_input_batch_ids roll ++ [next_id] |>)
  <| roll_updated_at_unix := now |>.

(** The lanes of a splice: both inputs carry the same. *)
Definition lanes_conflict (map : ProductionMapDefinition) (current next : SessionProgressLinks) : bool :=
  match map_products map with
  | [] => false
  | _ => match spl_layout_lanes current with [] => true | lanes => negb (lanes_eqb lanes (spl_layout_lanes next)) end
  end.

(** The mounted input becomes processed, the next one is mounted. *)
Definition splice_links (current next : SessionProgressLinks) (now : Z) (links : list OrderRunInputLink)
  : pm_result (list OrderRunInputLink * Z) :=
  _ ← check (negb (existsb (is_mounted (spl_batch_id current)) links)) MergeInputNotAccepted;
  let links := change_first (is_mounted (spl_batch_id current)) (close_link now) links in
  kind ← ok_or (InputKind.parse (spl_source_kind next)) MergeInputNotAccepted;
  sequence ← ok_or (next_sequence_no links) MergeInputNotAccepted;
  Ok (links ++ [mounted_link next kind (spl_stage_node_id current) sequence now], sequence).

Definition merge_fields (next : SessionProgressLinks) : list (string * value) :=
  [("last_action", json_str "merge")] ++ input_fields next.

(** What a merge writes to the payload. *)
Definition merge_writes (is_rezka : bool) (links : list OrderRunInputLink) (rolls : list RezkaActivePartialRoll)
    (current next : SessionProgressLinks) (sequence : Z) (frames : option Z) (payload : value)
  : run_result value :=
  payload ← write_order_run_input_links links payload;
  payload ← (if is_rezka then write_rezka_active_partial_rolls rolls payload else Ok payload);
  payload ← put_fields (merge_fields next) payload;
  payload ← (match frames with
             | Some n => put_field payload ("contained_kadr_count", json_Z n)
             | None => Ok (json_remove "contained_kadr_count" payload)
             end);
  put_fields
    [("merge_from_input_batch_id", json_str (spl_batch_id current));
     ("merge_to_input_batch_id", json_str (spl_batch_id next));
     ("merge_count", json_Z (sequence - 1))] payload.

(** The payload of the session after the merge: [next] is the input scanned, resolved
    and checked by the service. *)
Definition merged_payload (map : ProductionMapDefinition) (apparatus : string) (is_rezka : bool)
    (session : RunSession) (next : SessionProgressLinks) (now : Z) : run_result value :=
  let current := session_progress_links session in
  _ ← lift (check (blank (spl_batch_id current)) MergeInputNotAccepted);
  '(payload, links) ← links_with_current session current (session_payload_json session);
  _ ← lift (check (existsb (λ link, link_id link =s trim (spl_batch_id next)) links) MergeInputAlreadyUsed);
  _ ← lift (if is_rezka
            then (_ ← ok_or (rezka_active_partial_rolls_from_payload payload) MergeInputNotAccepted; Ok tt)
            else Ok tt);
  _ ← lift (check (lanes_conflict map current next) MergeInputNotAccepted);
  '(payload, rolls, frames) ←
    (if is_rezka
     then '(payload, rolls, frames) ← merge_rolls map apparatus session current next payload;
          Ok (payload, rolls, Some frames)
     else frames ← lift (laminatsiya_merge_contained_kadr_count (spl_contained_kadr_count current)
                           (spl_contained_kadr_count next));
          Ok (payload, [], frames));
  '(links, sequence) ← lift (splice_links current next now links);
  let rolls := splice_roll (spl_batch_id next) now <$> rolls in
  _ ← lift (check (is_rezka && negb (rezka_merge_state_is_consistent links rolls)) MergeInputNotAccepted);
  merge_writes is_rezka links rolls current next sequence frames payload.

(** The session after work of [actor]. *)
Definition working_session (status : RunStatus.t) (actor : QueueActionActor) (now : Z) (payload : value)
    (session : RunSession) : RunSession := {|
  run_session := {|
    session_id := session_id session;
    session_apparatus := session_apparatus session;
    session_order_id := session_order_id session;
    session_stage_node_id := session_stage_node_id session;
    session_status := status;
    session_worker_role := trim (actor_role actor);
    session_worker_ref := trim (actor_ref actor);
    session_worker_display_name := trim (actor_display_name actor);
    session_started_at_unix := session_started_at_unix session;
    session_updated_at_unix := now |};
  session_payload_json := payload |}.

(** * Mounting the next input after a released one (service_progress.rs) *)

Definition resumed_handoff_session_payload (current : RunSession) (input : SessionProgressLinks)
  : run_result value :=
  payload ← put_fields
    ([("resumed_batch_id", json_str (spl_batch_id input));
      ("resumed_qr_payload", json_str (spl_qr_payload input))] ++ input_fields input ++
     [("worker_handoff", json_bool false); ("roll_removed_from_apparatus", json_bool false)])
    (ensure_payload_object (session_payload_json current));
  preserve_qolip_lineage current payload.

(** The payload of a session that resumes with [input], which no input precedes on the
    machine. *)
Definition resumed_input_payload (current : RunSession) (input : SessionProgressLinks) (kind : InputKind.t)
    (now : Z) : run_result value :=
  payload ← resumed_handoff_session_payload current input;
  inputs ← lift (ok_or (order_run_input_links_from_payload payload) ProgressBatchNotResumable);
  _ ← lift (check (existsb (λ link, link_in_use link ||
              ((link_input_batch_id link =s spl_batch_id input) &&
               match kind with
               | InputKind.ProgressBatch => true
               | InputKind.OpeningWip => bool_decide (link_source_kind link = InputKind.OpeningWip)
               end)) inputs) ProgressBatchNotResumable);
  sequence ← lift (ok_or (next_sequence_no inputs) ProgressInputInvalid);
  payload ← write_order_run_input_links
    (inputs ++ [mounted_link input kind (session_stage_node_id current) sequence now]) payload;
  Ok (json_remove "lamination_astatka_raw_released"
        (json_remove "lamination_astatka_shift_closed"
           (json_remove "layer_remainder_detached_input_batch_id" payload))).

(** * The session after an action (service_progress.rs) *)

(** After a report of an output. *)
Definition reported_session_payload (session : RunSession) (action : Action.t) (qty : f64) (uom : string)
    (metrics : ProgressMetrics) (description : string) (now : Z) : run_result value :=
  let input := session_progress_links session in
  payload ← progress_session_payload action qty uom metrics description input;
  payload ← preserve_qolip_lineage session payload;
  apply_output_boundary_to_session_payload action (spl_batch_id input) now payload.

(** After a worker hands the machine over or takes the roll off. *)
Definition handed_session_payload (session : RunSession) (remove_roll : bool) (metrics : ProgressMetrics)
    (description : string) : run_result value :=
  payload ← (if remove_roll then removed_roll_session_payload else worker_handoff_session_payload)
    metrics description (session_progress_links session);
  preserve_qolip_lineage session payload.

(** After a freeze. *)
Definition frozen_session_payload (session : RunSession) (uom : string) (freeze_with_issue : bool)
    (description : string) : run_result value :=
  let description := trim description in
  session ← ensure_wip_started_at session;
  payload ← progress_session_payload Action.Freeze f64_zero (non_empty_or uom "kg") no_metrics description
    (session_progress_links session);
  payload ← preserve_qolip_lineage session payload;
  put_fields
    ([("frozen_order", json_bool true)] ++
     (if freeze_with_issue
      then [("freeze_with_issue", json_bool true); ("issue_note", json_str description)] else [])) payload.

(** After a resume with the input still mounted. *)
Definition resumed_mounted_payload (session : RunSession) : run_result value :=
  resumed_handoff_session_payload session (session_progress_links session).

(** After a resume by the label of an unfinished output. *)
Definition resumed_session_payload (current : RunSession) (output_batch : OrderProgressBatch)
    (resumed_without_progress_qr : bool) : run_result value :=
  payload ← put_fields
    [("resumed_batch_id", json_str (batch_id output_batch));
     ("resumed_qr_payload", json_str (batch_qr_payload output_batch));
     ("resumed_without_progress_qr", json_bool resumed_without_progress_qr)]
    (ensure_payload_object (session_payload_json current));
  preserve_qolip_lineage current payload.

(** After a resume without a scan. *)
Definition resumed_work_session_payload (session : RunSession) : run_result value :=
  payload ← resumed_mounted_payload session;
  payload ← put_fields [("wip_waiting_for_resume", json_bool true);
                        ("resumed_without_progress_qr", json_bool true)] payload;
  Ok (json_remove "lamination_astatka_raw_released" (json_remove "lamination_astatka_shift_closed" payload)).

(** * What the store checks (runs/persistence.rs) *)

(** A session is stored when its lineage decodes and fits together; a closed session has
    no unfinished rolls. *)
Definition validate_session_lineage (session : RunSession) : pm_result unit :=
  let payload := session_payload_json session in
  links ← ok_or (order_run_input_links_from_payload payload) StoreFailed;
  payload_rolls ← ok_or (rezka_active_partial_rolls_from_payload payload) StoreFailed;
  rolls ← (if OrderRunStatus.is_open (session_status session) then Ok payload_rolls
           else match payload_rolls with [] => Ok [] | _ => Err StoreFailed end);
  check (negb (rezka_merge_state_is_consistent links rolls)) StoreFailed.

(** * Returning a scanned input (scanned_wip.rs) *)

Definition scanned_input_links (session : RunSession) : pm_result (list OrderRunInputLink) :=
  let payload := session_payload_json session in
  links ← ok_or (order_run_input_links_from_payload payload) QueueActionNotAllowed;
  let field key := default "" (payload_str payload key) in
  if negb (match links with [] => true | _ => false end) || is_some (json_get INPUT_LINEAGE payload)
  then Ok links
  else if is_empty (field "input_progress_batch_id") then Ok links
  else
    kind ← ok_or (InputKind.parse (field "input_wip_source_kind")) QueueActionNotAllowed;
    Ok [mounted_link
          {| spl_layout_lanes := []; spl_batch_id := field "input_progress_batch_id";
             spl_qr_payload := field "input_progress_qr_payload";
             spl_apparatus := field "input_progress_apparatus"; spl_source_kind := "";
             spl_stage_node_id := ""; spl_contained_kadr_count := None |}
          kind (session_stage_node_id session) 1 (session_started_at_unix session)].

Definition link_le (a b : OrderRunInputLink) : Prop := (link_sequence_no a <= link_sequence_no b)%Z.
#[global] Instance link_le_dec : RelDecision link_le.
Proof. intros a b. unfold link_le. apply _. Defined.

(** [last_mut()] set back in use. *)
Fixpoint reopen_last (links : list OrderRunInputLink) : list OrderRunInputLink :=
  match links with
  | [] => []
  | [link] => [link <| link_status := InputStatus.InUse |> <| link_processed_at_unix := None |>]
  | link :: links => link :: reopen_last links
  end.

Definition detached_links (batch_id : string) (was_active : bool) (links : list OrderRunInputLink)
  : list OrderRunInputLink :=
  let links := merge_sort link_le (List.filter (λ link, link_input_batch_id link <>s batch_id) links) in
  if was_active then reopen_last links else links.

Definition detached_roll (batch_id : string) (active : option OrderRunInputLink)
    (roll : RezkaActivePartialRoll) : RezkaActivePartialRoll :=
  let ids := List.filter (λ id, id <>s batch_id) (roll_source_input_batch_ids roll) in
  let ids := match active with
             | Some link => if bool_decide (link_input_batch_id link ∈ ids) then ids
                            else ids ++ [link_input_batch_id link]
             | None => ids
             end in
  roll <| roll_source_input_batch_ids := ids |>.

(** The fields that name the input the machine goes back to. *)
Definition active_fields (active : option OrderRunInputLink) : list (string * value) :=
  match active with
  | Some link =>
      [("input_progress_batch_id", json_str (link_input_batch_id link));
       ("input_progress_qr_payload", json_str (link_input_qr_payload link));
       ("input_progress_apparatus", json_str (link_source_apparatus link));
       ("input_wip_source_kind", json_str (InputKind.as_str (link_source_kind link)))]
  | None => []
  end.

Definition detached_payload (batch_id : string) (links : list OrderRunInputLink) (payload : value)
  : run_result value :=
  payload ← write_order_run_input_links links payload;
  payload ← put_fields (active_fields (active_link links)) payload;
  rolls ← lift (ok_or (rezka_active_partial_rolls_from_payload payload) QueueActionNotAllowed);
  payload ←
    (match detached_roll batch_id (active_link links) <$> rolls with
     | [] => Ok payload
     | rolls => write_rezka_active_partial_rolls rolls payload
     end);
  put_field
    (json_remove "merge_to_input_batch_id"
       (json_remove "merge_from_input_batch_id" (json_remove "_resume_pause" payload)))
    ("last_action", json_str "wip_input_returned").

Definition detach_scanned_input (current : RunSession) (batch_id : string) (now : Z)
  : run_result (RunSession * list OrderRunInputLink) :=
  links ← lift (scanned_input_links current);
  selected ← lift (ok_or (List.find (λ link, link_input_batch_id link =s batch_id) links)
                     QueueActionNotAllowed);
  let links := detached_links batch_id (link_in_use selected) links in
  payload ← detached_payload batch_id links (session_payload_json current);
  let s := run_session current in
  Ok ({| run_session := {|
           session_id := session_id s; session_apparatus := session_apparatus s;
           session_order_id := session_order_id s; session_stage_node_id := session_stage_node_id s;
           session_status := session_status s; session_worker_role := session_worker_role s;
           session_worker_ref := session_worker_ref s;
           session_worker_display_name := session_worker_display_name s;
           session_started_at_unix := session_started_at_unix s; session_updated_at_unix := now |};
         session_payload_json := payload |}, links).
End lineage.

(** * Output identities of a cut (service_progress_support.rs) *)

(** One identity per output: consecutive lanes, frames from 1. *)
Fixpoint cut_identities (base_id : string) (qr : string → string) (kind : string) (count : nat)
    (index offset : nat) (counts : list nat) : list ProgressOutputIdentity :=
  match counts with
  | [] => []
  | n :: counts =>
      let id := base_id +:+ ":frame:" +:+ Z_to_string (Z.of_nat index + 1) in
      {| oid_lane_offset := Some offset; oid_batch_id := id; oid_qr_payload := qr id;
         oid_frame_index := Some (Z.of_nat index + 1)%Z; oid_frame_count := Some (Z.of_nat count);
         oid_contained_kadr_count := Some n; oid_rezka_output_kind := Some kind |}
        :: cut_identities base_id qr kind count (S index) (offset + n) counts
  end.

(** [base_id] is a fresh batch id, [qr] the label text of a batch id. *)
Definition rezka_output_identities_from_kadr_counts (map : ProductionMapDefinition)
    (base_id : string) (qr : string → string) (stage_node_id : string) (counts : list nat)
  : pm_result (list ProgressOutputIdentity) :=
  _ ← check (match counts with [] => true | _ => false end || existsb (Nat.eqb 0) counts)
        InvalidRezkaFrameGroups;
  Ok (cut_identities base_id qr
        (if is_final_work_stage_node map stage_node_id then "frame" else "grouped_roll")
        (length counts) 0 0 counts).
