(* ===== verification/LineageFacts.v ===== *)
(** Correctness of input lineage: whatever a worker does, the lineage of a session stays
    consistent, so the store accepts it, and an output lists what it was made of. *)
From S2P Require Import Prelude RustStr F64 Errors Identity QueueState OrderLayout MapDefinition Scheduler Json Progress ProgressFacts CutLayout Metrics Lineage.

Section facts.
Context `{J : Json} `{!JsonLaws J} `{!Serde (list OrderLane)} `{!Serde QueueActionActor}.
Context `{!Serde (list OrderRunInputLink)} `{!SerdeLaws (list OrderRunInputLink)}.
Context `{!Serde (list RezkaActivePartialRoll)} `{!SerdeLaws (list RezkaActivePartialRoll)}.
Context `{!Serde (list ProgressBatchInputLink)}.

(** * Assignments to payloads *)

(** The value the last assignment to [key] gives it. *)
Fixpoint assigned (key : string) (fields : list (string * value)) : option value :=
  match fields with
  | [] => None
  | (k, x) :: fields =>
      match assigned key fields with
      | Some y => Some y
      | None => if k =s key then Some x else None
      end
  end.

Lemma put_field_spec v k x : json_is_object v = true →
  ∃ v', put_field v (k, x) = Ok v' ∧ json_is_object v' = true ∧
    ∀ key, json_get key v' = if decide (key = k) then Some x else json_get key v.
Proof.
  intros Hv. destruct (json_set_object k x v Hv) as (v' & E & ? & ?). exists v'.
  unfold put_field. simpl. by rewrite E.
Qed.

Lemma put_fields_spec fields v : json_is_object v = true →
  ∃ v', put_fields fields v = Ok v' ∧ json_is_object v' = true ∧
    ∀ key, json_get key v' =
      match assigned key fields with Some x => Some x | None => json_get key v end.
Proof.
  revert v. induction fields as [|[k x] fields IH]; intros v Hv; simpl; [by exists v|].
  destruct (put_field_spec v k x Hv) as (v1 & H1 & Hv1 & Hg1).
  destruct (IH v1 Hv1) as (v2 & H2 & Hv2 & Hg2). exists v2. unfold put_fields in *. simpl. rewrite H1. simpl.
  split; [done|]. split; [done|]. intros key. rewrite Hg2.
  destruct (assigned key fields); [done|]. rewrite Hg1.
  destruct (k =s key) eqn:E; breflect; case_decide; congruence.
Qed.

Lemma put_fields_Ok fields v v' : json_is_object v = true → put_fields fields v = Ok v' →
  json_is_object v' = true ∧ ∀ key, json_get key v' =
    match assigned key fields with Some x => Some x | None => json_get key v end.
Proof. intros Hv H. destruct (put_fields_spec fields v Hv) as (w & E & Hw). rewrite H in E. by injection E as <-. Qed.

Lemma put_field_Ok v k x v' : json_is_object v = true → put_field v (k, x) = Ok v' →
  json_is_object v' = true ∧ ∀ key, json_get key v' = if decide (key = k) then Some x else json_get key v.
Proof. intros Hv H. destruct (put_field_spec v k x Hv) as (w & E & Hw). rewrite H in E. by injection E as <-. Qed.

Lemma json_object_get fields :
  json_is_object (json_object fields) = true ∧
  ∀ key, json_get key (json_object fields) = assigned key fields.
Proof.
  split; [apply json_object_is_object|]. intros key.
  assert (H : ∀ v, json_is_object v = true →
    json_get key (foldl (λ v kx, default v (json_set kx.1 kx.2 v)) v fields) =
    match assigned key fields with Some x => Some x | None => json_get key v end).
  { induction fields as [|[k x] fields IH]; intros v Hv; simpl; [done|].
    destruct (json_set_object k x v Hv) as (v' & E & Hv' & Hg). rewrite E. simpl. rewrite IH by done.
    destruct (assigned key fields); [done|]. rewrite Hg.
    destruct (k =s key) eqn:Ek; breflect; case_decide; congruence. }
  unfold json_object. rewrite H by apply json_empty_object.
  destruct (assigned key fields); [done|]. apply json_get_empty.
Qed.

(** What the lists kept in a payload decode to depends on their field only. *)
Lemma links_ext p p' : json_get INPUT_LINEAGE p = json_get INPUT_LINEAGE p' →
  order_run_input_links_from_payload p = order_run_input_links_from_payload p'.
Proof. unfold order_run_input_links_from_payload. by intros ->. Qed.

Lemma rolls_ext p p' : json_get ACTIVE_PARTIAL_ROLLS p = json_get ACTIVE_PARTIAL_ROLLS p' →
  rezka_active_partial_rolls_from_payload p = rezka_active_partial_rolls_from_payload p'.
Proof. unfold rezka_active_partial_rolls_from_payload. by intros ->. Qed.

Lemma string_field_ext p p' key : json_get key p = json_get key p' →
  json_string_field p key = json_string_field p' key.
Proof. unfold json_string_field, payload_str. by intros ->. Qed.

Lemma string_field_str p key s : json_get key p = Some (json_str s) → json_string_field p key = trim s.
Proof. unfold json_string_field, payload_str. intros ->. simpl. by rewrite json_as_str_str. Qed.

Lemma write_links_spec links p : links_are_valid links = true →
  ∃ p', write_order_run_input_links links p = Ok p' ∧ json_is_object p' = true ∧
    order_run_input_links_from_payload p' = Some links ∧
    ∀ key, key ≠ INPUT_LINEAGE → json_get key p' = json_get key p.
Proof.
  intros Hl. unfold write_order_run_input_links.
  destruct (put_field_spec (ensure_payload_object p) INPUT_LINEAGE (to_value links)) as (p' & H & Ho & Hg);
    [apply ensure_object|].
  exists p'. split; [done|]. split; [done|]. split.
  - unfold order_run_input_links_from_payload. rewrite Hg, decide_True by done. simpl.
    rewrite from_to_value. simpl. by rewrite Hl.
  - intros key Hk. by rewrite Hg, decide_False, ensure_get.
Qed.

Lemma write_rolls_spec rolls p : rolls_are_valid rolls = true →
  ∃ p', write_rezka_active_partial_rolls rolls p = Ok p' ∧ json_is_object p' = true ∧
    rezka_active_partial_rolls_from_payload p' = Some rolls ∧
    ∀ key, key ≠ ACTIVE_PARTIAL_ROLLS → json_get key p' = json_get key p.
Proof.
  intros Hl. unfold write_rezka_active_partial_rolls.
  destruct (put_field_spec (ensure_payload_object p) ACTIVE_PARTIAL_ROLLS (to_value rolls))
    as (p' & H & Ho & Hg); [apply ensure_object|].
  exists p'. split; [done|]. split; [done|]. split.
  - unfold rezka_active_partial_rolls_from_payload. rewrite Hg, decide_True by done. simpl.
    rewrite from_to_value. simpl. by rewrite Hl.
  - intros key Hk. by rewrite Hg, decide_False, ensure_get.
Qed.

Lemma decoded_links_valid p links :
  order_run_input_links_from_payload p = Some links → links_are_valid links = true.
Proof.
  unfold order_run_input_links_from_payload. destruct (json_get _ p) as [v|]; [|by intros [= <-]].
  destruct (from_value v) as [l|]; [|done]. simpl. destruct (links_are_valid l) eqn:E; congruence.
Qed.

Lemma decoded_rolls_valid p rolls :
  rezka_active_partial_rolls_from_payload p = Some rolls → rolls_are_valid rolls = true.
Proof.
  unfold rezka_active_partial_rolls_from_payload. destruct (json_get _ p) as [v|]; [|by intros [= <-]].
  destruct (from_value v) as [l|]; [|done]. simpl. destruct (rolls_are_valid l) eqn:E; congruence.
Qed.

(** * Validity as propositions *)

Record links_ok (links : list OrderRunInputLink) : Prop := {
  lo_valid link : link ∈ links → link_is_valid link = true;
  lo_ids : NoDup (link_id <$> links);
  lo_sequence : NoDup (link_sequence_no <$> links);
  lo_active : length (List.filter link_in_use links) <= 1;
}.

Lemma links_are_valid_spec links : links_are_valid links = true ↔ links_ok links.
Proof.
  unfold links_are_valid, all_distinct. rewrite !andb_true_iff, forallb_elem, !bool_decide_eq_true, Nat.leb_le.
  split; [intros [[[? ?] ?] ?]; by split|intros []; done].
Qed.

Record rolls_ok (rolls : list RezkaActivePartialRoll) : Prop := {
  ro_valid roll : roll ∈ rolls → roll_is_valid roll = true;
  ro_slots : NoDup (roll_slot_index <$> rolls);
}.

Lemma rolls_are_valid_spec rolls : rolls_are_valid rolls = true ↔ rolls_ok rolls.
Proof.
  unfold rolls_are_valid. rewrite andb_true_iff, forallb_elem, bool_decide_eq_true.
  split; [intros [? ?]; by split|intros []; done].
Qed.

Lemma roll_is_valid_spec roll : roll_is_valid roll = true ↔
  (0 < roll_slot_index roll)%Z ∧ (0 < roll_generation roll)%Z ∧ (0 < roll_contained_kadr_count roll)%Z ∧
  (∀ id, id ∈ roll_source_input_batch_ids roll → blank id = false) ∧
  NoDup (trim <$> roll_source_input_batch_ids roll).
Proof.
  unfold roll_is_valid, all_distinct.
  rewrite !andb_true_iff, !Z.ltb_lt, forallb_elem, bool_decide_eq_true.
  setoid_rewrite negb_true_iff. tauto.
Qed.

Definition consistent (links : list OrderRunInputLink) (rolls : list RezkaActivePartialRoll) : Prop :=
  ∀ roll, roll ∈ rolls →
    (∀ id, id ∈ roll_source_input_batch_ids roll → trim id ∈ link_id <$> links) ∧
    match active_link links with
    | Some active => ∃ id, id ∈ roll_source_input_batch_ids roll ∧ trim id = link_id active
    | None => roll_source_input_batch_ids roll = []
    end.

Lemma consistent_spec links rolls :
  rezka_merge_state_is_consistent links rolls = true ↔ consistent links rolls.
Proof.
  unfold rezka_merge_state_is_consistent, consistent. rewrite forallb_elem.
  apply forall_proper. intros roll. apply forall_proper. intros Hr.
  rewrite andb_true_iff, forallb_elem. f_equiv.
  - apply forall_proper. intros id. apply forall_proper. intros _. apply bool_decide_eq_true.
  - destruct (active_link links) as [active|].
    + rewrite existsb_elem. apply exist_proper. intros id. f_equiv. apply String.eqb_eq.
    + by destruct (roll_source_input_batch_ids roll).
Qed.

(** * Lists *)

Lemma unique_find {A} (f : A → bool) l x :
  length (List.filter f l) <= 1 → x ∈ l → f x = true → List.find f l = Some x.
Proof.
  induction l as [|y l IH]; intros Hl Hx Hf; [by apply elem_of_nil in Hx|]. simpl in *.
  destruct (f y) eqn:E.
  - apply elem_of_cons in Hx as [->|Hx]; [done|]. simpl in Hl.
    assert (x ∈ List.filter f l) as H by (by apply filterb_elem).
    destruct (List.filter f l); [by apply elem_of_nil in H|simpl in Hl; lia].
  - apply elem_of_cons in Hx as [->|Hx]; [congruence|]. by apply IH.
Qed.

Lemma change_first_fmap {A B} (f : A → bool) g (h : A → B) l :
  (∀ x, h (g x) = h x) → h <$> change_first f g l = h <$> l.
Proof.
  intros Hg. induction l as [|x l IH]; [done|]. simpl.
  destruct (f x); simpl; [by rewrite Hg|]. f_equal. exact IH.
Qed.

Lemma change_first_elem {A} (f : A → bool) g l x :
  x ∈ change_first f g l → x ∈ l ∨ ∃ y, y ∈ l ∧ x = g y.
Proof.
  induction l as [|y l IH]; simpl; [auto|]. destruct (f y); intros [->|Hx]%elem_of_cons.
  - right. exists y. split; [by left|done].
  - left. by right.
  - left. by left.
  - destruct (IH Hx) as [?|(z & ? & ?)]; [left; by right|]. right. exists z. split; [by right|done].
Qed.

(** Closing the mounted input leaves none in use. *)
Lemma close_mounted id now links :
  length (List.filter link_in_use links) <= 1 → existsb (is_mounted id) links = true →
  List.filter link_in_use (change_first (is_mounted id) (close_link now) links) = [].
Proof.
  induction links as [|l links IH]; simpl; [done|]. intros Hl.
  destruct (is_mounted id l) eqn:Em; simpl.
  - intros _. unfold is_mounted in Em. breflect. rewrite H0 in Hl. simpl in Hl.
    by destruct (List.filter link_in_use links); [|simpl in Hl; lia].
  - intros He. destruct (link_in_use l) eqn:El.
    + simpl in Hl. apply existsb_elem in He as (x & Hx & Hm). unfold is_mounted in Hm. breflect.
      assert (x ∈ List.filter link_in_use links) as H' by (by apply filterb_elem).
      destruct (List.filter link_in_use links); [by apply elem_of_nil in H'|simpl in Hl; lia].
    + by apply IH.
Qed.

Lemma foldr_max_ge z l : z ∈ l → (z <= foldr Z.max 0 l)%Z.
Proof.
  induction l as [|y l IH]; simpl; intros Hz; [by apply elem_of_nil in Hz|].
  apply elem_of_cons in Hz as [->|Hz]; [lia|]. specialize (IH Hz). lia.
Qed.

Lemma next_sequence_fresh links n :
  next_sequence_no links = Some n → (0 < n)%Z ∧ n ∉ link_sequence_no <$> links.
Proof.
  unfold next_sequence_no, u32_checked. destruct (_ && _); [|done]. intros [= <-].
  assert (0 <= foldr Z.max 0 (link_sequence_no <$> links))%Z
    by (induction (link_sequence_no <$> links); simpl; lia).
  split; [lia|]. intros ?%foldr_max_ge. lia.
Qed.

(** * A session whose lineage fits together *)

Definition tidy (id : string) : Prop := trim id = id.

Record mounted (is_rezka : bool) (payload : value) (links : list OrderRunInputLink)
    (rolls : list RezkaActivePartialRoll) : Prop := {
  mt_object : json_is_object payload = true;
  mt_links : order_run_input_links_from_payload payload = Some links;
  mt_rolls : rezka_active_partial_rolls_from_payload payload = Some rolls;
  mt_consistent : consistent links rolls;
  mt_current : json_string_field payload "input_progress_batch_id" =
    match active_link links with Some link => link_id link | None => "" end;
  mt_tidy_links link : link ∈ links → tidy (link_input_batch_id link);
  mt_tidy_rolls roll id : roll ∈ rolls → id ∈ roll_source_input_batch_ids roll → tidy id;
  mt_rezka : is_rezka = false → rolls = [];
}.

(** A roll a worker scans: an id without outer blanks, and a known kind. *)
Record scannable (input : SessionProgressLinks) : Prop := {
  sc_id : blank (spl_batch_id input) = false;
  sc_tidy : tidy (spl_batch_id input);
  sc_kind : is_Some (InputKind.parse (spl_source_kind input));
}.

Lemma mounted_link_valid input kind stage n now :
  blank (spl_batch_id input) = false → (0 < n)%Z → link_is_valid (mounted_link input kind stage n now) = true.
Proof. intros Hb Hn. unfold link_is_valid. simpl. rewrite Hb. simpl. by rewrite (proj2 (Z.ltb_lt 0 n)). Qed.

Lemma trim_blank s : blank s = false → trim s ≠ "".
Proof. unfold blank. by destruct (trim s). Qed.

(** * Splicing in the next input *)

Lemma active_in_use links link : active_link links = Some link → link ∈ links ∧ link_in_use link = true.
Proof. apply find_elem. Qed.

Lemma splice_links_ok current next now links links' n :
  links_ok links → (∀ link, link ∈ links → tidy (link_input_batch_id link)) → scannable next →
  trim (spl_batch_id next) ∉ link_id <$> links →
  splice_links current next now links = Ok (links', n) →
  links_ok links' ∧ (∀ link, link ∈ links' → tidy (link_input_batch_id link)) ∧
  (∃ new, active_link links' = Some new ∧ link_input_batch_id new = spl_batch_id next) ∧
  link_id <$> links' = (link_id <$> links) ++ [trim (spl_batch_id next)].
Proof.
  intros [Hv Hid Hseq Hact] Htidy Hnext Hfresh. unfold splice_links. intros H. inv_ok.
  apply negb_false_iff in H.
  set (links1 := change_first (is_mounted (spl_batch_id current)) (close_link now) links) in *.
  destruct (InputKind.parse (spl_source_kind next)) as [kind|]; [|done]. injection H0 as <-.
  destruct (next_sequence_no links1) as [m|] eqn:Hm; [|done]. injection H1 as <-.
  apply next_sequence_fresh in Hm as [Hpos Hnew].
  pose proof (close_mounted _ now links Hact H) as Hnone. fold links1 in Hnone.
  assert (Hids : link_id <$> links1 = link_id <$> links) by by apply change_first_fmap.
  assert (Hseqs : link_sequence_no <$> links1 = link_sequence_no <$> links) by by apply change_first_fmap.
  assert (Helem : ∀ l, l ∈ links1 → l ∈ links ∨ ∃ y, y ∈ links ∧ l = close_link now y)
    by (intros l; apply change_first_elem).
  split; [split|].
  - intros l. rewrite elem_of_app, list_elem_of_singleton. intros [Hl| ->].
    + destruct (Helem l Hl) as [|(y & Hy & ->)]; [by apply Hv|].
      specialize (Hv y Hy). unfold link_is_valid in *. simpl. apply andb_true_iff in Hv as [Hv _].
      by rewrite Hv.
    + apply mounted_link_valid; [apply Hnext|done].
  - rewrite fmap_app, NoDup_app, Hids. split_and!; [done| |apply NoDup_singleton].
    intros x Hx Hx'. apply list_elem_of_singleton in Hx' as ->. done.
  - rewrite fmap_app, NoDup_app. split_and!; [by rewrite Hseqs| |apply NoDup_singleton].
    intros x Hx Hx'. apply list_elem_of_singleton in Hx' as ->. done.
  - rewrite List.filter_app, Hnone. simpl. lia.
  - split_and!.
    + intros l. rewrite elem_of_app, list_elem_of_singleton. intros [Hl| ->]; [|apply Hnext].
      destruct (Helem l Hl) as [|(y & Hy & ->)]; [by apply Htidy|]. by apply (Htidy y Hy).
    + exists (mounted_link next kind (spl_stage_node_id current) m now). split; [|done].
      apply unique_find; [|set_solver|done].
      rewrite List.filter_app, Hnone. simpl. lia.
    + by rewrite fmap_app, Hids.
Qed.

Lemma splice_roll_ok next_id now rolls :
  rolls_ok rolls → blank next_id = false → rolls_ok (splice_roll next_id now <$> rolls).
Proof.
  intros [Hv Hs] Hb. split.
  - intros roll' (roll & -> & Hr)%list_elem_of_fmap. specialize (Hv roll Hr).
    apply roll_is_valid_spec in Hv as (? & ? & ? & Hids & Hnd). apply roll_is_valid_spec.
    unfold splice_roll. destruct (existsb _ _) eqn:E; simpl; [by split_and!|].
    split_and!; try done.
    + intros id. rewrite elem_of_app, list_elem_of_singleton. intros [?| ->]; auto.
    + rewrite fmap_app, NoDup_app. split_and!; [done| |apply NoDup_singleton].
      intros x (id & -> & Hid)%list_elem_of_fmap Hx%list_elem_of_singleton.
      rewrite existsb_false in E. specialize (E id Hid). breflect. done.
  - rewrite <-list_fmap_compose. erewrite list_fmap_ext; [exact Hs|].
    intros i roll _. unfold compose, splice_roll. by destruct (existsb _ _).
Qed.

Lemma splice_roll_tidy next_id now (rolls : list RezkaActivePartialRoll) :
  tidy next_id →
  (∀ roll id, roll ∈ rolls → id ∈ roll_source_input_batch_ids roll → tidy id) →
  ∀ roll id, roll ∈ splice_roll next_id now <$> rolls → id ∈ roll_source_input_batch_ids roll → tidy id.
Proof.
  intros Hn Ht roll' id (roll & -> & Hr)%list_elem_of_fmap. unfold splice_roll.
  destruct (existsb _ _); simpl; [by apply Ht|].
  rewrite elem_of_app, list_elem_of_singleton. intros [?| ->]; eauto.
Qed.

(** * Frames of a first merge *)

Lemma new_rolls_sources sources now i counts rolls :
  new_rolls sources now i counts = Ok rolls →
  ∀ roll, roll ∈ rolls → roll_source_input_batch_ids roll = sources.
Proof.
  revert i rolls. induction counts as [|c counts IH]; intros i rolls; simpl.
  - intros [= <-] roll H. by apply elem_of_nil in H.
  - intros H. inv_ok. unfold new_roll in H. inv_ok.
    intros roll [->|Hr]%elem_of_cons; [done|]. by eapply IH.
Qed.

Lemma in_use_is_active links active :
  links_ok links → active_link links = Some active → List.filter link_in_use links = [active].
Proof.
  intros [_ _ _ Hl] Ha. apply active_in_use in Ha as Hin.
  assert (active ∈ List.filter link_in_use links) as H by by apply filterb_elem.
  destruct (List.filter link_in_use links) as [|x [|y l]]; [by apply elem_of_nil in H| |simpl in Hl; lia].
  apply list_elem_of_singleton in H as ->. done.
Qed.

Lemma initialize_spec counts now p p' links rolls :
  json_is_object p = true → order_run_input_links_from_payload p = Some links →
  initialize_rezka_active_partial_rolls counts now p = Ok p' →
  rezka_active_partial_rolls_from_payload p' = Some rolls →
  json_is_object p' = true ∧ (∀ key, key ≠ ACTIVE_PARTIAL_ROLLS → json_get key p' = json_get key p) ∧
  ∀ roll, roll ∈ rolls →
    roll_source_input_batch_ids roll = link_input_batch_id <$> List.filter link_in_use links.
Proof.
  intros Hp Hl H Hr. unfold initialize_rezka_active_partial_rolls in H. rewrite Hl in H. simpl in H.
  destruct (new_rolls _ now 0 counts) as [rolls0|] eqn:Hn; [|done]. simpl in H.
  unfold write_rezka_active_partial_rolls, ensure_payload_object in H. rewrite Hp in H.
  apply put_field_Ok in H as [Hp' Hg]; [|done]. split; [done|]. split.
  - intros key Hk. by rewrite Hg, decide_False.
  - unfold rezka_active_partial_rolls_from_payload in Hr.
    rewrite Hg, decide_True in Hr by done. simpl in Hr. rewrite from_to_value in Hr. simpl in Hr.
    destruct (rolls_are_valid rolls0); [|done]. injection Hr as <-. by eapply new_rolls_sources.
Qed.

(** * Every step keeps the lineage together *)

Lemma current_id payload s : session_payload_json s = payload →
  spl_batch_id (session_progress_links s) = json_string_field payload "input_progress_batch_id".
Proof. by intros <-. Qed.

Lemma merge_rolls_spec map apparatus s current next p links rolls active p' rolls' frames :
  mounted true p links rolls → active_link links = Some active →
  merge_rolls map apparatus s current next p = Ok (p', rolls', frames) →
  json_is_object p' = true ∧ (∀ key, key ≠ ACTIVE_PARTIAL_ROLLS → json_get key p' = json_get key p) ∧
  rolls_ok rolls' ∧ (∀ roll id, roll ∈ rolls' → id ∈ roll_source_input_batch_ids roll → tidy id).
Proof.
  intros [Hobj Hl Hr _ _ Htl Htr _] Hact. unfold merge_rolls. rewrite Hr. simpl. intros H.
  assert (Hlinks : links_ok links) by by eapply links_are_valid_spec, decoded_links_valid.
  apply bind_Ok in H as ([p1 rolls1] & H1 & H). inv_ok. apply lift_Ok in H. apply lift_Ok in H0.
  clear H H0. destruct rolls as [|roll0 rolls0].
  - apply bind_Ok in H1 as (counts & _ & H1). apply bind_Ok in H1 as (started & _ & H1).
    apply bind_Ok in H1 as (p2 & Hinit & H1). apply bind_Ok in H1 as (rolls2 & Hdec & H1).
    injection H1 as <- <-. apply lift_Ok in Hdec.
    destruct (rezka_active_partial_rolls_from_payload p2) as [rolls3|] eqn:Hdec'; [|done].
    injection Hdec as ->.
    destruct (initialize_spec _ _ _ _ links rolls2 Hobj Hl Hinit Hdec') as (Ho & Hframe & Hsrc).
    split_and!; [done|done|by eapply rolls_are_valid_spec, decoded_rolls_valid|].
    intros roll id Hroll. rewrite (Hsrc roll Hroll), (in_use_is_active links active) by done.
    simpl. rewrite list_elem_of_singleton. intros ->. apply Htl. by apply active_in_use.
  - injection H1 as <- <-. split_and!; try done. by eapply rolls_are_valid_spec, decoded_rolls_valid.
Qed.

(** The input fields of a session name the mounted input. *)
Lemma input_field_assigned input rest :
  assigned "input_progress_batch_id" rest = None →
  assigned "input_progress_batch_id" (input_fields input ++ rest) = Some (json_str (spl_batch_id input)).
Proof. intros H. simpl. by rewrite H. Qed.

Lemma put_fields_keeps key fields v v' :
  json_is_object v = true → put_fields fields v = Ok v' → assigned key fields = None →
  json_get key v' = json_get key v.
Proof. intros Hv H Ha. apply put_fields_Ok in H as [_ Hg]; [|done]. by rewrite Hg, Ha. Qed.

Lemma merge_writes_spec is_rezka links rolls current next sequence frames p p' :
  json_is_object p = true → links_ok links → rolls_ok rolls →
  merge_writes is_rezka links rolls current next sequence frames p = Ok p' →
  json_is_object p' = true ∧ order_run_input_links_from_payload p' = Some links ∧
  (if is_rezka then rezka_active_partial_rolls_from_payload p' = Some rolls
   else rezka_active_partial_rolls_from_payload p' = rezka_active_partial_rolls_from_payload p) ∧
  json_string_field p' "input_progress_batch_id" = trim (spl_batch_id next).
Proof.
  intros Hp Hl%links_are_valid_spec Hr%rolls_are_valid_spec H. unfold merge_writes in H.
  destruct (write_links_spec links p Hl) as (p1 & E1 & Hp1 & Hd1 & Hg1). rewrite E1 in H. simpl in H.
  assert (∃ p2, (if is_rezka then write_rezka_active_partial_rolls rolls p1 else Ok p1) = Ok p2 ∧
    json_is_object p2 = true ∧ json_get INPUT_LINEAGE p2 = json_get INPUT_LINEAGE p1 ∧
    (if is_rezka then rezka_active_partial_rolls_from_payload p2 = Some rolls
     else rezka_active_partial_rolls_from_payload p2 = rezka_active_partial_rolls_from_payload p))
    as (p2 & E2 & Hp2 & Hg2 & Hd2).
  { destruct is_rezka.
    - destruct (write_rolls_spec rolls p1 Hr) as (p2 & ? & ? & ? & Hg). exists p2. split_and!; try done.
      by apply Hg.
    - exists p1. split_and!; try done. apply rolls_ext. by apply Hg1. }
  rewrite E2 in H. simpl in H. apply bind_Ok in H as (p3 & E3 & H).
  assert (Hg3 := E3). apply put_fields_Ok in Hg3 as [Hp3 Hg3]; [|done].
  apply bind_Ok in H as (p4 & E4 & H).
  assert (json_is_object p4 = true ∧
    ∀ key, key ≠ "contained_kadr_count" → json_get key p4 = json_get key p3) as [Hp4 Hg4].
  { destruct frames as [n|].
    - apply put_field_Ok in E4 as [? Hg]; [|done]. split; [done|]. intros. by rewrite Hg, decide_False.
    - injection E4 as <-. split; [by rewrite json_remove_is_object|]. intros. by rewrite json_get_remove, decide_False. }
  apply put_fields_Ok in H as [Hp' Hg']; [|done].
  assert (Hback : ∀ key, key = INPUT_LINEAGE ∨ key = ACTIVE_PARTIAL_ROLLS → json_get key p' = json_get key p2).
  { intros key [->| ->]; rewrite Hg'; simpl; rewrite Hg4, Hg3 by done; done. }
  split_and!; [done| | |].
  - rewrite (links_ext p' p1); [done|]. rewrite Hback by auto. done.
  - rewrite (rolls_ext p' p2); [done|]. by apply Hback; auto.
  - apply string_field_str. rewrite Hg'. simpl. rewrite Hg4 by done. rewrite Hg3. done.
Qed.

Lemma merge_keeps is_rezka map apparatus s next now links rolls p' :
  mounted is_rezka (session_payload_json s) links rolls → scannable next →
  merged_payload map apparatus is_rezka s next now = Ok p' →
  ∃ links' rolls', mounted is_rezka p' links' rolls'.
Proof.
  intros Hm Hnext H. pose proof Hm as [Hobj Hl Hr Hcons Hcur Htl Htr Hrz].
  assert (Hlinks : links_ok links) by by eapply links_are_valid_spec, decoded_links_valid.
  unfold merged_payload in H. apply bind_Ok in H as ([] & Hb & H). apply lift_Ok, check_Ok in Hb.
  rewrite (current_id (session_payload_json s)) in Hb by done. rewrite Hcur in Hb.
  destruct (active_link links) as [active|] eqn:Hact; [|done].
  assert (links ≠ []) as Hne.
  { apply active_in_use in Hact as [Hin _]. by destruct links; [apply elem_of_nil in Hin|]. }
  apply bind_Ok in H as ([p0 links0] & Hlc & H). unfold links_with_current in Hlc. rewrite Hl in Hlc.
  simpl in Hlc. destruct links as [|l0 ls] eqn:Els; [done|]. rewrite <-Els in *.
  injection Hlc as <- <-. apply bind_Ok in H as ([] & Hfresh & H). apply lift_Ok, check_Ok in Hfresh.
  apply bind_Ok in H as (u1 & _ & H). apply bind_Ok in H as (u2 & _ & H).
  apply bind_Ok in H as ([[p1 rolls1] frames] & Hfr & H).
  assert (json_is_object p1 = true ∧ rolls_ok rolls1 ∧
    (∀ roll id, roll ∈ rolls1 → id ∈ roll_source_input_batch_ids roll → tidy id) ∧
    (is_rezka = false → rolls1 = [] ∧ p1 = session_payload_json s)) as (Hp1 & Hr1 & Htr1 & Hrz1).
  { destruct is_rezka.
    - apply bind_Ok in Hfr as ([[p2 rolls2] fr] & Hmr & Hfr). injection Hfr as <- <- <-.
      destruct (merge_rolls_spec _ _ _ _ _ _ _ _ _ _ _ _ Hm Hact Hmr) as (? & ? & ? & ?). by split_and!.
    - apply bind_Ok in Hfr as (fr & _ & Hfr). injection Hfr as <- <- <-. split_and!; try done.
      + split; [|constructor]. by intros ? ?%elem_of_nil.
      + by intros ? ? ?%elem_of_nil. }
  apply bind_Ok in H as ([links' n] & Hs & H). apply lift_Ok in Hs.
  apply splice_links_ok in Hs as (Hl' & Htl' & (new & Hnew & Hnewid) & Hids); [|done..|].
  2:{ intros (l & E & Hin)%list_elem_of_fmap. rewrite existsb_false in Hfresh.
      specialize (Hfresh l Hin). breflect. congruence. }
  apply bind_Ok in H as ([] & Hc & H). apply lift_Ok, check_Ok in Hc.
  set (rolls' := splice_roll (spl_batch_id next) now <$> rolls1) in *.
  assert (rolls_ok rolls') as Hr' by (apply splice_roll_ok; [done|apply Hnext]).
  apply merge_writes_spec in H as (Hobj' & Hd' & Hdr' & Hcur'); [|done..].
  exists links', rolls'. split; try done.
  - destruct is_rezka; [done|]. destruct (Hrz1 eq_refl) as [E1 ->]. rewrite Hdr', Hr.
    by rewrite (Hrz eq_refl); subst rolls'; rewrite E1.
  - destruct is_rezka; [apply consistent_spec; by apply negb_false_iff in Hc|].
    destruct (Hrz1 eq_refl) as [E1 _]. subst rolls'. rewrite E1. by intros ? ?%elem_of_nil.
  - rewrite Hcur', Hnew. unfold link_id. by rewrite Hnewid.
  - apply splice_roll_tidy; [apply Hnext|done].
  - intros E. destruct (Hrz1 E) as [E1 _]. subst rolls'. by rewrite E1.
Qed.

(** The fields that decide whether a session is mounted. *)
Definition lineage_keys : list string := [INPUT_LINEAGE; ACTIVE_PARTIAL_ROLLS; "input_progress_batch_id"].

Definition same_lineage (p p' : value) : Prop := ∀ key, key ∈ lineage_keys → json_get key p' = json_get key p.

Lemma mounted_ext is_rezka p p' links rolls :
  json_is_object p' = true → same_lineage p p' → mounted is_rezka p links rolls → mounted is_rezka p' links rolls.
Proof.
  intros Hobj Hs [_ Hl Hr ? Hcur ? ? ?].
  split; try done.
  - rewrite (links_ext p' p); [done|]. apply Hs. set_solver.
  - rewrite (rolls_ext p' p); [done|]. apply Hs. set_solver.
  - rewrite (string_field_ext p' p); [done|]. apply Hs. set_solver.
Qed.

Lemma put_fields_same fields p p' :
  json_is_object p = true → put_fields fields p = Ok p' →
  (∀ key, key ∈ lineage_keys → assigned key fields = None) →
  json_is_object p' = true ∧ same_lineage p p'.
Proof.
  intros Hp H Ha. apply put_fields_Ok in H as [? Hg]; [|done]. split; [done|].
  intros key Hk. by rewrite Hg, Ha.
Qed.

Lemma same_lineage_trans p1 p2 p3 : same_lineage p1 p2 → same_lineage p2 p3 → same_lineage p1 p3.
Proof. intros H1 H2 key Hk. by rewrite H2, H1. Qed.

Lemma write_lineage_same lin p p' :
  json_is_object p = true → write_lineage lin p = Ok p' → json_is_object p' = true ∧ same_lineage p p'.
Proof.
  intros Hp. destruct lin as [l|]; simpl; [|intros [= <-]; by split].
  unfold write_to_payload, ensure_payload_object. rewrite Hp. intros H.
  apply put_fields_same in H; [done|done|]. unfold lineage_keys.
  intros key [->|[->|[->|[]%elem_of_nil]%elem_of_cons]%elem_of_cons]%elem_of_cons;
    by destruct (is_empty (qolip_set_id l)), (qolip_set_snapshot l).
Qed.

Lemma assigned_app key f1 f2 :
  assigned key (f1 ++ f2) = match assigned key f2 with Some x => Some x | None => assigned key f1 end.
Proof.
  induction f1 as [|[k x] f1 IH]; simpl; [by destruct (assigned key f2)|]. rewrite IH.
  by destruct (assigned key f2).
Qed.

Lemma assigned_kept key keys cur :
  assigned key (omap (λ k, pair k <$> json_get k cur) keys) =
  if decide (key ∈ keys) then json_get key cur else None.
Proof.
  induction keys as [|k keys IH]; [done|].
  change (omap _ (k :: keys)) with (match pair k <$> json_get k cur with
    | Some f => f :: omap (λ k, pair k <$> json_get k cur) keys
    | None => omap (λ k, pair k <$> json_get k cur) keys end).
  destruct (json_get k cur) as [x|] eqn:E; cbn [fmap option_fmap option_map assigned]; rewrite IH; clear IH.
  - destruct (decide (key ∈ keys)) as [Hin|Hin].
    + rewrite decide_True by set_solver. destruct (json_get key cur) eqn:Ek; [done|].
      destruct (k =s key) eqn:?; breflect; congruence.
    + destruct (k =s key) eqn:Ek; breflect.
      * rewrite decide_True by set_solver. by subst.
      * rewrite decide_False by set_solver. done.
  - destruct (decide (key ∈ keys)) as [Hin|Hin]; [by rewrite decide_True by set_solver|].
    destruct (decide (key = k)) as [->|Hne]; [by rewrite decide_True by set_solver|].
    by rewrite decide_False by set_solver.
Qed.

Lemma preserve_spec s repl p' :
  json_is_object repl = true → preserve_qolip_lineage s repl = Ok p' →
  json_is_object p' = true ∧
  (∀ key, key = INPUT_LINEAGE ∨ key = ACTIVE_PARTIAL_ROLLS →
     json_get key p' = match json_get key (session_payload_json s) with
                       | Some x => Some x | None => json_get key repl end) ∧
  json_get "input_progress_batch_id" p' = json_get "input_progress_batch_id" repl.
Proof.
  intros Hrepl. unfold preserve_qolip_lineage. intros H. apply bind_Ok in H as (r1 & H1 & H).
  apply write_lineage_same in H1 as [Hr1 Hsame]; [|done].
  unfold ensure_payload_object in H. rewrite Hr1 in H.
  set (owner := match json_get "qolip_lock_owner" r1 with
                | Some _ => []
                | None => match json_get "qolip_lock_owner" (session_payload_json s) with
                          | Some owner => [("qolip_lock_owner", owner)] | None => [] end end) in H.
  assert (Ho : ∀ key, key ∈ lineage_keys → assigned key owner = None).
  { intros key Hk. subst owner.
    destruct (json_get "qolip_lock_owner" r1), (json_get "qolip_lock_owner" (session_payload_json s)); try done.
    unfold lineage_keys in Hk.
    by apply elem_of_cons in Hk as [->|[->|[->|[]%elem_of_nil]%elem_of_cons]%elem_of_cons]. }
  clearbody owner. apply put_fields_Ok in H as [Hp' Hg]; [|done]. split; [done|].
  assert (Hkept : ∀ key, key ∈ lineage_keys → json_get key p' =
            if decide (key ∈ KEPT_FIELDS) then
              match json_get key (session_payload_json s) with Some x => Some x | None => json_get key r1 end
            else json_get key r1).
  { intros key Hk. rewrite Hg, assigned_app, Ho by done. unfold kept_fields. rewrite assigned_kept.
    destruct (decide _); [|done]. by destruct (json_get key (session_payload_json s)). }
  split.
  - intros key Hk. assert (key ∈ lineage_keys) by (unfold lineage_keys; set_solver).
    rewrite Hkept, decide_True, (Hsame key) by (try done; unfold KEPT_FIELDS; set_solver). done.
  - rewrite Hkept, decide_False by (unfold lineage_keys, KEPT_FIELDS; set_solver).
    apply Hsame. unfold lineage_keys. set_solver.
Qed.

Lemma layout_fields_same input key : key ∈ lineage_keys → assigned key (layout_fields input) = None.
Proof.
  unfold lineage_keys, layout_fields.
  intros [->|[->|[->|[]%elem_of_nil]%elem_of_cons]%elem_of_cons]%elem_of_cons;
    by destruct (spl_layout_lanes input), (spl_contained_kadr_count input).
Qed.

Lemma start_mounted is_rezka actor input batch stage now p :
  blank (spl_batch_id input) = true ∨ scannable input →
  start_session_payload actor input batch stage now = Ok p →
  ∃ links, mounted is_rezka p links [].
Proof.
  intros Hin. unfold start_session_payload.
  match goal with |- context [json_object ?fields] =>
    destruct (json_object_get fields) as [Hp0 Hg0]; set (p0 := json_object fields) in * end. intros H.
  apply bind_Ok in H as (p1 & E1 & H). apply put_fields_same in E1 as [Hp1 Hs1]; [|done|apply layout_fields_same].
  apply bind_Ok in H as (p2 & E2 & H). apply write_lineage_same in E2 as [Hp2 Hs2]; [|done].
  pose proof (same_lineage_trans _ _ _ Hs1 Hs2) as Hs.
  assert (Hl : order_run_input_links_from_payload p2 = Some []).
  { unfold order_run_input_links_from_payload. by rewrite (Hs INPUT_LINEAGE), Hg0 by (unfold lineage_keys; set_solver). }
  assert (Hr : rezka_active_partial_rolls_from_payload p2 = Some []).
  { unfold rezka_active_partial_rolls_from_payload.
    by rewrite (Hs ACTIVE_PARTIAL_ROLLS), Hg0 by (unfold lineage_keys; set_solver). }
  assert (Hc : json_string_field p2 "input_progress_batch_id" = trim (spl_batch_id input)).
  { apply string_field_str. by rewrite (Hs "input_progress_batch_id"), Hg0 by (unfold lineage_keys; set_solver). }
  assert (Hempty : blank (spl_batch_id input) = true → mounted is_rezka p2 [] []).
  { intros Hb. split; try done; try (by intros ? ?%elem_of_nil); [|by intros ? ? ?%elem_of_nil].
    rewrite Hc. unfold blank in Hb. by destruct (trim (spl_batch_id input)). }
  destruct (InputKind.parse (spl_source_kind input)) as [kind|] eqn:Ek.
  - destruct (blank (spl_batch_id input)) eqn:Hb; [injection H as <-; eauto|].
    destruct Hin as [|[_ Htidy _]]; [done|].
    set (link := mounted_link (trimmed_input input) kind (trim stage) 1 now) in *.
    assert (Hok : links_are_valid [link] = true).
    { apply links_are_valid_spec. split; simpl; [|apply NoDup_singleton|apply NoDup_singleton|lia].
      intros l ->%list_elem_of_singleton. apply mounted_link_valid; [|lia]. simpl.
      unfold blank. rewrite trim_idemp. exact Hb. }
    destruct (write_links_spec [link] p2 Hok) as (p' & E & Hobj & Hd & Hg). rewrite H in E. injection E as <-.
    exists [link]. split; try done.
    + rewrite (rolls_ext p p2); [done|]. by apply Hg.
    + by intros ? ?%elem_of_nil.
    + rewrite (string_field_ext p p2) by by apply Hg. rewrite Hc. simpl. unfold link_id. simpl. by rewrite trim_idemp.
    + intros l ->%list_elem_of_singleton. simpl. apply trim_idemp.
    + by intros ? ? ?%elem_of_nil.
  - injection H as <-. destruct Hin as [Hb|[_ _ [k Hk]]]; [eauto|congruence].
Qed.

(** * Reports *)

(** A payload that replaces a session's names its input and carries no other lineage. *)
Record replaces (current : value) (input_id : string) (repl : value) : Prop := {
  rp_object : json_is_object repl = true;
  rp_lists key : key = INPUT_LINEAGE ∨ key = ACTIVE_PARTIAL_ROLLS →
    json_get key repl = None ∨ json_get key repl = json_get key current;
  rp_input : json_get "input_progress_batch_id" repl = Some (json_str input_id);
}.

Lemma replaces_same current id p p' :
  json_is_object p' = true → same_lineage p p' → replaces current id p → replaces current id p'.
Proof.
  intros Ho Hs [_ Hl Hi]. unfold same_lineage, lineage_keys in Hs. split; [done| |by rewrite Hs by set_solver].
  intros key Hk. rewrite Hs by set_solver. auto.
Qed.

Lemma progress_payload_replaces current action qty uom metrics desc input p :
  progress_session_payload action qty uom metrics desc input = Ok p → replaces current (spl_batch_id input) p.
Proof.
  unfold progress_session_payload.
  match goal with |- context [json_object ?fields] =>
    destruct (json_object_get fields) as [Hp0 Hg0]; set (p0 := json_object fields) in * end.
  intros H. apply bind_Ok in H as (p1 & E1 & H).
  apply put_fields_same in E1 as [Hp1 Hs1]; [|done|].
  2:{ unfold lineage_keys. by intros key [->|[->|[->|[]%elem_of_nil]%elem_of_cons]%elem_of_cons]%elem_of_cons. }
  apply put_fields_same in H as [Hp2 Hs2]; [|done|apply layout_fields_same].
  pose proof (same_lineage_trans _ _ _ Hs1 Hs2) as Hs.
  apply (replaces_same _ _ p0); [done|done|]. split; [done| |by rewrite Hg0].
  intros key [->| ->]; left; by rewrite Hg0.
Qed.

Lemma stopped_payload_replaces current handed metrics desc input p :
  stopped_session_payload handed metrics desc input = Ok p → replaces current (spl_batch_id input) p.
Proof.
  intros H. apply bind_Ok in H as (p1 & E1 & H). apply (progress_payload_replaces current) in E1.
  apply put_fields_same in H as [Ho Hs]; [by apply (replaces_same _ _ p1)|apply E1|].
  unfold lineage_keys. by intros key [->|[->|[->|[]%elem_of_nil]%elem_of_cons]%elem_of_cons]%elem_of_cons.
Qed.

Lemma mounted_current is_rezka s links rolls : mounted is_rezka (session_payload_json s) links rolls →
  spl_batch_id (session_progress_links s) =
    match active_link links with Some link => link_id link | None => "" end.
Proof. intros Hm. apply (mt_current _ _ _ _ Hm). Qed.

Lemma active_id_trimmed links :
  let id := match active_link links with Some link => link_id link | None => "" end in trim id = id.
Proof. simpl. destruct (active_link links); [apply trim_idemp|done]. Qed.

(** What a replaced payload says of the lineage. *)
Lemma preserve_lists s id repl p :
  replaces (session_payload_json s) id repl → preserve_qolip_lineage s repl = Ok p →
  json_is_object p = true ∧
  order_run_input_links_from_payload p = order_run_input_links_from_payload (session_payload_json s) ∧
  rezka_active_partial_rolls_from_payload p = rezka_active_partial_rolls_from_payload (session_payload_json s) ∧
  json_string_field p "input_progress_batch_id" = trim id.
Proof.
  intros [Ho Hl Hi] H. apply preserve_spec in H as (Hp & Hkept & Hid); [|done].
  assert (Hsame : ∀ key, key = INPUT_LINEAGE ∨ key = ACTIVE_PARTIAL_ROLLS →
            json_get key p = json_get key (session_payload_json s)).
  { intros key Hk. rewrite Hkept by done.
    destruct (Hl key Hk) as [->| ->]; by destruct (json_get key (session_payload_json s)). }
  split_and!; [done|apply links_ext|apply rolls_ext|by apply string_field_str; rewrite Hid]; auto.
Qed.

Lemma preserve_mounted is_rezka s repl p links rolls :
  mounted is_rezka (session_payload_json s) links rolls →
  replaces (session_payload_json s) (spl_batch_id (session_progress_links s)) repl →
  preserve_qolip_lineage s repl = Ok p → mounted is_rezka p links rolls.
Proof.
  intros Hm Hr H. destruct (preserve_lists _ _ _ _ Hr H) as (Ho & El & Er & Ei).
  rewrite (mounted_current _ _ _ _ Hm), active_id_trimmed in Ei.
  destruct Hm. split; congruence || done.
Qed.

(** The next roll of every frame starts with the mounted input. *)
Lemma next_generation_spec id now roll roll' : next_generation id now roll = Ok roll' →
  roll_is_valid roll = true →
  roll_is_valid roll' = true ∧ roll_slot_index roll' = roll_slot_index roll ∧
  roll_source_input_batch_ids roll' = if blank id then [] else [trim id].
Proof.
  intros H Hv. unfold next_generation in H. destruct (u32_checked _) as [g|] eqn:Eg; [|done].
  injection H as <-. split_and!; [|done|done].
  unfold u32_checked in Eg. destruct (_ && _); [|done]. injection Eg as <-.
  apply roll_is_valid_spec in Hv as (? & ? & ? & ? & ?). apply roll_is_valid_spec. simpl.
  split_and!; try done; [lia| |].
  - destruct (blank id) eqn:Hb; [by intros ? ?%elem_of_nil|].
    intros x ->%list_elem_of_singleton. unfold blank. by rewrite trim_idemp.
  - destruct (blank id); [constructor|apply NoDup_singleton].
Qed.

Lemma next_rolls_ok id now rolls rolls' :
  rolls_ok rolls → map_result (next_generation id now) rolls = Ok rolls' →
  rolls_ok rolls' ∧ ∀ roll, roll ∈ rolls' →
    roll_source_input_batch_ids roll = if blank id then [] else [trim id].
Proof.
  intros [Hv Hs] H%map_result_Forall2.
  assert (Hsl : roll_slot_index <$> rolls' = roll_slot_index <$> rolls).
  { clear Hs. induction H as [|r r' rolls rolls' Hr _ IH]; [done|]. simpl. f_equal.
    - eapply next_generation_spec; [done|]. apply Hv. by left.
    - apply IH. intros. apply Hv. by right. }
  assert (Hall : ∀ roll', roll' ∈ rolls' → roll_is_valid roll' = true ∧
            roll_source_input_batch_ids roll' = if blank id then [] else [trim id]).
  { intros r' (i & Hi)%list_elem_of_lookup. destruct (Forall2_lookup_r _ _ _ _ _ H Hi) as (r & Hr & Hg).
    apply next_generation_spec in Hg as (? & _ & ?); [done|]. apply Hv. by eapply list_elem_of_lookup_2. }
  split; [split|].
  - intros r Hr. by apply Hall.
  - by rewrite Hsl.
  - intros r Hr. by apply Hall.
Qed.

Lemma boundary_fields_same action now key : key ∈ lineage_keys →
  assigned key (match action with
     | Action.Pause | Action.DetachRoll => [("wip_waiting_for_resume", json_bool true)]
     | Action.RollComplete =>
         [("wip_started_at_unix", json_Z now); ("wip_waiting_for_resume", json_bool false)]
     | _ => []
     end) = None.
Proof.
  unfold lineage_keys.
  intros [->|[->|[->|[]%elem_of_nil]%elem_of_cons]%elem_of_cons]%elem_of_cons; by destruct action.
Qed.

(** A boundary keeps the lineage; a completed roll starts the next rolls with the input
    mounted. *)
Lemma boundary_mounted is_rezka action s now p p' links rolls :
  action ≠ Action.Complete →
  mounted is_rezka (session_payload_json s) links rolls → mounted is_rezka p links rolls →
  apply_output_boundary_to_session_payload action (spl_batch_id (session_progress_links s)) now p = Ok p' →
  ∃ rolls', mounted is_rezka p' links rolls'.
Proof.
  intros Hact Hs Hm H. pose proof (mounted_current _ _ _ _ Hs) as Hcur. rewrite Hcur in H. clear Hs Hcur.
  unfold apply_output_boundary_to_session_payload in H. apply bind_Ok in H as (p1 & E1 & H).
  apply put_fields_same in E1 as [Hp1 Hs1]; [|apply Hm|apply boundary_fields_same].
  apply (mounted_ext _ _ p1) in Hm; [|done|done].
  destruct action; try (injection H as <-; by exists rolls); [|done].
  destruct Hm as [? Hl Hr Hc Hid Htl Htr Hrz].
  rewrite Hr in H. apply bind_Ok in H as (rolls1 & E & H). injection E as <-.
  apply bind_Ok in H as (rolls' & E & H). apply lift_Ok in E.
  assert (Hnext := E). apply next_rolls_ok in Hnext as [Hok Hsrc]; [|by eapply rolls_are_valid_spec, decoded_rolls_valid].
  destruct (write_rolls_spec rolls' p1) as (p2 & E2 & Ho2 & Hd2 & Hg2); [by apply rolls_are_valid_spec|].
  rewrite H in E2. injection E2 as <-. exists rolls'. split; try done.
  - by rewrite (links_ext p' p1) by by apply Hg2.
  - intros roll Hroll. rewrite (Hsrc roll Hroll).
    destruct (active_link links) as [active|] eqn:Ea; [|split; [by intros ? ?%elem_of_nil|done]].
    assert (Hactive := Ea). apply active_in_use in Hactive as [Hin _].
    assert (blank (link_id active) = false) as ->.
    { unfold blank, link_id. rewrite trim_idemp.
      assert (links_ok links) as [Hv _ _ _] by by eapply links_are_valid_spec, decoded_links_valid.
      specialize (Hv active Hin). unfold link_is_valid in Hv. rewrite !andb_true_iff, negb_true_iff in Hv.
      apply Hv. }
    split.
    + intros id ->%list_elem_of_singleton. unfold link_id. rewrite !trim_idemp.
      by apply (list_elem_of_fmap_2 link_id).
    + exists (trim (link_id active)). split; [by left|]. unfold link_id. by rewrite !trim_idemp.
  - rewrite (string_field_ext p' p1) by by apply Hg2. done.
  - intros roll id Hroll. rewrite (Hsrc roll Hroll). destruct (blank _); [by intros ?%elem_of_nil|].
    intros ->%list_elem_of_singleton. apply trim_idemp.
  - intros Er. rewrite (Hrz Er) in E. by injection E as <-.
Qed.

(** * Actions *)

Ltac other_fields := unfold lineage_keys;
  by intros ? [->|[->|[->|[]%elem_of_nil]%elem_of_cons]%elem_of_cons]%elem_of_cons.

Lemma mounted_put is_rezka fields p p' links rolls :
  mounted is_rezka p links rolls → put_fields fields p = Ok p' →
  (∀ key, key ∈ lineage_keys → assigned key fields = None) → mounted is_rezka p' links rolls.
Proof. intros Hm H Ha. apply put_fields_same in H as [? ?]; [|apply Hm|done]. by eapply mounted_ext. Qed.

Lemma mounted_remove is_rezka key p links rolls :
  mounted is_rezka p links rolls → key ∉ lineage_keys → mounted is_rezka (json_remove key p) links rolls.
Proof.
  intros Hm Hk. apply (mounted_ext _ p); [rewrite json_remove_is_object; apply Hm| |done].
  intros key' Hk'. rewrite json_get_remove, decide_False; [done|]. congruence.
Qed.

Lemma report_keeps is_rezka s action qty uom metrics desc now p links rolls :
  mounted is_rezka (session_payload_json s) links rolls → action ≠ Action.Complete →
  reported_session_payload s action qty uom metrics desc now = Ok p →
  ∃ rolls', mounted is_rezka p links rolls'.
Proof.
  intros Hm Ha H. apply bind_Ok in H as (p1 & E1 & H). apply bind_Ok in H as (p2 & E2 & H).
  eapply boundary_mounted in H; [done..|]. eapply preserve_mounted; [done| |done].
  by eapply progress_payload_replaces.
Qed.

Lemma handed_keeps is_rezka s remove metrics desc p links rolls :
  mounted is_rezka (session_payload_json s) links rolls →
  handed_session_payload s remove metrics desc = Ok p → mounted is_rezka p links rolls.
Proof.
  intros Hm H. apply bind_Ok in H as (p1 & E1 & H). eapply preserve_mounted; [done| |done].
  by destruct remove; eapply stopped_payload_replaces.
Qed.

Lemma ensure_started_keeps is_rezka s s' links rolls :
  mounted is_rezka (session_payload_json s) links rolls → ensure_wip_started_at s = Ok s' →
  mounted is_rezka (session_payload_json s') links rolls.
Proof.
  intros Hm. unfold ensure_wip_started_at. destruct (is_some _); [by intros [= <-]|].
  match goal with |- context [json_Z ?started] => set (now := started) end.
  destruct (put_field _ _) as [p|] eqn:E; [|done]. intros [= <-]. simpl.
  eapply (mounted_put _ [("wip_started_at_unix", json_Z now)]); [done| |other_fields].
  unfold put_fields. simpl. by rewrite E.
Qed.

Lemma frozen_keeps is_rezka s uom issue desc p links rolls :
  mounted is_rezka (session_payload_json s) links rolls →
  frozen_session_payload s uom issue desc = Ok p → mounted is_rezka p links rolls.
Proof.
  intros Hm H. apply bind_Ok in H as (s1 & E1 & H). eapply ensure_started_keeps in E1; [|done].
  apply bind_Ok in H as (p1 & E2 & H). apply bind_Ok in H as (p2 & E3 & H).
  eapply mounted_put; [|exact H|destruct issue; other_fields].
  eapply preserve_mounted; [done| |done]. by eapply progress_payload_replaces.
Qed.

(** A resume names the input, whichever it is, and keeps the lists. *)
Lemma resumed_replaces s input p : json_is_object (session_payload_json s) = true →
  put_fields
    ([("resumed_batch_id", json_str (spl_batch_id input));
      ("resumed_qr_payload", json_str (spl_qr_payload input))] ++ input_fields input ++
     [("worker_handoff", json_bool false); ("roll_removed_from_apparatus", json_bool false)])
    (ensure_payload_object (session_payload_json s)) = Ok p →
  replaces (session_payload_json s) (spl_batch_id input) p.
Proof.
  intros Ho H. unfold ensure_payload_object in H. rewrite Ho in H.
  apply put_fields_Ok in H as [Hp Hg]; [|done]. split; [done| |by rewrite Hg].
  intros key [->| ->]; right; by rewrite Hg.
Qed.

Lemma resumed_keeps is_rezka s p links rolls :
  mounted is_rezka (session_payload_json s) links rolls →
  resumed_mounted_payload s = Ok p → mounted is_rezka p links rolls.
Proof.
  intros Hm H. apply bind_Ok in H as (p1 & E1 & H). eapply preserve_mounted; [done| |done].
  apply resumed_replaces; [apply Hm|done].
Qed.

Lemma resumed_output_keeps is_rezka s batch without_qr p links rolls :
  mounted is_rezka (session_payload_json s) links rolls →
  resumed_session_payload s batch without_qr = Ok p → mounted is_rezka p links rolls.
Proof.
  intros Hm H. apply bind_Ok in H as (p1 & E1 & H). unfold ensure_payload_object in E1.
  rewrite (mt_object _ _ _ _ Hm) in E1. apply put_fields_same in E1 as [Ho Hs]; [|apply Hm|other_fields].
  apply preserve_spec in H as (Hp & Hkept & Hid); [|done].
  apply (mounted_ext _ (session_payload_json s)); [done| |done]. intros key Hk.
  assert (json_get key p1 = json_get key (session_payload_json s)) as Hsame by by apply Hs.
  destruct (decide (key = "input_progress_batch_id")) as [->|Hne]; [by rewrite Hid|].
  rewrite Hkept; [|unfold lineage_keys in Hk; set_solver]. rewrite Hsame.
  by destruct (json_get key (session_payload_json s)).
Qed.

Lemma resumed_work_keeps is_rezka s p links rolls :
  mounted is_rezka (session_payload_json s) links rolls →
  resumed_work_session_payload s = Ok p → mounted is_rezka p links rolls.
Proof.
  intros Hm H. apply bind_Ok in H as (p1 & E1 & H). apply bind_Ok in H as (p2 & E2 & H). injection H as <-.
  do 2 (apply mounted_remove; [|unfold lineage_keys; set_solver]).
  eapply mounted_put; [|exact E2|other_fields]. by eapply resumed_keeps.
Qed.

(** ** Mounting a scanned input *)

Lemma filter_none {A} (f : A → bool) l : (∀ x, x ∈ l → f x = false) → List.filter f l = [].
Proof.
  induction l as [|x l IH]; intros H; [done|]. simpl. rewrite H by by left. apply IH. intros. apply H. by right.
Qed.

Lemma append_link_ok links input kind stage n now :
  links_ok links → List.filter link_in_use links = [] → blank (spl_batch_id input) = false →
  next_sequence_no links = Some n → trim (spl_batch_id input) ∉ link_id <$> links →
  let new := mounted_link input kind stage n now in
  links_ok (links ++ [new]) ∧ active_link (links ++ [new]) = Some new.
Proof.
  intros [Hv Hid Hseq _] Hnone Hb Hn Hfresh new. apply next_sequence_fresh in Hn as [Hpos Hnew].
  assert (Hone : length (List.filter link_in_use (links ++ [new])) <= 1).
  { rewrite List.filter_app, Hnone. simpl. lia. }
  split; [split; [| | |done]|apply unique_find; [done|set_solver|done]].
  - intros l. rewrite elem_of_app, list_elem_of_singleton. intros [?| ->]; [auto|]. by apply mounted_link_valid.
  - rewrite fmap_app, NoDup_app. split_and!; [done| |apply NoDup_singleton].
    intros x Hx ->%list_elem_of_singleton. done.
  - rewrite fmap_app, NoDup_app. split_and!; [done| |apply NoDup_singleton].
    intros x Hx ->%list_elem_of_singleton. done.
Qed.

Lemma resumed_input_keeps s input kind now p links rolls :
  mounted false (session_payload_json s) links rolls → scannable input →
  (∀ link, link ∈ links → link_source_kind link ≠ kind → link_input_batch_id link ≠ spl_batch_id input) →
  resumed_input_payload s input kind now = Ok p →
  ∃ links', mounted false p links' [].
Proof.
  intros Hm [Hb Htidy _] Hkinds H. pose proof Hm as [Ho Hl Hr _ _ Htl _ Hrz].
  apply bind_Ok in H as (p1 & E1 & H). apply bind_Ok in E1 as (p0 & E0 & E1).
  apply resumed_replaces in E0; [|done]. destruct (preserve_lists _ _ _ _ E0 E1) as (Hp1 & El & Er & Ei).
  rewrite El, Hl in H. apply bind_Ok in H as (inputs & E & H). injection E as <-.
  apply bind_Ok in H as ([] & E & H). apply lift_Ok, check_Ok in E. rewrite existsb_false in E.
  apply bind_Ok in H as (n & E2 & H). apply lift_Ok in E2.
  destruct (next_sequence_no links) as [m|] eqn:Hn; [|done]. injection E2 as ->.
  apply bind_Ok in H as (p2 & E2 & H). injection H as <-.
  assert (links_ok links) as Hok by by eapply links_are_valid_spec, decoded_links_valid.
  destruct (append_link_ok links input kind (session_stage_node_id s) n now) as [Hok' Hact]; try done.
  { apply filter_none. intros l Hin. specialize (E l Hin). by apply orb_false_iff in E as [? _]. }
  { intros (l & E3 & Hin)%list_elem_of_fmap. unfold link_id in E3. rewrite Htidy, (Htl l Hin) in E3.
    specialize (E l Hin). apply orb_false_iff in E as [_ E].
    destruct (decide (link_source_kind l = kind)) as [Ek|Ek]; [|by apply (Hkinds l Hin Ek)].
    rewrite (proj2 (String.eqb_eq _ _) (eq_sym E3)) in E. simpl in E. destruct kind; [done|].
    by rewrite bool_decide_eq_false in E. }
  destruct (write_links_spec (links ++ [mounted_link input kind (session_stage_node_id s) n now]) p1)
    as (p3 & E3 & Ho3 & Hd3 & Hg3); [by apply links_are_valid_spec|].
  rewrite E2 in E3. injection E3 as <-.
  exists (links ++ [mounted_link input kind (session_stage_node_id s) n now]).
  do 3 (apply mounted_remove; [|unfold lineage_keys; set_solver]). split; try done.
  - rewrite (rolls_ext p2 p1) by by apply Hg3. rewrite Er, Hr. by rewrite (Hrz eq_refl).
  - by intros ? ?%elem_of_nil.
  - rewrite Hact, (string_field_ext p2 p1) by by apply Hg3. by rewrite Ei.
  - intros l. rewrite elem_of_app, list_elem_of_singleton. intros [?| ->]; [auto|done].
  - by intros ? ? ?%elem_of_nil.
Qed.

(** ** Returning a scanned input *)

Lemma reopen_last_fmap {B} (h : OrderRunInputLink → B) links :
  (∀ l, h (l <| link_status := InputStatus.InUse |> <| link_processed_at_unix := None |>) = h l) →
  h <$> reopen_last links = h <$> links.
Proof.
  intros Hh. induction links as [|l links IH]; [done|]. destruct links as [|l' links]; [|simpl in *; by f_equal].
  simpl. f_equal. apply Hh.
Qed.

Lemma reopen_last_spec links : List.filter link_in_use links = [] → links ≠ [] →
  (∀ l, l ∈ links → link_is_valid l = true) →
  length (List.filter link_in_use (reopen_last links)) = 1 ∧
  ∀ l, l ∈ reopen_last links → link_is_valid l = true.
Proof.
  induction links as [|l links IH]; [done|]. intros Hnone _ Hv. destruct links as [|l' links].
  - simpl. split; [done|]. intros x ->%list_elem_of_singleton. specialize (Hv l ltac:(by left)).
    unfold link_is_valid in *. simpl. rewrite !andb_true_iff in Hv. by destruct Hv as [[-> ->] _].
  - change (reopen_last (l :: l' :: links)) with (l :: reopen_last (l' :: links)).
    change (List.filter link_in_use (l :: ?x)) with
      (if link_in_use l then l :: List.filter link_in_use x else List.filter link_in_use x) in *.
    destruct (link_in_use l); [done|]. destruct IH as [IHn IHv]; [done|done|intros; apply Hv; by right|].
    split; [done|]. intros x [->|Hx]%elem_of_cons; [apply Hv; by left|by apply IHv].
Qed.

Lemma filterb_perm_nil {A} (f : A → bool) l k : l ≡ₚ k → List.filter f l = [] → List.filter f k = [].
Proof.
  intros Hp Hn. apply filter_none. intros x Hx. destruct (f x) eqn:E; [|done].
  assert (x ∈ List.filter f l) as H by (apply filterb_elem; by rewrite Hp). rewrite Hn in H.
  by apply elem_of_nil in H.
Qed.

Lemma sublist_filterb {A} (f : A → bool) l k :
  l `sublist_of` k → List.filter f l `sublist_of` List.filter f k.
Proof. induction 1; simpl; [done|destruct (f x)..]; try done; by constructor. Qed.

Lemma filterb_length_perm {A} (f : A → bool) l k : l ≡ₚ k → length (List.filter f l) = length (List.filter f k).
Proof. intros H. by rewrite (filterb_perm f l k H). Qed.

Lemma fmap_NoDup_eq {A B} (h : A → B) l x y : NoDup (h <$> l) → x ∈ l → y ∈ l → h x = h y → x = y.
Proof.
  induction l as [|z l IH]; [by intros ? ?%elem_of_nil|]. rewrite fmap_cons, NoDup_cons, !elem_of_cons.
  intros [Hz Hl] [->|Hx] [->|Hy] E; [done| | |by apply IH]; exfalso; apply Hz.
  - rewrite E. by apply (list_elem_of_fmap_2 h).
  - rewrite <-E. by apply (list_elem_of_fmap_2 h).
Qed.

(** The links left after a return: every link of another roll. *)
Lemma detached_links_spec links batch selected :
  links_ok links → (∀ l, l ∈ links → tidy (link_input_batch_id l)) →
  List.find (λ l, link_input_batch_id l =s batch) links = Some selected →
  let left := detached_links batch (link_in_use selected) links in
  left ≠ [] →
  links_ok left ∧
  (∀ id, id ∈ link_input_batch_id <$> left ↔ id ≠ batch ∧ id ∈ link_input_batch_id <$> links) ∧
  (is_Some (active_link links) → is_Some (active_link left)).
Proof.
  intros [Hv Hid Hseq Hact] Ht Hsel left. unfold detached_links in left.
  set (kept := List.filter (λ l, link_input_batch_id l <>s batch) links) in *.
  assert (Hperm : merge_sort link_le kept ≡ₚ kept) by apply merge_sort_Permutation.
  assert (Hsub : kept `sublist_of` links) by apply filterb_sublist.
  assert (Hkin : ∀ l, l ∈ merge_sort link_le kept ↔ link_input_batch_id l ≠ batch ∧ l ∈ links).
  { intros l. rewrite Hperm. unfold kept. rewrite filterb_elem, negb_true_iff, String.eqb_neq. tauto. }
  assert (Hids : ∀ (h : OrderRunInputLink → string), NoDup (h <$> links) → NoDup (h <$> merge_sort link_le kept)).
  { intros h Hn. rewrite Hperm. eapply sublist_NoDup; [exact Hn|]. by apply fmap_sublist. }
  assert (Hseqs : NoDup (link_sequence_no <$> merge_sort link_le kept)).
  { rewrite Hperm. eapply sublist_NoDup; [exact Hseq|]. by apply fmap_sublist. }
  assert (Hin : ∀ id, id ∈ link_input_batch_id <$> merge_sort link_le kept ↔
             id ≠ batch ∧ id ∈ link_input_batch_id <$> links).
  { intros id. rewrite !list_elem_of_fmap. setoid_rewrite Hkin. naive_solver. }
  assert (Hcount : length (List.filter link_in_use (merge_sort link_le kept)) <= 1).
  { rewrite (filterb_length_perm _ _ _ Hperm). etrans; [|exact Hact]. by apply sublist_length, sublist_filterb. }
  apply find_elem in Hsel as [Hselin Hselid]. apply String.eqb_eq in Hselid. subst left.
  destruct (link_in_use selected) eqn:Huse.
  - intros Hne. assert (Hne' : merge_sort link_le kept ≠ []) by (by intros E; rewrite E in Hne).
    assert (Hnone : List.filter link_in_use (merge_sort link_le kept) = []).
    { apply filter_none. intros l [Hl Hlin]%Hkin. destruct (link_in_use l) eqn:El; [|done]. exfalso.
      pose proof (unique_find _ _ _ Hact Hlin El) as E1. pose proof (unique_find _ _ _ Hact Hselin Huse) as E2.
      rewrite E1 in E2. injection E2 as ->. done. }
    destruct (reopen_last_spec _ Hnone Hne') as [Hone Hvalid]; [intros l [_ ?]%Hkin; auto|].
    split_and!.
    + split; [done| | |lia]; rewrite reopen_last_fmap by done; auto.
    + intros id. rewrite reopen_last_fmap by done. apply Hin.
    + intros _. unfold active_link. destruct (List.filter link_in_use (reopen_last _)) as [|a rest] eqn:Ef; [done|].
      assert (a ∈ a :: rest) as Ha by by left. rewrite <-Ef in Ha. apply filterb_elem in Ha as [Ha1 Ha2].
      rewrite (unique_find _ _ a); [done|rewrite Ef; lia|done|done].
  - intros Hne. split_and!; [split; auto|done|].
    + intros l [_ ?]%Hkin. auto.
    + intros [a Ha]. apply active_in_use in Ha as [Ha1 Ha2]. unfold active_link.
      rewrite (unique_find _ _ a); [done|done| |done]. apply Hkin. split; [|done].
      intros E. assert (link_id a = link_id selected) as E' by (unfold link_id; congruence).
      assert (a = selected) as -> by by eapply (fmap_NoDup_eq link_id). congruence.
Qed.

Lemma detached_roll_ok batch left links roll :
  rolls_ok [roll] → consistent links [roll] →
  (∀ id, id ∈ roll_source_input_batch_ids roll → tidy id) →
  (∀ l, l ∈ links → tidy (link_input_batch_id l)) →
  (∀ l, l ∈ left → tidy (link_input_batch_id l) ∧ blank (link_input_batch_id l) = false) →
  (∀ id, id ∈ link_input_batch_id <$> left ↔ id ≠ batch ∧ id ∈ link_input_batch_id <$> links) →
  (is_Some (active_link links) → is_Some (active_link left)) →
  let roll' := detached_roll batch (active_link left) roll in
  roll_is_valid roll' = true ∧ consistent left [roll'] ∧
  (∀ id, id ∈ roll_source_input_batch_ids roll' → tidy id).
Proof.
  intros [Hv _] Hc Ht Htl Hleft Hids Hact roll'. specialize (Hv roll ltac:(by left)).
  apply roll_is_valid_spec in Hv as (? & ? & ? & Hb & Hnd). specialize (Hc roll ltac:(by left)) as [Hc1 Hc2].
  set (kept := List.filter (λ id, id <>s batch) (roll_source_input_batch_ids roll)) in *.
  assert (Hkin : ∀ id, id ∈ kept ↔ id ≠ batch ∧ id ∈ roll_source_input_batch_ids roll).
  { intros id. unfold kept. rewrite filterb_elem, negb_true_iff, String.eqb_neq. tauto. }
  assert (Hkids : ∀ id, id ∈ kept → id ∈ link_input_batch_id <$> left).
  { intros id [Hne Hin]%Hkin. apply Hids. split; [done|].
    pose proof (Hc1 id Hin) as (l & E & Hl)%list_elem_of_fmap. unfold link_id in E.
    rewrite (Ht id Hin), (Htl l Hl) in E. rewrite E. by apply (list_elem_of_fmap_2 link_input_batch_id). }
  assert (Hknd : NoDup (trim <$> kept)).
  { eapply sublist_NoDup; [exact Hnd|]. apply fmap_sublist, filterb_sublist. }
  assert (Hin' : ∀ id, id ∈ roll_source_input_batch_ids roll' ↔
            id ∈ kept ∨ ∃ a, active_link left = Some a ∧ id = link_input_batch_id a).
  { intros id. subst roll'. unfold detached_roll. simpl. fold kept. destruct (active_link left) as [a|].
    - case_bool_decide; [naive_solver|]. rewrite elem_of_app, list_elem_of_singleton. naive_solver.
    - naive_solver. }
  assert (Hgood : ∀ id, id ∈ roll_source_input_batch_ids roll' →
            id ∈ link_input_batch_id <$> left ∧ tidy id ∧ blank id = false).
  { intros id [Hk|(a & Ha & ->)]%Hin'.
    - split; [by apply Hkids|]. apply Hkin in Hk as [_ Hk]. auto.
    - apply active_in_use in Ha as [Ha _]. split; [by apply (list_elem_of_fmap_2 link_input_batch_id)|].
      by apply Hleft. }
  assert (Hnd' : NoDup (trim <$> roll_source_input_batch_ids roll')).
  { subst roll'. unfold detached_roll. simpl. fold kept. destruct (active_link left) as [a|] eqn:Ha; [|done].
    case_bool_decide as Hk; [done|]. rewrite fmap_app, NoDup_app.
    split_and!; [done| |apply NoDup_singleton].
    intros x (id & -> & Hid)%list_elem_of_fmap E%list_elem_of_singleton. apply active_in_use in Ha as [Ha _].
    apply Hkin in Hid as Hid'. rewrite (Ht id) in E by apply Hid'.
    destruct (Hleft a Ha) as [Et _]. rewrite Et in E. by subst. }
  split_and!; [| |by intros id Hid; apply Hgood].
  - apply roll_is_valid_spec. split_and!; try done. intros id Hid. by apply Hgood.
  - intros r ->%list_elem_of_singleton. split.
    + intros id Hid. destruct (Hgood id Hid) as ((l & -> & Hl)%list_elem_of_fmap & _).
      by apply (list_elem_of_fmap_2 link_id).
    + destruct (active_link left) as [a|] eqn:Ha.
      * exists (link_input_batch_id a). split; [|done]. apply Hin'. right. by exists a.
      * destruct (active_link links) as [a|]; [by destruct Hact as [? ?]; [done|]|].
        subst roll'. unfold detached_roll. simpl. by rewrite Hc2.
Qed.

Lemma scanned_links_spec is_rezka s links rolls scanned batch selected :
  mounted is_rezka (session_payload_json s) links rolls → scanned_input_links s = Ok scanned →
  List.find (λ l, link_input_batch_id l =s batch) scanned = Some selected →
  detached_links batch (link_in_use selected) scanned ≠ [] → scanned = links.
Proof.
  intros Hm. unfold scanned_input_links. rewrite (mt_links _ _ _ _ Hm). simpl.
  destruct (negb _ || _); [by intros [= <-]|].
  destruct (is_empty _); [by intros [= <-]|].
  intros (kind & _ & [= <-])%bind_Ok Hf Hne. exfalso. apply Hne. clear Hne. unfold detached_links.
  simpl in Hf. simpl. destruct (_ =s batch); [|done]. by injection Hf as <-.
Qed.

(** What a return writes. *)
Lemma detached_payload_spec is_rezka batch left payload p links rolls :
  mounted is_rezka payload links rolls → links_ok left →
  (is_Some (active_link links) → is_Some (active_link left)) →
  let rolls' := detached_roll batch (active_link left) <$> rolls in
  rolls_ok rolls' → consistent left rolls' →
  (∀ l, l ∈ left → tidy (link_input_batch_id l)) →
  (∀ roll id, roll ∈ rolls' → id ∈ roll_source_input_batch_ids roll → tidy id) →
  detached_payload batch left payload = Ok p → mounted is_rezka p left rolls'.
Proof.
  intros [Ho Hl Hr _ Hi _ _ Hrz] Hok' Hact rolls' Hrok' Hc' Htl' Htr' H.
  apply bind_Ok in H as (p1 & E1 & H).
  destruct (write_links_spec left payload) as (p1' & E1' & Ho1 & Hd1 & Hg1);
    [by apply links_are_valid_spec|]. rewrite E1 in E1'. injection E1' as <-.
  apply bind_Ok in H as (p2 & E2 & H). apply put_fields_Ok in E2 as [Ho2 Hg2]; [|done].
  assert (rezka_active_partial_rolls_from_payload p2 = Some rolls) as Hr2.
  { rewrite (rolls_ext p2 payload); [done|]. rewrite Hg2.
    replace (assigned ACTIVE_PARTIAL_ROLLS _) with (@None value) by by destruct (active_link left).
    by apply Hg1. }
  rewrite Hr2 in H. apply bind_Ok in H as (rolls0 & E & H). injection E as <-.
  fold rolls' in H. apply bind_Ok in H as (p3 & E3 & H).
  assert (json_is_object p3 = true ∧ rezka_active_partial_rolls_from_payload p3 = Some rolls' ∧
          ∀ key, key ≠ ACTIVE_PARTIAL_ROLLS → json_get key p3 = json_get key p2) as (Ho3 & Hd3 & Hg3).
  { destruct (write_rolls_spec rolls' p2) as (p3' & E3' & ?); [by apply rolls_are_valid_spec|].
    destruct rolls' as [|r rs] eqn:Er.
    - injection E3 as <-. split; [done|]. split; [|done]. subst rolls'. by apply fmap_nil_inv in Er as ->.
    - rewrite E3 in E3'. by injection E3' as <-. }
  apply (mounted_put is_rezka [("last_action", json_str "wip_input_returned")]
           (json_remove "merge_to_input_batch_id"
             (json_remove "merge_from_input_batch_id" (json_remove "_resume_pause" p3))) p left);
    [|unfold put_fields; simpl; by rewrite H|other_fields].
  do 3 (apply mounted_remove; [|unfold lineage_keys; set_solver]). split; try done.
  - rewrite (links_ext p3 p1); [done|]. rewrite Hg3, Hg2 by done. by destruct (active_link left).
  - rewrite (string_field_ext p3 p2) by by apply Hg3. destruct (active_link left) as [a|] eqn:Ha.
    + apply string_field_str. by rewrite Hg2.
    + rewrite (string_field_ext p2 payload); [|rewrite Hg2; by apply Hg1].
      rewrite Hi. destruct (active_link links); [by destruct Hact|done].
  - intros E. subst rolls'. by rewrite (Hrz E).
Qed.

(** An input is taken off the machine while others stay. *)
Lemma detach_keeps is_rezka s batch now s' links' links rolls :
  mounted is_rezka (session_payload_json s) links rolls → links' ≠ [] →
  detach_scanned_input s batch now = Ok (s', links') →
  ∃ rolls', mounted is_rezka (session_payload_json s') links' rolls'.
Proof.
  intros Hm Hne H. unfold detach_scanned_input in H.
  apply bind_Ok in H as (scanned & Hs & H). apply lift_Ok in Hs.
  apply bind_Ok in H as (selected & Hf & H). apply lift_Ok in Hf.
  destruct (List.find _ scanned) as [l|] eqn:Hf'; [|done]. injection Hf as ->.
  apply bind_Ok in H as (p & Hp & H). injection H as <- <-. cbn [session_payload_json].
  assert (scanned = links) as -> by by eapply scanned_links_spec.
  pose proof Hm as [Ho Hl Hr Hc Hi Htl Htr Hrz].
  assert (links_ok links) as Hok by by eapply links_are_valid_spec, decoded_links_valid.
  assert (rolls_ok rolls) as Hrok by by eapply rolls_are_valid_spec, decoded_rolls_valid.
  destruct (detached_links_spec links batch selected) as (Hok' & Hids & Hact); [done..|].
  set (left := detached_links batch (link_in_use selected) links) in *.
  assert (Hleft : ∀ l, l ∈ left → tidy (link_input_batch_id l) ∧ blank (link_input_batch_id l) = false).
  { intros l Hin. pose proof (lo_valid _ Hok' l Hin) as Hv. unfold link_is_valid in Hv.
    rewrite !andb_true_iff, negb_true_iff in Hv. split; [|apply Hv].
    assert (link_input_batch_id l ∈ link_input_batch_id <$> left) as H
      by by apply (list_elem_of_fmap_2 link_input_batch_id).
    apply Hids in H as [_ (l0 & -> & Hl0)%list_elem_of_fmap]. by apply Htl. }
  assert (Hroll : ∀ roll, roll ∈ rolls → let roll' := detached_roll batch (active_link left) roll in
            roll_is_valid roll' = true ∧ consistent left [roll'] ∧
            (∀ id, id ∈ roll_source_input_batch_ids roll' → tidy id)).
  { intros roll Hin. apply (detached_roll_ok batch left links roll); [| | |done..].
    - split; [|apply NoDup_singleton]. intros r ->%list_elem_of_singleton. by apply Hrok.
    - intros r ->%list_elem_of_singleton. by apply Hc.
    - intros id. by apply Htr. }
  exists (detached_roll batch (active_link left) <$> rolls). eapply detached_payload_spec; try done.
  - split; [|rewrite <-list_fmap_compose; apply Hrok].
    intros r (roll & -> & Hin)%list_elem_of_fmap. by apply Hroll.
  - intros r (roll & -> & Hin)%list_elem_of_fmap. destruct (Hroll roll Hin) as (_ & Hr' & _). apply Hr'. by left.
  - intros l Hin. by apply Hleft.
  - intros r id (roll & -> & Hin)%list_elem_of_fmap. by apply Hroll.
Qed.

(** ** Closing a session *)

Lemma complete_spec s now p p' links rolls is_rezka :
  mounted is_rezka (session_payload_json s) links rolls → mounted is_rezka p links rolls →
  apply_output_boundary_to_session_payload Action.Complete (spl_batch_id (session_progress_links s)) now p = Ok p' →
  ∃ links', order_run_input_links_from_payload p' = Some links' ∧ active_link links' = None ∧
            link_id <$> links' = link_id <$> links ∧
            rezka_active_partial_rolls_from_payload p' = Some [].
Proof.
  intros Hs Hm H. rewrite (mounted_current _ _ _ _ Hs) in H. clear Hs.
  apply bind_Ok in H as (p1 & E1 & H). injection E1 as <-.
  pose proof Hm as [_ Hl _ _ _ _ _ _]. rewrite Hl in H.
  apply bind_Ok in H as (links0 & E & H). injection E as <-.
  assert (links_ok links) as [Hv Hid Hseq Hone] by by eapply links_are_valid_spec, decoded_links_valid.
  set (id := match active_link links with Some link => link_id link | None => "" end) in *.
  set (closed := change_first (is_mounted id) (close_link now) links) in *.
  assert (Hnone : List.filter link_in_use closed = []).
  { destruct (existsb (is_mounted id) links) eqn:Em; [by apply close_mounted|].
    assert (Hno : active_link links = None).
    { destruct (active_link links) as [a|] eqn:Ha; [|done]. apply active_in_use in Ha as [Ha Hu].
      rewrite existsb_false in Em. specialize (Em a Ha). unfold is_mounted in Em. rewrite Hu in Em.
      subst id. unfold link_id in Em. rewrite trim_idemp, String.eqb_refl in Em. done. }
    apply filter_none. intros l Hlin. apply change_first_elem in Hlin as [Hlin|(y & _ & ->)]; [|done].
    by apply (find_none _ _ Hno), list_elem_of_In. }
  assert (Hok : links_ok closed).
  { split; [| | |rewrite Hnone; simpl; lia]; unfold closed; [|by rewrite change_first_fmap..].
    intros l [Hlin|(y & Hy & ->)]%change_first_elem; [auto|]. specialize (Hv y Hy).
    unfold link_is_valid in *. simpl. apply andb_true_iff in Hv as [-> _]. done. }
  apply bind_Ok in H as (p2 & E2 & H).
  destruct (write_links_spec closed p) as (p2' & E2' & Ho2 & Hd2 & Hg2); [by apply links_are_valid_spec|].
  rewrite E2 in E2'. injection E2' as <-.
  destruct (write_rolls_spec [] p2) as (p3 & E3 & Ho3 & Hd3 & Hg3); [done|]. rewrite H in E3. injection E3 as <-.
  exists closed. split_and!; [by rewrite (links_ext p' p2) by by apply Hg3| | |done].
  - unfold active_link. destruct (List.find link_in_use closed) as [a|] eqn:Ea; [|done].
    apply find_elem in Ea. apply filterb_elem in Ea. rewrite Hnone in Ea. by apply elem_of_nil in Ea.
  - by apply change_first_fmap.
Qed.

(** ** Sessions as workers leave them *)

(** A change of the session's payload by a worker; the session stays open. *)
Inductive lineage_step (is_rezka : bool) (s : RunSession) : value → Prop :=
| step_report action qty uom metrics desc now p :
    action ≠ Action.Complete → reported_session_payload s action qty uom metrics desc now = Ok p →
    lineage_step is_rezka s p
| step_handed remove metrics desc p :
    handed_session_payload s remove metrics desc = Ok p → lineage_step is_rezka s p
| step_frozen uom issue desc p : frozen_session_payload s uom issue desc = Ok p → lineage_step is_rezka s p
| step_resumed p : resumed_mounted_payload s = Ok p → lineage_step is_rezka s p
| step_resumed_output batch without_qr p :
    resumed_session_payload s batch without_qr = Ok p → lineage_step is_rezka s p
| step_resumed_work p : resumed_work_session_payload s = Ok p → lineage_step is_rezka s p
| step_merged map apparatus next now p :
    scannable next → merged_payload map apparatus is_rezka s next now = Ok p → lineage_step is_rezka s p
| step_resumed_input input kind now p :
    is_rezka = false → scannable input →
    (∀ links link, order_run_input_links_from_payload (session_payload_json s) = Some links →
       link ∈ links → link_source_kind link ≠ kind → link_input_batch_id link ≠ spl_batch_id input) →
    resumed_input_payload s input kind now = Ok p → lineage_step is_rezka s p
| step_returned batch now s' left :
    detach_scanned_input s batch now = Ok (s', left) → left ≠ [] →
    lineage_step is_rezka s (session_payload_json s').

Inductive worked (is_rezka : bool) : RunSession → Prop :=
| worked_started actor input batch stage now s :
    blank (spl_batch_id input) = true ∨ scannable input →
    start_session_payload actor input batch stage now = Ok (session_payload_json s) → worked is_rezka s
| worked_on s s' :
    worked is_rezka s → lineage_step is_rezka s (session_payload_json s') → worked is_rezka s'.

Lemma step_mounted is_rezka s p links rolls :
  mounted is_rezka (session_payload_json s) links rolls → lineage_step is_rezka s p →
  ∃ links' rolls', mounted is_rezka p links' rolls'.
Proof.
  intros Hm H. destruct H.
  - destruct (report_keeps _ _ _ _ _ _ _ _ _ _ _ Hm H H0) as [rolls' ?]. eauto.
  - eauto using handed_keeps.
  - eauto using frozen_keeps.
  - eauto using resumed_keeps.
  - eauto using resumed_output_keeps.
  - eauto using resumed_work_keeps.
  - by eapply merge_keeps.
  - subst. eapply resumed_input_keeps in H2; [destruct H2; eauto|done|done|].
    intros link. apply H1. apply Hm.
  - eapply detach_keeps in H; [destruct H; eauto|done|done].
Qed.

Lemma worked_mounted is_rezka s : worked is_rezka s →
  ∃ links rolls, mounted is_rezka (session_payload_json s) links rolls.
Proof.
  induction 1 as [actor input batch stage now s Hin H|s s' _ (links & rolls & Hm) Hs].
  - destruct (start_mounted is_rezka _ _ _ _ _ _ Hin H) as [links ?]. eauto.
  - by eapply step_mounted.
Qed.

(** C26: Whatever a worker does with a run, starting, splicing in rolls,
    reporting, freezing, handing over, resuming or returning a scanned roll, the
    input lineage it leaves is one the store accepts; and when the run
    completes, no input is left mounted and the store accepts the closed run
    too. *)
Theorem lineage_is_always_stored is_rezka s :
  worked is_rezka s →
  (OrderRunStatus.is_open (session_status s) = true → validate_session_lineage s = Ok tt) ∧
  ∀ qty uom metrics desc now s',
    reported_session_payload s Action.Complete qty uom metrics desc now = Ok (session_payload_json s') →
    validate_session_lineage s' = Ok tt ∧
    ∃ links, order_run_input_links_from_payload (session_payload_json s') = Some links ∧
             active_link links = None.
Proof.
  intros (links & rolls & Hm)%worked_mounted. split.
  - intros Hopen. destruct Hm as [_ Hl Hr Hc _ _ _ _]. unfold validate_session_lineage.
    rewrite Hl, Hr, Hopen. simpl. apply consistent_spec in Hc as ->. done.
  - intros qty uom metrics desc now s' H.
    apply bind_Ok in H as (p1 & E1 & H). apply bind_Ok in H as (p2 & E2 & H).
    eapply preserve_mounted in E2; [|done|by eapply progress_payload_replaces].
    destruct (complete_spec _ _ _ _ _ _ _ Hm E2 H) as (links' & Hl & Ha & _ & Hr). split; [|eauto].
    unfold validate_session_lineage. rewrite Hl, Hr. by destruct (OrderRunStatus.is_open _).
Qed.

#[local] Instance sequence_le_total : Total sequence_le.
Proof. intros a b. unfold sequence_le. lia. Qed.
#[local] Instance sequence_le_trans : Transitive sequence_le.
Proof. intros a b c. unfold sequence_le. lia. Qed.

Lemma sources_valid links selected :
  links_ok links → selected `sublist_of` links →
  sources_are_valid (merge_sort sequence_le (source_of_link <$> selected)) = true.
Proof.
  intros [Hv Hid Hseq _] Hsub. unfold sources_are_valid, all_distinct.
  assert (Hp : merge_sort sequence_le (source_of_link <$> selected) ≡ₚ source_of_link <$> selected)
    by apply merge_sort_Permutation.
  rewrite !andb_true_iff, forallb_elem, !bool_decide_eq_true. split_and!.
  - intros src Hsrc. rewrite Hp in Hsrc. apply list_elem_of_fmap in Hsrc as (l & -> & Hl).
    apply (sublist_subseteq _ _ Hsub), Hv in Hl. unfold link_is_valid in Hl. unfold source_is_valid. simpl.
    by rewrite !andb_true_iff in *; destruct Hl as [[-> ->] _].
  - rewrite Hp, <-list_fmap_compose. eapply sublist_NoDup; [exact Hid|]. by apply fmap_sublist.
  - rewrite Hp, <-list_fmap_compose. eapply sublist_NoDup; [exact Hseq|]. by apply fmap_sublist.
Qed.

(** An output of a run lists what it was made of: the sources of any frame
    decode and are valid, come in the order in which they were mounted, are all
    inputs of the run, and include the roll that is mounted. *)
Theorem outputs_name_their_inputs is_rezka s frame :
  worked is_rezka s →
  ∃ links sources,
    order_run_input_links_from_payload (session_payload_json s) = Some links ∧
    progress_batch_source_input_links s (session_progress_links s) frame = Ok sources ∧
    sources_are_valid sources = true ∧ StronglySorted sequence_le sources ∧
    (∀ source, source ∈ sources → source ∈ source_of_link <$> links) ∧
    ∀ link, active_link links = Some link → source_of_link link ∈ sources.
Proof.
  intros (links & rolls & Hm)%worked_mounted. pose proof (mounted_current _ _ _ _ Hm) as Hcur.
  destruct Hm as [_ Hl Hr Hc _ _ _ _].
  assert (Hok : links_ok links) by by eapply links_are_valid_spec, decoded_links_valid.
  exists links. unfold progress_batch_source_input_links. rewrite Hl, Hr. simpl.
  rewrite (proj2 (consistent_spec links rolls) Hc). simpl.
  set (selected := match selected_sources rolls frame with Some ids => _ | None => links end).
  assert (Hsub : selected `sublist_of` links).
  { subst selected. destruct (selected_sources rolls frame); [apply filterb_sublist|done]. }
  assert (Hact : ∀ a, active_link links = Some a → a ∈ selected).
  { intros a Ha. apply active_in_use in Ha as Hin. subst selected.
    destruct (selected_sources rolls frame) as [ids|] eqn:Es; [|apply Hin]. apply filterb_elem.
    split; [apply Hin|]. unfold selected_sources in Es. destruct frame as [i|]; [|done]. simpl in Es.
    destruct (u32_checked i); [|done]. simpl in Es. apply fmap_Some in Es as (roll & Hf & ->).
    apply find_elem in Hf as [Hf _]. destruct (Hc roll Hf) as [_ Hc']. rewrite Ha in Hc'.
    apply existsb_elem. destruct Hc' as (id & ? & ?). exists id. split; [done|]. by apply String.eqb_eq. }
  pose proof (sources_valid links selected Hok Hsub) as Hvalid.
  assert (Hperm : merge_sort sequence_le (source_of_link <$> selected) ≡ₚ source_of_link <$> selected)
    by apply merge_sort_Permutation.
  assert (Hin : ∀ a, active_link links = Some a →
            source_of_link a ∈ merge_sort sequence_le (source_of_link <$> selected)).
  { intros a Ha. rewrite Hperm. apply list_elem_of_fmap_2. auto. }
  pose proof (StronglySorted_merge_sort sequence_le (source_of_link <$> selected)) as Hsorted.
  assert (Hfrom : ∀ src, src ∈ merge_sort sequence_le (source_of_link <$> selected) →
            src ∈ source_of_link <$> links).
  { intros src Hsrc. rewrite Hperm in Hsrc. eapply sublist_subseteq; [by apply fmap_sublist|done]. }
  destruct (merge_sort _ _) as [|src sources] eqn:Em; [|by exists (src :: sources)].
  exists []. split_and!; try done. simpl in Hcur. rewrite Hcur.
  destruct (active_link links) as [a|] eqn:Ha; [by specialize (Hin a eq_refl); apply elem_of_nil in Hin|].
  simpl. by destruct (InputKind.parse _).
Qed.
End facts.
