(* ===== verification/RunStore.v ===== *)
(** Sessions, rolls and finished goods of the memory store.

    Models [src/core/production_map/progress_session/runs.rs] (lookups and listings),
    [progress_session/runs/persistence.rs] (what the store checks and keeps of a session, an
    event, a roll and a receipt) and the moulds of a session ([progress.rs]).  A write returns
    the store it left behind with its outcome, since an error after a write keeps it. *)
From S2P Require Import Prelude RustStr F64 Json Errors Identity QueueState OrderLayout MapDefinition Formula Compiler Bfs Chain Projection Scheduler Progress ProgressFacts WipRoute Lifecycle StageExecution OrderRefresh OrderStore Preflight Epc CutLayout Paddon Metrics Lineage LineageFacts.

(** * Data (progress.rs, qolip_start.rs) *)

Record ProductionQrRawMaterial := {
  material_barcode : string;
  material_item_code : string;
  material_item_name : string;
  material_stock_id : option string;
  material_source_qty : option f64;
  material_uom : option string;
}.

Record ProductionQrSessionResources := {
  resources_session_id : string;
  resources_raw_materials : list ProductionQrRawMaterial;
  resources_raw_materials_available : bool;
  resources_qolip_codes : list string;
  resources_qolip_available : bool;
}.

Record QolipStartSettings := {
  automatic_confirmation_enabled : bool;
  qolip_policy_revision : Z;
}.

Record WipProductionDay := {
  producer_apparatus_ids : list string;
  from_unix : Z;
  until_unix : Z;
}.

Record WipProgressBatchQuery := {
  query_producer_apparatus : string;
  query_worker_ref : string;
  query_before_batch_id : string;
  query_production_day : option WipProductionDay;
  query_apparatus : string;
  query_next_apparatus : string;
  query_current_location : string;
  query_status : option WipStatus.t;
  query_include_processed : bool;
  query_order_id : string;
  query_limit : nat;
}.

Section runs.
Context `{J : Json} `{C : !RouteCodec} `{R : !ReportCodec} `{!Serde (list OrderLane)}.
Context `{!Serde (list OrderRunInputLink)} `{!Serde (list RezkaActivePartialRoll)}.
Context `{!Serde (list ProgressBatchInputLink)} `{!Serde ProductionQrSessionResources}.

Record OrderProgressEvent := {
  pe_event_id : string;
  pe_session_id : string;
  pe_batch_id : string;
  pe_apparatus : string;
  pe_order_id : string;
  pe_action : Action.t;
  pe_produced_qty : f64;
  pe_uom : string;
  pe_worker : QueueActionActor;
  pe_qr_payload : string;
  pe_metrics : ProgressMetrics;
  pe_description : string;
  pe_payload_json : value;
}.

Record FinishedGoodsStockEntry := {
  stock_id : string;
  stock_warehouse : string;
  stock_order_id : string;
  stock_item_code : string;
  stock_item_name : string;
  stock_qty : f64;
  stock_uom : string;
  stock_entry_status : string;
  stock_barcode : string;
  stock_source_progress_batch_id : string;
  stock_accepted_by : QueueActionActor;
  stock_accepted_at_unix : Z;
  stock_payload_json : value;
}.

(** [core/returned_paint.rs]; what the report says is not looked at here. *)
Record ReturnedPaintRequest := {
  paint_id : string;
  paint_order_id : string;
  paint_apparatus : string;
  paint_report : value;
}.

(** The tables of the store. *)
Record run_store := {
  rs_trials :> trial_store;
  rs_progress_events : list OrderProgressEvent;
  rs_finished_goods_stock : gmap string FinishedGoodsStockEntry;
  rs_reservations : reservation_table;
  rs_qolip_start_settings : QolipStartSettings;
  rs_returned_paint_requests : gmap string ReturnedPaintRequest;
  rs_pallets : paddon_store;
  (** set by tests: the next commit fails *)
  rs_fail_next_commit : bool;
}.
#[global] Instance run_store_rebuild : Rebuild run_store := λ r, {|
  rs_trials := rs_trials r;
  rs_progress_events := rs_progress_events r;
  rs_finished_goods_stock := rs_finished_goods_stock r;
  rs_reservations := rs_reservations r;
  rs_qolip_start_settings := rs_qolip_start_settings r;
  rs_returned_paint_requests := rs_returned_paint_requests r;
  rs_pallets := rs_pallets r;
  rs_fail_next_commit := rs_fail_next_commit r |}.

Definition with_tables (t : order_tables) (s : run_store) : run_store :=
  s <| rs_trials := (rs_trials s) <| ts_tables := t |> |>.
Definition with_orders (o : order_store) (s : run_store) : run_store :=
  with_tables ((ts_tables s) <| os_orders := o |>) s.
Definition with_sessions (sessions : gmap string RunSession) (s : run_store) : run_store :=
  with_orders ((os_orders s) <| st_order_run_sessions := sessions |>) s.
Definition with_batches (batches : gmap string OrderProgressBatch) (s : run_store) : run_store :=
  with_orders ((os_orders s) <| st_order_progress_batches := batches |>) s.

(** An operation of a part of the store, on the whole. *)
Definition on_orders (f : order_store → order_store * run_result unit) (s : run_store)
  : run_store * run_result unit :=
  let '(o, r) := f (os_orders s) in (with_orders o s, r).

Definition sessions (s : order_store) : list RunSession := btree_values (st_order_run_sessions s).
Definition batches (s : order_store) : list OrderProgressBatch := btree_values (st_order_progress_batches s).

(** * Lookups (runs.rs) *)

(** The set of non-blank refs; its members are only ever looked up. *)
Definition normalized_worker_refs (worker_refs : list string) : list string :=
  List.filter (λ r, negb (is_empty r)) (trim <$> worker_refs).

(** An open session that was not sent to the end of the queue. *)
Definition keeps_machine (session : RunSession) : bool :=
  OrderRunStatus.is_open (session_status session) && negb (is_requeued_at_tail session).

Definition active_order_run_sessions_for_orders (order_ids : list string) (s : order_store)
  : gmap string (list RunSession) :=
  let requested := List.filter (λ id, negb (is_empty id)) (trim <$> order_ids) in
  foldl (λ result_ (session : RunSession),
    let order_id := trim (session_order_id session) in
    if OrderRunStatus.is_open (session_status session) && bool_decide (order_id ∈ requested)
    then <[order_id := default [] (result_ !! order_id) ++ [session]]> result_
    else result_) ∅ (sessions s).

(** The moulds a session holds. *)
Definition session_qolip_codes (session : RunSession) : list string :=
  if bool_decide (payload_bool (session_payload_json session) "qolip_lock_owner" = Some true)
  then match from_payload (session_payload_json session) with
       | Some lineage => qolip_codes lineage
       | None => []
       end
  else [].

Definition holds_qolip (qolip_code : string) (session : RunSession) : bool :=
  keeps_machine session &&
  existsb (λ code, eq_ignore_ascii_case code qolip_code) (session_qolip_codes session).

Definition active_order_run_session_for_qolip (qolip_code : string) (s : order_store) : option RunSession :=
  let qolip_code := trim qolip_code in
  if is_empty qolip_code then None else List.find (holds_qolip qolip_code) (sessions s).

Definition updated_later (a b : RunSession) : Prop :=
  (session_updated_at_unix b <= session_updated_at_unix a)%Z.
#[global] Instance updated_later_dec : RelDecision updated_later.
Proof. intros a b. unfold updated_later. apply _. Defined.

Definition active_order_run_sessions_for_worker (worker_refs : list string)
    (running_on_apparatus : option (list string)) (limit : nat) (s : order_store) : list RunSession :=
  let refs := normalized_worker_refs worker_refs in
  if (match refs with [] => true | _ => false end) || (limit =? 0) then []
  else take (Nat.min limit 500) (merge_sort updated_later (List.filter (λ session : RunSession,
    keeps_machine session && bool_decide (trim (session_worker_ref session) ∈ refs) &&
    match running_on_apparatus with
    | None => true
    | Some ids => bool_decide (session_status session = RunStatus.Active) &&
                  bool_decide (session_apparatus session ∈ ids)
    end) (sessions s))).

Definition order_run_session (session_id : string) (s : order_store) : option RunSession :=
  st_order_run_sessions s !! trim session_id.

Definition started_before (a b : RunSession) : Prop :=
  (session_started_at_unix a < session_started_at_unix b)%Z ∨
  (session_started_at_unix a = session_started_at_unix b ∧ String.le (session_id a) (session_id b)).
#[global] Instance started_before_dec : RelDecision started_before.
Proof. intros a b. unfold started_before. solve_decision. Defined.

Definition order_run_sessions_for_order (order_id : string) (s : order_store) : list RunSession :=
  let order_id := trim order_id in
  if is_empty order_id then []
  else merge_sort started_before
         (List.filter (λ session : RunSession, trim (session_order_id session) =s order_id) (sessions s)).

Definition progress_batch (batch_id : string) (s : order_store) : option OrderProgressBatch :=
  st_order_progress_batches s !! trim batch_id.

Definition progress_batch_by_qr (qr_payload : string) (s : order_store) : option OrderProgressBatch :=
  List.find (λ b, eq_ignore_ascii_case (trim (batch_qr_payload b)) (trim qr_payload)) (batches s).

Definition opening_wip_batch (batch_id_ qr_payload : string) (s : order_store)
  : option (OpeningWipIntake * OpeningWipBatch) :=
  head (omap (λ record,
    pair (record_intake record) <$> List.find (λ b,
      (negb (blank batch_id_) && (trim (opening_batch_id b) =s trim batch_id_)) ||
      (negb (blank qr_payload) && (trim (opening_qr_payload b) =s trim qr_payload))) (record_batches record))
    (btree_values (st_opening_wip_records s))).

(** Later ids first. *)
Definition id_after (a b : OrderProgressBatch) : Prop := String.le (batch_id b) (batch_id a).
#[global] Instance id_after_dec : RelDecision id_after.
Proof. intros a b. unfold id_after. apply _. Defined.

Definition progress_batches_for_worker (worker_refs : list string) (limit : nat) (s : order_store)
  : list OrderProgressBatch :=
  let refs := normalized_worker_refs worker_refs in
  if (match refs with [] => true | _ => false end) || (limit =? 0) then []
  else take (Nat.min limit 500) (merge_sort id_after (List.filter (λ b,
         negb (is_layer_remainder b) && bool_decide (trim (batch_worker_ref b) ∈ refs)) (batches s))).

Definition progress_batches_for_order (order_id : string) (s : order_store) : list OrderProgressBatch :=
  let order_id := trim order_id in
  if is_empty order_id then []
  else merge_sort id_after (List.filter (λ b, trim (batch_order_id b) =s order_id) (batches s)).

(** A roll made on the day: its work overlaps the day. *)
Definition made_on_day (day : WipProductionDay) (b : OrderProgressBatch) : bool :=
  let last := Z.max (batch_started_at_unix b) (batch_completed_at_unix b) in
  let first :=
    if (0 <? batch_started_at_unix b)%Z && (0 <? batch_completed_at_unix b)%Z
    then Z.min (batch_started_at_unix b) (batch_completed_at_unix b) else last in
  (first <? until_unix day)%Z && (from_unix day <=? last)%Z &&
  bool_decide (batch_apparatus b ∈ producer_apparatus_ids day) && negb (is_layer_remainder b) &&
  negb (WipStatus.eqb (batch_wip_status b) WipStatus.Peremotka).

Definition query_matches (q : WipProgressBatchQuery) (b : OrderProgressBatch) : bool :=
  let producer := trim (query_producer_apparatus q) in
  let apparatus := trim (query_apparatus q) in
  let next := trim (query_next_apparatus q) in
  let location := trim (query_current_location q) in
  let order_id := trim (query_order_id q) in
  (is_empty producer || (trim (batch_apparatus b) =s producer)) &&
  (is_empty (query_worker_ref q) || (trim (batch_worker_ref b) =s trim (query_worker_ref q))) &&
  (is_empty (query_before_batch_id q) || String.ltb (batch_id b) (query_before_batch_id q)) &&
  match query_production_day q with Some day => made_on_day day b | None => true end &&
  (is_empty apparatus || apparatus_ids_match (batch_current_apparatus b) apparatus ||
   apparatus_ids_match (batch_apparatus b) apparatus) &&
  (is_empty location || (trim (batch_current_location b) =s location)) &&
  (is_empty next || stage_ids_match (batch_next_apparatus b) next) &&
  (is_empty order_id || (trim (batch_order_id b) =s order_id)) &&
  (query_include_processed q ||
   match query_status q with
   | Some status => WipStatus.eqb (batch_wip_status b) status
   | None => WipStatus.eqb (batch_wip_status b) WipStatus.Waiting ||
             WipStatus.eqb (batch_wip_status b) WipStatus.InUse
   end).

(** A blank id is no condition; any other must be canonical. *)
Definition check_query_id (id : string) : pm_result unit :=
  check (negb (blank id) && negb (is_ok (ApparatusId_new (trim id)))) StoreFailed.

Definition wip_progress_batches (q : WipProgressBatchQuery) (s : order_store)
  : pm_result (list OrderProgressBatch) :=
  if query_limit q =? 0 then Ok []
  else
    _ ← check_query_id (query_producer_apparatus q);
    _ ← check_query_id (query_apparatus q);
    _ ← check_query_id (query_next_apparatus q);
    Ok (take (Nat.min (query_limit q) 500) (merge_sort id_after (List.filter (query_matches q) (batches s)))).

(** * Moulds (progress.rs) *)

Definition START_RESOURCES_PAYLOAD_FIELD : string := "start_resources".

(** Every barcode occurs once, up to case. *)
Definition materials_are_recorded (materials : list ProductionQrRawMaterial) : bool :=
  forallb (λ m, negb (blank (material_barcode m)) && negb (blank (material_item_code m)) &&
    match material_source_qty m with
    | Some qty => is_finite qty && negb (f64_lt qty f64_zero)
    | None => true
    end) materials &&
  all_distinct ((λ m, to_ascii_uppercase (trim (material_barcode m))) <$> materials).

Definition recorded (session : RunSession) : option ProductionQrSessionResources :=
  v ← json_get START_RESOURCES_PAYLOAD_FIELD (session_payload_json session);
  resources ← (from_value v : option ProductionQrSessionResources);
  if (resources_session_id resources <>s session_id session) ||
     (negb (resources_raw_materials_available resources) &&
      negb (match resources_raw_materials resources with [] => true | _ => false end)) ||
     (negb (resources_qolip_available resources) &&
      negb (match resources_qolip_codes resources with [] => true | _ => false end)) ||
     negb (materials_are_recorded (resources_raw_materials resources)) ||
     existsb blank (resources_qolip_codes resources)
  then None else Some resources.

Definition for_session (session : RunSession) : ProductionQrSessionResources :=
  default {| resources_session_id := session_id session; resources_raw_materials := [];
             resources_raw_materials_available := false; resources_qolip_codes := [];
             resources_qolip_available := false |} (recorded session).

(** The resources of a session without its moulds. *)
Definition without_qolips (resources : ProductionQrSessionResources) : ProductionQrSessionResources :=
  {| resources_session_id := resources_session_id resources;
     resources_raw_materials := resources_raw_materials resources;
     resources_raw_materials_available := resources_raw_materials_available resources;
     resources_qolip_codes := []; resources_qolip_available := false |}.

(** [write_to_session] and the assignments that follow it. *)
Definition release_qolips (fields : list (string * value)) (session : RunSession) : run_result RunSession :=
  payload ← put_fields
    ((START_RESOURCES_PAYLOAD_FIELD, to_value (without_qolips (for_session session))) :: fields)
    (ensure_payload_object (session_payload_json session));
  Ok (with_session_payload session payload).

Definition release_returned_qolips (checkout_id : string) (now : Z) (session : RunSession)
  : run_result RunSession :=
  release_qolips
    [("qolip_lock_owner", json_bool false); ("qolip_released_on_return", json_bool true);
     ("qolip_returned_checkout_id", json_str checkout_id); ("qolip_released_at_unix", json_Z now)] session.

(** A frozen run gives its moulds back. *)
Definition release_frozen_qolips (session : RunSession) : run_result RunSession :=
  if negb (bool_decide (session_status session = RunStatus.Frozen)) ||
     negb (bool_decide (payload_bool (session_payload_json session) "qolip_lock_owner" = Some true))
  then Ok session
  else release_qolips
    [("qolip_lock_owner", json_bool false); ("qolip_released_on_freeze", json_bool true);
     ("qolip_released_at_unix", json_Z (session_updated_at_unix session))] session.

(** * Writes (runs/persistence.rs) *)

Definition require_apparatus_id (id : string) : pm_result unit :=
  check (negb (is_ok (ApparatusId_new (trim id)))) StoreFailed.

Definition is_warehouse_processing_marker (value_ : string) : bool :=
  starts_with (to_ascii_lowercase (trim value_)) "warehouse:".

Definition validate_progress_batch_apparatus (batch : OrderProgressBatch) : pm_result unit :=
  _ ← require_apparatus_id (batch_apparatus batch);
  for_each (λ apparatus _,
      if negb (blank apparatus) && negb (is_warehouse_processing_marker apparatus)
      then require_apparatus_id apparatus else Ok tt)
    [batch_current_apparatus batch; batch_next_apparatus batch; batch_used_by_apparatus batch;
     batch_processed_by_apparatus batch] tt.

(** The session as it is kept. *)
Definition stored_session (session : RunSession) : run_result RunSession :=
  session ← release_frozen_qolips session;
  _ ← lift (require_apparatus_id (session_apparatus session));
  _ ← lift (validate_session_lineage session);
  Ok session.

Definition put_order_run_session (session : RunSession) (s : run_store) : run_store * run_result unit :=
  match stored_session session with
  | Err e => (s, Err e)
  | Ok session =>
      (with_sessions (<[trim (session_id session) := session]> (st_order_run_sessions s)) s, Ok tt)
  end.

Definition put_order_progress_event (event : OrderProgressEvent) (s : run_store) : run_store * run_result unit :=
  match require_apparatus_id (pe_apparatus event) with
  | Err e => (s, Err (Fail e))
  | Ok _ => (s <| rs_progress_events := rs_progress_events s ++ [event] |>, Ok tt)
  end.

(** The times of a stored roll do not change. *)
Definition keep_times (original : option OrderProgressBatch) (batch : OrderProgressBatch) : OrderProgressBatch :=
  match original with
  | Some original =>
      batch <| batch_started_at_unix := batch_started_at_unix original |>
            <| batch_completed_at_unix := batch_completed_at_unix original |>
  | None => batch
  end.

Definition insert_batch (batch : OrderProgressBatch) (batches : gmap string OrderProgressBatch)
  : gmap string OrderProgressBatch :=
  let id := trim (batch_id batch) in <[id := keep_times (batches !! id) batch]> batches.

(** The refresh of one order, when it is named. *)
Definition refresh_order (order_id : string) (s : run_store) : run_store * run_result unit :=
  if is_empty order_id then (s, Ok tt)
  else on_orders (refresh_production_order_lifecycles [order_id]) s.

Definition check_batch (batch : OrderProgressBatch) : pm_result unit :=
  _ ← validate_progress_batch_apparatus batch;
  _ ← ok_or (progress_batch_input_links_from_payload (batch_payload_json batch)) StoreFailed;
  Ok tt.

Definition put_order_progress_batch (batch : OrderProgressBatch) (s : run_store)
  : run_store * run_result unit :=
  match check_batch batch with
  | Err e => (s, Err (Fail e))
  | Ok _ =>
      refresh_order (trim (batch_order_id batch))
        (with_batches (insert_batch batch (st_order_progress_batches s)) s)
  end.

Definition receive_finished_goods_batch (batch : OrderProgressBatch) (stock : FinishedGoodsStockEntry)
    (s : run_store) : run_store * run_result unit :=
  match check_batch batch with
  | Err e => (s, Err (Fail e))
  | Ok _ =>
      refresh_order (trim (batch_order_id batch))
        (with_batches (insert_batch batch (st_order_progress_batches s)) s
         <| rs_finished_goods_stock := <[trim (stock_id stock) := stock]> (rs_finished_goods_stock s) |>)
  end.
End runs.

(** * Facts

    Correctness of sessions and moulds in the store: a mould is held by one open session, and
    storing a session keeps it so. *)

Section facts.
Context `{J : Json} `{!JsonLaws J} `{C : !RouteCodec} `{R : !ReportCodec} `{!Serde (list OrderLane)}.
Context `{!Serde (list OrderRunInputLink)} `{!Serde (list RezkaActivePartialRoll)}.
Context `{!Serde (list ProgressBatchInputLink)} `{!Serde ProductionQrSessionResources}.

(** * The refresh writes life cycles only *)

Lemma refresh_writes ids (o : order_store) :
  ∃ lc, (refresh_production_order_lifecycles ids o).1 = o <| st_lifecycles := lc |>.
Proof.
  revert o. induction ids as [|id ids IH]; intros o; simpl; [exists (st_lifecycles o); by destruct o|].
  destruct (st_maps o !! trim id); [|apply IH].
  destruct (refreshed_record _ _ _ _) as [record|]; [|exists (st_lifecycles o); by destruct o].
  edestruct IH as [lc E]. exists lc. exact E.
Qed.

Lemma refresh_keeps {A} (f : order_store → A) ids (o : order_store) :
  (∀ (o : order_store) lc, f (o <| st_lifecycles := lc |>) = f o) →
  f (refresh_production_order_lifecycles ids o).1 = f o.
Proof. intros Hf. destruct (refresh_writes ids o) as [lc ->]. apply Hf. Qed.

Lemma refresh_order_keeps {A} (f : order_store → A) id (s : run_store) :
  (∀ (o : order_store) lc, f (o <| st_lifecycles := lc |>) = f o) →
  f (refresh_order id s).1 = f s.
Proof.
  intros Hf. unfold refresh_order. destruct (is_empty id); [done|]. unfold on_orders.
  pose proof (refresh_keeps f [id] s Hf) as H.
  by destruct (refresh_production_order_lifecycles _ _).
Qed.

(** * Codes of moulds *)

Lemma normalize_codes_tidy codes normalized c :
  (∀ c, c ∈ normalized → trim c = c ∧ c ≠ "") →
  c ∈ normalize_codes codes normalized → trim c = c ∧ c ≠ "".
Proof.
  revert normalized. induction codes as [|code codes IH]; intros normalized Hn; simpl; [apply Hn|].
  destruct (is_empty (trim code)) eqn:E; simpl; [by apply IH|].
  destruct (existsb _ normalized); [by apply IH|]. apply IH.
  intros c'. rewrite elem_of_app, list_elem_of_singleton. intros [?| ->]; [auto|].
  rewrite trim_idemp. split; [done|]. by destruct (trim code).
Qed.

Lemma session_codes_tidy s c : c ∈ session_qolip_codes s → trim c = c ∧ c ≠ "".
Proof.
  unfold session_qolip_codes. case_bool_decide; [|by intros ?%elem_of_nil].
  destruct (from_payload (session_payload_json s)) as [l|] eqn:E; [|by intros ?%elem_of_nil].
  unfold from_payload in E.
  set (primary := _ ← payload_str _ _; _) in E. clearbody primary.
  apply bind_Some in E as (codes & _ & E). apply bind_Some in E as (lineage & E & [= <-]).
  unfold from_codes in E. apply bind_Some in E as (code & _ & [= <-]). simpl.
  apply normalize_codes_tidy. by intros ? ?%elem_of_nil.
Qed.

(** * One holder per mould *)

Definition same_code (c c' : string) : Prop := eq_ignore_ascii_case c c' = true.

Lemma same_code_sym c c' : same_code c c' → same_code c' c.
Proof. unfold same_code, eq_ignore_ascii_case. intros ?%String.eqb_eq. by apply String.eqb_eq. Qed.
Lemma same_code_trans c1 c2 c3 : same_code c1 c2 → same_code c2 c3 → same_code c1 c3.
Proof.
  unfold same_code, eq_ignore_ascii_case. intros ?%String.eqb_eq ?%String.eqb_eq. apply String.eqb_eq. congruence.
Qed.

(** The session holds the mould against every other session. *)
Definition holds (s : RunSession) (code : string) : Prop :=
  keeps_machine s = true ∧ ∃ c, c ∈ session_qolip_codes s ∧ same_code c code.

Lemma holds_qolip_spec code s : holds_qolip code s = true ↔ holds s code.
Proof. unfold holds_qolip, holds. rewrite andb_true_iff, existsb_elem. done. Qed.

Record moulds_ok (table : gmap string RunSession) : Prop := {
  mo_keys k (s : RunSession) : table !! k = Some s → k = trim (session_id s);
  mo_exclusive k k' (s s' : RunSession) code :
    table !! k = Some s → table !! k' = Some s' → holds s code → holds s' code → k = k';
}.

Lemma sessions_elem (o : order_store) s :
  s ∈ sessions o ↔ ∃ k, st_order_run_sessions o !! k = Some s.
Proof.
  unfold sessions, btree_values. rewrite list_elem_of_fmap. split.
  - intros ([k s'] & -> & H). exists k. by apply elem_of_btree_entries in H.
  - intros (k & H). exists (k, s). split; [done|]. by apply elem_of_btree_entries.
Qed.

(** The lookup finds a holder whenever there is one. *)
Lemma lookup_holder (o : order_store) code k (s : RunSession) :
  trim code = code → code ≠ "" → st_order_run_sessions o !! k = Some s → holds s code →
  ∃ a, active_order_run_session_for_qolip code o = Some a ∧ holds a code ∧
       ∃ k', st_order_run_sessions o !! k' = Some a.
Proof.
  intros Ht Hne Hk Hh. unfold active_order_run_session_for_qolip. rewrite Ht.
  destruct (is_empty code) eqn:E; [by destruct code|].
  destruct (List.find (holds_qolip code) (sessions o)) as [a|] eqn:Hf.
  - exists a. split; [done|]. apply find_elem in Hf as [Hin Ha].
    split; [by apply holds_qolip_spec|]. by apply sessions_elem.
  - exfalso. assert (Hin : s ∈ sessions o) by (apply sessions_elem; by exists k).
    apply holds_qolip_spec in Hh. apply list_elem_of_In in Hin.
    pose proof (find_none _ _ Hf s Hin). congruence.
Qed.

(** What is stored of a session: its status, and no more moulds than it came with. *)
Lemma stored_session_spec s s' : stored_session s = Ok s' →
  run_session s' = run_session s ∧ ∀ c, c ∈ session_qolip_codes s' → s' = s.
Proof.
  intros H. apply bind_Ok in H as (s1 & H1 & H). apply bind_Ok in H as (u1 & _ & H).
  apply bind_Ok in H as (u2 & _ & [= <-]). unfold release_frozen_qolips in H1.
  destruct (_ || _); [by injection H1 as <-|].
  apply bind_Ok in H1 as (p & Hp & [= <-]). split; [done|].
  apply put_fields_Ok in Hp as [_ Hg]; [|apply ensure_object].
  intros c. unfold session_qolip_codes. rewrite bool_decide_eq_false_2; [by intros ?%elem_of_nil|].
  unfold payload_bool. simpl. rewrite Hg. simpl. by rewrite json_as_bool_bool.
Qed.

(** A session may be stored when no other holds a mould of it. *)
Lemma put_session_keeps_moulds session (s : run_store) :
  moulds_ok (st_order_run_sessions s) →
  (∀ k (s' : RunSession) code, st_order_run_sessions s !! k = Some s' → holds session code → holds s' code →
     k = trim (session_id session)) →
  moulds_ok (st_order_run_sessions (put_order_run_session session s).1).
Proof.
  intros [Hk He] Hfree. unfold put_order_run_session.
  destruct (stored_session session) as [kept|] eqn:E; [|done].
  apply stored_session_spec in E as [Erun Ecodes]. simpl.
  assert (Hid : session_id kept = session_id session) by by rewrite Erun.
  assert (Hh : ∀ code, holds kept code → holds session code).
  { intros code [Hm (c & Hc & Hs)]. pose proof (Ecodes c Hc) as ->. split; [done|]. by exists c. }
  split.
  - intros k s'. rewrite lookup_insert_Some. intros [[<- <-]|[_ ?]]; [done|by apply Hk].
  - intros k k' s1 s2 code. rewrite !lookup_insert_Some.
    intros [[<- <-]|[Hne1 H1]] [[<- <-]|[Hne2 H2]] Hh1 Hh2; [done| | |by eapply He].
    + rewrite Hid. symmetry. by apply (Hfree k' s2 code); [|apply Hh|].
    + rewrite Hid. by apply (Hfree k s1 code); [|apply Hh|].
Qed.
End facts.
