(* ===== verification/MutationGuard.v ===== *)
(** The locks of the production service.

    Models [src/core/production_map/service_mutation_guard.rs] and the guards of
    [service.rs].  A mutation takes either the exclusive barrier, or the shared
    barrier and one mutex per resource it touches; the mutexes live in a registry
    that holds them weakly.  A task is a state machine whose steps are the
    indivisible sections of the code (an await, the body under the registry lock,
    the drop of one field); tasks interleave freely and may be cancelled where the
    code awaits. *)
From S2P Require Import Prelude RustStr F64 Json Errors Identity QueueState OrderLayout MapDefinition Formula Compiler Bfs Chain Projection Scheduler Progress WipRoute Lifecycle StageExecution OrderRefresh OrderStore Preflight Epc CutLayout Paddon Metrics Lineage RunStore.

(** * Keys *)

Definition ResourceKey : Type := string * string.

(** The order of the tuples. *)
Definition key_le : relation ResourceKey := λ a b,
  if decide (a.1 = b.1) then String.le a.2 b.2 else String.le a.1 b.1.
#[global] Instance key_le_dec : RelDecision key_le.
Proof. intros a b. unfold key_le. destruct (decide _); apply _. Defined.

(** [Vec::dedup]. *)
Fixpoint dedup (keys : list ResourceKey) : list ResourceKey :=
  match keys with
  | [] => []
  | key :: rest =>
      match rest with
      | next :: _ => if decide (key = next) then dedup rest else key :: dedup rest
      | [] => [key]
      end
  end.

(** [keys.sort_unstable(); keys.dedup()]. *)
Definition lock_order (keys : list ResourceKey) : list ResourceKey := dedup (merge_sort key_le keys).

(** * Tasks *)

(** [ResourceLease]; a mutex is named by a number. *)
Record ResourceLease := { lease_key : ResourceKey; lease_lock : nat }.

Inductive task :=
  | WaitShared (keys : list ResourceKey)
      (** awaiting [barrier.read_owned()] *)
  | HasBarrier (keys : list ResourceKey)
      (** about to look the keys up *)
  | Locking (leases : list ResourceLease) (guards : list nat)
      (** taking the mutexes in order; once it has all, the caller works *)
  | Dropping (guards : list nat) (leases : list ResourceLease) (retired : bool)
      (** dropping the guard: mutexes, leases, barrier; [retired] when the [Drop] of
          the first lease has run and its fields are still to be dropped *)
  | WaitExclusive
  | HasExclusive.

(** Clones of the [Arc] of a mutex: leases, owned guards, and the one inside the
    pending [lock_owned]. *)
Definition lock_refs (p : task) : list nat :=
  match p with
  | Locking leases guards =>
      (lease_lock <$> leases) ++ guards ++ option_list (lease_lock <$> leases !! length guards)
  | Dropping guards leases _ => guards ++ (lease_lock <$> leases)
  | _ => []
  end.

(** Mutexes a task has locked. *)
Definition locked_by (p : task) : list nat :=
  match p with Locking _ guards | Dropping guards _ _ => guards | _ => [] end.

Definition holds_shared (p : task) : bool :=
  match p with HasBarrier _ | Locking _ _ | Dropping _ _ _ => true | _ => false end.
Definition holds_exclusive (p : task) : bool :=
  match p with HasExclusive => true | _ => false end.
Definition holds_barrier (p : task) : bool := holds_shared p || holds_exclusive p.

(** [ProductionMutationLocks] and the tasks that use it. *)
Record lock_state := {
  lk_resources : gmap ResourceKey nat;
  lk_fresh : nat;
  lk_tasks : gmap nat task;
}.
#[global] Instance lock_state_rebuild : Rebuild lock_state := λ r, {|
  lk_resources := lk_resources r; lk_fresh := lk_fresh r; lk_tasks := lk_tasks r |}.

Definition no_tasks : lock_state := {| lk_resources := ∅; lk_fresh := 0; lk_tasks := ∅ |}.

Definition set_task (t : nat) (p : task) (s : lock_state) : lock_state :=
  s <| lk_tasks := <[t := p]> (lk_tasks s) |>.
Definition end_task (t : nat) (s : lock_state) : lock_state :=
  s <| lk_tasks := delete t (lk_tasks s) |>.

Definition all_tasks (s : lock_state) : list task := (map_to_list (lk_tasks s)).*2.

(** [Arc::strong_count]. *)
Definition strong_count (s : lock_state) (lock : nat) : nat :=
  count_occ Nat.eq_dec (all_tasks s ≫= lock_refs) lock.

Definition is_locked (s : lock_state) (lock : nat) : bool :=
  existsb (λ p, bool_decide (lock ∈ locked_by p)) (all_tasks s).

(** * Steps *)

(** The body under the registry lock: [Weak::upgrade], or a new mutex. *)
Fixpoint lease_all (count : nat → nat) (keys : list ResourceKey) (resources : gmap ResourceKey nat)
    (fresh : nat) : list ResourceLease * gmap ResourceKey nat * nat :=
  match keys with
  | [] => ([], resources, fresh)
  | key :: keys =>
      let live := (lock ← resources !! key; if (0 <? count lock)%nat then Some lock else None) in
      let '(lock, resources, fresh) :=
        match live with
        | Some lock => (lock, resources, fresh)
        | None => (fresh, <[key := fresh]> resources, S fresh)
        end in
      (* the lease made now keeps its mutex alive *)
      let count other := if Nat.eqb other lock then S (count other) else count other in
      let '(leases, resources, fresh) := lease_all count keys resources fresh in
      ({| lease_key := key; lease_lock := lock |} :: leases, resources, fresh)
  end.

Definition take_leases (t : nat) (keys : list ResourceKey) (s : lock_state) : lock_state :=
  let '(leases, resources, fresh) :=
    lease_all (strong_count s) (lock_order keys) (lk_resources s) (lk_fresh s) in
  set_task t (Locking leases []) (s <| lk_resources := resources |> <| lk_fresh := fresh |>).

(** [ResourceLease::drop]. *)
Definition retire (lease : ResourceLease) (s : lock_state) : lock_state :=
  if Nat.eqb (strong_count s (lease_lock lease)) 1 &&
     bool_decide (lk_resources s !! lease_key lease = Some (lease_lock lease))
  then s <| lk_resources := delete (lease_key lease) (lk_resources s) |>
  else s.

(** The next section of a task, if it need not wait. *)
Definition advance_task (t : nat) (s : lock_state) : option lock_state :=
  match lk_tasks s !! t with
  | None => None
  | Some (WaitShared keys) =>
      if existsb holds_exclusive (all_tasks s) then None else Some (set_task t (HasBarrier keys) s)
  | Some (HasBarrier keys) => Some (take_leases t keys s)
  | Some (Locking leases guards) =>
      match leases !! length guards with
      | Some lease =>
          if is_locked s (lease_lock lease) then None
          else Some (set_task t (Locking leases (guards ++ [lease_lock lease])) s)
      | None => Some (set_task t (Dropping guards leases false) s)
      end
  | Some (Dropping (_ :: guards) leases retired) => Some (set_task t (Dropping guards leases retired) s)
  | Some (Dropping [] (lease :: leases) false) =>
      Some (set_task t (Dropping [] (lease :: leases) true) (retire lease s))
  | Some (Dropping [] (_ :: leases) true) => Some (set_task t (Dropping [] leases false) s)
  | Some (Dropping [] [] _) => Some (end_task t s)
  | Some WaitExclusive =>
      if existsb holds_barrier (all_tasks s) then None else Some (set_task t HasExclusive s)
  | Some HasExclusive => Some (end_task t s)
  end.

(** A pending future may be dropped where it awaits. *)
Definition cancel_task (t : nat) (s : lock_state) : option lock_state :=
  match lk_tasks s !! t with
  | Some (WaitShared _) | Some WaitExclusive => Some (end_task t s)
  | Some (Locking leases guards) =>
      if is_some (leases !! length guards) then Some (set_task t (Dropping guards leases false) s)
      else None
  | _ => None
  end.

(** What a new task asks for: [scoped] or the exclusive barrier. *)
Inductive guard_request :=
  | Exclusive
  | Scoped (keys : list ResourceKey).

Definition request_task (r : guard_request) : task :=
  match r with Exclusive => WaitExclusive | Scoped keys => WaitShared keys end.

(** Steps of the tasks there are. *)
Inductive quiet_step (s s' : lock_state) : Prop :=
  | QuietAdvance t : advance_task t s = Some s' → quiet_step s s'
  | QuietCancel t : cancel_task t s = Some s' → quiet_step s s'.

Inductive lock_step (s : lock_state) : lock_state → Prop :=
  | LockRequest t r : lk_tasks s !! t = None → lock_step s (set_task t (request_task r) s)
  | LockQuiet s' : quiet_step s s' → lock_step s s'.

(** * The guards of the service (service.rs) *)

Section guards.
Context `{J : Json} `{C : !RouteCodec} `{R : !ReportCodec}.

Definition queue_action_guard : guard_request := Exclusive.

Definition apparatus_action_guard (apparatus : string) : guard_request :=
  Scoped [("apparatus", trim apparatus)].

Definition apparatus_preflight_guard (apparatus idempotency_key : string) : guard_request :=
  Scoped [("apparatus", trim apparatus); ("print-preflight-idempotency", trim idempotency_key)].

Definition wip_action_guard (batch_id : string) : guard_request := Scoped [("wip", trim batch_id)].

(** The key of the roll: QR-only clients get the one of the roll they scanned. *)
Definition wip_key (progress_batch_id qr_payload : string) (store : order_store) : list ResourceKey :=
  let id := trim progress_batch_id in
  let qr_payload := trim qr_payload in
  if negb (is_empty id) then [("wip", id)]
  else if negb (is_empty qr_payload) then
    match progress_batch_by_qr qr_payload store with
    | Some batch => [("wip", batch_id batch)]
    | None =>
        match opening_wip_batch "" qr_payload store with
        | Some (_, batch) => [("wip", opening_batch_id batch)]
        | None => [("wip-qr", to_ascii_lowercase qr_payload)]
        end
    end
  else [].

Definition code_keys (kind : string) (codes : list string) : list ResourceKey :=
  (λ code, (kind, to_ascii_lowercase (trim code))) <$> List.filter (λ code, negb (blank code)) codes.

(** The arguments after the action are the fields of the progress input it reads. *)
Definition queue_progress_action_guard (apparatus : string) (action : Action.t)
    (freeze_with_issue : bool) (freeze_request_id progress_batch_id qr_payload : string)
    (material_barcodes qolip_codes : list string) (store : order_store) : guard_request :=
  if bool_decide (action = Action.Freeze) || freeze_with_issue || negb (blank freeze_request_id)
  then Exclusive
  else Scoped ([("apparatus", trim apparatus)] ++ wip_key progress_batch_id qr_payload store ++
               code_keys "material" material_barcodes ++ code_keys "qolip" qolip_codes).
End guards.
