(* ===== verification/MutationGuardFacts.v ===== *)
(** The locks exclude each other per resource, whatever the interleaving, and never
    deadlock; the registry may keep entries of dropped mutexes. *)
From S2P Require Import Prelude RustStr F64 Errors Identity QueueState OrderLayout MapDefinition Formula Compiler Bfs Chain Projection Scheduler Json Progress WipRoute Lifecycle StageExecution OrderRefresh OrderStore Preflight RunStore MutationGuard.

(** * The order of the keys *)

Definition key_lt (a b : ResourceKey) : Prop := key_le a b ∧ a ≠ b.
#[global] Instance key_lt_dec : RelDecision key_lt.
Proof. intros a b. unfold key_lt. apply _. Defined.

#[global] Instance key_le_total : Total key_le.
Proof.
  intros [a1 a2] [b1 b2]. unfold key_le; simpl.
  destruct (decide (a1 = b1)) as [->|]; [rewrite decide_True by done; apply total, _|].
  rewrite (decide_False (P := b1 = a1)) by congruence. apply total, _.
Qed.

#[global] Instance key_le_trans : Transitive key_le.
Proof.
  intros [a1 a2] [b1 b2] [c1 c2]. unfold key_le; simpl.
  destruct (decide (a1 = b1)) as [->|Hab], (decide (b1 = c1)) as [->|Hbc]; intros H1 H2;
    rewrite ?decide_True, ?decide_False by done; try done; [by etrans|].
  case_decide as Hac; [subst|by etrans]. exfalso. apply Hab. by apply (anti_symm String.le).
Qed.

#[global] Instance key_le_antisymm : AntiSymm (=) key_le.
Proof.
  intros [a1 a2] [b1 b2]. unfold key_le; simpl.
  destruct (decide (a1 = b1)) as [->|Hab]; [rewrite decide_True by done|].
  - intros. f_equal. by apply (anti_symm String.le).
  - rewrite (decide_False (P := b1 = a1)) by congruence. intros. destruct Hab.
    by apply (anti_symm String.le).
Qed.

Lemma key_lt_le_trans a b c : key_lt a b → key_le b c → key_lt a c.
Proof.
  intros [Hab Hne] Hbc. split; [by etrans|]. intros ->. apply Hne. by apply (anti_symm key_le).
Qed.

Lemma elem_of_dedup k keys : k ∈ dedup keys ↔ k ∈ keys.
Proof.
  induction keys as [|key rest IH]; [done|]. cbn. destruct rest as [|next rest]; [done|].
  case_decide as He; [subst key|]; rewrite ?elem_of_cons, IH, !elem_of_cons; tauto.
Qed.

Lemma dedup_sorted keys : StronglySorted key_le keys → StronglySorted key_lt (dedup keys).
Proof.
  induction 1 as [|key rest Hs IH Hall]; cbn; [constructor|].
  destruct rest as [|next rest]; [by repeat constructor|]. case_decide as He; [done|].
  constructor; [done|]. apply Forall_forall. intros k [->|Hk]%elem_of_dedup%elem_of_cons.
  - split; [|done]. by apply Forall_cons in Hall as [? _].
  - apply (key_lt_le_trans _ next); [|inversion_clear Hs as [|? ? _ Hn]; by eapply Forall_forall in Hn].
    split; [|done]. by apply Forall_cons in Hall as [? _].
Qed.

Lemma elem_of_lock_order k keys : k ∈ lock_order keys ↔ k ∈ keys.
Proof. unfold lock_order. by rewrite elem_of_dedup, (merge_sort_Permutation key_le). Qed.

Lemma lock_order_sorted keys : StronglySorted key_lt (lock_order keys).
Proof. apply dedup_sorted, StronglySorted_merge_sort; apply _. Qed.

Lemma dedup_length keys : length (dedup keys) ≤ length keys.
Proof.
  induction keys as [|key rest IH]; [done|]. cbn. destruct rest; [done|]. case_decide; simpl in *; lia.
Qed.

Lemma lock_order_length keys : length (lock_order keys) ≤ length keys.
Proof.
  unfold lock_order. etrans; [apply dedup_length|]. by rewrite (merge_sort_Permutation key_le).
Qed.

(** * Counting references *)

Lemma elem_of_all_tasks s p : p ∈ all_tasks s ↔ ∃ t, lk_tasks s !! t = Some p.
Proof.
  unfold all_tasks. rewrite list_elem_of_fmap. split.
  - intros ([t q] & -> & H%elem_of_map_to_list). by exists t.
  - intros [t H]. exists (t, p). split; [done|]. by apply elem_of_map_to_list.
Qed.

Lemma all_tasks_split s t p :
  lk_tasks s !! t = Some p → all_tasks s ≡ₚ p :: (map_to_list (delete t (lk_tasks s))).*2.
Proof.
  intros H. unfold all_tasks. rewrite <-(insert_delete_id _ _ _ H) at 1.
  by rewrite map_to_list_insert by (by rewrite lookup_delete_eq).
Qed.

Lemma count_bind_perm {A} (f : A → list nat) l l' m :
  l ≡ₚ l' → count_occ Nat.eq_dec (l ≫= f) m = count_occ Nat.eq_dec (l' ≫= f) m.
Proof. intros H. apply Permutation_count_occ. by rewrite H. Qed.

Lemma strong_count_split s t p m :
  lk_tasks s !! t = Some p →
  strong_count s m = count_occ Nat.eq_dec (lock_refs p) m +
    count_occ Nat.eq_dec ((map_to_list (delete t (lk_tasks s))).*2 ≫= lock_refs) m.
Proof.
  intros H. unfold strong_count. rewrite (count_bind_perm _ _ _ _ (all_tasks_split _ _ _ H)).
  simpl. by rewrite count_occ_app.
Qed.

Lemma elem_of_count m l : m ∈ l → 0 < count_occ Nat.eq_dec l m.
Proof. intros H. apply count_occ_In. by apply list_elem_of_In. Qed.

Lemma strong_count_refs s t p m :
  lk_tasks s !! t = Some p → count_occ Nat.eq_dec (lock_refs p) m ≤ strong_count s m.
Proof. intros H. rewrite (strong_count_split _ _ _ _ H). lia. Qed.

Lemma strong_count_pos s t p m :
  lk_tasks s !! t = Some p → m ∈ lock_refs p → 0 < strong_count s m.
Proof.
  intros H Hm. pose proof (strong_count_refs s t p m H). apply elem_of_count in Hm. lia.
Qed.

Lemma strong_count_two s t t' p p' m :
  t ≠ t' → lk_tasks s !! t = Some p → lk_tasks s !! t' = Some p' →
  m ∈ lock_refs p → m ∈ lock_refs p' → 1 < strong_count s m.
Proof.
  intros Hne H H' Hm Hm'. rewrite (strong_count_split _ _ _ _ H).
  assert (m ∈ (map_to_list (delete t (lk_tasks s))).*2 ≫= lock_refs) as Hin.
  { apply list_elem_of_bind. exists p'. split; [done|]. apply list_elem_of_fmap.
    exists (t', p'). split; [done|]. apply elem_of_map_to_list. by rewrite lookup_delete_ne. }
  apply elem_of_count in Hm, Hin. lia.
Qed.

Lemma is_locked_spec s m :
  is_locked s m = true ↔ ∃ t p, lk_tasks s !! t = Some p ∧ m ∈ locked_by p.
Proof.
  unfold is_locked. rewrite existsb_elem. setoid_rewrite elem_of_all_tasks.
  setoid_rewrite bool_decide_eq_true. naive_solver.
Qed.

Lemma existsb_tasks f s :
  existsb f (all_tasks s) = false → ∀ t p, lk_tasks s !! t = Some p → f p = false.
Proof. intros H t p Ht. eapply existsb_false; [exact H|]. apply elem_of_all_tasks. eauto. Qed.

(** * The registry *)

(** Keys name different mutexes, and fresh names are unused. *)
Definition registry_wf (resources : gmap ResourceKey nat) (fresh : nat) : Prop :=
  (∀ k k' m, resources !! k = Some m → resources !! k' = Some m → k = k') ∧
  (∀ k m, resources !! k = Some m → m < fresh).

Lemma registry_wf_insert key resources fresh :
  registry_wf resources fresh → registry_wf (<[key := fresh]> resources) (S fresh).
Proof.
  intros [Hinj Hb]. split.
  - intros k k' m [[<- <-]|[? H]]%lookup_insert_Some [[<- H']|[? H']]%lookup_insert_Some; try done.
    + apply Hb in H'. lia.
    + subst m. apply Hb in H. lia.
    + by eapply Hinj.
  - intros k m [[_ <-]|[_ H%Hb]]%lookup_insert_Some; lia.
Qed.

Lemma registry_wf_delete key resources fresh :
  registry_wf resources fresh → registry_wf (delete key resources) fresh.
Proof.
  intros [Hinj Hb]. split.
  - intros k k' m [_ H]%lookup_delete_Some [_ H']%lookup_delete_Some. by eapply Hinj.
  - intros k m [_ H]%lookup_delete_Some. by eapply Hb.
Qed.

Definition registered (resources : gmap ResourceKey nat) (l : ResourceLease) : Prop :=
  resources !! lease_key l = Some (lease_lock l).

Lemma lease_all_spec count keys resources fresh leases resources' fresh' :
  lease_all count keys resources fresh = (leases, resources', fresh') →
  registry_wf resources fresh →
  lease_key <$> leases = keys ∧ registry_wf resources' fresh' ∧ fresh ≤ fresh' ∧
  (∀ l, l ∈ leases → registered resources' l) ∧
  (∀ k m, resources !! k = Some m → 0 < count m → resources' !! k = Some m).
Proof.
  revert count resources fresh leases resources' fresh'.
  induction keys as [|key keys IH]; intros count resources fresh leases resources' fresh' H Hwf; simpl in H.
  { injection H as <- <- <-. split_and!; try done. by intros l ?%elem_of_nil. }
  set (live := lock ← resources !! key; if (0 <? count lock)%nat then Some lock else None) in H.
  set (next := match live with Some lock => (lock, resources, fresh)
    | None => (fresh, <[key := fresh]> resources, S fresh) end) in H.
  destruct next as [[lock resources1] fresh1] eqn:Hnext. subst next.
  assert (registry_wf resources1 fresh1 ∧ fresh ≤ fresh1 ∧ resources1 !! key = Some lock ∧
    ∀ k m, resources !! k = Some m → 0 < count m → resources1 !! k = Some m)
    as (Hwf1 & Hle1 & Hkey & Hkeep1).
  { subst live. destruct (resources !! key) as [old|] eqn:Hold; simpl in Hnext.
    - destruct (0 <? count old)%nat eqn:Hc; injection Hnext as <- <- <-; [done|].
      split_and!; [by apply registry_wf_insert|lia|apply lookup_insert_eq|].
      intros k m Hk Hm. rewrite lookup_insert_ne; [done|]. intros <-. apply Nat.ltb_ge in Hc.
      assert (old = m) as -> by congruence. lia.
    - injection Hnext as <- <- <-.
      split_and!; [by apply registry_wf_insert|lia|apply lookup_insert_eq|].
      intros k m Hk Hm. rewrite lookup_insert_ne; [done|]. intros <-. congruence. }
  clear live Hnext.
  destruct (lease_all _ keys resources1 fresh1) as [[rest resources2] fresh2] eqn:Hrest.
  injection H as <- <- <-.
  apply IH in Hrest as (Hkeys & Hwf2 & Hle2 & Hreg & Hkeep); [|done].
  split_and!; [by rewrite fmap_cons, Hkeys|done|lia| |].
  - intros l [->|Hl]%elem_of_cons; [|by apply Hreg]. apply Hkeep; [done|]. rewrite Nat.eqb_refl. lia.
  - intros k m Hk Hm. apply Hkeep; [by apply Hkeep1|]. destruct (Nat.eqb m lock); lia.
Qed.

(** * The invariant *)

(** Leases the registry still has to know. *)
Definition open_leases (p : task) : list ResourceLease :=
  match p with
  | Locking leases _ => leases
  | Dropping _ leases retired => if retired then tail leases else leases
  | _ => []
  end.

Definition task_wf (fresh : nat) (p : task) : Prop :=
  (∀ m, m ∈ lock_refs p → m < fresh) ∧
  match p with
  | Locking leases guards =>
      guards = lease_lock <$> take (length guards) leases ∧
      StronglySorted key_lt (lease_key <$> leases)
  | Dropping guards leases retired =>
      (∀ m, m ∈ guards → m ∈ lease_lock <$> leases) ∧ (retired = true → guards = [])
  | _ => True
  end.

Record inv (s : lock_state) : Prop := {
  inv_registry : registry_wf (lk_resources s) (lk_fresh s);
  inv_task t p : lk_tasks s !! t = Some p → task_wf (lk_fresh s) p;
  inv_open t p l : lk_tasks s !! t = Some p → l ∈ open_leases p → registered (lk_resources s) l;
  inv_mutex t t' p p' m : lk_tasks s !! t = Some p → lk_tasks s !! t' = Some p' →
    m ∈ locked_by p → m ∈ locked_by p' → t = t';
  inv_exclusive t t' p p' : lk_tasks s !! t = Some p → lk_tasks s !! t' = Some p' →
    holds_exclusive p = true → holds_barrier p' = true → t = t';
}.

Lemma inv_no_tasks : inv no_tasks.
Proof. split; [split|..]; by intros. Qed.

(** Replacing the state of one task. *)
Lemma inv_set t p s :
  inv s → task_wf (lk_fresh s) p →
  (∀ l, l ∈ open_leases p → registered (lk_resources s) l) →
  (∀ t' p', t' ≠ t → lk_tasks s !! t' = Some p' →
     (∀ m, m ∈ locked_by p → m ∉ locked_by p') ∧
     (holds_exclusive p = true → holds_barrier p' = false) ∧
     (holds_exclusive p' = true → holds_barrier p = false)) →
  inv (set_task t p s).
Proof.
  intros [Hreg Htask Hopen Hmutex Hexcl] Hp Hpo Hother.
  assert (∀ q, holds_exclusive q = true → holds_barrier q = true) as Hhb.
  { intros q Hq. unfold holds_barrier. rewrite Hq. by rewrite orb_true_r. }
  split; simpl; [done| | | |].
  - intros t' p' [[<- <-]|[? ?]]%lookup_insert_Some; [done|by eapply Htask].
  - intros t' p' l [[<- <-]|[? ?]]%lookup_insert_Some; [by apply Hpo|by eapply Hopen].
  - intros t1 t2 p1 p2 m [[<- <-]|[? H1]]%lookup_insert_Some [[<- <-]|[? H2]]%lookup_insert_Some M1 M2;
      [done| | |by eapply Hmutex].
    + destruct (Hother t2 p2) as [Hm _]; [done..|]. by destruct (Hm m).
    + destruct (Hother t1 p1) as [Hm _]; [done..|]. by destruct (Hm m).
  - intros t1 t2 p1 p2 [[<- <-]|[? H1]]%lookup_insert_Some [[<- <-]|[? H2]]%lookup_insert_Some M1 M2;
      [done| | |by eapply Hexcl].
    + destruct (Hother t2 p2) as (_ & He & _); [done..|]. rewrite He in M2; done.
    + destruct (Hother t1 p1) as (_ & _ & He); [done..|]. rewrite He in M2; done.
Qed.

(** A task that only gives resources up. *)
Definition shrinks (p p' : task) : Prop :=
  (∀ l, l ∈ open_leases p' → l ∈ open_leases p) ∧ (∀ m, m ∈ locked_by p' → m ∈ locked_by p) ∧
  (holds_barrier p' = true → holds_barrier p = true) ∧
  (holds_exclusive p' = true → holds_exclusive p = true).

Lemma inv_shrink t p p' s :
  inv s → lk_tasks s !! t = Some p → shrinks p p' → task_wf (lk_fresh s) p' → inv (set_task t p' s).
Proof.
  intros Hinv Ht (Hl & Hm & Hb & He) Hwf. apply inv_set; [done|done| |].
  - intros l ?. eapply inv_open; eauto.
  - intros t' q Hne Ht'. split_and!.
    + intros m M1 M2. apply Hne. eapply (inv_mutex _ Hinv t' t q p m); auto.
    + intros H. destruct (holds_barrier q) eqn:Hq; [|done]. destruct Hne.
      symmetry. eapply (inv_exclusive _ Hinv t t'); eauto.
    + intros H. destruct (holds_barrier p') eqn:Hq; [|done]. destruct Hne.
      eapply (inv_exclusive _ Hinv t' t); eauto.
Qed.

Lemma inv_end t s : inv s → inv (end_task t s).
Proof.
  intros [Hreg Htask Hopen Hmutex Hexcl]. split; simpl; [done|..].
  - intros ?? [_ ?]%lookup_delete_Some. eauto.
  - intros ??? [_ ?]%lookup_delete_Some. eauto.
  - intros ????? [_ ?]%lookup_delete_Some [_ ?]%lookup_delete_Some. eauto.
  - intros ???? [_ ?]%lookup_delete_Some [_ ?]%lookup_delete_Some. eauto.
Qed.

(** * Steps preserve the invariant *)

Lemma open_leases_refs p l : l ∈ open_leases p → lease_lock l ∈ lock_refs p.
Proof.
  destruct p as [| |leases guards|guards leases []| |]; simpl; try by intros ?%elem_of_nil.
  - intros H. apply elem_of_app. left. by apply list_elem_of_fmap_2.
  - intros H. apply elem_of_app. right. apply list_elem_of_fmap_2.
    destruct leases; [done|]. by apply elem_of_cons; right.
  - intros H. apply elem_of_app. right. by apply list_elem_of_fmap_2.
Qed.

Lemma take_leases_inv t keys s :
  inv s → lk_tasks s !! t = Some (HasBarrier keys) → inv (take_leases t keys s).
Proof.
  intros Hinv Ht. unfold take_leases.
  destruct (lease_all _ _ _ _) as [[leases resources] fresh] eqn:Hall.
  apply lease_all_spec in Hall as (Hkeys & Hwf & Hle & Hreg & Hkeep); [|by apply inv_registry].
  assert (inv (s <| lk_resources := resources |> <| lk_fresh := fresh |>)) as Hinv'.
  { split; simpl; [done| | |apply Hinv|apply Hinv].
    - intros t' p' Ht'. destruct (inv_task _ Hinv t' p' Ht') as [Hf ?]. split; [|done].
      intros m ?%Hf. lia.
    - intros t' p' l Ht' Hl. apply Hkeep; [by eapply inv_open|].
      eapply strong_count_pos; [done|]. by apply open_leases_refs. }
  apply inv_set; [done| | |]; simpl.
  - split; [|split; [done|rewrite Hkeys; apply lock_order_sorted]]. intros m Hm. simpl in Hm.
    assert (∃ l, l ∈ leases ∧ m = lease_lock l) as (l & Hl & ->).
    { apply elem_of_app in Hm as [(l & -> & ?)%list_elem_of_fmap|Hm]; [by exists l|].
      destruct leases as [|l leases]; [by apply elem_of_nil in Hm|]. simpl in Hm.
      apply list_elem_of_singleton in Hm as ->. exists l. split; [by apply elem_of_cons; left|done]. }
    destruct Hwf as [_ Hb]. by eapply Hb, Hreg.
  - done.
  - intros t' p' Hne Ht'. split_and!; [by intros m ?%elem_of_nil|done|]. intros He. simpl in Ht'.
    destruct Hne. eapply (inv_exclusive _ Hinv t' t); eauto.
Qed.

Lemma retire_inv t lease leases s :
  inv s → lk_tasks s !! t = Some (Dropping [] (lease :: leases) false) →
  inv (set_task t (Dropping [] (lease :: leases) true) (retire lease s)).
Proof.
  intros Hinv Ht.
  assert (inv (set_task t (Dropping [] (lease :: leases) true) s)) as Hinv'.
  { eapply inv_shrink; [done..| |].
    - split_and!; try done. intros l Hl. simpl in *. by apply elem_of_cons; right.
    - pose proof (inv_task _ Hinv _ _ Ht) as [? _]. split; [done|]. split; [by intros m ?%elem_of_nil|done]. }
  unfold retire. destruct (_ && _) eqn:Hc; [|done]. apply andb_true_iff in Hc as [Hone Hreg].
  apply Nat.eqb_eq in Hone. apply bool_decide_eq_true in Hreg.
  split; simpl; [apply registry_wf_delete, Hinv| |..].
  - intros t' p' Ht'. by apply (inv_task _ Hinv' t' p').
  - intros t' p' l Ht' Hl. pose proof (inv_open _ Hinv' t' p' l Ht' Hl) as Hr.
    unfold registered in *. simpl in *. rewrite lookup_delete_ne; [done|]. intros He.
    assert (lease_lock l = lease_lock lease) as Hlock by congruence.
    apply lookup_insert_Some in Ht' as [[<- <-]|[Hne Ht']].
    + simpl in Hl. pose proof (strong_count_refs _ _ _ (lease_lock lease) Ht) as Hs. simpl in Hs.
      destruct (Nat.eq_dec _ _); [|done].
      assert (lease_lock lease ∈ lease_lock <$> leases) as Hin%elem_of_count
        by (rewrite <-Hlock; by apply list_elem_of_fmap_2). unfold fmap in Hin. lia.
    + pose proof (strong_count_two s t t' _ p' (lease_lock lease) Hne Ht Ht') as Htwo.
      assert (1 < strong_count s (lease_lock lease)); [|lia]. apply Htwo.
      * simpl. by apply elem_of_cons; left.
      * rewrite <-Hlock. by apply open_leases_refs.
  - intros t1 t2 p1 p2 m. apply (inv_mutex _ Hinv').
  - intros t1 t2 p1 p2. apply (inv_exclusive _ Hinv').
Qed.

Lemma acquire_inv t leases guards lease s :
  inv s → lk_tasks s !! t = Some (Locking leases guards) → leases !! length guards = Some lease →
  is_locked s (lease_lock lease) = false →
  inv (set_task t (Locking leases (guards ++ [lease_lock lease])) s).
Proof.
  intros Hinv Ht Hnext Hfree. pose proof (inv_task _ Hinv _ _ Ht) as [Hf [Hg Hs]].
  apply inv_set; [done| | |].
  - assert (guards ++ [lease_lock lease] = lease_lock <$> take (S (length guards)) leases) as Hg'.
    { rewrite (take_S_r _ _ lease) by done. by rewrite fmap_app, <-Hg. }
    split.
    + intros m Hm. apply Hf. cbn [lock_refs] in *. rewrite !elem_of_app in Hm. rewrite !elem_of_app.
      destruct Hm as [?|[[?|Hm]|Hm]]; [by left|by auto|left|left].
      * apply list_elem_of_singleton in Hm as ->. apply list_elem_of_fmap_2.
        by eapply list_elem_of_lookup_2.
      * destruct (leases !! length (guards ++ _)) as [l|] eqn:El; [|by apply elem_of_nil in Hm].
        simpl in Hm. apply list_elem_of_singleton in Hm as ->. apply list_elem_of_fmap_2.
        by eapply list_elem_of_lookup_2.
    + split; [|done]. rewrite length_app, Nat.add_comm. exact Hg'.
  - intros l Hl. by eapply (inv_open _ Hinv t).
  - intros t' p' Hne Ht'. split_and!; [|done|].
    + intros m [Hm|Hm%list_elem_of_singleton]%elem_of_app Hm'.
      * apply Hne. eapply (inv_mutex _ Hinv t' t); eauto.
      * subst m. apply not_true_iff_false in Hfree. apply Hfree, is_locked_spec. eauto.
    + intros He. destruct Hne. eapply (inv_exclusive _ Hinv t' t); eauto.
Qed.

Lemma dropping_wf fresh leases guards :
  task_wf fresh (Locking leases guards) → task_wf fresh (Dropping guards leases false).
Proof.
  intros [Hf [Hg _]]. split.
  - intros m Hm. apply Hf. cbn in *. rewrite !elem_of_app in *. tauto.
  - split; [|done]. intros m Hm. rewrite Hg in Hm. apply list_elem_of_fmap in Hm as (l & -> & Hl).
    apply list_elem_of_fmap_2. apply elem_of_take in Hl as (i & Hi & _). by eapply list_elem_of_lookup_2.
Qed.

Lemma start_dropping_inv t leases guards s :
  inv s → lk_tasks s !! t = Some (Locking leases guards) →
  inv (set_task t (Dropping guards leases false) s).
Proof.
  intros Hinv Ht. eapply inv_shrink; [done..|by split_and!|].
  by eapply dropping_wf, inv_task.
Qed.

Lemma drop_guard_inv t g guards leases retired s :
  inv s → lk_tasks s !! t = Some (Dropping (g :: guards) leases retired) →
  inv (set_task t (Dropping guards leases retired) s).
Proof.
  intros Hinv Ht. pose proof (inv_task _ Hinv _ _ Ht) as (Hf & Hg & Hr). eapply inv_shrink; [done..| |].
  - split_and!; try done. intros m ?. by apply elem_of_cons; right.
  - split; [|split].
    + intros m Hm. apply Hf. by apply elem_of_cons; right.
    + intros m Hm. apply Hg. by apply elem_of_cons; right.
    + intros He. by specialize (Hr He).
Qed.

Lemma drop_lease_inv t lease leases s :
  inv s → lk_tasks s !! t = Some (Dropping [] (lease :: leases) true) →
  inv (set_task t (Dropping [] leases false) s).
Proof.
  intros Hinv Ht. pose proof (inv_task _ Hinv _ _ Ht) as (Hf & _). eapply inv_shrink; [done..| |].
  - by split_and!.
  - split; [|by split; [intros m ?%elem_of_nil|]]. intros m Hm. apply Hf. by apply elem_of_cons; right.
Qed.

Lemma advance_inv t s s' : inv s → advance_task t s = Some s' → inv s'.
Proof.
  intros Hinv. unfold advance_task. destruct (lk_tasks s !! t) as [p|] eqn:Ht; [|done].
  destruct p as [keys|keys|leases guards|guards leases retired| |].
  - destruct (existsb _ _) eqn:He; [done|]. intros [= <-].
    apply inv_set; [done|split; [by intros m ?%elem_of_nil|done]|by intros l ?%elem_of_nil|].
    intros t' p' _ Ht'. split_and!; [by intros m ?%elem_of_nil|done|].
    intros H. by rewrite (existsb_tasks _ _ He _ _ Ht') in H.
  - intros [= <-]. by apply take_leases_inv.
  - destruct (leases !! length guards) as [lease|] eqn:Hn.
    + destruct (is_locked s _) eqn:Hl; [done|]. intros [= <-]. by apply acquire_inv.
    + intros [= <-]. by apply start_dropping_inv.
  - destruct guards as [|g guards]; [|intros [= <-]; by eapply drop_guard_inv].
    destruct leases as [|lease leases]; [intros [= <-]; by apply inv_end|].
    destruct retired; intros [= <-]; [by eapply drop_lease_inv|by apply retire_inv].
  - destruct (existsb _ _) eqn:He; [done|]. intros [= <-].
    apply inv_set; [done|split; [by intros m ?%elem_of_nil|done]|by intros l ?%elem_of_nil|].
    intros t' p' _ Ht'. pose proof (existsb_tasks _ _ He _ _ Ht') as Hb.
    split_and!; [by intros m ?%elem_of_nil|done|].
    intros H. unfold holds_barrier in Hb. by rewrite H, orb_true_r in Hb.
  - intros [= <-]. by apply inv_end.
Qed.

Lemma cancel_inv t s s' : inv s → cancel_task t s = Some s' → inv s'.
Proof.
  intros Hinv. unfold cancel_task. destruct (lk_tasks s !! t) as [p|] eqn:Ht; [|done].
  destruct p as [keys|keys|leases guards|guards leases retired| |]; try done;
    try (intros [= <-]; by apply inv_end).
  destruct (is_some _); [|done]. intros [= <-]. by apply start_dropping_inv.
Qed.

Lemma request_inv t r s : inv s → inv (set_task t (request_task r) s).
Proof.
  intros Hinv. apply inv_set; [done| | |].
  - split; [|by destruct r]. by destruct r; intros m ?%elem_of_nil.
  - by destruct r; intros l ?%elem_of_nil.
  - intros t' p' _ _. destruct r; (split_and!; [by intros m ?%elem_of_nil|done|done]).
Qed.

Lemma reachable_inv s : rtc lock_step no_tasks s → inv s.
Proof.
  intros H. cut (inv no_tasks → inv s); [auto using inv_no_tasks|].
  induction H as [|s1 s2 s3 Hstep _ IH]; [done|]. intros Hinv. apply IH.
  destruct Hstep as [t r _|s2 [t Ha|t Hc]];
    eauto using request_inv, advance_inv, cancel_inv.
Qed.

(** * Progress *)

(** The key of the mutex a task waits for or is about to lock. *)
Definition next_key (p : task) : option ResourceKey :=
  match p with Locking leases guards => lease_key <$> leases !! length guards | _ => None end.

Definition waiting_keys (s : lock_state) : list ResourceKey := omap next_key (all_tasks s).

Lemma filter_shorter {A} (f g : A → bool) l x :
  (∀ y, g y = true → f y = true) → x ∈ l → f x = true → g x = false →
  length (List.filter g l) < length (List.filter f l).
Proof.
  intros Hgf Hx Hf Hg. induction l as [|y l IH]; [by apply elem_of_nil in Hx|].
  assert (length (List.filter g l) ≤ length (List.filter f l)) as Hle.
  { clear -Hgf. induction l as [|z l IH]; [done|]. simpl. destruct (g z) eqn:E; [rewrite Hgf by done|];
      simpl; [lia|]. destruct (f z); simpl; lia. }
  simpl. apply elem_of_cons in Hx as [<-|Hx].
  - rewrite Hf, Hg. simpl. lia.
  - specialize (IH Hx). destruct (g y) eqn:E; [rewrite Hgf by done|destruct (f y)]; simpl; lia.
Qed.

(** The mutex a lease names was locked under the same key. *)
Lemma locked_key t' lease leases' guards' s :
  inv s → registered (lk_resources s) lease →
  lk_tasks s !! t' = Some (Locking leases' guards') → lease_lock lease ∈ guards' →
  lease_key lease ∈ lease_key <$> take (length guards') leases'.
Proof.
  intros Hinv Hr Ht' Hm. pose proof (inv_task _ Hinv _ _ Ht') as (_ & Hg' & _).
  assert (lease_lock lease ∈ lease_lock <$> take (length guards') leases') as Hin by (by rewrite <-Hg').
  apply list_elem_of_fmap in Hin as (l & Hl & Hin). apply list_elem_of_fmap. exists l. split; [|done].
  apply elem_of_take in Hin as (i & Hi & _). apply list_elem_of_lookup_2 in Hi.
  pose proof (inv_open _ Hinv _ _ l Ht' Hi) as H2. unfold registered in *.
  destruct (inv_registry _ Hinv) as [Hinj _]. eapply Hinj; [exact Hr|congruence].
Qed.

(** The keys a task holds come before the one it waits for. *)
Lemma held_before n leases lease k :
  StronglySorted key_lt (lease_key <$> leases) → leases !! n = Some lease →
  k ∈ lease_key <$> take n leases → key_lt k (lease_key lease).
Proof.
  intros Hs Hn Hk. rewrite <-(take_drop n leases), fmap_app in Hs.
  eapply StronglySorted_app_1_elem_of; [exact Hs|exact Hk|]. apply list_elem_of_fmap_2.
  apply (list_elem_of_lookup_2 _ 0). by rewrite lookup_drop, Nat.add_0_r.
Qed.

Lemma key_lt_trans a b c : key_lt a b → key_lt b c → key_lt a c.
Proof. intros Hab [Hbc _]. by eapply key_lt_le_trans. Qed.

Definition can_advance (s : lock_state) : Prop :=
  ∃ t p s', lk_tasks s !! t = Some p ∧ holds_barrier p = true ∧ advance_task t s = Some s'.

Lemma unlocked_advances s t p :
  lk_tasks s !! t = Some p → holds_barrier p = true → next_key p = None → can_advance s.
Proof.
  intros Ht Hb Hn. exists t, p. unfold advance_task. rewrite Ht.
  destruct p as [keys|keys|leases guards|[|g guards] [|lease leases] []| |]; try done;
    try by eexists. simpl in Hn. destruct (leases !! length guards); [done|by eexists].
Qed.

(** Keys a task waits for, after [k]. *)
Definition keys_after (s : lock_state) (k : ResourceKey) : nat :=
  length (List.filter (λ k', bool_decide (key_lt k k')) (waiting_keys s)).

Lemma keys_after_lt s k k' : key_lt k k' → k' ∈ waiting_keys s → keys_after s k' < keys_after s k.
Proof.
  intros Hlt Hk'. unfold keys_after. apply (filter_shorter _ _ _ k'); [|done| |].
  - intros y ?%bool_decide_eq_true. apply bool_decide_eq_true. by eapply key_lt_trans.
  - by apply bool_decide_eq_true.
  - apply bool_decide_eq_false. by intros [_ ?].
Qed.

(** A task that waits for a mutex can lock it, or someone who holds a later key, or
    is done with its keys, can go on. *)
Lemma locking_advances s : inv s → ∀ n t p k,
  lk_tasks s !! t = Some p → next_key p = Some k → keys_after s k < n → can_advance s.
Proof.
  intros Hinv n. induction n as [|n IH]; intros t p k Ht Hk Hn; [lia|].
  destruct p as [| |leases guards| | |]; try done. simpl in Hk.
  destruct (leases !! length guards) as [lease|] eqn:Hnext; [|done]. injection Hk as <-.
  destruct (is_locked s (lease_lock lease)) eqn:Hl.
  - apply is_locked_spec in Hl as (t' & p' & Ht' & Hm).
    destruct (next_key p') as [k'|] eqn:Hk'.
    + apply (IH t' p' k'); [done|done|]. destruct p' as [| |leases' guards'| | |]; try done.
      cbn in Hk', Hm. destruct (leases' !! length guards') as [lease'|] eqn:Hnext'; [|done].
      injection Hk' as <-. pose proof (inv_task _ Hinv _ _ Ht') as (_ & _ & Hs).
      apply (Nat.lt_le_trans _ (keys_after s (lease_key lease))); [apply keys_after_lt|lia].
      * eapply held_before; [exact Hs|exact Hnext'|].
        eapply (locked_key t'); [done|eapply (inv_open _ Hinv t); [exact Ht|]|done|done].
        by eapply list_elem_of_lookup_2.
      * apply list_elem_of_omap. exists (Locking leases' guards'). split; [|by cbn; rewrite Hnext'].
        apply elem_of_all_tasks. eauto.
    + eapply unlocked_advances; [exact Ht'| |exact Hk']. destruct p'; try done; by apply elem_of_nil in Hm.
  - eexists t, _, _. split; [exact Ht|]. split; [done|]. unfold advance_task. by rewrite Ht, Hnext, Hl.
Qed.

Lemma barrier_holder_advances s t p :
  inv s → lk_tasks s !! t = Some p → holds_barrier p = true → can_advance s.
Proof.
  intros Hinv Ht Hb. destruct (next_key p) as [k|] eqn:Hk; [|by eapply unlocked_advances].
  eapply locking_advances; eauto.
Qed.

Lemma some_task_advances s :
  inv s → lk_tasks s ≠ ∅ → ∃ t s', advance_task t s = Some s'.
Proof.
  intros Hinv Hne. destruct (existsb holds_barrier (all_tasks s)) eqn:Hb.
  - apply existsb_elem in Hb as (p & (t & Ht)%elem_of_all_tasks & Hp).
    destruct (barrier_holder_advances s t p Hinv Ht Hp) as (t' & p' & s' & _ & _ & ?). eauto.
  - apply map_choose in Hne as (t & p & Ht). exists t. unfold advance_task. rewrite Ht.
    assert (existsb holds_exclusive (all_tasks s) = false) as He.
    { apply existsb_false. intros q Hq. eapply existsb_false in Hb; [|exact Hq].
      unfold holds_barrier in Hb. by apply orb_false_iff in Hb as [_ ?]. }
    pose proof (existsb_tasks _ _ Hb _ _ Ht) as Hp.
    destruct p; try done; rewrite ?He, ?Hb; by eexists.
Qed.

(** * Termination *)

(** Steps a task can still make. *)
Definition task_cost (p : task) : nat :=
  match p with
  | WaitShared keys => 4 + 4 * length keys
  | HasBarrier keys => 3 + 4 * length keys
  | Locking leases guards =>
      2 + length guards + 2 * length leases + 2 * (length leases - length guards)
  | Dropping guards leases retired =>
      1 + length guards + (2 * length leases - if retired then 1 else 0)
  | WaitExclusive => 2
  | HasExclusive => 1
  end.

Definition cost (s : lock_state) : nat := sum_list_with task_cost (all_tasks s).

Lemma cost_split s t p :
  lk_tasks s !! t = Some p →
  cost s = task_cost p + sum_list_with task_cost (map_to_list (delete t (lk_tasks s))).*2.
Proof. intros H. unfold cost. by rewrite (all_tasks_split _ _ _ H). Qed.

Lemma cost_set s t p p' :
  lk_tasks s !! t = Some p → task_cost p' < task_cost p → cost (set_task t p' s) < cost s.
Proof.
  intros H Hlt. rewrite (cost_split _ _ _ H), (cost_split (set_task t p' s) t p')
    by (apply lookup_insert_eq). simpl. rewrite delete_insert_eq. lia.
Qed.

Lemma cost_end s t p : lk_tasks s !! t = Some p → cost (end_task t s) < cost s.
Proof.
  intros H. rewrite (cost_split _ _ _ H). unfold cost, all_tasks. simpl.
  assert (0 < task_cost p) by (destruct p; simpl; lia). lia.
Qed.

Lemma take_leases_spec t keys s : inv s →
  ∃ leases resources fresh, take_leases t keys s =
    set_task t (Locking leases []) (s <| lk_resources := resources |> <| lk_fresh := fresh |>) ∧
    lease_key <$> leases = lock_order keys.
Proof.
  intros Hinv. unfold take_leases.
  destruct (lease_all _ _ _ _) as [[leases resources] fresh] eqn:Hall.
  apply lease_all_spec in Hall as (Hkeys & _); [|by apply inv_registry]. by eexists _, _, _.
Qed.

Lemma advance_cost t s s' : inv s → advance_task t s = Some s' → cost s' < cost s.
Proof.
  intros Hinv. unfold advance_task. destruct (lk_tasks s !! t) as [p|] eqn:Ht; [|done].
  destruct p as [keys|keys|leases guards|guards leases retired| |].
  - destruct (existsb _ _); [done|]. intros [= <-]. eapply cost_set; [exact Ht|simpl; lia].
  - intros [= <-]. destruct (take_leases_spec t keys s Hinv) as (leases & r & f & -> & Hkeys).
    assert (length leases ≤ length keys) as Hlen.
    { rewrite <-(length_fmap lease_key), Hkeys. apply lock_order_length. }
    change (cost s) with (cost (s <| lk_resources := r |> <| lk_fresh := f |>)).
    eapply cost_set; [exact Ht|]. simpl. lia.
  - destruct (leases !! length guards) as [lease|] eqn:Hn.
    + apply lookup_lt_Some in Hn. destruct (is_locked s _); [done|]. intros [= <-].
      eapply cost_set; [exact Ht|]. simpl. rewrite length_app. simpl. lia.
    + intros [= <-]. eapply cost_set; [exact Ht|]. simpl. lia.
  - destruct guards as [|g guards]; [|intros [= <-]; eapply cost_set; [exact Ht|simpl; lia]].
    destruct leases as [|lease leases]; [intros [= <-]; by eapply cost_end|].
    destruct retired; intros [= <-]; [eapply cost_set; [exact Ht|simpl; lia]|].
    change (cost s) with (cost (s <| lk_resources := lk_resources (retire lease s) |>)).
    assert (retire lease s = s <| lk_resources := lk_resources (retire lease s) |>) as ->
      by (unfold retire; destruct (_ && _); by destruct s).
    eapply cost_set; [exact Ht|]. simpl. lia.
  - destruct (existsb _ _); [done|]. intros [= <-]. eapply cost_set; [exact Ht|simpl; lia].
  - intros [= <-]. by eapply cost_end.
Qed.

Lemma cancel_cost t s s' : cancel_task t s = Some s' → cost s' < cost s.
Proof.
  unfold cancel_task. destruct (lk_tasks s !! t) as [p|] eqn:Ht; [|done].
  destruct p as [keys|keys|leases guards|guards leases retired| |]; try done;
    try (intros [= <-]; by eapply cost_end).
  destruct (is_some _); [|done]. intros [= <-]. eapply cost_set; [exact Ht|]. simpl. lia.
Qed.

Lemma quiet_step_inv s s' : inv s → quiet_step s s' → inv s' ∧ cost s' < cost s.
Proof.
  intros Hinv [t Ha|t Hc]; eauto using advance_inv, advance_cost, cancel_inv, cancel_cost.
Qed.

(** * Theorems *)

(** The task has locked the mutex of the key. *)
Definition holds (s : lock_state) (t : nat) (key : ResourceKey) : Prop :=
  ∃ leases guards, lk_tasks s !! t = Some (Locking leases guards) ∧
    key ∈ lease_key <$> take (length guards) leases.

(** The task has the guard it asked for, for these keys, and works. *)
Definition working (s : lock_state) (t : nat) (keys : list ResourceKey) : Prop :=
  ∃ leases guards, lk_tasks s !! t = Some (Locking leases guards) ∧
    leases !! length guards = None ∧ keys = lease_key <$> leases.

Definition exclusive (s : lock_state) (t : nat) : Prop := lk_tasks s !! t = Some HasExclusive.

Lemma working_holds s t keys key : working s t keys → key ∈ keys → holds s t key.
Proof.
  intros (leases & guards & Ht & Hn & ->) Hk. exists leases, guards. split; [done|].
  apply lookup_ge_None in Hn. by rewrite take_ge.
Qed.

(** C22: In every interleaving of guarded mutations, cancellations included, two
    mutations that work at the same time hold different resources: scoped guards
    on a common apparatus, roll, material or mould exclude each other although
    the registry holds its mutexes weakly, and the exclusive guard excludes
    every other. *)
Theorem scoped_guards_exclude s :
  rtc lock_step no_tasks s →
  (∀ t t' key, holds s t key → holds s t' key → t = t') ∧
  (∀ t t' keys key, working s t keys → key ∈ keys → holds s t' key → t = t') ∧
  (∀ t t' p, exclusive s t → lk_tasks s !! t' = Some p → holds_barrier p = true → t = t') ∧
  (∀ t keys s', lk_tasks s !! t = Some (HasBarrier keys) → advance_task t s = Some s' →
     ∃ leases, lk_tasks s' !! t = Some (Locking leases []) ∧
       ∀ key, key ∈ lease_key <$> leases ↔ key ∈ keys).
Proof.
  intros Hinv%reachable_inv.
  assert (∀ t t' key, holds s t key → holds s t' key → t = t') as Hex.
  { intros t t' key (leases & guards & Ht & Hk) (leases' & guards' & Ht' & Hk').
    apply list_elem_of_fmap in Hk as (l & -> & Hl), Hk' as (l' & He & Hl').
    pose proof (inv_task _ Hinv _ _ Ht) as (_ & Hg & _).
    pose proof (inv_task _ Hinv _ _ Ht') as (_ & Hg' & _).
    assert (lease_lock l = lease_lock l') as Hlock.
    { apply elem_of_take in Hl as (i & Hi%list_elem_of_lookup_2 & _),
        Hl' as (i' & Hi'%list_elem_of_lookup_2 & _).
      pose proof (inv_open _ Hinv _ _ l Ht Hi) as H1. pose proof (inv_open _ Hinv _ _ l' Ht' Hi') as H2.
      unfold registered in *. congruence. }
    apply (inv_mutex _ Hinv t t' _ _ (lease_lock l) Ht Ht'); cbn [locked_by].
    - rewrite Hg. by apply list_elem_of_fmap_2.
    - rewrite Hg', Hlock. by apply list_elem_of_fmap_2. }
  split_and!; [done| | |].
  - intros t t' keys key Hw Hk. apply (Hex t t' key). by eapply working_holds.
  - intros t t' p Ht Ht' Hb. by eapply (inv_exclusive _ Hinv t t').
  - intros t keys s' Ht Ha. unfold advance_task in Ha. rewrite Ht in Ha. injection Ha as <-.
    destruct (take_leases_spec t keys s Hinv) as (leases & r & f & -> & Hkeys).
    exists leases. split; [apply lookup_insert_eq|]. intros key. rewrite Hkeys.
    apply elem_of_lock_order.
Qed.

(** C23: Guards never deadlock: as long as a task is left some task can take its
    next section, and without new requests the tasks there are come to an end
    after a bounded number of sections, whatever sets of resources they ask for.
    *)
Theorem guards_never_deadlock s n s' :
  rtc lock_step no_tasks s → nsteps quiet_step n s s' →
  n ≤ cost s ∧
  (lk_tasks s' ≠ ∅ → ∃ t s'', advance_task t s' = Some s'') ∧
  (∀ t p, lk_tasks s' !! t = Some p → holds_barrier p = true → can_advance s').
Proof.
  intros Hinv%reachable_inv Hn.
  assert (inv s' ∧ n + cost s' ≤ cost s) as [Hinv' Hcost].
  { induction Hn as [s|n s s1 s' Hstep _ IH]; [done|].
    apply quiet_step_inv in Hstep as [Hinv1 Hlt]; [|done]. destruct (IH Hinv1) as [? ?].
    split; [done|lia]. }
  split_and!; [lia|by apply some_task_advances|].
  intros t p Ht Hb. by eapply barrier_holder_advances.
Qed.

(** * What the registry does not keep *)

Fixpoint run_locks (steps : list (bool * nat)) (s : lock_state) : option lock_state :=
  match steps with
  | [] => Some s
  | (go, t) :: steps =>
      match (if go : bool then advance_task t s else cancel_task t s) with
      | Some s' => run_locks steps s'
      | None => None
      end
  end.

Lemma run_locks_steps steps s s' :
  run_locks steps s = Some s' → nsteps quiet_step (length steps) s s'.
Proof.
  revert s. induction steps as [|[go t] steps IH]; intros s; simpl; [intros [= <-]; constructor|].
  destruct (if go then _ else _) as [s1|] eqn:Hs; [|done]. intros H. econstructor; [|by apply IH].
  destruct go; [by eapply QuietAdvance|by eapply QuietCancel].
Qed.

Lemma quiet_steps_reachable s s' : rtc quiet_step s s' → rtc lock_step s s'.
Proof. apply rtc_congruence with (f := id). intros. by apply LockQuiet. Qed.

Lemma run_locks_reachable s steps s' :
  rtc lock_step no_tasks s → run_locks steps s = Some s' → rtc lock_step no_tasks s'.
Proof.
  intros Hr Hs%run_locks_steps. etrans; [exact Hr|]. apply quiet_steps_reachable, rtc_nsteps. eauto.
Qed.

(** Two tasks for one resource, the second cancelled while it waits. *)
Definition two_requests : lock_state :=
  set_task 1 (WaitShared [("wip", "roll-1")]) (set_task 0 (WaitShared [("wip", "roll-1")]) no_tasks).

Lemma two_requests_reachable : rtc lock_step no_tasks two_requests.
Proof.
  eapply rtc_l; [by apply (LockRequest _ 0 (Scoped [("wip", "roll-1")]))|].
  by apply rtc_once, (LockRequest _ 1 (Scoped [("wip", "roll-1")])).
Qed.

(** Each lease is checked while the other still holds its clone. *)
Definition interleaved_drops : list (bool * nat) :=
  [(true, 0); (true, 0); (true, 1); (true, 1); (true, 0); (true, 0); (true, 0); (false, 1);
   (true, 0); (true, 1); (true, 0); (true, 1); (true, 0); (true, 1)].
Definition after_drops : lock_state := default no_tasks (run_locks interleaved_drops two_requests).

(** Neither drop removes the entry: it stays when all tasks have ended. *)
Lemma concurrent_drops_leak :
  rtc lock_step no_tasks after_drops ∧ map_to_list (lk_tasks after_drops) = [] ∧
  lk_resources after_drops !! ("wip", "roll-1") = Some 0.
Proof.
  split_and!; [|by vm_compute..].
  assert (is_some (run_locks interleaved_drops two_requests) = true) as Hrun by (by vm_compute).
  unfold after_drops. destruct (run_locks interleaved_drops two_requests) as [s|] eqn:Hs; [|done].
  eapply run_locks_reachable; [apply two_requests_reachable|exact Hs].
Qed.

(** * Witnesses *)

(** The first task works, the second waits for the same roll. *)
Definition first_works : lock_state :=
  default no_tasks (run_locks (take 5 interleaved_drops) two_requests).

Lemma scoped_guards_exclude_witness :
  working first_works 0 [("wip", "roll-1")] ∧ ¬ holds first_works 1 ("wip", "roll-1").
Proof.
  assert (working first_works 0 [("wip", "roll-1")]) as Hw.
  { exists [{| lease_key := ("wip", "roll-1"); lease_lock := 0 |}], [0]. split_and!; by vm_compute. }
  split; [exact Hw|]. intros Hh.
  assert (rtc lock_step no_tasks first_works) as Hr.
  { assert (is_some (run_locks (take 5 interleaved_drops) two_requests) = true) as Hrun by (by vm_compute).
    unfold first_works.
    destruct (run_locks (take 5 interleaved_drops) two_requests) as [s|] eqn:Hs; [|discriminate Hrun].
    eapply run_locks_reachable; [apply two_requests_reachable|exact Hs]. }
  destruct (scoped_guards_exclude first_works Hr) as (_ & Hex & _).
  assert (0 = 1) as H01; [|discriminate H01].
  apply (Hex 0 1 [("wip", "roll-1")] ("wip", "roll-1")); [exact Hw|by apply list_elem_of_singleton|exact Hh].
Defined.

Lemma guards_never_deadlock_witness :
  5 ≤ cost two_requests ∧ (lk_tasks first_works ≠ ∅ → ∃ t s'', advance_task t first_works = Some s'').
Proof.
  destruct (guards_never_deadlock two_requests 5 first_works) as (H1 & H2 & _);
    [exact two_requests_reachable| |exact (conj H1 H2)].
  assert (is_some (run_locks (take 5 interleaved_drops) two_requests) = true) as Hrun by (by vm_compute).
  unfold first_works.
  destruct (run_locks (take 5 interleaved_drops) two_requests) as [s|] eqn:Hs; [|discriminate Hrun].
  exact (run_locks_steps (take 5 interleaved_drops) two_requests s Hs).
Defined.
