(* ===== verification/Warehouse.v ===== *)
(** Rolls received into a warehouse.

    Models [src/core/production_map/wip/warehouse.rs], [memory_store/warehouse_wip.rs],
    [receive_finished_goods] of [wip/service.rs] and the finished-goods part of
    [queue/support.rs].  A receipt reads the roll, then commits against the store, which other
    servers may have changed in between: the two stores are separate arguments.  The digest of
    a snapshot (SHA-256 of its JSON) is a parameter. *)
From S2P Require Import Prelude RustStr F64 Json Errors Identity QueueState OrderLayout MapDefinition Formula Compiler Bfs Chain Projection Scheduler Progress WipRoute Lifecycle StageExecution OrderRefresh OrderStore Preflight Epc CutLayout Paddon Metrics Lineage RunStore.

(** * Derived equality *)

Definition opt_eqb {A} (f : A → A → bool) (a b : option A) : bool :=
  match a, b with
  | Some a, Some b => f a b
  | None, None => true
  | _, _ => false
  end.

Fixpoint list_eqb {A} (f : A → A → bool) (a b : list A) : bool :=
  match a, b with
  | [], [] => true
  | x :: a, y :: b => f x y && list_eqb f a b
  | _, _ => false
  end.

Definition decide_eqb {A} `{EqDecision A} (a b : A) : bool := bool_decide (a = b).

#[global] Instance ComboReference_eq_dec : EqDecision ComboReference.
Proof. solve_decision. Defined.
#[global] Instance ProductionFormula_eq_dec : EqDecision ProductionFormula.
Proof. solve_decision. Defined.
#[global] Instance ProductionMapEdge_eq_dec : EqDecision ProductionMapEdge.
Proof. solve_decision. Defined.
#[global] Instance StatusDetail_eq_dec : EqDecision OrderProgressBatchStatusDetail.
Proof. solve_decision. Defined.

Definition product_eqb (a b : OrderProduct) : bool :=
  decide_eqb (product_id a, product_item_code a, product_product a, product_frame_count a)
             (product_id b, product_item_code b, product_product b, product_frame_count b) &&
  f64_eq (frame_product_size_mm a) (frame_product_size_mm b).

(** The fields of a node compared exactly. *)
Definition node_key (n : ProductionMapNode) :=
  (node_id n, node_kind n, node_title n, node_apparatus_id n, node_formula n, node_role_code n,
   node_item_code n, node_qty_formula n, node_from_location n, node_to_location n,
   (alternative_group_id n, alternative_group_label n, alternative_assigned_title n,
    alternative_assigned_apparatus_id n, rezka_kadr_count n, rezka_frame_groups n)).

Definition node_eqb (a b : ProductionMapNode) : bool :=
  decide_eqb (node_key a) (node_key b) && opt_eqb f64_eq (rezka_label_length a) (rezka_label_length b) &&
  f64_eq (node_x a) (node_x b) && f64_eq (node_y a) (node_y b).

Definition map_key (m : ProductionMapDefinition) :=
  (map_combo m, map_id m, map_product_code m, map_title m, map_code m, map_order_number m,
   map_customer_name m, map_image_id m, map_roll_count m,
   (map_duplicate_rezka_labels m, map_include_bobina_in_net m, map_standard_print_side m, map_edges m)).

Definition map_eqb (a b : ProductionMapDefinition) : bool :=
  decide_eqb (map_key a) (map_key b) && list_eqb product_eqb (map_products a) (map_products b) &&
  opt_eqb f64_eq (map_width_mm a) (map_width_mm b) &&
  opt_eqb f64_eq (map_print_val_size_mm a) (map_print_val_size_mm b) &&
  opt_eqb f64_eq (map_order_kg a) (map_order_kg b) &&
  opt_eqb f64_eq (map_base_length a) (map_base_length b) &&
  list_eqb node_eqb (map_nodes a) (map_nodes b).

Section batch_eqb.
Context `{J : Json}.

Definition batch_key (b : OrderProgressBatch) :=
  (batch_id b, batch_revision b, batch_session_id b, batch_started_at_unix b, batch_completed_at_unix b,
   batch_apparatus b, batch_order_id b, batch_action b, batch_status b, batch_uom b,
   (batch_qr_payload b, batch_label_item_code b, batch_label_item_name b, batch_executor_name b,
    batch_worker_role b, batch_worker_ref b, batch_worker_display_name b, batch_wip_status b,
    batch_status_detail b,
    (batch_current_apparatus b, batch_current_location b, batch_next_apparatus b, batch_parent_batch_id b,
     batch_used_by_session_id b, batch_used_by_apparatus b, batch_processed_by_session_id b,
     batch_processed_by_apparatus b, batch_description b))).

Definition batch_metrics (b : OrderProgressBatch) : list (option f64) :=
  [batch_return_ink_kg b; batch_lamination_print_leftover_rolls b; batch_lamination_film_leftover_rolls b;
   batch_rezka_bosma_waste b; batch_rezka_lamination_waste b; batch_rezka_edge_waste b; batch_total_waste b;
   batch_finished_goods_kg b; batch_bobina_kg b; batch_finished_goods_meter b; batch_diameter b].

Definition batch_eqb (a b : OrderProgressBatch) : bool :=
  decide_eqb (batch_key a) (batch_key b) && f64_eq (batch_produced_qty a) (batch_produced_qty b) &&
  list_eqb (opt_eqb f64_eq) (batch_metrics a) (batch_metrics b) &&
  json_eqb (batch_payload_json a) (batch_payload_json b).
End batch_eqb.

(** * Finished goods (queue/support.rs) *)

Section receipts.
Context `{J : Json} `{C : !RouteCodec} `{R : !ReportCodec} `{!Serde (list OrderLane)}.
Context `{!Serde (list OrderRunInputLink)} `{!Serde (list RezkaActivePartialRoll)}.
Context `{!Serde (list ProgressBatchInputLink)} `{!Serde ProductionQrSessionResources}.

Definition positive_qty (qty : option f64) : option f64 :=
  q ← qty; if f64_lt f64_zero q then Some q else None.

Definition finished_goods_qty_uom (batch : OrderProgressBatch) : pm_result (f64 * string) :=
  match positive_qty (batch_finished_goods_kg batch), positive_qty (batch_finished_goods_meter batch) with
  | Some qty, _ => Ok (qty, "kg")
  | None, Some qty => Ok (qty, "m")
  | None, None =>
      if f64_lt f64_zero (batch_produced_qty batch) && negb (blank (batch_uom batch))
      then Ok (batch_produced_qty batch, trim (batch_uom batch)) else Err ProgressInputInvalid
  end.

Definition trimmed_actor (actor : QueueActionActor) : QueueActionActor :=
  {| actor_role := trim (actor_role actor); actor_ref := trim (actor_ref actor);
     actor_display_name := trim (actor_display_name actor) |}.

Definition json_or_null (v : option value) : value := default json_null v.

Definition finished_goods_stock_payload (batch : OrderProgressBatch) (warehouse item_code item_name : string)
    (actor : QueueActionActor) (now : Z) : value :=
  json_object
    [("source", json_str "production_finished_goods_receipt");
     ("product_id", json_or_null (json_get "product_id" (batch_payload_json batch)));
     ("product_order_number", json_or_null (json_get "product_order_number" (batch_payload_json batch)));
     ("layout_lanes", json_or_null (json_get "layout_lanes" (batch_payload_json batch)));
     ("progress_batch_id", json_str (trim (batch_id batch)));
     ("qr_payload", json_str (trim (batch_qr_payload batch)));
     ("warehouse", json_str warehouse);
     ("order_id", json_str (trim (batch_order_id batch)));
     ("item_code", json_str (trim item_code));
     ("item_name", json_str (trim item_name));
     ("accepted_by_role", json_str (trim (actor_role actor)));
     ("accepted_by_ref", json_str (trim (actor_ref actor)));
     ("accepted_by_display_name", json_str (trim (actor_display_name actor)));
     ("accepted_at_unix", json_Z now)].

Definition stock_id_of (batch : OrderProgressBatch) : string := "finished:" +:+ trim (batch_id batch).

Definition finished_goods_stock_entry (batch : OrderProgressBatch) (warehouse item_code item_name : string)
    (actor : QueueActionActor) (qty : f64) (uom : string) (now : Z) : FinishedGoodsStockEntry := {|
  stock_id := stock_id_of batch;
  stock_warehouse := warehouse;
  stock_order_id := trim (batch_order_id batch);
  stock_item_code := trim item_code;
  stock_item_name := trim item_name;
  stock_qty := qty;
  stock_uom := uom;
  stock_entry_status := "available";
  stock_barcode := trim (batch_qr_payload batch);
  stock_source_progress_batch_id := trim (batch_id batch);
  stock_accepted_by := trimmed_actor actor;
  stock_accepted_at_unix := now;
  stock_payload_json := finished_goods_stock_payload batch warehouse item_code item_name actor now |}.

Definition received_fields (id warehouse : string) (actor : QueueActionActor) (now : Z)
  : list (string * value) :=
  [("received_warehouse", json_str warehouse);
   ("received_by_role", json_str (trim (actor_role actor)));
   ("received_by_ref", json_str (trim (actor_ref actor)));
   ("received_by_display_name", json_str (trim (actor_display_name actor)));
   ("received_at_unix", json_Z now);
   ("finished_goods_stock_id", json_str id)].

Definition mark_finished_goods_batch_received (stock : FinishedGoodsStockEntry) (warehouse : string)
    (actor : QueueActionActor) (now : Z) (batch : OrderProgressBatch) : run_result OrderProgressBatch :=
  let batch := batch <| batch_wip_status := WipStatus.Processed |>
                     <| batch_current_location := warehouse |>
                     <| batch_processed_by_session_id := stock_id stock |>
                     <| batch_processed_by_apparatus := "warehouse:" +:+ warehouse |> in
  batch ← set_payloads (received_fields (stock_id stock) warehouse actor now) batch;
  Ok (refresh_status_detail batch).

(** * Receipts without a snapshot (wip/service.rs) *)

Definition raw_map (id : string) (s : order_store) : option ProductionMapDefinition :=
  map_by_id (to_ascii_lowercase (trim id)) s.

Definition progress_batch_for_qr (batch_id_ qr_payload : string) (s : order_store)
  : run_result OrderProgressBatch :=
  let id := trim batch_id_ in
  let qr := trim qr_payload in
  found ← lift
    (if negb (is_empty id) then
       match progress_batch id s with
       | Some b => _ ← check (negb (is_empty qr) && negb (eq_ignore_ascii_case (trim (batch_qr_payload b)) qr))
                         ProgressBatchNotFound; Ok (Some b)
       | None => Ok None
       end
     else if negb (is_empty qr) then Ok (progress_batch_by_qr qr s)
     else Err ProgressInputInvalid);
  batch ← lift (ok_or found ProgressBatchNotFound);
  '(batch, _) ← restore_self_consumed_wip batch;
  Ok (refresh_status_detail batch).

Definition receives_goods (actor : QueueActionActor) : bool :=
  let role := to_ascii_lowercase (trim (actor_role actor)) in (role =s "werka") || (role =s "omborchi").

Definition is_final_roll (map : ProductionMapDefinition) (batch : OrderProgressBatch) : bool :=
  let stage := trim (default "" (payload_str (batch_payload_json batch) "stage_node_id")) in
  if is_empty stage then is_final_work_stage_station map (batch_apparatus batch)
  else is_final_work_stage_node map stage.

(** The roll and the stock entry to store. *)
Definition finished_goods_write (batch_id_ qr_payload warehouse : string) (actor : QueueActionActor) (now : Z)
    (s : order_store) : run_result (OrderProgressBatch * FinishedGoodsStockEntry) :=
  let warehouse := trim warehouse in
  _ ← lift (check (is_empty warehouse) ProgressInputInvalid);
  _ ← lift (check (negb (receives_goods actor)) QueueActionNotAllowed);
  batch ← progress_batch_for_qr batch_id_ qr_payload s;
  map ← lift (ok_or (raw_map (batch_order_id batch) s) MapNotFound);
  _ ← lift (check (negb (is_finished_goods_output batch) || negb (is_final_roll map batch) ||
                   negb (WipStatus.eqb (batch_wip_status batch) WipStatus.Waiting)) ProgressBatchNotAccepted);
  '(code, name) ← lift (finished_product map batch);
  _ ← lift (check (blank code) ProgressInputInvalid);
  let name := if blank name then batch_label_item_name batch else name in
  '(qty, uom) ← lift (finished_goods_qty_uom batch);
  let stock := finished_goods_stock_entry batch warehouse (trim code) (trim name) actor qty uom now in
  batch ← mark_finished_goods_batch_received stock warehouse actor now batch;
  Ok (batch, stock).

Definition receive_finished_goods (batch_id_ qr_payload warehouse : string) (actor : QueueActionActor) (now : Z)
    (s : run_store) : run_store * run_result (OrderProgressBatch * FinishedGoodsStockEntry) :=
  match finished_goods_write batch_id_ qr_payload warehouse actor now (os_orders s) with
  | Err e => (s, Err e)
  | Ok (batch, stock) =>
      let '(s, r) := receive_finished_goods_batch batch stock s in
      (s, (λ _, (batch, stock)) <$> r)
  end.

(** * Receipts of a confirmed snapshot (wip/warehouse.rs) *)

Record WarehouseWipSnapshot := {
  ws_batch : OrderProgressBatch;
  ws_order : option ProductionMapDefinition;
  ws_order_receiving_allowed : bool;
  ws_apparatus_active : bool;
  ws_paddon_code : option string;
  ws_qr_is_paddon : bool;
}.

Record WarehouseWipReceipt := {
  receipt_warehouse : string;
  receipt_accepted_by_display_name : string;
  receipt_accepted_at_unix : Z;
}.

Record WarehouseWipReceiveWrite := {
  write_expected : WarehouseWipSnapshot;
  write_batch : OrderProgressBatch;
  write_stock : FinishedGoodsStockEntry;
}.

Definition snapshot_eqb (a b : WarehouseWipSnapshot) : bool :=
  batch_eqb (ws_batch a) (ws_batch b) && opt_eqb map_eqb (ws_order a) (ws_order b) &&
  Bool.eqb (ws_order_receiving_allowed a) (ws_order_receiving_allowed b) &&
  Bool.eqb (ws_apparatus_active a) (ws_apparatus_active b) &&
  decide_eqb (ws_paddon_code a) (ws_paddon_code b) && Bool.eqb (ws_qr_is_paddon a) (ws_qr_is_paddon b).

(** [WarehouseWipSnapshot::receipt]. *)
Definition receipt (batch : OrderProgressBatch) : option WarehouseWipReceipt :=
  let payload := batch_payload_json batch in
  warehouse ← payload_str payload "received_warehouse";
  stock_id ← payload_str payload "finished_goods_stock_id";
  if blank warehouse || negb (WipStatus.eqb (batch_wip_status batch) WipStatus.Processed) ||
     (stock_id <>s stock_id_of batch) || (batch_processed_by_session_id batch <>s stock_id)
  then None
  else
    at_ ← (v ← json_get "received_at_unix" payload; json_as_i64 v);
    Some {| receipt_warehouse := trim warehouse;
            receipt_accepted_by_display_name := default "" (payload_str payload "received_by_display_name");
            receipt_accepted_at_unix := at_ |}.

Definition receive_blocked_reason (v : WarehouseWipSnapshot) : option string :=
  let batch := ws_batch v in
  if ws_qr_is_paddon v then Some "qr_ambiguous"
  else if is_some (receipt batch) then Some "already_received"
  else if is_some (ws_paddon_code v) then Some "paddon_item_already_assigned"
  else if negb (ws_order_receiving_allowed v) then Some "order_not_active"
  else if negb (ws_apparatus_active v) then Some "apparatus_inactive"
  else if negb (WipStatus.eqb (batch_wip_status batch) WipStatus.Waiting) ||
          negb (blank (batch_used_by_session_id batch)) || negb (blank (batch_used_by_apparatus batch)) ||
          negb (blank (batch_processed_by_session_id batch)) || negb (blank (batch_processed_by_apparatus batch))
  then Some "progress_batch_not_accepted"
  else if (trim (batch_current_apparatus batch) <>s trim (batch_apparatus batch)) ||
          blank (batch_current_location batch)
  then Some "wip_location_mismatch"
  else
    match ws_order v with
    | None => Some "map_not_found"
    | Some map =>
        let stage_id := default "" (payload_str (batch_payload_json batch) "stage_node_id") in
        let final := is_some_and (work_stage_for_station map (batch_apparatus batch) stage_id)
                       (λ stage, is_final_work_stage_node map (Chain.stage_node_id stage)) in
        if negb (is_finished_goods_output batch) || negb final then Some "progress_batch_not_accepted"
        else if blank (map_product_code map) || negb (is_ok (finished_goods_qty_uom batch))
        then Some "progress_input_invalid"
        else None
    end.

(** ** The store (memory_store/warehouse_wip.rs) *)

Definition store_warehouse_wip_snapshot (qr : string) (s : run_store) : pm_result (option WarehouseWipSnapshot) :=
  match List.filter (λ b, eq_ignore_ascii_case (trim (batch_qr_payload b)) (trim qr)) (batches s) with
  | [] => Ok None
  | _ :: _ :: _ => Err WarehouseQrAmbiguous
  | [batch] =>
      Ok (Some {|
        ws_batch := batch;
        ws_order := st_maps s !! batch_order_id batch;
        ws_order_receiving_allowed :=
          match st_order_controls s !! batch_order_id batch with
          | None => true
          | Some control => bool_decide (control_state control = OrderControl.Active) &&
                            is_none (control_early_close control)
          end;
        ws_apparatus_active := true;
        ws_paddon_code := None;
        ws_qr_is_paddon := existsb (λ p, paddon_code p =s trim qr) (btree_values (ps_paddons (rs_pallets s))) |})
  end.

(** The checks of a commit. *)
Definition check_warehouse_write (write : WarehouseWipReceiveWrite) (s : run_store) : pm_result unit :=
  let expected := write_expected write in
  current ← store_warehouse_wip_snapshot (batch_qr_payload (ws_batch expected)) s;
  current ← ok_or current ProgressBatchNotFound;
  _ ← check (negb (snapshot_eqb current expected) || is_some (receive_blocked_reason current))
        WarehouseWipConflict;
  check (negb (is_some_and (st_order_progress_batches s !! batch_id (ws_batch expected))
                 (λ b, batch_eqb b (ws_batch expected)))) WarehouseWipConflict.

Definition store_receive_warehouse_wip (write : WarehouseWipReceiveWrite) (s : run_store)
  : run_store * run_result unit :=
  match check_warehouse_write write s with
  | Err e => (s, Err (Fail e))
  | Ok _ =>
      let batch := write_batch write in
      on_orders (refresh_production_order_lifecycles [batch_order_id batch])
        (with_batches (<[batch_id batch := batch]> (st_order_progress_batches s)) s
         <| rs_finished_goods_stock := <[stock_id (write_stock write) := write_stock write]>
                                         (rs_finished_goods_stock s) |>)
  end.

(** ** The service *)
Context (snapshot_token : WarehouseWipSnapshot → string).

Definition warehouse_wip_snapshot (qr_payload : string) (s : run_store) : pm_result (option WarehouseWipSnapshot) :=
  _ ← check (blank qr_payload || (2048 <? String.length qr_payload)) ProgressInputInvalid;
  store_warehouse_wip_snapshot (trim qr_payload) s.

Definition TOKEN_FIELD : string := "warehouse_receipt_snapshot_token".

(** The receipt this very request left. *)
Definition own_receipt (warehouse token : string) (batch : OrderProgressBatch) : option WarehouseWipReceipt :=
  r ← receipt batch;
  if (receipt_warehouse r =s trim warehouse) &&
     bool_decide (payload_str (batch_payload_json batch) TOKEN_FIELD = Some token)
  then Some r else None.

Inductive receive_plan :=
  | AlreadyReceived (batch : OrderProgressBatch) (r : WarehouseWipReceipt)
  | Receive (write : WarehouseWipReceiveWrite).

(** What the request is found to be. *)
Definition plan_receive (batch_id_ qr_payload warehouse token : string) (actor : QueueActionActor) (now : Z)
    (s : run_store) : run_result receive_plan :=
  _ ← lift (check (negb (receives_goods actor)) QueueActionNotAllowed);
  _ ← lift (check (blank batch_id_ || blank warehouse || blank token) ProgressInputInvalid);
  snapshot ← lift (warehouse_wip_snapshot qr_payload s);
  snapshot ← lift (ok_or snapshot ProgressBatchNotFound);
  let batch := ws_batch snapshot in
  _ ← lift (check ((batch_id batch <>s trim batch_id_) || ws_qr_is_paddon snapshot) WarehouseWipConflict);
  match receipt batch with
  | Some _ =>
      r ← lift (ok_or (own_receipt warehouse token batch) WarehouseWipConflict);
      Ok (AlreadyReceived batch r)
  | None =>
      _ ← lift (check ((snapshot_token snapshot <>s token) || is_some (receive_blocked_reason snapshot))
                  WarehouseWipConflict);
      map ← lift (ok_or (ws_order snapshot) MapNotFound);
      '(code, name) ← lift (finished_product map batch);
      '(qty, uom) ← lift (finished_goods_qty_uom batch);
      let name := if blank name then batch_label_item_name batch else name in
      let stock := finished_goods_stock_entry batch (trim warehouse) code name actor qty uom now in
      marked ← mark_finished_goods_batch_received stock (trim warehouse) actor now batch;
      marked ← set_payload TOKEN_FIELD (json_str token) marked;
      Ok (Receive {| write_expected := snapshot; write_batch := marked; write_stock := stock |})
  end.

(** The receipt a second server committed for this very request. *)
Definition recover_receipt (batch_id_ qr_payload warehouse token : string) (s : run_store)
  : pm_result (OrderProgressBatch * WarehouseWipReceipt) :=
  current ← warehouse_wip_snapshot qr_payload s;
  current ← ok_or current ProgressBatchNotFound;
  if (batch_id (ws_batch current) =s trim batch_id_) && negb (ws_qr_is_paddon current)
  then r ← ok_or (own_receipt warehouse token (ws_batch current)) WarehouseWipConflict;
       Ok (ws_batch current, r)
  else Err WarehouseWipConflict.

(** The request reads [read] and commits against [s]. *)
Definition receive_warehouse_wip (batch_id_ qr_payload warehouse token : string) (actor : QueueActionActor)
    (now : Z) (read s : run_store) : run_store * run_result (OrderProgressBatch * WarehouseWipReceipt) :=
  match plan_receive batch_id_ qr_payload warehouse token actor now read with
  | Err e => (s, Err e)
  | Ok (AlreadyReceived batch r) => (s, Ok (batch, r))
  | Ok (Receive write) =>
      match store_receive_warehouse_wip write s with
      | (s, Ok _) =>
          (s, Ok (write_batch write,
                  {| receipt_warehouse := trim warehouse;
                     receipt_accepted_by_display_name := trim (actor_display_name actor);
                     receipt_accepted_at_unix := now |}))
      | (s, Err (Fail WarehouseWipConflict)) => (s, lift (recover_receipt batch_id_ qr_payload warehouse token s))
      | (s, Err e) => (s, Err e)
      end
  end.
End receipts.
