(* ===== verification/WarehouseFacts.v ===== *)
(** Correctness of receipts: what is committed is what the storekeeper confirmed, and a roll
    is received once, however often and from wherever it is asked for again. *)
From Stdlib Require Import Ascii.
From S2P Require Import Prelude RustStr F64 Json Errors Identity QueueState OrderLayout MapDefinition Formula Compiler Bfs Chain Projection Scheduler Progress ProgressFacts WipRoute Lifecycle StageExecution OrderRefresh OrderStore Preflight Epc CutLayout Paddon Metrics Lineage LineageFacts RunStore Warehouse.

(** * Text *)

(** Trimming stops at a printable character. *)
Lemma trim_rev_stops x q : all_bytes graphic (String x q) = true →
  ∀ n r, String.length r <= n → ∃ r', trim_rev (r +:+ String x q) = r' +:+ String x q.
Proof.
  intros Hq. pose proof (trim_rev_graphic _ Hq) as Hfix.
  assert (graphic x = true) as Hx by (simpl in Hq; by apply andb_true_iff in Hq as [? _]).
  induction n as [|n IH]; intros r Hr; (destruct r as [|a r]; [by exists ""|]); simpl in Hr; [lia|].
  change (String a r +:+ String x q) with (String a (r +:+ String x q)).
  destruct r as [|b [|c r]].
  - change (trim_rev (String a ("" +:+ String x q))) with
      (if ws1 a then trim_rev (String x q) else
       if ws2 x a then trim_rev q else
       match q with EmptyString => String a (String x q)
       | String c s3 => if ws3 c x a then trim_rev s3 else String a (String x q) end).
    destruct (ws1 a); [by exists ""|]. destruct (graphic_not_ws23 x a a Hx) as [-> _].
    destruct q as [|y q]; [by exists (String a "")|].
    assert (graphic y = true) as Hy by (simpl in Hq; by apply andb_true_iff in Hq as [_ [? _]%andb_true_iff]).
    destruct (graphic_not_ws23 y x a Hy) as [_ ->]. by exists (String a "").
  - change (trim_rev (String a (String b "" +:+ String x q))) with
      (if ws1 a then trim_rev (String b (String x q)) else if ws2 b a then trim_rev (String x q) else
       if ws3 x b a then trim_rev q else String a (String b (String x q))).
    destruct (ws1 a); [destruct (IH (String b "")) as [r' E]; [simpl in *; lia|]; exists r'; exact E|].
    destruct (ws2 b a); [by exists ""|].
    destruct (graphic_not_ws23 x b a Hx) as [_ ->]. by exists (String a (String b "")).
  - change (trim_rev (String a (String b (String c r) +:+ String x q))) with
      (if ws1 a then trim_rev (String b (String c r) +:+ String x q) else
       if ws2 b a then trim_rev (String c r +:+ String x q) else
       if ws3 c b a then trim_rev (r +:+ String x q) else String a (String b (String c r)) +:+ String x q).
    simpl in Hr. destruct (ws1 a); [apply IH; simpl; lia|]. destruct (ws2 b a); [apply IH; simpl; lia|].
    destruct (ws3 c b a); [apply IH; lia|]. by exists (String a (String b (String c r))).
Qed.

Lemma trim_end_keeps p x : p ≠ "" → all_bytes graphic p = true → ∃ y, trim_end (p +:+ x) = p +:+ y.
Proof.
  intros Hne Hp. unfold trim_end. rewrite str_rev_append. rewrite <-all_bytes_rev in Hp.
  assert (String.rev p ≠ "") as Hr by (intros E; apply Hne; by rewrite <-(str_rev_involutive p), E).
  destruct (String.rev p) as [|a q] eqn:E; [done|].
  destruct (trim_rev_stops a q Hp (String.length (String.rev x)) (String.rev x)) as [r' ->]; [lia|].
  rewrite <-E.
  exists (String.rev r'). by rewrite str_rev_append, str_rev_involutive.
Qed.

Lemma starts_with_prefix p x : starts_with (p +:+ x) p = true.
Proof.
  unfold starts_with. induction p as [|a p IH]; [by destruct x|].
  change (String a p +:+ x) with (String a (p +:+ x)). simpl. by destruct (ascii_dec a a).
Qed.

Lemma warehouse_marker x : starts_with (to_ascii_lowercase (trim ("warehouse:" +:+ x))) "warehouse:" = true.
Proof.
  unfold trim. change (trim_start ("warehouse:" +:+ x)) with ("warehouse:" +:+ x).
  destruct (trim_end_keeps "warehouse:" x) as [y ->]; [done|done|].
  rewrite to_ascii_lowercase_append. apply (starts_with_prefix "warehouse:").
Qed.


(** * Tables *)

Lemma filter_values_perm {A} (P : A → bool) (m : gmap string A) l :
  map_to_list m ≡ₚ l → List.filter P (btree_values m) ≡ₚ List.filter P l.*2.
Proof. intros H. apply filterb_perm. unfold btree_values. by rewrite btree_entries_perm, H. Qed.

(** The only match of a search, replaced under its key, is its only match again. *)
Lemma filter_insert_single {A} (P : A → bool) (m : gmap string A) k x y z :
  List.filter P (btree_values m) = [x] → m !! k = Some y → P y = true → P z = true →
  y = x ∧ List.filter P (btree_values (<[k := z]> m)) = [z].
Proof.
  intros Hf Hk Hy Hz.
  assert (Hm : ∀ v, <[k := v]> m = <[k := v]> (delete k m)) by (intros; by rewrite insert_delete_eq).
  assert (Hl : ∀ v, map_to_list (<[k := v]> m) ≡ₚ (k, v) :: map_to_list (delete k m)).
  { intros v. rewrite Hm. apply map_to_list_insert, lookup_delete_eq. }
  pose proof (filter_values_perm P _ _ (Hl y)) as Hp. rewrite (insert_id _ _ _ Hk), Hf in Hp.
  simpl in Hp. rewrite Hy in Hp. apply Permutation_singleton_l in Hp. injection Hp as E Hrest. subst y.
  split; [done|]. pose proof (filter_values_perm P _ _ (Hl z)) as Hp. simpl in Hp.
  rewrite Hz, <-Hrest in Hp. by apply Permutation_singleton_r in Hp.
Qed.

Section facts.
Context `{J : Json} `{!JsonLaws J} `{C : !RouteCodec} `{R : !ReportCodec} `{!Serde (list OrderLane)}.
Context `{!Serde (list OrderRunInputLink)} `{!Serde (list RezkaActivePartialRoll)}.
Context `{!Serde (list ProgressBatchInputLink)} `{!Serde ProductionQrSessionResources}.
Context (snapshot_token : WarehouseWipSnapshot → string).

(** * The roll that is stored *)

Lemma set_payload_Ok key x b b' : set_payload key x b = Ok b' →
  ∃ p, b' = b <| batch_payload_json := p |> ∧
    ∀ k, json_get k p = if decide (k = key) then Some x else json_get k (batch_payload_json b).
Proof.
  intros H. apply bind_Ok in H as (p & Hp & [= <-]). exists p. split; [done|].
  unfold expect in Hp. destruct (json_set _ _ _) as [p'|] eqn:E; [|done]. injection Hp as <-.
  by apply json_set_Some in E as [_ ?].
Qed.

Lemma set_payloads_Ok fields b b' : set_payloads fields b = Ok b' →
  ∃ p, b' = b <| batch_payload_json := p |> ∧
    ∀ k, json_get k p =
      match assigned k fields with Some x => Some x | None => json_get k (batch_payload_json b) end.
Proof.
  revert b. induction fields as [|[key x] fields IH]; intros b; simpl.
  - intros [= <-]. exists (batch_payload_json b). by destruct b.
  - intros H. apply bind_Ok in H as (b1 & H1 & H). apply set_payload_Ok in H1 as (p1 & -> & Hg1).
    apply IH in H as (p & -> & Hg). exists p. split; [done|]. intros k. rewrite Hg.
    destruct (assigned k fields); [done|]. simpl. rewrite Hg1.
    destruct (key =s k) eqn:E; breflect; simpl; case_decide; congruence.
Qed.

Lemma accepted_flow b x : batch_wip_status b = WipStatus.Processed →
  batch_processed_by_apparatus b = "warehouse:" +:+ x → flow_status_for_batch b = "accepted_to_stock".
Proof. unfold flow_status_for_batch. intros -> ->. by rewrite warehouse_marker. Qed.

(** The roll as a receipt leaves it. *)
Record marked_as_received (warehouse token : string) (actor : QueueActionActor) (now : Z)
    (b b' : OrderProgressBatch) : Prop := {
  mr_id : batch_id b' = batch_id b;
  mr_qr : batch_qr_payload b' = batch_qr_payload b;
  mr_flow : flow_status_for_batch b' = "accepted_to_stock";
  mr_status : batch_wip_status b' = WipStatus.Processed;
  mr_location : batch_current_location b' = trim warehouse;
  mr_processed : batch_processed_by_session_id b' = stock_id_of b;
  mr_get k : json_get k (batch_payload_json b') =
    match assigned k (received_fields (stock_id_of b) (trim warehouse) actor now ++
                      [(TOKEN_FIELD, json_str token)]) with
    | Some x => Some x
    | None => json_get k (batch_payload_json b)
    end;
}.

Lemma marked_spec warehouse token actor now stock b b1 b2 :
  stock_id stock = stock_id_of b →
  mark_finished_goods_batch_received stock (trim warehouse) actor now b = Ok b1 →
  set_payload TOKEN_FIELD (json_str token) b1 = Ok b2 →
  marked_as_received warehouse token actor now b b2.
Proof.
  intros Hid H1 H2. apply bind_Ok in H1 as (b0 & H0 & [= <-]).
  apply set_payloads_Ok in H0 as (p0 & -> & Hg0). apply set_payload_Ok in H2 as (p & -> & Hg).
  split; try done.
  - by apply (accepted_flow _ (trim warehouse)).
  - intros k. rewrite assigned_app. cbn -[assigned received_fields]. rewrite Hg, <-Hid. clear Hg.
    cbn -[assigned received_fields]. rewrite Hg0. clear Hg0.
    assert (Ht : assigned k [(TOKEN_FIELD, json_str token)] =
                 if decide (k = TOKEN_FIELD) then Some (json_str token) else None).
    { unfold assigned. destruct (TOKEN_FIELD =s k) eqn:E; breflect; case_decide; congruence. }
    rewrite Ht. by case_decide.
Qed.

Lemma receipt_of_marked warehouse token actor now b b' :
  (i64_MIN <= now <= i64_MAX)%Z → blank warehouse = false →
  marked_as_received warehouse token actor now b b' →
  own_receipt warehouse token b' =
    Some {| receipt_warehouse := trim warehouse;
            receipt_accepted_by_display_name := trim (actor_display_name actor);
            receipt_accepted_at_unix := now |}.
Proof.
  intros Hnow Hw [Hid _ _ Hst _ Hp Hg]. unfold own_receipt, receipt, payload_str, stock_id_of.
  rewrite !Hg. cbn -[trim String.append]. rewrite !json_as_str_str. cbn -[trim String.append].
  rewrite Hst, Hid, Hp. unfold blank in *. rewrite trim_idemp, Hw. unfold stock_id_of. rewrite !String.eqb_refl.
  cbn -[trim String.append]. rewrite json_as_i64_Z by done. cbn -[trim String.append].
  rewrite bool_decide_eq_true_2 by done. change (WipStatus.eqb WipStatus.Processed WipStatus.Processed) with true.
  cbn -[trim String.append]. by rewrite String.eqb_refl.
Qed.

(** * Requests *)

(** What a request that is not refused found. *)
Record planned (batch_id_ qr warehouse token : string) (actor : QueueActionActor) (now : Z) (read : run_store)
    (snapshot : WarehouseWipSnapshot) (plan : receive_plan) : Prop := {
  pl_allowed : receives_goods actor = true;
  pl_given : blank batch_id_ = false ∧ blank warehouse = false ∧ blank token = false;
  pl_read : warehouse_wip_snapshot qr read = Ok (Some snapshot);
  pl_id : batch_id (ws_batch snapshot) = trim batch_id_;
  pl_paddon : ws_qr_is_paddon snapshot = false;
  pl_plan :
    match plan with
    | AlreadyReceived b r => b = ws_batch snapshot ∧ own_receipt warehouse token b = Some r
    | Receive write =>
        write_expected write = snapshot ∧ snapshot_token snapshot = token ∧
        receive_blocked_reason snapshot = None ∧
        marked_as_received warehouse token actor now (ws_batch snapshot) (write_batch write) ∧
        ∃ map code name qty uom,
          ws_order snapshot = Some map ∧ finished_product map (ws_batch snapshot) = Ok (code, name) ∧
          finished_goods_qty_uom (ws_batch snapshot) = Ok (qty, uom) ∧
          write_stock write = finished_goods_stock_entry (ws_batch snapshot) (trim warehouse) code
            (if blank name then batch_label_item_name (ws_batch snapshot) else name) actor qty uom now
    end;
}.

Lemma own_receipt_receipt warehouse token b r :
  own_receipt warehouse token b = Some r → receipt b = Some r ∧ receipt_warehouse r = trim warehouse ∧
    payload_str (batch_payload_json b) TOKEN_FIELD = Some token.
Proof.
  intros (r' & Hr & H)%bind_Some. destruct (_ && _) eqn:E; [|done]. injection H as ->.
  by apply andb_true_iff in E as [?%String.eqb_eq ?%bool_decide_eq_true].
Qed.

Lemma plan_receive_spec batch_id_ qr warehouse token actor now read plan :
  plan_receive snapshot_token batch_id_ qr warehouse token actor now read = Ok plan →
  ∃ snapshot, planned batch_id_ qr warehouse token actor now read snapshot plan.
Proof.
  unfold plan_receive. intros H. inv_run. breflect.
  match goal with _ : warehouse_wip_snapshot qr read = Ok ?o, _ : ?o = Some ?s |- _ => exists s; subst o end.
  split; try done. destruct (receipt _) as [r0|] eqn:Hr.
  - inv_run. injection H as <-. done.
  - inv_run. breflect.
    match goal with p : string * string |- _ => destruct p as [code name] end. inv_run.
    match goal with p : f64 * string |- _ => destruct p as [qty uom] end. inv_run. injection H as <-.
    split; [done|]. split; [done|]. split; [by destruct (receive_blocked_reason _)|].
    split; [eapply marked_spec; [|eassumption..]; done|]. eauto 10.
Qed.

(** * The store *)

(** The store with a roll and a stock entry, before and after the order is refreshed. *)
Definition with_receipt (write : WarehouseWipReceiveWrite) (s : run_store) : run_store :=
  with_batches (<[batch_id (write_batch write) := write_batch write]> (st_order_progress_batches s)) s
  <| rs_finished_goods_stock := <[stock_id (write_stock write) := write_stock write]>
                                  (rs_finished_goods_stock s) |>.

Record committed (write : WarehouseWipReceiveWrite) (s s' : run_store) : Prop := {
  cm_current : ∃ current,
    store_warehouse_wip_snapshot (batch_qr_payload (ws_batch (write_expected write))) s = Ok (Some current) ∧
    snapshot_eqb current (write_expected write) = true ∧ receive_blocked_reason current = None;
  cm_stored : ∃ b, st_order_progress_batches s !! batch_id (ws_batch (write_expected write)) = Some b ∧
    batch_eqb b (ws_batch (write_expected write)) = true;
  cm_store : ∃ lc, s' = with_orders ((os_orders (with_receipt write s)) <| st_lifecycles := lc |>)
                                    (with_receipt write s);
}.

Lemma store_receive_spec write s :
  (store_receive_warehouse_wip write s).1 = s ∧ (store_receive_warehouse_wip write s).2 ≠ Ok tt ∨
  committed write s (store_receive_warehouse_wip write s).1.
Proof.
  unfold store_receive_warehouse_wip. destruct (check_warehouse_write write s) as [u|e] eqn:E; [right|by left].
  assert (Hs : ∃ lc, (on_orders (refresh_production_order_lifecycles [batch_order_id (write_batch write)])
                       (with_receipt write s)).1
             = with_orders ((os_orders (with_receipt write s)) <| st_lifecycles := lc |>) (with_receipt write s)).
  { unfold on_orders. destruct (refresh_writes [batch_order_id (write_batch write)] (with_receipt write s))
      as [lc H]. exists lc. destruct (refresh_production_order_lifecycles _ _). simpl in *. by subst. }
  unfold check_warehouse_write in E. inv_run. breflect. subst.
  split; [|by destruct (_ !! _) as [b|] in *; [exists b|]|exact Hs].
  eexists. repeat split; [eassumption|done|]. by destruct (receive_blocked_reason _).
Qed.

(** C25: A receipt stores what the storekeeper confirmed or changes nothing: if
    the store changes, then the confirmed token is that of the roll as it was
    read, the roll is still the same when the receipt is committed and nothing
    blocks it, and exactly that roll becomes accepted to stock with a stock
    entry of its own quantity, while everything else but the life cycle of the
    order stays. *)
Theorem received_as_confirmed batch_id_ qr warehouse token actor now read s :
  let s' := (receive_warehouse_wip snapshot_token batch_id_ qr warehouse token actor now read s).1 in
  s' = s ∨
  ∃ snapshot current write,
    planned batch_id_ qr warehouse token actor now read snapshot (Receive write) ∧
    store_warehouse_wip_snapshot (batch_qr_payload (ws_batch snapshot)) s = Ok (Some current) ∧
    snapshot_eqb current snapshot = true ∧ receive_blocked_reason current = None ∧
    ∃ lc, s' = with_orders ((os_orders (with_receipt write s)) <| st_lifecycles := lc |>) (with_receipt write s).
Proof.
  intros s'. subst s'. unfold receive_warehouse_wip.
  destruct (plan_receive _ _ _ _ _ _ _ _) as [[b r|write]|e] eqn:E; [by left| |by left].
  apply plan_receive_spec in E as [snapshot Hp].
  assert (Hs' : ∀ f, (match store_receive_warehouse_wip write s with
    | (s, Ok _) => (s, f s) | (s, Err (Fail WarehouseWipConflict)) =>
      (s, lift (recover_receipt batch_id_ qr warehouse token s)) | (s, Err e) => (s, Err e) end).1
    = (store_receive_warehouse_wip write s).1) by (intros f; by break).
  rewrite (Hs' (λ _, _)). destruct (store_receive_spec write s) as [[-> _]|[Hc _ Hs]]; [by left|right].
  destruct (pl_plan _ _ _ _ _ _ _ _ _ Hp) as [<- _]. destruct Hc as (current & ? & ? & ?).
  exists (write_expected write), current, write. done.
Qed.

(** * Asking again *)

(** The store answers a request as the receipt it holds. *)
Record answered (batch_id_ qr warehouse token : string) (s : run_store) (b : OrderProgressBatch)
    (r : WarehouseWipReceipt) : Prop := {
  an_snapshot : ∃ snapshot, store_warehouse_wip_snapshot (trim qr) s = Ok (Some snapshot) ∧
    ws_batch snapshot = b ∧ ws_qr_is_paddon snapshot = false;
  an_id : batch_id b = trim batch_id_;
  an_receipt : own_receipt warehouse token b = Some r;
  an_given : blank batch_id_ = false ∧ blank warehouse = false ∧ blank token = false ∧ blank qr = false ∧
    (2048 <? String.length qr) = false;
}.

Lemma snapshot_Ok qr s o : warehouse_wip_snapshot qr s = Ok o →
  store_warehouse_wip_snapshot (trim qr) s = Ok o ∧ blank qr = false ∧ (2048 <? String.length qr) = false.
Proof. unfold warehouse_wip_snapshot. intros H. inv_run. by breflect. Qed.

Lemma answered_again batch_id_ qr warehouse token s b r batch_id' qr' warehouse' token' actor now s2 :
  answered batch_id_ qr warehouse token s b r → trim qr' = trim qr →
  let answer := receive_warehouse_wip snapshot_token batch_id' qr' warehouse' token' actor now s s2 in
  answer.1 = s2 ∧
  (∀ x, answer.2 = Ok x → x = (b, r) ∧ trim warehouse' = trim warehouse ∧ token' = token) ∧
  (receives_goods actor = true → batch_id' = batch_id_ → qr' = qr → warehouse' = warehouse → token' = token →
   answer.2 = Ok (b, r)).
Proof.
  intros [(snapshot & Hs & <- & Hpaddon) Hid Hr (Hb & Hw & Ht & Hq & Hl)] Hqr answer. subst answer.
  apply own_receipt_receipt in Hr as Hr'. destruct Hr' as (Hr' & Hwr & Htr).
  unfold receive_warehouse_wip. split; [|split].
  - destruct (plan_receive _ _ _ _ _ _ _ _) as [[|write]|] eqn:E; [done| |done].
    apply plan_receive_spec in E as [snapshot' [_ _ Hread _ _ (_ & _ & Hblocked & _)]].
    apply snapshot_Ok in Hread as [Hread _]. rewrite Hqr, Hs in Hread. injection Hread as <-.
    unfold receive_blocked_reason in Hblocked. by rewrite Hpaddon, Hr' in Hblocked.
  - intros x. destruct (plan_receive _ _ _ _ _ _ _ _) as [[b r'|write]|] eqn:E; [| |done].
    + apply plan_receive_spec in E as [snapshot' [_ _ Hread _ _ [-> Hown]]].
      apply snapshot_Ok in Hread as [Hread _]. rewrite Hqr, Hs in Hread. injection Hread as <-.
      apply own_receipt_receipt in Hown as (Hr2 & Hw2 & Ht2). intros [= <-]. split_and!; congruence.
    + apply plan_receive_spec in E as [snapshot' [_ _ Hread _ _ (_ & _ & Hblocked & _)]].
      apply snapshot_Ok in Hread as [Hread _]. rewrite Hqr, Hs in Hread. injection Hread as <-.
      unfold receive_blocked_reason in Hblocked. by rewrite Hpaddon, Hr' in Hblocked.
  - intros Ha -> -> -> ->. unfold plan_receive, warehouse_wip_snapshot.
    rewrite Ha, Hb, Hw, Ht, Hq, Hl, Hs. simpl. rewrite Hid, Hpaddon, String.eqb_refl. simpl.
    by rewrite Hr', Hr.
Qed.

Lemma same_text_trans a b c : eq_ignore_ascii_case a b = true → eq_ignore_ascii_case b c = true →
  eq_ignore_ascii_case a c = true.
Proof. apply same_code_trans. Qed.

(** What one snapshot shows. *)
Lemma snapshot_Some qr s snapshot : store_warehouse_wip_snapshot qr s = Ok (Some snapshot) →
  List.filter (λ b, eq_ignore_ascii_case (trim (batch_qr_payload b)) (trim qr)) (batches s) = [ws_batch snapshot] ∧
  ws_qr_is_paddon snapshot = existsb (λ p, paddon_code p =s trim qr) (btree_values (ps_paddons (rs_pallets s))).
Proof.
  unfold store_warehouse_wip_snapshot. destruct (List.filter _ _) as [|b [|? ?]]; [done| |done].
  by intros [= <-].
Qed.

Lemma batch_eqb_qr a b : batch_eqb a b = true → batch_qr_payload a = batch_qr_payload b.
Proof.
  unfold batch_eqb. intros H. breflect. unfold decide_eqb in *.
  match goal with H : bool_decide _ = true |- _ => apply bool_decide_eq_true in H; unfold batch_key in H end.
  by simplify_eq.
Qed.

Lemma snapshot_eqb_batch a b : snapshot_eqb a b = true → batch_eqb (ws_batch a) (ws_batch b) = true.
Proof. unfold snapshot_eqb. intros H. by breflect. Qed.

(** The roll a receipt stored is found by its label. *)
Lemma committed_answers batch_id_ qr warehouse token actor now read s s' snapshot write :
  (i64_MIN <= now <= i64_MAX)%Z → trim qr = trim (batch_qr_payload (write_batch write)) →
  planned batch_id_ qr warehouse token actor now read snapshot (Receive write) → committed write s s' →
  answered batch_id_ qr warehouse token s' (write_batch write)
    {| receipt_warehouse := trim warehouse; receipt_accepted_by_display_name := trim (actor_display_name actor);
       receipt_accepted_at_unix := now |}.
Proof.
  intros Hnow Hqr [_ (Hb & Hw & Ht) Hread Hid _ (He & _ & _ & Hm & _)] [(current & Hc & Heq & Hblocked) (b0 & Hb0 & Heq0) [lc ->]].
  apply snapshot_Ok in Hread as (_ & Hq & Hl). subst snapshot.
  destruct (snapshot_Some _ _ _ Hc) as [Hf Hpaddon].
  pose proof (mr_qr _ _ _ _ _ _ Hm) as Hqr'. pose proof (mr_id _ _ _ _ _ _ Hm) as Hid'.
  rewrite <-Hqr', <-Hqr in Hf, Hpaddon.
  unfold batches in Hf.
  destruct (filter_insert_single _ _ (batch_id (write_batch write)) _ b0 (write_batch write) Hf) as [_ Hf'].
  { by rewrite Hid'. }
  { rewrite (batch_eqb_qr _ _ Heq0), <-Hqr', <-Hqr. apply String.eqb_refl. }
  { rewrite <-Hqr. apply String.eqb_refl. }
  split; [|by rewrite Hid'|by eapply receipt_of_marked|done].
  unfold store_warehouse_wip_snapshot, batches.
  replace (trim (trim qr)) with (trim qr) by by rewrite trim_idemp.
  simpl. rewrite Hf'. eexists. split; [done|]. split; [done|]. simpl.
  rewrite <-Hpaddon. unfold receive_blocked_reason in Hblocked. by destruct (ws_qr_is_paddon current).
Qed.

Lemma planned_answers batch_id_ qr warehouse token actor now read snapshot b r :
  planned batch_id_ qr warehouse token actor now read snapshot (AlreadyReceived b r) →
  answered batch_id_ qr warehouse token read b r.
Proof.
  intros [_ (? & ? & ?) Hread Hid Hpaddon [-> Hown]]. apply snapshot_Ok in Hread as (? & ? & ?).
  split; [by exists snapshot|done..].
Qed.

Lemma recovered_answers batch_id_ qr warehouse token s b r :
  blank batch_id_ = false → blank warehouse = false → blank token = false →
  recover_receipt batch_id_ qr warehouse token s = Ok (b, r) → answered batch_id_ qr warehouse token s b r.
Proof.
  intros ??? H. unfold recover_receipt in H. inv_run. subst.
  match goal with H : warehouse_wip_snapshot _ _ = _ |- _ => apply snapshot_Ok in H as (? & ? & ?) end.
  destruct (_ && _) eqn:E; [|done]. inv_run. breflect. injection H as <- <-. split; eauto 10.
Qed.

(** A roll is received once: after a request was answered with a receipt,
    the store it was answered from answers every later scan of the label, from
    whatever server, without changing anything, with that same receipt for the
    same warehouse and token and with a refusal otherwise, and repeating the
    very request succeeds. *)
Theorem received_roll_is_received_once batch_id_ qr warehouse token actor now read s s1 b r :
  (i64_MIN <= now <= i64_MAX)%Z → trim qr = trim (batch_qr_payload b) →
  receive_warehouse_wip snapshot_token batch_id_ qr warehouse token actor now read s = (s1, Ok (b, r)) →
  ∃ t, (t = read ∨ t = s1) ∧
  ∀ batch_id' qr' warehouse' token' actor' now' s2, trim qr' = trim qr →
  let answer := receive_warehouse_wip snapshot_token batch_id' qr' warehouse' token' actor' now' t s2 in
  answer.1 = s2 ∧
  (∀ x, answer.2 = Ok x → x = (b, r) ∧ trim warehouse' = trim warehouse ∧ token' = token) ∧
  (receives_goods actor' = true → batch_id' = batch_id_ → qr' = qr → warehouse' = warehouse → token' = token →
   answer.2 = Ok (b, r)).
Proof.
  intros Hnow Hqr H.
  assert (∃ t, (t = read ∨ t = s1) ∧ answered batch_id_ qr warehouse token t b r) as (t & Ht & Ha);
    [|exists t; split; [done|]; intros; by eapply answered_again].
  unfold receive_warehouse_wip in H.
  destruct (plan_receive _ _ _ _ _ _ _ _) as [[b' r'|write]|e] eqn:E; [| |done];
    apply plan_receive_spec in E as [snapshot Hp].
  - injection H as <- <- <-. exists read. split; [by left|by eapply planned_answers].
  - exists s1. split; [by right|]. pose proof (store_receive_spec write s) as Hstore.
    destruct (store_receive_warehouse_wip write s) as [s' [[]|[|e]]] eqn:Es; [|done|].
    + injection H as <- <- <-. destruct Hstore as [[_ []]|Hc]; [done|]. by eapply committed_answers.
    + destruct (pl_given _ _ _ _ _ _ _ _ _ Hp) as (? & ? & ?).
      destruct e; try done. injection H as <- H%lift_Ok. by apply recovered_answers.
Qed.
End facts.
