(* ===== verification/QueueCommit.v ===== *)
(** Committing a queue action.

    Models [put_apparatus_queue_states_with_event_and_progress] of
    [src/core/production_map/memory_store.rs], the checks of the write ([store_port.rs]),
    [memory_store/temporary_pause.rs] and [qolip_start.rs].  A write is a sequence of actions
    on the store; an action that fails stops it and keeps what was written before.  Material
    transitions and mould checkouts of the write are used by the PostgreSQL store only. *)
From S2P Require Import Prelude RustStr F64 Json Errors Identity QueueState OrderLayout MapDefinition Formula Compiler Bfs Chain Projection Scheduler Progress WipRoute Lifecycle StageExecution OrderRefresh OrderStore Preflight Epc CutLayout Paddon Metrics Lineage RunStore Warehouse.

Record AutomaticQolipConfirmation := {
  confirmation_method : string;
  confirmation_set_id : string;
  confirmation_fingerprint : string;
  confirmation_policy_revision : Z;
}.

(** [AutomaticQolipConfirmation::is_valid]. *)
Definition confirmation_is_valid (c : AutomaticQolipConfirmation) : bool :=
  (confirmation_method c =s "automatic") && negb (blank (confirmation_set_id c)) &&
  (String.length (confirmation_set_id c) <=? 512) && (0 <=? confirmation_policy_revision c)%Z &&
  (String.length (confirmation_fingerprint c) =? 64) &&
  all_bytes (λ a, is_ascii_digit a || in_range 97 102 a) (confirmation_fingerprint c).

Definition require_policy (c : AutomaticQolipConfirmation) (settings : QolipStartSettings) : pm_result unit :=
  _ ← check (negb (automatic_confirmation_enabled settings)) QolipAutomaticConfirmationDisabled;
  check (negb (qolip_policy_revision settings =? confirmation_policy_revision c)%Z) QolipPolicyChanged.

Section commit.
Context `{J : Json} `{C : !RouteCodec} `{R : !ReportCodec} `{!Serde (list OrderLane)}.
Context `{!Serde (list OrderRunInputLink)} `{!Serde (list RezkaActivePartialRoll)}.
Context `{!Serde (list ProgressBatchInputLink)} `{!Serde ProductionQrSessionResources}.
Context `{!Serde AutomaticQolipConfirmation} `{!Serde OrderProgressBatch} `{!Serde RunSession}.

(** ** The write (store_port.rs) *)
Record QueueActionProgressWrite := {
  qw_apparatus : string;
  qw_map_update : option ProductionMapDefinition;
  qw_states : gmap string string;
  qw_sequence_updates : gmap string (list string);
  qw_event : ApparatusQueueActionEvent;
  qw_session : option RunSession;
  qw_progress_event : option OrderProgressEvent;
  qw_progress_batch : option OrderProgressBatch;
  qw_progress_batches : list OrderProgressBatch;
  qw_progress_batch_updates : list OrderProgressBatch;
  qw_opening_wip_batch_updates : list OpeningWipBatch;
  qw_returned_paint_report : option ReturnedPaintRequest;
  qw_order_control_update : option OrderControlRecord;
  qw_schedule_reservation_status : option ScheduleStatus.t;
  qw_print_preflight_hold_id : option string;
  qw_print_preflight_cancel_hold_id : option string;
}.

(** * Actions *)

Definition store_action : Type := run_store → run_store * run_result unit.

Definition andThen (a b : store_action) : store_action := λ s,
  match a s with
  | (s, Ok _) => b s
  | (s, Err e) => (s, Err e)
  end.

Definition skip : store_action := λ s, (s, Ok tt).
Definition check_store (f : run_store → run_result unit) : store_action := λ s, (s, f s).

Fixpoint each {A} (f : A → store_action) (l : list A) : store_action :=
  match l with
  | [] => skip
  | x :: l => andThen (f x) (each f l)
  end.

Definition each_opt {A} (f : A → store_action) (o : option A) : store_action :=
  match o with Some x => f x | None => skip end.

Definition on_tables (f : order_tables → order_tables * run_result unit) : store_action := λ s,
  let '(t, r) := f (ts_tables s) in (with_tables t s, r).
Definition on_trials (f : trial_store → trial_store * pm_result unit) : store_action := λ s,
  let '(t, r) := f (rs_trials s) in (s <| rs_trials := t |>, lift r).

(** * Checks of the write *)

Definition event_field (write : QueueActionProgressWrite) (key : string) : option value :=
  json_get key (qe_payload_json (qw_event write)).
Definition event_str (write : QueueActionProgressWrite) (key : string) : option string :=
  v ← event_field write key; json_as_str v.

(** The checks of [store_port.rs]. *)
Definition validate_queue_progress_write (write : QueueActionProgressWrite) : pm_result unit :=
  _ ← require_apparatus_id (qw_apparatus write);
  _ ← require_apparatus_id (qe_apparatus (qw_event write));
  _ ← for_each (λ a _, require_apparatus_id a) (qe_assigned_apparatus (qw_event write)) tt;
  _ ← for_each (λ a _, require_apparatus_id a) (btree_keys (qw_sequence_updates write)) tt;
  _ ← match qw_session write with Some s => require_apparatus_id (session_apparatus s) | None => Ok tt end;
  _ ← match qw_progress_event write with Some e => require_apparatus_id (pe_apparatus e) | None => Ok tt end;
  _ ← for_each (λ b _, validate_progress_batch_apparatus b)
        (option_list (qw_progress_batch write) ++ qw_progress_batches write ++ qw_progress_batch_updates write) tt;
  _ ← for_each (λ b _,
        _ ← check (blank (opening_order_id b) || blank (opening_batch_id b)) StoreFailed;
        for_each (λ a _, if blank a then Ok tt else require_apparatus_id a)
          [opening_used_by_apparatus b; opening_processed_by_apparatus b] tt)
        (qw_opening_wip_batch_updates write) tt;
  _ ← match qw_returned_paint_report write with
      | Some r => require_apparatus_id (paint_apparatus r) | None => Ok tt end;
  match (r ← qw_order_control_update write; control_freeze_request r) with
  | Some request =>
      if blank (freeze_target_apparatus request) then Ok tt
      else require_apparatus_id (freeze_target_apparatus request)
  | None => Ok tt
  end.

(** [matching_receipt] of a temporary pause. *)
Definition matching_receipt (event : ApparatusQueueActionEvent) (apparatus order_id session_id : string)
    (actor : QueueActionActor) : pm_result unit :=
  check ((qe_apparatus event <>s apparatus) || (qe_order_id event <>s order_id) ||
         (actor_role (qe_actor event) <>s actor_role actor) || (actor_ref (qe_actor event) <>s actor_ref actor) ||
         negb (bool_decide (payload_str (qe_payload_json event) "session_id" = Some session_id)))
    QueueActionNotAllowed.

(** The queue of the apparatus is the one the client saw. *)
Definition check_expected_queue (sequence_key states_key : string) (write : QueueActionProgressWrite)
    (s : order_tables) : pm_result unit :=
  match event_field write sequence_key with
  | None => Ok tt
  | Some expected =>
      sequences ← apparatus_sequences s;
      states ← apparatus_queue_states s;
      check (negb (json_eqb (json_strings (default [] (sequences !! qw_apparatus write))) expected) ||
             negb (is_some_and (event_field write states_key)
                     (json_eqb (json_str_map (default ∅ (states !! qw_apparatus write))))))
        QueueActionNotAllowed
  end.

Definition session_eqb (a b : RunSession) : bool :=
  decide_eqb (session_id a, session_apparatus a, session_order_id a, session_stage_node_id a,
              session_status a, (session_worker_role a, session_worker_ref a, session_worker_display_name a,
              session_started_at_unix a, session_updated_at_unix a))
             (session_id b, session_apparatus b, session_order_id b, session_stage_node_id b,
              session_status b, (session_worker_role b, session_worker_ref b, session_worker_display_name b,
              session_started_at_unix b, session_updated_at_unix b)) &&
  json_eqb (session_payload_json a) (session_payload_json b).

Definition is_stored (s : order_store) (session : RunSession) : bool :=
  is_some_and (order_run_session (session_id session) s) (λ c, session_eqb c session).

Definition check_anchor (s : order_store) (expected : value) (_ : unit) : pm_result unit :=
  session ← ok_or (from_value expected) QueueActionNotAllowed;
  check (negb (is_stored s session)) QueueActionNotAllowed.

(** An input a paused session kept is still its own. *)
Definition held_input_valid (current : RunSession) (s : order_store) (input : value) : pm_result unit :=
  id ← ok_or (payload_str input "batch_id") ProgressBatchNotResumable;
  check (negb
    (if bool_decide (payload_str input "source_kind" = Some "opening_wip")
     then is_some_and (opening_wip_batch id "" s) (λ r,
            bool_decide (intake_status r.1 = IntakeStatus.Confirmed) &&
            bool_decide (opening_wip_status r.2 = OpeningStatus.InUse) &&
            (opening_used_by_session_id r.2 =s session_id current) &&
            (opening_used_by_apparatus r.2 =s session_apparatus current))
     else is_some_and (progress_batch id s) (λ b,
            WipStatus.eqb (batch_wip_status b) WipStatus.InUse &&
            (batch_used_by_session_id b =s session_id current) &&
            (batch_used_by_apparatus b =s session_apparatus current))))
    ProgressBatchNotResumable.

(** No hold on the order or on the stage of its session. *)
Definition is_uncontrolled (write : QueueActionProgressWrite) (current : RunSession) (s : order_store) : bool :=
  let order_id := qe_order_id (qw_event write) in
  match st_order_controls s !! order_id with
  | Some c => bool_decide (control_state c = OrderControl.Active) && is_none (control_early_close c)
  | None => true
  end &&
  negb (existsb (λ entry : (string * string * string) * OrderControlRecord,
    let c := entry.2 in
    (control_order_id c =s order_id) && (control_stage_node_id c =s session_stage_node_id current) &&
    negb (bool_decide (control_state c = OrderControl.Active))) (map_to_list (st_stage_order_controls s))).

Definition EXPECTED_SESSION : string := "temporary_pause_expected_session".

(** What the client saw of the session of a temporary pause is still so. *)
Definition check_paused_session (write : QueueActionProgressWrite) (s : order_store) : pm_result unit :=
  match event_field write EXPECTED_SESSION with
  | None => Ok tt
  | Some expected =>
      let event := qw_event write in
      current ← active_order_run_session (qw_apparatus write) (qe_order_id event) s;
      current ← ok_or current QueueActionNotAllowed;
      _ ← check (negb (json_eqb (to_value current) expected) ||
                 negb (bool_decide ((states ← st_queue_states s !! qw_apparatus write;
                                     states !! qe_order_id event)
                                    = Some (OrderState.as_str (qe_from_state event))))) QueueActionNotAllowed;
      _ ← check (negb (is_uncontrolled write current s)) QueueActionNotAllowed;
      if bool_decide (qe_action event = Action.Resume) then
        map ← ok_or (map_by_id (qe_order_id event) s) MapNotFound;
        _ ← check (negb (bool_decide (event_str write "temporary_pause_map_fingerprint"
                                      = Some (production_map_fingerprint map)))) WipRouteChanged;
        inputs ← ok_or (v ← event_field write "temporary_pause_held_inputs"; json_as_array v)
                   ProgressBatchNotResumable;
        for_each (λ input _, held_input_valid current s input) inputs tt
      else Ok tt
  end.

(** [temporary_pause::validate_write]: [true] when the pause was committed before. *)
Definition validate_write (write : QueueActionProgressWrite) (s : order_tables) : pm_result bool :=
  let event := qw_event write in
  let receipt :=
    if bool_decide (event_str write "event" = Some "temporary_pause")
    then List.find (λ e, qe_event_id e =s qe_event_id event) (st_queue_events s) else None in
  match receipt with
  | Some receipt =>
      _ ← matching_receipt receipt (qw_apparatus write) (qe_order_id event)
            (default "" (event_str write "session_id")) (qe_actor event);
      Ok true
  | None =>
      _ ← check_expected_queue "queue_expected_sequence" "queue_expected_states" write s;
      _ ← match event_field write "queue_expected_sequence",
                (v ← event_field write "queue_expected_anchor_sessions"; json_as_array v) with
          | Some _, Some anchors => for_each (check_anchor s) anchors tt
          | _, _ => Ok tt
          end;
      _ ← check_paused_session write s;
      Ok false
  end.

(** * Checks of the commit *)

Definition check_qolip_policy (write : QueueActionProgressWrite) (s : run_store) : pm_result unit :=
  match event_field write "qolip_confirmation" with
  | None => Ok tt
  | Some raw =>
      confirmation ← ok_or (from_value raw) QueueActionNotAllowed;
      require_policy confirmation (rs_qolip_start_settings s)
  end.

(** This store keeps no pallet membership. *)
Definition check_no_pallet (write : QueueActionProgressWrite) (s : run_store) : pm_result unit :=
  check (is_some (event_field write "output_paddon_code") ||
         bool_decide (payload_bool (qe_payload_json (qw_event write)) "use_active_paddon" = Some true) &&
         is_some (store_active_rezka_paddon (qw_apparatus write) (qe_actor (qw_event write)) (rs_pallets s)))
    StoreFailed.

(** The open session of the order on the apparatus. *)
Definition current_session (write : QueueActionProgressWrite) (e : ProductionMapError) (s : order_store)
  : pm_result RunSession :=
  current ← active_order_run_session (qw_apparatus write) (qe_order_id (qw_event write)) s;
  ok_or current e.

Definition check_bosma_closing (write : QueueActionProgressWrite) (s : order_store) : pm_result unit :=
  match event_field write "bosma_closing_expected_payload" with
  | None => Ok tt
  | Some expected =>
      current ← current_session write QueueActionNotAllowed s;
      let current : RunSession := current in
      check (negb (bool_decide (session_status current = RunStatus.RollDetached)) ||
             negb (bool_decide (event_str write "bosma_closing_session_id" = Some (session_id current))) ||
             negb (json_eqb (session_payload_json current) expected)) QueueActionNotAllowed
  end.

Definition check_output_revision (write : QueueActionProgressWrite) (s : order_store) : pm_result unit :=
  match event_field write "rezka_expected_output_revision" with
  | None => Ok tt
  | Some expected =>
      current ← current_session write RezkaOutputCycleConflict s;
      let current : RunSession := current in
      check (negb (bool_decide (event_str write "rezka_expected_session_id" = Some (session_id current))) ||
             negb (json_eqb (default (json_Z 0) (json_get "rezka_output_revision" (session_payload_json current)))
                            expected)) RezkaOutputCycleConflict
  end.

Definition check_bobina_mode (write : QueueActionProgressWrite) (s : order_store) : pm_result unit :=
  match event_field write "rezka_expected_bobina_mode" with
  | None => Ok tt
  | Some expected =>
      map ← ok_or (map_by_id (qe_order_id (qw_event write)) s) MapNotFound;
      let current := map_include_bobina_in_net map in
      check (negb (bool_decide (current = json_as_bool expected))) (RezkaBobinaModeChanged (default false current))
  end.

(** A resume takes a new roll only when the machine has none. *)
Definition check_resumed_input (write : QueueActionProgressWrite) (current : OrderProgressBatch)
    (s : order_store) : pm_result unit :=
  if negb (bool_decide (qe_action (qw_event write) = Action.Resume)) then Ok tt
  else
    proposed ← ok_or (qw_session write) WipRouteChanged;
    let proposed : RunSession := proposed in
    session ← ok_or (order_run_session (session_id proposed) s) ProgressBatchNotResumable;
    let session : RunSession := session in
    let payload := session_payload_json session in
    check (negb (match session_status session with RunStatus.Paused | RunStatus.RollDetached => true | _ => false end) ||
           is_some_and (payload_str payload "input_progress_batch_id") (λ id, negb (blank id)) ||
           (negb (bool_decide (payload_bool payload "lamination_astatka_shift_closed" = Some true)) &&
            (negb (is_layer_remainder current) ||
             negb (bool_decide (payload_str payload "layer_remainder_detached_input_batch_id"
                                = Some (batch_parent_batch_id current))))))
      ProgressBatchNotResumable.

(** The scanned roll and its route are what the service saw. *)
Definition check_expected_input (write : QueueActionProgressWrite) (s : order_store) : run_result unit :=
  match event_field write "wip_input_expected_batch" with
  | None => Ok tt
  | Some v =>
      expected ← lift (ok_or (from_value v : option OrderProgressBatch) WipRouteChanged);
      current ← lift (ok_or (progress_batch (batch_id expected) s) WipRouteChanged);
      _ ← lift (check_resumed_input write current s);
      map ← lift (ok_or (map_by_id (qe_order_id (qw_event write)) s) WipRouteChanged);
      _ ← lift (check (negb (batch_eqb current expected) ||
                       negb (bool_decide (event_str write "wip_input_map_fingerprint"
                                          = Some (production_map_fingerprint map)))) WipRouteChanged);
      normalized ← normalized_route_batch current;
      route ← lift (resolve_wip_input_route map normalized);
      lift (check (negb (bool_decide (qw_apparatus write ∈ route_consumer_apparatus_ids route)) ||
                   match qw_session write with
                   | Some session => negb (stage_node_ids_match_for_map map (route_stage_node_id route)
                                             (session_stage_node_id session))
                   | None => true
                   end) WipRouteChanged)
  end.

(** A roll is taken when it waits, when the same session has it, or when its own producer
    had consumed it by mistake. *)
Definition may_take (update : OrderProgressBatch) (current : option OrderProgressBatch) : bool :=
  is_some_and current (λ b,
    WipStatus.eqb (batch_wip_status b) WipStatus.Waiting ||
    (WipStatus.eqb (batch_wip_status b) WipStatus.InUse &&
     (batch_used_by_apparatus b =s batch_used_by_apparatus update) &&
     (batch_used_by_session_id b =s batch_used_by_session_id update)) ||
    wip_batch_was_consumed_by_producer b).

Definition check_taken (write : QueueActionProgressWrite) (s : order_store) : pm_result unit :=
  for_each (λ update _,
    check (WipStatus.eqb (batch_wip_status update) WipStatus.InUse &&
           negb (may_take update (st_order_progress_batches s !! batch_id update))) ProgressBatchNotAccepted)
    (qw_progress_batch_updates write) tt.

Definition commit_checks (write : QueueActionProgressWrite) (s : run_store) : run_result unit :=
  _ ← lift (validate_queue_progress_write write);
  _ ← lift (check_qolip_policy write s);
  _ ← lift (check_no_pallet write s);
  _ ← lift (check_expected_queue "bosma_expected_sequence" "bosma_expected_queue_states" write (ts_tables s));
  _ ← lift (check_bosma_closing write s);
  _ ← lift (check_output_revision write s);
  _ ← lift (check_bobina_mode write s);
  _ ← check_expected_input write s;
  lift (check_taken write s).

(** * The write *)

(** A completion that reports the stage gets the next number of the order. *)
Definition stamped_session (write : QueueActionProgressWrite) (now : Z) (s : order_store)
  : run_result (option RunSession) :=
  match qw_session write with
  | Some session =>
      if bool_decide (payload_bool (qe_payload_json (qw_event write)) "stage_work_report_submitted" = Some true)
      then
        let reports := omap work_report
          (List.filter (λ s : RunSession, session_order_id s =s session_order_id session) (sessions s)) in
        sequence ← expect (usize_checked (foldr Z.max 0%Z (report_sequence <$> reports) + 1));
        Some <$> stamp_work_report session (qe_event_id (qw_event write)) sequence (qe_actor (qw_event write)) now
      else Ok (Some session)
  | None => Ok None
  end.

(** No other open session holds a mould of the session. *)
Definition check_moulds (session : option RunSession) (s : order_store) : pm_result unit :=
  match session with
  | Some session =>
      if OrderRunStatus.is_open (session_status session) then
        for_each (λ code _,
          check (is_some_and (active_order_run_session_for_qolip code s)
                   (λ active : RunSession, session_id active <>s session_id session)) QolipAlreadyInUse)
          (session_qolip_codes session) tt
      else Ok tt
  | None => Ok tt
  end.

Definition opening_transition_allowed (current update : OpeningWipBatch) : bool :=
  match opening_wip_status update with
  | OpeningStatus.InUse => bool_decide (opening_wip_status current = OpeningStatus.Waiting)
  | OpeningStatus.Processed =>
      bool_decide (opening_wip_status current = OpeningStatus.InUse) &&
      (trim (opening_used_by_session_id current) =s trim (opening_used_by_session_id update))
  | OpeningStatus.Waiting => bool_decide (opening_wip_status current = OpeningStatus.InUse)
  | OpeningStatus.Void => false
  end.

Definition put_opening_update (update : OpeningWipBatch) : store_action := λ s,
  let same b := trim (opening_batch_id b) =s trim (opening_batch_id update) in
  match st_opening_wip_records s !! trim (opening_intake_id update) with
  | None => (s, Err (Fail ProgressBatchNotFound))
  | Some record =>
      match List.find same (record_batches record) with
      | None => (s, Err (Fail ProgressBatchNotFound))
      | Some current =>
          if opening_transition_allowed current update then
            (with_orders ((os_orders s) <| st_opening_wip_records :=
               <[trim (opening_intake_id update) :=
                   {| record_intake := record_intake record;
                      record_batches := change_first same (λ _, update) (record_batches record) |}]>
                 (st_opening_wip_records s) |>) s, Ok tt)
          else (s, Err (Fail ProgressBatchNotAccepted))
      end
  end.

(** A hold on the stage of a freeze, requested for the apparatus, is carried out with it. *)
Definition freeze_local (write : QueueActionProgressWrite) (record : OrderControlRecord) (now : Z)
    (local : OrderControlRecord) : OrderControlRecord :=
  match control_freeze_request local with
  | Some request =>
      if (control_order_id local =s control_order_id record) &&
         (control_stage_node_id local =s qe_stage_node_id (qw_event write)) &&
         bool_decide (control_state local = OrderControl.FreezeRequested) &&
         (freeze_target_apparatus request =s qw_apparatus write)
      then {| control_order_id := control_order_id local; control_stage_node_id := control_stage_node_id local;
              control_state := OrderControl.Frozen; control_actor := control_actor local;
              control_requested_at_unix := control_requested_at_unix local; control_frozen_at_unix := Some now;
              control_freeze_request := Some {|
                freeze_scope := freeze_scope request; freeze_stage_node_id := freeze_stage_node_id request;
                freeze_request_id := freeze_request_id request; freeze_status := FreezeRequestStatus.Frozen;
                freeze_target_session_id := freeze_target_session_id request;
                freeze_target_apparatus := freeze_target_apparatus request;
                freeze_target_worker_role := freeze_target_worker_role request;
                freeze_target_worker_ref := freeze_target_worker_ref request;
                freeze_target_worker_display_name := freeze_target_worker_display_name request;
                freeze_requested_at_unix := freeze_requested_at_unix request;
                freeze_transitioned_at_unix := now |};
              control_early_close := control_early_close local |}
      else local
  | None => local
  end.

Definition freeze_locals (write : QueueActionProgressWrite) (record : OrderControlRecord) (now : Z)
  : store_action := λ s,
  if is_empty (control_stage_node_id record) && bool_decide (qe_to_state (qw_event write) = OrderState.Frozen)
  then (with_orders ((os_orders s) <| st_stage_order_controls :=
          freeze_local write record now <$> st_stage_order_controls s |>) s, Ok tt)
  else (s, Ok tt).

Definition set_reservation (write : QueueActionProgressWrite) (status : ScheduleStatus.t) : store_action := λ s,
  match (id ← match ApparatusId_new (trim (qw_apparatus write)) with
              | Ok id => Ok id | Err _ => Err ScheduleInputInvalid end;
         update_reservation_status (rs_reservations s) (qe_order_id (qw_event write)) id status
           (qe_actor (qw_event write))) with
  | Ok table => (s <| rs_reservations := table |>, Ok tt)
  | Err e => (s, Err (Fail e))
  end.

(** [entry(id).or_insert(report)]. *)
Definition put_paint_report (report : ReturnedPaintRequest) : store_action := λ s,
  match rs_returned_paint_requests s !! paint_id report with
  | Some _ => (s, Ok tt)
  | None => (s <| rs_returned_paint_requests :=
                    <[paint_id report := report]> (rs_returned_paint_requests s) |>, Ok tt)
  end.

(** The fault tests inject. *)
Definition take_fault : store_action := λ s,
  if rs_fail_next_commit s then (s <| rs_fail_next_commit := false |>, Err (Fail StoreFailed)) else (s, Ok tt).

(** Everything that is written, in order. *)
Definition commit_writes (write : QueueActionProgressWrite) (session : option RunSession) (now : Z)
  : store_action :=
  let event := qw_event write in
  let order_id := qe_order_id event in
  foldr andThen skip
    [take_fault;
     each_opt (λ id, on_trials (consume_print_preflight_hold id order_id (qw_apparatus write) (qe_actor event) now))
       (qw_print_preflight_hold_id write);
     each_opt (λ id, on_trials (cancel_print_preflight_hold id order_id (qw_apparatus write) (qe_actor event) now))
       (qw_print_preflight_cancel_hold_id write);
     check_store (λ s, lift (check_moulds session s));
     each_opt (λ map, on_tables (λ t, let '(t, r) := put_map map t in (t, lift r))) (qw_map_update write);
     each_opt put_order_run_session session;
     each put_order_progress_batch
       (match qw_progress_batches write with
        | [] => option_list (qw_progress_batch write)
        | batches => batches
        end);
     each put_order_progress_batch (qw_progress_batch_updates write);
     each_opt put_order_progress_event (qw_progress_event write);
     each (λ kv : string * list string, on_tables (λ t,
             let '(t, r) := put_apparatus_sequence kv.1 kv.2 t in (t, lift r)))
       (btree_entries (qw_sequence_updates write));
     on_orders (put_apparatus_queue_states (qw_apparatus write) (qw_states write));
     on_orders (append_apparatus_queue_action_event event);
     each put_opening_update (qw_opening_wip_batch_updates write);
     each_opt (λ record, andThen (freeze_locals write record now) (on_tables (put_order_control_state record)))
       (qw_order_control_update write);
     each_opt (set_reservation write) (qw_schedule_reservation_status write);
     each_opt put_paint_report (qw_returned_paint_report write)].

(** [put_apparatus_queue_states_with_event_and_progress], at the time [now]. *)
Definition commit_queue_action (write : QueueActionProgressWrite) (now : Z) (s : run_store)
  : run_store * run_result unit :=
  match validate_write write (ts_tables s) with
  | Err e => (s, Err (Fail e))
  | Ok true => (s, Ok tt)
  | Ok false =>
      match (_ ← commit_checks write s; stamped_session write now s) with
      | Err e => (s, Err e)
      | Ok session => commit_writes write session now s
      end
  end.
End commit.
