(* ===== verification/QueueCommitFacts.v ===== *)
(** Correctness of the commit of a queue action: moulds stay with one session, a roll in use
    stays with its session, and a temporary pause is committed once. *)
From S2P Require Import Prelude RustStr F64 Json Errors Identity QueueState OrderLayout MapDefinition Formula Compiler Bfs Chain Projection Scheduler Progress ProgressFacts WipRoute Lifecycle StageExecution OrderRefresh OrderStore Preflight Epc CutLayout Paddon Metrics Lineage LineageFacts RunStore Warehouse WarehouseFacts QueueCommit.

Create HintDb frames.

Section facts.
Context `{J : Json} `{!JsonLaws J} `{C : !RouteCodec} `{R : !ReportCodec} `{!Serde (list OrderLane)}.
Context `{!Serde (list OrderRunInputLink)} `{!Serde (list RezkaActivePartialRoll)}.
Context `{!Serde (list ProgressBatchInputLink)} `{!Serde ProductionQrSessionResources}.
Context `{!Serde AutomaticQolipConfirmation} `{!Serde OrderProgressBatch} `{!Serde RunSession}.

(** * Conditions on actions *)

(** From [P] the action ends in [Q], or fails in [E]. *)
Definition triple (P Q E : run_store → Prop) (a : store_action) : Prop :=
  ∀ s, P s → match a s with (s', Ok _) => Q s' | (s', Err _) => E s' end.

(** The action does not change what [f] reads. *)
Definition keeps {A} (f : run_store → A) (a : store_action) : Prop := ∀ s, f (a s).1 = f s.

Lemma triple_andThen P Q R' E a b : triple P Q E a → triple Q R' E b → triple P R' E (andThen a b).
Proof. intros Ha Hb s Hs. unfold andThen. specialize (Ha s Hs). destruct (a s) as [s' [u|e]]; [by apply Hb|done]. Qed.

Lemma triple_skip P E : triple P P E skip.
Proof. intros s Hs. done. Qed.

Lemma triple_each {A} P E (f : A → store_action) l :
  (∀ x, x ∈ l → triple P P E (f x)) → triple P P E (each f l).
Proof.
  induction l as [|x l IH]; intros Hf; [apply triple_skip|]. simpl.
  eapply triple_andThen; [apply Hf; set_solver|apply IH; set_solver].
Qed.

Lemma keeps_triple {A} (f : run_store → A) (P : A → Prop) (E : run_store → Prop) a :
  keeps f a → (∀ s, P (f s) → E s) → triple (λ s, P (f s)) (λ s, P (f s)) E a.
Proof. intros Hk HE s Hs. specialize (Hk s). destruct (a s) as [s' [u|e]]; simpl in *; [|apply HE]; by rewrite Hk. Qed.

Lemma keeps_andThen {A} (f : run_store → A) a b : keeps f a → keeps f b → keeps f (andThen a b).
Proof.
  intros Ha Hb s. unfold andThen. specialize (Ha s). destruct (a s) as [s' [u|e]]; simpl in *; [|done].
  by rewrite Hb.
Qed.
Lemma keeps_each {A B} (f : run_store → B) (g : A → store_action) l :
  (∀ x, keeps f (g x)) → keeps f (each g l).
Proof. intros Hg. induction l as [|x l IH]; [by intros s|]. simpl. by apply keeps_andThen. Qed.
Lemma keeps_each_opt {A B} (f : run_store → B) (g : A → store_action) o :
  (∀ x, keeps f (g x)) → keeps f (each_opt g o).
Proof. intros Hg. destruct o; [apply Hg|by intros s]. Qed.
Lemma keeps_check {A} (f : run_store → A) c : keeps f (check_store c).
Proof. by intros s. Qed.

(** * What the writes leave alone *)

Definition session_table (s : run_store) := st_order_run_sessions s.
Definition batch_table (s : run_store) := st_order_progress_batches s.
Definition event_log (s : run_store) := st_queue_events s.
Definition core (s : run_store) := (session_table s, batch_table s, event_log s).

Lemma keeps_sessions a : keeps core a → keeps session_table a.
Proof. intros H s. specialize (H s). by injection H. Qed.
Lemma keeps_batches a : keeps core a → keeps batch_table a.
Proof. intros H s. specialize (H s). by injection H. Qed.
Lemma keeps_events a : keeps core a → keeps event_log a.
Proof. intros H s. specialize (H s). by injection H. Qed.

(** An action on the tables, when it keeps them. *)
Lemma on_tables_keeps {A} (g : order_store → A) (f : order_tables → order_tables * run_result unit) :
  (∀ t : order_tables, g (f t).1 = g t) → keeps (λ s : run_store, g s) (on_tables f).
Proof. intros Hf s. unfold on_tables. specialize (Hf (ts_tables s)). by destruct (f (ts_tables s)). Qed.

Lemma on_orders_keeps {A} (g : order_store → A) f :
  (∀ o, g (f o).1 = g o) → keeps (λ s : run_store, g s) (on_orders f).
Proof. intros Hf s. unfold on_orders. specialize (Hf (os_orders s)). by destruct (f (os_orders s)). Qed.

Definition order_core (o : order_store) :=
  (st_order_run_sessions o, st_order_progress_batches o, st_queue_events o).

Lemma take_fault_keeps : keeps core take_fault.
Proof. intros s. unfold take_fault. by destruct (rs_fail_next_commit s). Qed.

Lemma on_trials_keeps (f : trial_store → trial_store * pm_result unit) : (∀ t, ts_tables (f t).1 = ts_tables t) → keeps core (on_trials f).
Proof.
  intros Hf s. unfold on_trials. specialize (Hf (rs_trials s)). destruct (f _) as [t r].
  unfold core, session_table, batch_table, event_log. simpl in *. by rewrite Hf.
Qed.

Lemma settle_keeps id order_id apparatus actor now allowed status :
  keeps core (on_trials (settle_hold id order_id apparatus actor now allowed status)).
Proof. apply on_trials_keeps. intros t. unfold settle_hold. by destruct (mbind _ _). Qed.

Lemma consume_keeps id order_id apparatus actor now :
  keeps core (on_trials (consume_print_preflight_hold id order_id apparatus actor now)).
Proof. apply settle_keeps. Qed.
Lemma cancel_keeps id order_id apparatus actor now :
  keeps core (on_trials (cancel_print_preflight_hold id order_id apparatus actor now)).
Proof. apply settle_keeps. Qed.

Lemma put_map_keeps map : keeps core (on_tables (λ t, let '(t, r) := put_map map t in (t, lift r))).
Proof.
  apply (on_tables_keeps order_core). intros t. unfold put_map. by destruct (mbind _ _).
Qed.

Lemma put_sequence_keeps apparatus ids :
  keeps core (on_tables (λ t, let '(t, r) := put_apparatus_sequence apparatus ids t in (t, lift r))).
Proof.
  apply (on_tables_keeps order_core). intros t. unfold put_apparatus_sequence. by destruct (ApparatusId_new _).
Qed.

Lemma refresh_core ids o : order_core (refresh_production_order_lifecycles ids o).1 = order_core o.
Proof. by apply (refresh_keeps order_core). Qed.

Lemma refresh_tables_core ids t : order_core (refresh ids t).1 = order_core t.
Proof.
  unfold refresh. pose proof (refresh_core ids t) as H. by destruct (refresh_production_order_lifecycles _ _).
Qed.

Lemma put_states_keeps apparatus states : keeps core (on_orders (put_apparatus_queue_states apparatus states)).
Proof.
  apply (on_orders_keeps order_core). intros o. unfold put_apparatus_queue_states.
  destruct (ApparatusId_new _); [|done]. by rewrite refresh_core.
Qed.

Lemma cancel_order_core id at_ (t t' : order_tables) : cancel_order id at_ t = Ok t' → order_core t' = order_core t.
Proof.
  unfold cancel_order. destruct (_ !! _); [|by intros [= <-]]. intros (? & _ & [= <-])%bind_Ok. done.
Qed.

Lemma put_control_keeps record : keeps core (on_tables (put_order_control_state record)).
Proof.
  apply (on_tables_keeps order_core). intros t. unfold put_order_control_state, put_order_control, put_stage_control.
  destruct (blank _).
  - destruct (mbind _ _) as [closed|] eqn:E; [|done]. rewrite refresh_tables_core.
    apply bind_Ok in E as (u & _ & E). unfold apply_early_close in E.
    assert (order_core closed = order_core t) as <-.
    { destruct (_ ≫= _); [|by injection E as <-]. apply bind_Ok in E as (t' & E & [= <-]).
      by apply cancel_order_core in E. }
    destruct (control_freeze_request record); [|done]. by destruct (is_empty _).
  - destruct (mbind _ _) as [[request apparatus]|]; [|done]. by rewrite refresh_tables_core.
Qed.

Lemma freeze_locals_keeps write record now : keeps core (freeze_locals write record now).
Proof. intros s. unfold freeze_locals. by destruct (_ && _). Qed.
Lemma put_opening_keeps update : keeps core (put_opening_update update).
Proof. intros s. unfold put_opening_update. repeat case_match; done. Qed.
Lemma set_reservation_keeps write status : keeps core (set_reservation write status).
Proof. intros s. unfold set_reservation. by destruct (mbind _ _). Qed.
Lemma put_paint_keeps report : keeps core (put_paint_report report).
Proof. intros s. unfold put_paint_report. by destruct (_ !! _). Qed.
Lemma put_progress_event_keeps event : keeps core (put_order_progress_event event).
Proof. intros s. unfold put_order_progress_event. by destruct (require_apparatus_id _). Qed.

Lemma put_session_keeps_batches session : keeps batch_table (put_order_run_session session).
Proof. intros s. unfold put_order_run_session. by destruct (stored_session _). Qed.
Lemma put_session_keeps_events session : keeps event_log (put_order_run_session session).
Proof. intros s. unfold put_order_run_session. by destruct (stored_session _). Qed.

Lemma put_batch_keeps {A} (f : order_store → A) batch :
  (∀ (o : order_store) lc, f (o <| st_lifecycles := lc |>) = f o) →
  (∀ (o : order_store) t, f (o <| st_order_progress_batches := t |>) = f o) →
  keeps (λ s : run_store, f s) (put_order_progress_batch batch).
Proof.
  intros H1 H2 s. unfold put_order_progress_batch. destruct (check_batch batch); [|done].
  rewrite refresh_order_keeps by done. apply H2.
Qed.
Lemma put_batch_keeps_sessions batch : keeps session_table (put_order_progress_batch batch).
Proof. by apply (put_batch_keeps st_order_run_sessions). Qed.
Lemma put_batch_keeps_events batch : keeps event_log (put_order_progress_batch batch).
Proof. by apply (put_batch_keeps st_queue_events). Qed.

Lemma append_keeps {A} (f : order_store → A) event :
  (∀ (o : order_store) lc, f (o <| st_lifecycles := lc |>) = f o) →
  (∀ (o : order_store) l, f (o <| st_queue_events := l |>) = f o) →
  keeps (λ s : run_store, f s) (on_orders (append_apparatus_queue_action_event event)).
Proof.
  intros H1 H2. apply on_orders_keeps. intros o. unfold append_apparatus_queue_action_event.
  destruct (validate_queue_event event); [|done]. rewrite refresh_keeps by done. apply H2.
Qed.
Lemma append_keeps_sessions event : keeps session_table (on_orders (append_apparatus_queue_action_event event)).
Proof. by apply (append_keeps st_order_run_sessions). Qed.
Lemma append_keeps_batches event : keeps batch_table (on_orders (append_apparatus_queue_action_event event)).
Proof. by apply (append_keeps st_order_progress_batches). Qed.

Hint Resolve take_fault_keeps consume_keeps cancel_keeps put_map_keeps put_sequence_keeps put_states_keeps put_control_keeps
  freeze_locals_keeps put_opening_keeps set_reservation_keeps put_paint_keeps put_progress_event_keeps
  keeps_andThen keeps_each keeps_each_opt keeps_check put_session_keeps_batches put_session_keeps_events
  put_batch_keeps_sessions put_batch_keeps_events append_keeps_sessions append_keeps_batches : frames.
Hint Resolve keeps_sessions keeps_batches keeps_events | 10 : frames.

(** One action of the sequence that keeps what the condition reads. *)
Ltac next_keeps f P :=
  eapply triple_andThen; [apply (keeps_triple f P); [solve [auto 6 with frames]|by intros]|].

(** A commit, from a condition and a failure condition that the writes establish. *)
Lemma commit_spec (P E : run_store → Prop) write now s :
  P s → (∀ s, P s → E s) →
  (∀ session, commit_checks write s = Ok tt → stamped_session write now s = Ok session →
     match commit_writes write session now s with (s', _) => E s' end) →
  E (commit_queue_action write now s).1.
Proof.
  intros HP HE Hw. unfold commit_queue_action. destruct (validate_write _ _) as [[|]|]; simpl; auto.
  destruct (mbind _ _) as [session|] eqn:H; simpl; [|by auto]. apply bind_Ok in H as ([] & H1 & H2).
  specialize (Hw session H1 H2). by destruct (commit_writes _ _ _ _).
Qed.

(** * Moulds *)

(** No other session of the store holds a mould of this one. *)
Definition moulds_free (session : RunSession) (table : gmap string RunSession) : Prop :=
  ∀ k (s' : RunSession) code, table !! k = Some s' → holds session code → holds s' code →
    k = trim (session_id session).

Lemma check_moulds_free session (o : order_store) :
  moulds_ok (st_order_run_sessions o) → check_moulds (Some session) o = Ok tt →
  moulds_free session (st_order_run_sessions o).
Proof.
  intros Hok Hc k s' code Hk [Hm (c & Hin & Hcode)] Hh'. unfold check_moulds in Hc.
  unfold keeps_machine in Hm. breflect.
  match goal with H : OrderRunStatus.is_open _ = true |- _ => rewrite H in Hc end.
  rewrite for_each_checks in Hc. specialize (Hc c Hin). apply check_Ok in Hc.
  destruct (session_codes_tidy _ _ Hin) as [Ht Hne].
  assert (holds s' c) as Hhc.
  { destruct Hh' as [? (c' & ? & Hs)]. split; [done|]. exists c'. split; [done|].
    eapply same_code_trans; [done|]. by apply same_code_sym. }
  destruct (lookup_holder o c k s' Ht Hne Hk Hhc) as (a & Ha & Hac & k' & Hk').
  rewrite Ha in Hc. simpl in Hc. breflect.
  rewrite (mo_exclusive _ Hok k k' s' a c), (mo_keys _ Hok k' a) by done. congruence.
Qed.

(** C4: Committing a queue action keeps the moulds exclusive, whatever the
    outcome of the commit: when no mould is held by two open runs of the store
    before it, none is afterwards, where codes are compared up to case and a run
    keeps its moulds until it ends, is sent to the end of the queue, or gives
    them back when it freezes. *)
Theorem moulds_stay_exclusive write now (s : run_store) :
  moulds_ok (st_order_run_sessions s) →
  moulds_ok (st_order_run_sessions (commit_queue_action write now s).1).
Proof.
  intros Hok. set (E := λ s : run_store, moulds_ok (session_table s)).
  apply (commit_spec E E); [done|done|]. intros session _ _.
  assert (triple E E E (commit_writes write session now)) as Ht; [|specialize (Ht s Hok); by break].
  unfold commit_writes. simpl foldr. do 3 next_keeps session_table moulds_ok.
  apply (triple_andThen _ (λ s : run_store, E s ∧ from_option (λ x, moulds_free x (session_table s)) True session)).
  { intros s1 H1. unfold check_store. destruct (check_moulds session s1) as [[]|] eqn:Hc; [|done]. simpl.
    split; [done|]. destruct session as [x|]; [|done]. by apply check_moulds_free. }
  eapply (triple_andThen _ (λ s : run_store, E s ∧ from_option (λ x, moulds_free x (session_table s)) True session)).
  { apply (keeps_triple session_table (λ t, moulds_ok t ∧ from_option (λ x, moulds_free x t) True session));
      [auto 6 with frames|by intros ? [? _]]. }
  apply (triple_andThen _ E).
  { intros s1 [H1 Hf]. destruct session as [x|]; [|done]. simpl.
    pose proof (put_session_keeps_moulds x s1 H1 Hf) as H. by destruct (put_order_run_session x s1) as [? [|]]. }
  do 10 next_keeps session_table moulds_ok. apply triple_skip.
Qed.

(** * Rolls *)

(** The table's keys are trimmed. *)
Definition keys_tidy {A} (table : gmap string A) : Prop := ∀ k, is_Some (table !! k) → trim k = k.

Definition may_use (b b' : OrderProgressBatch) : Prop :=
  batch_wip_status b = WipStatus.Waiting ∨
  (batch_wip_status b = WipStatus.InUse ∧
   batch_used_by_session_id b = batch_used_by_session_id b' ∧
   batch_used_by_apparatus b = batch_used_by_apparatus b') ∨
  wip_batch_was_consumed_by_producer b = true.

(** What the commit may do to the roll [k]. *)
Definition taken_rightly (old : gmap string OrderProgressBatch) (k : string) (t : gmap string OrderProgressBatch)
  : Prop :=
  ∀ b', t !! k = Some b' → batch_wip_status b' = WipStatus.InUse → ∃ b, old !! k = Some b ∧ may_use b b'.

Lemma may_take_spec update b : batch_wip_status update = WipStatus.InUse →
  may_take update (Some b) = true → may_use b update.
Proof.
  unfold may_take. simpl. intros _ H. apply orb_true_iff in H as [H|?]; [|by right; right].
  apply orb_true_iff in H as [H|H]; [left; by destruct (batch_wip_status b)|right; left]. breflect.
  split_and!; [by destruct (batch_wip_status b)|done..].
Qed.

Lemma put_batch_table batch s : batch_table (put_order_progress_batch batch s).1 = batch_table s ∨
  batch_table (put_order_progress_batch batch s).1 = insert_batch batch (batch_table s).
Proof.
  unfold put_order_progress_batch. destruct (check_batch batch); [right|by left].
  unfold batch_table. by rewrite (refresh_order_keeps st_order_progress_batches).
Qed.

Lemma put_batch_triple old k E batch :
  (∀ s, taken_rightly old k (batch_table s) → E s) →
  (trim (batch_id batch) = k → batch_wip_status batch = WipStatus.InUse →
     ∃ b, old !! k = Some b ∧ may_use b batch) →
  triple (λ s, taken_rightly old k (batch_table s)) (λ s, taken_rightly old k (batch_table s)) E
    (put_order_progress_batch batch).
Proof.
  intros HE Hb s Hs.
  assert (taken_rightly old k (batch_table (put_order_progress_batch batch s).1)) as H.
  { destruct (put_batch_table batch s) as [->| ->]; [done|]. intros b'. unfold insert_batch.
    rewrite lookup_insert_Some. intros [[Hk <-]|[_ H]]; [|by apply Hs].
    unfold keep_times. destruct (batch_table s !! trim (batch_id batch)) as [original|];
      simpl; intros Huse; destruct (Hb Hk Huse) as (b & ? & ?); by exists b. }
  destruct (put_order_progress_batch batch s) as [s' [|]]; simpl in *; auto.
Qed.

(** C5: A roll that a commit leaves in use, other than the new outputs it
    writes, was waiting before the commit, or was already with the same session
    on the same apparatus, or had been consumed by mistake by the machine that
    made it: no commit takes a roll away from another session. *)
Theorem taken_rolls_were_free write now (s : run_store) k b' :
  keys_tidy (st_order_progress_batches s) →
  (∀ b, b ∈ option_list (qw_progress_batch write) ++ qw_progress_batches write → trim (batch_id b) ≠ k) →
  st_order_progress_batches (commit_queue_action write now s).1 !! k = Some b' →
  batch_wip_status b' = WipStatus.InUse →
  ∃ b, st_order_progress_batches s !! k = Some b ∧ may_use b b'.
Proof.
  intros Htidy Hnew. pose (P := taken_rightly (batch_table s) k). revert b'.
  apply (commit_spec (λ s', P (batch_table s')) (λ s', P (batch_table s'))); [|done|].
  { intros b' Hb' Huse. exists b'. split; [done|]. right. by left. }
  intros session Hc _.
  assert (triple (λ s', P (batch_table s')) (λ s', P (batch_table s')) (λ s', P (batch_table s'))
            (commit_writes write session now)) as Ht.
  { unfold commit_writes. simpl foldr. do 6 next_keeps batch_table P.
    eapply triple_andThen.
    { apply triple_each. intros b Hb. apply put_batch_triple; [done|]. intros Hk. exfalso.
      apply (Hnew b); [|done]. destruct (qw_progress_batches write); set_solver. }
    eapply triple_andThen.
    { apply triple_each. intros b Hb. apply put_batch_triple; [done|]. intros Hk Huse.
      unfold commit_checks in Hc. inv_run. unfold check_taken in Hc. rewrite for_each_checks in Hc.
      specialize (Hc b Hb). apply check_Ok in Hc. rewrite Huse in Hc. simpl in Hc. apply negb_false_iff in Hc.
      change (st_order_progress_batches s) with (batch_table s) in Hc, Htidy.
      destruct (batch_table s !! batch_id b) as [b0|] eqn:E; [|done].
      rewrite <-Hk, (Htidy (batch_id b)) by by rewrite E. exists b0. split; [done|]. by apply may_take_spec. }
    do 8 next_keeps batch_table P. apply triple_skip. }
  specialize (Ht s). destruct (commit_writes _ _ _ _) as [s' [|]]; apply Ht; intros b' ??; exists b'; (split; [done|]; right; by left).
Qed.

(** * Temporary pauses *)

Lemma append_log event s s' : on_orders (append_apparatus_queue_action_event event) s = (s', Ok tt) →
  event_log s' = event_log s ++ [event].
Proof.
  unfold on_orders, append_apparatus_queue_action_event. destruct (validate_queue_event event); [|done].
  match goal with |- context [refresh_production_order_lifecycles ?ids ?o] =>
    pose proof (refresh_keeps st_queue_events ids o) as H;
    destruct (refresh_production_order_lifecycles ids o) as [o' r] end.
  simpl in *. intros [= <- ->]. by apply H.
Qed.

(** A commit that succeeds was committed before, or records its event. *)
Lemma commit_log write now s s' : commit_queue_action write now s = (s', Ok tt) →
  (s' = s ∧ validate_write write (ts_tables s) = Ok true) ∨
  (validate_write write (ts_tables s) = Ok false ∧ event_log s' = event_log s ++ [qw_event write]).
Proof.
  unfold commit_queue_action. destruct (validate_write _ _) as [[|]|]; [by intros [= <-]; left| |done].
  intros H. right. split; [done|]. destruct (mbind _ _) as [session|]; [|done].
  pose (P0 := λ l : list ApparatusQueueActionEvent, l = event_log s).
  pose (P1 := λ l : list ApparatusQueueActionEvent, l = event_log s ++ [qw_event write]).
  assert (triple (λ s', P0 (event_log s')) (λ s', P1 (event_log s')) (λ _, True)
            (commit_writes write session now)) as Ht.
  { unfold commit_writes. simpl foldr. do 11 next_keeps event_log P0.
    eapply (triple_andThen _ (λ s', P1 (event_log s'))).
    { intros s1 H1. destruct (on_orders _ s1) as [s2 [[]|]] eqn:E; [|done]. unfold P1.
      rewrite (append_log _ _ _ E). by rewrite H1. }
    do 4 next_keeps event_log P1. apply triple_skip. }
  specialize (Ht s eq_refl). by rewrite H in Ht.
Qed.

Lemma find_app_first {A} (f : A → bool) l1 l2 :
  List.find f (l1 ++ l2) = match List.find f l1 with Some x => Some x | None => List.find f l2 end.
Proof. induction l1 as [|x l1 IH]; simpl; [done|]. by destruct (f x). Qed.

(** C6: A temporary pause is committed once: after it succeeded, committing a
    pause with the same id never changes the store again, whatever was recorded
    since, and committing the same pause again succeeds. *)
Theorem temporary_pause_committed_once write now s s1 :
  commit_queue_action write now s = (s1, Ok tt) →
  event_str write "event" = Some "temporary_pause" → is_Some (event_str write "session_id") →
  qe_apparatus (qw_event write) = qw_apparatus write →
  ∀ write' now' t, event_log s1 `prefix_of` event_log t →
  event_str write' "event" = Some "temporary_pause" →
  qe_event_id (qw_event write') = qe_event_id (qw_event write) →
  (commit_queue_action write' now' t).1 = t ∧
  (write' = write → (commit_queue_action write' now' t).2 = Ok tt).
Proof.
  intros Hc Hp [session_id Hid] Ha write' now' t [more Ht] Hp' Hev.
  pose (found := λ log, List.find (λ e, qe_event_id e =s qe_event_id (qw_event write)) log).
  assert (∃ receipt, found (event_log t) = Some receipt ∧
    matching_receipt receipt (qw_apparatus write) (qe_order_id (qw_event write))
      (default "" (event_str write "session_id")) (qe_actor (qw_event write)) = Ok tt) as (receipt & Hr & Hm).
  { unfold found. rewrite Ht, find_app_first.
    destruct (commit_log _ _ _ _ Hc) as [[-> Hv]|[Hv Hlog]]; unfold validate_write in Hv; rewrite Hp in Hv;
      (rewrite bool_decide_eq_true_2 in Hv by done); fold (event_log s) (found (event_log s)) in *;
      destruct (found (event_log s)) as [receipt|] eqn:E.
    - exists receipt. apply bind_Ok in Hv as ([] & Hv & _). done.
    - by inv_run.
    - by apply bind_Ok in Hv as (? & _ & ?).
    - rewrite Hlog. fold (found (event_log s ++ [qw_event write])). unfold found in E |- *.
      rewrite find_app_first, E. simpl. rewrite String.eqb_refl. eexists. split; [done|].
      unfold matching_receipt. rewrite Ha, !String.eqb_refl. unfold event_str, event_field in Hid |- *.
      unfold payload_str. rewrite Hid. simpl. by rewrite bool_decide_eq_true_2. }
  unfold commit_queue_action, validate_write. rewrite Hp', bool_decide_eq_true_2, Hev by done.
  fold (event_log t) (found (event_log t)). rewrite Hr. split; [|intros ->; by rewrite Hm].
  clear Hm. by destruct (matching_receipt receipt (qw_apparatus write') _ _ _).
Qed.
End facts.
