(* ===== verification/Materials.v ===== *)
(** Raw materials of an order.

    Models [src/core/production_map/materials/implementation.rs] (rules, assignments, what a
    start must scan), [materials/support.rs] (matching assignments to the slots of a rule) and
    [materials/memory_store.rs] (the table of assignments).  The Unicode case tables of the
    standard library are a parameter; on ASCII text they are the ASCII functions. *)
From Stdlib Require Import Ascii.
From S2P Require Import Prelude RustStr F64 Json Errors Identity QueueState OrderLayout MapDefinition Formula Compiler Bfs Chain Projection Scheduler Progress WipRoute Lifecycle StageExecution OrderRefresh OrderStore Visibility Preflight Epc CutLayout Paddon Metrics Lineage RunStore Warehouse.

(** * Text *)

Class UnicodeCase := { unicode_uppercase : string → string; unicode_lowercase : string → string }.

Definition to_uppercase `{UnicodeCase} (s : string) : string :=
  if all_bytes is_ascii s then to_ascii_uppercase s else unicode_uppercase s.
Definition to_lowercase `{UnicodeCase} (s : string) : string :=
  if all_bytes is_ascii s then to_ascii_lowercase s else unicode_lowercase s.

(** [BTreeSet<String>] as a list. *)
Definition set_list (s : gset string) : list string := sorted_strings (elements s).

(** * Data (implementation.rs) *)

Module StartPolicy.
Inductive t := StateAll | RequirementGroups.
End StartPolicy.
#[global] Instance StartPolicy_eq_dec : EqDecision StartPolicy.t.
Proof. solve_decision. Defined.

Record ApparatusMaterialRequirementGroup := {
  group_name : string;
  group_item_groups : list string;
  group_min_required_count : Z;
}.

Record ApparatusMaterialRule := {
  rule_apparatus_id : ApparatusId;
  rule_apparatus : string;
  rule_requires_material : bool;
  rule_start_policy : StartPolicy.t;
  rule_item_groups : list string;
  rule_requirement_groups : list ApparatusMaterialRequirementGroup;
}.

Record RawMaterialAssignmentInput := {
  input_order_id : string;
  input_barcode : string;
  input_item_code : string;
  input_item_name : string;
  input_item_group : string;
  input_item_group_path : list string;
  input_apparatus : string;
}.

Record RawMaterialAssignmentDeleteInput := { delete_order_id : string; delete_barcode : string }.

Record RawMaterialAssignment := {
  asg_order_id : string;
  asg_apparatus_id : ApparatusId;
  asg_apparatus : string;
  asg_barcode : string;
  asg_item_code : string;
  asg_item_name : string;
  asg_item_group : string;
  asg_by_role : string;
  asg_by_ref : string;
  asg_by_display_name : string;
  asg_assigned_at : string;
}.
#[global] Instance RawMaterialAssignment_eq_dec : EqDecision RawMaterialAssignment.
Proof. solve_decision. Defined.
#[global] Instance RawMaterialAssignment_rebuild : Rebuild RawMaterialAssignment := λ a, {|
  asg_order_id := asg_order_id a; asg_apparatus_id := asg_apparatus_id a;
  asg_apparatus := asg_apparatus a; asg_barcode := asg_barcode a; asg_item_code := asg_item_code a;
  asg_item_name := asg_item_name a; asg_item_group := asg_item_group a; asg_by_role := asg_by_role a;
  asg_by_ref := asg_by_ref a; asg_by_display_name := asg_by_display_name a;
  asg_assigned_at := asg_assigned_at a |}.

Record RawMaterialStartRequirements := {
  req_policy : StartPolicy.t;
  req_requires_material : bool;
  req_material_scan_required : bool;
  req_requirement_groups : list ApparatusMaterialRequirementGroup;
  req_assigned_barcodes : list string;
  req_staged_barcodes : list string;
  req_eligible_barcodes : list string;
  req_required_scan_count : nat;
  req_matched_scan_count : nat;
  req_assignments_satisfied : bool;
  req_scan_satisfied : bool;
}.
#[global] Instance RawMaterialStartRequirements_rebuild : Rebuild RawMaterialStartRequirements := λ r, {|
  req_policy := req_policy r; req_requires_material := req_requires_material r;
  req_material_scan_required := req_material_scan_required r;
  req_requirement_groups := req_requirement_groups r; req_assigned_barcodes := req_assigned_barcodes r;
  req_staged_barcodes := req_staged_barcodes r; req_eligible_barcodes := req_eligible_barcodes r;
  req_required_scan_count := req_required_scan_count r; req_matched_scan_count := req_matched_scan_count r;
  req_assignments_satisfied := req_assignments_satisfied r; req_scan_satisfied := req_scan_satisfied r |}.

(** * Support (support.rs) *)

Definition parse_apparatus_id (value : string) : pm_result ApparatusId :=
  match ApparatusId_new (trim value) with Ok id => Ok id | Err _ => Err RawMaterialInvalidInput end.

Definition parse_optional_apparatus_id (value : string) : pm_result (option ApparatusId) :=
  if blank value then Ok None else id ← parse_apparatus_id value; Ok (Some id).

Definition canonical_apparatuses_match (candidate : string) (expected : ApparatusId) : bool :=
  match parse_apparatus_id candidate with
  | Ok candidate => same_apparatus_id candidate expected
  | Err _ => false
  end.

Definition assigned_apparatus_contains (expected : ApparatusId) (assigned : list string) : bool :=
  existsb (λ candidate, canonical_apparatuses_match candidate expected) assigned.

Definition item_groups_match (groups item_group_path : list string) : bool :=
  existsb (λ group, existsb (λ candidate, eq_ignore_ascii_case (trim group) (trim candidate))
    item_group_path) groups.

Definition rule_matches (rule : ApparatusMaterialRule) (apparatus : ApparatusId)
    (item_group_path : list string) : bool :=
  same_apparatus_id (rule_apparatus_id rule) apparatus &&
  (item_groups_match (rule_item_groups rule) item_group_path ||
   existsb (λ group, item_groups_match (group_item_groups group) item_group_path)
     (rule_requirement_groups rule)).

Definition normalize_barcode (value : string) : string := to_ascii_uppercase (trim value).

Definition parse_material_barcodes (values : list string) : list string :=
  List.filter (λ b, negb (is_empty b))
    (trim <$> concat ((λ value, split_on "," value) <$> values)).

Definition normalized_barcodes_list (values : list string) : gset string :=
  list_to_set (List.filter (λ b, negb (is_empty b)) (normalize_barcode <$> values)).

Definition same_barcode (left right : string) : bool := normalize_barcode left =s normalize_barcode right.

Definition blank_default (value fallback : string) : string :=
  let value := trim value in if is_empty value then trim fallback else value.

(** Groups not seen before, compared without case. *)
Fixpoint distinct_groups `{UnicodeCase} (seen : gset string) (groups : list string) : list string :=
  match groups with
  | [] => []
  | g :: groups =>
      if bool_decide (to_lowercase g ∈ seen) then distinct_groups seen groups
      else g :: distinct_groups ({[to_lowercase g]} ∪ seen) groups
  end.

Definition normalize_group_path `{UnicodeCase} (item_group : string) (item_group_path : list string)
  : list string :=
  distinct_groups ∅ (List.filter (λ g, negb (is_empty g)) (trim <$> item_group :: item_group_path)).

(** * Slots of a rule (support.rs) *)

(** [usize::from(min_required_count.max(1))]. *)
Definition slots_of_group (group : ApparatusMaterialRequirementGroup) : nat :=
  Z.to_nat (Z.max (group_min_required_count group) 1).

Definition material_requirement_slot_count (rule : ApparatusMaterialRule) : nat :=
  match rule_requirement_groups rule with
  | [] => length (rule_item_groups rule)
  | groups => sum_list (slots_of_group <$> groups)
  end.

Definition material_requirement_slots (rule : ApparatusMaterialRule) : list (list string) :=
  match rule_requirement_groups rule with
  | [] => (λ g, [g]) <$> rule_item_groups rule
  | groups => concat ((λ g, replicate (slots_of_group g) (group_item_groups g)) <$> groups)
  end.

Definition effective_requirement_groups (rule : ApparatusMaterialRule)
  : list ApparatusMaterialRequirementGroup :=
  match rule_requirement_groups rule with
  | [] => (λ g, {| group_name := g; group_item_groups := [g]; group_min_required_count := 1 |})
            <$> rule_item_groups rule
  | groups => groups
  end.

Definition slot_accepts (item_groups : list string) (assignment : RawMaterialAssignment) : bool :=
  existsb (λ g, eq_ignore_ascii_case g (trim (asg_item_group assignment))) item_groups.

(** * Matching assignments to slots (support.rs) *)

Section matching.
Context (assignments : list RawMaterialAssignment) (slots : list (list string)).

(** [matched_slots], and the slots [visited] by the search under way. *)
Definition matching_state : Type := list (option nat) * list bool.

(** The loop over the slots from [slot_index] on; [retry] moves the assignment
    that holds a slot to another one. *)
Fixpoint scan_slots (retry : nat → matching_state → bool * matching_state)
    (assignment_index slot_index : nat) (rest : list (list string)) (st : matching_state)
  : bool * matching_state :=
  match rest with
  | [] => (false, st)
  | item_groups :: rest =>
      let '(matched, visited) := st in
      let accepted := is_some_and (assignments !! assignment_index) (slot_accepts item_groups) in
      if default false (visited !! slot_index) || negb accepted
      then scan_slots retry assignment_index (S slot_index) rest st
      else
        let visited := <[slot_index := true]> visited in
        match matched !! slot_index with
        | Some (Some holder) =>
            let '(moved, (matched, visited)) := retry holder (matched, visited) in
            if moved then (true, (<[slot_index := Some assignment_index]> matched, visited))
            else scan_slots retry assignment_index (S slot_index) rest (matched, visited)
        | _ => (true, (<[slot_index := Some assignment_index]> matched, visited))
        end
  end.

(** Each nested search visits a slot first, so the fuel bounds their depth. *)
Fixpoint try_match_material_assignment (fuel assignment_index : nat) (st : matching_state)
  : bool * matching_state :=
  match fuel with
  | O => (false, st)
  | S fuel => scan_slots (try_match_material_assignment fuel) assignment_index 0 slots st
  end.

Definition match_assignment (matched : list (option nat)) (assignment_index : nat) : list (option nat) :=
  (try_match_material_assignment (S (length slots)) assignment_index
     (matched, replicate (length slots) false)).2.1.

Definition matched_slots_after (count : nat) : list (option nat) :=
  foldl match_assignment (replicate (length slots) None) (seq 0 count).
End matching.

Definition matched_count (matched : list (option nat)) : nat := length (List.filter is_some matched).

Definition material_requirement_match_count_refs (rule : ApparatusMaterialRule)
    (assignments : list RawMaterialAssignment) : nat :=
  matched_count (matched_slots_after assignments (material_requirement_slots rule) (length assignments)).

Definition material_requirements_met_refs (rule : ApparatusMaterialRule)
    (assignments : list RawMaterialAssignment) : bool :=
  material_requirement_match_count_refs rule assignments =? material_requirement_slot_count rule.

(** * What a start must scan (implementation.rs) *)

Definition material_rule_record (canonical : RuntimeApparatusConfiguration) : ApparatusMaterialRule :=
  let '(requires_material, start_policy, item_groups, requirement_groups) :=
    match config_material_policy canonical with
    | NotRequired ids => (false, StartPolicy.StateAll, ids, [])
    | AllRequired ids => (true, StartPolicy.StateAll, ids, [])
    | RequirementSets sets => (true, StartPolicy.RequirementGroups, [],
        (λ set, {| group_name := requirement_id set; group_item_groups := requirement_item_group_ids set;
                   group_min_required_count := minimum_required_count set |}) <$> sets)
    end in
  {| rule_apparatus_id := row_apparatus_id (runtime_row canonical);
     rule_apparatus := runtime_display_name canonical; rule_requires_material := requires_material;
     rule_start_policy := start_policy; rule_item_groups := item_groups;
     rule_requirement_groups := requirement_groups |}.

Definition live_material_rule (canonical : RuntimeApparatusConfiguration) : option ApparatusMaterialRule :=
  match config_material_policy canonical with
  | NotRequired [] => None
  | _ => Some (material_rule_record canonical)
  end.

Definition assigned_barcodes (assignments : list RawMaterialAssignment) : gset string :=
  list_to_set (List.filter (λ b, negb (is_empty b)) ((λ a, normalize_barcode (asg_barcode a)) <$> assignments)).

Definition no_assignments (assignments : list RawMaterialAssignment) : bool :=
  match assignments with [] => true | _ => false end.

Definition scanned_assignments (scanned : gset string) (assignments : list RawMaterialAssignment)
  : list RawMaterialAssignment :=
  List.filter (λ a, bool_decide (normalize_barcode (asg_barcode a) ∈ scanned)) assignments.

Definition build_raw_material_start_requirements (rule : option ApparatusMaterialRule)
    (assignments : list RawMaterialAssignment) (state_material_barcodes : list string)
    (scanned : gset string) : RawMaterialStartRequirements :=
  let policy := default StartPolicy.StateAll (rule_start_policy <$> rule) in
  let requires_material := is_some_and rule rule_requires_material in
  let assigned := assigned_barcodes assignments in
  let staged : gset string := list_to_set (List.filter (λ b, bool_decide (b ∈ assigned))
    (normalize_barcode <$> state_material_barcodes)) in
  let requirement_groups := default [] (effective_requirement_groups <$> rule) in
  let assignments_satisfied :=
    if no_assignments assignments then negb requires_material
    else negb requires_material || negb (bool_decide (policy = StartPolicy.RequirementGroups)) ||
         is_some_and rule (λ rule, material_requirements_met_refs rule assignments) in
  let none_needed := no_assignments assignments && negb requires_material in
  let '(eligible, required_scan_count, matched_scan_count, scan_satisfied) :=
    match policy with
    | StartPolicy.StateAll =>
        (staged, size staged, size (scanned ∩ staged),
         none_needed ||
         (negb (no_assignments assignments) && negb (bool_decide (scanned = ∅)) &&
          bool_decide (scanned ⊆ assigned) && bool_decide (scanned = staged)))
    | StartPolicy.RequirementGroups =>
        let required := default O (material_requirement_slot_count <$> rule) in
        let matched := default O ((λ rule, material_requirement_match_count_refs rule
                                    (scanned_assignments scanned assignments)) <$> rule) in
        (assigned, required, matched,
         none_needed ||
         (negb (no_assignments assignments) && bool_decide (scanned ⊆ assigned) &&
          negb (required =? 0) && (matched =? required)))
    end in
  {| req_policy := policy; req_requires_material := requires_material;
     req_material_scan_required := requires_material || negb (no_assignments assignments);
     req_requirement_groups := requirement_groups; req_assigned_barcodes := set_list assigned;
     req_staged_barcodes := set_list staged; req_eligible_barcodes := set_list eligible;
     req_required_scan_count := required_scan_count; req_matched_scan_count := matched_scan_count;
     req_assignments_satisfied := assignments_satisfied; req_scan_satisfied := scan_satisfied |}.

Section materials.
Context `{J : Json} `{C : !RouteCodec} `{R : !ReportCodec} `{!Serde (list OrderLane)}.
Context `{!Serde (list OrderRunInputLink)} `{!Serde (list RezkaActivePartialRoll)}.
Context `{!Serde (list ProgressBatchInputLink)} `{!Serde ProductionQrSessionResources}.
Context `{UnicodeCase} (resolver : ApparatusId → pm_result (option RuntimeApparatusConfiguration)).

(** The store with its table of assignments. *)
Record material_store := {
  ms_runs :> run_store;
  ms_assignments : gmap string RawMaterialAssignment;
}.
#[global] Instance material_store_rebuild : Rebuild material_store := λ s, {|
  ms_runs := ms_runs s; ms_assignments := ms_assignments s |}.

(** * The table (memory_store.rs, store_port.rs) *)

Definition raw_material_assignments (s : material_store) : list RawMaterialAssignment :=
  btree_values (ms_assignments s).

Definition raw_material_assignment_by_barcode (barcode : string) (s : material_store)
  : option RawMaterialAssignment :=
  List.find (λ a, eq_ignore_ascii_case (trim (asg_barcode a)) (trim barcode)) (raw_material_assignments s).

Definition raw_material_assignments_for_order (order_id : string) (s : material_store)
  : list RawMaterialAssignment :=
  List.filter (λ a, trim (asg_order_id a) =s trim order_id) (raw_material_assignments s).

Definition raw_material_assignments_for_transfer (order_id apparatus : string) (s : material_store)
  : list RawMaterialAssignment :=
  List.filter (λ a, apparatus_id_str (asg_apparatus_id a) =s apparatus)
    (raw_material_assignments_for_order order_id s).

Definition put_raw_material_assignment (a : RawMaterialAssignment) (s : material_store) : material_store :=
  s <| ms_assignments := <[to_uppercase (asg_barcode a) := a]> (ms_assignments s) |>.

Definition delete_raw_material_assignment (order_id barcode : string) (s : material_store)
  : material_store * option RawMaterialAssignment :=
  let key := to_ascii_uppercase (trim barcode) in
  match ms_assignments s !! key with
  | None => (s, None)
  | Some existing =>
      if trim (asg_order_id existing) <>s trim order_id then (s, None)
      else (s <| ms_assignments := delete key (ms_assignments s) |>, Some existing)
  end.

(** * Rules of the machines (implementation.rs) *)

Definition validated_material_apparatus (apparatus : ApparatusId) : pm_result RuntimeApparatusConfiguration :=
  validated_canonical_apparatus resolver apparatus.

Definition material_rule_for_apparatus (apparatus : ApparatusId) : pm_result (option ApparatusMaterialRule) :=
  canonical ← validated_material_apparatus apparatus;
  Ok (live_material_rule canonical).

Definition collect_stage_apparatus (stage : ChainStage) (ids : gmap string ApparatusId)
  : pm_result (gmap string ApparatusId) :=
  match stage_apparatus_id stage with
  | None => Ok ids
  | Some apparatus =>
      match ApparatusId_new (trim apparatus) with
      | Ok id => Ok (<[apparatus_id_str id := id]> ids)
      | Err _ => Err StoreFailed
      end
  end.

Definition apparatus_material_rules (s : order_store) : pm_result (list ApparatusMaterialRule) :=
  ids ← for_each (λ map ids, for_each collect_stage_apparatus (linear_work_stages map) ids)
          (btree_values (st_maps s)) ∅;
  for_each (λ id rules,
    rule ← material_rule_for_apparatus id;
    Ok (match rule with Some rule => rules ++ [rule] | None => rules end)) (btree_values ids) [].

Definition raw_material_matches_apparatus_rule (apparatus item_group : string)
    (item_group_path : list string) : pm_result bool :=
  apparatus_id ← parse_apparatus_id apparatus;
  let path := normalize_group_path item_group item_group_path in
  rule ← material_rule_for_apparatus apparatus_id;
  Ok (match rule with Some rule => rule_matches rule apparatus_id path | None => true end).

(** * Intake *)

Definition intake_allowed (order_id : string) (apparatus : ApparatusId) (s : order_store) : bool :=
  existsb (λ entry : string * gmap string string,
    canonical_apparatuses_match entry.1 apparatus &&
    is_some_and (entry.2 !! order_id ≫= OrderState.parse) OrderState.allows_material_intake)
    (btree_entries (st_queue_states s)).

Definition raw_material_intake_is_available (order_id apparatus : string) (s : material_store)
  : pm_result bool :=
  apparatus_id ← parse_apparatus_id apparatus;
  _ ← validated_material_apparatus apparatus_id;
  if negb (intake_allowed (trim order_id) apparatus_id s) then Ok false
  else
    control ← effective_order_control_for_apparatus (trim order_id) (apparatus_id_str apparatus_id) s;
    Ok (bool_decide (control_state control = OrderControl.Active)).

(** * Assignments *)

(** The occurrence selected by its group of alternatives. *)
Definition selected_elsewhere (map : ProductionMapDefinition) (group apparatus : string) : bool :=
  negb (is_empty group) &&
  existsb (λ candidate, is_apparatus candidate && (trim (alternative_group_id candidate) =s group) &&
    negb (blank (alternative_assigned_apparatus_id candidate)) &&
    (trim (alternative_assigned_apparatus_id candidate) <>s apparatus)) (map_nodes map).

Definition collect_option (map : ProductionMapDefinition) (item_group_path : list string)
    (stage : ChainStage) (matches : gset string) : pm_result (gset string) :=
  match stage_apparatus_id stage,
        List.find (λ node, node_id node =s stage_node_id stage) (map_nodes map) with
  | Some apparatus, Some node =>
      if selected_elsewhere map (trim (alternative_group_id node)) apparatus then Ok matches
      else
        id ← parse_apparatus_id apparatus;
        rule ← material_rule_for_apparatus id;
        Ok (if is_some_and rule (λ rule, rule_matches rule id item_group_path)
            then {[apparatus_id_str id]} ∪ matches else matches)
  | _, _ => Ok matches
  end.

Definition resolve_material_apparatus_options (map : ProductionMapDefinition)
    (item_group_path : list string) : pm_result (list string) :=
  matches ← for_each (collect_option map item_group_path) (linear_work_stages map) ∅;
  Ok (set_list matches).

Definition raw_material_assignment_apparatus_options_for_map (map : ProductionMapDefinition)
    (item_group_path : list string) : pm_result (list string) :=
  _ ← check (blank (map_id map) || (match item_group_path with [] => true | _ => false end))
        RawMaterialInvalidInput;
  resolve_material_apparatus_options map item_group_path.

Definition raw_material_assignment_apparatus_options (order_id : string) (item_group_path : list string)
    (s : order_store) : pm_result (list string) :=
  let order_id := trim order_id in
  _ ← check (is_empty order_id || (match item_group_path with [] => true | _ => false end))
        RawMaterialInvalidInput;
  map ← ok_or (raw_map order_id s) MapNotFound;
  raw_material_assignment_apparatus_options_for_map map item_group_path.

(** The machine that takes the material: the one asked for, or the only one. *)
Definition choose_apparatus (options : list string) (requested : option ApparatusId)
  : pm_result ApparatusId :=
  match requested with
  | Some requested =>
      ok_or (head (omap (λ candidate, match parse_apparatus_id candidate with
        | Ok id => if same_apparatus_id id requested then Some id else None
        | Err _ => None end) options)) RawMaterialGroupNotAllowed
  | None =>
      match options with
      | [] => Err RawMaterialGroupNotAllowed
      | [only] => parse_apparatus_id only
      | _ => Err (RawMaterialGroupAmbiguous options)
      end
  end.

(** An assignment that uses the barcode already refuses it. *)
Definition check_unassigned (barcode order_id : string) (apparatus : ApparatusId)
    (existing : RawMaterialAssignment) (_ : unit) : pm_result unit :=
  if same_barcode (asg_barcode existing) barcode
  then Err (if (trim (asg_order_id existing) =s order_id) &&
               same_apparatus_id (asg_apparatus_id existing) apparatus
            then RawMaterialAlreadyAssignedToOrder else RawMaterialAlreadyAssigned)
  else Ok tt.

(** [now] is the time of the assignment, as RFC 3339 text. *)
Definition prepare_raw_material_assignment (input : RawMaterialAssignmentInput) (actor : QueueActionActor)
    (now : string) (s : material_store) : pm_result RawMaterialAssignment :=
  let order_id := trim (input_order_id input) in
  let barcode := normalize_barcode (input_barcode input) in
  let item_code := trim (input_item_code input) in
  let item_group := trim (input_item_group input) in
  let item_group_path := normalize_group_path item_group (input_item_group_path input) in
  _ ← check (is_empty order_id || is_empty barcode || is_empty item_code || is_empty item_group)
        RawMaterialInvalidInput;
  options ← raw_material_assignment_apparatus_options order_id item_group_path s;
  requested ← parse_optional_apparatus_id (input_apparatus input);
  apparatus_id ← choose_apparatus options requested;
  _ ← for_each (check_unassigned barcode order_id apparatus_id) (raw_material_assignments s) tt;
  Ok {| asg_order_id := order_id; asg_apparatus_id := apparatus_id;
        asg_apparatus := apparatus_id_str apparatus_id; asg_barcode := barcode;
        asg_item_code := item_code;
        asg_item_name := blank_default (input_item_name input) (input_item_code input);
        asg_item_group := item_group; asg_by_role := trim (actor_role actor);
        asg_by_ref := trim (actor_ref actor);
        asg_by_display_name := trim (actor_display_name actor); asg_assigned_at := now |}.

Definition assign_raw_material_to_order (input : RawMaterialAssignmentInput) (actor : QueueActionActor)
    (now : string) (s : material_store) : material_store * pm_result RawMaterialAssignment :=
  match prepare_raw_material_assignment input actor now s with
  | Ok a => (put_raw_material_assignment a s, Ok a)
  | Err e => (s, Err e)
  end.

Definition unlink_raw_material_assignment (input : RawMaterialAssignmentDeleteInput) (s : material_store)
  : material_store * pm_result RawMaterialAssignment :=
  let order_id := trim (delete_order_id input) in
  let barcode := normalize_barcode (delete_barcode input) in
  if is_empty order_id || is_empty barcode then (s, Err RawMaterialInvalidInput)
  else
    let '(s, removed) := delete_raw_material_assignment order_id barcode s in
    (s, ok_or removed RawMaterialAssignmentNotFound).

(** What a receipt of an assigned material checks before it is stored. *)
Definition check_receipt (input : RawMaterialAssignmentInput) (assigned_apparatus : list string)
    (s : material_store) : pm_result RawMaterialAssignment :=
  let barcode := normalize_barcode (input_barcode input) in
  requested ← parse_optional_apparatus_id (input_apparatus input);
  let path := normalize_group_path (input_item_group input) (input_item_group_path input) in
  assignment ← match List.find (λ a, same_barcode (asg_barcode a) barcode) (raw_material_assignments s) with
    | Some a =>
        if (trim (asg_order_id a) =s trim (input_order_id input)) &&
           (match requested with Some id => same_apparatus_id id (asg_apparatus_id a) | None => true end)
        then Ok a else Err RawMaterialAlreadyAssigned
    | None => Err RawMaterialAssignmentNotFound
    end;
  let id := asg_apparatus_id assignment in
  _ ← check (negb (assigned_apparatus_contains id assigned_apparatus)) ApparatusNotAssigned;
  _ ← check (negb (intake_allowed (asg_order_id assignment) id s)) RawMaterialOrderNotActive;
  _ ← require_active_order (asg_order_id assignment) (apparatus_id_str id) s;
  rule ← material_rule_for_apparatus id;
  _ ← check (negb (is_some_and rule (λ rule, rule_matches rule id path))) RawMaterialGroupNotAllowed;
  Ok assignment.

(** The memory store has no warehouses to report. *)
Definition receive_raw_material_for_active_order (input : RawMaterialAssignmentInput)
    (assigned_apparatus : list string) (s : material_store)
  : material_store * pm_result (RawMaterialAssignment * list string) :=
  match check_receipt input assigned_apparatus s with
  | Ok a => (put_raw_material_assignment a s, Ok (a, []))
  | Err e => (s, Err e)
  end.

(** * Scans (implementation.rs) *)

Definition raw_material_assignments_for_order_apparatus (order_id : string) (apparatus : ApparatusId)
    (s : material_store) : list RawMaterialAssignment :=
  List.filter (λ a, (trim (asg_order_id a) =s trim order_id) && same_apparatus_id (asg_apparatus_id a) apparatus)
    (raw_material_assignments_for_order order_id s).

Definition raw_material_start_requirements_for_stock (apparatus order_id : string)
    (state_material_barcodes : list string) (material_barcodes : string)
    (usable_barcodes : option (list string)) (s : material_store)
  : pm_result RawMaterialStartRequirements :=
  apparatus_id ← parse_apparatus_id apparatus;
  let assignments := raw_material_assignments_for_order_apparatus order_id apparatus_id s in
  rule ← material_rule_for_apparatus apparatus_id;
  let has_commitment := is_some rule && negb (no_assignments assignments) in
  let committed_barcodes := set_list (list_to_set ((λ a, normalize_barcode (asg_barcode a)) <$> assignments)) in
  let usable := match usable_barcodes with
    | Some usable => List.filter (λ a, existsb (λ b, eq_ignore_ascii_case (trim b) (trim (asg_barcode a))) usable)
                       assignments
    | None => assignments
    end in
  let requirements := build_raw_material_start_requirements rule (if is_some rule then usable else [])
    state_material_barcodes (normalized_barcodes_list (parse_material_barcodes [material_barcodes])) in
  let requirements :=
    if has_commitment && no_assignments usable
    then requirements <| req_material_scan_required := true |> <| req_assignments_satisfied := false |>
                      <| req_scan_satisfied := false |>
    else requirements in
  Ok (if has_commitment then requirements <| req_assigned_barcodes := committed_barcodes |> else requirements).

(** What a start of an order with materials assigned to the machine must satisfy. *)
Definition check_scan_of_assigned (rule : ApparatusMaterialRule) (requirements : RawMaterialStartRequirements)
    (assignments : list RawMaterialAssignment) (state_material_barcodes : list string) (scanned : gset string)
  : pm_result unit :=
  let assigned : gset string := list_to_set ((λ a, normalize_barcode (asg_barcode a)) <$> assignments) in
  _ ← check (negb (req_assignments_satisfied requirements)) RawMaterialAssignmentNotFound;
  _ ← check (bool_decide (scanned = ∅)) RawMaterialScanRequired;
  _ ← check (negb (bool_decide (scanned ⊆ assigned))) RawMaterialMismatch;
  match rule_start_policy rule with
  | StartPolicy.StateAll =>
      let staged : gset string := list_to_set (List.filter (λ b, bool_decide (b ∈ assigned))
        (normalize_barcode <$> state_material_barcodes)) in
      _ ← check (bool_decide (staged = ∅)) RawMaterialStateNotReady;
      check (negb (req_scan_satisfied requirements)) RawMaterialScanIncomplete
  | StartPolicy.RequirementGroups =>
      check (negb (req_scan_satisfied requirements)) RawMaterialRequirementNotMet
  end.

Definition validate_material_scan (apparatus order_id : string) (action : Action.t)
    (material_barcodes state_material_barcodes : list string) (s : material_store) : pm_result unit :=
  if negb (bool_decide (action = Action.Start)) then Ok tt
  else
    apparatus_id ← parse_apparatus_id apparatus;
    canonical ← validated_material_apparatus apparatus_id;
    let scanned := normalized_barcodes_list material_barcodes in
    match live_material_rule canonical with
    | None => check (negb (bool_decide (scanned = ∅))) RawMaterialMismatch
    | Some rule =>
        let assignments := raw_material_assignments_for_order_apparatus order_id apparatus_id s in
        let requirements :=
          build_raw_material_start_requirements (Some rule) assignments state_material_barcodes scanned in
        if no_assignments assignments then
          _ ← check (negb (bool_decide (scanned = ∅))) RawMaterialMismatch;
          check (negb (uses_lamination_workflow canonical) && negb (req_assignments_satisfied requirements))
            RawMaterialAssignmentNotFound
        else check_scan_of_assigned rule requirements assignments state_material_barcodes scanned
    end.

(** * Materials of a transferred printing run *)

Definition recorded_material_barcodes (session : RunSession) : list string :=
  match recorded session with
  | Some resources => material_barcode <$> resources_raw_materials resources
  | None => []
  end.

(** The memory store confirms no material in use. *)
Definition in_use_materials_at_apparatus (order_id apparatus : string) (s : material_store) : list string := [].

Definition print_transfer_can_reuse_materials (session : RunSession) (rule : ApparatusMaterialRule)
    (assignments : list RawMaterialAssignment) (s : material_store) : bool :=
  match recorded_material_barcodes session with
  | [] => false
  | recorded =>
      let scanned := normalized_barcodes_list recorded in
      let assignments := List.filter (λ a,
        (apparatus_id_str (asg_apparatus_id a) =s session_apparatus session) &&
        bool_decide (normalize_barcode (asg_barcode a) ∈ scanned)) assignments in
      let requirements := build_raw_material_start_requirements (Some rule) assignments recorded scanned in
      req_scan_satisfied requirements &&
      bool_decide (normalized_barcodes_list (in_use_materials_at_apparatus (session_order_id session)
                     (session_apparatus session) s) = scanned)
  end.

(** Whether a run that resumes must scan its materials again, and whether it reuses them. *)
Definition session_material_requirements (canonical : RuntimeApparatusConfiguration) (order_id : string)
    (session : RunSession) (s : material_store) : bool * bool :=
  if (match session_status session with RunStatus.Paused | RunStatus.RollDetached => true | _ => false end) &&
     uses_lamination_workflow canonical &&
     bool_decide (payload_bool (session_payload_json session) "lamination_astatka_raw_released" = Some true)
  then (true, false)
  else if needs_print_transfer_material_check session then
    match live_material_rule canonical with
    | Some rule =>
        if rule_requires_material rule then
          let reuse := print_transfer_can_reuse_materials session rule
                         (raw_material_assignments_for_order order_id s) s in
          (negb reuse, reuse)
        else (false, false)
    | None => (false, false)
    end
  else (false, false).

Definition resume_material_requirements (apparatus order_id : string) (action : Action.t) (s : material_store)
  : pm_result (bool * bool) :=
  if negb (bool_decide (action = Action.Resume)) then Ok (false, false)
  else
    canonical ← resolve_canonical_apparatus_text resolver apparatus;
    session ← active_order_run_session (config_apparatus_id canonical) order_id s;
    Ok (match session with
        | Some session => session_material_requirements canonical order_id session s
        | None => (false, false)
        end).

(** The recorded materials of a transferred run that are confirmed in use. *)
Definition confirmed_materials (order_id apparatus : string) (session : RunSession) (s : material_store)
  : list string :=
  if needs_print_transfer_material_check session then
    let recorded := normalized_barcodes_list (recorded_material_barcodes session) in
    if bool_decide (recorded = ∅) then []
    else List.filter (λ b, bool_decide (normalize_barcode b ∈ recorded))
           (in_use_materials_at_apparatus order_id apparatus s)
  else [].

Definition in_use_print_transfer_materials (order_id apparatus : string) (s : material_store)
  : pm_result (list string) :=
  session ← active_order_run_session apparatus order_id s;
  Ok (match session with Some session => confirmed_materials order_id apparatus session s | None => [] end).
End materials.
