(* ===== verification/MaterialsFacts.v ===== *)
(** Raw materials: the matching of assignments to slots is a maximum one, each barcode is
    assigned once, and the scan of a start is accepted exactly when it covers what the machine needs. *)
From S2P Require Import Prelude RustStr F64 Json Errors Identity QueueState OrderLayout MapDefinition Formula Compiler Bfs Chain Projection Scheduler Progress WipRoute Lifecycle StageExecution OrderRefresh OrderStore Visibility Preflight Epc CutLayout Paddon Metrics Lineage RunStore Warehouse Materials.

(** * Matchings *)

(** A partial choice of an assignment for each slot. *)
Abbreviation choice := (list (option nat)).

Definition chosen (N : choice) (s i : nat) : Prop := N !! s = Some (Some i).
Definition filled (N : choice) (s : nat) : Prop := ∃ i, chosen N s i.

Lemma matched_count_cons o (N : choice) :
  matched_count (o :: N) = (if is_some o then 1 else 0) + matched_count N.
Proof. unfold matched_count. simpl. by destruct (is_some o). Qed.

Lemma matched_count_bound (N : choice) : matched_count N ≤ length N.
Proof. induction N as [|[] N IH]; rewrite ?matched_count_cons; simpl; [done|lia|lia]. Qed.

Lemma matched_count_none m : matched_count (replicate m None) = 0.
Proof. induction m as [|m IH]; [done|]. cbn [replicate]. by rewrite matched_count_cons. Qed.

(** Filling an empty slot adds one; refilling a slot adds nothing. *)
Lemma matched_count_insert (N : choice) s i o : N !! s = Some o →
  matched_count (<[s:=Some i]> N) = (if is_some o then 0 else 1) + matched_count N.
Proof.
  revert s. induction N as [|x N IH]; intros [|s]; simpl; intros H; try done.
  - injection H as ->. rewrite !matched_count_cons. simpl. destruct (is_some o); lia.
  - rewrite !matched_count_cons, (IH _ H). lia.
Qed.

Lemma matched_count_mono (N N' : choice) : length N = length N' →
  (∀ s, filled N s → filled N' s) → matched_count N ≤ matched_count N'.
Proof.
  revert N'. induction N as [|x N IH]; intros [|y N'] Hl Hf; simpl in Hl; try done.
  rewrite !matched_count_cons.
  assert (matched_count N ≤ matched_count N').
  { apply IH; [lia|]. intros s [i Hi]. apply (Hf (S s)). by exists i. }
  destruct x as [i|]; simpl; [|lia].
  destruct (Hf 0) as [j Hj]; [by exists i|]. injection Hj as ->. simpl. lia.
Qed.

(** Emptying one slot loses at most one. *)
Lemma matched_count_clear (N : choice) s :
  matched_count N ≤ S (matched_count (<[s:=None]> N)).
Proof.
  revert s. induction N as [|x N IH]; intros [|s]; simpl; rewrite ?matched_count_cons; [lia..| |].
  - destruct (is_some x); simpl; lia.
  - specialize (IH s). lia.
Qed.

Section matching.
Context (assignments : list RawMaterialAssignment) (slots : list (list string)).

(** The assignment may fill the slot. *)
Definition fits (i s : nat) : Prop :=
  ∃ a groups, assignments !! i = Some a ∧ slots !! s = Some groups ∧ slot_accepts groups a = true.

(** A choice among the first [k] assignments that uses none twice. *)
Record matching (k : nat) (N : choice) : Prop := {
  mt_length : length N = length slots;
  mt_fits : ∀ s i, chosen N s i → i < k ∧ fits i s;
  mt_once : ∀ s s' i, chosen N s i → chosen N s' i → s = s';
}.

Definition maximum (k : nat) (M : choice) : Prop :=
  matching k M ∧ ∀ N, matching k N → matched_count N ≤ matched_count M.

(** * Augmenting paths *)

Definition vis (V : list bool) (s : nat) : Prop := V !! s = Some true.
#[local] Instance vis_dec V s : Decision (vis V s).
Proof. unfold vis. apply _. Defined.

(** The assignment [i] gets a slot outside [V], moving the holders of slots that
    the search has not visited. *)
Inductive augments : list bool → nat → choice → choice → Prop :=
  | aug_free V i s M : fits i s → V !! s = Some false → M !! s = Some None →
      augments V i M (<[s:=Some i]> M)
  | aug_move V i s b M M' : fits i s → V !! s = Some false → chosen M s b →
      augments (<[s:=true]> V) b M M' → augments V i M (<[s:=Some i]> M').

Record augmented (V : list bool) (i : nat) (M M' : choice) : Prop := {
  ag_length : length M' = length M;
  ag_kept : ∀ s, vis V s → M' !! s = M !! s;
  ag_count : matched_count M' = S (matched_count M);
  ag_fits : ∀ s j, chosen M' s j → fits j s;
  ag_from : ∀ s j, chosen M' s j → j = i ∨ ∃ s', chosen M s' j;
  ag_once : ∀ s s' j, chosen M' s j → chosen M' s' j → s = s' ∨ (j = i ∧ (vis V s ∨ vis V s'));
}.

Lemma chosen_insert (N : choice) s s' i j :
  chosen (<[s:=Some i]> N) s' j → (s' = s ∧ j = i) ∨ (s' ≠ s ∧ chosen N s' j).
Proof.
  unfold chosen. intros [(-> & [= ->] & ?)|[Hne H]]%list_lookup_insert_Some; [by left|by right].
Qed.

Lemma vis_insert V s s' : vis (<[s:=true]> V) s' → s' = s ∨ vis V s'.
Proof. unfold vis. intros [(-> & _)|[_ H]]%list_lookup_insert_Some; [by left|by right]. Qed.

Lemma vis_add V s s' b : V !! s = Some b → s' = s ∨ vis V s' → vis (<[s:=true]> V) s'.
Proof.
  intros Hs. unfold vis. destruct (decide (s' = s)) as [->|Hne].
  - intros _. apply list_lookup_insert_eq. by apply lookup_lt_Some in Hs.
  - intros [?|H]; [done|]. by rewrite list_lookup_insert_ne.
Qed.

Lemma augments_spec V i M M' : augments V i M M' →
  (∀ s j, chosen M s j → fits j s) → (∀ s s' j, chosen M s j → chosen M s' j → s = s') →
  (∀ s, chosen M s i → vis V s) → augmented V i M M'.
Proof.
  induction 1 as [V i s M Hf Hs HM|V i s b M M' Hf Hs Hb _ IH]; intros Hfits Honce Hown.
  - split; [by rewrite length_insert| | | | |].
    + intros s' Hv. apply list_lookup_insert_ne. intros ->. unfold vis in Hv. congruence.
    + by rewrite (matched_count_insert _ _ _ _ HM).
    + intros s' j [[-> ->]|[_ H]]%chosen_insert; auto.
    + intros s' j [[-> ->]|[_ H]]%chosen_insert; eauto.
    + intros s1 s2 j [[-> ->]|[? H1]]%chosen_insert [[-> E]|[? H2]]%chosen_insert; subst; eauto.
  - destruct IH as [Hl Hk Hc Hft Hfr Hon]; [done..| |].
    { intros s' H'. rewrite (Honce _ _ _ H' Hb). eapply vis_add; [done|by left]. }
    assert (Hsb : chosen M' s b).
    { unfold chosen. rewrite Hk; [done|]. eapply vis_add; [done|by left]. }
    assert (Hback : ∀ y, y ≠ s → chosen M' y i → vis V y).
    { intros y Hy H. destruct (Hfr _ _ H) as [->|[s' Hs']].
      - pose proof (Hown _ Hb) as Hx. unfold vis in Hx. congruence.
      - pose proof (Hown _ Hs') as Hv. assert (chosen M' s' i) as H'.
        { unfold chosen. rewrite Hk; [done|]. eapply vis_add; [done|by right]. }
        destruct (Hon _ _ _ H H') as [->|[-> _]]; [done|].
        pose proof (Hown _ Hb) as Hx. unfold vis in Hx. congruence. }
    assert (Hbs : ∀ y, y ≠ s → chosen M' y b → ¬ vis V y).
    { intros y Hy H Hv. apply Hy. apply (Honce _ _ b); [|done].
      unfold chosen. rewrite <-Hk; [done|]. eapply vis_add; [done|by right]. }
    split; [by rewrite length_insert| | | | |].
    + intros s' Hv. rewrite list_lookup_insert_ne; [|intros ->; unfold vis in Hv; congruence].
      apply Hk. eapply vis_add; [done|by right].
    + by rewrite (matched_count_insert _ _ _ _ Hsb).
    + intros s' j [[-> ->]|[_ H]]%chosen_insert; auto.
    + intros s' j [[-> ->]|[_ H]]%chosen_insert; [by left|].
      destruct (Hfr _ _ H) as [->|?]; [|by right]. right. by exists s.
    + intros s1 s2 j [[-> ->]|[? H1]]%chosen_insert [[-> E]|[? H2]]%chosen_insert; subst; eauto.
      destruct (Hon _ _ _ H1 H2) as [?|[-> [Hv|Hv]]]; [by left| |].
      * apply vis_insert in Hv as [->|Hv]; [done|]. by destruct (Hbs s1).
      * apply vis_insert in Hv as [->|Hv]; [done|]. by destruct (Hbs s2).
Qed.

(** * The search *)

Definition unvisited (V : list bool) : nat := length (List.filter negb V).

(** What was visited since [V] is held by assignments all of whose slots were visited. *)
Definition closed (M : choice) (V V' : list bool) : Prop := ∀ s, vis V' s →
  vis V s ∨ ∃ b, chosen M s b ∧ ∀ s', fits b s' → vis V' s'.

Definition grows (V V' : list bool) : Prop := length V' = length V ∧ ∀ s, vis V s → vis V' s.

Lemma unvisited_insert V s : V !! s = Some false → S (unvisited (<[s:=true]> V)) = unvisited V.
Proof.
  unfold unvisited. revert s. induction V as [|b V IH]; intros [|s] H; simpl in *; try done.
  - by injection H as ->.
  - destruct b; simpl; rewrite <-(IH _ H); done.
Qed.

Lemma unvisited_grows V V' : grows V V' → unvisited V' ≤ unvisited V.
Proof.
  unfold grows, unvisited, vis. revert V'. induction V as [|b V IH]; intros [|b' V'] [Hl Hv]; try done.
  assert (length (List.filter negb V') ≤ length (List.filter negb V)).
  { apply IH. split; [simpl in Hl; lia|]. intros s. apply (Hv (S s)). }
  pose proof (Hv 0) as H0. simpl in *. destruct b, b'; simpl; try lia. by specialize (H0 eq_refl).
Qed.

Lemma grows_false V V' s : grows V V' → V' !! s = Some false → V !! s = Some false.
Proof.
  intros [Hl Hv] H. destruct (V !! s) as [[]|] eqn:E; [|done|].
  - apply Hv in E. unfold vis in E. congruence.
  - apply lookup_ge_None in E. apply lookup_lt_Some in H. lia.
Qed.

Lemma grows_insert V s : V !! s = Some false → grows V (<[s:=true]> V).
Proof.
  intros H. split; [apply length_insert|]. intros s' Hv. eapply vis_add; [done|by right].
Qed.

#[local] Instance grows_preorder : PreOrder grows.
Proof.
  split; [done|]. intros V1 V2 V3 [L1 H1] [L2 H2]. split; [congruence|auto].
Qed.

Lemma grows_insert2 V V' s : grows V V' → V' !! s = Some false →
  grows (<[s:=true]> V) (<[s:=true]> V').
Proof.
  intros Hg H. pose proof Hg as [Hl Hv]. split; [by rewrite !length_insert|].
  intros s' [->|Hs']%vis_insert; eapply vis_add; eauto.
Qed.

Lemma augments_grows V V' i M M' : grows V V' → augments V' i M M' → augments V i M M'.
Proof.
  intros Hg Ha. revert V Hg. induction Ha as [V' i s M Hf Hs HM|V' i s b M M' Hf Hs Hb _ IH]; intros V Hg.
  - constructor; [done| |done]. by eapply grows_false.
  - econstructor; [done| |done|]; [by eapply grows_false|]. apply IH. by apply grows_insert2.
Qed.

(** The outcome of a search from [(M, V)] among the slots from [from] on. *)
Definition searched (from i : nat) (M : choice) (V : list bool) (out : bool * matching_state) : Prop :=
  let '(found, (M', V')) := out in
  grows V V' ∧
  if found then augments V i M M'
  else M' = M ∧ (∀ s, from ≤ s → fits i s → vis V' s) ∧ closed M V V'.

Definition searches (fuel : nat) (retry : nat → matching_state → bool * matching_state) : Prop :=
  ∀ i M V, unvisited V < fuel → length V = length slots → length M = length slots →
    searched 0 i M V (retry i (M, V)).

(** A search that goes on from a larger set of visited slots. *)
Lemma searched_weaken from i M V V' out :
  grows V V' → closed M V V' → searched from i M V' out → searched from i M V out.
Proof.
  intros Hg Hc. destruct out as [[] [M' W]]; intros [HW H]; (split; [by etrans|]).
  - by eapply augments_grows.
  - destruct H as (-> & Hf & Hc'). split; [done|]. split; [done|].
    intros s [Hs|Hs]%Hc'; [|by right]. apply Hc in Hs as [Hs|(b & Hb & Hbs)]; [by left|].
    right. exists b. split; [done|]. intros s' Hs'. destruct HW as [_ HW]. auto.
Qed.

Lemma scan_searches fuel retry i : searches fuel retry → ∀ rest from M V,
  rest = drop from slots → unvisited V < S fuel → length V = length slots → length M = length slots →
  searched from i M V (scan_slots assignments retry i from rest (M, V)).
Proof.
  intros Hretry rest. induction rest as [|groups rest IH]; intros from M V Hrest Hu HV HM; simpl.
  { split; [done|]. split; [done|]. split; [|by left].
    intros s Hs (a & g & _ & Hg & _). apply lookup_lt_Some in Hg.
    assert (length (drop from slots) = 0) as Hl by (by rewrite <-Hrest). rewrite length_drop in Hl. lia. }
  assert (Hgroups : slots !! from = Some groups).
  { rewrite <-(Nat.add_0_r from), <-lookup_drop, <-Hrest. done. }
  assert (Hnext : rest = drop (S from) slots).
  { rewrite <-Nat.add_1_r, <-drop_drop, <-Hrest. done. }
  assert (Hskip : ∀ V', grows V V' → closed M V V' → unvisited V' < S fuel →
    (fits i from → vis V' from) →
    searched from i M V (scan_slots assignments retry i (S from) rest (M, V'))).
  { intros V' Hg Hc Hu' Hfrom. apply (searched_weaken _ _ _ _ V'); [done|done|].
    specialize (IH (S from) M V' Hnext Hu' ltac:(destruct Hg; congruence) HM).
    destruct (scan_slots _ _ _ _ _ _) as [[] [M' W]]; destruct IH as [HW H]; (split; [done|]); [done|].
    destruct H as (-> & Hf & Hcl). split; [done|]. split; [|done].
    intros s Hs Hfit. destruct (decide (s = from)) as [->|]; [|apply Hf; [lia|done]].
    destruct HW as [_ HW]. auto. }
  destruct (V !! from) as [b|] eqn:HVf.
  2:{ apply lookup_ge_None in HVf. apply lookup_lt_Some in Hgroups. lia. }
  simpl. destruct b; simpl; [by apply Hskip; [|by left| |]|].
  destruct (is_some_and _ _) eqn:Hacc; simpl.
  2:{ apply Hskip; [done|by left|done|]. intros (a & g & Ha & Hg & Hacc').
      rewrite Ha in Hacc. simpl in Hacc. congruence. }
  assert (Hfit : fits i from).
  { destruct (assignments !! i) as [a|] eqn:Ha; [|done]. by exists a, groups. }
  pose proof (grows_insert V from HVf) as Hg1.
  destruct (M !! from) as [[holder|]|] eqn:HMf.
  - pose proof (Hretry holder M (<[from:=true]> V)) as Hr.
    pose proof (unvisited_insert V from HVf) as Hcnt.
    specialize (Hr ltac:(lia) ltac:(by rewrite length_insert) HM).
    destruct (retry holder (M, <[from:=true]> V)) as [[] [M' V']]; simpl in Hr.
    + destruct Hr as [Hg2 Ha]. split; [by etrans|]. by econstructor.
    + destruct Hr as [Hg2 (-> & Hb & Hc)]. apply Hskip.
      * by etrans.
      * intros s [Hs|Hs]%Hc; [|by right]. apply vis_insert in Hs as [->|Hs]; [|by left].
        right. exists holder. split; [done|]. intros s' Hs'. by apply Hb; [lia|].
      * apply unvisited_grows in Hg2. lia.
      * intros _. destruct Hg2 as [_ Hg2]. apply Hg2. eapply vis_add; [done|by left].
  - split; [done|]. by constructor.
  - apply lookup_ge_None in HMf. apply lookup_lt_Some in Hgroups. lia.
Qed.

Lemma try_searches fuel : searches fuel (try_match_material_assignment assignments slots fuel).
Proof.
  induction fuel as [|fuel IH]; intros i M V Hu HV HM; [lia|].
  by apply (scan_searches fuel); [|rewrite drop_0| | |].
Qed.

(** * The matching found is a maximum one *)

Lemma unvisited_fresh m : unvisited (replicate m false) = m.
Proof. induction m as [|m IH]; [done|]. unfold unvisited in *. simpl. by rewrite IH. Qed.

Lemma not_vis_fresh m s : ¬ vis (replicate m false) s.
Proof. unfold vis. intros [? _]%lookup_replicate. done. Qed.

(** The assignment [k] gets no slot: the slots its search visited are full, and
    whoever may fill them may fill no other. *)
Lemma maximum_stays k M V : closed M (replicate (length slots) false) V →
  (∀ s, fits k s → vis V s) → maximum k M → maximum (S k) M.
Proof.
  intros Hc Hk [[Hl Hf Ho] Hmax].
  assert (Hheld : ∀ s, vis V s → ∃ b, chosen M s b ∧ ∀ s', fits b s' → vis V s').
  { intros s [Hs|Hs]%Hc; [by apply not_vis_fresh in Hs|done]. }
  split; [split; [done| |done]; intros s i [? ?]%Hf; split; [lia|done]|].
  intros N [HlN HfN HoN].
  set (swap := (λ s, default None (if decide (vis V s) then M !! s else N !! s)) <$> seq 0 (length slots)).
  assert (Hlen : length swap = length slots) by (unfold swap; by rewrite length_fmap, length_seq).
  assert (Hswap : ∀ s i, chosen swap s i ↔ (vis V s ∧ chosen M s i) ∨ (¬ vis V s ∧ chosen N s i)).
  { intros s i. unfold chosen, swap. rewrite list_lookup_fmap.
    destruct (decide (s < length slots)) as [Hs|Hs].
    - rewrite lookup_seq_lt by done. simpl.
      destruct (lookup_lt_is_Some_2 M s ltac:(lia)) as [x ->].
      destruct (lookup_lt_is_Some_2 N s ltac:(lia)) as [y ->].
      case_decide; simpl; naive_solver.
    - rewrite lookup_seq_ge by lia. simpl. split; [done|].
      intros [[_ H]|[_ H]]; apply lookup_lt_Some in H; lia. }
  transitivity (matched_count swap).
  { apply matched_count_mono; [lia|]. intros s [i Hi].
    destruct (decide (vis V s)) as [Hv|Hv]; [|exists i; apply Hswap; by right].
    destruct (Hheld s Hv) as (b & Hb & _). exists b. apply Hswap. by left. }
  apply Hmax. split; [done| |].
  - intros s i [[_ H]|[Hv H]]%Hswap; [by apply Hf|]. destruct (HfN _ _ H) as [Hi Hfit].
    split; [|done]. destruct (decide (i = k)) as [->|]; [|lia]. by apply Hk in Hfit.
  - assert (Hmix : ∀ s s' i, vis V s → chosen M s i → ¬ vis V s' → chosen N s' i → False).
    { intros s s' i Hv H Hv' H'. destruct (Hheld s Hv) as (b & Hb & Hbs).
      assert (b = i) as -> by (unfold chosen in *; congruence).
      apply Hv', Hbs. by apply HfN in H' as [_ ?]. }
    intros s s' i [[Hv H]|[Hv H]]%Hswap [[Hv' H']|[Hv' H']]%Hswap; [by eapply Ho| | |by eapply HoN];
      exfalso; eauto.
Qed.

(** The assignment [k] gets a slot. *)
Lemma maximum_grows k M M' : augments (replicate (length slots) false) k M M' →
  maximum k M → maximum (S k) M'.
Proof.
  intros Ha [[Hl Hf Ho] Hmax]. destruct (augments_spec _ _ _ _ Ha) as [Hl' _ Hc Hfit Hfrom Honce].
  { by intros s j [_ ?]%Hf. } { done. } { intros s [? _]%Hf. lia. }
  split.
  - split; [lia| |].
    + intros s i H. split; [|by apply Hfit]. destruct (Hfrom _ _ H) as [->|[s' [? _]%Hf]]; lia.
    + intros s s' i H H'. destruct (Honce _ _ _ H H') as [?|[_ [Hv|Hv]]]; [done|by apply not_vis_fresh in Hv..].
  - intros N [HlN HfN HoN]. rewrite Hc. destruct (decide (Some k ∈ N)) as [[s Hs]%list_elem_of_lookup|Hk].
    + transitivity (S (matched_count (<[s:=None]> N))); [apply matched_count_clear|]. apply le_n_S, Hmax.
      assert (Hclear : ∀ s' i, chosen (<[s:=None]> N) s' i → s' ≠ s ∧ chosen N s' i).
      { unfold chosen. intros s' i [(_ & [=] & _)|[? ?]]%list_lookup_insert_Some. done. }
      split; [by rewrite length_insert| |].
      * intros s' i [Hne H]%Hclear. destruct (HfN _ _ H) as [? ?]. split; [|done].
        destruct (decide (i = k)) as [->|]; [|lia]. by destruct Hne; eapply HoN.
      * intros s1 s2 i [_ H1]%Hclear [_ H2]%Hclear. eauto.
    + transitivity (matched_count M); [|lia]. apply Hmax. split; [done| |done].
      intros s i H. destruct (HfN _ _ H) as [? ?]. split; [|done].
      destruct (decide (i = k)) as [->|]; [|lia]. destruct Hk. apply list_elem_of_lookup. by exists s.
Qed.

Lemma matched_slots_maximum k : maximum k (matched_slots_after assignments slots k).
Proof.
  unfold matched_slots_after. induction k as [|k IH].
  - split.
    + split; [apply length_replicate| |]; intros s; intros; by apply lookup_replicate in H as [? _].
    + intros N [_ Hf _]. simpl. rewrite matched_count_none. apply Nat.le_0_r.
      assert (∀ s i, ¬ chosen N s i) as Hn by (intros s i [? _]%Hf; lia). clear Hf.
      induction N as [|[i|] N IHN]; [done| |].
      * by destruct (Hn 0 i).
      * rewrite matched_count_cons. simpl. apply IHN. intros s i. apply (Hn (S s)).
  - rewrite seq_S, foldl_app. simpl. set (M := foldl _ _ _) in *. unfold match_assignment.
    pose proof (try_searches (S (length slots)) k M (replicate (length slots) false)) as Hs.
    rewrite unvisited_fresh, length_replicate in Hs.
    specialize (Hs ltac:(lia) eq_refl (mt_length _ _ (proj1 IH))).
    destruct (try_match_material_assignment _ _ _ _ _) as [[] [M' V']]; destruct Hs as [_ H]; simpl.
    + by eapply maximum_grows.
    + destruct H as (-> & Hf & Hc). eapply maximum_stays; [done| |done]. intros s. apply Hf. lia.
Qed.
End matching.

(** * The slots of a rule *)

Lemma material_requirement_slots_length rule :
  length (material_requirement_slots rule) = material_requirement_slot_count rule.
Proof.
  unfold material_requirement_slots, material_requirement_slot_count.
  destruct (rule_requirement_groups rule) as [|g gs]; [by rewrite length_fmap|].
  generalize (g :: gs). intros l. induction l as [|x l IH]; [done|].
  rewrite !fmap_cons. simpl. by rewrite length_app, length_replicate, IH.
Qed.

Lemma matched_count_full (N : choice) : matched_count N = length N → ∃ f, N = Some <$> f.
Proof.
  induction N as [|[i|] N IH]; rewrite ?matched_count_cons; simpl; intros H.
  - by exists [].
  - destruct IH as [f ->]; [lia|]. by exists (i :: f).
  - pose proof (matched_count_bound N). lia.
Qed.

Lemma matched_count_fmap (f : list nat) : matched_count (Some <$> f) = length f.
Proof. induction f as [|i f IH]; [done|]. rewrite fmap_cons, matched_count_cons. simpl. by rewrite IH. Qed.

(** Different assignments for all the slots. *)
Definition covers (slots : list (list string)) (assignments : list RawMaterialAssignment) : Prop :=
  ∃ l, l ⊆+ assignments ∧ Forall2 (λ a groups, slot_accepts groups a = true) l slots.

Lemma covers_mono slots assignments assignments' :
  assignments ⊆+ assignments' → covers slots assignments → covers slots assignments'.
Proof. intros Hs (l & Hl & Hf). exists l. split; [by etrans|done]. Qed.

(** A list read at all its positions. *)
Lemma positions_all {A} (d : A) (l : list A) :
  (λ i, default d (l !! i)) <$> seq 0 (length l) = l.
Proof.
  induction l as [|x l IH]; [done|]. simpl. rewrite <-fmap_S_seq, <-list_fmap_compose. f_equal. exact IH.
Qed.

(** Elements at distinct positions, and a sub-multiset. *)
Lemma positions_submseteq {A} (l : list A) (f : list nat) (xs : list A) :
  NoDup f → Forall2 (λ i x, l !! i = Some x) f xs → xs ⊆+ l.
Proof.
  intros Hnd Hf. destruct l as [|d l'].
  { inversion Hf as [|i x ? ? H]; [apply submseteq_nil_l|]. rewrite lookup_nil in H. done. }
  remember (d :: l') as l eqn:Hl. clear Hl l'.
  assert (xs = (λ i, default d (l !! i)) <$> f) as ->.
  { clear Hnd. induction Hf as [|i x f xs Hx _ IH]; [done|]. rewrite fmap_cons, Hx. simpl. by f_equal. }
  transitivity ((λ i, default d (l !! i)) <$> seq 0 (length l)); [|by rewrite positions_all].
  apply fmap_submseteq, NoDup_submseteq; [done|].
  intros i Hi. apply elem_of_seq. split; [lia|]. simpl.
  apply list_elem_of_lookup in Hi as [n Hn]. destruct (Forall2_lookup_l _ _ _ _ _ Hf Hn) as (x & _ & Hx).
  by apply lookup_lt_Some in Hx.
Qed.

Lemma submseteq_positions {A} (l xs : list A) : xs ⊆+ l →
  ∃ f, NoDup f ∧ Forall2 (λ i x, l !! i = Some x) f xs.
Proof.
  destruct l as [|d l']; intros Hs.
  { apply submseteq_nil_r in Hs as ->. exists []. split; [apply NoDup_nil_2|constructor]. }
  remember (d :: l') as l eqn:Hl. clear Hl l'. apply submseteq_Permutation in Hs as [k Hk].
  assert ((λ i, default d (l !! i)) <$> seq 0 (length l) ≡ₚ xs ++ k) as Hk' by (by rewrite positions_all).
  apply Permutation_sym, Permutation_map_inv in Hk' as (f & Hf & Hp).
  assert (NoDup f ∧ ∀ i, i ∈ f → i < length l) as [Hnd Hlt].
  { split; [rewrite <-Hp; apply NoDup_seq|]. intros i. rewrite <-Hp, elem_of_seq. lia. }
  exists (take (length xs) f). split; [by eapply sublist_NoDup; [|apply sublist_take]|].
  apply (f_equal (take (length xs))) in Hf. rewrite take_app_length in Hf.
  assert (take (length xs) (map (λ i, default d (l !! i)) f) =
          (λ i, default d (l !! i)) <$> take (length xs) f) as E by apply firstn_map.
  rewrite E in Hf. rewrite Hf at 2. apply Forall2_fmap_r, Forall2_same_length_lookup. split; [done|].
  intros n i j Hi Hj. rewrite Hi in Hj. injection Hj as <-.
  destruct (lookup_lt_is_Some_2 l i) as [x Hx]; [|simpl; by rewrite Hx].
  apply Hlt. eapply list_elem_of_lookup_2. by apply lookup_take_Some in Hi as [Hi _].
Qed.

Lemma Forall2_choose {A B} (P : A → B → Prop) l :
  (∀ x, x ∈ l → ∃ y, P x y) → ∃ k, Forall2 P l k.
Proof.
  induction l as [|x l IH]; intros H; [by exists []|].
  destruct (H x) as [y Hy]; [by left|]. destruct IH as [k Hk]; [intros; apply H; by right|].
  exists (y :: k). by constructor.
Qed.

(** Distinct assignments fill all the slots exactly when the matching has their number. *)
Lemma full_matching_covers assignments slots :
  matched_count (matched_slots_after assignments slots (length assignments)) = length slots ↔
  covers slots assignments.
Proof.
  destruct (matched_slots_maximum assignments slots (length assignments)) as [[Hl Hf Ho] Hmax].
  split.
  - rewrite <-Hl. intros [f Hc]%matched_count_full. rewrite Hc in Hl, Hf, Ho. rewrite length_fmap in Hl.
    assert (∀ s i, chosen (Some <$> f) s i ↔ f !! s = Some i) as Hch.
    { intros s i. unfold chosen. rewrite list_lookup_fmap. destruct (f !! s); naive_solver. }
    assert (∃ xs, Forall2 (λ i x, assignments !! i = Some x) f xs) as [xs Hxs].
    { apply Forall2_choose. intros i [s Hi]%list_elem_of_lookup. apply Hch in Hi.
      destruct (Hf _ _ Hi) as [_ (a & _ & Ha & _)]. by exists a. }
    exists xs. split.
    + apply (positions_submseteq _ f); [|done]. apply NoDup_alt. intros s s' i. rewrite <-!Hch. apply Ho.
    + apply Forall2_same_length_lookup. split; [apply Forall2_length in Hxs; lia|].
      intros s a groups Ha Hg. destruct (Forall2_lookup_r _ _ _ _ _ Hxs Ha) as (i & Hi & Hia).
      apply Hch in Hi. destruct (Hf _ _ Hi) as [_ (a' & g' & Ha' & Hg' & ?)]. congruence.
  - intros (xs & (f & Hnd & Hxs)%submseteq_positions & Hacc).
    apply Nat.le_antisymm; [rewrite <-Hl; apply matched_count_bound|].
    assert (length f = length slots) as <-.
    { apply Forall2_length in Hxs, Hacc. lia. }
    rewrite <-matched_count_fmap. apply Hmax. split.
    + rewrite length_fmap. apply Forall2_length in Hxs, Hacc. lia.
    + intros s i H. unfold chosen in H. rewrite list_lookup_fmap in H.
      destruct (f !! s) as [j|] eqn:Hj; [|done]. injection H as ->.
      destruct (Forall2_lookup_l _ _ _ _ _ Hxs Hj) as (a & Ha & Hia).
      destruct (Forall2_lookup_l _ _ _ _ _ Hacc Ha) as (g & Hg & Hag).
      split; [by apply lookup_lt_Some in Hia|]. by exists a, g.
    + intros s s' i. unfold chosen. rewrite !list_lookup_fmap. intros H H'.
      destruct (f !! s) as [j|] eqn:Hj, (f !! s') as [j'|] eqn:Hj'; simplify_eq/=.
      by eapply NoDup_lookup.
Qed.

Lemma requirements_met_covers rule assignments :
  material_requirements_met_refs rule assignments = true ↔
  covers (material_requirement_slots rule) assignments.
Proof.
  unfold material_requirements_met_refs, material_requirement_match_count_refs.
  rewrite Nat.eqb_eq, <-material_requirement_slots_length. apply full_matching_covers.
Qed.

(** C7: The search finds the best matching: it uses no assignment twice, no
    choice of assignments for the slots of a rule fills more of them, and the
    requirements are met exactly when different assignments can fill all the
    slots. *)
Theorem slots_are_matched_best rule assignments :
  let slots := material_requirement_slots rule in
  (∃ N, matching assignments slots (length assignments) N ∧
     matched_count N = material_requirement_match_count_refs rule assignments) ∧
  (∀ N, ¬ (matching assignments slots (length assignments) N ∧
           material_requirement_match_count_refs rule assignments < matched_count N)) ∧
  (material_requirements_met_refs rule assignments = true ↔ covers slots assignments).
Proof.
  intros slots. destruct (matched_slots_maximum assignments slots (length assignments)) as [Hm Hmax].
  split; [eexists; by split|]. split; [|apply requirements_met_covers].
  intros N [HN Hlt]. apply Hmax in HN. unfold material_requirement_match_count_refs in Hlt. subst slots. lia.
Qed.

(** * What a start scans *)

Definition barcodes (assignments : list RawMaterialAssignment) : gset string :=
  list_to_set ((λ a, normalize_barcode (asg_barcode a)) <$> assignments).

(** What the scans of a machine with a rule must be: barcodes assigned to the order
    there, namely all that are staged, or different ones for all the slots. *)
Definition scan_covers (rule : ApparatusMaterialRule) (assigned : list RawMaterialAssignment)
    (staged : list string) (scanned : gset string) : Prop :=
  scanned ≠ ∅ ∧ scanned ⊆ barcodes assigned ∧
  match rule_start_policy rule with
  | StartPolicy.StateAll =>
      ∀ b, b ∈ scanned ↔ b ≠ "" ∧ b ∈ barcodes assigned ∧ b ∈ normalize_barcode <$> staged
  | StartPolicy.RequirementGroups =>
      material_requirement_slots rule ≠ [] ∧
      covers (material_requirement_slots rule) (scanned_assignments scanned assigned)
  end.

Lemma assigned_barcodes_elem assignments b :
  b ∈ assigned_barcodes assignments ↔ b ≠ "" ∧ b ∈ barcodes assignments.
Proof.
  unfold assigned_barcodes, barcodes. rewrite !elem_of_list_to_set, filterb_elem, negb_true_iff.
  destruct b; simpl; naive_solver.
Qed.

Lemma normalized_barcodes_nonempty values : "" ∉ normalized_barcodes_list values.
Proof. unfold normalized_barcodes_list. rewrite elem_of_list_to_set, filterb_elem. by intros [_ ?]. Qed.

Lemma scanned_assignments_submseteq scanned assignments :
  scanned_assignments scanned assignments ⊆+ assignments.
Proof. apply sublist_submseteq, filterb_sublist. Qed.

Lemma check_then {A E} b (e : E) (r : result E A) x :
  (_ ← check b e; r) = Ok x ↔ b = false ∧ r = Ok x.
Proof. destruct b; simpl; naive_solver. Qed.

(** Scans within the non-blank assigned barcodes. *)
Lemma scanned_assigned scanned assignments : "" ∉ scanned →
  scanned ⊆ assigned_barcodes assignments ↔ scanned ⊆ barcodes assignments.
Proof.
  intros Hns. split; intros H b Hb; specialize (H b Hb); revert H; rewrite assigned_barcodes_elem; [naive_solver|].
  split; [|done]. by intros ->.
Qed.

Definition staged_among (assigned : gset string) (staged : list string) : gset string :=
  list_to_set (List.filter (λ b, bool_decide (b ∈ assigned)) (normalize_barcode <$> staged)).

Lemma staged_among_elem assigned staged b :
  b ∈ staged_among assigned staged ↔ b ∈ assigned ∧ b ∈ normalize_barcode <$> staged.
Proof.
  unfold staged_among. rewrite elem_of_list_to_set, filterb_elem, bool_decide_eq_true. tauto.
Qed.

Lemma all_staged_scanned scanned assignments staged :
  scanned = staged_among (assigned_barcodes assignments) staged ↔
  ∀ b, b ∈ scanned ↔ b ≠ "" ∧ b ∈ barcodes assignments ∧ b ∈ normalize_barcode <$> staged.
Proof.
  rewrite set_eq. apply forall_proper. intros b.
  rewrite staged_among_elem, assigned_barcodes_elem. tauto.
Qed.

Lemma check_scan_spec rule assignments staged scanned :
  assignments ≠ [] → "" ∉ scanned →
  check_scan_of_assigned rule
    (build_raw_material_start_requirements (Some rule) assignments staged scanned)
    assignments staged scanned = Ok tt ↔ scan_covers rule assignments staged scanned.
Proof.
  intros Hne Hns. unfold check_scan_of_assigned, build_raw_material_start_requirements, scan_covers.
  fold (barcodes assignments). simpl.
  assert (no_assignments assignments = false) as -> by (by destruct assignments). simpl.
  rewrite <-(scanned_assigned _ assignments Hns).
  destruct (rule_start_policy rule); simpl.
  - fold (staged_among (barcodes assignments) staged).
    fold (staged_among (assigned_barcodes assignments) staged).
    rewrite orb_true_r, !check_then, check_Ok, !negb_false_iff, !andb_true_iff, negb_true_iff,
      !bool_decide_eq_false, !bool_decide_eq_true, <-(scanned_assigned _ assignments Hns),
      <-all_staged_scanned.
    split; [naive_solver|]. intros (Hn & Hs & Heq). repeat split; try done. intros He. apply Hn.
    apply set_eq. intros b. split; [|set_solver]. rewrite Heq, staged_among_elem, assigned_barcodes_elem.
    intros [[_ Hb] Hst]. rewrite <-He, staged_among_elem. done.
  - fold (material_requirements_met_refs rule (scanned_assignments scanned assignments)).
    rewrite orb_false_r, !check_then, check_Ok, !negb_false_iff, orb_true_iff, !andb_true_iff, negb_true_iff,
      negb_true_iff, !bool_decide_eq_false, !bool_decide_eq_true, <-(scanned_assigned _ assignments Hns),
      Nat.eqb_neq, <-material_requirement_slots_length, !requirements_met_covers, length_zero_iff_nil.
    split; [naive_solver|]. intros (Hn & Hs & Hnil & Hc). repeat split; try done. right.
    by eapply covers_mono; [apply scanned_assignments_submseteq|].
Qed.

Section facts.
Context `{J : Json} `{C : !RouteCodec} `{R : !ReportCodec} `{!Serde (list OrderLane)}.
Context `{!Serde (list OrderRunInputLink)} `{!Serde (list RezkaActivePartialRoll)}.
Context `{!Serde (list ProgressBatchInputLink)} `{!Serde ProductionQrSessionResources}.
Context `{UnicodeCase} (resolver : ApparatusId → pm_result (option RuntimeApparatusConfiguration)).

(** What a start on a machine must have scanned. *)
Definition start_scanned (canonical : RuntimeApparatusConfiguration)
    (assigned : list RawMaterialAssignment) (staged : list string) (scanned : gset string) : Prop :=
  match live_material_rule canonical with
  | None => scanned = ∅
  | Some rule =>
      match assigned with
      | [] => scanned = ∅ ∧
              (rule_requires_material rule = true → uses_lamination_workflow canonical = true)
      | _ => scan_covers rule assigned staged scanned
      end
  end.

(** What [validate_material_scan] accepts of a start: nothing where the machine has no rule or
    the order no materials, which only a machine without requirements, or a laminator, allows;
    otherwise barcodes assigned to the order on the machine that cover what the rule asks. *)
Lemma start_scan_exact apparatus order_id scanned staged id canonical s :
  parse_apparatus_id apparatus = Ok id → validated_material_apparatus resolver id = Ok canonical →
  validate_material_scan resolver apparatus order_id Action.Start scanned staged s = Ok tt ↔
  start_scanned canonical (raw_material_assignments_for_order_apparatus order_id id s) staged
    (normalized_barcodes_list scanned).
Proof.
  intros Hid Hc. unfold validate_material_scan, start_scanned.
  rewrite bool_decide_eq_true_2 by done. cbn [negb]. rewrite Hid. cbn [mbind result_bind].
  rewrite Hc. cbn [mbind result_bind].
  destruct (live_material_rule canonical) as [rule|].
  2:{ by rewrite check_Ok, negb_false_iff, bool_decide_eq_true. }
  destruct (raw_material_assignments_for_order_apparatus _ _ _) as [|a l] eqn:Ha; cbn [no_assignments].
  - rewrite check_then, check_Ok, negb_false_iff, bool_decide_eq_true. simpl.
    assert (req_assignments_satisfied
      (build_raw_material_start_requirements (Some rule) [] staged (normalized_barcodes_list scanned)) =
      negb (rule_requires_material rule)) as -> by (by unfold build_raw_material_start_requirements; break).
    destruct (uses_lamination_workflow canonical), (rule_requires_material rule); simpl; intuition done.
  - apply check_scan_spec; [done|apply normalized_barcodes_nonempty].
Qed.

(** * The table of assignments *)

Inductive material_step : material_store → material_store → Prop :=
  | StepAssign input actor now s :
      material_step s (assign_raw_material_to_order resolver input actor now s).1
  | StepUnlink input s : material_step s (unlink_raw_material_assignment input s).1
  | StepReceive input assigned s :
      material_step s (receive_raw_material_for_active_order resolver input assigned s).1
  | StepElsewhere runs s : material_step s (s <| ms_runs := runs |>).

(** Each entry is under its own key, and no barcode is in two entries. *)
Record assignments_wf (s : material_store) : Prop := {
  aw_keys : ∀ k a, ms_assignments s !! k = Some a → k = to_uppercase (asg_barcode a);
  aw_once : ∀ k k' a a', ms_assignments s !! k = Some a → ms_assignments s !! k' = Some a' →
    same_barcode (asg_barcode a) (asg_barcode a') = true → k = k';
}.

Lemma raw_material_assignments_elem s a :
  a ∈ raw_material_assignments s ↔ ∃ k, ms_assignments s !! k = Some a.
Proof. apply elem_of_btree_values. Qed.

Lemma prepared_is_unassigned input actor now s a :
  prepare_raw_material_assignment resolver input actor now s = Ok a →
  ∀ b, b ∈ raw_material_assignments s → same_barcode (asg_barcode b) (asg_barcode a) = false.
Proof.
  unfold prepare_raw_material_assignment. intros Hp. inv_ok. simpl. intros b Hb.
  match goal with H : for_each _ _ _ = Ok _ |- _ => rename H into Hf end.
  apply for_each_checks with (x := b) in Hf; [|done]. unfold check_unassigned in Hf. by destruct (same_barcode _ _).
Qed.

Lemma same_barcode_sym a b : same_barcode a b = same_barcode b a.
Proof. unfold same_barcode. by rewrite String.eqb_sym. Qed.

Lemma put_keeps_wf a s : assignments_wf s →
  (∀ b, b ∈ raw_material_assignments s → same_barcode (asg_barcode b) (asg_barcode a) = false) →
  assignments_wf (put_raw_material_assignment a s).
Proof.
  intros [Hk Ho] Hfree. split; simpl.
  - intros k b [[<- <-]|[_ H']]%lookup_insert_Some; [done|by apply Hk].
  - intros k k' b b' [[<- <-]|[Hn H1]]%lookup_insert_Some [[<- <-]|[Hn' H2]]%lookup_insert_Some Hs;
      [done| | |by eapply Ho].
    + rewrite same_barcode_sym, Hfree in Hs; [done|]. apply raw_material_assignments_elem. by exists k'.
    + rewrite Hfree in Hs; [done|]. apply raw_material_assignments_elem. by exists k.
Qed.

Lemma received_is_assigned input assigned s a :
  check_receipt resolver input assigned s = Ok a → a ∈ raw_material_assignments s.
Proof.
  unfold check_receipt. intros Hc. inv_ok.
  destruct (List.find _ _) as [b|] eqn:Hf; [|done]. apply find_elem in Hf as [Hin _].
  destruct (_ && _) in *; [|done]. by simplify_eq.
Qed.

(** Receiving an assigned material writes what is there. *)
Lemma received_unchanged input assigned s : assignments_wf s →
  ms_assignments (receive_raw_material_for_active_order resolver input assigned s).1 = ms_assignments s.
Proof.
  intros [Hk _]. unfold receive_raw_material_for_active_order.
  destruct (check_receipt _ _ _ _) as [a|e] eqn:Hc; [|done]. simpl. apply insert_id.
  apply received_is_assigned, raw_material_assignments_elem in Hc as [k Hin]. by rewrite <-(Hk _ _ Hin).
Qed.

Lemma material_step_wf s s' : material_step s s' → assignments_wf s → assignments_wf s'.
Proof.
  intros [input actor now t|input t|input assigned t|runs t] Hwf.
  - unfold assign_raw_material_to_order. destruct (prepare_raw_material_assignment _ _ _ _ _) as [a|] eqn:Hp; [|done].
    apply put_keeps_wf; [done|]. by eapply prepared_is_unassigned.
  - destruct Hwf as [Hk Ho]. unfold unlink_raw_material_assignment, delete_raw_material_assignment.
    destruct (_ || _); [done|]. destruct (ms_assignments t !! _) as [a|]; [|done].
    destruct (_ <>s _); [done|]. split; simpl.
    + intros k b [_ ?]%lookup_delete_Some. by apply Hk.
    + intros k k' b b' [_ ?]%lookup_delete_Some [_ ?]%lookup_delete_Some. by apply Ho.
  - pose proof (received_unchanged input assigned t Hwf) as E. destruct Hwf as [Hk Ho].
    split; rewrite E; done.
  - destruct Hwf as [Hk Ho]. by split.
Qed.

Lemma barcodes_NoDup s : assignments_wf s →
  NoDup ((λ a, normalize_barcode (asg_barcode a)) <$> raw_material_assignments s).
Proof.
  intros [_ Ho]. unfold raw_material_assignments, btree_values. rewrite <-list_fmap_compose.
  apply NoDup_fmap_2_strong.
  - intros [k a] [k' a'] H1%elem_of_btree_entries H2%elem_of_btree_entries Heq. simpl in Heq.
    assert (k = k') as <-; [|by simplify_eq].
    apply (Ho _ _ _ _ H1 H2). by apply String.eqb_eq.
  - apply (NoDup_fmap_1 fst). rewrite btree_entries_keys. apply NoDup_btree_keys.
Qed.

(** C9: Each barcode is assigned once: however materials were assigned, taken
    back and received, no two assignments carry the same barcode (up to case and
    blanks), an assignment is accepted only when its barcode is in no other, and
    receiving an assigned material changes no assignment. *)
Theorem barcodes_are_assigned_once s0 s : ms_assignments s0 = ∅ → rtc material_step s0 s →
  NoDup ((λ a, normalize_barcode (asg_barcode a)) <$> raw_material_assignments s) ∧
  (∀ input actor now s' a, assign_raw_material_to_order resolver input actor now s = (s', Ok a) →
     a ∈ raw_material_assignments s' ∧
     ∀ b, b ∈ raw_material_assignments s → normalize_barcode (asg_barcode b) ≠ normalize_barcode (asg_barcode a)) ∧
  (∀ input assigned,
     ms_assignments (receive_raw_material_for_active_order resolver input assigned s).1 = ms_assignments s).
Proof.
  intros H0 Hrun. assert (assignments_wf s) as Hwf.
  { assert (assignments_wf s0) as Hwf by (split; intros k *; rewrite H0, lookup_empty; done).
    clear H0. induction Hrun; [done|]. eauto using material_step_wf. }
  split; [by apply barcodes_NoDup|]. split; [|intros; by apply received_unchanged].
  intros input actor now s' a. unfold assign_raw_material_to_order.
  destruct (prepare_raw_material_assignment _ _ _ _ _) as [a'|] eqn:Hp; [|done]. intros [= <- <-]. split.
  - apply raw_material_assignments_elem. eexists. apply lookup_insert_eq.
  - intros b Hb Heq. pose proof (prepared_is_unassigned _ _ _ _ _ Hp b Hb) as Hf.
    unfold same_barcode in Hf. rewrite Heq, String.eqb_refl in Hf. done.
Qed.
End facts.
