(* ===== verification/Ids.v ===== *)
(** Identifiers of runs, events and rolls.

    Models [src/core/production_map/progress_session/ids.rs]: the identifiers that carry the
    clock, and the QR code of a roll, which is the stamp in its identifier followed by 16 bits
    of a hash of the identifier.  The clock, read as seconds or nanoseconds, is an argument. *)
From Stdlib Require Import Ascii.
From S2P Require Import Prelude RustStr F64 Errors Identity QueueState OrderLayout MapDefinition Scheduler Epc.
#[local] Open Scope Z_scope.

(** * Text (ids.rs) *)

(** The character as one byte, when [keep] holds of it, else a dash. *)
Definition or_dash (keep : ascii → bool) (f : ascii → ascii) (c : N) : ascii :=
  let a := Ascii.ascii_of_N c in
  if (c <? 128)%N && keep a then f a else "-"%char.

Definition map_chars (f : N → ascii) (s : string) : string :=
  String.string_of_list_ascii (f <$> chars s).

Definition is_dash (a : ascii) : bool := Ascii.eqb a "-".

Fixpoint drop_dashes (s : string) : string :=
  match s with
  | String a s' => if is_dash a then drop_dashes s' else s
  | EmptyString => EmptyString
  end.

(** [trim_matches('-')]. *)
Definition trim_dashes (s : string) : string := String.rev (drop_dashes (String.rev (drop_dashes s))).

Definition sanitize_id (value : string) : string :=
  let sanitized := trim_dashes (map_chars (or_dash is_ascii_alphanumeric ascii_lower) (trim value)) in
  if is_empty sanitized then "blank" else sanitized.

(** [value.parse::<u128>()]. *)
Definition parse_u128 (value : string) : option Z :=
  let digits := match value with String "+" rest => rest | _ => value end in
  if is_empty digits || negb (all_bytes is_ascii_digit digits) then None
  else
    let z := foldl (λ acc a, 10 * acc + (Z.of_N (byte_of a) - 48)) 0 (String.list_ascii_of_string digits) in
    if z <? 2 ^ 128 then Some z else None.

(** * Identifiers *)

Definition queue_action_event_id (nanos : Z) (apparatus order_id : string) (action : Action.t) : string :=
  "production-map-queue:" +:+ Z_to_string nanos +:+ ":" +:+ trim apparatus +:+ ":" +:+ trim order_id +:+ ":" +:+
  Action.as_str action.

Definition progress_session_id (nanos : Z) (apparatus order_id : string) (actor : QueueActionActor) : string :=
  "order-run:" +:+ Z_to_string nanos +:+ ":" +:+ sanitize_id apparatus +:+ ":" +:+ sanitize_id order_id +:+ ":" +:+
  sanitize_id (actor_ref actor).

Definition progress_event_id (nanos : Z) (session_id order_id : string) (action : Action.t) : string :=
  "order-progress:" +:+ Z_to_string nanos +:+ ":" +:+ sanitize_id session_id +:+ ":" +:+ sanitize_id order_id +:+
  ":" +:+ Action.as_str action.

Definition progress_batch_id (nanos : Z) (apparatus order_id : string) (action : Action.t) : string :=
  "progress-batch:" +:+ Z_to_string nanos +:+ ":" +:+ sanitize_id apparatus +:+ ":" +:+ sanitize_id order_id +:+
  ":" +:+ Action.as_str action.

(** * QR codes *)

(** FNV-1a on 64 bits. *)
Definition fnv_prime : Z := 1099511628211.
Definition fnv_offset : Z := 14695981039346656037.
Definition fnv_step (hash : Z) (a : ascii) : Z :=
  Z.lxor hash (Z.of_N (byte_of a)) * fnv_prime mod 2 ^ 64.

Definition progress_qr_hash (value : string) : Z :=
  Z.land (foldl fnv_step fnv_offset (String.list_ascii_of_string (trim value))) 65535.

(** [now] is read when the identifier carries no stamp. *)
Definition progress_qr_payload (now : Z) (batch_id : string) : string :=
  let stamp := default now (text ← split_on ":" batch_id !! 1%nat; parse_u128 text) in
  "4001" +:+ hex_upper 16 (stamp mod 2 ^ 64) +:+ hex_upper 4 (progress_qr_hash batch_id).

(** * Facts *)

Lemma fnv_step_range h a : 0 <= fnv_step h a < 2 ^ 64.
Proof. unfold fnv_step. apply Z.mod_pos_bound. lia. Qed.

Lemma low16 z : Z.land z 65535 = z mod 2 ^ 16.
Proof. change 65535 with (Z.ones 16). by rewrite Z.land_ones. Qed.

Lemma progress_qr_hash_range v : 0 <= progress_qr_hash v < 2 ^ 16.
Proof. unfold progress_qr_hash. rewrite low16. apply Z.mod_pos_bound. lia. Qed.

(** The low bits of the hash tell the last byte: the multiplication has an inverse. *)
Lemma fnv_step_last h a b :
  Z.land (fnv_step h a) 65535 = Z.land (fnv_step h b) 65535 → a = b.
Proof.
  unfold fnv_step. rewrite !low16. intros H.
  assert (∀ x, x * fnv_prime mod 2 ^ 64 mod 2 ^ 16 = x * fnv_prime mod 2 ^ 16) as Hm.
  { intros x. apply Z.mod_mod_divide. by exists (2 ^ 48). }
  rewrite !Hm in H.
  assert (∀ x, (x * fnv_prime mod 2 ^ 16) * 38267 mod 2 ^ 16 = x mod 2 ^ 16) as Hinv.
  { intros x. rewrite Z.mul_mod_idemp_l, <-Z.mul_assoc by lia.
    rewrite <-Z.mul_mod_idemp_r by lia. change (fnv_prime * 38267 mod 2 ^ 16) with 1. by rewrite Z.mul_1_r. }
  apply (f_equal (λ y, y * 38267 mod 2 ^ 16)) in H. rewrite !Hinv in H.
  set (x := Z.of_N (byte_of a)) in *. set (y := Z.of_N (byte_of b)) in *.
  assert (0 <= x < 256 ∧ 0 <= y < 256) as [Hx Hy].
  { unfold x, y, byte_of. pose proof (Ascii.N_ascii_bounded a). pose proof (Ascii.N_ascii_bounded b). lia. }
  assert (x = y) as Hxy.
  { rewrite <-!Z.land_ones in H by lia. apply Z.bits_inj'. intros n Hn.
    destruct (Z.lt_ge_cases n 16) as [Hlt|Hge].
    - apply (f_equal (λ z, Z.testbit z n)) in H.
      rewrite !Z.land_spec, !Z.lxor_spec, Z.ones_spec_low in H by lia.
      destruct (Z.testbit h n), (Z.testbit x n), (Z.testbit y n); done.
    - rewrite !Z.bits_above_log2; [done|lia| |lia|].
      + destruct (decide (y = 0)) as [->|]; [simpl; lia|]. apply Z.log2_lt_pow2; [lia|].
        apply (Z.lt_le_trans _ 256); [lia|]. change 256 with (2 ^ 8). apply Z.pow_le_mono_r; lia.
      + destruct (decide (x = 0)) as [->|]; [simpl; lia|]. apply Z.log2_lt_pow2; [lia|].
        apply (Z.lt_le_trans _ 256); [lia|]. change 256 with (2 ^ 8). apply Z.pow_le_mono_r; lia. }
  subst x y. apply N2Z.inj in Hxy. unfold byte_of in Hxy.
  by rewrite <-(Ascii.ascii_N_embedding a), <-(Ascii.ascii_N_embedding b), Hxy.
Qed.

Lemma list_ascii_append s t :
  String.list_ascii_of_string (s +:+ t) = String.list_ascii_of_string s ++ String.list_ascii_of_string t.
Proof. induction s as [|a s IH]; simpl; [done|by rewrite IH]. Qed.

(** Identifiers that differ in their last byte have different codes. *)
Lemma qr_hash_last p a b :
  all_bytes graphic (p +:+ String a "") = true → all_bytes graphic (p +:+ String b "") = true →
  progress_qr_hash (p +:+ String a "") = progress_qr_hash (p +:+ String b "") → a = b.
Proof.
  intros Ha Hb. unfold progress_qr_hash. rewrite !trim_graphic, !list_ascii_append, !foldl_app by done.
  apply fnv_step_last.
Qed.

Lemma qr_payload_hash now now' b b' :
  progress_qr_payload now b = progress_qr_payload now' b' → progress_qr_hash b = progress_qr_hash b'.
Proof.
  unfold progress_qr_payload. intros H.
  apply append_inj in H as [_ H]; [|by rewrite !hex_upper_length || done].
  apply append_inj in H as [_ H]; [|by rewrite !hex_upper_length].
  apply hex_upper_inj in H; [done|apply progress_qr_hash_range..].
Qed.
