(* ===== verification/OpeningWip.v ===== *)
(** Rolls that exist before the order is worked in the system.

    Models [src/core/production_map/service_opening_wip.rs], the write and query types of
    [opening_wip.rs] and the opening rolls of [memory_store.rs].  An intake registers the rolls
    of an order that were made before; they are then used and processed like other rolls, or
    deleted while nothing uses them.  The JSON text of a request, which identifies it, is a
    parameter. *)
From Stdlib Require Import Ascii.
From S2P Require Import Prelude RustStr F64 Json Errors Identity QueueState OrderLayout MapDefinition Formula Compiler Bfs Chain Projection Scheduler Progress WipRoute Lifecycle StageExecution OrderRefresh OrderStore Preflight Epc CutLayout Paddon Metrics Lineage RunStore Warehouse QueueCommit Ids.

#[global] Instance QuantityBasis_eq_dec : EqDecision QuantityBasis.t.
Proof. solve_decision. Defined.

(** * Requests (opening_wip.rs) *)

Record OpeningWipBatchInput := {
  obi_quantity_basis : QuantityBasis.t;
  obi_finished_goods_meter : option f64;
  obi_finished_goods_kg : option f64;
  obi_bobina_kg : option f64;
  obi_diameter : option f64;
}.

Record OpeningWipCreateInput := {
  oci_idempotency_key : string;
  oci_order_id : string;
  oci_entry_apparatus : string;
  oci_source_operation : string;
  oci_source_apparatus : string;
  oci_source_stage_node_id : string;
  oci_current_location : string;
  oci_note : string;
  oci_batches : list OpeningWipBatchInput;
}.
#[global] Instance OpeningWipCreateInput_rebuild : Rebuild OpeningWipCreateInput := λ i, {|
  oci_idempotency_key := oci_idempotency_key i; oci_order_id := oci_order_id i;
  oci_entry_apparatus := oci_entry_apparatus i; oci_source_operation := oci_source_operation i;
  oci_source_apparatus := oci_source_apparatus i; oci_source_stage_node_id := oci_source_stage_node_id i;
  oci_current_location := oci_current_location i; oci_note := oci_note i; oci_batches := oci_batches i |}.

Record OpeningWipQuery := {
  owq_order_id : string;
  owq_wip_status : option OpeningStatus.t;
  owq_limit : nat;
}.

Definition MAX_OPENING_WIP_BATCHES : nat := 500.

Definition measure_invalid (o : option f64) : bool :=
  is_some_and o (λ v, negb (is_finite v) || f64_le v f64_zero).

Definition normalize_opening_wip_input (input : OpeningWipCreateInput) : pm_result OpeningWipCreateInput :=
  let n := {| oci_idempotency_key := trim (oci_idempotency_key input);
              oci_order_id := trim (oci_order_id input);
              oci_entry_apparatus := trim (oci_entry_apparatus input);
              oci_source_operation := to_ascii_lowercase (trim (oci_source_operation input));
              oci_source_apparatus := trim (oci_source_apparatus input);
              oci_source_stage_node_id := trim (oci_source_stage_node_id input);
              oci_current_location := trim (oci_current_location input);
              oci_note := trim (oci_note input); oci_batches := oci_batches input |} in
  let no_apparatus := is_empty (oci_source_apparatus n) in
  let no_node := is_empty (oci_source_stage_node_id n) in
  let has_source_contract := negb no_apparatus && negb no_node in
  _ ← check (is_empty (oci_idempotency_key n) || is_empty (oci_order_id n) ||
             negb (Bool.eqb no_apparatus no_node) ||
             (negb has_source_contract &&
              (is_empty (oci_entry_apparatus n) || is_empty (oci_current_location n))) ||
             (length (oci_batches n) =? 0) || (MAX_OPENING_WIP_BATCHES <? length (oci_batches n)))
        OpeningWipInvalidInput;
  _ ← for_each (λ b _, check (existsb measure_invalid
          [obi_finished_goods_meter b; obi_finished_goods_kg b; obi_bobina_kg b; obi_diameter b])
        OpeningWipInvalidInput) (oci_batches n) tt;
  Ok n.

Definition opening_wip_operation_name (operation : ExecutionOperation.t) : string :=
  match operation with
  | ExecutionOperation.Print => "print"
  | ExecutionOperation.Laminate => "laminate"
  | ExecutionOperation.Cut => "cut"
  | ExecutionOperation.Package => "package"
  | ExecutionOperation.Glue => "glue"
  end.

(** A cut roll has a diameter, another roll has none. *)
Definition passport_invalid (requires_diameter : bool) (b : OpeningWipBatchInput) : bool :=
  bool_decide (obi_quantity_basis b = QuantityBasis.Unknown) ||
  is_none (obi_finished_goods_meter b) || is_none (obi_finished_goods_kg b) || is_none (obi_bobina_kg b) ||
  (requires_diameter && is_none (obi_diameter b)) || (negb requires_diameter && is_some (obi_diameter b)).

Definition validate_opening_wip_batches (batches : list OpeningWipBatchInput)
    (operation : ExecutionOperation.t) : pm_result unit :=
  check (existsb (passport_invalid (bool_decide (operation = ExecutionOperation.Cut))) batches)
    OpeningWipInvalidInput.

Definition opening_wip_sanitize_id (value : string) : string :=
  map_chars (or_dash (λ a, is_ascii_alphanumeric a || Ascii.eqb a "-" || Ascii.eqb a "_") id) value.

Definition new_intake_id (stamp : Z) (order_id : string) : string :=
  "opening-wip:" +:+ Z_to_string stamp +:+ ":" +:+ opening_wip_sanitize_id order_id.

Definition opening_roll_id (intake : string) (sequence_no : Z) : string :=
  intake +:+ ":roll-" +:+ Z_to_string sequence_no.

Section opening.
Context `{J : Json} `{C : !RouteCodec} `{R : !ReportCodec} `{!Serde (list OrderLane)}.
Context `{!Serde (list OrderRunInputLink)} `{!Serde (list RezkaActivePartialRoll)}.
Context `{!Serde (list ProgressBatchInputLink)} `{!Serde ProductionQrSessionResources}.
Context (resolver : ApparatusId → pm_result (option RuntimeApparatusConfiguration)).
(** [serde_json::to_string] of a request. *)
Context (opening_wip_fingerprint : OpeningWipCreateInput → string).

Definition with_opening (records : gmap string OpeningWipRecord) (s : run_store) : run_store :=
  with_orders ((os_orders s) <| st_opening_wip_records := records |>) s.

(** * The store (memory_store.rs) *)

Definition opening_wip_by_idempotency_key (key : string) (s : order_store) : option OpeningWipRecord :=
  List.find (λ r, trim (intake_idempotency_key (record_intake r)) =s trim key)
    (btree_values (st_opening_wip_records s)).

(** Later intakes first. *)
Definition newer_intake (a b : OpeningWipRecord) : Prop :=
  let a := record_intake a in let b := record_intake b in
  (intake_created_at_unix b < intake_created_at_unix a)%Z ∨
  (intake_created_at_unix a = intake_created_at_unix b ∧ String.le (intake_id b) (intake_id a)).
#[global] Instance newer_intake_dec : RelDecision newer_intake.
Proof. intros a b. unfold newer_intake. apply _. Defined.

Definition opening_wip_records (query : OpeningWipQuery) (s : order_store) : list OpeningWipRecord :=
  take (Nat.max (owq_limit query) 1) (merge_sort newer_intake (List.filter (λ r,
    (blank (owq_order_id query) || (trim (intake_order_id (record_intake r)) =s trim (owq_order_id query))) &&
    match owq_wip_status query with
    | Some status => existsb (λ b, bool_decide (opening_wip_status b = status)) (record_batches r)
    | None => true
    end) (btree_values (st_opening_wip_records s)))).

(** [store_port.rs]. *)
Definition opening_wip_records_for_orders (order_ids : list string) (s : order_store)
  : list OpeningWipRecord :=
  match order_ids with
  | [] => []
  | _ => List.filter (λ r, bool_decide (trim (intake_order_id (record_intake r)) ∈ order_ids))
           (opening_wip_records {| owq_order_id := ""; owq_wip_status := None; owq_limit := Z.to_nat 100000 |} s)
  end.

Definition store_create_opening_wip (record : OpeningWipRecord) (s : run_store)
  : run_store * pm_result OpeningWipRecord :=
  match opening_wip_by_idempotency_key (intake_idempotency_key (record_intake record)) s with
  | Some existing =>
      (s, if intake_request_fingerprint (record_intake existing) =s
             intake_request_fingerprint (record_intake record)
          then Ok existing else Err OpeningWipIdempotencyConflict)
  | None =>
      (with_opening (<[trim (intake_id (record_intake record)) := record]> (st_opening_wip_records s)) s,
       Ok record)
  end.

Definition payload_uses_batch (batch_id : string) (payload : value) : bool :=
  is_some_and (payload_str payload "input_wip_source_kind") (λ k, eq_ignore_ascii_case k "opening_wip") &&
  is_some_and (payload_str payload "input_progress_batch_id") (λ v, trim v =s batch_id).

Definition has_lineage (batch_id : string) (s : run_store) : bool :=
  existsb (λ session : RunSession, payload_uses_batch batch_id (session_payload_json session)) (sessions s) ||
  existsb (λ event, payload_uses_batch batch_id (pe_payload_json event)) (rs_progress_events s) ||
  existsb (λ b, trim (batch_parent_batch_id b) =s batch_id) (batches s).

Definition has_roll (batch_id : string) (record : OpeningWipRecord) : bool :=
  existsb (λ b, trim (opening_batch_id b) =s batch_id) (record_batches record).

Definition is_unused_roll (record : OpeningWipRecord) (b : OpeningWipBatch) : bool :=
  bool_decide (intake_status (record_intake record) = IntakeStatus.Confirmed) &&
  bool_decide (opening_wip_status b = OpeningStatus.Waiting) &&
  blank (opening_used_by_session_id b) && blank (opening_used_by_apparatus b) &&
  blank (opening_processed_by_session_id b) && blank (opening_processed_by_apparatus b).

Definition is_void (b : OpeningWipBatch) : bool := bool_decide (opening_wip_status b = OpeningStatus.Void).

Definition void_roll (deleted_at : Z) (b : OpeningWipBatch) : OpeningWipBatch :=
  b <| opening_wip_status := OpeningStatus.Void |> <| opening_updated_at_unix := deleted_at |>.

Definition cancel_intake (deleted_at : Z) (i : OpeningWipIntake) : OpeningWipIntake := {|
  intake_id := intake_id i; intake_idempotency_key := intake_idempotency_key i;
  intake_request_fingerprint := intake_request_fingerprint i; intake_order_id := intake_order_id i;
  intake_entry_apparatus := intake_entry_apparatus i; intake_source_operation := intake_source_operation i;
  intake_source_apparatus := intake_source_apparatus i; intake_current_location := intake_current_location i;
  intake_resume_apparatus := intake_resume_apparatus i;
  intake_resume_stage_node_id := intake_resume_stage_node_id i;
  intake_history_status := intake_history_status i; intake_status := IntakeStatus.Cancelled;
  intake_note := intake_note i; intake_actor := intake_actor i;
  intake_created_at_unix := intake_created_at_unix i; intake_updated_at_unix := deleted_at |}.

(** The intake without the roll; it is cancelled with its last roll. *)
Definition without_roll (batch_id : string) (deleted_at : Z) (record : OpeningWipRecord) : OpeningWipRecord :=
  let batches := change_first (λ b, trim (opening_batch_id b) =s batch_id) (void_roll deleted_at)
                   (record_batches record) in
  {| record_intake := if forallb is_void batches then cancel_intake deleted_at (record_intake record)
                      else record_intake record;
     record_batches := batches |}.

Definition store_delete_opening_wip_batch (batch_id : string) (deleted_at : Z) (s : run_store)
  : run_store * pm_result (OpeningWipIntake * OpeningWipBatch) :=
  let batch_id := trim batch_id in
  if is_empty batch_id then (s, Err OpeningWipInvalidInput)
  else
    match List.find (λ entry : string * OpeningWipRecord, has_roll batch_id entry.2)
            (btree_entries (st_opening_wip_records s)) with
    | None => (s, Err ProgressBatchNotFound)
    | Some (key, record) =>
        match List.find (λ b, trim (opening_batch_id b) =s batch_id) (record_batches record) with
        | None => (s, Err ProgressBatchNotFound)
        | Some current =>
            if is_void current then (s, Ok (record_intake record, current))
            else if negb (is_unused_roll record current) || has_lineage batch_id s
            then (s, Err OpeningWipDeleteLocked)
            else
              let record' := without_roll batch_id deleted_at record in
              (with_opening (<[key := record']> (st_opening_wip_records s)) s,
               Ok (record_intake record', void_roll deleted_at current))
        end
    end.

(** * The service (service_opening_wip.rs) *)

(** [catalog/service.rs]. *)
Definition production_order_lifecycle (order_id : string) (s : order_store)
  : pm_result ProductionOrderLifecycleRecord :=
  let order_id := trim order_id in
  _ ← check (is_empty order_id) MissingId;
  ok_or (st_lifecycles s !! order_id) MapNotFound.

(** Where the rolls come from: the occurrence that made them, or the machine the order
    stands at.  The operation, and the machine and occurrence where work goes on. *)
Definition opening_source (map : ProductionMapDefinition) (n : OpeningWipCreateInput)
  : pm_result (OpeningWipCreateInput * ExecutionOperation.t * string * string) :=
  if negb (is_empty (oci_source_apparatus n)) then
    source ← ok_or (work_stage_for_station map (oci_source_apparatus n) (oci_source_stage_node_id n))
               OpeningWipSourceMismatch;
    _ ← check (match next_work_stages_for_node map (stage_node_id source) with [] => true | _ => false end)
          OpeningWipSourceFinalStage;
    apparatus ← ok_or (stage_apparatus_id source) OpeningWipSourceMismatch;
    configuration ← resolve_canonical_apparatus_text resolver apparatus;
    let operation := runtime_operation configuration in
    Ok (n <| oci_entry_apparatus := apparatus |> <| oci_source_apparatus := apparatus |>
          <| oci_source_stage_node_id := stage_node_id source |>
          <| oci_source_operation := opening_wip_operation_name operation |>
          <| oci_current_location := "" |>,
        operation, "", stage_node_id source)
  else
    first_apparatus ← ok_or (head (omap stage_apparatus_id (linear_work_stages map))) OpeningWipEntryMismatch;
    _ ← check (negb (apparatus_ids_match first_apparatus (oci_entry_apparatus n))) OpeningWipEntryMismatch;
    location ← ok_or (List.find (stage_runs_on (oci_current_location n)) (linear_work_stages map))
                 OpeningWipLocationMismatch;
    resume ← ok_or (stage_apparatus_id location) OpeningWipLocationMismatch;
    configuration ← resolve_canonical_apparatus_text resolver (oci_entry_apparatus n);
    Ok (n <| oci_current_location := if blank (stage_station_title location) then resume
                                     else trim (stage_station_title location) |>
          <| oci_source_operation := "unavailable_before_cutover" |>
          <| oci_source_apparatus := "" |> <| oci_source_stage_node_id := "" |>,
        runtime_operation configuration, resume, stage_node_id location).

Definition opening_roll (map : ProductionMapDefinition) (intake order_id : string) (now nanos : Z)
    (index : nat) (input : OpeningWipBatchInput) : OpeningWipBatch :=
  let sequence_no := (Z.of_nat index + 1)%Z in
  let id := opening_roll_id intake sequence_no in
  {| opening_batch_id := id; opening_parent_batch_id := ""; opening_intake_id := intake;
     opening_order_id := order_id; opening_sequence_no := sequence_no;
     opening_qr_payload := progress_qr_payload nanos id;
     opening_quantity_basis := obi_quantity_basis input;
     opening_quantity := obi_finished_goods_meter input; opening_uom := "m";
     opening_finished_goods_meter := obi_finished_goods_meter input;
     opening_finished_goods_kg := obi_finished_goods_kg input;
     opening_bobina_kg := obi_bobina_kg input; opening_diameter := obi_diameter input;
     opening_wip_status := OpeningStatus.Waiting; opening_used_by_session_id := "";
     opening_used_by_apparatus := ""; opening_processed_by_session_id := "";
     opening_processed_by_apparatus := ""; opening_label_item_code := trim (map_product_code map);
     opening_label_item_name := trim (map_title map); opening_created_at_unix := now;
     opening_updated_at_unix := now |}.

(** A queue state that is neither blank nor pending. *)
Definition already_started (order_id : string) (s : order_store) : bool :=
  existsb (λ states : gmap string string,
    is_some_and (states !! order_id) (λ state, negb (blank state) &&
      negb (eq_ignore_ascii_case (trim state) "pending"))) (btree_values (st_queue_states s)).

Definition opening_record (map : ProductionMapDefinition) (n : OpeningWipCreateInput) (fingerprint : string)
    (resume_apparatus resume_node : string) (actor : QueueActionActor) (now nanos : Z) : OpeningWipRecord :=
  let id := new_intake_id nanos (oci_order_id n) in
  {| record_intake := {|
       intake_id := id; intake_idempotency_key := oci_idempotency_key n;
       intake_request_fingerprint := fingerprint; intake_order_id := oci_order_id n;
       intake_entry_apparatus := oci_entry_apparatus n; intake_source_operation := oci_source_operation n;
       intake_source_apparatus := oci_source_apparatus n;
       intake_current_location := oci_current_location n; intake_resume_apparatus := resume_apparatus;
       intake_resume_stage_node_id := resume_node;
       intake_history_status := "unavailable_before_cutover"; intake_status := IntakeStatus.Confirmed;
       intake_note := oci_note n; intake_actor := actor; intake_created_at_unix := now;
       intake_updated_at_unix := now |};
     record_batches := imap (opening_roll map id (oci_order_id n) now nanos) (oci_batches n) |}.

(** What the request asks for, as far as the maps and machines decide it. *)
Definition opening_request (input : OpeningWipCreateInput) (s : order_store)
  : pm_result (ProductionMapDefinition * OpeningWipCreateInput * string * string) :=
  n ← normalize_opening_wip_input input;
  map ← ok_or (List.find (λ m, trim (map_id m) =s oci_order_id n) (btree_values (st_maps s))) MapNotFound;
  '(n', operation, resume_apparatus, resume_node) ← opening_source map n;
  _ ← validate_opening_wip_batches (oci_batches n') operation;
  Ok (map, n', resume_apparatus, resume_node).

(** A new intake is refused once the order is over, or has started elsewhere. *)
Definition check_new_intake (n : OpeningWipCreateInput) (uses_source_contract : bool) (s : order_store)
  : pm_result unit :=
  lifecycle ← production_order_lifecycle (oci_order_id n) s;
  _ ← check (LifecycleStatus.is_terminal_for_material_assignment (lc_status lifecycle))
        OrderAlreadyCompleted;
  check (negb uses_source_contract && already_started (oci_order_id n) s) OpeningWipOrderAlreadyStarted.

Definition create_opening_wip (input : OpeningWipCreateInput) (actor : QueueActionActor) (now nanos : Z)
    (s : run_store) : run_store * pm_result OpeningWipRecord :=
  match opening_request input s with
  | Err e => (s, Err e)
  | Ok (map, n, resume_apparatus, resume_node) =>
      let fingerprint := opening_wip_fingerprint n in
      match opening_wip_by_idempotency_key (oci_idempotency_key n) s with
      | Some existing =>
          (s, if intake_request_fingerprint (record_intake existing) =s fingerprint
              then Ok existing else Err OpeningWipIdempotencyConflict)
      | None =>
          match check_new_intake n (negb (blank (oci_source_apparatus input))) s with
          | Err e => (s, Err e)
          | Ok _ => store_create_opening_wip
              (opening_record map n fingerprint resume_apparatus resume_node actor now nanos) s
          end
      end
  end.

Definition delete_opening_wip_batch (batch_id : string) (actor : QueueActionActor) (now : Z) (s : run_store)
  : run_store * pm_result (OpeningWipIntake * OpeningWipBatch) :=
  if blank batch_id then (s, Err OpeningWipInvalidInput)
  else if negb (eq_ignore_ascii_case (trim (actor_role actor)) "admin") &&
          negb (eq_ignore_ascii_case (trim (actor_role actor)) "brigader")
  then (s, Err OpeningWipDeleteForbidden)
  else store_delete_opening_wip_batch batch_id now s.

(** Where a roll of an intake is used next. *)
Definition opening_wip_target_stage (map : ProductionMapDefinition) (intake : OpeningWipIntake)
    (target_apparatus preferred : string) : option ChainStage :=
  if negb (blank (intake_source_apparatus intake)) then
    source ← work_stage_for_station map (intake_source_apparatus intake) (intake_resume_stage_node_id intake);
    List.find (λ stage, stage_runs_on target_apparatus stage &&
      (blank preferred || (trim (stage_node_id stage) =s trim preferred)))
      (next_work_stages_for_node map (stage_node_id source))
  else if negb (apparatus_ids_match (intake_resume_apparatus intake) target_apparatus) then None
  else work_stage_for_station map target_apparatus
         (if blank preferred then intake_resume_stage_node_id intake else preferred).
End opening.
