(* ===== verification/OpeningWipFacts.v ===== *)
(** Opening rolls: a request is recorded once, an intake follows its rolls, rolls that are
    over stay as they are, and when the codes of an intake tell its rolls apart. *)
From Stdlib Require Import Ascii.
From S2P Require Import Prelude RustStr F64 Json Errors Identity QueueState OrderLayout MapDefinition Formula Compiler Bfs Chain Projection Scheduler Progress WipRoute Lifecycle StageExecution OrderRefresh OrderStore Preflight Epc CutLayout Paddon Metrics Lineage LineageFacts RunStore Warehouse QueueCommit Ids OpeningWip.

(** * Codes *)

Lemma digit_graphic n : graphic (digit_char (n mod 10)) = true.
Proof.
  pose proof (N.mod_lt n 10 ltac:(done)) as H. revert H. generalize (n mod 10)%N. intros d H.
  assert (d = 0 ∨ d = 1 ∨ d = 2 ∨ d = 3 ∨ d = 4 ∨ d = 5 ∨ d = 6 ∨ d = 7 ∨ d = 8 ∨ d = 9)%N as Hd by lia.
  by destruct_or! Hd; subst.
Qed.

Lemma N_digits_graphic fuel n acc : all_bytes graphic acc = true → all_bytes graphic (N_digits fuel n acc) = true.
Proof.
  revert n acc. induction fuel as [|fuel IH]; intros n acc Hacc; [done|]. cbn [N_digits].
  assert (all_bytes graphic (String (digit_char (n mod 10)) acc) = true).
  { cbn [all_bytes]. by rewrite digit_graphic. }
  destruct (n <? 10)%N; [done|by apply IH].
Qed.

Lemma Z_to_string_graphic z : all_bytes graphic (Z_to_string z) = true.
Proof. destruct z; simpl; unfold N_to_string; [done|by apply N_digits_graphic..]. Qed.

Lemma all_bytes_of_list f l : all_bytes f (String.string_of_list_ascii l) = forallb f l.
Proof. induction l as [|a l IH]; [done|]. simpl. by rewrite IH. Qed.

Lemma sanitized_graphic v : all_bytes graphic (opening_wip_sanitize_id v) = true.
Proof.
  unfold opening_wip_sanitize_id, map_chars. rewrite all_bytes_of_list. apply forallb_elem.
  intros a [c [-> _]]%list_elem_of_fmap. unfold or_dash. destruct (_ && _) eqn:E; [|done].
  apply andb_true_iff in E as [_ E]. unfold id.
  revert E. generalize (Ascii.ascii_of_N c). intros [[] [] [] [] [] [] [] []]; vm_compute; congruence.
Qed.

Lemma intake_id_graphic nanos order : all_bytes graphic (new_intake_id nanos order) = true.
Proof.
  unfold new_intake_id. rewrite !all_bytes_append, Z_to_string_graphic, sanitized_graphic. done.
Qed.

Lemma one_digit i : i < 9 → Z_to_string (Z.of_nat i + 1) = String (digit_char (N.of_nat (S i))) "".
Proof. intros H. do 9 (destruct i as [|i]; [done|]). lia. Qed.

Lemma roll_id_last intake i : i < 9 →
  opening_roll_id intake (Z.of_nat i + 1) = (intake +:+ ":roll-") +:+ String (digit_char (N.of_nat (S i))) "".
Proof. intros H. unfold opening_roll_id. by rewrite one_digit, append_assoc. Qed.

Lemma roll_codes_differ now intake i j : all_bytes graphic intake = true → i < 9 → j < 9 →
  progress_qr_payload now (opening_roll_id intake (Z.of_nat i + 1)) =
  progress_qr_payload now (opening_roll_id intake (Z.of_nat j + 1)) → i = j.
Proof.
  intros Hg Hi Hj H%qr_payload_hash. rewrite !roll_id_last in H by done.
  assert (∀ k, k < 9 → graphic (digit_char (N.of_nat (S k))) = true) as Hd.
  { intros k Hk. do 9 (destruct k as [|k]; [done|]). lia. }
  apply qr_hash_last in H; [|by rewrite !all_bytes_append, Hg; cbn [all_bytes]; rewrite Hd..].
  apply (f_equal Ascii.N_of_ascii) in H. unfold digit_char in H.
  rewrite !Ascii.N_ascii_embedding in H by lia. lia.
Qed.

Section facts.
Context `{J : Json} `{C : !RouteCodec} `{R : !ReportCodec} `{!Serde (list OrderLane)}.
Context `{!Serde (list OrderRunInputLink)} `{!Serde (list RezkaActivePartialRoll)}.
Context `{!Serde (list ProgressBatchInputLink)} `{!Serde ProductionQrSessionResources}.
Context (resolver : ApparatusId → pm_result (option RuntimeApparatusConfiguration)).
Context (fingerprint : OpeningWipCreateInput → string).

(** C38: The codes of the rolls of an intake are different when it has at most
    nine rolls. They need not be when it has more: the code has the stamp of the
    intake and 16 bits of a hash, and the ninth and the twelfth roll of one
    intake can carry the same code. *)
Theorem small_intakes_have_distinct_codes map n fp resume node actor now nanos :
  length (oci_batches n) ≤ 9 →
  NoDup (opening_qr_payload <$> record_batches (opening_record map n fp resume node actor now nanos)) ∧
  ∃ stamp order,
    progress_qr_payload stamp (opening_roll_id (new_intake_id stamp order) 9) =
    progress_qr_payload stamp (opening_roll_id (new_intake_id stamp order) 12).
Proof.
  intros Hlen. split; [|exists 1700000000000001407%Z, "zakaz-17"; vm_refl].
  apply NoDup_alt. intros i j x. unfold opening_record. cbn [record_batches].
  rewrite !list_lookup_fmap, !list_lookup_imap.
  destruct (oci_batches n !! i) as [bi|] eqn:Ei; [|done]. destruct (oci_batches n !! j) as [bj|] eqn:Ej; [|done].
  apply lookup_lt_Some in Ei, Ej. cbn [fmap option_fmap option_map].
  intros Hi Hj. apply (roll_codes_differ nanos (new_intake_id nanos (oci_order_id n)));
    [apply intake_id_graphic|lia|lia|].
  rewrite <-Hj in Hi. apply (inj Some) in Hi. exact Hi.
Qed.

(** * Requests *)

Lemma opening_source_keeps_key map n n' operation resume node :
  opening_source resolver map n = Ok (n', operation, resume, node) →
  oci_idempotency_key n' = oci_idempotency_key n ∧ oci_order_id n' = oci_order_id n ∧
  oci_batches n' = oci_batches n.
Proof. unfold opening_source. intros H. destruct (negb _); inv_ok; simplify_eq/=; done. Qed.

Lemma normalized_input input n : normalize_opening_wip_input input = Ok n →
  oci_idempotency_key n = trim (oci_idempotency_key input) ∧
  oci_order_id n = trim (oci_order_id input) ∧ oci_batches n ≠ [].
Proof.
  unfold normalize_opening_wip_input. intros H. inv_ok. simplify_eq/=. split; [done|]. split; [done|].
  intros Hn. rewrite Hn in *. simpl in *. breflect. done.
Qed.

Lemma opening_request_spec input s map n resume node :
  opening_request resolver input s = Ok (map, n, resume, node) →
  oci_idempotency_key n = trim (oci_idempotency_key input) ∧
  oci_order_id n = trim (oci_order_id input) ∧ oci_batches n ≠ [].
Proof.
  unfold opening_request. intros H. inv_ok.
  repeat match goal with x : _ * _ |- _ => destruct x end. inv_ok. simplify_eq/=.
  repeat match goal with
  | H : normalize_opening_wip_input _ = Ok _ |- _ => apply normalized_input in H as (? & ? & ?)
  | H : opening_source _ _ _ = Ok _ |- _ => apply opening_source_keeps_key in H as (? & ? & ?)
  end. split_and!; congruence.
Qed.

Lemma opening_request_maps input s s' :
  st_maps s = st_maps s' → opening_request resolver input s = opening_request resolver input s'.
Proof. unfold opening_request. by intros ->. Qed.

(** The only match of a search, put in a table. *)
Lemma find_inserted {A} (P : A → bool) (m : gmap string A) k v :
  List.find P (btree_values m) = None → P v = true → List.find P (btree_values (<[k:=v]> m)) = Some v.
Proof.
  intros Hn Hv. destruct (List.find P (btree_values (<[k:=v]> m))) as [x|] eqn:E.
  - apply find_elem in E as [Hin Hx]. apply elem_of_btree_values in Hin as [k' Hk'].
    apply lookup_insert_Some in Hk' as [[_ ->]|[_ Hk']]; [done|].
    apply List.find_none with (x := x) in Hn; [congruence|].
    apply list_elem_of_In, elem_of_btree_values. by exists k'.
  - apply List.find_none with (x := v) in E; [congruence|].
    apply list_elem_of_In, elem_of_btree_values. exists k. by rewrite lookup_insert_eq.
Qed.

Lemma key_trim key s :
  opening_wip_by_idempotency_key (trim key) s = opening_wip_by_idempotency_key key s.
Proof. unfold opening_wip_by_idempotency_key. by rewrite trim_idemp. Qed.

(** What an accepted request leaves behind. *)
Lemma created_spec input actor now nanos s s1 rec :
  create_opening_wip resolver fingerprint input actor now nanos s = (s1, Ok rec) →
  ∃ map n resume node, opening_request resolver input s = Ok (map, n, resume, node) ∧
    st_maps s1 = st_maps s ∧ intake_request_fingerprint (record_intake rec) = fingerprint n ∧
    opening_wip_by_idempotency_key (oci_idempotency_key input) s1 = Some rec.
Proof.
  unfold create_opening_wip.
  destruct (opening_request resolver input s) as [[[[map n] resume] node]|] eqn:Hr; [|done].
  destruct (opening_request_spec _ _ _ _ _ _ Hr) as (Hk & _).
  destruct (opening_wip_by_idempotency_key (oci_idempotency_key n) s) as [existing|] eqn:Hf.
  - destruct (_ =s _) eqn:Hfp; [|done]. intros [= <- <-]. exists map, n, resume, node.
    split; [done|]. split; [done|]. split; [by apply String.eqb_eq|]. by rewrite <-key_trim, <-Hk.
  - destruct (check_new_intake _ _ _) as [[]|]; [|done]. unfold store_create_opening_wip, opening_record.
    cbn [record_intake intake_idempotency_key intake_request_fingerprint intake_id]. rewrite Hf.
    intros [= <- <-]. exists map, n, resume, node. split; [done|]. split; [done|]. split; [done|].
    rewrite Hk, key_trim in Hf. unfold opening_wip_by_idempotency_key in *.
    apply find_inserted; [exact Hf|]. cbn [record_intake intake_idempotency_key].
    rewrite Hk, trim_idemp. apply String.eqb_refl.
Qed.

(** A request registers its rolls once: repeated, by whomever and whenever,
    it answers with the same intake and leaves the store alone; another request
    under the same key changes nothing either, and is answered only with that
    intake, and only when it asks for the same. *)
Theorem opening_intake_is_created_once input actor now nanos s s1 rec :
  create_opening_wip resolver fingerprint input actor now nanos s = (s1, Ok rec) →
  (∀ actor' now' nanos', create_opening_wip resolver fingerprint input actor' now' nanos' s1 = (s1, Ok rec)) ∧
  (∀ input' actor' now' nanos', trim (oci_idempotency_key input') = trim (oci_idempotency_key input) →
     ∃ r, create_opening_wip resolver fingerprint input' actor' now' nanos' s1 = (s1, r) ∧
       ∀ rec', r = Ok rec' → rec' = rec ∧
         ∃ x, fingerprint x = intake_request_fingerprint (record_intake rec) ∧
           ∃ map resume node, opening_request resolver input' s1 = Ok (map, x, resume, node)).
Proof.
  intros (map & n & resume & node & Hr & Hm & Hfp & Hf)%created_spec. split.
  - intros actor' now' nanos'. unfold create_opening_wip.
    rewrite (opening_request_maps _ s1 s Hm), Hr. destruct (opening_request_spec _ _ _ _ _ _ Hr) as (-> & _).
    by rewrite key_trim, Hf, Hfp, String.eqb_refl.
  - intros input' actor' now' nanos' Hkey. unfold create_opening_wip.
    destruct (opening_request resolver input' s1) as [[[[map' n'] resume'] node']|e] eqn:Hr'; [|by exists (Err e)].
    destruct (opening_request_spec _ _ _ _ _ _ Hr') as (-> & _). rewrite Hkey, key_trim, Hf.
    eexists. split; [done|]. intros rec'. destruct (_ =s _) eqn:E; [|done]. intros [= <-].
    split; [done|]. exists n'. apply String.eqb_eq in E. split; [done|]. by exists map', resume', node'.
Qed.

(** * Intakes and their rolls *)

Lemma change_first_find {A} (f : A → bool) g (l : list A) x :
  x ∈ l → x ∈ change_first f g l ∨ List.find f l = Some x.
Proof.
  induction l as [|y l IH]; intros Hx; [by apply elem_of_nil in Hx|]. cbn [change_first List.find].
  apply elem_of_cons in Hx as [->|Hx]; destruct (f _).
  - by right.
  - left. by left.
  - left. by right.
  - destruct (IH Hx); [|by right]. left. by right.
Qed.

Lemma change_first_changed {A} (f : A → bool) g (l : list A) x :
  List.find f l = Some x → g x ∈ change_first f g l.
Proof.
  induction l as [|y l IH]; cbn [change_first List.find]; [done|]. destruct (f y); intros H.
  - injection H as ->. by left.
  - right. auto.
Qed.

(** The tables the rolls are in, and what happens to them: intakes under fresh
    identifiers, deletions, and the uses and returns of queue actions. *)
Abbreviation rolls s := (st_opening_wip_records (os_orders (ts_tables (rs_trials s)))).

Inductive opening_step : run_store → run_store → Prop :=
  | StepCreate input actor now nanos s :
      rolls s !! trim (new_intake_id nanos (trim (oci_order_id input))) = None →
      opening_step s (create_opening_wip resolver fingerprint input actor now nanos s).1
  | StepDelete batch_id actor now s : opening_step s (delete_opening_wip_batch batch_id actor now s).1
  | StepUse update s : opening_step s (put_opening_update update s).1
  | StepOther s s' : rolls s' = rolls s → opening_step s s'.

Definition is_over (b : OpeningWipBatch) : Prop :=
  opening_wip_status b = OpeningStatus.Void ∨ opening_wip_status b = OpeningStatus.Processed.

(** The intake is cancelled when all its rolls are deleted. *)
Definition follows_rolls (r : OpeningWipRecord) : Prop :=
  intake_status (record_intake r) = IntakeStatus.Cancelled ↔ ∀ b, b ∈ record_batches r → is_void b = true.

(** What one change of an intake does to it. *)
Definition intake_changed (r r' : OpeningWipRecord) : Prop :=
  (follows_rolls r → follows_rolls r') ∧ ∀ b, b ∈ record_batches r → is_over b → b ∈ record_batches r'.

(** A step adds intakes, or changes one. *)
Definition rolls_changed (s s' : run_store) : Prop :=
  ∀ k r', rolls s' !! k = Some r' →
    (rolls s !! k = None ∧ follows_rolls r') ∨ ∃ r, rolls s !! k = Some r ∧ (r' = r ∨ intake_changed r r').

Definition rolls_kept (s s' : run_store) : Prop := ∀ k, is_Some (rolls s !! k) → is_Some (rolls s' !! k).

Lemma rolls_with m s : rolls (with_opening m s) = m.
Proof. done. Qed.

Lemma inserted_intake s k r r' :
  rolls s !! k = Some r → intake_changed r r' →
  rolls_changed s (with_opening (<[k:=r']> (rolls s)) s) ∧ rolls_kept s (with_opening (<[k:=r']> (rolls s)) s).
Proof.
  intros Hr Hc. unfold rolls_changed, rolls_kept. rewrite rolls_with. split.
  - intros k' x [[<- <-]|[_ H]]%lookup_insert_Some; right; [by exists r; auto|by exists x; auto].
  - intros k' [x Hx]. destruct (decide (k' = k)) as [->|]; [by rewrite lookup_insert_eq|].
    rewrite lookup_insert_ne by done. by exists x.
Qed.

Lemma unchanged_rolls s s' : rolls s' = rolls s → rolls_changed s s' ∧ rolls_kept s s'.
Proof.
  intros E. split; [|intros k; by rewrite E].
  intros k r'. rewrite E. intros H. right. exists r'. auto.
Qed.

Lemma without_roll_changed batch_id now r current :
  List.find (λ b, trim (opening_batch_id b) =s batch_id) (record_batches r) = Some current →
  is_unused_roll r current = true → intake_changed r (without_roll batch_id now r).
Proof.
  unfold is_unused_roll. intros Hf Hu. rewrite !andb_true_iff, !bool_decide_eq_true in Hu.
  destruct Hu as [[[[[Hst Hw] _] _] _] _]. split.
  - intros _. unfold follows_rolls, without_roll. simpl.
    destruct (forallb is_void _) eqn:E; simpl; rewrite <-forallb_elem; [by rewrite E|].
    rewrite Hst, E. done.
  - intros b Hb Ho. unfold without_roll. simpl.
    destruct (change_first_find (λ b, trim (opening_batch_id b) =s batch_id) (void_roll now) _ _ Hb) as [?|E]; [done|].
    rewrite Hf in E. injection E as ->. destruct Ho; congruence.
Qed.

Lemma used_roll_changed update r current :
  List.find (λ b, trim (opening_batch_id b) =s trim (opening_batch_id update)) (record_batches r) = Some current →
  opening_transition_allowed current update = true →
  intake_changed r {| record_intake := record_intake r;
    record_batches := change_first (λ b, trim (opening_batch_id b) =s trim (opening_batch_id update))
                        (λ _, update) (record_batches r) |}.
Proof.
  intros Hf Ht.
  assert (¬ is_over current ∧ is_void update = false) as [Hc Hu].
  { unfold opening_transition_allowed, is_over, is_void in *.
    destruct (opening_wip_status current), (opening_wip_status update); cbn in Ht; try discriminate Ht;
      (split; [by intros [?|?]|done]). }
  split.
  - intros Hr. unfold follows_rolls in *. simpl.
    assert (∀ l : list OpeningWipBatch, ∀ x, x ∈ l → is_void x = false →
      ¬ (∀ b, b ∈ l → is_void b = true)) as Hno by (intros l x Hx Hv H; rewrite H in Hv; done).
    split; intros H; exfalso.
    + pose proof (proj1 Hr H). apply (Hno (record_batches r) current); [by apply find_elem in Hf as [? _]| |done].
      unfold is_void. apply bool_decide_eq_false. intros Hv. apply Hc. by left.
    + apply (Hno _ update) in H; [done| |done].
      by apply (change_first_changed _ (λ _, update)) in Hf.
  - intros b Hb Ho. simpl.
    destruct (change_first_find (λ b, trim (opening_batch_id b) =s trim (opening_batch_id update)) (λ _, update)
                _ _ Hb) as [?|E]; [done|].
    rewrite Hf in E. by injection E as ->.
Qed.

Lemma new_intake_follows map n fp resume node actor now nanos : oci_batches n ≠ [] →
  follows_rolls (opening_record map n fp resume node actor now nanos).
Proof.
  intros Hn. unfold follows_rolls, opening_record. cbn [record_intake record_batches intake_status].
  split; [done|]. intros H. exfalso. destruct (oci_batches n) as [|b l]; [done|].
  specialize (H _ (list_elem_of_here _ _)). unfold is_void in H. cbn in H. discriminate H.
Qed.

Lemma created_changed input actor now nanos s :
  rolls s !! trim (new_intake_id nanos (trim (oci_order_id input))) = None →
  let s' := (create_opening_wip resolver fingerprint input actor now nanos s).1 in
  rolls_changed s s' ∧ rolls_kept s s'.
Proof.
  intros Hfresh. unfold create_opening_wip.
  destruct (opening_request resolver input s) as [[[[map n] resume] node]|] eqn:Hr; [|by apply unchanged_rolls].
  destruct (opening_request_spec _ _ _ _ _ _ Hr) as (_ & Ho & Hne).
  destruct (opening_wip_by_idempotency_key _ _); [by apply unchanged_rolls|].
  destruct (check_new_intake _ _ _); [|by apply unchanged_rolls].
  unfold store_create_opening_wip. destruct (opening_wip_by_idempotency_key _ _); [by apply unchanged_rolls|].
  cbn [fst]. unfold rolls_changed, rolls_kept. rewrite rolls_with.
  set (r := opening_record _ _ _ _ _ _ _ _).
  assert (trim (intake_id (record_intake r)) = trim (new_intake_id nanos (trim (oci_order_id input)))) as ->
    by (unfold r, opening_record; simpl; by rewrite Ho).
  split.
  - intros k r' [[<- <-]|[_ H]]%lookup_insert_Some; [left; split; [done|by apply new_intake_follows]|].
    right. exists r'. auto.
  - intros k [x Hx]. rewrite lookup_insert_ne; [by exists x|]. intros <-. congruence.
Qed.

Lemma deleted_changed batch_id actor now s :
  let s' := (delete_opening_wip_batch batch_id actor now s).1 in rolls_changed s s' ∧ rolls_kept s s'.
Proof.
  unfold delete_opening_wip_batch, store_delete_opening_wip_batch.
  destruct (blank batch_id); [by apply unchanged_rolls|]. destruct (_ && _); [by apply unchanged_rolls|].
  destruct (is_empty _); [by apply unchanged_rolls|].
  destruct (List.find _ (btree_entries _)) as [[key r]|] eqn:Hk; [|by apply unchanged_rolls].
  destruct (List.find _ (record_batches r)) as [current|] eqn:Hf; [|by apply unchanged_rolls].
  destruct (is_void current); [by apply unchanged_rolls|].
  destruct (negb _ || _) eqn:Hu; [by apply unchanged_rolls|]. breflect.
  apply find_elem in Hk as [Hk _]. apply elem_of_btree_entries in Hk.
  cbn [fst]. eapply inserted_intake; [exact Hk|]. by eapply without_roll_changed.
Qed.

Lemma used_changed update s :
  let s' := (put_opening_update update s).1 in rolls_changed s s' ∧ rolls_kept s s'.
Proof.
  unfold put_opening_update.
  destruct (_ !! trim (opening_intake_id update)) as [r|] eqn:Hr; [|by apply unchanged_rolls].
  destruct (List.find _ _) as [current|] eqn:Hf; [|by apply unchanged_rolls].
  destruct (opening_transition_allowed current update) eqn:Ht; [|by apply unchanged_rolls].
  cbn [fst]. eapply inserted_intake; [exact Hr|]. by eapply used_roll_changed.
Qed.

Lemma opening_step_changed s s' : opening_step s s' → rolls_changed s s' ∧ rolls_kept s s'.
Proof.
  intros [input actor now nanos t Hf|b actor now t|update t|t t' E].
  - by apply created_changed.
  - apply deleted_changed.
  - apply used_changed.
  - by apply unchanged_rolls.
Qed.

(** C27: An intake follows its rolls, whatever intakes, deletions and queue
    actions follow each other: it is cancelled exactly when all its rolls are
    deleted, no intake disappears, and a roll that is deleted or processed stays
    as it is. *)
Theorem opening_intakes_follow_their_rolls s s' :
  rtc opening_step s s' → (∀ k r, rolls s !! k = Some r → follows_rolls r) →
  (∀ k r', rolls s' !! k = Some r' → follows_rolls r') ∧
  (∀ k r, rolls s !! k = Some r → ∃ r', rolls s' !! k = Some r' ∧
     ∀ b, b ∈ record_batches r → is_over b → b ∈ record_batches r').
Proof.
  induction 1 as [s|s t s' Hst _ IH]; intros Hs; [split; [done|]; intros k r Hr; by exists r|].
  destruct (opening_step_changed _ _ Hst) as [Hc Hk].
  destruct IH as [IH1 IH2].
  { intros k r' Hr'. destruct (Hc _ _ Hr') as [[_ ?]|(r & Hr & [->|[Hf _]])]; [done|by eapply Hs|].
    apply Hf. by eapply Hs. }
  split; [done|]. intros k r Hr. destruct (Hk k) as [x Hx]; [by exists r|].
  destruct (IH2 _ _ Hx) as (r' & Hr' & Hkeep). exists r'. split; [done|]. intros b Hb Ho.
  apply Hkeep; [|done]. destruct (Hc _ _ Hx) as [[Hn _]|(r0 & Hr0 & Hx')]; [congruence|].
  rewrite Hr0 in Hr. injection Hr as ->. destruct Hx' as [->|[_ Hov]]; auto.
Qed.
End facts.
