(* ===== verification/Pechat.v ===== *)
(** Printing machines.

    Models [src/core/production_map/pechat/implementation.rs]: which machines print, and
    whether an order may move from one machine to another.  A rubber plate is sized from the
    width of the order in steps of 50 mm; machines of 7, 8 and 9 colours take different sizes,
    flexographic machines have their own limits. *)
From S2P Require Import Prelude RustStr F64 Json Errors Identity QueueState OrderLayout MapDefinition Formula Compiler Bfs Chain Projection SequenceMove Scheduler Visibility.

(** [value.ceil() as i64]: [ceil] is exact on finite doubles, the cast saturates. *)
Definition ceil_as_i64 (x : f64) : Z :=
  match x with
  | S754_zero _ | S754_nan => 0
  | S754_infinity s => if s then i64_MIN else i64_MAX
  | S754_finite s m e =>
      let v := if s then Zneg m else Zpos m in
      i64_saturate (if (0 <=? e)%Z then v * 2 ^ e else - ((- v) / 2 ^ (- e)))
  end.

(** [value.filter(|value| *value > 0)]. *)
Definition positive_Z (o : option Z) : option Z :=
  v ← o; if (0 <? v)%Z then Some v else None.
Definition positive_f64 (o : option f64) : option f64 :=
  v ← o; if f64_lt f64_zero v then Some v else None.

Record PechatPolicy := {
  policy_apparatus_id : ApparatusId;
  policy_technology : ProcessTechnology.t;
  policy_color_stations : option Z;
  policy_requires_qolip_scan : bool;
}.

(** [PechatPolicy::color_stations]: at most 255. *)
Definition color_stations (p : PechatPolicy) : option Z :=
  v ← policy_color_stations p; if (v <=? 255)%Z then Some v else None.

Definition policy_for (apparatus : RuntimeApparatusConfiguration) : option PechatPolicy :=
  if config_is_active apparatus && bool_decide (runtime_operation apparatus = ExecutionOperation.Print) &&
     config_supports apparatus Capability.Print
  then Some {|
    policy_apparatus_id := row_apparatus_id (runtime_row apparatus);
    policy_technology := runtime_technology apparatus;
    policy_color_stations := config_color_station_count apparatus;
    policy_requires_qolip_scan := config_supports apparatus Capability.Tooling &&
      match config_tooling apparatus with QolipScanRequired _ => true | ToolingNotRequired => false end |}
  else None.

(** A machine prints when it has a policy. *)
Lemma policy_of_pechat apparatus : is_some (policy_for apparatus) = is_pechat_apparatus apparatus.
Proof. unfold policy_for, is_pechat_apparatus. by destruct (_ && _). Qed.

Definition is_flexo_apparatus (apparatus : RuntimeApparatusConfiguration) : bool :=
  is_some_and (policy_for apparatus) (λ p, bool_decide (policy_technology p = ProcessTechnology.Flexographic)).
Definition requires_qolip_scan (apparatus : RuntimeApparatusConfiguration) : bool :=
  is_some_and (policy_for apparatus) policy_requires_qolip_scan.
Definition pechat_color_stations (apparatus : RuntimeApparatusConfiguration) : option Z :=
  p ← policy_for apparatus; color_stations p.

Definition operation_capability (operation : ExecutionOperation.t) : Capability.t :=
  match operation with
  | ExecutionOperation.Print => Capability.Print
  | ExecutionOperation.Laminate => Capability.Laminate
  | ExecutionOperation.Cut => Capability.Cut
  | ExecutionOperation.Package => Capability.Package
  | ExecutionOperation.Glue => Capability.Glue
  end.

Definition level_of (c : RuntimeApparatusConfiguration) (code : Capability.t) : option Z :=
  snd <$> List.find (λ entry : Capability.t * Z, bool_decide (entry.1 = code)) (runtime_capabilities c).

(** The target does the same operation at least as well. *)
Definition reroute_compatible (source target : RuntimeApparatusConfiguration) : bool :=
  if negb (config_is_active source) || negb (config_is_active target) ||
     negb (config_capability_compatible_reroute source) || negb (config_capability_compatible_reroute target) ||
     negb (bool_decide (runtime_operation source = runtime_operation target)) ||
     (negb (bool_decide (runtime_operation source = ExecutionOperation.Print)) &&
      negb (bool_decide (runtime_technology source = runtime_technology target)))
  then false
  else
    let capability := operation_capability (runtime_operation source) in
    match level_of source capability, level_of target capability with
    | Some source_level, Some target_level => (source_level <=? target_level)%Z
    | _, _ => false
    end.

(** The limits of the machine itself. *)
Definition apparatus_profile_can_handle_order (apparatus : RuntimeApparatusConfiguration)
    (roll_count : option Z) (width_mm : option f64) : bool :=
  if bool_decide (runtime_technology apparatus = ProcessTechnology.Flexographic) &&
     match positive_Z roll_count, config_color_station_count apparatus with
     | Some rolls, Some maximum => (maximum <? rolls)%Z
     | _, _ => false
     end
  then false
  else match positive_f64 width_mm with
  | None => true
  | Some width =>
      negb (is_some_and (config_min_web_width_mm apparatus) (λ minimum, f64_lt width (f64_of_Z minimum))) &&
      negb (is_some_and (config_max_web_width_mm apparatus) (λ maximum, f64_lt (f64_of_Z maximum) width))
  end.

(** [steps.clamp(1, 27) * 50]. *)
Definition rubber_size_from_width (width_mm : f64) : Z :=
  Z.max 1 (Z.min 27 (ceil_as_i64 (f64_div width_mm (f64_of_Z 50)))) * 50.

(** Colours needed for the rolls, and for the plate. *)
Definition colors_for_rolls (roll : Z) : Z :=
  if (8 <? roll)%Z then 9 else if (7 <? roll)%Z then 8 else 7.
Definition colors_for_rubber (rubber : Z) : Z :=
  if (1050 <? rubber)%Z then 9 else if (850 <? rubber)%Z then 8 else 7.

Definition recommended_pechat_color_count (roll_count : option Z) (width_mm : option f64) : option Z :=
  let roll := positive_Z roll_count in
  let width := positive_f64 width_mm in
  if is_none roll && is_none width then None
  else
    match roll with
    | Some roll => if (9 <? roll)%Z then None else Some (colors_for_rolls roll)
    | None => Some 0%Z
    end ≫= λ required,
    match width with
    | Some width =>
        let rubber := rubber_size_from_width width in
        if (1350 <? rubber)%Z then None else Some (Z.max required (colors_for_rubber rubber))
    | None => Some required
    end ≫= λ required, if (required =? 0)%Z then None else Some required.

Definition rubber_fits (apparatus_color_count rubber : Z) : bool :=
  if (apparatus_color_count =? 7)%Z then (rubber <=? 850)%Z
  else if (apparatus_color_count =? 8)%Z then (150 <=? rubber)%Z && (rubber <=? 1050)%Z
  else if (apparatus_color_count =? 9)%Z then (800 <=? rubber)%Z && (rubber <=? 1350)%Z
  else false.

Definition pechat_can_handle_order (apparatus_color_count : Z) (roll_count : option Z)
    (width_mm : option f64) : bool :=
  if is_some_and roll_count (λ roll, (apparatus_color_count <? roll)%Z) then false
  else match positive_f64 width_mm with
  | None => true
  | Some width =>
      if negb (is_finite width) || f64_lt (f64_of_Z 1350) width then false
      else rubber_fits apparatus_color_count (rubber_size_from_width width)
  end.

Definition pechat_can_move_order (apparatus_color_count : Z) (roll_count : option Z)
    (width_mm : option f64) (source_apparatus_color_count : option Z) : bool :=
  if is_some_and (recommended_pechat_color_count roll_count width_mm)
       (λ recommended, (apparatus_color_count <? recommended)%Z) then false
  else if is_some_and source_apparatus_color_count (λ source, (apparatus_color_count <? source)%Z) then
    is_some (positive_f64 width_mm) && pechat_can_handle_order apparatus_color_count roll_count width_mm
  else if is_none (positive_Z roll_count) || is_none (positive_f64 width_mm)
  then negb (apparatus_color_count =? 9)%Z
  else pechat_can_handle_order apparatus_color_count roll_count width_mm.

(** Whether an order may be moved from one machine to another. *)
Definition reroute_order_compatible (source target : RuntimeApparatusConfiguration)
    (roll_count : option Z) (width_mm : option f64) : bool :=
  if negb (reroute_compatible source target) ||
     (is_pechat_apparatus target && negb (apparatus_profile_can_handle_order target roll_count width_mm))
  then false
  else if is_flexo_apparatus target then true
  else match pechat_color_stations target with
  | None => true
  | Some target_color_stations =>
      pechat_can_move_order target_color_stations roll_count width_mm (pechat_color_stations source)
  end.

(** * Facts

    Printing machines: where the rolls and the width of an order are known, it may be moved
    exactly to the machines that can print it. *)

#[local] Open Scope Z_scope.

Lemma positive_Z_Some v : 0 < v → positive_Z (Some v) = Some v.
Proof. intros H. unfold positive_Z. cbn. by rewrite (proj2 (Z.ltb_lt 0 v) H). Qed.

Lemma positive_f64_Some w : f64_lt f64_zero w = true → positive_f64 (Some w) = Some w.
Proof. intros H. unfold positive_f64. cbn. by rewrite H. Qed.

Lemma rubber_bounds w : 50 ≤ rubber_size_from_width w ≤ 1350.
Proof. unfold rubber_size_from_width. lia. Qed.

(** A machine that can print the order has the colours it is recommended. *)
Lemma handled_is_recommended c roll w : 0 < roll → f64_lt f64_zero w = true →
  pechat_can_handle_order c (Some roll) (Some w) = true →
  ∃ r, recommended_pechat_color_count (Some roll) (Some w) = Some r ∧ r ≤ c.
Proof.
  intros Hr Hw. unfold pechat_can_handle_order, recommended_pechat_color_count. cbn [is_some_and].
  rewrite positive_Z_Some, positive_f64_Some by done. cbn [is_none].
  destruct (c <? roll) eqn:Hc; [done|]. destruct (_ || _); [done|].
  pose proof (rubber_bounds w) as Hb. revert Hb. generalize (rubber_size_from_width w). intros k Hb.
  unfold rubber_fits, colors_for_rolls, colors_for_rubber.
  intros Hf. assert (c = 7 ∨ c = 8 ∨ c = 9) as Hcs
    by (destruct (c =? 7) eqn:?; [lia|]; destruct (c =? 8) eqn:?; [lia|]; destruct (c =? 9) eqn:?; [lia|done]).
  destruct (9 <? roll) eqn:?; [lia|]. cbn [mbind option_bind].
  destruct (1350 <? k) eqn:?; [lia|]. cbn [mbind option_bind].
  set (x := Z.max _ _). assert (7 ≤ x ≤ c) as Hx.
  { unfold x. destruct (8 <? roll) eqn:?, (7 <? roll) eqn:?, (1050 <? k) eqn:?, (850 <? k) eqn:?;
      destruct_or! Hcs; subst; cbn in Hf; lia. }
  exists x. split; [|lia]. destruct (x =? 0) eqn:?; [lia|done].
Qed.

(** Where its rolls and its width are known, an order may be moved exactly to the
    printing machines that can print it, whatever machine it comes from: the
    recommended number of colours excludes none of them. *)
Theorem known_orders_move_where_they_print c roll w source : 0 < roll → f64_lt f64_zero w = true →
  pechat_can_move_order c (Some roll) (Some w) source = pechat_can_handle_order c (Some roll) (Some w) ∧
  (pechat_can_handle_order c (Some roll) (Some w) = true →
   (c = 7 ∨ c = 8 ∨ c = 9) ∧ roll ≤ c ∧ is_finite w = true ∧ f64_lt (f64_of_Z 1350) w = false).
Proof.
  intros Hr Hw. split.
  - unfold pechat_can_move_order. rewrite positive_Z_Some, positive_f64_Some by done. cbn [is_none is_some orb andb].
    destruct (pechat_can_handle_order c (Some roll) (Some w)) eqn:Hh.
    + destruct (handled_is_recommended c roll w Hr Hw Hh) as (r & -> & Hle). cbn [is_some_and].
      destruct (c <? r) eqn:?; [lia|]. by destruct (is_some_and source _).
    + destruct (is_some_and (recommended_pechat_color_count _ _) _); [done|]. by destruct (is_some_and source _).
  - unfold pechat_can_handle_order. cbn [is_some_and]. rewrite positive_f64_Some by done.
    destruct (c <? roll) eqn:?; [done|]. destruct (negb (is_finite w) || _) eqn:Hw'; [done|].
    unfold rubber_fits. intros Hf. breflect.
    split; [destruct (c =? 7) eqn:?; [lia|]; destruct (c =? 8) eqn:?; [lia|]; destruct (c =? 9) eqn:?; [lia|done]|].
    split; [lia|]. done.
Qed.

(** An order of twelve rolls whose width is not known is accepted by a machine of seven
    colours, since no number of colours is recommended for it. *)
Example twelve_rolls_move_to_seven_colours :
  pechat_can_move_order 7 (Some 12) None None = true ∧ pechat_can_handle_order 7 (Some 12) None = false.
Proof. split; vm_compute; reflexivity. Qed.
