(* ===== verification/Automatic.v ===== *)
(** Planning the route of an order.

    Models [src/core/production_map/automatic.rs]: which machines take a web of a given width,
    how an order that is too wide for every laminator is cut into strips of whole frames or
    lanes, which widths arrive at an occurrence of a map, and the map that is generated for an
    order.  [plan_map] is [generate] after the template is validated and its width, weight and
    length are calculated; these three numbers are its arguments. *)
From Stdlib Require Import Ascii.
From S2P Require Import Prelude RustStr F64 Json Errors Identity QueueState OrderLayout MapDefinition Formula Compiler Bfs Chain Projection SequenceMove Scheduler Visibility Materials Pechat.

#[global] Instance ApparatusId_countable : Countable ApparatusId :=
  inj_countable' apparatus_id_str mk_ApparatusId (λ '(mk_ApparatusId s), eq_refl).

(** * Widths a machine takes *)

(** [f64::ceil]. *)
Definition f64_ceil (x : f64) : f64 :=
  match x with
  | S754_finite s m e =>
      if (0 <=? e)%Z then x
      else
        let v := (if s then Zneg m else Zpos m)%Z in
        let c := (- ((- v) / 2 ^ (- e)))%Z in
        if (c =? 0)%Z then S754_zero s else f64_of_Z c
  | _ => x
  end.

Definition at_least (min : option Z) (width : f64) : bool :=
  match min with Some min => f64_le (f64_of_Z min) width | None => true end.
Definition at_most (max : option Z) (width : f64) : bool :=
  match max with Some max => f64_le width (f64_of_Z max) | None => true end.

Definition width_fits (a : RuntimeApparatusConfiguration) (width : f64) : bool :=
  is_finite width && f64_lt f64_zero width &&
  at_least (config_min_web_width_mm a) width && at_most (config_max_web_width_mm a) width.

Definition lamination_limit (a : RuntimeApparatusConfiguration) : option Z :=
  match config_max_web_width_mm a with
  | Some max => Some max
  | None =>
      match runtime_technology a with
      | ProcessTechnology.AdhesiveLamination => Some 1050%Z
      | ProcessTechnology.ExtrusionLamination => Some 1300%Z
      | _ => None
      end
  end.

Definition lamination_fits (a : RuntimeApparatusConfiguration) (width : f64) : bool :=
  match lamination_limit a with
  | Some limit =>
      width_fits a width &&
      f64_le (f64_mul (f64_ceil (f64_div width (f64_of_Z 50))) (f64_of_Z 50)) (f64_of_Z limit)
  | None => false
  end.

(** * Strips of whole frames *)

(** [1..=frames]. *)
Definition counts_to (frames : Z) : list Z := (λ n, Z.of_nat n) <$> seq 1 (Z.to_nat frames).

Fixpoint deal_frames (parts : nat) (min max left : Z) : list Z :=
  match parts with
  | O => []
  | S rest =>
      let count := Z.min max (left - Z.of_nat rest * min) in
      count :: deal_frames rest min max (left - count)
  end.

Definition frame_groups_for (fits : Z → bool) (frames : Z) : option (list Z) :=
  min ← List.find fits (counts_to frames);
  max ← List.find (λ n, (min <=? n)%Z && fits n) (rev (counts_to frames));
  let parts := ((frames + max - 1) / max)%Z in
  if (frames <? parts * min)%Z then None else Some (deal_frames (Z.to_nat parts) min max frames).

(** [groups > *b] on vectors: lexicographic. *)
Fixpoint groups_gt (a b : list Z) : bool :=
  match a, b with
  | x :: a, y :: b => (y <? x)%Z || ((x =? y)%Z && groups_gt a b)
  | _ :: _, [] => true
  | [], _ => false
  end.

Definition better_groups (best : option (list Z)) (groups : list Z) : bool :=
  match best with
  | None => true
  | Some b => (length groups <? length b) || ((length groups =? length b) && groups_gt groups b)
  end.

Definition frame_fits (width : f64) (frames : Z) (a : RuntimeApparatusConfiguration) (count : Z) : bool :=
  lamination_fits a (f64_div (f64_mul width (f64_of_Z count)) (f64_of_Z frames)).

Definition best_frame_groups (width : f64) (frames : Z)
    (laminators : list RuntimeApparatusConfiguration) : option (list Z) :=
  foldl (λ best a,
    match frame_groups_for (frame_fits width frames a) frames with
    | Some groups => if better_groups best groups then Some groups else best
    | None => best
    end) None laminators.

(** * Strips of consecutive lanes *)

Abbreviation plans := (list (option (list Z))).

(** [old.is_none_or(|old| plan.len() < old.len())]. *)
Definition shorter (plan : list Z) (old : option (list Z)) : bool :=
  match old with Some old => length plan <? length old | None => true end.

(** One start of a strip that ends before [stop]. *)
Definition try_strip (fits : f64 → bool) (stop start : nat) (width : f64) (ps : plans) : plans :=
  if negb (fits width) then ps
  else match mjoin (ps !! start) with
  | Some plan =>
      let plan := plan ++ [Z.of_nat (stop - start)] in
      if shorter plan (mjoin (ps !! stop)) then <[stop := Some plan]> ps else ps
  | None => ps
  end.

(** [for start in (0..end).rev()]: [start] counts down. *)
Fixpoint strips_ending (fits : f64 → bool) (lanes : list f64) (stop start : nat) (width : f64)
    (ps : plans) : plans :=
  match start with
  | O => ps
  | S start =>
      let width := f64_add width (nth start lanes f64_zero) in
      strips_ending fits lanes stop start width (try_strip fits stop start width ps)
  end.

Definition layout_plans (fits : f64 → bool) (lanes : list f64) : plans :=
  foldl (λ ps stop, strips_ending fits lanes stop stop f64_zero ps)
    (<[O := Some []]> (replicate (length lanes + 1) None)) (seq 1 (length lanes)).

Definition layout_groups_for (fits : f64 → bool) (lanes : list f64) : option (list Z) :=
  mjoin (last (layout_plans fits lanes)).

Definition best_layout_groups (width : f64) (lanes : list f64)
    (laminators : list RuntimeApparatusConfiguration) : option (list Z) :=
  if existsb (λ a, lamination_fits a width) laminators then Some [Z.of_nat (length lanes)]
  else foldl (λ best a,
    match layout_groups_for (lamination_fits a) lanes with
    | Some plan => if shorter plan best then Some plan else best
    | None => best
    end) None laminators.

(** * The widths that arrive at an occurrence *)

Definition edges_into (map : ProductionMapDefinition) (id : string) : list string :=
  edge_from <$> List.filter (λ e, edge_to e =s id) (map_edges map).

Definition f64_infinity : f64 := S754_infinity false.

(** The widths behind a cut, when the node is one. *)
Definition cut_widths (map : ProductionMapDefinition) (cut_ids : gset ApparatusId) (width : f64)
    (node : ProductionMapNode) : option (list f64) :=
  if is_some_and (canonical_apparatus_id node) (λ id, bool_decide (id ∈ cut_ids)) then
    match positive_Z (rezka_kadr_count node) with
    | None => None
    | Some frames =>
        Some match map_products map with
        | _ :: _ => default [f64_infinity] (group_widths (layout_widths map) (rezka_frame_groups node))
        | [] =>
            match rezka_frame_groups node with
            | [] => [f64_div width (f64_of_Z frames)]
            | groups => (λ n, f64_div (f64_mul width (f64_of_Z n)) (f64_of_Z frames)) <$> groups
            end
        end
    end
  else None.

(** What one node adds to the widths, and the nodes that are looked at next. *)
Definition visit_width (map : ProductionMapDefinition) (cut_ids : gset ApparatusId) (width : f64)
    (id : string) : list f64 * list string :=
  match find_node map id with
  | None => ([width], [])
  | Some node =>
      match cut_widths map cut_ids width node with
      | Some widths => (widths, [])
      | None =>
          match edges_into map id with
          | [] => ([width], [])
          | previous => ([], previous)
          end
      end
  end.

(** [while let Some(id) = todo.pop()]; the top of the stack is the head of the list. *)
Fixpoint width_loop (map : ProductionMapDefinition) (cut_ids : gset ApparatusId) (width : f64)
    (fuel : nat) (todo : list string) (seen : gset string) (widths : list f64) : list f64 :=
  match fuel, todo with
  | S fuel, id :: todo =>
      if bool_decide (id ∈ seen) then width_loop map cut_ids width fuel todo seen widths
      else
        let '(found, previous) := visit_width map cut_ids width id in
        width_loop map cut_ids width fuel (rev previous ++ todo) ({[id]} ∪ seen) (widths ++ found)
  | _, _ => widths
  end.

Definition width_fuel (map : ProductionMapDefinition) : nat := 2 * length (map_edges map).

Definition stage_input_widths (map : ProductionMapDefinition) (node_id : string)
    (cut_ids : gset ApparatusId) : list f64 :=
  match map_width_mm map with
  | None => []
  | Some width =>
      match width_loop map cut_ids width (width_fuel map) (rev (edges_into map node_id)) ∅ [] with
      | [] => [width]
      | widths => widths
      end
  end.

(** * The generated map *)

Inductive PrintMethod := Flexo | Metal.
#[global] Instance PrintMethod_eq_dec : EqDecision PrintMethod.
Proof. solve_decision. Defined.

Record OrderProductionOptions := {
  options_print_method : PrintMethod;
  options_cold_glue : bool;
  options_diameter_mm : option f64;
}.

(** The fields of the template the plan reads; [template_layers] is [effective_layers]. *)
Record CalculateOrderTemplate := {
  template_combo : option ComboReference;
  template_products : list OrderProduct;
  template_production_options : option OrderProductionOptions;
  template_order_number : string;
  template_customer : string;
  template_item_code : string;
  template_product : string;
  template_status : string;
  template_image_id : string;
  template_frame_product_size_mm : f64;
  template_frame_count : f64;
  template_print_val_size_mm : option f64;
  template_roll_count : option Z;
  template_layers : nat;
}.

Definition title_node (id : string) (kind : NodeKind.t) (title item_code : string) (y : Z) : ProductionMapNode :=
  {| node_id := id; node_kind := kind; node_title := title; node_apparatus_id := "";
     node_formula := None; node_role_code := ""; node_item_code := item_code; node_qty_formula := "";
     node_from_location := ""; node_to_location := ""; alternative_group_id := "";
     alternative_group_label := ""; alternative_assigned_title := "";
     alternative_assigned_apparatus_id := ""; rezka_kadr_count := None; rezka_frame_groups := [];
     rezka_label_length := None; node_x := f64_of_Z 420; node_y := f64_of_Z y |}.

Record Graph := {
  graph_map : ProductionMapDefinition;
  graph_previous : list string;
  graph_row : Z;
}.

Definition Graph_new (t : CalculateOrderTemplate) : Graph := {|
  graph_map := {|
    map_combo := template_combo t; map_products := template_products t;
    map_id := "zakaz-" +:+ template_order_number t; map_product_code := template_item_code t;
    map_title := template_product t; map_code := template_order_number t;
    map_order_number := template_order_number t; map_customer_name := template_customer t;
    map_image_id := template_image_id t; map_roll_count := None; map_width_mm := None;
    map_print_val_size_mm := None; map_order_kg := None; map_base_length := None;
    map_duplicate_rezka_labels := None; map_include_bobina_in_net := None;
    map_standard_print_side := None;
    map_nodes := [title_node "start" NodeKind.Start "Start" "" 32]; map_edges := [] |};
  graph_previous := ["start"];
  graph_row := 1 |}.

Definition redraw (nodes : list ProductionMapNode) (edges : list ProductionMapEdge)
    (map : ProductionMapDefinition) : ProductionMapDefinition := {|
  map_combo := map_combo map; map_products := map_products map; map_id := map_id map;
  map_product_code := map_product_code map; map_title := map_title map; map_code := map_code map;
  map_order_number := map_order_number map; map_customer_name := map_customer_name map;
  map_image_id := map_image_id map; map_roll_count := map_roll_count map;
  map_width_mm := map_width_mm map; map_print_val_size_mm := map_print_val_size_mm map;
  map_order_kg := map_order_kg map; map_base_length := map_base_length map;
  map_duplicate_rezka_labels := map_duplicate_rezka_labels map;
  map_include_bobina_in_net := map_include_bobina_in_net map;
  map_standard_print_side := map_standard_print_side map;
  map_nodes := nodes; map_edges := edges |}.

Definition stage_label (key : string) : string :=
  if key =s "print" then "Bosma"
  else if key =s "pre_lamination_cut" then "Laminatsiyadan oldingi Rezka"
  else if key =s "laminate" then "Laminatsiya"
  else if key =s "cold_glue" then "Holodniy kley"
  else if key =s "package" then "Paket"
  else if key =s "final_cut" then "Yakuniy Rezka"
  else key.

Definition stage_id (key : string) (index : nat) : string :=
  key +:+ "_" +:+ Z_to_string (Z.of_nat index).

(** [420.0 + (index as f64 - (len - 1) as f64 / 2.0) * 220.0]. *)
Definition stage_x (index count : nat) : f64 :=
  f64_add (f64_of_Z 420)
    (f64_mul (f64_sub (f64_of_Z (Z.of_nat index))
                (f64_div (f64_of_Z (Z.of_nat count - 1)) (f64_of_Z 2))) (f64_of_Z 220)).

Definition stage_node (key : string) (count : nat) (frames : option Z) (groups : list Z) (row : Z)
    (index : nat) (a : RuntimeApparatusConfiguration) : ProductionMapNode :=
  {| node_id := stage_id key index; node_kind := NodeKind.Apparatus;
     node_title := runtime_display_name a;
     node_apparatus_id := apparatus_id_str (row_apparatus_id (runtime_row a));
     node_formula := None; node_role_code := ""; node_item_code := ""; node_qty_formula := "";
     node_from_location := ""; node_to_location := "";
     alternative_group_id := if 1 <? count then "auto_" +:+ key else "";
     alternative_group_label := stage_label key; alternative_assigned_title := "";
     alternative_assigned_apparatus_id := ""; rezka_kadr_count := frames;
     rezka_frame_groups := groups; rezka_label_length := None;
     node_x := stage_x index count; node_y := f64_of_Z (32 + row * 164) |}.

Definition plain_edge (to from : string) : ProductionMapEdge :=
  {| edge_from := from; edge_to := to; edge_branch := "" |}.

Definition stage (key : string) (candidates : list RuntimeApparatusConfiguration)
    (frames : option Z) (groups : list Z) (g : Graph) : result string Graph :=
  match candidates with
  | [] => Err (stage_label key +:+ ": mos faol apparat topilmadi")
  | _ =>
      let nodes := imap (stage_node key (length candidates) frames groups (graph_row g)) candidates in
      let edges := n ← nodes; plain_edge (node_id n) <$> graph_previous g in
      Ok {| graph_map := redraw (map_nodes (graph_map g) ++ nodes)
                           (map_edges (graph_map g) ++ edges) (graph_map g);
            graph_previous := node_id <$> nodes;
            graph_row := (graph_row g + 1)%Z |}
  end.

Definition finish (g : Graph) : ProductionMapDefinition :=
  let map := graph_map g in
  redraw
    (map_nodes map ++ [title_node "end" NodeKind.End_ (map_title map) (map_product_code map)
                         (32 + graph_row g * 164)])
    (map_edges map ++ (plain_edge "end" <$> graph_previous g)) map.

(** * Choosing the machines *)

Definition by_apparatus_id (a b : RuntimeApparatusConfiguration) : Prop :=
  String.le (apparatus_id_str (row_apparatus_id (runtime_row a))) (apparatus_id_str (row_apparatus_id (runtime_row b))).
#[global] Instance by_apparatus_id_dec : RelDecision by_apparatus_id.
Proof. unfold by_apparatus_id. intros ??. apply _. Defined.

Definition catalog (apparatus : list RuntimeApparatusConfiguration) : list RuntimeApparatusConfiguration :=
  merge_sort by_apparatus_id
    (List.filter (λ a, has_coherent_source a && config_is_active a) apparatus).

Definition machines_for (catalog : list RuntimeApparatusConfiguration) (operation : ExecutionOperation.t)
    (capability : Capability.t) : list RuntimeApparatusConfiguration :=
  List.filter (λ a, bool_decide (runtime_operation a = operation) && config_supports a capability) catalog.

Definition printer_fits (method : PrintMethod) (rolls : Z) (print_width profile_width : f64)
    (a : RuntimeApparatusConfiguration) : bool :=
  if negb (apparatus_profile_can_handle_order a (Some rolls) (Some profile_width)) then false
  else match method with
  | Flexo =>
      bool_decide (runtime_technology a = ProcessTechnology.Flexographic) &&
      is_some_and (config_color_station_count a) (λ count, (rolls <=? count)%Z)
  | Metal =>
      bool_decide (runtime_technology a = ProcessTechnology.Rotogravure) &&
      f64_le print_width (f64_of_Z 1350) &&
      is_some_and (config_color_station_count a) (λ count,
        (7 <=? count)%Z && (count <=? 9)%Z &&
        pechat_can_handle_order count (Some rolls) (Some print_width))
  end.

(** What the template asks for, before its width is calculated. *)
Record plan_input := {
  plan_options : OrderProductionOptions;
  plan_paket : bool;
  plan_frames : f64;
  plan_rolls : Z;
}.

Section generate.
Context `{UnicodeCase} `{UnicodeTables}.

Definition check_template (t : CalculateOrderTemplate) : result string plan_input :=
  options ← ok_or (template_production_options t) "Bosma usuli kerak";
  let form := to_lowercase (trim (template_status t)) in
  _ ← check (negb (form =s "rulon") && negb (form =s "paket")) "Rulon yoki Paket tanlang";
  let frames := match template_products t with
    | [] => template_frame_count t
    | products => f64_of_Z (frame_count products)
    end in
  _ ← check (negb (is_finite frames) || f64_le frames f64_zero || has_fraction frames ||
             f64_lt (f64_of_Z 1024) frames)
        "Avtomatik map uchun kadr soni 1–1024 oralig‘ida bo‘lsin";
  rolls ← ok_or (positive_Z (template_roll_count t)) "Val soni kerak";
  Ok {| plan_options := options; plan_paket := form =s "paket"; plan_frames := frames; plan_rolls := rolls |}.

Definition profile_width (t : CalculateOrderTemplate) (frames : f64) : f64 :=
  match template_print_val_size_mm t with
  | Some width => width
  | None =>
      match template_products t with
      | [] => f64_mul (template_frame_product_size_mm t) frames
      | products => useful_width products
      end
  end.

(** Strips and their widths for a laminated order. *)
Definition lamination_strips (t : CalculateOrderTemplate) (width frames : f64)
    (laminators : list RuntimeApparatusConfiguration) : result string (list Z * bool) :=
  let lane_widths := lane_width_mm <$> lanes (template_products t) "" "" in
  groups ← ok_or (match lane_widths with
      | [] => best_frame_groups width (trunc_as_i64 frames) laminators
      | _ => best_layout_groups width lane_widths laminators
      end) "Kadrni bo‘lmasdan laminatsiyaga joylab bo‘lmaydi: mos apparat topilmadi";
  let needs_edge_trim := match lane_widths with
    | [] => false
    | _ => negb (existsb (λ a, lamination_fits a width) laminators)
    end in
  Ok (groups, (1 <? length groups) || needs_edge_trim).

Definition strip_widths (t : CalculateOrderTemplate) (width frames : f64) (groups : list Z)
  : result string (list f64) :=
  let lane_widths := lane_width_mm <$> lanes (template_products t) "" "" in
  match lane_widths with
  | [] => Ok ((λ n, f64_div (f64_mul width (f64_of_Z n)) frames) <$> groups)
  | _ => ok_or (group_widths lane_widths groups) "Kadr joylashuvi noto‘g‘ri"
  end.

Definition all_fit (fits : RuntimeApparatusConfiguration → f64 → bool) (widths : list f64)
    (a : RuntimeApparatusConfiguration) : bool := forallb (fits a) widths.

Definition plan_lamination (t : CalculateOrderTemplate) (width frames : f64)
    (catalog : list RuntimeApparatusConfiguration) (g : Graph) : result string (Graph * list f64) :=
  if template_layers t <=? 1 then Ok (g, [width])
  else
    let laminators := machines_for catalog ExecutionOperation.Laminate Capability.Laminate in
    '(groups, cut) ← lamination_strips t width frames laminators;
    '(g, widths) ← (if cut : bool then
        let cutters := List.filter (λ a, width_fits a width)
                         (machines_for catalog ExecutionOperation.Cut Capability.Cut) in
        g ← stage "pre_lamination_cut" cutters (Some (trunc_as_i64 frames)) groups g;
        widths ← strip_widths t width frames groups;
        Ok (g, widths)
      else Ok (g, [width]));
    g ← stage "laminate" (List.filter (all_fit lamination_fits widths) laminators) None [] g;
    Ok (g, widths).

Definition plan_stages (t : CalculateOrderTemplate) (input : plan_input) (width : f64)
    (catalog : list RuntimeApparatusConfiguration) : result string Graph :=
  let frames := plan_frames input in
  let fitting widths operation capability :=
    List.filter (all_fit width_fits widths) (machines_for catalog operation capability) in
  g ← stage "print"
        (List.filter (printer_fits (options_print_method (plan_options input)) (plan_rolls input)
                        (default width (template_print_val_size_mm t)) (profile_width t frames))
           (machines_for catalog ExecutionOperation.Print Capability.Print)) None [] (Graph_new t);
  '(g, widths) ← plan_lamination t width frames catalog g;
  g ← (if options_cold_glue (plan_options input) then
        stage "cold_glue"
          (List.filter (λ a, bool_decide (runtime_technology a = ProcessTechnology.ColdGlue))
             (fitting widths ExecutionOperation.Glue Capability.Glue)) None [] g
      else Ok g);
  g ← (if plan_paket input
      then stage "package" (fitting widths ExecutionOperation.Package Capability.Package) None [] g
      else Ok g);
  stage "final_cut" (fitting widths ExecutionOperation.Cut Capability.Cut)
    (Some (trunc_as_i64 frames)) [] g.

Definition with_plan_numbers (width kg length : f64) (print_val : option f64) (rolls : Z)
    (map : ProductionMapDefinition) : ProductionMapDefinition := {|
  map_combo := map_combo map; map_products := map_products map; map_id := map_id map;
  map_product_code := map_product_code map; map_title := map_title map; map_code := map_code map;
  map_order_number := map_order_number map; map_customer_name := map_customer_name map;
  map_image_id := map_image_id map; map_roll_count := Some rolls;
  map_width_mm := Some width; map_print_val_size_mm := print_val;
  map_order_kg := Some kg; map_base_length := Some length;
  map_duplicate_rezka_labels := map_duplicate_rezka_labels map;
  map_include_bobina_in_net := map_include_bobina_in_net map;
  map_standard_print_side := map_standard_print_side map;
  map_nodes := map_nodes map; map_edges := map_edges map |}.

(** [generate] after the calculation: [length] is the rounded length of its first variant.
    [Err None] is a panic of the compiler or one of its errors, whose text is not modelled. *)
Definition plan_map (t : CalculateOrderTemplate) (apparatus : list RuntimeApparatusConfiguration)
    (width kg : f64) (length : option f64) : result (option string) ProductionMapDefinition :=
  match (input ← check_template t;
         g ← plan_stages t input width (catalog apparatus);
         length ← ok_or length "Hisob natijasi topilmadi";
         Ok (with_plan_numbers width kg length (template_print_val_size_mm t) (plan_rolls input) (finish g)))
  with
  | Err e => Err (Some e)
  | Ok map => match compile_map map with Ok _ => Ok map | Err _ => Err None end
  end.
End generate.
