(* ===== verification/AutomaticFacts.v ===== *)
(** Correctness of planning: strips are cut as few as possible, the widths at an occurrence are
    those of every way that leads to it, and a generated map compiles. *)
From Stdlib Require Import Ascii.
From S2P Require Import Prelude RustStr F64 Json Errors Identity QueueState OrderLayout MapDefinition Formula Compiler GraphFacts CompilerFacts Bfs Chain Projection SequenceMove Scheduler Visibility Materials Pechat Automatic.

(** * Strips of lanes *)

(** The width of a strip as the search adds it up: from its last lane. *)
Definition strip_sum (piece : list f64) : f64 := foldl f64_add f64_zero (rev piece).

(** A division of the lanes into strips one machine takes. *)
Definition strip_division (fits : f64 → bool) (lanes : list f64) (groups : list Z) : Prop :=
  ∃ pieces, cuts lanes groups pieces ∧ ∀ piece, piece ∈ pieces → fits (strip_sum piece) = true.

Lemma strip_division_nil fits lanes groups :
  strip_division fits lanes groups → lanes = [] ↔ groups = [].
Proof.
  intros (pieces & (<- & <- & Hne) & _). destruct pieces as [|[|x p] pieces]; cbn.
  - done.
  - by destruct (Hne []); [left|].
  - done.
Qed.

Lemma strip_division_snoc fits lanes piece groups :
  piece ≠ [] → fits (strip_sum piece) = true → strip_division fits lanes groups →
  strip_division fits (lanes ++ piece) (groups ++ [Z.of_nat (length piece)]).
Proof.
  intros Hp Hf (pieces & (<- & <- & Hne) & Hfits). exists (pieces ++ [piece]). split; [split_and!|].
  - by rewrite concat_app; cbn; rewrite app_nil_r.
  - by rewrite fmap_app.
  - set_solver.
  - set_solver.
Qed.

(** The last strip of a division. *)
Lemma strip_division_last fits lanes groups :
  lanes ≠ [] → strip_division fits lanes groups →
  ∃ k groups', k < length lanes ∧ strip_division fits (take k lanes) groups' ∧
    fits (strip_sum (drop k lanes)) = true ∧ groups = groups' ++ [Z.of_nat (length lanes - k)].
Proof.
  intros Hl (pieces & (Hc & <- & Hne) & Hfits).
  destruct pieces as [|piece pieces _] using rev_ind; [by subst lanes|].
  rewrite concat_app in Hc. cbn in Hc. rewrite app_nil_r in Hc. subst lanes.
  assert (piece ≠ []) by (apply Hne; set_solver).
  assert (length piece ≠ 0) by (by destruct piece).
  exists (length (concat pieces)), ((λ p, Z.of_nat (length p)) <$> pieces).
  rewrite length_app, take_app_length, drop_app_length. split_and!; [lia| |set_solver|].
  - exists pieces. split; [split_and!; set_solver|set_solver].
  - rewrite fmap_app. cbn. do 3 f_equal. lia.
Qed.

(** ** The search *)

Definition slice (lanes : list f64) (start stop : nat) : list f64 := take (stop - start) (drop start lanes).

Lemma strip_sum_step lanes start stop :
  start < stop ≤ length lanes →
  strip_sum (slice lanes start stop) =
  f64_add (strip_sum (slice lanes (S start) stop)) (nth start lanes f64_zero).
Proof.
  intros [H1 H2]. unfold slice, strip_sum.
  destruct (lookup_lt_is_Some_2 lanes start) as [x Hx]; [lia|].
  rewrite (drop_S lanes x start Hx), (nth_lookup_Some _ _ _ _ Hx).
  replace (stop - start) with (S (stop - S start)) by lia. cbn [take rev].
  by rewrite foldl_app.
Qed.

(** A strip from [start] strip_extends a plan of the lanes before it. *)
Definition strip_extends (fits : f64 → bool) (lanes : list f64) (ps : plans) (stop start : nat) (plan : list Z) : Prop :=
  ∃ p, ps !! start = Some (Some p) ∧ fits (strip_sum (slice lanes start stop)) = true ∧
    plan = p ++ [Z.of_nat (stop - start)].

(** [o] is a fewest of the plans in [P], and is there when [P] has one. *)
Definition fewest (P : list Z → Prop) (o : option (list Z)) : Prop :=
  (∀ plan, o = Some plan → P plan) ∧
  ∀ plan, P plan → ∃ best, o = Some best ∧ length best ≤ length plan.

Lemma fewest_step (P Q : list Z → Prop) o plan :
  fewest P o → (∀ x, Q x ↔ P x ∨ x = plan) →
  fewest Q (if shorter plan o then Some plan else o).
Proof.
  intros [H1 H2] HQ. unfold shorter. destruct o as [old|]; [destruct (Nat.ltb_spec (length plan) (length old))|].
  - split; [intros ? [= <-]; apply HQ; auto|]. intros x [Hx| ->]%HQ; [|eauto].
    destruct (H2 x Hx) as (? & [= <-] & ?). exists plan. split; [done|lia].
  - split; [intros ? [= <-]; apply HQ; auto|]. intros x [Hx| ->]%HQ; eauto.
  - split; [intros ? [= <-]; apply HQ; auto|]. intros x [Hx| ->]%HQ; [|eauto].
    by destruct (H2 x Hx) as (? & ? & ?).
Qed.

Lemma fewest_ext (P Q : list Z → Prop) o : (∀ x, P x ↔ Q x) → fewest P o → fewest Q o.
Proof.
  intros HPQ [H1 H2]. split; [intros plan E; by apply HPQ, H1|].
  intros plan Hp. by apply H2, HPQ.
Qed.

Lemma try_strip_spec fits lanes (P : list Z → Prop) stop start (ps : plans) o :
  start < stop → ps !! stop = Some o → fewest P o →
  ∃ o', try_strip fits stop start (strip_sum (slice lanes start stop)) ps = <[stop := o']> ps ∧
    fewest (λ x, P x ∨ strip_extends fits lanes ps stop start x) o'.
Proof.
  intros Hs Ho HP. unfold try_strip, strip_extends.
  destruct (fits _) eqn:Ef; cbn [negb].
  2:{ exists o. split; [by rewrite list_insert_id|]. eapply fewest_ext; [|exact HP]. naive_solver. }
  destruct (ps !! start) as [[p|]|] eqn:Ep; cbn [mjoin option_join].
  2,3: exists o; split; [by rewrite list_insert_id|]; eapply fewest_ext; [|exact HP]; naive_solver.
  rewrite Ho. cbn [mjoin option_join].
  exists (if shorter (p ++ [Z.of_nat (stop - start)]) o then Some (p ++ [Z.of_nat (stop - start)]) else o).
  split; [destruct (shorter _ _); [done|by rewrite list_insert_id]|].
  eapply fewest_step; [exact HP|]. naive_solver.
Qed.

Lemma strip_extends_insert fits lanes (ps : plans) stop start k o x :
  start ≠ k → strip_extends fits lanes (<[k:=o]> ps) stop start x ↔ strip_extends fits lanes ps stop start x.
Proof. intros H. unfold strip_extends. by rewrite list_lookup_insert_ne. Qed.

Lemma strips_ending_spec fits lanes (P : list Z → Prop) stop start (ps : plans) o :
  start ≤ stop → stop ≤ length lanes → ps !! stop = Some o → fewest P o →
  ∃ o', strips_ending fits lanes stop start (strip_sum (slice lanes start stop)) ps = <[stop := o']> ps ∧
    fewest (λ x, P x ∨ ∃ s, s < start ∧ strip_extends fits lanes ps stop s x) o'.
Proof.
  revert P ps o. induction start as [|start IH]; intros P ps o H1 H2 Ho HP; cbn [strips_ending].
  { exists o. split; [by rewrite list_insert_id|]. eapply fewest_ext; [|exact HP]. naive_solver lia. }
  rewrite <-strip_sum_step by lia.
  destruct (try_strip_spec fits lanes P stop start ps o) as (o1 & -> & HP1); [lia|done..|].
  assert (stop < length ps) by (by eapply lookup_lt_Some).
  destruct (IH (λ x, P x ∨ strip_extends fits lanes ps stop start x) (<[stop:=o1]> ps) o1)
    as (o' & -> & HP'); [lia|done|by rewrite list_lookup_insert_eq|exact HP1|].
  exists o'. rewrite list_insert_insert_eq. split; [done|].
  eapply fewest_ext; [|exact HP']. intros x. split.
  - intros [[HPx|Hx]|(s & Hs & Hx)]; [by left|right; exists start; split; [lia|done]|].
    right. exists s. split; [lia|]. by rewrite strip_extends_insert in Hx by lia.
  - intros [HPx|(s & Hs & Hx)]; [by left; left|].
    destruct (decide (s = start)) as [->|]; [by left; right|].
    right. exists s. split; [lia|]. by rewrite strip_extends_insert by lia.
Qed.

(** The table up to [k]: the fewest divisions of each prefix of the lanes. *)
Definition table_up_to (fits : f64 → bool) (lanes : list f64) (k : nat) (ps : plans) : Prop :=
  length ps = length lanes + 1 ∧
  (∀ i, i ≤ k → ∃ o, ps !! i = Some o ∧ fewest (strip_division fits (take i lanes)) o) ∧
  (∀ i, k < i → i ≤ length lanes → ps !! i = Some None).

Lemma slice_drop lanes start stop : start ≤ stop → slice lanes start stop = drop start (take stop lanes).
Proof. intros H. unfold slice. rewrite take_drop_commute. do 2 f_equal. lia. Qed.

Lemma strip_extends_division fits lanes k (ps : plans) stop x :
  table_up_to fits lanes k ps → stop = S k → stop ≤ length lanes →
  (∃ s, s < stop ∧ strip_extends fits lanes ps stop s x) →
  strip_division fits (take stop lanes) x.
Proof.
  intros (_ & Ht & _) -> Hl (s & Hs & p & Hp & Hf & ->).
  destruct (Ht s) as (o & Ho & Hsound & _); [lia|]. rewrite Ho in Hp. injection Hp as ->.
  specialize (Hsound p eq_refl).
  replace (take (S k) lanes) with (take s lanes ++ slice lanes s (S k))
    by (rewrite slice_drop by lia; rewrite <-(take_drop s (take (S k) lanes)) at 2;
        by rewrite take_take, Nat.min_l by lia).
  assert (length (slice lanes s (S k)) = S k - s) as Hlen
    by (unfold slice; rewrite length_take, length_drop; lia).
  rewrite <-Hlen. apply strip_division_snoc; [|done|done].
  intros Hn. rewrite Hn in Hlen. cbn in Hlen. lia.
Qed.

Lemma division_strip_extends fits lanes k (ps : plans) stop plan :
  table_up_to fits lanes k ps → stop = S k → stop ≤ length lanes →
  strip_division fits (take stop lanes) plan →
  ∃ s x, s < stop ∧ strip_extends fits lanes ps stop s x ∧ length x ≤ length plan.
Proof.
  intros (_ & Ht & _) -> Hl Hd.
  destruct (strip_division_last fits (take (S k) lanes) plan) as (s & groups & Hs & Hd' & Hf & ->);
    [by destruct lanes; [cbn in Hl; lia|]|done|].
  rewrite length_take_le in * by done.
  rewrite take_take, Nat.min_l in Hd' by lia.
  destruct (Ht s) as (o & Ho & _ & Hbest); [lia|].
  destruct (Hbest groups Hd') as (best & -> & Hle).
  exists s, (best ++ [Z.of_nat (S k - s)]). split_and!; [lia| |rewrite !length_app; cbn; lia].
  exists best. split_and!; [done| |done]. by rewrite slice_drop by lia.
Qed.

Lemma plan_table_step fits lanes k ps :
  table_up_to fits lanes k ps → S k ≤ length lanes →
  table_up_to fits lanes (S k) (strips_ending fits lanes (S k) (S k) f64_zero ps).
Proof.
  intros Htab Hl. pose proof Htab as (Hlen & Ht & Hr).
  assert (f64_zero = strip_sum (slice lanes (S k) (S k))) as ->
    by (unfold slice; by rewrite Nat.sub_diag).
  destruct (strips_ending_spec fits lanes (λ _, False) (S k) (S k) ps None)
    as (o' & -> & Hsound & Hbest); [done|done|apply Hr; lia|by split|].
  split_and!; [by rewrite length_insert| |].
  - intros i Hi. destruct (decide (i = S k)) as [->|].
    2:{ destruct (Ht i) as (o & Ho & Hsh); [lia|]. exists o. by rewrite list_lookup_insert_ne. }
    exists o'. split; [apply list_lookup_insert_eq; lia|]. split.
    + intros plan E. destruct (Hsound plan E) as [[]|Hx]. by eapply strip_extends_division.
    + intros plan Hp. destruct (division_strip_extends fits lanes k ps (S k) plan) as (s & x & Hs & Hx & Hle); [done..|].
      destruct (Hbest x) as (best & Eb & Hb); [right; eauto|]. exists best. split; [done|lia].
  - intros i Hi Hil. rewrite list_lookup_insert_ne by lia. apply Hr; lia.
Qed.

Lemma layout_plans_table fits lanes : table_up_to fits lanes (length lanes) (layout_plans fits lanes).
Proof.
  unfold layout_plans.
  assert (table_up_to fits lanes 0 (<[O := Some []]> (replicate (length lanes + 1) None))) as H0.
  { split_and!.
    - by rewrite length_insert, length_replicate.
    - intros i Hi. replace i with 0 by lia. exists (Some []).
      split; [apply list_lookup_insert_eq; rewrite length_replicate; lia|]. split.
      + intros ? [= <-]. exists []. by split; [split_and!; set_solver|set_solver].
      + intros plan _. exists []. split; [done|cbn; lia].
    - intros i Hi Hl. rewrite list_lookup_insert_ne by lia. apply lookup_replicate_2. lia. }
  assert (∀ k, k ≤ length lanes → table_up_to fits lanes k
    (foldl (λ ps stop, strips_ending fits lanes stop stop f64_zero ps)
       (<[O := Some []]> (replicate (length lanes + 1) None)) (seq 1 k))) as Hk; [|by apply Hk].
  intros k. induction k as [|k IH]; intros Hk; [done|].
  rewrite seq_S, foldl_app. cbn [foldl]. apply plan_table_step; [apply IH; lia|done].
Qed.

(** One machine: the search finds a division with the fewest strips, when there is one. *)
Lemma layout_groups_fewest fits lanes :
  fewest (strip_division fits lanes) (layout_groups_for fits lanes).
Proof.
  destruct (layout_plans_table fits lanes) as (Hlen & Ht & _).
  destruct (Ht (length lanes)) as (o & Ho & Hs); [done|]. rewrite firstn_all in Hs.
  unfold layout_groups_for. rewrite last_lookup, Hlen, Nat.add_1_r. cbn [pred].
  by rewrite Ho.
Qed.

(** The machines in turn keep the fewest division of them all. *)
Lemma fold_fewest_division {A} (D : A → list Z → Prop) (search : A → option (list Z)) P o l :
  (∀ a, fewest (D a) (search a)) → fewest P o →
  fewest (λ x, P x ∨ ∃ a, a ∈ l ∧ D a x)
    (foldl (λ best a, match search a with
       | Some plan => if shorter plan best then Some plan else best
       | None => best
       end) o l).
Proof.
  intros HD. revert P o. induction l as [|a l IH]; intros P o HP; cbn [foldl].
  { eapply fewest_ext; [|exact HP]. set_solver. }
  destruct (HD a) as [Hs Hb].
  eapply (fewest_ext (λ x, (P x ∨ D a x) ∨ ∃ a, a ∈ l ∧ D a x)); [set_solver|]. apply IH.
  destruct HP as [HP1 HP2]. destruct (search a) as [plan|].
  - unfold shorter. destruct o as [old|]; [destruct (Nat.ltb_spec (length plan) (length old))|]; split.
    all: intros x; try (intros [= <-]; auto).
    + intros [Hx|Hx]; [destruct (HP2 x Hx) as (? & [= <-] & ?)|destruct (Hb x Hx) as (? & [= <-] & ?)];
        eexists; (split; [done|lia]).
    + intros [Hx|Hx]; [destruct (HP2 x Hx) as (? & [= <-] & ?)|destruct (Hb x Hx) as (? & [= <-] & ?)];
        eexists; (split; [done|lia]).
    + intros [Hx|Hx]; [by destruct (HP2 x Hx) as (? & ? & ?)|by apply Hb].
  - split; [intros x E; left; auto|].
    intros x [Hx|Hx]; [by apply HP2|by destruct (Hb x Hx) as (? & ? & ?)].
Qed.

(** * Strips of frames *)

#[local] Open Scope Z_scope.

(** A division of the frames into groups one machine takes. *)
Definition frame_division (fits : Z → bool) (frames : Z) (groups : list Z) : Prop :=
  foldr Z.add 0 groups = frames ∧ ∀ n, n ∈ groups → 0 < n ∧ fits n = true.

Lemma counts_to_elem frames n : n ∈ counts_to frames ↔ 1 ≤ n ≤ frames.
Proof.
  unfold counts_to. rewrite list_elem_of_fmap. setoid_rewrite elem_of_seq. split.
  - intros (k & -> & ?). lia.
  - intros ?. exists (Z.to_nat n). lia.
Qed.

(** The counts ascend, so the first that fits is the least and the last the greatest. *)
Lemma find_seq_least (fits : nat → bool) start len n :
  List.find fits (seq start len) = Some n →
  (start ≤ n < start + len)%nat ∧ fits n = true ∧
  ∀ k, (start ≤ k < start + len)%nat → fits k = true → (n ≤ k)%nat.
Proof.
  revert start. induction len as [|len IH]; intros start; cbn; [done|].
  destruct (fits start) eqn:E.
  - intros [= ->]. split_and!; [lia..|done|lia].
  - intros (H1 & H2 & H3)%IH. split_and!; [lia..|done|]. intros k Hk Hf.
    destruct (decide (k = start)) as [->|]; [congruence|]. apply H3; [lia|done].
Qed.

Lemma find_seq_greatest (fits : nat → bool) start len n :
  List.find fits (rev (seq start len)) = Some n →
  (start ≤ n < start + len)%nat ∧ fits n = true ∧
  ∀ k, (start ≤ k < start + len)%nat → fits k = true → (k ≤ n)%nat.
Proof.
  induction len as [|len IH]; [done|]. rewrite seq_S, rev_app_distr. cbn.
  destruct (fits (start + len)%nat) eqn:E.
  - intros [= <-]. split_and!; [lia..|done|lia].
  - intros (H1 & H2 & H3)%IH. split_and!; [lia..|done|]. intros k Hk Hf.
    destruct (decide (k = start + len)%nat) as [->|]; [congruence|]. apply H3; [lia|done].
Qed.

Lemma find_fmap {A B} (f : A → B) (p : B → bool) l :
  List.find p (f <$> l) = f <$> List.find (λ x, p (f x)) l.
Proof. induction l as [|x l IH]; [done|]. cbn. by destruct (p (f x)). Qed.

Lemma rev_fmap {A B} (f : A → B) l : rev (f <$> l) = f <$> rev l.
Proof. symmetry. apply map_rev. Qed.

Lemma least_count fits frames min :
  List.find fits (counts_to frames) = Some min →
  1 ≤ min ≤ frames ∧ fits min = true ∧ ∀ n, 1 ≤ n ≤ frames → fits n = true → min ≤ n.
Proof.
  unfold counts_to. rewrite find_fmap. intros (k & Hk & ->)%fmap_Some_1.
  apply find_seq_least in Hk as (H1 & H2 & H3). split_and!; [lia..|done|].
  intros n Hn Hf. specialize (H3 (Z.to_nat n) ltac:(lia)). rewrite Z2Nat.id in H3 by lia. specialize (H3 Hf). lia.
Qed.

Lemma greatest_count fits frames max :
  List.find fits (rev (counts_to frames)) = Some max →
  1 ≤ max ≤ frames ∧ fits max = true ∧ ∀ n, 1 ≤ n ≤ frames → fits n = true → n ≤ max.
Proof.
  unfold counts_to. rewrite rev_fmap, find_fmap. intros (k & Hk & ->)%fmap_Some_1.
  apply find_seq_greatest in Hk as (H1 & H2 & H3). split_and!; [lia..|done|].
  intros n Hn Hf. specialize (H3 (Z.to_nat n) ltac:(lia)). rewrite Z2Nat.id in H3 by lia. specialize (H3 Hf). lia.
Qed.

Lemma frames_sum_bounds groups lo hi :
  (∀ n, n ∈ groups → lo ≤ n ≤ hi) →
  Z.of_nat (length groups) * lo ≤ foldr Z.add 0 groups ≤ Z.of_nat (length groups) * hi.
Proof.
  induction groups as [|x groups IH]; cbn; intros H; [lia|].
  pose proof (H x ltac:(left)). destruct IH; [intros n Hn; apply H; by right|]. lia.
Qed.

Lemma frames_elem_sum groups n :
  (∀ n, n ∈ groups → 0 < n) → n ∈ groups → n ≤ foldr Z.add 0 groups.
Proof.
  induction groups as [|x groups IH]; cbn; intros H; [set_solver|].
  assert (0 ≤ foldr Z.add 0 groups).
  { destruct (frames_sum_bounds groups 0 (foldr Z.max 0 groups)); [|lia].
    intros m Hm. split; [pose proof (H m ltac:(by right)); lia|].
    clear -Hm. induction groups as [|y groups IH]; [set_solver|]. cbn.
    apply elem_of_cons in Hm as [->|Hm]; [lia|]. specialize (IH Hm). lia. }
  pose proof (H x ltac:(left)). intros [->|Hn]%elem_of_cons; [lia|].
  specialize (IH ltac:(intros; apply H; by right) Hn). lia.
Qed.

Lemma deal_frames_spec parts lo hi left :
  lo ≤ hi → Z.of_nat parts * lo ≤ left ≤ Z.of_nat parts * hi →
  foldr Z.add 0 (deal_frames parts lo hi left) = left ∧
  length (deal_frames parts lo hi left) = parts ∧
  ∀ n, n ∈ deal_frames parts lo hi left → lo ≤ n ≤ hi.
Proof.
  intros Hlh. revert left. induction parts as [|parts IH]; intros left Hl; cbn [deal_frames foldr length].
  { split_and!; [lia|done|set_solver]. }
  assert (Z.of_nat parts * lo ≤ Z.of_nat parts * hi) by (apply Z.mul_le_mono_nonneg_l; lia).
  destruct (IH (left - Z.min hi (left - Z.of_nat parts * lo))) as (H1 & H2 & H3); [lia|].
  split_and!; [lia|by rewrite H2|]. intros n [->|Hn]%elem_of_cons; [lia|auto].
Qed.

(** One machine: groups between its least and its greatest count, as few as any division has. *)
Lemma frame_groups_for_spec fits frames :
  0 < frames →
  match frame_groups_for fits frames with
  | Some groups =>
      foldr Z.add 0 groups = frames ∧
      (∃ lo hi, 1 ≤ lo ∧ fits lo = true ∧ fits hi = true ∧ ∀ n, n ∈ groups → lo ≤ n ≤ hi) ∧
      ∀ other, frame_division fits frames other → (length groups ≤ length other)%nat
  | None => ∀ other, ¬ frame_division fits frames other
  end.
Proof.
  intros Hpos. unfold frame_groups_for.
  assert (∀ other, frame_division fits frames other → ∀ n, n ∈ other → 1 ≤ n ≤ frames ∧ fits n = true) as Hin.
  { intros other [Hsum Hfit] n Hn. pose proof (frames_elem_sum other n) as Hle. rewrite Hsum in Hle.
    destruct (Hfit n Hn). split; [|done]. split; [lia|]. apply Hle; [|done]. intros m Hm. by apply Hfit. }
  destruct (List.find fits (counts_to frames)) as [lo|] eqn:El; cbn [mbind option_bind].
  2:{ intros other Hd. destruct other as [|n other]; [destruct Hd as [Hs _]; cbn in Hs; lia|].
      destruct (Hin _ Hd n) as [Hn Hf]; [left|].
      assert (In n (counts_to frames)) as Hi by (apply list_elem_of_In; by apply counts_to_elem).
      by rewrite (find_none _ _ El n Hi) in Hf. }
  apply least_count in El as (Hlo & Hflo & Hleast).
  destruct (List.find _ (rev (counts_to frames))) as [hi|] eqn:Eh; cbn [mbind option_bind].
  2:{ exfalso. assert (In lo (rev (counts_to frames))) as Hi
        by (rewrite <-in_rev; apply list_elem_of_In; by apply counts_to_elem).
      pose proof (find_none _ _ Eh lo Hi) as Hno. cbn beta in Hno. by rewrite Hflo, Z.leb_refl in Hno. }
  apply (greatest_count (λ n, (lo <=? n) && fits n)) in Eh as (Hhi & [Hlh Hfhi]%andb_true_iff & Hgreatest).
  apply Z.leb_le in Hlh.
  set (parts := (frames + hi - 1) / hi).
  assert (frames ≤ parts * hi < frames + hi) as Hp
    by (pose proof (Z.div_mod (frames + hi - 1) hi); pose proof (Z.mod_pos_bound (frames + hi - 1) hi); lia).
  assert (∀ other, frame_division fits frames other → parts ≤ Z.of_nat (length other) ∧
            Z.of_nat (length other) * lo ≤ frames) as Hfew.
  { intros other Hd. destruct (frames_sum_bounds other lo hi) as [Ha Hb].
    - intros n Hn. destruct (Hin _ Hd n Hn) as [Hb Hf]. split; [by apply Hleast|].
      apply Hgreatest; [done|]. rewrite Hf, andb_true_r. apply Z.leb_le. by apply Hleast.
    - destruct Hd as [Hsum _]. rewrite Hsum in *. split; [nia|done]. }
  destruct (Z.ltb_spec frames (parts * lo)).
  - intros other [Hq Hr]%Hfew. nia.
  - destruct (deal_frames_spec (Z.to_nat parts) lo hi frames) as (H1 & H2 & H3); [done|nia|].
    split_and!; [done|exists lo, hi; split_and!; [lia|done..]|].
    intros other [Hq _]%Hfew. lia.
Qed.

Lemma better_groups_length best groups :
  (length (if better_groups best groups then groups else default [] best) ≤ length groups)%nat ∧
  (∀ b, best = Some b →
     (length (if better_groups best groups then groups else b) ≤ length b)%nat).
Proof.
  unfold better_groups. destruct best as [b|]; cbn [default].
  - destruct (Nat.ltb_spec (length groups) (length b)), (Nat.eqb_spec (length groups) (length b)); cbn.
    all: try (destruct (groups_gt groups b)); split; intros; simplify_eq; lia.
  - split; [done|]. intros ? [=].
Qed.

Lemma fold_fewest {A} (search : A → option (list Z)) l :
  match foldl (λ best a, match search a with
          | Some groups => if better_groups best groups then Some groups else best
          | None => best
          end) None l with
  | Some g => (∃ a, a ∈ l ∧ search a = Some g) ∧
      ∀ a g', a ∈ l → search a = Some g' → (length g ≤ length g')%nat
  | None => ∀ a, a ∈ l → search a = None
  end.
Proof.
  induction l as [|a l IH] using rev_ind; [set_solver|]. rewrite foldl_app. cbn [foldl].
  destruct (foldl _ None l) as [g|].
  - destruct IH as [(a0 & Ha0 & Hg) Hmin].
    destruct (search a) as [groups|] eqn:E.
    2:{ split; [set_solver|]. intros x g' [Hx| ->%list_elem_of_singleton]%elem_of_app; [eauto|congruence]. }
    destruct (better_groups_length (Some g) groups) as [H1 H2]. specialize (H2 g eq_refl).
    cbn [default] in H1. destruct (better_groups (Some g) groups).
    + split; [exists a; set_solver|].
      intros x g' [Hx| ->%list_elem_of_singleton]%elem_of_app Hs; [|by simplify_eq].
      pose proof (Hmin x g' Hx Hs). lia.
    + split; [exists a0; set_solver|].
      intros x g' [Hx| ->%list_elem_of_singleton]%elem_of_app Hs; [eauto|by simplify_eq].
  - destruct (search a) as [groups|] eqn:E.
    + cbn. split; [exists a; set_solver|].
      intros x g' [Hx| ->%list_elem_of_singleton]%elem_of_app Hs; [by rewrite IH in Hs|by simplify_eq].
    + intros x [Hx| ->%list_elem_of_singleton]%elem_of_app; auto.
Qed.

(** * The widths that arrive at an occurrence *)

Section widths.
Context (map : ProductionMapDefinition) (cut_ids : gset ApparatusId) (width : f64).

Abbreviation found id := (visit_width map cut_ids width id).1.
Abbreviation onward id := (visit_width map cut_ids width id).2.

(** Going back from an occurrence, past every node that does not settle the width. *)
Inductive upstream (node_id : string) : string → Prop :=
  | upstream_edge id : id ∈ edges_into map node_id → upstream node_id id
  | upstream_onward id prev : upstream node_id id → prev ∈ onward id → upstream node_id prev.

Lemma onward_length id : (length (onward id) ≤ length (edges_into map id))%nat.
Proof.
  unfold visit_width. destruct (find_node map id); [|cbn; lia].
  destruct (cut_widths _ _ _ _); [cbn; lia|]. by destruct (edges_into map id).
Qed.

(** Edges whose target was not looked at yet. *)
Definition edges_left (seen : gset string) : nat :=
  length (List.filter (λ e, negb (bool_decide (edge_to e ∈ seen))) (map_edges map)).

Lemma edges_left_visit seen id :
  id ∉ seen → edges_left seen = (edges_left ({[id]} ∪ seen) + length (edges_into map id))%nat.
Proof.
  intros Hid. unfold edges_left, edges_into. rewrite length_fmap.
  induction (map_edges map) as [|e es IH]; [done|]. cbn [List.filter].
  destruct (edge_to e =s id) eqn:E; breflect.
  - rewrite E, bool_decide_false, bool_decide_true by set_solver. cbn. lia.
  - destruct (decide (edge_to e ∈ seen)).
    + rewrite !bool_decide_true by set_solver. cbn. lia.
    + rewrite !bool_decide_false by set_solver. cbn. lia.
Qed.

Lemma width_loop_spec fuel todo seen widths :
  (length todo + edges_left seen ≤ fuel)%nat →
  ∃ visited,
    width_loop map cut_ids width fuel todo seen widths = widths ++ (id ← visited; found id) ∧
    (∀ id, id ∈ todo → id ∈ seen ∨ id ∈ visited) ∧
    (∀ id prev, id ∈ visited → prev ∈ onward id → prev ∈ seen ∨ prev ∈ visited) ∧
    (∀ P : string → Prop, (∀ id, id ∈ todo → P id) → (∀ id prev, P id → prev ∈ onward id → P prev) →
       ∀ id, id ∈ visited → P id).
Proof.
  revert todo seen widths. induction fuel as [|fuel IH]; intros [|id todo] seen widths Hf; cbn in Hf.
  1,3: exists []; cbn; rewrite app_nil_r; split_and!; set_solver.
  { lia. }
  cbn [width_loop]. case_bool_decide as Hid.
  - destruct (IH todo seen widths) as (visited & -> & H1 & H2 & H3); [lia|].
    exists visited. split_and!; [done| |done|].
    + intros x [->|Hx]%elem_of_cons; auto.
    + intros P HP Hc x Hx. apply (H3 P); [set_solver|done..].
  - destruct (visit_width map cut_ids width id) as [fs prevs] eqn:Ev.
    pose proof (onward_length id) as Hl. rewrite Ev in Hl. cbn in Hl.
    destruct (IH (rev prevs ++ todo) ({[id]} ∪ seen) (widths ++ fs)) as (visited & -> & H1 & H2 & H3).
    { rewrite length_app, length_rev. pose proof (edges_left_visit seen id Hid). lia. }
    exists (id :: visited). split_and!.
    + by rewrite <-app_assoc; cbn; rewrite Ev.
    + intros x [->|Hx]%elem_of_cons; [set_solver|]. destruct (H1 x); set_solver.
    + intros x prev [->|Hx]%elem_of_cons Hp.
      * rewrite Ev in Hp. cbn in Hp.
        destruct (H1 prev); [|set_solver..]. apply elem_of_app. left.
        by rewrite list_elem_of_In, <-in_rev, <-list_elem_of_In.
      * destruct (H2 x prev Hx Hp); set_solver.
    + intros P HP Hc x [->|Hx]%elem_of_cons; [apply HP; left|].
      apply (H3 P); [|done..]. intros y [Hy|Hy]%elem_of_app; [|apply HP; by right].
      rewrite list_elem_of_In, <-in_rev, <-list_elem_of_In in Hy.
      apply (Hc id); [apply HP; left|by rewrite Ev].
Qed.
End widths.

(** * Generated maps *)

(** ** Names of nodes *)

Definition prefix3 (s : string) : string := take_bytes 3 s.

Lemma stage_id_inj key i j : stage_id key i = stage_id key j → i = j.
Proof.
  unfold stage_id. intros H.
  assert (Z_to_string (Z.of_nat i) = Z_to_string (Z.of_nat j)) as Hz.
  { induction key as [|c key IH]; [by injection H|]. cbn in H. injection H as H. by apply IH. }
  unfold Z_to_string in Hz. destruct (Z.of_nat i) eqn:Ei, (Z.of_nat j) eqn:Ej; try lia.
  all: apply N_to_string_inj in Hz; lia.
Qed.

Definition stage_keys : list string :=
  ["print"; "pre_lamination_cut"; "laminate"; "cold_glue"; "package"; "final_cut"].

Lemma prefix3_stage_id key i : key ∈ stage_keys → prefix3 (stage_id key i) = prefix3 key.
Proof. unfold stage_keys. set_unfold. intros H. by repeat (destruct H as [->|H]; [done|]); destruct H. Qed.

(** ** Validation of a drawn graph *)

Section planned.
Context `{UnicodeCase} `{UnicodeTables}.

(** What validation asks of one node, whatever map it is in. *)
Definition plain_node (n : ProductionMapNode) : Prop :=
  node_kind n ∈ [NodeKind.Start; NodeKind.End_; NodeKind.Apparatus] ∧
  node_from_location n = "" ∧ node_to_location n = "" ∧ ∀ map, validate_node_kind map n = Ok tt.

Lemma validate_plain_nodes map ns :
  NoDup (node_id <$> ns) → (∀ n, n ∈ ns → plain_node n) →
  for_each (validate_node map) ns (∅, 0, 0)%nat =
  Ok (list_to_set (node_id <$> ns), count_kind NodeKind.Start ns, count_kind NodeKind.End_ ns).
Proof.
  induction ns as [|n ns IH] using rev_ind; intros Hnd Hn; [done|].
  rewrite fmap_app in Hnd. apply NoDup_app in Hnd as (Hnd & Hfresh & _).
  rewrite for_each_app, IH by set_solver. cbn [mbind result_bind for_each].
  destruct (Hn n) as (_ & Hf & Ht & Hk); [set_solver|].
  unfold validate_node. rewrite bool_decide_false by (rewrite elem_of_list_to_set; set_solver).
  rewrite Hk, Hf, Ht. cbn.
  rewrite fmap_app, list_to_set_app_L. unfold count_kind. rewrite !List.filter_app, !length_app. cbn.
  do 2 f_equal; [f_equal; [set_solver|]|]; destruct (NodeKind.eqb _ _); cbn; lia.
Qed.

(** Every node comes after the nodes its edges leave from. *)
Definition drawn_forward (nodes : list ProductionMapNode) (edges : list ProductionMapEdge) : Prop :=
  ∀ e, e ∈ edges → ∃ i j, (node_id <$> nodes) !! i = Some (edge_from e) ∧
    (node_id <$> nodes) !! j = Some (edge_to e) ∧ (i < j)%nat.

Lemma drawn_map_compiles map :
  validate_combo map = Ok tt → validate_products (map_products map) = Ok tt →
  is_some_and (map_print_val_size_mm map) (λ size, negb (is_finite size) || f64_le size f64_zero) = false →
  blank (map_id map) = false → blank (map_product_code map) = false → blank (map_title map) = false →
  NoDup (node_id <$> map_nodes map) → (∀ n, n ∈ map_nodes map → plain_node n) →
  count_kind NodeKind.Start (map_nodes map) = 1%nat → count_kind NodeKind.End_ (map_nodes map) = 1%nat →
  drawn_forward (map_nodes map) (map_edges map) →
  ∃ p, compile_map map = Ok p.
Proof.
  intros Hc Hp Hs Hi Hpc Ht Hnd Hn Hst Hen Hfwd.
  assert (validate_map map = Ok tt) as Hv.
  { unfold validate_map. rewrite Hc, Hp, Hs, Hi, Hpc, Ht. cbn -[validate_node].
    rewrite validate_plain_nodes by done. cbn -[validate_node]. rewrite Hst, Hen. cbn.
    replace (for_each (validate_edge _) _ _) with (@Ok fault unit tt).
    - cbn. apply for_each_checks. intros n Hin. destruct (Hn n Hin) as (Hk & _).
      unfold validate_branches. set_unfold in Hk. by destruct Hk as [->|[->|[->|[]]]].
    - symmetry. apply for_each_checks. intros e He.
      destruct (Hfwd e He) as (i & j & Hfi & Htj & _). unfold validate_edge.
      by rewrite !bool_decide_false by (rewrite elem_of_list_to_set; intros Hno; apply Hno;
           by eapply list_elem_of_lookup_2). }
  destruct (compile_map_cases map Hv) as [(_ & p & Hok & _)|[[v Hcyc] _]]; [by exists p|].
  exfalso. refine (edges_forward_acyclic map (node_ids map) Hnd _ v Hcyc).
  intros a b (e & He & <- & <-). by apply Hfwd.
Qed.

(** ** Drawing stage by stage *)

Definition valid_machine (a : RuntimeApparatusConfiguration) : Prop :=
  is_ok (ApparatusId_new (trim (apparatus_id_str (row_apparatus_id (runtime_row a))))) = true ∧
  is_empty (trim (apparatus_id_str (row_apparatus_id (runtime_row a)))) = false.

(** Frame groups validation accepts. *)
Definition groups_accepted (frames : option Z) (groups : list Z) : Prop :=
  ∀ n, rezka_kadr_count n = frames → rezka_frame_groups n = groups → validate_rezka_frame_groups n = Ok tt.

Record drawn (t : CalculateOrderTemplate) (used : list string) (g : Graph) : Prop := {
  drawn_plain : ∀ n, n ∈ map_nodes (graph_map g) → plain_node n;
  drawn_nodup : NoDup (node_id <$> map_nodes (graph_map g));
  drawn_names : ∀ n, n ∈ map_nodes (graph_map g) → prefix3 (node_id n) ∈ used;
  drawn_start : count_kind NodeKind.Start (map_nodes (graph_map g)) = 1%nat;
  drawn_end : count_kind NodeKind.End_ (map_nodes (graph_map g)) = 0%nat;
  drawn_edges : drawn_forward (map_nodes (graph_map g)) (map_edges (graph_map g));
  drawn_previous : ∀ id, id ∈ graph_previous g → id ∈ node_id <$> map_nodes (graph_map g);
  drawn_header : redraw [] [] (graph_map g) = redraw [] [] (graph_map (Graph_new t));
}.

Lemma plain_title_node id kind title item y :
  kind ∈ [NodeKind.Start; NodeKind.End_] → plain_node (title_node id kind title item y).
Proof. intros Hk. set_unfold in Hk. destruct Hk as [->|[->|[]]]; (split; [set_solver|done]). Qed.

Lemma Graph_new_drawn t : drawn t ["sta"] (Graph_new t).
Proof.
  split; cbn.
  - intros n ->%list_elem_of_singleton. apply plain_title_node. set_solver.
  - apply NoDup_singleton.
  - set_solver.
  - done.
  - done.
  - intros e He. set_solver.
  - set_solver.
  - done.
Qed.

Lemma plain_stage_node key count frames groups row index a :
  valid_machine a → groups_accepted frames groups →
  plain_node (stage_node key count frames groups row index a).
Proof.
  intros [Ha He] Hg. split_and!; [set_solver|done..|]. intros map.
  unfold validate_node_kind. cbn [node_kind stage_node].
  unfold validate_apparatus_identity. cbn -[trim ApparatusId_new is_ok]. rewrite He, Ha. cbn -[validate_rezka_frame_groups].
  by rewrite Hg.
Qed.

(** Nodes appended with edges from earlier nodes keep the drawing forward. *)
Lemma drawn_forward_app nodes edges new_nodes new_edges :
  drawn_forward nodes edges →
  (∀ e, e ∈ new_edges → edge_from e ∈ node_id <$> nodes ∧ edge_to e ∈ node_id <$> new_nodes) →
  drawn_forward (nodes ++ new_nodes) (edges ++ new_edges).
Proof.
  intros Hold Hnew e [He|He]%elem_of_app; rewrite fmap_app.
  - destruct (Hold e He) as (i & j & Hi & Hj & Hij). exists i, j.
    by split_and!; [by apply lookup_app_l_Some..|].
  - destruct (Hnew e He) as [[i Hi]%list_elem_of_lookup [j Hj]%list_elem_of_lookup].
    exists i, (length (node_id <$> nodes) + j)%nat. split_and!.
    + by apply lookup_app_l_Some.
    + by rewrite lookup_app_r, Nat.add_comm, Nat.add_sub by lia.
    + apply lookup_lt_Some in Hi. lia.
Qed.

Lemma append_drawn t used g new_nodes new_edges previous row prefix :
  drawn t used g → prefix ∉ used →
  (∀ n, n ∈ new_nodes → plain_node n ∧ prefix3 (node_id n) = prefix ∧ node_kind n = NodeKind.Apparatus) →
  NoDup (node_id <$> new_nodes) →
  (∀ e, e ∈ new_edges → edge_from e ∈ graph_previous g ∧ edge_to e ∈ node_id <$> new_nodes) →
  (∀ id, id ∈ previous → id ∈ node_id <$> new_nodes) →
  drawn t (prefix :: used)
    {| graph_map := redraw (map_nodes (graph_map g) ++ new_nodes)
                      (map_edges (graph_map g) ++ new_edges) (graph_map g);
       graph_previous := previous; graph_row := row |}.
Proof.
  intros [Hp Hnd Hnames Hs He Hf Hprev Hh] Hfresh Hnew Hnd' Hedges Hprevious.
  assert (∀ k, k ≠ NodeKind.Apparatus → count_kind k new_nodes = 0%nat) as Hk.
  { intros k Hk. unfold count_kind. apply length_zero_iff_nil. apply elem_of_nil_inv. intros n Hin.
    rewrite list_elem_of_In, filter_In, <-list_elem_of_In in Hin. destruct Hin as [Hin Hkn].
    destruct (Hnew n Hin) as (_ & _ & E). rewrite E in Hkn. by apply bool_decide_eq_true in Hkn. }
  split; cbn [graph_map redraw map_nodes map_edges graph_previous].
  - intros n [Hn|Hn]%elem_of_app; [by apply Hp|by apply Hnew].
  - rewrite fmap_app. apply NoDup_app. split_and!; [done| |done].
    intros id (a & -> & Ha)%list_elem_of_fmap (b & Hab & Hb)%list_elem_of_fmap.
    destruct (Hnew b Hb) as (_ & Hpre & _). apply Hfresh. rewrite <-Hpre, <-Hab. by apply Hnames.
  - intros n [Hn|Hn]%elem_of_app; [right; by apply Hnames|]. destruct (Hnew n Hn) as (_ & Hpre & _). rewrite Hpre. left.
  - unfold count_kind in *. rewrite List.filter_app, length_app, Hs. by rewrite Hk.
  - unfold count_kind in *. rewrite List.filter_app, length_app, He. by rewrite Hk.
  - apply drawn_forward_app; [done|]. intros e Hin. destruct (Hedges e Hin). split; [by apply Hprev|done].
  - intros id Hin. rewrite fmap_app. apply elem_of_app. right. by apply Hprevious.
  - done.
Qed.

Lemma stage_drawn t used g key machines frames groups g' :
  drawn t used g → key ∈ stage_keys → prefix3 key ∉ used →
  (∀ a, a ∈ machines → valid_machine a) → groups_accepted frames groups →
  stage key machines frames groups g = Ok g' → drawn t (prefix3 key :: used) g'.
Proof.
  intros Hd Hkey Hfresh Hm Hg. unfold stage. rename machines into ms.
  destruct ms as [|a0 rest] eqn:Ems; [done|]. rewrite <-Ems in *. clear Ems a0 rest. set (f := stage_node key (length ms) frames groups (graph_row g)).
  assert (∀ n, n ∈ imap f ms → ∃ i a, ms !! i = Some a ∧ n = f i a) as Hn.
  { intros n (i & a & -> & Ha)%elem_of_lookup_imap_1. eauto. }
  intros [= <-]. apply append_drawn; [done..| | | |].
  - intros n (i & a & Ha & ->)%Hn. split_and!; [|by apply prefix3_stage_id|done].
    apply plain_stage_node; [|done]. apply Hm. by eapply list_elem_of_lookup_2.
  - assert (node_id <$> imap f ms = imap (λ i _, stage_id key i) ms) as ->
      by (rewrite fmap_imap; by apply imap_ext).
    apply NoDup_alt. intros i j x. rewrite !list_lookup_imap.
    destruct (ms !! i), (ms !! j); cbn; try done. intros [= <-] [= Hij]. by apply stage_id_inj in Hij.
  - intros e (n & (from & -> & Hfrom)%list_elem_of_fmap & Hin)%list_elem_of_bind. cbn. set_solver.
  - done.
Qed.

(** ** Frame groups of a plan *)

Lemma groups_total groups acc :
  0 ≤ acc → (∀ n, n ∈ groups → 0 < n) → acc + foldr Z.add 0 groups ≤ i64_MAX →
  for_each (λ group total,
    if (group <=? 0)%Z then Err InvalidRezkaFrameGroups
    else ok_or (i64_checked (total + group)) InvalidRezkaFrameGroups) groups acc =
  (Ok (acc + foldr Z.add 0 groups) : pm_result Z).
Proof.
  revert acc. induction groups as [|x groups IH]; intros acc Hacc Hpos Hmax; cbn [for_each foldr].
  { by rewrite Z.add_0_r. }
  cbn [foldr] in Hmax. pose proof (Hpos x ltac:(left)). rewrite (proj2 (Z.leb_gt x 0)) by lia.
  destruct (frames_sum_bounds groups 0 i64_MAX) as [Hge _].
  { intros n Hn. pose proof (Hpos n ltac:(by right)). split; [lia|].
    pose proof (frames_elem_sum (x :: groups) n Hpos ltac:(by right)) as Hle. cbn in Hle. lia. }
  unfold i64_checked, i64_MIN.
  rewrite (proj2 (Z.leb_le (- 2 ^ 63) (acc + x))), (proj2 (Z.leb_le (acc + x) i64_MAX)) by lia.
  cbn [andb ok_or mbind result_bind]. rewrite IH; [f_equal; lia|lia|set_solver|lia].
Qed.

Lemma groups_accepted_sum frames groups :
  (∀ n, n ∈ groups → 0 < n) → 0 < frames ≤ i64_MAX → foldr Z.add 0 groups = frames →
  groups_accepted (Some frames) groups.
Proof.
  intros Hpos Hf Hsum n Hk Hg. unfold validate_rezka_frame_groups. rewrite Hk, Hg.
  destruct groups as [|x groups]; [done|]. rewrite (proj2 (Z.ltb_lt 0 frames)) by lia. cbn [negb].
  rewrite groups_total by (done || lia). cbn [mbind result_bind].
  by rewrite Hsum, Z.add_0_l, Z.eqb_refl.
Qed.

Lemma groups_accepted_nil frames : groups_accepted frames [].
Proof. intros n _ Hg. unfold validate_rezka_frame_groups. by rewrite Hg. Qed.

(** A whole positive number of frames, as the cast reads it. *)
Lemma whole_frames x :
  is_finite x = true → f64_le x f64_zero = false → has_fraction x = false →
  0 < trunc_as_i64 x ≤ i64_MAX.
Proof.
  destruct x as [s|s| |s m e]; [by destruct s|done|done|]. intros _ Hle Hfrac.
  destruct s; [done|]. cbn [trunc_as_i64 has_fraction] in *. unfold i64_saturate.
  assert (0 < (if 0 <=? e then Zpos m * 2 ^ e else Zpos m / 2 ^ (- e))).
  { destruct (Z.leb_spec 0 e); [nia|]. cbn in Hfrac.
    destruct (Z.eqb_spec (Zpos m mod 2 ^ (- e)) 0); [|done].
    apply Z.div_str_pos. split; [lia|].
    destruct (Z.le_gt_cases (2 ^ (- e)) (Zpos m)); [done|]. rewrite Z.mod_small in *; lia. }
  unfold i64_MIN, i64_MAX. lia.
Qed.

Lemma small_counts_exact : forallb (λ n, trunc_as_i64 (f64_of_Z n) =? n) (counts_to 1024) = true.
Proof. by vm_compute. Qed.

Lemma small_count_exact n : 1 ≤ n ≤ 1024 → trunc_as_i64 (f64_of_Z n) = n.
Proof.
  intros Hn. pose proof small_counts_exact as Hall. rewrite forallb_forall in Hall.
  apply Z.eqb_eq, Hall, list_elem_of_In, counts_to_elem. done.
Qed.

Lemma best_layout_groups_division width lane_widths laminators groups :
  best_layout_groups width lane_widths laminators = Some groups → lane_widths ≠ [] →
  (∀ n, n ∈ groups → 0 < n) ∧ foldr Z.add 0 groups = Z.of_nat (length lane_widths).
Proof.
  unfold best_layout_groups. destruct (existsb _ _).
  - intros [= <-] Hne. cbn. split; [|lia]. intros n ->%list_elem_of_singleton.
    by destruct lane_widths; [|cbn; lia].
  - intros Hb _.
    destruct (fold_fewest_division (λ a, strip_division (lamination_fits a) lane_widths)
                (λ a, layout_groups_for (lamination_fits a) lane_widths) (λ _, False) None laminators)
      as [Hs _]; [intros a; apply layout_groups_fewest|by split|].
    destruct (Hs groups Hb) as [[]|(a & _ & pieces & Hcuts & _)].
    apply cuts_total in Hcuts as [? ?]. by split.
Qed.

Lemma best_frame_groups_division width frames laminators groups :
  0 < frames → best_frame_groups width frames laminators = Some groups →
  (∀ n, n ∈ groups → 0 < n) ∧ foldr Z.add 0 groups = frames.
Proof.
  intros Hpos. unfold best_frame_groups.
  pose proof (fold_fewest (λ a, frame_groups_for (frame_fits width frames a) frames) laminators) as Hf.
  cbn beta in Hf. intros Hb. rewrite Hb in Hf. destruct Hf as [(a & _ & Ha) _].
  pose proof (frame_groups_for_spec (frame_fits width frames a) frames Hpos) as Hspec. rewrite Ha in Hspec.
  destruct Hspec as (Hsum & (lo & hi & Hlo & _ & _ & Hin) & _).
  split; [|done]. intros n Hn. specialize (Hin n Hn). lia.
Qed.

(** ** The plan *)

Lemma machines_valid apparatus operation capability a :
  (∀ a, a ∈ apparatus → valid_machine a) →
  a ∈ machines_for (catalog apparatus) operation capability → valid_machine a.
Proof.
  intros Hv Ha. apply Hv. unfold machines_for, catalog in Ha.
  rewrite list_elem_of_In, filter_In, <-list_elem_of_In in Ha. destruct Ha as [Ha _].
  rewrite merge_sort_Permutation in Ha.
  rewrite list_elem_of_In, filter_In, <-list_elem_of_In in Ha. by destruct Ha.
Qed.

Lemma filtered_valid apparatus operation capability f a :
  (∀ a, a ∈ apparatus → valid_machine a) →
  a ∈ List.filter f (machines_for (catalog apparatus) operation capability) → valid_machine a.
Proof.
  intros Hv Ha. rewrite list_elem_of_In, filter_In, <-list_elem_of_In in Ha.
  destruct Ha as [Ha _]. by eapply machines_valid.
Qed.

(** The frames of the template are whole, and those of its products are its lanes. *)
Lemma checked_frames t input :
  check_template t = Ok input → validate_products (template_products t) = Ok tt →
  0 < trunc_as_i64 (plan_frames input) ≤ i64_MAX ∧
  (template_products t ≠ [] →
     trunc_as_i64 (plan_frames input) = Z.of_nat (length (lanes (template_products t) "" ""))).
Proof.
  unfold check_template. intros Hc Hp. inv_ok. cbn [plan_frames].
  set (frames := match template_products t with [] => _ | o :: l => _ end) in *.
  assert (is_finite frames = true ∧ f64_le frames f64_zero = false ∧ has_fraction frames = false)
    as (Hf & Hz & Hw) by (breflect; by destruct (is_finite frames)).
  split; [by apply whole_frames|]. intros Hne.
  pose proof (whole_frames frames Hf Hz Hw) as Hpos.
  destruct (validated_lanes_are_distinct (template_products t) "" "" Hp) as (_ & Hl & Hmax).
  rewrite Hl. unfold frames in *. destruct (template_products t) as [|o l]; [done|].
  destruct (decide (1 ≤ frame_count (o :: l))) as [|Hno]; [by apply small_count_exact|].
  exfalso. assert (frame_count (o :: l) = 0) as Hzero by lia. rewrite Hzero in Hpos. by destruct Hpos.
Qed.

Lemma strips_accepted t input width laminators groups cut :
  check_template t = Ok input → validate_products (template_products t) = Ok tt →
  lamination_strips t width (plan_frames input) laminators = Ok (groups, cut) →
  groups_accepted (Some (trunc_as_i64 (plan_frames input))) groups.
Proof.
  intros Hc Hp Hs. destruct (checked_frames t input Hc Hp) as [Hpos Hlanes].
  unfold lamination_strips in Hs. inv_ok.
  match goal with H : ok_or _ _ = Ok _ |- _ => apply ok_or_Ok in H; rename H into Hg end.
  destruct (lane_width_mm <$> lanes (template_products t) "" "") as [|x ws] eqn:El.
  - apply best_frame_groups_division in Hg as [H1 H2]; [|lia]. by apply groups_accepted_sum.
  - apply best_layout_groups_division in Hg as [H1 H2]; [|done]. apply groups_accepted_sum; [done..|].
    rewrite Hlanes, H2, <-El; [by rewrite length_fmap|]. intros E. by rewrite E in El.
Qed.

Lemma plan_lamination_drawn t used input width apparatus g g' widths :
  check_template t = Ok input → validate_products (template_products t) = Ok tt →
  (∀ a, a ∈ apparatus → valid_machine a) →
  drawn t used g → "pre" ∉ used → "lam" ∉ used →
  plan_lamination t width (plan_frames input) (catalog apparatus) g = Ok (g', widths) →
  ∃ used', drawn t used' g' ∧ ∀ p, p ∈ used' → p ∈ used ∨ p = "pre" ∨ p = "lam".
Proof.
  intros Hc Hp Hv Hd Hpre Hlam. unfold plan_lamination. case_match; [intros [= <- <-]; exists used; auto|].
  intros ([groups cut] & Hs & Hk)%bind_Ok. apply bind_Ok in Hk as ([g1 ws] & Hk & Hl).
  apply bind_Ok in Hl as (g2 & Hl & [= <- <-]).
  assert (∃ used1, drawn t used1 g1 ∧ ("lam" ∉ used1) ∧ ∀ p, p ∈ used1 → p ∈ used ∨ p = "pre")
    as (used1 & Hd1 & Hlam1 & Hin1).
  { destruct cut; [|injection Hk as <- <-; exists used; auto].
    apply bind_Ok in Hk as (g0 & Hg0 & Hk). apply bind_Ok in Hk as (ws' & _ & [= <- <-]).
    exists ("pre" :: used). split_and!; [|set_solver..].
    eapply (stage_drawn _ _ _ "pre_lamination_cut"); [done|set_solver|done| | |done].
    - intros a. by apply filtered_valid.
    - by eapply strips_accepted. }
  exists ("lam" :: used1). split; [|set_solver].
  eapply (stage_drawn _ _ _ "laminate"); [done|set_solver|done| |apply groups_accepted_nil|done].
  intros a. by apply filtered_valid.
Qed.

Lemma plan_stages_drawn t input width apparatus g :
  check_template t = Ok input → validate_products (template_products t) = Ok tt →
  (∀ a, a ∈ apparatus → valid_machine a) →
  plan_stages t input width (catalog apparatus) = Ok g →
  ∃ used, drawn t used g ∧ "end" ∉ used.
Proof.
  intros Hc Hp Hv. unfold plan_stages.
  intros (g1 & H1 & H2)%bind_Ok. apply bind_Ok in H2 as ([g2 widths] & H2 & H3).
  apply bind_Ok in H3 as (g3 & H3 & H4). apply bind_Ok in H4 as (g4 & H4 & H5).
  eapply (stage_drawn t ["sta"] _ "print") in H1;
    [|apply Graph_new_drawn|set_solver|set_solver|intros a; by apply filtered_valid|apply groups_accepted_nil].
  eapply (plan_lamination_drawn t _ input) in H2 as (used2 & Hd2 & Hin2); [|done..|cbn; set_solver|cbn; set_solver].
  assert (∃ used3, drawn t used3 g3 ∧ ∀ p, p ∈ used3 → p ∈ used2 ∨ p = "col") as (used3 & Hd3 & Hin3).
  { destruct (options_cold_glue _); [|injection H3 as <-; exists used2; auto].
    exists ("col" :: used2). split; [|set_solver].
    eapply (stage_drawn _ _ _ "cold_glue"); [done|set_solver|cbn; set_solver| |apply groups_accepted_nil|done].
    intros a Ha. rewrite list_elem_of_In, filter_In, <-list_elem_of_In in Ha. destruct Ha as [Ha _].
    by eapply filtered_valid. }
  assert (∃ used4, drawn t used4 g4 ∧ ∀ p, p ∈ used4 → p ∈ used3 ∨ p = "pac") as (used4 & Hd4 & Hin4).
  { destruct (plan_paket _); [|injection H4 as <-; exists used3; auto].
    exists ("pac" :: used3). split; [|set_solver].
    eapply (stage_drawn _ _ _ "package"); [done|set_solver|cbn; set_solver| |apply groups_accepted_nil|done].
    intros a. by apply filtered_valid. }
  exists ("fin" :: used4). split; [|cbn in *; set_solver].
  eapply (stage_drawn _ _ _ "final_cut"); [done|set_solver|cbn in *; set_solver| |apply groups_accepted_nil|done].
  intros a. by apply filtered_valid.
Qed.

Lemma finished_compiles t g used width kg len rolls :
  drawn t used g → "end" ∉ used → validate_products (template_products t) = Ok tt →
  validate_combo (graph_map (Graph_new t)) = Ok tt →
  is_some_and (template_print_val_size_mm t) (λ size, negb (is_finite size) || f64_le size f64_zero) = false →
  blank ("zakaz-" +:+ template_order_number t) = false →
  blank (template_item_code t) = false → blank (template_product t) = false →
  ∃ p, compile_map (with_plan_numbers width kg len (template_print_val_size_mm t) rolls (finish g)) = Ok p.
Proof.
  intros [Hp Hnd Hnames Hs He Hf Hprev Hh] Hend Hvp Hcombo Hval Hid Hcode Htitle.
  assert (map_products (graph_map g) = template_products t ∧ map_combo (graph_map g) = template_combo t ∧
          map_id (graph_map g) = "zakaz-" +:+ template_order_number t ∧
          map_product_code (graph_map g) = template_item_code t ∧ map_title (graph_map g) = template_product t)
    as (Hpr & Hco & Hmi & Hmc & Hmt) by (injection Hh; intros; by split_and!).
  apply drawn_map_compiles.
  - unfold validate_combo in *. cbn -[starts_with] in *. by rewrite Hco, Hpr, Hmc, Hmt.
  - cbn. by rewrite Hpr.
  - done.
  - cbn -[blank String.append]. by rewrite Hmi.
  - cbn -[blank]. by rewrite Hmc.
  - cbn -[blank]. by rewrite Hmt.
  - cbn. rewrite fmap_app. apply NoDup_app. split_and!; [done| |apply NoDup_singleton].
    intros id (n & -> & Hn)%list_elem_of_fmap Hid'. cbn in Hid'. apply list_elem_of_singleton in Hid'.
    specialize (Hnames n Hn). by rewrite Hid' in Hnames.
  - intros n [Hn| ->%list_elem_of_singleton]%elem_of_app; [by apply Hp|]. apply plain_title_node. set_solver.
  - cbn. unfold count_kind in *. by rewrite List.filter_app, length_app, Hs.
  - cbn. unfold count_kind in *. by rewrite List.filter_app, length_app, He.
  - cbn. apply drawn_forward_app; [done|].
    intros e (from & -> & Hfrom)%list_elem_of_fmap. split; [by apply Hprev|]. cbn. set_solver.
Qed.

Lemma zakaz_not_blank number : blank ("zakaz-" +:+ number) = false.
Proof.
  assert (∀ s, trim_rev (s +:+ "-zakaz") ≠ "") as Ht.
  { intros s. induction s as [s IH] using (induction_ltof1 _ String.length). unfold ltof in IH.
    destruct s as [|a [|b [|c s]]]; [done| | |].
    - change (trim_rev (String a "-zakaz") ≠ ""). cbn. destruct (ws1 a); [done|].
      by destruct (ws2 "-" a); [|destruct (ws3 "z" "-" a)].
    - change (trim_rev (String a (String b "-zakaz")) ≠ ""). cbn [trim_rev].
      pose proof (IH (String b "") ltac:(cbn; lia)). pose proof (IH "" ltac:(cbn; lia)).
      destruct (ws1 a); [done|]. destruct (ws2 b a); [done|]. by destruct (ws3 "-" b a).
    - change (trim_rev (String a (String b (String c (s +:+ "-zakaz")))) ≠ ""). cbn [trim_rev].
      pose proof (IH (String b (String c s)) ltac:(cbn; lia)).
      pose proof (IH (String c s) ltac:(cbn; lia)). pose proof (IH s ltac:(cbn; lia)).
      destruct (ws1 a); [done|]. destruct (ws2 b a); [done|]. by destruct (ws3 c b a). }
  unfold blank, trim. change (trim_start ("zakaz-" +:+ number)) with ("zakaz-" +:+ number).
  unfold trim_end. rewrite str_rev_append.
  specialize (Ht (String.rev number)). change (String.rev "zakaz-") with "-zakaz".
  destruct (trim_rev _) as [|x r]; [done|].
  destruct (String.rev (String x r)) eqn:E; [|done].
  apply (f_equal String.length) in E. rewrite str_length_rev in E. done.
Qed.

(** * Theorems *)

(** C16: A plan is never lost to the compiler: for machines with valid
    identities and a template whose products, combination, print size and names
    are acceptable, planning the route either answers one of the planner's own
    messages or a map that compiles; the error of the last compilation is never
    seen. *)
Theorem planned_map_compiles t apparatus width kg len :
  (∀ a, a ∈ apparatus → valid_machine a) →
  validate_products (template_products t) = Ok tt →
  validate_combo (graph_map (Graph_new t)) = Ok tt →
  is_some_and (template_print_val_size_mm t) (λ size, negb (is_finite size) || f64_le size f64_zero) = false →
  blank (template_item_code t) = false → blank (template_product t) = false →
  plan_map t apparatus width kg len ≠ Err None.
Proof.
  intros Hv Hp Hcombo Hval Hcode Htitle. unfold plan_map.
  destruct (check_template t) as [input|e] eqn:Hc; [|done]. cbn [mbind result_bind].
  destruct (plan_stages t input width (catalog apparatus)) as [g|e] eqn:Hg; [|done]. cbn [mbind result_bind].
  destruct len as [len|]; [|done]. cbn [ok_or mbind result_bind].
  destruct (plan_stages_drawn t input width apparatus g Hc Hp Hv Hg) as (used & Hd & Hend).
  destruct (finished_compiles t g used width kg len (plan_rolls input) Hd Hend) as [p Hok];
    [done..|apply zakaz_not_blank|done|done|].
  by rewrite Hok.
Qed.
End planned.

(** C30: The lanes of a laminated order are cut into as few strips as can be:
    when no laminator takes the whole web, the answer is a division into
    consecutive strips that all fit one of the laminators, no such division for
    any of them has fewer strips, and there is no answer exactly when there is
    no such division. *)
Theorem layout_strips_are_fewest width lane_widths laminators :
  existsb (λ a, lamination_fits a width) laminators = false →
  match best_layout_groups width lane_widths laminators with
  | Some groups =>
      (∃ a, a ∈ laminators ∧ strip_division (lamination_fits a) lane_widths groups) ∧
      ∀ a other, a ∈ laminators → strip_division (lamination_fits a) lane_widths other →
        (length groups ≤ length other)%nat
  | None => ∀ a other, a ∈ laminators → ¬ strip_division (lamination_fits a) lane_widths other
  end.
Proof.
  intros Hno. unfold best_layout_groups. rewrite Hno.
  destruct (fold_fewest_division (λ a, strip_division (lamination_fits a) lane_widths)
              (λ a, layout_groups_for (lamination_fits a) lane_widths) (λ _, False) None laminators)
    as [Hs Hb]; [intros a; apply layout_groups_fewest|by split|]. cbn beta in Hs, Hb.
  destruct (foldl _ None laminators) as [groups|].
  - split; [by destruct (Hs groups eq_refl) as [[]|]|].
    intros a other Ha Hd. destruct (Hb other) as (? & [= <-] & Hle); [right; eauto|done].
  - intros a other Ha Hd. destruct (Hb other) as (? & ? & _); [right; eauto|done].
Qed.

(** Equal frames are cut into as few groups as can be: the groups add up to all
    frames and lie between two counts one laminator takes, no division into counts a
    laminator takes has fewer groups, and there is no answer only when there is no division. *)
Theorem frame_strips_are_fewest width frames laminators :
  0 < frames →
  match best_frame_groups width frames laminators with
  | Some groups =>
      foldr Z.add 0 groups = frames ∧
      (∃ a lo hi, a ∈ laminators ∧ 1 ≤ lo ∧ frame_fits width frames a lo = true ∧
         frame_fits width frames a hi = true ∧ ∀ n, n ∈ groups → lo ≤ n ≤ hi) ∧
      ∀ a other, a ∈ laminators → frame_division (frame_fits width frames a) frames other →
        (length groups ≤ length other)%nat
  | None => ∀ a other, a ∈ laminators → ¬ frame_division (frame_fits width frames a) frames other
  end.
Proof.
  intros Hpos. unfold best_frame_groups.
  pose proof (fold_fewest (λ a, frame_groups_for (frame_fits width frames a) frames) laminators) as Hf.
  cbn beta in Hf.
  destruct (foldl _ None laminators) as [groups|].
  - destruct Hf as [(a & Ha & Hg) Hmin].
    pose proof (frame_groups_for_spec (frame_fits width frames a) frames Hpos) as Hspec. rewrite Hg in Hspec.
    destruct Hspec as (Hsum & (lo & hi & Hin) & _). split_and!; [done|exists a, lo, hi; by split|].
    intros b other Hb Hd.
    pose proof (frame_groups_for_spec (frame_fits width frames b) frames Hpos) as Hother.
    destruct (frame_groups_for (frame_fits width frames b) frames) as [gb|] eqn:Eb.
    + destruct Hother as (_ & _ & Hfew). specialize (Hmin b gb Hb Eb). specialize (Hfew other Hd). lia.
    + by destruct (Hother other Hd).
  - intros a other Ha Hd. pose proof (frame_groups_for_spec (frame_fits width frames a) frames Hpos) as Hspec.
    rewrite (Hf a Ha) in Hspec. by apply (Hspec other).
Qed.

(** C31: The widths at an occurrence are exactly those found on the ways that
    lead to it, each followed back to the nearest cut or to where it begins; the
    full width stands when no way settles a width. *)
Theorem stage_widths_are_exact map node_id cut_ids width w :
  map_width_mm map = Some width →
  w ∈ stage_input_widths map node_id cut_ids ↔
  (∃ id, upstream map cut_ids width node_id id ∧ w ∈ (visit_width map cut_ids width id).1) ∨
  (w = width ∧ ∀ id, upstream map cut_ids width node_id id → (visit_width map cut_ids width id).1 = []).
Proof.
  intros Hw. unfold stage_input_widths. rewrite Hw.
  destruct (width_loop_spec map cut_ids width (width_fuel map) (rev (edges_into map node_id)) ∅ [])
    as (visited & -> & Htodo & Hclosed & Hmin).
  { rewrite length_rev. unfold edges_into, edges_left, width_fuel. rewrite length_fmap.
    transitivity (length (map_edges map) + length (map_edges map))%nat; [|lia].
    apply Nat.add_le_mono; apply List.filter_length_le. }
  assert (∀ id, id ∈ visited ↔ upstream map cut_ids width node_id id) as Hv.
  { intros id. split.
    - apply (Hmin (upstream map cut_ids width node_id)); [|by eapply upstream_onward].
      intros x Hx. apply upstream_edge. by rewrite list_elem_of_In, in_rev, <-list_elem_of_In.
    - induction 1 as [id Hid|id prev _ IH Hp].
      + destruct (Htodo id); [|set_solver|done]. by rewrite list_elem_of_In, <-in_rev, <-list_elem_of_In.
      + destruct (Hclosed id prev IH Hp); [set_solver|done]. }
  cbn [app]. set (found := id ← visited; _). 
  assert (w ∈ found ↔ ∃ id, upstream map cut_ids width node_id id ∧ w ∈ (visit_width map cut_ids width id).1) as Hf.
  { unfold found. rewrite list_elem_of_bind. setoid_rewrite Hv. naive_solver. }
  assert (found = [] ↔ ∀ id, upstream map cut_ids width node_id id → (visit_width map cut_ids width id).1 = []) as He.
  { setoid_rewrite <-Hv. unfold found. split.
    - intros E id Hid. apply elem_of_nil_inv. intros x Hx.
      assert (x ∈ (id ← visited; (visit_width map cut_ids width id).1)) as Hin
        by (apply list_elem_of_bind; eauto). rewrite E in Hin. set_solver.
    - intros E. apply elem_of_nil_inv. intros x (id & Hx & Hid)%list_elem_of_bind.
      rewrite (E id Hid) in Hx. set_solver. }
  destruct found as [|x rest] eqn:Ef.
  - rewrite <-He, list_elem_of_singleton. rewrite <-Hf. set_solver.
  - rewrite <-He, Hf. naive_solver.
Qed.
