(* ===== verification/Transfer.v ===== *)
(** Moving a started order to another machine.

    Models [src/core/production_map/transfer/service.rs] (the request), [transfer/printing.rs]
    (the occurrence that takes over a printing order) and [memory_store/transfers.rs] (the
    commit).  A request plans a write from the store it reads and commits it against the store
    of that moment, since other servers write in between.  The status detail of the answer is a
    read model and is left out, and so are the fields of the write that only the PostgreSQL
    store reads. *)
From Stdlib Require Import Ascii.
From S2P Require Import Prelude RustStr F64 Json Errors Identity QueueState OrderLayout MapDefinition Formula Compiler Bfs Chain Projection SequenceMove Scheduler Progress WipRoute Lifecycle StageExecution OrderRefresh OrderStore Visibility Preflight Epc CutLayout Paddon Metrics Lineage RunStore Warehouse QueueCommit Materials Ids OpeningWip Pechat.

#[global] Instance ProductionMapNode_rebuild : Rebuild ProductionMapNode := λ n, {|
  node_id := node_id n; node_kind := node_kind n; node_title := node_title n;
  node_apparatus_id := node_apparatus_id n; node_formula := node_formula n;
  node_role_code := node_role_code n; node_item_code := node_item_code n;
  node_qty_formula := node_qty_formula n; node_from_location := node_from_location n;
  node_to_location := node_to_location n; alternative_group_id := alternative_group_id n;
  alternative_group_label := alternative_group_label n;
  alternative_assigned_title := alternative_assigned_title n;
  alternative_assigned_apparatus_id := alternative_assigned_apparatus_id n;
  rezka_kadr_count := rezka_kadr_count n; rezka_frame_groups := rezka_frame_groups n;
  rezka_label_length := rezka_label_length n; node_x := node_x n; node_y := node_y n |}.

Definition with_graph (map : ProductionMapDefinition) (nodes : list ProductionMapNode)
    (edges : list ProductionMapEdge) : ProductionMapDefinition := {|
  map_combo := map_combo map; map_products := map_products map; map_id := map_id map;
  map_product_code := map_product_code map; map_title := map_title map; map_code := map_code map;
  map_order_number := map_order_number map; map_customer_name := map_customer_name map;
  map_image_id := map_image_id map; map_roll_count := map_roll_count map;
  map_width_mm := map_width_mm map; map_print_val_size_mm := map_print_val_size_mm map;
  map_order_kg := map_order_kg map; map_base_length := map_base_length map;
  map_duplicate_rezka_labels := map_duplicate_rezka_labels map;
  map_include_bobina_in_net := map_include_bobina_in_net map;
  map_standard_print_side := map_standard_print_side map; map_nodes := nodes; map_edges := edges |}.
Definition with_nodes (map : ProductionMapDefinition) (nodes : list ProductionMapNode)
  : ProductionMapDefinition := with_graph map nodes (map_edges map).

(** * Machines of a map (service.rs) *)

Definition canonical_transfer_id (value : string) : option string :=
  match ApparatusId_new (trim value) with Ok id => Some (apparatus_id_str id) | Err _ => None end.

Definition transfer_ids_match (a b : string) : bool :=
  match canonical_transfer_id a, canonical_transfer_id b with
  | Some a, Some b => a =s b
  | _, _ => false
  end.

Definition effective_transfer_apparatus_id (node : ProductionMapNode) : string :=
  let assigned := trim (alternative_assigned_apparatus_id node) in
  if is_empty assigned then trim (node_apparatus_id node) else assigned.

Definition is_machine (node : ProductionMapNode) : bool := bool_decide (node_kind node = NodeKind.Apparatus).
Definition runs_for (id : string) (node : ProductionMapNode) : bool :=
  is_machine node && (effective_transfer_apparatus_id node =s id).
Definition group_of (node : ProductionMapNode) : string := trim (alternative_group_id node).

Definition transfer_move_allowed_by_id (map : ProductionMapDefinition) (from_id to_id : string) : bool :=
  match canonical_transfer_id from_id, canonical_transfer_id to_id with
  | Some from_id, Some to_id =>
      if from_id =s to_id then false
      else match List.filter (runs_for from_id) (map_nodes map) with
      | [] => false
      | source_nodes =>
          match List.filter (λ g, negb (is_empty g)) (group_of <$> source_nodes) with
          | [] => true
          | source_groups =>
              existsb (λ node, bool_decide (group_of node ∈ source_groups) && runs_for to_id node) (map_nodes map)
          end
      end
  | _, _ => false
  end.

Definition assign_alternative (to_id target_display : string) (node : ProductionMapNode) : ProductionMapNode :=
  node <| alternative_assigned_apparatus_id := to_id |> <| alternative_assigned_title := target_display |>.

(** [None] when the map has no such alternatives. *)
Definition reassign_alternative_apparatus_assignment_by_id (from_id to_id target_display : string)
    (map : ProductionMapDefinition) : option ProductionMapDefinition :=
  let groups := group_of <$> List.filter (λ n, runs_for from_id n && negb (is_empty (group_of n))) (map_nodes map) in
  let in_groups n := is_machine n && bool_decide (group_of n ∈ groups) in
  if (match groups with [] => true | _ => false end) ||
     negb (existsb (λ n, in_groups n && (trim (node_apparatus_id n) =s to_id)) (map_nodes map))
  then None
  else Some (with_nodes map ((λ n, if in_groups n then assign_alternative to_id target_display n else n)
                               <$> map_nodes map)).

Definition reassign_apparatus_nodes_by_id (from_id to_id target_display : string)
    (map : ProductionMapDefinition) : option ProductionMapDefinition :=
  let moved n := runs_for from_id n && is_empty (group_of n) in
  if existsb moved (map_nodes map)
  then Some (with_nodes map ((λ n, if moved n
               then n <| node_apparatus_id := to_id |> <| node_title := target_display |> else n) <$> map_nodes map))
  else None.

(** * The occurrence that takes over (printing.rs) *)

(** The first of [base], [base_1], [base_2], ... that is not taken. *)
Fixpoint fresh_name (taken : string → bool) (base : string) (fuel suffix : nat) (name : string) : string :=
  match fuel with
  | O => name
  | S fuel =>
      if taken name
      then fresh_name taken base fuel (S suffix) (base +:+ "_" +:+ Z_to_string (Z.of_nat suffix))
      else name
  end.

(** One more try than there are nodes. *)
Definition fresh_for (map : ProductionMapDefinition) (text : ProductionMapNode → string) (base : string) : string :=
  fresh_name (λ name, existsb (λ n, text n =s name) (map_nodes map)) base (S (length (map_nodes map))) 1 base.

(** The alternatives of the source: its group, or a new one. *)
Definition transfer_group (map : ProductionMapDefinition) (source : ProductionMapNode) (from : string)
  : pm_result string :=
  let existing_group := group_of source in
  if is_empty existing_group
  then Ok (fresh_for map alternative_group_id ("print_transfer_" +:+ node_id source))
  else
    _ ← check (existsb (λ n, (alternative_group_id n =s existing_group) &&
          negb (blank (alternative_assigned_apparatus_id n)) &&
          (trim (alternative_assigned_apparatus_id n) <>s from)) (map_nodes map)) MoveNotAllowed;
    Ok existing_group.

(** The edges of a node, for its copy [id]. *)
Definition copied_edge (source id : string) (edge : ProductionMapEdge) : option ProductionMapEdge :=
  if edge_from edge =s source
  then Some {| edge_from := id; edge_to := edge_to edge; edge_branch := edge_branch edge |}
  else if edge_to edge =s source
  then Some {| edge_from := edge_from edge; edge_to := id; edge_branch := edge_branch edge |}
  else None.

Definition copied_node (source : ProductionMapNode) (id to display group : string) : ProductionMapNode :=
  source <| node_id := id |> <| node_apparatus_id := to |> <| node_title := display |>
         <| alternative_group_id := group |> <| node_x := f64_add (node_x source) (f64_of_Z 180) |>.

(** The alternative on the target machine, made from the source when there is none. *)
Definition transfer_target (map : ProductionMapDefinition) (source : ProductionMapNode)
    (group to display : string) : pm_result (ProductionMapDefinition * string) :=
  match List.find (λ n, is_machine n && (alternative_group_id n =s group) && (trim (node_apparatus_id n) =s to))
          (map_nodes map) with
  | Some n => Ok (map, node_id n)
  | None =>
      _ ← check (negb (is_empty (group_of source)) && negb (starts_with (group_of source) "print_transfer_"))
            MoveNotAllowed;
      let id := fresh_for map node_id (node_id source +:+ "_transfer") in
      Ok (with_graph map (map_nodes map ++ [copied_node source id to display group])
            (map_edges map ++ omap (copied_edge (node_id source) id) (map_edges map)), id)
  end.

(** The node the session works at, on its machine. *)
Definition transfer_source (map : ProductionMapDefinition) (stage_node_id from : string) : pm_result nat :=
  match List.filter (λ stage, bool_decide (stage_apparatus_id stage = Some from) &&
          (blank stage_node_id || stage_node_ids_match_for_map map (Chain.stage_node_id stage) stage_node_id))
          (linear_work_stages map) with
  | [stage] => ok_or (position (λ n, node_id n =s Chain.stage_node_id stage) (map_nodes map)) MoveNotAllowed
  | _ => Err MoveNotAllowed
  end.

Definition take_over (index : nat) (group to display : string) (nodes : list ProductionMapNode)
  : list ProductionMapNode :=
  (λ n, if alternative_group_id n =s group then assign_alternative to display n else n) <$>
    alter (λ n, n <| alternative_group_id := group |>) index nodes.

Definition select_target `{UnicodeTables} (map : ProductionMapDefinition) (stage_node_id from to display : string)
  : run_result (ProductionMapDefinition * string) :=
  index ← lift (transfer_source map stage_node_id from);
  source ← expect (map_nodes map !! index);
  group ← lift (transfer_group map source from);
  '(map, target) ← lift (transfer_target map source group to display);
  let map := with_nodes map (take_over index group to display (map_nodes map)) in
  _ ← compile_map map;
  Ok (map, target).

Section transfer.
Context `{J : Json} `{C : !RouteCodec} `{R : !ReportCodec} `{!Serde (list OrderLane)}.
Context `{!Serde (list OrderRunInputLink)} `{!Serde (list RezkaActivePartialRoll)}.
Context `{!Serde (list ProgressBatchInputLink)} `{!Serde ProductionQrSessionResources}.
Context `{!Serde QueueActionActor} `{!Serde WipInputRoute} `{UnicodeTables} `{UnicodeCase}.
Context (resolver : ApparatusId → pm_result (option RuntimeApparatusConfiguration)).

#[global] Instance RunSession_rebuild : Rebuild RunSession := λ s, {|
  run_session := run_session s; session_payload_json := session_payload_json s |}.

(** * Data (catalog/definition.rs, queue/types.rs, store_port.rs) *)

Record ProductionMapApparatusTransferRequest := {
  tr_order_id : string;
  tr_from_apparatus : string;
  tr_to_apparatus : string;
  tr_reason : string;
  tr_idempotency_key : string;
}.

Record ProductionMapApparatusTransferRecord := {
  tx_transfer_id : string;
  tx_idempotency_key : string;
  tx_order_id : string;
  tx_from_apparatus : string;
  tx_to_apparatus : string;
  tx_reason : string;
  tx_actor : QueueActionActor;
  tx_session_id : string;
  tx_progress_batch_id : string;
  tx_queue_state : OrderState.t;
  tx_material_barcodes : list string;
  tx_map : ProductionMapDefinition;
  tx_session : RunSession;
  tx_progress_batch : option OrderProgressBatch;
  tx_progress_batch_updates : list OrderProgressBatch;
  tx_preserves_output_history : bool;
  tx_created_at_unix : Z;
}.

Record ProductionMapApparatusTransferWrite := {
  tw_record : ProductionMapApparatusTransferRecord;
  tw_expected_map : option ProductionMapDefinition;
  tw_expected_session : option RunSession;
  tw_expected_input_batches : list OrderProgressBatch;
  tw_opening_wip_batch_updates : list OpeningWipBatch;
  tw_updated_map : ProductionMapDefinition;
  tw_from_sequence : list string;
  tw_to_sequence : list string;
  tw_from_states : gmap string string;
  tw_to_states : gmap string string;
  tw_target_apparatus_id : string;
  tw_session : RunSession;
  tw_progress_batch : option OrderProgressBatch;
  tw_progress_batch_updates : list OrderProgressBatch;
  tw_raw_material_assignments : list RawMaterialAssignment;
}.

(** The store with its receipts of transfers. *)
Record transfer_store := {
  tf_materials :> material_store;
  tf_transfers : gmap string ProductionMapApparatusTransferRecord;
}.
#[global] Instance transfer_store_rebuild : Rebuild transfer_store := λ s, {|
  tf_materials := tf_materials s; tf_transfers := tf_transfers s |}.

(** * The commit (memory_store/transfers.rs) *)

Definition apparatus_transfer_by_idempotency_key (key : string) (s : transfer_store)
  : option ProductionMapApparatusTransferRecord := tf_transfers s !! trim key.

Definition transfer_record_matches_identity (existing requested : ProductionMapApparatusTransferRecord) : bool :=
  (trim (tx_order_id existing) =s trim (tx_order_id requested)) &&
  (trim (tx_from_apparatus existing) =s trim (tx_from_apparatus requested)) &&
  (trim (tx_to_apparatus existing) =s trim (tx_to_apparatus requested)).

(** The control of the whole order. *)
Definition check_order_control (order_id : string) (s : order_store) : pm_result unit :=
  match List.find (λ c, eq_ignore_ascii_case (trim (control_order_id c)) order_id)
          (btree_values (st_order_controls s)) with
  | Some control =>
      match control_state control with
      | OrderControl.Active => Ok tt
      | OrderControl.FreezeRequested => Err OrderFreezeRequested
      | OrderControl.Frozen => Err OrderFrozen
      end
  | None => Ok tt
  end.

Definition stored_state (apparatus order_id : string) (s : order_store) : option string :=
  trim <$> (st_queue_states s !! apparatus ≫= λ states, states !! order_id).

(** The order waits at its source and is unknown at its target. *)
Definition check_transfer_queues (from to order_id : string) (s : order_store) : pm_result unit :=
  _ ← match stored_state from order_id s with
      | Some state =>
          if (state =s "paused") || (state =s "pending") then Ok tt
          else if state =s "frozen" then Err OrderFrozen
          else if state =s "completed" then Err OrderAlreadyCompleted
          else Err ApparatusTransferOrderNotPaused
      | None => Err ApparatusTransferOrderNotPaused
      end;
  _ ← check (is_some (st_queue_states s !! to ≫= λ states, states !! order_id)) ApparatusTransferTargetConflict;
  session ← active_order_run_session to order_id s;
  check (is_some session) ApparatusTransferTargetConflict.

(** The session is the one the write moves. *)
Definition check_transfer_session (write : ProductionMapApparatusTransferWrite) (from order_id : string)
    (s : order_store) : pm_result RunSession :=
  let record := tw_record write in
  let state := stored_state from order_id s in
  current ← ok_or (st_order_run_sessions s !! trim (tx_session_id record)) ApparatusTransferSessionNotFound;
  _ ← check ((trim (session_order_id current) <>s order_id) ||
             negb (apparatus_ids_match (session_apparatus current) from) ||
             negb (bool_decide (session_status current = RunStatus.Paused) ||
                   (tx_preserves_output_history record &&
                    bool_decide (session_status current = RunStatus.RollDetached))))
        ApparatusTransferSessionMismatch;
  _ ← check ((bool_decide (state = Some "pending") && negb (is_requeued_at_tail current)) ||
             negb (bool_decide (state = Some (OrderState.as_str (tx_queue_state record)))))
        ApparatusTransferOrderNotPaused;
  _ ← check (is_some_and (tw_expected_session write) (λ e, negb (session_eqb e current)))
        ApparatusTransferSessionMismatch;
  _ ← check (is_some_and (tw_expected_map write)
               (λ e, negb (is_some_and (st_maps s !! order_id) (λ map, map_eqb map e)))) WipRouteChanged;
  Ok current.

(** A printing order keeps its output; another order takes its paused roll along. *)
Definition check_transfer_output (write : ProductionMapApparatusTransferWrite) (from order_id : string)
    (current : RunSession) (s : order_store) : run_result unit :=
  let record := tw_record write in
  if tx_preserves_output_history record then
    _ ← lift (check (negb (is_print_transfer_continuation (tw_session write)) || is_some (tw_progress_batch write) ||
                     negb (is_empty (tx_progress_batch_id record))) ApparatusTransferProgressMismatch);
    expected ← lift (ok_or (tw_expected_map write) WipRouteChanged);
    validate_map_wip_routes expected (tw_updated_map write)
      (List.filter (λ b, trim (batch_order_id b) =s order_id) (batches s))
  else match tw_progress_batch write with
  | Some batch =>
      current_batch ← lift (ok_or (st_order_progress_batches s !! trim (tx_progress_batch_id record))
                              ApparatusTransferProgressNotFound);
      lift (check ((trim (batch_order_id current_batch) <>s order_id) ||
                   (trim (batch_session_id current_batch) <>s trim (tx_session_id record)) ||
                   negb (apparatus_ids_match (batch_apparatus current_batch) from) ||
                   negb (bool_decide (batch_action current_batch = Action.Pause)) ||
                   negb (bool_decide (batch_status current_batch = BatchStatus.Paused)) ||
                   (batch_id batch <>s batch_id current_batch)) ApparatusTransferProgressMismatch)
  | None =>
      lift (check (negb (bool_decide (stored_state from order_id s = Some "pending")) ||
                   negb (is_requeued_at_tail current) || negb (is_empty (tx_progress_batch_id record)) ||
                   existsb (λ b, (batch_session_id b =s session_id current) && (batch_apparatus b =s from) &&
                     bool_decide (batch_action b = Action.Pause) &&
                     bool_decide (batch_status b = BatchStatus.Paused)) (batches s))
              ApparatusTransferProgressMismatch)
  end.

Definition check_batch_update (write : ProductionMapApparatusTransferWrite) (from order_id : string)
    (s : order_store) (update : OrderProgressBatch) : pm_result unit :=
  current ← ok_or (st_order_progress_batches s !! trim (batch_id update)) ApparatusTransferProgressMismatch;
  _ ← check (trim (batch_order_id current) <>s order_id) ApparatusTransferProgressMismatch;
  check (tx_preserves_output_history (tw_record write) &&
         (negb (existsb (λ b, batch_eqb b current) (tw_expected_input_batches write)) ||
          negb (WipStatus.eqb (batch_wip_status current) WipStatus.InUse) ||
          (batch_used_by_session_id current <>s session_id (tw_session write)) ||
          (batch_used_by_apparatus current <>s from))) WipRouteChanged.

Definition opening_rolls (s : order_store) : list OpeningWipBatch :=
  concat (record_batches <$> btree_values (st_opening_wip_records s)).

Definition check_opening_update (write : ProductionMapApparatusTransferWrite) (from : string)
    (s : order_store) (update : OpeningWipBatch) : pm_result unit :=
  current ← ok_or (List.find (λ b, opening_batch_id b =s opening_batch_id update) (opening_rolls s))
              ProgressBatchNotResumable;
  check (negb (bool_decide (opening_wip_status current = OpeningStatus.InUse)) ||
         (opening_used_by_session_id current <>s session_id (tw_session write)) ||
         (opening_used_by_apparatus current <>s from)) ProgressBatchNotResumable.

Definition check_assignment_update (from_apparatus_id : ApparatusId) (order_id : string)
    (s : material_store) (assignment : RawMaterialAssignment) : pm_result unit :=
  current ← ok_or (ms_assignments s !! normalize_barcode (asg_barcode assignment)) RawMaterialAssignmentNotFound;
  check ((trim (asg_order_id current) <>s order_id) ||
         negb (same_apparatus_id (asg_apparatus_id current) from_apparatus_id)) RawMaterialAssignmentNotFound.

(** No other unfinished session has a mould of the moved one. *)
Definition check_transfer_moulds (session : RunSession) (s : order_store) : pm_result unit :=
  check (existsb (λ other : RunSession,
           (session_id other <>s session_id session) && OrderRunStatus.is_open (session_status other) &&
           existsb (λ code, existsb (λ existing, eq_ignore_ascii_case existing code) (session_qolip_codes other))
             (session_qolip_codes session)) (sessions s)) QolipAlreadyInUse.

(** The identifiers of the machines: where from, where to. *)
Definition transfer_apparatuses (write : ProductionMapApparatusTransferWrite)
  : pm_result (ApparatusId * ApparatusId) :=
  let parse text := match ApparatusId_new text with Ok id => Ok id | Err _ => Err MoveNotAllowed end in
  from_id ← parse (trim (tx_from_apparatus (tw_record write)));
  to_id ← parse (trim (tw_target_apparatus_id write));
  _ ← check (apparatus_id_str to_id <>s trim (tx_to_apparatus (tw_record write))) MoveNotAllowed;
  Ok (from_id, to_id).

Definition check_transfer (write : ProductionMapApparatusTransferWrite) (s : transfer_store)
  : run_result (ApparatusId * ApparatusId) :=
  let record := tw_record write in
  let order_id := trim (tx_order_id record) in
  let from := trim (tx_from_apparatus record) in
  ids ← lift (transfer_apparatuses write);
  _ ← lift (check_transfer_queues from (trim (tx_to_apparatus record)) order_id s);
  _ ← lift (check_order_control order_id s);
  current ← lift (check_transfer_session write from order_id s);
  _ ← check_transfer_output write from order_id current s;
  _ ← lift (for_each (λ u _, check_batch_update write from order_id s u) (tw_progress_batch_updates write) tt);
  _ ← lift (for_each (λ u _, check_opening_update write from s u) (tw_opening_wip_batch_updates write) tt);
  _ ← lift (for_each (λ a _, check_assignment_update ids.1 order_id s a) (tw_raw_material_assignments write) tt);
  _ ← lift (check (is_none (st_maps s !! order_id)) MapNotFound);
  _ ← lift (check_transfer_moulds (tw_session write) s);
  Ok ids.

Definition reservation_on (to_id : ApparatusId) (to : string) (actor : QueueActionActor)
    (r : ApparatusScheduleReservation) : ApparatusScheduleReservation := {|
  reservation_id := reservation_id r; reservation_idempotency_key := reservation_idempotency_key r;
  reservation_order_id := reservation_order_id r; reservation_apparatus_id := to_id;
  reservation_apparatus := to; reservation_starts_at_unix := reservation_starts_at_unix r;
  reservation_ends_at_unix := reservation_ends_at_unix r;
  requested_duration_minutes := requested_duration_minutes r;
  reserved_duration_minutes := reserved_duration_minutes r; reservation_status := reservation_status r;
  reservation_priority := reservation_priority r; reservation_source := reservation_source r;
  reservation_reason := reservation_reason r; reservation_requirements := reservation_requirements r;
  reservation_actor := actor; reservation_created_at_unix := reservation_created_at_unix r |}.

(** The paused booking of the order goes to the target. *)
Definition move_reservation (order_id to : string) (from_id to_id : ApparatusId) (actor : QueueActionActor)
    (table : reservation_table) : reservation_table :=
  match List.find (λ entry : string * ApparatusScheduleReservation,
          (trim (reservation_order_id entry.2) =s order_id) &&
          bool_decide (reservation_status entry.2 = ScheduleStatus.Paused) &&
          same_apparatus_id (reservation_apparatus_id entry.2) from_id) (btree_entries table) with
  | Some (key, r) => <[key := reservation_on to_id to actor r]> table
  | None => table
  end.

(** All rolls of the identifier, in whatever intake. *)
Definition replace_opening_roll (records : gmap string OpeningWipRecord) (update : OpeningWipBatch)
  : gmap string OpeningWipRecord :=
  (λ record, {| record_intake := record_intake record;
                record_batches := (λ b, if opening_batch_id b =s opening_batch_id update then update else b)
                                    <$> record_batches record |}) <$> records.

Definition insert_roll (rolls : gmap string OrderProgressBatch) (b : OrderProgressBatch)
  : gmap string OrderProgressBatch := <[trim (batch_id b) := b]> rolls.

Definition insert_assignment (table : gmap string RawMaterialAssignment) (a : RawMaterialAssignment)
  : gmap string RawMaterialAssignment := <[normalize_barcode (asg_barcode a) := a]> table.

Definition write_orders (write : ProductionMapApparatusTransferWrite) (s : order_store) : order_store :=
  let record := tw_record write in
  let order_id := trim (tx_order_id record) in
  s <| st_maps := <[order_id := tw_updated_map write]> (st_maps s) |>
    <| st_opening_wip_records :=
         foldl replace_opening_roll (st_opening_wip_records s) (tw_opening_wip_batch_updates write) |>
    <| st_queue_states := <[trim (tx_to_apparatus record) := tw_to_states write]>
         (<[trim (tx_from_apparatus record) := tw_from_states write]> (st_queue_states s)) |>
    <| st_order_run_sessions :=
         <[trim (session_id (tw_session write)) := tw_session write]> (st_order_run_sessions s) |>
    <| st_order_progress_batches :=
         foldl insert_roll (st_order_progress_batches s)
           (option_list (tw_progress_batch write) ++ tw_progress_batch_updates write) |>.

Definition write_transfer (write : ProductionMapApparatusTransferWrite) (ids : ApparatusId * ApparatusId)
    (s : transfer_store) : transfer_store :=
  let record := tw_record write in
  let to := trim (tx_to_apparatus record) in
  let tables := (ts_tables s)
    <| os_orders := write_orders write (os_orders s) |>
    <| os_sequences := <[to := tw_to_sequence write]>
         (<[trim (tx_from_apparatus record) := tw_from_sequence write]> (os_sequences s)) |> in
  let runs := (with_tables tables s)
    <| rs_reservations :=
         move_reservation (trim (tx_order_id record)) to ids.1 ids.2 (tx_actor record) (rs_reservations s) |> in
  s <| tf_materials := {| ms_runs := runs;
         ms_assignments := foldl insert_assignment (ms_assignments s) (tw_raw_material_assignments write) |} |>
    <| tf_transfers := <[trim (tx_idempotency_key record) := record]> (tf_transfers s) |>.

(** Bring the life cycle of the order up to date. *)
Definition refresh_transferred (order_id : string) (s : transfer_store) : transfer_store * run_result unit :=
  let '(runs, r) := on_orders (refresh_production_order_lifecycles [order_id]) (ms_runs s) in
  (s <| tf_materials := (tf_materials s) <| ms_runs := runs |> |>, r).

Definition commit_apparatus_transfer (write : ProductionMapApparatusTransferWrite) (s : transfer_store)
  : transfer_store * run_result ProductionMapApparatusTransferRecord :=
  let record := tw_record write in
  match tf_transfers s !! trim (tx_idempotency_key record) with
  | Some existing =>
      (s, if transfer_record_matches_identity existing record then Ok existing
          else Err (Fail ApparatusTransferIdempotencyConflict))
  | None =>
      match check_transfer write s with
      | Err e => (s, Err e)
      | Ok ids =>
          let '(s, r) := refresh_transferred (trim (tx_order_id record)) (write_transfer write ids s) in
          (s, _ ← r; Ok record)
      end
  end.

(** * The request (service.rs) *)

Definition transfer_record_matches_request (record : ProductionMapApparatusTransferRecord)
    (order_id from_id to_id : string) : bool :=
  (trim (tx_order_id record) =s order_id) && (trim (tx_from_apparatus record) =s from_id) &&
  (trim (tx_to_apparatus record) =s to_id).

(** The order of a [BTreeMap] over keys of three texts. *)
Definition control_before (a b : (string * string * string) * OrderControlRecord) : Prop :=
  let '((a1, a2, a3), _) := a in let '((b1, b2, b3), _) := b in
  (a1 ≠ b1 ∧ String.le a1 b1) ∨ (a1 = b1 ∧ ((a2 ≠ b2 ∧ String.le a2 b2) ∨ (a2 = b2 ∧ String.le a3 b3))).
#[global] Instance control_before_dec : RelDecision control_before.
Proof. intros [[[a1 a2] a3] ca] [[[b1 b2] b3] cb]. unfold control_before. apply _. Defined.

(** A held occurrence stays on its machine. *)
Definition check_stage_controls (order_id from_id : string) (s : order_store) : pm_result unit :=
  match List.find (λ c, (control_order_id c =s order_id) &&
          negb (bool_decide (control_state c = OrderControl.Active)) &&
          is_some_and (control_freeze_request c) (λ r, freeze_target_apparatus r =s from_id))
          (merge_sort control_before (map_to_list (st_stage_order_controls s))).*2 with
  | Some local => Err (if bool_decide (control_state local = OrderControl.Frozen) then OrderFrozen
                       else OrderFreezeRequested)
  | None => Ok tt
  end.

(** What is asked for, checked and in canonical form. *)
Record TransferRequest := {
  rq_order_id : string;
  rq_reason : string;
  rq_key : string;
  rq_from : ApparatusId;
  rq_to : ApparatusId;
}.
Abbreviation from_text rq := (apparatus_id_str (rq_from rq)).
Abbreviation to_text rq := (apparatus_id_str (rq_to rq)).

Definition normalize_transfer_request (input : ProductionMapApparatusTransferRequest) : pm_result TransferRequest :=
  let order_id := to_ascii_lowercase (trim (tr_order_id input)) in
  let parse text := match ApparatusId_new (trim text) with Ok id => Ok id | Err _ => Err MoveNotAllowed end in
  from ← parse (tr_from_apparatus input);
  to ← parse (tr_to_apparatus input);
  _ ← check (is_empty order_id || same_apparatus_id from to) MoveNotAllowed;
  _ ← check (blank (tr_reason input)) ApparatusTransferReasonRequired;
  let key := trim (tr_idempotency_key input) in
  _ ← check (is_empty key || (200 <? String.length key)) ApparatusTransferIdempotencyRequired;
  Ok {| rq_order_id := order_id; rq_reason := trim (tr_reason input); rq_key := key;
        rq_from := from; rq_to := to |}.

(** The state the order has at its source, and gets at its target. *)
Definition transferred_state (rq : TransferRequest) (s : order_store) : pm_result OrderState.t :=
  match st_queue_states s !! from_text rq ≫= λ states, states !! rq_order_id rq ≫= OrderState.parse with
  | Some OrderState.Paused => Ok OrderState.Paused
  | Some OrderState.Pending => Ok OrderState.Pending
  | Some OrderState.Frozen => Err OrderFrozen
  | Some OrderState.Completed => Err OrderAlreadyCompleted
  | _ => Err ApparatusTransferOrderNotPaused
  end.

(** The session that moves, and the state its order moves in. *)
Definition transferred_session (rq : TransferRequest) (preserve : bool) (s : order_store)
  : pm_result (OrderState.t * RunSession) :=
  state ← transferred_state rq s;
  _ ← check (is_some (st_queue_states s !! to_text rq ≫= λ states, states !! rq_order_id rq))
        ApparatusTransferTargetConflict;
  at_target ← active_order_run_session (to_text rq) (rq_order_id rq) s;
  _ ← check (is_some at_target) ApparatusTransferTargetConflict;
  found ← active_order_run_session (from_text rq) (rq_order_id rq) s;
  session ← ok_or found ApparatusTransferSessionNotFound;
  let session : RunSession := session in
  _ ← check (negb (bool_decide (session_status session = RunStatus.Paused) ||
                   (preserve && bool_decide (session_status session = RunStatus.RollDetached))) ||
             (trim (session_order_id session) <>s rq_order_id rq) ||
             (trim (session_apparatus session) <>s from_text rq)) ApparatusTransferSessionMismatch;
  _ ← check (bool_decide (state = OrderState.Pending) && negb (is_requeued_at_tail session))
        ApparatusTransferOrderNotPaused;
  Ok (state, session).

(** Whether the machines and the map allow the move: source and target. *)
Definition transfer_machines (rq : TransferRequest) (map : ProductionMapDefinition)
  : pm_result (RuntimeApparatusConfiguration * RuntimeApparatusConfiguration) :=
  source ← resolve_canonical_apparatus resolver (rq_from rq);
  target ← resolve_canonical_apparatus resolver (rq_to rq);
  _ ← check (negb (reroute_order_compatible source target (map_roll_count map) (print_compatibility_width_mm map)))
        MoveNotAllowed;
  _ ← check (negb (is_pechat_apparatus source) && negb (transfer_move_allowed_by_id map (from_text rq) (to_text rq)))
        MoveNotAllowed;
  Ok (source, target).

Definition transfer_payload (rq : TransferRequest) (display : string) (actor : QueueActionActor) (now : Z) : value :=
  json_object [("transfer_id", json_str ("apparatus-transfer:" +:+ rq_key rq));
    ("from_apparatus", json_str (from_text rq)); ("to_apparatus", json_str (to_text rq));
    ("to_apparatus_display", json_str display); ("reason", json_str (rq_reason rq));
    ("actor", to_value actor); ("created_at_unix", json_Z now)].

(** What the session records of the printing run that moved. *)
Definition continuation_fields (rq : TransferRequest) (session_id target_node : string)
    (target : RuntimeApparatusConfiguration) : list (string * value) :=
  [("_print_transfer", json_object [("session_id", json_str session_id); ("apparatus", json_str (to_text rq));
      ("stage_node_id", json_str target_node);
      ("transfer_id", json_str ("apparatus-transfer:" +:+ rq_key rq))]);
   ("print_transfer_setup_required", json_bool (requires_qolip_scan target));
   ("print_transfer_materials_required",
     json_bool (is_some_and (live_material_rule target) rule_requires_material))].

(** The session at the target; [target_node] for a printing order. *)
Definition moved_session (rq : TransferRequest) (session : RunSession) (target_node : option string)
    (target : RuntimeApparatusConfiguration) (transfer : value) (now : Z) : run_result RunSession :=
  let s := run_session session in
  payload ← put_field (ensure_payload_object (session_payload_json session)) ("last_apparatus_transfer", transfer);
  payload ← match target_node with
    | Some node =>
        payload ← put_fields (continuation_fields rq (session_id s) node target) payload;
        Ok (json_remove "_resume_pause" payload)
    | None => Ok payload
    end;
  Ok {| run_session := {| session_id := session_id s; session_apparatus := to_text rq;
          session_order_id := session_order_id s;
          session_stage_node_id := default (session_stage_node_id s) target_node;
          session_status := match target_node with Some _ => RunStatus.Paused | None => session_status s end;
          session_worker_role := session_worker_role s; session_worker_ref := session_worker_ref s;
          session_worker_display_name := session_worker_display_name s;
          session_started_at_unix := session_started_at_unix s; session_updated_at_unix := now |};
        session_payload_json := payload |}.

(** The paused roll at the target. *)
Definition moved_batch (rq : TransferRequest) (display : string) (transfer : value) (batch : OrderProgressBatch)
  : run_result OrderProgressBatch :=
  let batch := batch <| batch_apparatus := to_text rq |> <| batch_current_apparatus := to_text rq |>
    <| batch_current_location := if is_empty display then "" else display +:+ " chiqim" |> in
  let batch := if transfer_ids_match (batch_used_by_apparatus batch) (from_text rq)
    then batch <| batch_used_by_apparatus := to_text rq |> else batch in
  let batch := if transfer_ids_match (batch_processed_by_apparatus batch) (from_text rq)
    then batch <| batch_processed_by_apparatus := to_text rq |> else batch in
  payload ← put_field (ensure_payload_object (batch_payload_json batch)) ("last_apparatus_transfer", transfer);
  Ok (refresh_status_detail (batch <| batch_payload_json := payload |>)).

(** The rolls the session has mounted, bound to the occurrence that takes over. *)
Definition moved_input (rq : TransferRequest) (map : ProductionMapDefinition) (target_node display : string)
    (input : OrderProgressBatch) (moved : list (OrderProgressBatch * OrderProgressBatch))
  : run_result (list (OrderProgressBatch * OrderProgressBatch)) :=
  _ ← lift (check (batch_used_by_apparatus input <>s from_text rq) ProgressBatchNotResumable);
  route ← lift (resolve_wip_input_route map input);
  _ ← lift (check (negb (stage_node_ids_match_for_map map (route_stage_node_id route) target_node)) WipRouteChanged);
  let route := {| route_source_stage_node_id := route_source_stage_node_id route;
    route_stage_node_id := target_node; route_consumer_apparatus_ids := route_consumer_apparatus_ids route;
    route_map_fingerprint := route_map_fingerprint route; route_remapped := route_remapped route |} in
  payload ← put_field (batch_payload_json input) ("wip_route_binding", to_value route);
  let update := refresh_status_detail (input <| batch_payload_json := payload |>
    <| batch_used_by_apparatus := to_text rq |> <| batch_current_apparatus := to_text rq |>
    <| batch_current_location := display +:+ " kirim" |>) in
  _ ← lift (resolve_wip_input_route map update);
  Ok (moved ++ [(input, update)]).

Definition moved_opening_roll (rq : TransferRequest) (now : Z) (b : OpeningWipBatch) (moved : list OpeningWipBatch)
  : pm_result (list OpeningWipBatch) :=
  _ ← check (opening_used_by_apparatus b <>s from_text rq) ProgressBatchNotResumable;
  Ok (moved ++ [b <| opening_used_by_apparatus := to_text rq |> <| opening_updated_at_unix := now |>]).

(** The roll a moved roll was made of now goes to the target. *)
Definition moved_parent (rq : TransferRequest) (rolls : list OrderProgressBatch) (batch : OrderProgressBatch)
  : pm_result (list OrderProgressBatch) :=
  if blank (batch_parent_batch_id batch) then Ok []
  else
    parent ← ok_or (List.find (λ c, trim (batch_id c) =s trim (batch_parent_batch_id batch)) rolls)
               ApparatusTransferProgressMismatch;
    _ ← check (trim (batch_order_id parent) <>s rq_order_id rq) ApparatusTransferProgressMismatch;
    Ok [refresh_status_detail (parent <| batch_next_apparatus := to_text rq |>)].

Definition moved_map (rq : TransferRequest) (display : string) (map : ProductionMapDefinition)
  : pm_result ProductionMapDefinition :=
  match reassign_alternative_apparatus_assignment_by_id (from_text rq) (to_text rq) display map with
  | Some map => Ok map
  | None => ok_or (reassign_apparatus_nodes_by_id (from_text rq) (to_text rq) display map) MoveNotAllowed
  end.

Definition without_order (order_id : string) (sequence : list string) : list string :=
  List.filter (λ id, trim id <>s order_id) sequence.

(** The queue of the target: as stored, or as a printing machine shows it. *)
Definition target_queue (rq : TransferRequest) (preserve : bool) (target : RuntimeApparatusConfiguration)
    (to_states : gmap string string) (s : order_tables) : list string :=
  let stored := default [] (os_sequences s !! to_text rq) in
  if preserve then seq_order_ids (from_data target (btree_values (st_maps s)) stored to_states ∅ ∅) else stored.

(** The assignments of the order at the source, for the target. *)
Definition moved_assignments (rq : TransferRequest) (preserve : bool) (display : string) (s : material_store)
  : list RawMaterialAssignment :=
  let assignments := if preserve then raw_material_assignments_for_transfer (rq_order_id rq) (from_text rq) s
                     else raw_material_assignments s in
  (λ a, a <| asg_apparatus_id := rq_to rq |> <| asg_apparatus := display |>) <$>
    List.filter (λ a, (trim (asg_order_id a) =s rq_order_id rq) &&
                      (apparatus_id_str (asg_apparatus_id a) =s from_text rq)) assignments.

(** The paused roll of the session, where one must move along. *)
Definition paused_roll (rq : TransferRequest) (preserve : bool) (state : OrderState.t) (session : RunSession)
    (rolls : list OrderProgressBatch) : pm_result (option OrderProgressBatch) :=
  let paused := List.filter (λ b, (trim (batch_session_id b) =s trim (session_id session)) &&
    bool_decide (batch_action b = Action.Pause) && bool_decide (batch_status b = BatchStatus.Paused) &&
    (trim (batch_apparatus b) =s from_text rq)) rolls in
  _ ← check (negb preserve && ((1 <? length paused) ||
             ((length paused =? 0) && negb (bool_decide (state = OrderState.Pending)))))
        ApparatusTransferProgressMismatch;
  Ok (if preserve then None else head paused).

(** What a printing order moves besides its session: the map with the occurrence that takes
    over, the rolls in use with what they become, and the opening rolls in use. *)
Definition moved_inputs (rq : TransferRequest) (map : ProductionMapDefinition) (target_node display : string)
    (session : RunSession) (now : Z) (s : order_store)
  : run_result (list (OrderProgressBatch * OrderProgressBatch) * list OpeningWipBatch) :=
  inputs ← for_each (moved_input rq map target_node display)
    (List.filter (λ b, WipStatus.eqb (batch_wip_status b) WipStatus.InUse &&
       (batch_used_by_session_id b =s session_id session)) (progress_batches_for_order (rq_order_id rq) s)) [];
  opening ← lift (for_each (moved_opening_roll rq now)
    (List.filter (λ b, bool_decide (opening_wip_status b = OpeningStatus.InUse) &&
       (opening_used_by_session_id b =s session_id session))
       (concat (record_batches <$> opening_wip_records_for_orders [rq_order_id rq] s))) []);
  Ok (inputs, opening).

(** The parts of the write that depend on the kind of order: the map, the occurrence that
    takes over, the paused roll and its parent, the rolls in use and the opening rolls. *)
Record moved_parts := {
  mv_map : ProductionMapDefinition;
  mv_session : RunSession;
  mv_batch : option OrderProgressBatch;
  mv_updates : list OrderProgressBatch;
  mv_expected : list OrderProgressBatch;
  mv_opening : list OpeningWipBatch;
}.

Definition moved_printing (rq : TransferRequest) (map : ProductionMapDefinition)
    (target : RuntimeApparatusConfiguration) (session : RunSession) (transfer : value) (now : Z) (s : order_store)
  : run_result moved_parts :=
  let display := runtime_display_name target in
  '(map, node) ← select_target map (session_stage_node_id session) (from_text rq) (to_text rq) display;
  session ← moved_session rq session (Some node) target transfer now;
  '(inputs, opening) ← moved_inputs rq map node display session now s;
  Ok {| mv_map := map; mv_session := session; mv_batch := None; mv_updates := inputs.*2;
        mv_expected := inputs.*1; mv_opening := opening |}.

Definition moved_plain (rq : TransferRequest) (map : ProductionMapDefinition)
    (target : RuntimeApparatusConfiguration) (session : RunSession) (roll : option OrderProgressBatch)
    (transfer : value) (now : Z) (s : order_store) : run_result moved_parts :=
  let display := runtime_display_name target in
  session ← moved_session rq session None target transfer now;
  roll ← match roll with
         | Some roll => Some <$> moved_batch rq display transfer roll
         | None => Ok None
         end;
  parents ← lift (match roll with
                  | Some roll => moved_parent rq (progress_batches_for_order (rq_order_id rq) s) roll
                  | None => Ok []
                  end);
  map ← lift (moved_map rq display map);
  Ok {| mv_map := map; mv_session := session; mv_batch := roll; mv_updates := parents; mv_expected := [];
        mv_opening := [] |}.

Definition transfer_record (rq : TransferRequest) (actor : QueueActionActor) (state : OrderState.t)
    (preserve : bool) (parts : moved_parts) (assignments : list RawMaterialAssignment) (now : Z)
  : ProductionMapApparatusTransferRecord := {|
  tx_transfer_id := "apparatus-transfer:" +:+ rq_key rq; tx_idempotency_key := rq_key rq;
  tx_order_id := rq_order_id rq; tx_from_apparatus := from_text rq; tx_to_apparatus := to_text rq;
  tx_reason := rq_reason rq; tx_actor := actor; tx_session_id := session_id (mv_session parts);
  tx_progress_batch_id := default "" (batch_id <$> mv_batch parts); tx_queue_state := state;
  tx_material_barcodes := List.filter (λ b, negb (is_empty b)) ((λ a, trim (asg_barcode a)) <$> assignments);
  tx_map := mv_map parts; tx_session := mv_session parts; tx_progress_batch := mv_batch parts;
  tx_progress_batch_updates := mv_updates parts; tx_preserves_output_history := preserve;
  tx_created_at_unix := now |}.

(** What is written: the order leaves the queue of its source for the end of the queue of its
    target. *)
Definition transfer_write (rq : TransferRequest) (actor : QueueActionActor) (state : OrderState.t)
    (preserve : bool) (map : ProductionMapDefinition) (session : RunSession)
    (target : RuntimeApparatusConfiguration) (parts : moved_parts) (now : Z) (s : material_store)
  : ProductionMapApparatusTransferWrite :=
  let from_states := delete (rq_order_id rq) (default ∅ (st_queue_states s !! from_text rq)) in
  let to_states := <[rq_order_id rq := OrderState.as_str state]> (default ∅ (st_queue_states s !! to_text rq)) in
  let assignments := moved_assignments rq preserve (runtime_display_name target) s in
  {| tw_record := transfer_record rq actor state preserve parts assignments now;
     tw_expected_map := if preserve then Some map else None;
     tw_expected_session := if preserve then Some session else None;
     tw_expected_input_batches := mv_expected parts;
     tw_opening_wip_batch_updates := mv_opening parts;
     tw_updated_map := mv_map parts;
     tw_from_sequence := without_order (rq_order_id rq) (default [] (os_sequences (ts_tables s) !! from_text rq));
     tw_to_sequence := without_order (rq_order_id rq)
       (target_queue rq preserve target to_states (ts_tables s)) ++ [rq_order_id rq];
     tw_from_states := from_states; tw_to_states := to_states; tw_target_apparatus_id := to_text rq;
     tw_session := mv_session parts; tw_progress_batch := mv_batch parts;
     tw_progress_batch_updates := mv_updates parts; tw_raw_material_assignments := assignments |}.

(** The write of a request, from the store it reads. *)
Definition plan_transfer (rq : TransferRequest) (actor : QueueActionActor) (now : Z) (s : transfer_store)
  : run_result ProductionMapApparatusTransferWrite :=
  map ← lift (ok_or (List.find (λ m, trim (map_id m) =s rq_order_id rq) (btree_values (st_maps s))) MapNotFound);
  _ ← lift (check_order_control (rq_order_id rq) s);
  _ ← lift (check_stage_controls (rq_order_id rq) (from_text rq) s);
  '(source, target) ← lift (transfer_machines rq map);
  let preserve := is_pechat_apparatus source in
  '(state, session) ← lift (transferred_session rq preserve s);
  roll ← lift (paused_roll rq preserve state session (progress_batches_for_order (rq_order_id rq) s));
  let transfer := transfer_payload rq (runtime_display_name target) actor now in
  parts ← if preserve then moved_printing rq map target session transfer now s
          else moved_plain rq map target session roll transfer now s;
  Ok (transfer_write rq actor state preserve map session target parts now s).

(** The receipt and the program of its map. *)
Definition transfer_result (record : ProductionMapApparatusTransferRecord)
  : run_result (ProductionMapApparatusTransferRecord * ProductionMapProgram) :=
  program ← compile_map (tx_map record);
  Ok (record, program).

(** [transfer_apparatus_order]: [read] is the store it plans from, [s] the one it commits to. *)
Definition transfer_apparatus_order (input : ProductionMapApparatusTransferRequest) (actor : QueueActionActor)
    (now : Z) (read s : transfer_store)
  : transfer_store * run_result (ProductionMapApparatusTransferRecord * ProductionMapProgram) :=
  match normalize_transfer_request input with
  | Err e => (s, Err (Fail e))
  | Ok rq =>
      match apparatus_transfer_by_idempotency_key (rq_key rq) read with
      | Some record =>
          (s, if transfer_record_matches_request record (rq_order_id rq) (from_text rq) (to_text rq)
              then transfer_result record else Err (Fail ApparatusTransferIdempotencyConflict))
      | None =>
          match plan_transfer rq actor now read with
          | Err e => (s, Err e)
          | Ok write =>
              let '(s, r) := commit_apparatus_transfer write s in
              (s, record ← r;
                  if transfer_record_matches_request record (rq_order_id rq) (from_text rq) (to_text rq)
                  then transfer_result record else Err (Fail ApparatusTransferIdempotencyConflict))
          end
      end
  end.

(** A map may be edited while its order has not started on the machine. *)
Definition ensure_normal_map_move_is_pending (order_id apparatus : string) (s : trial_store)
  : pm_result unit :=
  let order_id := trim order_id in
  _ ← check (existsb (λ hold, is_live hold && (trim (hold_order_id hold) =s order_id) &&
               apparatus_ids_match (hold_apparatus hold) apparatus) (active_print_preflight_holds s))
        PrintPreflightActive;
  _ ← check (existsb (λ entry : string * gmap string string, transfer_ids_match entry.1 apparatus &&
               is_some_and (entry.2 !! order_id ≫= OrderState.parse)
                 (λ state, negb (bool_decide (state = OrderState.Pending))))
               (btree_entries (st_queue_states (ts_tables s)))) StartedOrderMoveRequiresTransfer;
  session ← active_order_run_session (trim apparatus) order_id (ts_tables s);
  check (is_some session) StartedOrderMoveRequiresTransfer.
End transfer.
