(* ===== verification/TransferFacts.v ===== *)
(** Moving a started order: the occurrence that takes over a printing order, what a transfer
    writes, and that it is committed once. *)
From Stdlib Require Import Ascii.
From S2P Require Import Prelude RustStr F64 Json Errors Identity QueueState OrderLayout MapDefinition Formula Compiler Bfs Chain Projection SequenceMove Scheduler Progress WipRoute Lifecycle StageExecution OrderRefresh OrderStore Visibility Preflight Epc CutLayout Paddon Metrics Lineage RunStore Warehouse QueueCommit QueueCommitFacts Materials Ids OpeningWip Pechat Transfer.

(** * Fresh names *)

Definition numbered (base : string) (suffix : nat) : string := base +:+ "_" +:+ Z_to_string (Z.of_nat suffix).

Fixpoint candidates (base : string) (fuel suffix : nat) (name : string) : list string :=
  match fuel with
  | O => []
  | S fuel => name :: candidates base fuel (S suffix) (numbered base suffix)
  end.

Lemma fresh_name_spec taken base fuel suffix name :
  taken (fresh_name taken base fuel suffix name) = false ∨
  ∀ x, x ∈ candidates base fuel suffix name → taken x = true.
Proof.
  revert suffix name. induction fuel as [|fuel IH]; intros suffix name; [right; intros x []%not_elem_of_nil|].
  simpl. destruct (taken name) eqn:Ht; [|by left].
  destruct (IH (S suffix) (numbered base suffix)) as [?|Hall]; [by left|right].
  intros x [->|Hx]%elem_of_cons; auto.
Qed.

Lemma append_inj_l (s a b : string) : s +:+ a = s +:+ b → a = b.
Proof. induction s as [|c s IH]; simpl; [done|]. intros [= H]. auto. Qed.

Lemma Z_to_string_of_nat n : Z_to_string (Z.of_nat n) = N_to_string (N.of_nat n).
Proof. destruct n as [|n]; [vm_refl|]. done. Qed.

Lemma numbered_inj base i j : numbered base i = numbered base j → i = j.
Proof. unfold numbered. intros H%append_inj_l%append_inj_l. rewrite !Z_to_string_of_nat in H.
  apply N_to_string_inj in H. lia. Qed.

Lemma numbered_longer base i : numbered base i ≠ base.
Proof.
  intros H. assert (base +:+ ("_" +:+ Z_to_string (Z.of_nat i)) = base +:+ "") as H'.
  { unfold numbered in H. rewrite H. clear. induction base as [|c s IH]; [done|].
    change (String c s = String c (s +:+ "")). by rewrite <-IH. }
  apply append_inj_l in H'. discriminate H'.
Qed.

Lemma candidates_numbered base fuel suffix name x : x ∈ candidates base fuel suffix name →
  x = name ∨ ∃ i, suffix ≤ i ∧ x = numbered base i.
Proof.
  revert suffix name. induction fuel as [|fuel IH]; intros suffix name; [by intros ?%not_elem_of_nil|].
  intros [->|[->|(i & Hi & ->)]%IH]%elem_of_cons; [by left|right; eauto|right; exists i; split; [lia|done]].
Qed.

Lemma candidates_NoDup base fuel suffix name :
  (∀ i, suffix ≤ i → numbered base i ≠ name) → NoDup (candidates base fuel suffix name).
Proof.
  revert suffix name. induction fuel as [|fuel IH]; intros suffix name Hn; [constructor|]. simpl. constructor.
  - intros [H|(i & Hi & H)]%candidates_numbered; [by eapply Hn|apply (Hn i); [lia|done]].
  - apply IH. intros i Hi H%numbered_inj. lia.
Qed.

Lemma candidates_length base fuel suffix name : length (candidates base fuel suffix name) = fuel.
Proof. revert suffix name. induction fuel; intros; simpl; auto. Qed.

Lemma fresh_for_fresh map text base n : n ∈ map_nodes map → text n ≠ fresh_for map text base.
Proof.
  intros Hn Ht. unfold fresh_for in Ht.
  set (taken := λ name : string, existsb (λ n, text n =s name) (map_nodes map)) in Ht.
  destruct (fresh_name_spec taken base (S (length (map_nodes map))) 1 base) as [Hf|Hall].
  - rewrite <-Ht in Hf. unfold taken in Hf. apply Bool.not_true_iff_false in Hf. apply Hf.
    apply existsb_exists. exists n. split; [by apply list_elem_of_In|apply String.eqb_refl].
  - pose proof (candidates_NoDup base (S (length (map_nodes map))) 1 base (λ i _, numbered_longer base i)) as Hnd.
    assert (candidates base (S (length (map_nodes map))) 1 base ⊆+ (text <$> map_nodes map)) as Hsub.
    { apply NoDup_submseteq; [done|]. intros x Hx. specialize (Hall x Hx). unfold taken in Hall.
      apply existsb_exists in Hall as (m & Hm & Heq). apply String.eqb_eq in Heq as <-.
      apply list_elem_of_fmap. exists m. split; [done|by apply list_elem_of_In]. }
    apply submseteq_length in Hsub. rewrite candidates_length, length_fmap in Hsub. lia.
Qed.

(** * The occurrence that takes over a printing order *)

#[local] Instance ProductionFormula_eq_dec : EqDecision ProductionFormula.
Proof. solve_decision. Defined.
#[local] Instance ProductionMapNode_eq_dec : EqDecision ProductionMapNode.
Proof. solve_decision. Defined.

(** A node that becomes an alternative of [group], all of which is assigned to one machine. *)
Definition joined (group to display : string) (n : ProductionMapNode) : ProductionMapNode :=
  n <| alternative_group_id := group |> <| alternative_assigned_apparatus_id := to |>
    <| alternative_assigned_title := display |>.

Lemma take_over_lookup index group to display nodes i n : nodes !! i = Some n →
  take_over index group to display nodes !! i =
    Some (if decide (i = index ∨ alternative_group_id n = group) then joined group to display n else n).
Proof.
  intros Hn. unfold take_over. rewrite list_lookup_fmap. destruct (decide (i = index)) as [->|Hi].
  - rewrite list_lookup_alter_eq, Hn, decide_True by auto. simpl. by rewrite String.eqb_refl.
  - rewrite list_lookup_alter_ne, Hn by done. simpl. f_equal. destruct (String.eqb_spec (alternative_group_id n) group).
    + rewrite decide_True by auto. subst group. by destruct n.
    + rewrite decide_False by tauto. done.
Qed.

Lemma take_over_length index group to display nodes :
  length (take_over index group to display nodes) = length nodes.
Proof. unfold take_over. by rewrite length_fmap, length_alter. Qed.

(** The edges a node copied from [source] gets: every one that leaves the source, and every one
    that enters it from elsewhere. *)
Definition outgoing_copies (source id : string) (edges : list ProductionMapEdge) : list ProductionMapEdge :=
  (λ e, {| edge_from := id; edge_to := edge_to e; edge_branch := edge_branch e |})
    <$> filter (λ e, edge_from e = source) edges.
Definition incoming_copies (source id : string) (edges : list ProductionMapEdge) : list ProductionMapEdge :=
  (λ e, {| edge_from := edge_from e; edge_to := id; edge_branch := edge_branch e |})
    <$> filter (λ e, edge_to e = source ∧ edge_from e ≠ source) edges.

Lemma copied_edges_exact source id edges :
  omap (copied_edge source id) edges ≡ₚ outgoing_copies source id edges ++ incoming_copies source id edges.
Proof.
  unfold outgoing_copies, incoming_copies. induction edges as [|e edges IH]; [done|].
  rewrite !filter_cons. cbn [omap list_omap]. unfold copied_edge at 1.
  destruct (String.eqb_spec (edge_from e) source), (String.eqb_spec (edge_to e) source);
    repeat (case_decide; try tauto); rewrite ?fmap_cons, IH; try reflexivity.
  by rewrite <-Permutation_middle.
Qed.

(** An alternative on the target machine. *)
Definition alternative_on (group to : string) (n : ProductionMapNode) : Prop :=
  node_kind n = NodeKind.Apparatus ∧ alternative_group_id n = group ∧ trim (node_apparatus_id n) = to.

(** A copy of [source] for another machine: the name, the machine, the title, the group and the
    position are its own, every other field is that of the source. *)
Definition copy_of (source : ProductionMapNode) (id to display group : string) (n : ProductionMapNode) : Prop :=
  node_id n = id ∧ node_apparatus_id n = to ∧ node_title n = display ∧ alternative_group_id n = group ∧
  node_x n = f64_add (node_x source) (f64_of_Z 180) ∧
  n <| node_id := node_id source |> <| node_apparatus_id := node_apparatus_id source |>
    <| node_title := node_title source |> <| alternative_group_id := alternative_group_id source |>
    <| node_x := node_x source |> = source.

(** What [transfer_target] adds: nothing, or a copy of the source under a new name, with its
    edges. *)
Definition target_added (map : ProductionMapDefinition) (source : ProductionMapNode)
    (group to display id : string) (new : list ProductionMapNode) (edges : list ProductionMapEdge) : Prop :=
  (∃ n, n ∈ map_nodes map ∧ alternative_on group to n ∧ node_id n = id ∧ new = [] ∧ edges = []) ∨
  (∀ n, n ∈ map_nodes map → ¬ alternative_on group to n ∧ node_id n ≠ id) ∧
  (∃ n, new = [n] ∧ copy_of source id to display group n) ∧
  edges ≡ₚ outgoing_copies (node_id source) id (map_edges map) ++
           incoming_copies (node_id source) id (map_edges map).

Lemma transfer_target_spec map source group to display map' id :
  transfer_target map source group to display = Ok (map', id) →
  ∃ new edges, map' = with_graph map (map_nodes map ++ new) (map_edges map ++ edges) ∧
    target_added map source group to display id new edges.
Proof.
  unfold transfer_target. destruct (List.find _ _) as [n|] eqn:Hf.
  - intros [= <- <-]. exists [], []. apply find_elem in Hf as [Hn Ht]. unfold is_machine in Ht. breflect.
    rewrite bool_decide_eq_true in *. rewrite !app_nil_r. split; [by destruct map|]. left. exists n. unfold alternative_on. by split_and!.
  - destruct (check _ _); [|done]. cbn [mbind result_bind]. intros [= <- <-].
    set (id := fresh_for _ _ _). eexists _, _. split; [reflexivity|]. right. split; [|split].
    + intros m Hm. split; [|by apply fresh_for_fresh]. intros (Hk & Hg & Ht).
      rewrite find_none_elem in Hf. specialize (Hf m Hm). unfold is_machine in Hf.
      by rewrite Hk, Hg, Ht, !String.eqb_refl in Hf.
    + eexists. split; [reflexivity|]. split_and!; try done. by destruct source.
    + apply copied_edges_exact.
Qed.

(** The group: that of the source, or one no node has. *)
Lemma transfer_group_spec map source from group : transfer_group map source from = Ok group →
  if is_empty (group_of source) then ∀ n, n ∈ map_nodes map → alternative_group_id n ≠ group
  else group = group_of source.
Proof.
  unfold transfer_group. destruct (is_empty _).
  - intros [= <-] n Hn. by apply fresh_for_fresh.
  - destruct (check _ _); [|done]. by intros [= <-].
Qed.

(** The one stage of the machine the session works at. *)
Definition works_at (map : ProductionMapDefinition) (stage_node_id from : string) (stage : ChainStage) : Prop :=
  stage ∈ linear_work_stages map ∧ stage_apparatus_id stage = Some from ∧
  (blank stage_node_id = true ∨ stage_node_ids_match_for_map map (Chain.stage_node_id stage) stage_node_id = true).

Lemma transfer_source_spec map stage_node_id from index :
  transfer_source map stage_node_id from = Ok index →
  ∃ stage source, (∀ other, works_at map stage_node_id from other ↔ other = stage) ∧
    map_nodes map !! index = Some source ∧ node_id source = Chain.stage_node_id stage.
Proof.
  unfold transfer_source. destruct (List.filter _ _) as [|stage [|]] eqn:Hf; [done| |done].
  destruct (position _ _) as [k|] eqn:Hp; [|done]. intros [= <-].
  apply position_Some in Hp as [(source & Hs & Hid) _]. breflect. exists stage, source.
  split; [|done]. intros other. rewrite <-list_elem_of_singleton, <-Hf, filterb_elem.
  unfold works_at. rewrite andb_true_iff, orb_true_iff, bool_decide_eq_true. tauto.
Qed.

(** C12: A printing order is taken over without losing a place where it was
    worked. The source is the node of the one stage the session can be working
    at. When its group has no alternative on the target machine, exactly one
    node is added: a copy of the source in every field but its fresh name, its
    machine, title, group and position, with a copy of every edge that leaves
    the source and of every edge that enters it, and no other; otherwise nothing
    is added. Every old edge stays, the source and the nodes of its group (a
    fresh one when it had none) become alternatives assigned to the target,
    every other node and field of the map stays exactly as it was, and the new
    map compiles. *)
Theorem takeover_keeps_every_place `{UnicodeTables} map stage_id from to display map' target :
  select_target map stage_id from to display = Ok (map', target) →
  ∃ stage index source group new edges,
    (∀ other, works_at map stage_id from other ↔ other = stage) ∧
    map_nodes map !! index = Some source ∧ node_id source = Chain.stage_node_id stage ∧
    (if is_empty (group_of source) then ∀ n, n ∈ map_nodes map → alternative_group_id n ≠ group
     else group = group_of source) ∧
    target_added map source group to display target new edges ∧
    is_ok (compile_map map') = true ∧
    with_graph map' [] [] = with_graph map [] [] ∧
    map_edges map' = map_edges map ++ edges ∧
    length (map_nodes map') = length (map_nodes map ++ new) ∧
    ∀ i n, (map_nodes map ++ new) !! i = Some n →
      map_nodes map' !! i =
        Some (if decide (i = index ∨ alternative_group_id n = group) then joined group to display n else n).
Proof.
  unfold select_target. destruct (transfer_source _ _ _) as [index|] eqn:Hi; [|done].
  cbn [lift mbind result_bind]. apply transfer_source_spec in Hi as (stage & source & Hst & Hs & Hid).
  rewrite Hs. cbn [expect ok_or mbind result_bind].
  destruct (transfer_group map source from) as [group|] eqn:Hg; [|done]. cbn [lift mbind result_bind].
  destruct (transfer_target map source group to display) as [[map1 id]|] eqn:Ht; [|done]. cbn [lift mbind result_bind].
  match goal with |- context [compile_map ?m] => destruct (compile_map m) as [program|] eqn:Hc end; [|done]. intros [= <- <-].
  destruct (transfer_target_spec _ _ _ _ _ _ _ Ht) as (new & edges & -> & Hadd).
  exists stage, index, source, group, new, edges. do 3 (split; [done|]).
  split; [by eapply transfer_group_spec|]. split; [done|]. split; [by rewrite Hc|]. do 2 (split; [done|]).
  split; [apply take_over_length|]. intros i n. apply take_over_lookup.
Qed.

(** Once the alternatives of an order are assigned to a machine, as a transfer leaves them,
    the order cannot be transferred to any of them: every node of the group counts as a
    node of that machine. *)
Lemma assigned_alternatives_are_pinned map from to :
  (∃ n, n ∈ map_nodes map ∧ runs_for from n = true ∧ group_of n ≠ "") →
  (∀ n m, n ∈ map_nodes map → m ∈ map_nodes map → runs_for from n = true → group_of n ≠ "" →
     group_of m = group_of n → trim (alternative_assigned_apparatus_id m) = from) →
  trim from = from → from ≠ "" → transfer_move_allowed_by_id map from to = false.
Proof.
  intros (n & Hn & Hr & Hg) Hall Htrim Hne. unfold transfer_move_allowed_by_id.
  assert (canonical_transfer_id from = None ∨ canonical_transfer_id from = Some from) as [->| ->]; [|done|].
  { unfold canonical_transfer_id, ApparatusId_new. rewrite Htrim. destruct (validate_shape from); [by right|by left]. }
  destruct (canonical_transfer_id to) as [to'|]; [|done]. destruct (from =s to') eqn:Hft; [done|].
  destruct (List.filter (runs_for from) _) as [|x l] eqn:Hx; [done|]. rewrite <-Hx. clear Hx x l.
  destruct (List.filter (λ g, negb (is_empty g)) _) as [|g gs] eqn:Hgs.
  - assert (group_of n ∈ List.filter (λ g, negb (is_empty g)) (group_of <$> List.filter (runs_for from) (map_nodes map))) as H.
    { apply filterb_elem. split; [apply list_elem_of_fmap; exists n; split; [done|by apply filterb_elem]|].
      by destruct (group_of n). }
    rewrite Hgs in H. by apply not_elem_of_nil in H.
  - rewrite <-Hgs. apply Bool.not_true_iff_false. intros (m & Hm & Hb)%existsb_elem.
    apply andb_true_iff in Hb as [Hin Hrun]. apply bool_decide_eq_true in Hin.
    apply filterb_elem in Hin as [(n' & Hgn & [Hn' Hr']%filterb_elem)%list_elem_of_fmap He].
    assert (trim (alternative_assigned_apparatus_id m) = from) as Ha.
    { apply (Hall n' m); try done. rewrite <-Hgn. by intros E; rewrite E in He. }
    unfold runs_for, effective_transfer_apparatus_id in Hrun. rewrite Ha in Hrun.
    apply andb_true_iff in Hrun as [_ Hrun]. destruct (is_empty from) eqn:Hemp; [by destruct from|].
    rewrite Hft in Hrun. done.
Qed.

(** * The commit *)

(** The tables of a store. *)
Abbreviation states_at s a := (st_queue_states (os_orders (ts_tables (rs_trials (ms_runs (tf_materials s))))) !! a).
Abbreviation queue_at s a := (os_sequences (ts_tables (rs_trials (ms_runs (tf_materials s)))) !! a).
Abbreviation sessions_of s := (st_order_run_sessions (os_orders (ts_tables (rs_trials (ms_runs (tf_materials s)))))).
Abbreviation maps_of s := (st_maps (os_orders (ts_tables (rs_trials (ms_runs (tf_materials s)))))).

Section facts.
Context `{J : Json} `{C : !RouteCodec} `{R : !ReportCodec} `{!Serde (list OrderLane)}.
Context `{!Serde (list OrderRunInputLink)} `{!Serde (list RezkaActivePartialRoll)}.
Context `{!Serde (list ProgressBatchInputLink)} `{!Serde ProductionQrSessionResources}.
Context `{!Serde QueueActionActor} `{!Serde WipInputRoute} `{UnicodeTables} `{UnicodeCase}.
Context (resolver : ApparatusId → pm_result (option RuntimeApparatusConfiguration)).

(** The store a transfer leaves, up to the life cycle of the order. *)
Definition written (write : ProductionMapApparatusTransferWrite) (ids : ApparatusId * ApparatusId)
    (lc : gmap string ProductionOrderLifecycleRecord) (s : transfer_store) : transfer_store :=
  let t := write_transfer write ids s in
  t <| tf_materials := (tf_materials t) <| ms_runs :=
         with_orders ((os_orders (ts_tables (rs_trials (ms_runs t)))) <| st_lifecycles := lc |>) (ms_runs t) |> |>.

Lemma refreshed_writes id s : ∃ lc,
  (refresh_transferred id s).1 = s <| tf_materials := (tf_materials s) <| ms_runs :=
    with_orders ((os_orders (ts_tables (rs_trials (ms_runs s)))) <| st_lifecycles := lc |>) (ms_runs s) |> |>.
Proof.
  unfold refresh_transferred, on_orders.
  destruct (refresh_writes [id] (os_orders (ts_tables (rs_trials (ms_runs s))))) as [lc Hlc]. exists lc.
  destruct (refresh_production_order_lifecycles _ _) as [o r]. simpl in Hlc. by subst o.
Qed.

(** A commit answers with a receipt it has, refuses, or writes. *)
Lemma commit_cases write s :
  (commit_apparatus_transfer write s).1 = s ∨
  (tf_transfers s !! trim (tx_idempotency_key (tw_record write)) = None ∧
   ∃ ids lc, check_transfer write s = Ok ids ∧ (commit_apparatus_transfer write s).1 = written write ids lc s).
Proof.
  unfold commit_apparatus_transfer.
  destruct (tf_transfers s !! _) as [existing|] eqn:Hk; [by left|].
  destruct (check_transfer write s) as [ids|] eqn:Hc; [|by left]. right. split; [done|].
  destruct (refreshed_writes (trim (tx_order_id (tw_record write))) (write_transfer write ids s)) as [lc Hlc].
  exists ids, lc. split; [done|]. destruct (refresh_transferred _ _). simpl in *. by subst.
Qed.

Lemma commit_Ok write s s' rec : commit_apparatus_transfer write s = (s', Ok rec) →
  (s' = s ∧ tf_transfers s !! trim (tx_idempotency_key (tw_record write)) = Some rec ∧
   transfer_record_matches_identity rec (tw_record write) = true) ∨
  (tf_transfers s !! trim (tx_idempotency_key (tw_record write)) = None ∧ rec = tw_record write ∧
   ∃ ids lc, check_transfer write s = Ok ids ∧ s' = written write ids lc s).
Proof.
  intros Hc. destruct (commit_cases write s) as [H1|[Hk H1]]; rewrite Hc in H1; simpl in H1; revert Hc;
    unfold commit_apparatus_transfer.
  - subst s'. destruct (tf_transfers s !! _) as [existing|] eqn:Hk.
    + destruct (transfer_record_matches_identity _ _) eqn:Hm; intros [= <-]. by left.
    + destruct (check_transfer write s) as [ids|] eqn:Hcheck; [|by intros [=]].
      destruct (refreshed_writes (trim (tx_order_id (tw_record write))) (write_transfer write ids s)) as [lc Hlc].
      destruct (refresh_transferred _ _) as [s2 [[]|]]; simpl in *; intros [= <- <-].
      right. split; [done|]. split; [done|]. by exists ids, lc.
  - rewrite Hk. destruct H1 as (ids & lc & Hcheck & ->). rewrite Hcheck.
    destruct (refresh_transferred _ _) as [s2 [[]|]]; simpl; intros [= _ <-].
    right. split; [done|]. split; [done|]. by exists ids, lc.
Qed.

Lemma written_transfers write ids lc s :
  tf_transfers (written write ids lc s) = <[trim (tx_idempotency_key (tw_record write)) := tw_record write]> (tf_transfers s).
Proof. done. Qed.

(** Receipts stay. *)
Lemma commit_keeps_receipts write s k r :
  tf_transfers s !! k = Some r → tf_transfers (commit_apparatus_transfer write s).1 !! k = Some r.
Proof.
  intros Hr. destruct (commit_cases write s) as [->|(Hk & ids & lc & _ & ->)]; [done|].
  rewrite written_transfers, lookup_insert_ne; [done|]. intros <-. congruence.
Qed.

(** * Requests *)

Lemma new_id_trim text id : ApparatusId_new text = Ok id → trim (apparatus_id_str id) = apparatus_id_str id.
Proof.
  unfold ApparatusId_new. destruct (validate_shape text) as [[]|] eqn:E; [|done]. cbn [mbind result_bind].
  intros [= <-]. cbn. by apply trim_graphic, canonical_graphic, validate_shape_sound.
Qed.

Lemma normalize_spec input rq : normalize_transfer_request input = Ok rq →
  rq_key rq = trim (tr_idempotency_key input) ∧ trim (rq_order_id rq) = rq_order_id rq ∧
  trim (apparatus_id_str (rq_from rq)) = apparatus_id_str (rq_from rq) ∧
  trim (apparatus_id_str (rq_to rq)) = apparatus_id_str (rq_to rq) ∧
  apparatus_id_str (rq_from rq) ≠ apparatus_id_str (rq_to rq).
Proof.
  unfold normalize_transfer_request.
  destruct (ApparatusId_new (trim (tr_from_apparatus input))) as [from|] eqn:Hf; [|done].
  destruct (ApparatusId_new (trim (tr_to_apparatus input))) as [to|] eqn:Ht; [|done].
  cbn [mbind result_bind]. intros Hn. inv_run. injection Hn as <-. cbn [rq_key rq_order_id rq_from rq_to]. breflect.
  split; [done|]. split; [by rewrite trim_lower, trim_idemp|].
  split; [by eapply new_id_trim|]. split; [by eapply new_id_trim|].
  by apply String.eqb_neq.
Qed.

Record planned_as (rq : TransferRequest) (actor : QueueActionActor) (now : Z) (s : material_store)
    (write : ProductionMapApparatusTransferWrite) (state : OrderState.t) (session : RunSession)
    (parts : moved_parts) : Prop := {
  pl_write : ∃ preserve map target, write = transfer_write rq actor state preserve map session target parts now s;
  pl_session : ∃ preserve, transferred_session rq preserve s = Ok (state, session);
  pl_state : state = OrderState.Paused ∨ state = OrderState.Pending;
  pl_moved : session_id (mv_session parts) = session_id session ∧
             session_apparatus (mv_session parts) = apparatus_id_str (rq_to rq) ∧
             session_order_id (mv_session parts) = session_order_id session;
}.

Lemma moved_session_spec rq session node target transfer now moved :
  moved_session rq session node target transfer now = Ok moved →
  session_id moved = session_id session ∧ session_apparatus moved = apparatus_id_str (rq_to rq) ∧
  session_order_id moved = session_order_id session.
Proof. unfold moved_session. intros Hm. inv_run. by injection Hm as <-. Qed.

Lemma transferred_session_spec rq preserve (s : order_store) state session :
  transferred_session rq preserve s = Ok (state, session) →
  (state = OrderState.Paused ∨ state = OrderState.Pending) ∧
  trim (session_order_id session) = rq_order_id rq ∧
  trim (session_apparatus session) = apparatus_id_str (rq_from rq).
Proof.
  unfold transferred_session. intros Hs. inv_run. injection Hs as <- <-. breflect.
  split; [|done]. unfold transferred_state in *.
  match goal with Ht : (match _ with Some _ => _ | None => _ end) = Ok _ |- _ => revert Ht end.
  destruct (st_queue_states s !! apparatus_id_str (rq_from rq) ≫= _) as [[]|]; intros Ht; first [discriminate Ht|injection Ht as <-; by auto].
Qed.

Lemma plan_spec rq actor now s write : plan_transfer resolver rq actor now s = Ok write →
  ∃ state session parts, planned_as rq actor now s write state session parts.
Proof.
  unfold plan_transfer. intros Hp. inv_run.
  match goal with p : _ * _ |- _ => destruct p as [source target] end. inv_run.
  match goal with p : _ * _ |- _ => destruct p as [state session] end. inv_run. injection Hp as <-.
  exists state, session. eexists. split; [by do 3 eexists|by eexists|by eapply transferred_session_spec|].
  match goal with Hm : (if ?b then _ else _) = Ok _ |- _ => destruct b; revert Hm end.
  - unfold moved_printing. intros Hm. inv_run.
    match goal with p : _ * string |- _ => destruct p end. inv_run.
    match goal with p : list _ * list _ |- _ => destruct p end. injection Hm as <-. by eapply moved_session_spec.
  - unfold moved_plain. intros Hm. inv_run. injection Hm as <-. by eapply moved_session_spec.
Qed.

(** What the answer to a request says of the receipts. *)
Lemma answered_spec input actor now read s s1 rec prog :
  transfer_apparatus_order resolver input actor now read s = (s1, Ok (rec, prog)) →
  ∃ rq, normalize_transfer_request input = Ok rq ∧
    transfer_record_matches_request rec (rq_order_id rq) (apparatus_id_str (rq_from rq)) (apparatus_id_str (rq_to rq)) = true ∧
    transfer_result rec = Ok (rec, prog) ∧
    ((s1 = s ∧ tf_transfers read !! trim (tr_idempotency_key input) = Some rec) ∨
     (tf_transfers read !! trim (tr_idempotency_key input) = None ∧
      tf_transfers s1 !! trim (tr_idempotency_key input) = Some rec ∧
      ∃ write, plan_transfer resolver rq actor now read = Ok write ∧
        commit_apparatus_transfer write s = (s1, Ok rec))).
Proof.
  unfold transfer_apparatus_order. destruct (normalize_transfer_request input) as [rq|] eqn:Hn; [|by intros [=]].
  destruct (normalize_spec _ _ Hn) as (Hkey & _). unfold apparatus_transfer_by_idempotency_key.
  rewrite Hkey, trim_idemp. destruct (tf_transfers read !! _) as [record|] eqn:Hr.
  - destruct (transfer_record_matches_request _ _ _ _) eqn:Hm; [|by intros [=]]. intros [= <- Ht]. exists rq.
    assert (record = rec) as -> by (revert Ht; unfold transfer_result; destruct (compile_map _); naive_solver).
    split; [done|]. split; [done|]. split; [done|]. by left.
  - destruct (plan_transfer resolver rq actor now read) as [write|] eqn:Hp; [|by intros [=]].
    destruct (commit_apparatus_transfer write s) as [s' [record|]] eqn:Hc; [|by intros [=]].
    cbn [mbind result_bind]. destruct (transfer_record_matches_request _ _ _ _) eqn:Hm; [|by intros [=]].
    intros [= <- Ht]. exists rq.
    assert (record = rec) as -> by (revert Ht; unfold transfer_result; destruct (compile_map _); naive_solver).
    split; [done|]. split; [done|]. split; [done|]. right. split; [done|].
    destruct (plan_spec _ _ _ _ _ Hp) as (state & session & parts & [(pr & m & tg & Hw) _ _ _]).
    assert (trim (tx_idempotency_key (tw_record write)) = trim (tr_idempotency_key input)) as Hk
      by (replace (tx_idempotency_key (tw_record write)) with (rq_key rq) by (by rewrite Hw); by rewrite Hkey, trim_idemp).
    split; [|by exists write]. rewrite <-Hk.
    destruct (commit_Ok _ _ _ _ Hc) as [(-> & ? & _)|(_ & -> & ids & lc & _ & ->)]; [done|].
    by rewrite written_transfers, lookup_insert_eq.
Qed.

(** Requests, and whatever else happens that leaves the receipts alone. *)
Inductive transfer_step : transfer_store → transfer_store → Prop :=
  | StepTransfer input actor now read s :
      transfer_step s (transfer_apparatus_order resolver input actor now read s).1
  | StepElse s s' : tf_transfers s' = tf_transfers s → transfer_step s s'.

Lemma request_keeps_receipts input actor now read s k r : tf_transfers s !! k = Some r →
  tf_transfers (transfer_apparatus_order resolver input actor now read s).1 !! k = Some r.
Proof.
  intros Hr. unfold transfer_apparatus_order. destruct (normalize_transfer_request input); [|done].
  destruct (apparatus_transfer_by_idempotency_key _ _); [done|].
  destruct (plan_transfer _ _ _ _ _) as [write|]; [|done].
  pose proof (commit_keeps_receipts write s k r Hr). by destruct (commit_apparatus_transfer write s).
Qed.

Lemma receipts_stay s t k r : rtc transfer_step s t → tf_transfers s !! k = Some r → tf_transfers t !! k = Some r.
Proof.
  induction 1 as [|s u t [input actor now read s1|s1 s2 E] _ IH]; intros Hr; [done| |].
  - by apply IH, request_keeps_receipts.
  - apply IH. by rewrite E.
Qed.

(** C11: A transfer is made once: after a request was answered with a receipt,
    the same request gets that same answer from every later store, and whatever
    is asked under the same key, by whomever and from whatever earlier store it
    was planned, changes nothing and is answered with that receipt or refused.
    *)
Theorem transfer_is_committed_once input actor now read s s1 rec prog t :
  rtc transfer_step read s → transfer_apparatus_order resolver input actor now read s = (s1, Ok (rec, prog)) →
  rtc transfer_step s1 t →
  (∀ actor' now', transfer_apparatus_order resolver input actor' now' t t = (t, Ok (rec, prog))) ∧
  (∀ input' actor' now' read', trim (tr_idempotency_key input') = trim (tr_idempotency_key input) →
     rtc transfer_step read' t →
     ∃ r, transfer_apparatus_order resolver input' actor' now' read' t = (t, r) ∧ ∀ x, r = Ok x → x = (rec, prog)).
Proof.
  intros Hread Ha Ht. destruct (answered_spec _ _ _ _ _ _ _ _ Ha) as (rq & Hn & Hm & Hprog & Hcase).
  assert (tf_transfers t !! trim (tr_idempotency_key input) = Some rec) as Hrec.
  { apply (receipts_stay _ _ _ _ Ht). destruct Hcase as [[-> Hr]|(_ & Hr & _)]; [|done].
    by apply (receipts_stay _ _ _ _ Hread). }
  clear Hcase.
  split.
  - intros actor' now'. unfold transfer_apparatus_order, apparatus_transfer_by_idempotency_key. rewrite Hn.
    destruct (normalize_spec _ _ Hn) as (-> & _). by rewrite trim_idemp, Hrec, Hm, Hprog.
  - intros input' actor' now' read' Hkey Hread'.
    unfold transfer_apparatus_order, apparatus_transfer_by_idempotency_key.
    destruct (normalize_transfer_request input') as [rq'|] eqn:Hn'; [|by eexists].
    destruct (normalize_spec _ _ Hn') as (Hk & _). rewrite Hk, trim_idemp, Hkey.
    destruct (tf_transfers read' !! _) as [r'|] eqn:Hr'.
    + apply (receipts_stay _ _ _ _ Hread') in Hr'. rewrite Hrec in Hr'. injection Hr' as <-.
      eexists. split; [done|]. intros x. destruct (transfer_record_matches_request rec (rq_order_id rq') _ _); [|by intros [=]].
      rewrite Hprog. by intros [= <-].
    + destruct (plan_transfer _ _ _ _ _) as [write|] eqn:Hp; [|by eexists].
      destruct (plan_spec _ _ _ _ _ Hp) as (state & session & parts & [(pr & m & tg & Hw) _ _ _]).
      unfold commit_apparatus_transfer.
      replace (tx_idempotency_key (tw_record write)) with (rq_key rq') by (by rewrite Hw).
      rewrite Hk, trim_idemp, Hkey, Hrec. eexists. split; [done|]. intros x.
      destruct (transfer_record_matches_identity _ _); [|by intros [=]]. cbn [mbind result_bind].
      destruct (transfer_record_matches_request rec (rq_order_id rq') _ _); [|by intros [=]]. rewrite Hprog. by intros [= <-].
Qed.

Lemma without_order_spec order_id l id : id ∈ without_order order_id l → trim id ≠ order_id.
Proof. unfold without_order. intros [_ Hn]%filterb_elem Ht. rewrite Ht, String.eqb_refl in Hn. done. Qed.

(** What the commit checked of the order and its session. *)
Record checked_order (write : ProductionMapApparatusTransferWrite) (s : transfer_store) (current : RunSession) : Prop := {
  ck_state : stored_state (trim (tx_from_apparatus (tw_record write))) (trim (tx_order_id (tw_record write))) s
             = Some (OrderState.as_str (tx_queue_state (tw_record write)));
  ck_target : st_queue_states s !! trim (tx_to_apparatus (tw_record write)) ≫=
                (λ states, states !! trim (tx_order_id (tw_record write))) = None;
  ck_session : st_order_run_sessions s !! trim (tx_session_id (tw_record write)) = Some current;
  ck_order : trim (session_order_id current) = trim (tx_order_id (tw_record write));
  ck_from : apparatus_ids_match (session_apparatus current) (trim (tx_from_apparatus (tw_record write))) = true;
  ck_moulds : check_transfer_moulds (tw_session write) s = Ok tt;
}.

Lemma check_transfer_spec write s ids : check_transfer write s = Ok ids → ∃ current, checked_order write s current.
Proof.
  unfold check_transfer. intros Hc. inv_run.
  match goal with Hs : check_transfer_session _ _ _ _ = Ok _ |- _ => unfold check_transfer_session in Hs; inv_run end.
  match goal with Hq : check_transfer_queues _ _ _ _ = Ok _ |- _ => unfold check_transfer_queues in Hq; inv_run end.
  eexists. split; breflect; try done.
  - match goal with Hb : bool_decide (stored_state _ _ _ = Some (OrderState.as_str _)) = true |- _ =>
      by apply bool_decide_eq_true in Hb end.
  - match goal with Hb : is_some (_ ≫= (λ states, states !! _)) = false |- _ =>
      revert Hb; by destruct (_ ≫= (λ states : gmap string string, states !! _)) end.
  - match goal with Hm : check_transfer_moulds _ _ = Ok ?u |- _ => by destruct u end.
Qed.

(** The parts of the store a transfer leaves. *)
Lemma written_spec write ids lc s :
  let r := tw_record write in
  let from := trim (tx_from_apparatus r) in let to := trim (tx_to_apparatus r) in
  let w := written write ids lc s in
  (∀ a, states_at w a = <[to := tw_to_states write]> (<[from := tw_from_states write]> (st_queue_states s)) !! a) ∧
  (∀ a, queue_at w a = <[to := tw_to_sequence write]> (<[from := tw_from_sequence write]> (os_sequences (ts_tables s))) !! a) ∧
  sessions_of w = <[trim (session_id (tw_session write)) := tw_session write]> (sessions_of s) ∧
  maps_of w = <[trim (tx_order_id r) := tw_updated_map write]> (maps_of s).
Proof. done. Qed.

(** C10: A transfer moves the order: when a request is answered with a new
    receipt, the order was paused or waiting at its source and unknown at the
    target; now it is not at the source, at the target it has the state it had
    and is the last of the queue, and no other machine's queue changed. Its
    session works at the target for the same order, no other session changed,
    and the map of the answer is stored and is the one that was compiled. *)
Theorem transferred_order_moves input actor now read s s1 rec prog :
  transfer_apparatus_order resolver input actor now read s = (s1, Ok (rec, prog)) →
  tf_transfers read !! trim (tr_idempotency_key input) = None →
  tf_transfers s !! trim (tr_idempotency_key input) = None →
  let order := tx_order_id rec in let from := tx_from_apparatus rec in let to := tx_to_apparatus rec in
  from ≠ to ∧
  (∃ state, (state = OrderState.Paused ∨ state = OrderState.Pending) ∧
     stored_state from order s = Some (OrderState.as_str state) ∧ stored_state to order s = None ∧
     stored_state from order s1 = None ∧ stored_state to order s1 = Some (OrderState.as_str state)) ∧
  (∃ l l', queue_at s1 from = Some l ∧ queue_at s1 to = Some (l' ++ [order]) ∧
     ∀ id, id ∈ l ∨ id ∈ l' → trim id ≠ order) ∧
  (∀ a, a ≠ from → a ≠ to → states_at s1 a = states_at s a ∧ queue_at s1 a = queue_at s a) ∧
  (∃ session moved : RunSession, sessions_of s !! trim (session_id moved) = Some session ∧
     sessions_of s1 = <[trim (session_id moved) := moved]> (sessions_of s) ∧
     session_apparatus moved = to ∧ apparatus_ids_match (session_apparatus session) from = true ∧
     trim (session_order_id session) = order ∧ trim (session_order_id moved) = order) ∧
  maps_of s1 !! order = Some (tx_map rec) ∧ compile_map (tx_map rec) = Ok prog.
Proof.
  intros Ha Hread Hs. destruct (answered_spec _ _ _ _ _ _ _ _ Ha) as (rq & Hn & _ & Hprog & Hcase).
  destruct Hcase as [[_ ?]|(_ & Hin & write & Hp & Hc)]; [congruence|].
  destruct (normalize_spec _ _ Hn) as (Hk & Hto & Htf & Htt & Hne).
  destruct (plan_spec _ _ _ _ _ Hp) as (state & session & parts & [(pr & m & tg & Hw) [pr' Hts] Hstate Hmoved]).
  destruct (commit_Ok _ _ _ _ Hc) as [(-> & Hr & _)|(_ & -> & ids & lc & Hcheck & ->)].
  { rewrite Hs in Hin. discriminate Hin. }
  destruct (check_transfer_spec _ _ _ Hcheck) as (current & [Hck1 Hck2 Hck3 Hck4 Hck5 _]).
  destruct (written_spec write ids lc s) as (Hst & Hq & Hse & Hma).
  assert (tx_order_id (tw_record write) = rq_order_id rq) as Eo by (by rewrite Hw).
  assert (tx_from_apparatus (tw_record write) = apparatus_id_str (rq_from rq)) as Ef by (by rewrite Hw).
  assert (tx_to_apparatus (tw_record write) = apparatus_id_str (rq_to rq)) as Et by (by rewrite Hw).
  assert (tx_queue_state (tw_record write) = state) as Es by (by rewrite Hw).
  assert (tx_map (tw_record write) = tw_updated_map write) as Em by (by rewrite Hw).
  assert (tx_session_id (tw_record write) = session_id (tw_session write)) as Ei by (by rewrite Hw).
  assert (tw_session write = mv_session parts) as Ese by (by rewrite Hw).
  rewrite Eo, Ef, Et, Htf, Htt, Hto, ?Es, ?Ei in *. cbv zeta.
  assert (tw_from_states write !! rq_order_id rq = None) as Hfs by (rewrite Hw; apply lookup_delete_eq).
  assert (tw_to_states write !! rq_order_id rq = Some (OrderState.as_str state)) as Hts'
    by (rewrite Hw; apply lookup_insert_eq).
  assert (trim (OrderState.as_str state) = OrderState.as_str state) as Htrim
    by (destruct_or! Hstate; subst state; vm_refl).
  split; [done|]. split; [|split; [|split; [|split; [|split]]]].
  - exists state. split; [done|]. split; [done|]. unfold stored_state. rewrite Hck2, !Hst.
    rewrite lookup_insert_ne, !lookup_insert_eq by done. cbn [mbind option_bind].
    rewrite Hfs, Hts'. cbn [fmap option_fmap option_map]. by rewrite Htrim.
  - eexists _, _. rewrite !Hq, lookup_insert_ne, !lookup_insert_eq by done.
    split; [reflexivity|]. split; [rewrite Hw; reflexivity|].
    intros id [Hid|Hid]; [rewrite Hw in Hid|]; by apply without_order_spec in Hid.
  - intros a Haf Hat. by rewrite Hst, Hq, !lookup_insert_ne by done.
  - exists current, (tw_session write). rewrite Ese. destruct Hmoved as (_ & Happ & Hord). rewrite Hord.
    rewrite Ese in Hck3, Hse. split_and!; try done. by destruct (transferred_session_spec _ _ _ _ _ Hts) as (_ & ? & _).
  - by rewrite Hma, lookup_insert_eq, Em.
  - unfold transfer_result in Hprog. destruct (compile_map _) as [p|]; [|discriminate Hprog]. by injection Hprog as <-.
Qed.

Lemma check_moulds_spec session (s : order_store) k (s' : RunSession) code :
  check_transfer_moulds session s = Ok tt → st_order_run_sessions s !! k = Some s' → k = trim (session_id s') →
  holds session code → holds s' code → k = trim (session_id session).
Proof.
  intros Hc Hs Hk [_ (c & Hin & Hcode)] [Hm (c' & Hin' & Hcode')].
  destruct (decide (session_id s' = session_id session)) as [<-|Hne]; [done|].
  apply check_Ok in Hc. rewrite <-Bool.not_true_iff_false in Hc. destruct Hc. apply existsb_elem. exists s'.
  split; [apply sessions_elem; by exists k|]. rewrite (proj2 (String.eqb_neq _ _) Hne). cbn [negb andb].
  apply andb_true_iff. split; [unfold keeps_machine in Hm; by apply andb_true_iff in Hm as [? _]|].
  apply existsb_elem. exists c. split; [done|]. apply existsb_elem. exists c'. split; [done|].
  unfold same_code, eq_ignore_ascii_case in *. apply String.eqb_eq in Hcode, Hcode'. by rewrite Hcode, Hcode', String.eqb_refl.
Qed.

(** Transfers keep the moulds exclusive, whatever they answer: when no
    mould is held by two open runs of the store before a request, none is
    afterwards. *)
Theorem transfers_keep_moulds_exclusive input actor now read s :
  moulds_ok (sessions_of s) → moulds_ok (sessions_of (transfer_apparatus_order resolver input actor now read s).1).
Proof.
  intros Hok. unfold transfer_apparatus_order. destruct (normalize_transfer_request input); [|done].
  destruct (apparatus_transfer_by_idempotency_key _ _); [done|].
  destruct (plan_transfer _ _ _ _ _) as [write|]; [|done].
  assert (moulds_ok (sessions_of (commit_apparatus_transfer write s).1)) as H1;
    [|by destruct (commit_apparatus_transfer write s)].
  destruct (commit_cases write s) as [->|(_ & ids & lc & Hcheck & ->)]; [done|].
  destruct (check_transfer_spec _ _ _ Hcheck) as (current & [_ _ _ _ _ Hm]).
  destruct (written_spec write ids lc s) as (_ & _ & -> & _). destruct Hok as [Hkeys Hex].
  split.
  - intros k s'. rewrite lookup_insert_Some. intros [[<- <-]|[_ ?]]; [done|by apply Hkeys].
  - intros k k' s1 s2 code. rewrite !lookup_insert_Some.
    intros [[<- <-]|[Hne1 Hs1]] [[<- <-]|[Hne2 Hs2]] Hh1 Hh2; [done| | |by eapply Hex].
    + symmetry. by eapply (check_moulds_spec _ _ _ s2); [| |apply Hkeys| |].
    + by eapply (check_moulds_spec _ _ _ s1); [| |apply Hkeys| |].
Qed.
End facts.
