(* ===== verification/MapSave.v ===== *)
(** Saving maps.

    Models [src/core/production_map/catalog/alternatives.rs] (interchangeable machines of a drawn
    map become one group) and the saving part of [catalog/service.rs]: what a map must satisfy
    before it is stored, the stages an edit may not touch, and moving orders between machines by
    editing their maps.  The handlers hold the queue guard from the first read to the write, so
    a request is one step on the store. *)
From Stdlib Require Import Ascii.
From S2P Require Import Prelude RustStr F64 Json Errors Identity QueueState OrderLayout MapDefinition Formula Compiler Bfs Chain Projection SequenceMove Scheduler Progress WipRoute Lifecycle StageExecution OrderRefresh OrderStore Visibility Preflight QueueMoves Epc CutLayout Paddon Metrics Lineage RunStore Warehouse QueueCommit Materials Ids OpeningWip Pechat Automatic Transfer.

(** * Interchangeable machines (alternatives.rs) *)

Abbreviation configurations := (gmap string RuntimeApparatusConfiguration).

#[global] Instance VirtualTaskPolicy_eq_dec : EqDecision VirtualTaskPolicy.
Proof. solve_decision. Defined.

(** [runtime.execution_profile]. *)
Definition execution_profile (c : RuntimeApparatusConfiguration) :=
  (runtime_operation c, runtime_technology c, config_color_station_count c, config_min_web_width_mm c,
   config_max_web_width_mm c, config_virtual_tasks c, config_capability_compatible_reroute c).

Record Candidate := {
  candidate_index : nat;
  candidate_node : ProductionMapNode;
  candidate_config : RuntimeApparatusConfiguration;
  candidate_incoming : gset (string * string);
  candidate_outgoing : gset (string * string);
}.

Definition incoming_ends (map : ProductionMapDefinition) (id : string) : gset (string * string) :=
  list_to_set ((λ e, (edge_from e, edge_branch e)) <$> List.filter (λ e, edge_to e =s id) (map_edges map)).
Definition outgoing_ends (map : ProductionMapDefinition) (id : string) : gset (string * string) :=
  list_to_set ((λ e, (edge_to e, edge_branch e)) <$> List.filter (λ e, edge_from e =s id) (map_edges map)).

(** A machine without group or assignment, between other nodes. *)
Definition candidate_of (map : ProductionMapDefinition) (configs : configurations) (index : nat)
    (node : ProductionMapNode) : option Candidate :=
  if is_machine node && is_empty (alternative_group_id node) &&
     is_empty (alternative_assigned_apparatus_id node) then
    id ← base_apparatus_id node;
    canonical ← configs !! apparatus_id_str id;
    let incoming := incoming_ends map (node_id node) in
    let outgoing := outgoing_ends map (node_id node) in
    if negb (bool_decide (incoming = ∅)) && negb (bool_decide (outgoing = ∅))
    then Some {| candidate_index := index; candidate_node := node; candidate_config := canonical;
                 candidate_incoming := incoming; candidate_outgoing := outgoing |}
    else None
  else None.

Definition node_id_before (a b : Candidate) : Prop :=
  String.le (node_id (candidate_node a)) (node_id (candidate_node b)).
#[global] Instance node_id_before_dec : RelDecision node_id_before.
Proof. unfold node_id_before. intros ??. apply _. Defined.

Definition topology_candidates (map : ProductionMapDefinition) (configs : configurations) : list Candidate :=
  merge_sort node_id_before (omap id (imap (candidate_of map configs) (map_nodes map))).

Definition same_work_parameters (left right : ProductionMapNode) : bool :=
  bool_decide (node_formula left = node_formula right) && (node_item_code left =s node_item_code right) &&
  (node_qty_formula left =s node_qty_formula right) &&
  (node_from_location left =s node_from_location right) &&
  (node_to_location left =s node_to_location right) &&
  bool_decide (rezka_kadr_count left = rezka_kadr_count right) &&
  bool_decide (rezka_frame_groups left = rezka_frame_groups right) &&
  opt_eqb f64_eq (rezka_label_length left) (rezka_label_length right).

Definition interchangeable (a b : Candidate) : bool :=
  bool_decide (candidate_incoming a = candidate_incoming b) &&
  bool_decide (candidate_outgoing a = candidate_outgoing b) &&
  (config_equipment_class_id (candidate_config a) =s config_equipment_class_id (candidate_config b)) &&
  bool_decide (execution_profile (candidate_config a) = execution_profile (candidate_config b)) &&
  bool_decide (runtime_capabilities (candidate_config a) = runtime_capabilities (candidate_config b)) &&
  same_work_parameters (candidate_node a) (candidate_node b).

Definition candidate_machine (c : Candidate) : string := config_apparatus_id (candidate_config c).

(** One peer of [first]; the state is [members] and [apparatuses]. *)
Definition join_group (used : gset nat) (first : Candidate) (st : list nat * gset string) (peer : Candidate)
  : list nat * gset string :=
  if bool_decide (candidate_index peer ∉ used) && interchangeable first peer &&
     bool_decide (candidate_machine peer ∉ st.2)
  then (st.1 ++ [candidate_index peer], {[candidate_machine peer]} ∪ st.2)
  else st.

Definition group_members (used : gset nat) (first : Candidate) (peers : list Candidate) : list nat :=
  (foldl (join_group used first) ([candidate_index first], {[candidate_machine first]}) peers).1.

(** The groups, each with the node that names it. *)
Fixpoint collect_groups (cs : list Candidate) (used : gset nat) : list (Candidate * list nat) :=
  match cs with
  | [] => []
  | first :: peers =>
      if bool_decide (candidate_index first ∈ used) then collect_groups peers used
      else
        let members := group_members used first peers in
        if 1 <? length members
        then (first, members) :: collect_groups peers (list_to_set members ∪ used)
        else collect_groups peers used
  end.

(** [while !occupied.insert(group)]: [base], [base:1], [base:2], ... *)
Fixpoint free_group (occupied : gset string) (base : string) (fuel suffix : nat) (group : string) : string :=
  match fuel with
  | O => group
  | S fuel =>
      if bool_decide (group ∈ occupied)
      then free_group occupied base fuel (S suffix) (base +:+ ":" +:+ Z_to_string (Z.of_nat suffix))
      else group
  end.

Definition group_name (occupied : gset string) (first : Candidate) : string :=
  let base := "topology_alt:" +:+ node_id (candidate_node first) in
  free_group occupied base (S (size occupied)) 1 base.

Definition set_group (group : string) (members : list nat) (nodes : list ProductionMapNode)
  : list ProductionMapNode :=
  imap (λ i n, if bool_decide (i ∈ members) then n <| alternative_group_id := group |> else n) nodes.

(** One group gets its name; the state is [occupied] and the nodes. *)
Definition name_group (st : gset string * list ProductionMapNode) (group : Candidate * list nat)
  : gset string * list ProductionMapNode :=
  let name := group_name st.1 group.1 in
  ({[name]} ∪ st.1, set_group name group.2 st.2).

Definition occupied_groups (map : ProductionMapDefinition) : gset string :=
  list_to_set (List.filter (λ g, negb (is_empty g)) (alternative_group_id <$> map_nodes map)).

Definition normalize_topology_alternatives (configs : configurations) (map : ProductionMapDefinition)
  : ProductionMapDefinition :=
  with_nodes map
    (foldl name_group (occupied_groups map, map_nodes map)
       (collect_groups (topology_candidates map configs) ∅)).2.

(** * What a saved map satisfies (service.rs) *)

Section save.
Context `{J : Json} `{C : !RouteCodec} `{R : !ReportCodec} `{!Serde (list OrderLane)}.
Context `{!Serde (list OrderRunInputLink)} `{!Serde (list RezkaActivePartialRoll)}.
Context `{!Serde (list ProgressBatchInputLink)} `{!Serde ProductionQrSessionResources}.
Context `{!Serde QueueActionActor} `{!Serde WipInputRoute} `{UnicodeTables}.
Context (resolver : ApparatusId → pm_result (option RuntimeApparatusConfiguration)).

(** [filter_map(canonical_apparatus_id).collect::<BTreeSet<_>>()]. *)
Definition machine_ids (map : ProductionMapDefinition) : list string :=
  set_list (list_to_set (apparatus_id_str <$>
    omap canonical_apparatus_id (List.filter is_machine (map_nodes map)))).

Definition load_configuration (id : string) (st : configurations * gset ApparatusId)
  : pm_result (configurations * gset ApparatusId) :=
  canonical ← resolve_canonical_apparatus resolver (mk_ApparatusId id);
  Ok (<[id := canonical]> st.1,
      if bool_decide (runtime_operation canonical = ExecutionOperation.Cut)
      then {[mk_ApparatusId id]} ∪ st.2 else st.2).

Definition check_width (map : ProductionMapDefinition) (configs : configurations)
    (cut_ids : gset ApparatusId) (node : ProductionMapNode) (_ : unit) : pm_result unit :=
  match canonical_apparatus_id node ≫= λ id, configs !! apparatus_id_str id with
  | None => Ok tt
  | Some canonical =>
      if bool_decide (runtime_operation canonical = ExecutionOperation.Print) then Ok tt
      else
        let widths := stage_input_widths map (node_id node) cut_ids in
        _ ← check (existsb (λ w, is_some_and (config_min_web_width_mm canonical)
                     (λ minimum, f64_lt w (f64_of_Z minimum))) widths) ApparatusWidthBelowCapability;
        check (existsb (λ w, is_some_and (config_max_web_width_mm canonical)
                 (λ maximum, f64_lt (f64_of_Z maximum) w)) widths) ApparatusWidthExceedsCapability
  end.

Definition validate_and_normalize_map_apparatus (map : ProductionMapDefinition)
  : pm_result ProductionMapDefinition :=
  '(configs, cut_ids) ← for_each load_configuration (machine_ids map) (∅, ∅);
  _ ← for_each (check_width map configs cut_ids) (List.filter is_machine (map_nodes map)) tt;
  Ok (normalize_topology_alternatives configs map).

Record ProductionMapSaved := {
  saved_map : ProductionMapDefinition;
  saved_program : ProductionMapProgram;
}.

(** The part of [prepare_map] that looks at the map alone. *)
Definition checked_map (map : ProductionMapDefinition) : run_result ProductionMapSaved :=
  let map := normalize_map map in
  _ ← compile_map map;
  map ← lift (validate_and_normalize_map_apparatus map);
  program ← compile_map map;
  Ok {| saved_map := map; saved_program := program |}.

(** * Stages where work happened *)

Definition insert_apparatus_id (value : string) (target : gset string) : gset string :=
  if is_ok (ApparatusId_new (trim value)) then {[trim value]} ∪ target else target.

(** A held occurrence stays in the map, on its machine. *)
Definition check_held_stages (order_id : string) (next : ProductionMapDefinition) (s : order_store)
  : pm_result unit :=
  check (existsb (λ control,
      (control_order_id control =s order_id) &&
      negb (bool_decide (control_state control = OrderControl.Active)) &&
      negb (existsb (λ stage, (stage_node_id stage =s control_stage_node_id control) &&
              bool_decide (stage_apparatus_id stage =
                Some (default "" (freeze_target_apparatus <$> control_freeze_request control))))
            (linear_work_stages next)))
    (map_to_list (st_stage_order_controls s)).*2) StartedProductionMapStageLocked.

Definition started_state (allow_preflight_edit : bool) (raw : string) : bool :=
  let state := OrderState.parse raw in
  negb (bool_decide (state = Some OrderState.Pending)) &&
  negb (allow_preflight_edit && bool_decide (state = Some OrderState.PrintPreflight)).

(** The machines the order was worked on, from queue states and runs. *)
Definition started_in_queues (allow_preflight_edit : bool) (order_id : string) (states : station_states)
  : gset string :=
  foldl (λ started (entry : string * gmap string string),
    match entry.2 !! order_id with
    | Some raw => if started_state allow_preflight_edit raw then insert_apparatus_id entry.1 started else started
    | None => started
    end) ∅ (btree_entries states).

Definition started_in_runs (sessions : list RunSession) (started : gset string) : gset string :=
  foldl (λ started (session : RunSession), insert_apparatus_id (session_apparatus session) started) started sessions.

Definition started_by_rolls (batches : list OrderProgressBatch) (started : gset string) : gset string :=
  foldl (λ started b,
    insert_apparatus_id (batch_processed_by_apparatus b)
      (insert_apparatus_id (batch_used_by_apparatus b)
        (insert_apparatus_id (batch_current_apparatus b)
          (insert_apparatus_id (batch_apparatus b) started)))) started batches.

Definition runs_on_started (started : gset string) (n : ProductionMapNode) : bool :=
  is_machine n && is_some_and (canonical_apparatus_id n) (λ id, bool_decide (apparatus_id_str id ∈ started)).

(** The started nodes, with every node of their groups. *)
Definition locked_node_ids (previous : ProductionMapDefinition) (started : gset string) : gset string :=
  let locked : gset string :=
    list_to_set (node_id <$> List.filter (runs_on_started started) (map_nodes previous)) in
  let groups : gset string :=
    list_to_set (List.filter (λ g, negb (is_empty g))
      (group_of <$> List.filter (λ n, bool_decide (node_id n ∈ locked)) (map_nodes previous))) in
  if bool_decide (groups = ∅) then locked
  else locked ∪ list_to_set (node_id <$>
         List.filter (λ n, bool_decide (group_of n ∈ groups)) (map_nodes previous)).

Definition edges_into_locked (locked : gset string) (map : ProductionMapDefinition) : list ProductionMapEdge :=
  List.filter (λ e, bool_decide (edge_to e ∈ locked)) (map_edges map).

Definition check_locked_nodes (locked : gset string) (previous next : ProductionMapDefinition) : pm_result unit :=
  _ ← check (existsb (λ id, negb (opt_eqb node_eqb (find_node previous id) (find_node next id)))
               (set_list locked)) StartedProductionMapStageLocked;
  let before := edges_into_locked locked previous in
  let after := edges_into_locked locked next in
  check (negb (length before =? length after) ||
         existsb (λ e, negb (bool_decide (e ∈ after))) before) StartedProductionMapStageLocked.

Definition reject_started_stage_changes (next : ProductionMapDefinition) (allow_preflight_edit : bool)
    (s : order_store) : run_result unit :=
  match raw_map (map_id next) s with
  | None => Ok tt
  | Some previous =>
      let order_id := trim (map_id previous) in
      _ ← lift (check_held_stages order_id next s);
      states ← lift (apparatus_queue_states s);
      let started := started_in_queues allow_preflight_edit order_id states in
      let started := started_in_runs (order_run_sessions_for_order order_id s) started in
      let batches := progress_batches_for_order order_id s in
      _ ← validate_map_wip_routes previous next batches;
      let started := started_by_rolls batches started in
      if bool_decide (started = ∅) then Ok tt
      else
        _ ← lift (check (negb (list_eqb product_eqb (map_products previous) (map_products next)))
                    StartedProductionMapStageLocked);
        let locked := locked_node_ids previous started in
        if bool_decide (locked = ∅) then Ok tt
        else lift (check_locked_nodes locked previous next)
  end.

(** * Saving *)

(** Settings an edit does not name are kept. *)
Definition keep_settings (previous : option ProductionMapDefinition) (map : ProductionMapDefinition)
  : ProductionMapDefinition :=
  match previous with
  | None => map
  | Some previous => {|
      map_combo := map_combo map; map_products := map_products map; map_id := map_id map;
      map_product_code := map_product_code map; map_title := map_title map; map_code := map_code map;
      map_order_number := map_order_number map; map_customer_name := map_customer_name map;
      map_image_id := map_image_id map; map_roll_count := map_roll_count map;
      map_width_mm := map_width_mm map; map_print_val_size_mm := map_print_val_size_mm map;
      map_order_kg := map_order_kg map; map_base_length := map_base_length map;
      map_duplicate_rezka_labels := or_else (map_duplicate_rezka_labels map) (map_duplicate_rezka_labels previous);
      map_include_bobina_in_net := or_else (map_include_bobina_in_net map) (map_include_bobina_in_net previous);
      map_standard_print_side := map_standard_print_side previous;
      map_nodes := map_nodes map; map_edges := map_edges map |}
  end.

Definition prepare_map (map : ProductionMapDefinition) (allow_preflight_edit : bool) (s : order_store)
  : run_result ProductionMapSaved :=
  saved ← checked_map (keep_settings (map_by_id (trim (map_id map)) s) map);
  _ ← reject_started_stage_changes (saved_map saved) allow_preflight_edit s;
  Ok saved.

(** [order_edit::calculation_map_changed]. *)
Definition calculation_map_changed (before after : ProductionMapDefinition) : bool :=
  negb (list_eqb product_eqb (map_products before) (map_products after)) ||
  (map_product_code before <>s map_product_code after) || (map_title before <>s map_title after) ||
  (map_customer_name before <>s map_customer_name after) ||
  negb (bool_decide (map_roll_count before = map_roll_count after)) ||
  negb (opt_eqb f64_eq (map_width_mm before) (map_width_mm after)) ||
  negb (opt_eqb f64_eq (map_print_val_size_mm before) (map_print_val_size_mm after)) ||
  negb (opt_eqb f64_eq (map_order_kg before) (map_order_kg after)) ||
  negb (opt_eqb f64_eq (map_base_length before) (map_base_length after)).

Definition calculation_locked (previous : option ProductionMapDefinition) (map : ProductionMapDefinition) : bool :=
  negb (starts_with (map_id map) "template-") &&
  is_some_and previous (λ previous,
    negb (blank (map_order_number previous)) && calculation_map_changed previous map).

Definition put_tables (f : order_tables → order_tables * pm_result unit) (s : run_store) : run_store * run_result unit :=
  let '(t, r) := f (ts_tables s) in (with_tables t s, lift r).

Definition upsert_map (map : ProductionMapDefinition) (s : run_store) : run_store * run_result ProductionMapSaved :=
  match (_ ← lift (check (calculation_locked (map_by_id (trim (map_id map)) s) map) OpenedOrderCalculationLocked);
         prepare_map map false s) with
  | Err e => (s, Err e)
  | Ok saved =>
      match put_tables (put_map (saved_map saved)) s with
      | (s, Ok _) => (s, Ok saved)
      | (s, Err e) => (s, Err e)
      end
  end.

Definition upsert_maps_batch (maps : list ProductionMapDefinition) (s : run_store)
  : run_store * run_result (list ProductionMapSaved) :=
  match mapM (λ map, prepare_map map false s) maps with
  | Err e => (s, Err e)
  | Ok saved =>
      match put_tables (put_maps_batch (saved_map <$> saved)) s with
      | (s, Ok _) => (s, Ok saved)
      | (s, Err e) => (s, Err e)
      end
  end.

(** * Moving orders by their maps *)

Definition runs_for_id (id : string) (n : ProductionMapNode) : bool :=
  is_machine n && bool_decide (apparatus_id_str <$> canonical_apparatus_id n = Some id).
Definition based_on_id (id : string) (n : ProductionMapNode) : bool :=
  is_machine n && bool_decide (apparatus_id_str <$> base_apparatus_id n = Some id).

Definition move_allowed_by_id (map : ProductionMapDefinition) (from_id to_id : string) : bool :=
  if from_id =s to_id then false
  else match List.filter (runs_for_id from_id) (map_nodes map) with
  | [] => false
  | source_nodes =>
      match List.filter (λ g, negb (is_empty g)) (group_of <$> source_nodes) with
      | [] => true
      | groups => existsb (λ n, bool_decide (group_of n ∈ groups) && based_on_id to_id n) (map_nodes map)
      end
  end.

Definition reassign_alternatives (map : ProductionMapDefinition) (from to : string)
  : option ProductionMapDefinition :=
  let groups := group_of <$> List.filter (λ n, runs_for_id from n && negb (is_empty (group_of n))) (map_nodes map) in
  match groups with
  | [] => None
  | _ =>
      let in_groups n := is_machine n && bool_decide (group_of n ∈ groups) in
      let target_title := (λ n, trim (node_title n)) <$>
        List.find (λ n, in_groups n && based_on_id to n) (map_nodes map) in
      Some (with_nodes map ((λ n,
        if in_groups n
        then (n <| alternative_assigned_apparatus_id := to |>)
               <| alternative_assigned_title := default (alternative_assigned_title n) target_title |>
        else n) <$> map_nodes map))
  end.

Definition reassign_nodes (map : ProductionMapDefinition) (from to : string) : option ProductionMapDefinition :=
  let moved n := runs_for_id from n && is_empty (group_of n) in
  if existsb moved (map_nodes map)
  then Some (with_nodes map ((λ n, if moved n then n <| node_apparatus_id := to |> else n) <$> map_nodes map))
  else None.

(** [effective_apparatus_sequences_for_maps]. *)
Definition effective_sequences (maps : list ProductionMapDefinition)
    (stored : gmap string (list string)) (frozen : gset string) : gmap string (list string) :=
  let visible := visible_order_ids_by_apparatus maps in
  foldl (λ result apparatus,
    let sequence := default [] (stored !! apparatus) in
    let ids := default [] (visible !! apparatus) in
    <[apparatus := match ids with
      | [] => sequence
      | _ => effective_apparatus_sequence_excluding sequence ids frozen
      end]> result) ∅
    (List.filter is_canonical_apparatus_id (btree_keys stored ++ btree_keys visible)).

(** The order leaves the source queue and joins the end of the target queue. *)
Definition moved_sequences (configurations : list RuntimeApparatusConfiguration)
    (previous updated : list ProductionMapDefinition) (from to : string)
    (stored : gmap string (list string)) (frozen : gset string) : gmap string (list string) :=
  let effective := filter_unselected_print_orders previous configurations (effective_sequences previous stored frozen) in
  let moved := map_id <$> updated in
  let kept apparatus :=
    List.filter (λ id, bool_decide (id ∉ moved)) (default [] (effective !! apparatus)) in
  <[to := kept to ++ moved]> (<[from := kept from]> ∅).

(** The machines in service: [apparatus_resolver.list()] is an argument. *)
Definition active_canonical_apparatuses (listed : pm_result (list RuntimeApparatusConfiguration))
  : pm_result (list RuntimeApparatusConfiguration) :=
  all ← listed;
  _ ← check (negb (forallb has_coherent_source all)) StoreFailed;
  Ok (List.filter config_is_active all).

Definition persist_pending_move_maps (listed : pm_result (list RuntimeApparatusConfiguration))
    (previous updated : list ProductionMapDefinition) (from to : string) (s : run_store)
  : run_store * run_result unit :=
  match (stored ← apparatus_sequences (ts_tables s);
         configurations ← active_canonical_apparatuses listed;
         Ok (stored, configurations)) with
  | Err e => (s, Err (Fail e))
  | Ok (stored, configurations) =>
      let sequences := moved_sequences configurations previous updated from to stored (frozen_order_ids s) in
      let expected := <[to := default [] (stored !! to)]> (<[from := default [] (stored !! from)]> ∅) in
      put_tables (put_maps_with_sequences updated expected sequences) s
  end.

(** What both moves check of one order. *)
Definition order_moved (maps : list ProductionMapDefinition) (source target : RuntimeApparatusConfiguration)
    (map_id_ from to : string) (s : run_store) : pm_result ProductionMapDefinition :=
  map ← ok_or (List.find (λ m, trim (map_id m) =s map_id_) maps) MapNotFound;
  _ ← check (negb (move_allowed_by_id map from to) ||
             negb (reroute_order_compatible source target (map_roll_count map)
                     (print_compatibility_width_mm map))) MoveNotAllowed;
  _ ← ensure_normal_map_move_is_pending map_id_ from (rs_trials s);
  ok_or (or_else (reassign_alternatives map from to) (reassign_nodes map from to)) MoveNotAllowed.

Definition move_machines (from to : string)
  : pm_result (RuntimeApparatusConfiguration * RuntimeApparatusConfiguration) :=
  _ ← check (negb (is_ok (ApparatusId_new from))) MoveNotAllowed;
  _ ← check (negb (is_ok (ApparatusId_new to))) MoveNotAllowed;
  source ← resolve_canonical_apparatus resolver (mk_ApparatusId from);
  target ← resolve_canonical_apparatus resolver (mk_ApparatusId to);
  _ ← check (negb (reroute_compatible source target)) MoveNotAllowed;
  Ok (source, target).

Definition move_apparatus (listed : pm_result (list RuntimeApparatusConfiguration))
    (map_id_ from to : string) (s : run_store) : run_store * run_result ProductionMapSaved :=
  let map_id_ := to_ascii_lowercase (trim map_id_) in
  let from := trim from in
  let to := trim to in
  let maps := btree_values (st_maps s) in
  match (next ← lift (_ ← check (is_empty map_id_) MissingId;
                      _ ← check (is_empty to || eq_ignore_ascii_case from to) MoveNotAllowed;
                      '(source, target) ← move_machines from to;
                      next ← order_moved maps source target map_id_ from to s;
                      _ ← check (calculation_locked
                            (List.find (λ m, map_id m =s map_id next) maps) next) OpenedOrderCalculationLocked;
                      Ok next);
         prepare_map next false s) with
  | Err e => (s, Err e)
  | Ok saved =>
      match persist_pending_move_maps listed maps [saved_map saved] from to s with
      | (s, Ok _) => (s, Ok saved)
      | (s, Err e) => (s, Err e)
      end
  end.

(** [seen.insert(id)] in order. *)
Fixpoint distinct_ids (seen : gset string) (ids : list string) : list string :=
  match ids with
  | [] => []
  | id :: ids =>
      if bool_decide (id ∈ seen) then distinct_ids seen ids
      else id :: distinct_ids ({[id]} ∪ seen) ids
  end.

Definition compile_saved (map : ProductionMapDefinition) : run_result ProductionMapSaved :=
  program ← compile_map map; Ok {| saved_map := map; saved_program := program |}.

Definition move_apparatus_batch (listed : pm_result (list RuntimeApparatusConfiguration))
    (map_ids : list string) (from to : string) (s : run_store)
  : run_store * run_result (list ProductionMapSaved) :=
  let from := trim from in
  let to := trim to in
  let maps := btree_values (st_maps s) in
  match (updated ← lift (
           _ ← check (is_empty from || is_empty to || eq_ignore_ascii_case from to) MoveNotAllowed;
           let ids := distinct_ids ∅ (List.filter (λ id, negb (is_empty id))
                        ((λ id, to_ascii_lowercase (trim id)) <$> map_ids)) in
           _ ← check (match ids with [] => true | _ => false end) MissingId;
           '(source, target) ← move_machines from to;
           mapM (λ id, order_moved maps source target id from to s) ids);
         mapM compile_saved updated) with
  | Err e => (s, Err e)
  | Ok saved =>
      match persist_pending_move_maps listed maps (saved_map <$> saved) from to s with
      | (s, Ok _) => (s, Ok saved)
      | (s, Err e) => (s, Err e)
      end
  end.
End save.
