(* ===== verification/MapSaveFacts.v ===== *)
(** Correctness of saving maps: interchangeable machines are grouped once and for all, a
    checked map stays as it is when it is checked again, work that was started is kept, and a
    request that fails leaves the store unchanged. *)
From Stdlib Require Import Ascii.
From S2P Require Import Prelude RustStr F64 Json Errors Identity QueueState OrderLayout MapDefinition Formula Compiler GraphFacts CompilerFacts Bfs Chain Projection SequenceMove Scheduler Progress WipRoute Lifecycle StageExecution OrderRefresh OrderStore Visibility Preflight QueueMoves Epc CutLayout Paddon Metrics Lineage RunStore Warehouse QueueCommit Materials Ids OpeningWip OpeningWipFacts Pechat Automatic AutomaticFacts Transfer TransferFacts MapSave.

(** * Groups *)

(** ** One group *)

Record joined (used : gset nat) (first : Candidate) (seen chosen : list Candidate)
    (st : list nat * gset string) : Prop := {
  joined_members : st.1 = candidate_index <$> first :: chosen;
  joined_machines : ∀ m, m ∈ st.2 ↔ ∃ c, c ∈ first :: chosen ∧ candidate_machine c = m;
  joined_sub : chosen `sublist_of` seen;
  joined_fit : ∀ c, c ∈ chosen → (candidate_index c ∉ used) ∧ interchangeable first c = true;
  joined_distinct : NoDup (candidate_machine <$> first :: chosen);
  joined_all : ∀ c, c ∈ seen → candidate_index c ∉ used → interchangeable first c = true →
    ∃ d, d ∈ first :: chosen ∧ candidate_machine d = candidate_machine c;
}.

Lemma group_joined used first peers :
  ∃ chosen, joined used first peers chosen
    (foldl (join_group used first) ([candidate_index first], {[candidate_machine first]}) peers).
Proof.
  induction peers as [|p peers IH] using rev_ind.
  { exists []. split; cbn; [done|set_solver|done|set_solver|apply NoDup_singleton|set_solver]. }
  destruct IH as (chosen & [Hm Hs Hsub Hfit Hd Hall]). rewrite foldl_app. cbn [foldl].
  destruct (foldl _ _ peers) as [members machines]. cbn in Hm, Hs. unfold join_group at 1. cbn [fst snd].
  destruct (bool_decide (candidate_index p ∉ used)) eqn:Eu; cbn [andb].
  2:{ apply bool_decide_eq_false in Eu. exists chosen. split; cbn; [done|done|by apply sublist_inserts_r|done|done|].
      intros c [Hc| ->%list_elem_of_singleton]%elem_of_app; [by apply Hall|done]. }
  destruct (interchangeable first p) eqn:Ei; cbn [andb].
  2:{ exists chosen. split; cbn; [done|done|by apply sublist_inserts_r|done|done|].
      intros c [Hc| ->%list_elem_of_singleton]%elem_of_app; [by apply Hall|congruence]. }
  apply bool_decide_eq_true in Eu. case_bool_decide as Hnew.
  - exists (chosen ++ [p]). split; cbn.
    + by rewrite Hm, fmap_app.
    + intros m. rewrite elem_of_union, elem_of_singleton, Hs. set_solver.
    + by apply sublist_app.
    + intros c [Hc| ->%list_elem_of_singleton]%elem_of_app; [by apply Hfit|done].
    + rewrite fmap_app, app_comm_cons. apply NoDup_app. split_and!; [done| |apply NoDup_singleton].
      intros m Hin ->%list_elem_of_singleton. apply Hnew, Hs.
      change (candidate_machine p ∈ candidate_machine <$> first :: chosen) in Hin.
      apply list_elem_of_fmap in Hin as (c & -> & Hc). eauto.
    + intros c [Hc| ->%list_elem_of_singleton]%elem_of_app Hu Hi.
      * destruct (Hall c Hc Hu Hi) as (d & Hdin & ?). exists d. set_solver.
      * exists p. set_solver.
  - exists chosen. split; cbn; [done|done|by apply sublist_inserts_r|done|done|].
    intros c [Hc| ->%list_elem_of_singleton]%elem_of_app Hu Hi; [by apply Hall|].
    by apply Hs.
Qed.

(** ** All groups *)

(** The nodes that are in a group. *)
Definition grouped (gs : list (Candidate * list nat)) : list nat := concat gs.*2.

Record group_ok (cs : list Candidate) (g : Candidate * list nat) : Prop := {
  group_first : g.1 ∈ cs;
  group_is : ∃ chosen, g.2 = candidate_index <$> g.1 :: chosen ∧ chosen ≠ [] ∧
    (∀ c, c ∈ chosen → c ∈ cs ∧ interchangeable g.1 c = true) ∧
    NoDup (candidate_machine <$> g.1 :: chosen);
}.

Lemma group_ok_mono cs cs' g : (∀ c, c ∈ cs → c ∈ cs') → group_ok cs g → group_ok cs' g.
Proof.
  intros Hsub [Hf (chosen & Hm & Hne & Hc & Hd)]. split; [auto|].
  exists chosen. split_and!; [done|done| |done]. intros c Hin. destruct (Hc c Hin). auto.
Qed.

(** Two candidates, the first before the second, that could share a group but are left out. *)
Definition left_pair (out : nat → Prop) (cs : list Candidate) (a b : Candidate) : Prop :=
  ∃ pre mid post, cs = pre ++ a :: mid ++ b :: post ∧ out (candidate_index a) ∧ out (candidate_index b) ∧
    interchangeable a b = true.

Lemma left_pair_cons out c cs a b :
  left_pair out (c :: cs) a b → (c = a ∧ b ∈ cs ∧ out (candidate_index a) ∧ out (candidate_index b) ∧
    interchangeable a b = true) ∨ left_pair out cs a b.
Proof.
  intros (pre & mid & post & E & Ha & Hb & Hi). destruct pre as [|x pre]; injection E as -> ->.
  - left. split_and!; [done|set_solver|done..].
  - right. by exists pre, mid, post.
Qed.

Lemma collect_groups_spec cs used :
  NoDup (candidate_index <$> cs) →
  (∀ g, g ∈ collect_groups cs used → group_ok cs g) ∧
  NoDup (grouped (collect_groups cs used)) ∧
  (∀ i, i ∈ grouped (collect_groups cs used) → i ∉ used) ∧
  (∀ a b, left_pair (λ i, (i ∉ used) ∧ i ∉ grouped (collect_groups cs used)) cs a b →
     candidate_machine a = candidate_machine b).
Proof.
  revert used. induction cs as [|first peers IH]; intros used Hnd.
  { cbn. split_and!; [set_solver|constructor|set_solver|].
    intros a b (pre & mid & post & E & _). by destruct pre. }
  rewrite fmap_cons, NoDup_cons in Hnd. destruct Hnd as [Hfresh Hnd]. cbn [collect_groups].
  assert (∀ g, group_ok peers g → group_ok (first :: peers) g) as Hmono
    by (intros g; apply group_ok_mono; set_solver).
  case_bool_decide as Hu.
  - destruct (IH used Hnd) as (H1 & H2 & H3 & H4). split_and!; [auto|done|done|].
    intros a b [(-> & _ & [Hno _] & _)|Hp]%left_pair_cons; [done|auto].
  - destruct (group_joined used first peers) as (chosen & [Hm _ Hsub Hfit Hdist Hall]).
    unfold group_members. destruct (foldl _ _ peers) as [members machines]. cbn in Hm. subst members. cbn [fst].
    destruct chosen as [|c0 chosen].
    + cbn [fmap list_fmap length Nat.ltb Nat.leb].
      destruct (IH used Hnd) as (H1 & H2 & H3 & H4). split_and!; [auto|done|done|].
      intros a b [(<- & Hb & [Hau _] & [Hbu _] & Hi)|Hp]%left_pair_cons; [|auto].
      destruct (Hall b Hb Hbu Hi) as (d & ->%list_elem_of_singleton & ?). done.
    + set (ch := c0 :: chosen) in *.
      assert ((1 <? length (candidate_index first :: (candidate_index <$> ch))) = true) as -> by done.
      set (members := candidate_index first :: (candidate_index <$> ch)).
      destruct (IH (list_to_set members ∪ used) Hnd) as (H1 & H2 & H3 & H4).
      assert (NoDup members) as Hmem.
      { unfold members. apply NoDup_cons. split.
        - intros Hin. apply Hfresh. eapply elem_of_submseteq; [exact Hin|].
          apply sublist_submseteq. by apply (fmap_sublist candidate_index).
        - eapply sublist_NoDup; [exact Hnd|]. by apply (fmap_sublist candidate_index). }
      split_and!.
      * intros g [->|Hg]%elem_of_cons; [|auto]. split; [left|]. exists ch. split_and!; [done|done| |done].
        intros c Hc. split; [|by apply Hfit]. right. eapply elem_of_submseteq; [exact Hc|by apply sublist_submseteq].
      * unfold grouped. cbn [fmap list_fmap concat snd]. apply NoDup_app. split_and!; [done| |done].
        intros i Hi Hno. apply H3 in Hno. set_solver.
      * intros i. unfold grouped. cbn [fmap list_fmap concat snd]. intros [Hi|Hi]%elem_of_app.
        -- unfold members in Hi. apply elem_of_cons in Hi as [->|Hi]; [done|].
           apply list_elem_of_fmap in Hi as (c & -> & Hc). by apply Hfit.
        -- apply H3 in Hi. set_solver.
      * intros a b [(<- & _ & [_ Hno] & _)|Hp]%left_pair_cons.
        { exfalso. apply Hno. unfold grouped. cbn. left. }
        apply H4. destruct Hp as (pre & mid & post & -> & [Hau Hag] & [Hbu Hbg] & Hi).
        exists pre, mid, post. unfold grouped in *. cbn [fmap list_fmap concat snd] in *.
        split_and!; [done|set_solver..|done].
Qed.

(** ** Names of groups *)

Definition nth_name (base : string) (k : nat) : string :=
  match k with O => base | _ => base +:+ ":" +:+ Z_to_string (Z.of_nat k) end.

Lemma nth_name_inj base i j : nth_name base i = nth_name base j → i = j.
Proof.
  assert (∀ k, base ≠ base +:+ ":" +:+ Z_to_string (Z.of_nat k)) as Hne.
  { intros k E. apply (f_equal String.length) in E. rewrite !append_length in E. cbn in E. lia. }
  destruct i as [|i], j as [|j]; cbn [nth_name]; intros E; [done|by apply Hne in E|by symmetry in E; apply Hne in E|].
  apply append_inj_l, append_inj_l in E. rewrite !Z_to_string_of_nat in E. apply N_to_string_inj in E. lia.
Qed.

Lemma free_group_spec occupied base fuel k :
  (∃ n, free_group occupied base fuel (S k) (nth_name base k) = nth_name base n) ∧
  (free_group occupied base fuel (S k) (nth_name base k) ∉ occupied ∨
   ∀ i, i < fuel → nth_name base (k + i) ∈ occupied).
Proof.
  revert k. induction fuel as [|fuel IH]; intros k; cbn [free_group].
  { split; [by exists k|]. right. lia. }
  case_bool_decide as Hin; [|split; [by exists k|by left]].
  destruct (IH (S k)) as [Hn Hf]. split; [exact Hn|].
  destruct Hf as [Hf|Hf]; [by left|]. right. intros [|i] Hi; [by rewrite Nat.add_0_r|].
  rewrite Nat.add_succ_r. apply (Hf i). lia.
Qed.

(** The loop ends with a name no group has: there are more tries than names. *)
Lemma group_name_fresh occupied first : group_name occupied first ∉ occupied.
Proof.
  unfold group_name. set (base := _ +:+ _).
  destruct (free_group_spec occupied base (S (size occupied)) 0) as [_ [Hf|Hall]]; [done|exfalso].
  assert (NoDup (nth_name base <$> seq 0 (S (size occupied)))) as Hnd.
  { apply NoDup_fmap_2; [|apply NoDup_seq]. intros i j. apply nth_name_inj. }
  assert (list_to_set (nth_name base <$> seq 0 (S (size occupied))) ⊆ occupied) as Hsub.
  { intros x. rewrite elem_of_list_to_set, list_elem_of_fmap. intros (i & -> & Hi%elem_of_seq).
    apply (Hall i). lia. }
  apply subseteq_size in Hsub. rewrite size_list_to_set in Hsub by done.
  rewrite length_fmap, length_seq in Hsub. lia.
Qed.

Lemma group_name_form occupied first :
  ∃ k, group_name occupied first = nth_name ("topology_alt:" +:+ node_id (candidate_node first)) k.
Proof. by apply (free_group_spec _ _ _ 0). Qed.

Lemma group_name_nonempty occupied first : is_empty (group_name occupied first) = false.
Proof. destruct (group_name_form occupied first) as [[|k] ->]; done. Qed.

(** ** The nodes *)

Lemma set_group_lookup group members nodes i :
  set_group group members nodes !! i =
  (λ n, if bool_decide (i ∈ members) then n <| alternative_group_id := group |> else n) <$> nodes !! i.
Proof. unfold set_group. by rewrite list_lookup_imap. Qed.

(** The names the groups get, in order. *)
Fixpoint names_of (occupied : gset string) (gs : list (Candidate * list nat)) : list string :=
  match gs with
  | [] => []
  | g :: gs => let name := group_name occupied g.1 in name :: names_of ({[name]} ∪ occupied) gs
  end.

Lemma names_of_fresh occupied gs :
  NoDup (names_of occupied gs) ∧ ∀ name, name ∈ names_of occupied gs → name ∉ occupied.
Proof.
  revert occupied. induction gs as [|g gs IH]; intros occupied; cbn [names_of]; [split; [constructor|set_solver]|].
  destruct (IH ({[group_name occupied g.1]} ∪ occupied)) as [Hnd Hf]. split.
  - apply NoDup_cons. split; [|done]. intros Hin%Hf. set_solver.
  - intros name [->|Hin%Hf]%elem_of_cons; [apply group_name_fresh|set_solver].
Qed.

(** Where groups are disjoint a node ends up with the name of its group, or as it was. *)
Lemma name_groups_lookup gs occupied nodes i :
  NoDup (grouped gs) →
  (foldl name_group (occupied, nodes) gs).2 !! i =
  match nodes !! i with
  | None => None
  | Some n =>
      Some (match List.find (λ p : (Candidate * list nat) * string, bool_decide (i ∈ p.1.2))
                    (zip gs (names_of occupied gs)) with
            | Some p => n <| alternative_group_id := p.2 |>
            | None => n
            end)
  end.
Proof.
  revert occupied nodes. induction gs as [|g gs IH]; intros occupied nodes Hnd; cbn [foldl names_of zip zip_with List.find].
  { simpl. destruct (nodes !! i); reflexivity. }
  unfold grouped in Hnd. cbn [fmap list_fmap concat] in Hnd. apply NoDup_app in Hnd as (_ & Hdisj & Hnd).
  unfold name_group at 2. cbn [fst snd]. rewrite IH by done. rewrite set_group_lookup.
  destruct (nodes !! i) as [n|] eqn:En; [|done]. cbn [fmap option_fmap option_map fst snd].
  case_bool_decide as Hin; [|done].
  destruct (List.find _ (zip gs _)) as [p|] eqn:Ef; [|done]. exfalso.
  apply find_elem in Ef as [Hp Hb%bool_decide_eq_true]. apply (Hdisj i Hin).
  destruct p as [p name]. apply elem_of_zip_l in Hp. cbn in Hb.
  apply list_elem_of_In, in_concat. exists p.2. split; [|by apply list_elem_of_In].
  apply list_elem_of_In. by apply list_elem_of_fmap_2.
Qed.

(** ** Candidates *)

Lemma candidate_of_inv map configs i n c :
  candidate_of map configs i n = Some c →
  candidate_index c = i ∧ candidate_node c = n ∧ is_empty (alternative_group_id n) = true.
Proof.
  unfold candidate_of. destruct (is_machine n); [|done].
  destruct (is_empty (alternative_group_id n)); [|done]. destruct (is_empty _); [|done]. cbn [andb].
  destruct (base_apparatus_id n) as [id|]; [|done]. cbn.
  destruct (configs !! _) as [canonical|]; [|done]. cbn.
  destruct (_ && _); [|done]. intros [= <-]. done.
Qed.

Lemma topology_candidates_elem map configs c :
  c ∈ topology_candidates map configs ↔
  ∃ i n, map_nodes map !! i = Some n ∧ candidate_of map configs i n = Some c.
Proof.
  unfold topology_candidates. rewrite merge_sort_Permutation, list_elem_of_omap. split.
  - intros (o & Ho & Hc). cbn in Hc. subst o. apply elem_of_lookup_imap in Ho as (i & n & Hi & Hn). eauto.
  - intros (i & n & Hn & Hc). exists (Some c). split; [|done]. rewrite <-Hc.
    by apply elem_of_lookup_imap_2.
Qed.

Lemma numbered_candidates (f : nat → ProductionMapNode → option Candidate) nodes :
  (∀ i n c, f i n = Some c → candidate_index c = i) →
  NoDup (candidate_index <$> omap id (imap f nodes)).
Proof.
  revert f. induction nodes as [|n nodes IH]; intros f Hf; [constructor|].
  cbn [imap omap list_omap].
  assert (NoDup (candidate_index <$> omap id (imap (f ∘ S) nodes)) ∧
          ∀ c, c ∈ omap id (imap (f ∘ S) nodes) → candidate_index c ≠ 0) as [Hnd Hne].
  { split.
    - assert (∀ l, candidate_index <$> omap id (imap (f ∘ S) l) =
                   S <$> (pred ∘ candidate_index <$> omap id (imap (f ∘ S) l))) as Hpred.
      { intros l. rewrite <-list_fmap_compose. apply list_fmap_ext. intros k c Hk.
        apply list_elem_of_lookup_2 in Hk. apply list_elem_of_omap in Hk as (o & Ho & Hc). cbn in Hc. subst o.
        apply elem_of_lookup_imap in Ho as (i & m & Hi & _). symmetry in Hi. apply Hf in Hi. cbn. lia. }
      rewrite Hpred. apply NoDup_fmap_2; [apply _|].
      set (g := λ i m, (λ c, {| candidate_index := pred (candidate_index c); candidate_node := candidate_node c;
         candidate_config := candidate_config c; candidate_incoming := candidate_incoming c;
         candidate_outgoing := candidate_outgoing c |}) <$> f (S i) m).
      specialize (IH g). replace (pred ∘ candidate_index <$> omap id (imap (f ∘ S) nodes))
        with (candidate_index <$> omap id (imap g nodes)).
      + apply IH. intros i m c. unfold g. intros (d & Hd & ->)%fmap_Some_1. apply Hf in Hd. cbn. lia.
      + clear. unfold g. generalize S as s. induction nodes as [|m nodes IH]; intros s; [done|].
        cbn [imap omap list_omap compose]. destruct (f (s 0) m) as [c|]; cbn; [f_equal|]; apply (IH (s ∘ S)).
    - intros c (o & Ho & Hc)%list_elem_of_omap. cbn in Hc. subst o.
      apply elem_of_lookup_imap in Ho as (i & m & Hi & _). symmetry in Hi. apply Hf in Hi. cbn in Hi. lia. }
  cbn [id]. destruct (f 0 n) as [c|] eqn:E; [|done].
  rewrite fmap_cons. apply NoDup_cons. split; [|done].
  rewrite (Hf _ _ _ E). intros (d & Hd & Hin)%list_elem_of_fmap. by apply (Hne d).
Qed.

Lemma topology_candidates_NoDup map configs :
  NoDup (candidate_index <$> topology_candidates map configs).
Proof.
  unfold topology_candidates.
  assert (candidate_index <$> merge_sort node_id_before (omap id (imap (candidate_of map configs) (map_nodes map)))
    ≡ₚ candidate_index <$> omap id (imap (candidate_of map configs) (map_nodes map))) as ->
    by (by rewrite merge_sort_Permutation).
  apply numbered_candidates. intros i n c Hc. by apply candidate_of_inv in Hc as (-> & _).
Qed.

Lemma f64_eq_sym x y : f64_eq x y = f64_eq y x.
Proof.
  unfold f64_eq, SFeqb, SFcompare.
  destruct x as [s|s| |s m e], y as [s'|s'| |s' m' e']; try done; try (by destruct s); try (by destruct s').
  1: by destruct s, s'.
  destruct s, s'; try done.
  all: rewrite (Z.compare_antisym e e'); destruct (Z.compare e e') eqn:E; cbn; try done.
  all: change (Pos.compare_cont Eq m' m) with (Pos.compare m' m); rewrite (Pos.compare_antisym m m').
  all: change (Pos.compare_cont Eq m m') with (Pos.compare m m'); by destruct (Pos.compare m m').
Qed.

Lemma opt_eqb_sym {A} (f : A → A → bool) a b : (∀ x y, f x y = f y x) → opt_eqb f a b = opt_eqb f b a.
Proof. intros Hf. by destruct a, b; cbn. Qed.

Lemma bool_decide_eq_sym {A} `{EqDecision A} (x y : A) : bool_decide (x = y) = bool_decide (y = x).
Proof. by apply bool_decide_ext. Qed.

Lemma interchangeable_sym a b : interchangeable a b = interchangeable b a.
Proof.
  unfold interchangeable, same_work_parameters.
  rewrite (opt_eqb_sym f64_eq) by apply f64_eq_sym.
  rewrite (bool_decide_eq_sym (candidate_incoming a)), (bool_decide_eq_sym (candidate_outgoing a)),
    (bool_decide_eq_sym (execution_profile _)), (bool_decide_eq_sym (runtime_capabilities _)),
    (bool_decide_eq_sym (node_formula _)), (bool_decide_eq_sym (rezka_kadr_count _)),
    (bool_decide_eq_sym (rezka_frame_groups _)).
  by rewrite (String.eqb_sym (config_equipment_class_id _)), (String.eqb_sym (node_item_code _)),
    (String.eqb_sym (node_qty_formula _)), (String.eqb_sym (node_from_location _)),
    (String.eqb_sym (node_to_location _)).
Qed.

(** Two elements of a list, one before the other. *)
Lemma two_of_list {A} (l : list A) a b :
  a ∈ l → b ∈ l → a = b ∨ (∃ pre mid post, l = pre ++ a :: mid ++ b :: post) ∨
  (∃ pre mid post, l = pre ++ b :: mid ++ a :: post).
Proof.
  intros (l1 & l2 & ->)%list_elem_of_split [Hb|[->|Hb]%elem_of_cons]%elem_of_app; [|by left|].
  - apply list_elem_of_split in Hb as (m1 & m2 & ->). right; right. exists m1, m2, l2.
    by rewrite <-app_assoc.
  - apply list_elem_of_split in Hb as (m1 & m2 & ->). right; left. by exists l1, m1, m2.
Qed.

Lemma collect_groups_none cs used :
  (∀ a b, a ∈ cs → b ∈ cs → interchangeable a b = true → candidate_machine a = candidate_machine b) →
  collect_groups cs used = [].
Proof.
  revert used. induction cs as [|first peers IH]; intros used Hsame; [done|]. cbn [collect_groups].
  assert (∀ u, collect_groups peers u = []) as Hrest by (intros u; apply IH; set_solver).
  case_bool_decide; [done|].
  destruct (group_joined used first peers) as (chosen & [Hm _ Hsub Hfit Hdist _]).
  unfold group_members. destruct (foldl _ _ peers) as [members machines]. cbn in Hm. subst members. cbn [fst].
  destruct chosen as [|c chosen]; [apply Hrest|]. exfalso.
  rewrite fmap_cons, NoDup_cons in Hdist. destruct Hdist as [Hno _]. apply Hno.
  rewrite (Hsame first c); [set_solver|left| |apply Hfit; left].
  right. eapply elem_of_submseteq; [left|by apply sublist_submseteq].
Qed.

(** ** Grouping a map *)

Definition topology_groups (configs : configurations) (map : ProductionMapDefinition) : list (Candidate * list nat) :=
  collect_groups (topology_candidates map configs) ∅.

Definition topology_names (configs : configurations) (map : ProductionMapDefinition) : list string :=
  names_of (occupied_groups map) (topology_groups configs map).

Lemma names_of_length occupied gs : length (names_of occupied gs) = length gs.
Proof. revert occupied. induction gs as [|g gs IH]; intros occupied; cbn; auto. Qed.

Lemma names_of_form occupied gs name :
  name ∈ names_of occupied gs →
  ∃ g k, g ∈ gs ∧ name = nth_name ("topology_alt:" +:+ node_id (candidate_node g.1)) k.
Proof.
  revert occupied. induction gs as [|g gs IH]; intros occupied; cbn [names_of]; [set_solver|].
  intros [->|Hin]%elem_of_cons.
  - destruct (group_name_form occupied g.1) as [k Hk]. exists g, k. split; [left|done].
  - destruct (IH _ Hin) as (g' & k & Hg & ->). exists g', k. split; [by right|done].
Qed.

Section grouping.
Context (configs : configurations) (map : ProductionMapDefinition).
Abbreviation groups := (topology_groups configs map).
Abbreviation names := (topology_names configs map).

Lemma groups_spec :
  (∀ g, g ∈ groups → group_ok (topology_candidates map configs) g) ∧ NoDup (grouped groups) ∧
  (∀ a b, left_pair (λ i, i ∉ grouped groups) (topology_candidates map configs) a b →
     candidate_machine a = candidate_machine b).
Proof.
  destruct (collect_groups_spec (topology_candidates map configs) ∅) as (H1 & H2 & _ & H4);
    [apply topology_candidates_NoDup|].
  split_and!; [done|done|]. intros a b (pre & mid & post & E & Ha & Hb & Hi). apply H4.
  exists pre, mid, post. split_and!; [done|set_solver|done|set_solver|done|done].
Qed.

(** Candidates left out agree on their machine wherever they could share a group. *)
Lemma left_out_agree a b :
  a ∈ topology_candidates map configs → b ∈ topology_candidates map configs →
  candidate_index a ∉ grouped groups → candidate_index b ∉ grouped groups →
  interchangeable a b = true → candidate_machine a = candidate_machine b.
Proof.
  intros Ha Hb Hia Hib Hi. destruct groups_spec as (_ & _ & Hpair).
  destruct (two_of_list _ a b Ha Hb) as [->|[(pre & mid & post & E)|(pre & mid & post & E)]]; [done| |].
  - apply Hpair. by exists pre, mid, post.
  - symmetry. apply Hpair. exists pre, mid, post. by rewrite interchangeable_sym.
Qed.

Lemma topology_lookup i :
  map_nodes (normalize_topology_alternatives configs map) !! i =
  match map_nodes map !! i with
  | None => None
  | Some n =>
      Some (match List.find (λ p : (Candidate * list nat) * string, bool_decide (i ∈ p.1.2)) (zip groups names) with
            | Some p => n <| alternative_group_id := p.2 |>
            | None => n
            end)
  end.
Proof.
  unfold normalize_topology_alternatives. cbn [map_nodes with_nodes with_graph].
  apply name_groups_lookup. apply groups_spec.
Qed.

Lemma ungrouped_index i :
  List.find (λ p : (Candidate * list nat) * string, bool_decide (i ∈ p.1.2)) (zip groups names) = None →
  i ∉ grouped groups.
Proof.
  intros Hf. rewrite find_none_elem in Hf. unfold grouped.
  rewrite list_elem_of_In, in_concat. intros (ms & Hms & Hi).
  apply list_elem_of_In, list_elem_of_fmap in Hms as (g & -> & Hg).
  apply list_elem_of_lookup in Hg as [k Hk].
  destruct (lookup_lt_is_Some_2 names k) as [name Hname].
  { unfold topology_names. rewrite names_of_length. by eapply lookup_lt_Some. }
  assert ((g, name) ∈ zip groups names) as Hz.
  { apply (list_elem_of_lookup_2 _ k). apply lookup_zip_with_Some. eauto. }
  specialize (Hf _ Hz). apply bool_decide_eq_false in Hf. apply Hf. by apply list_elem_of_In.
Qed.

Lemma group_names_nonempty p : p ∈ zip groups names → is_empty p.2 = false.
Proof.
  intros Hp. destruct p as [g name]. apply elem_of_zip_r in Hp.
  by apply names_of_form in Hp as (? & [|k] & _ & ->).
Qed.

Lemma settled_candidates c :
  c ∈ topology_candidates (normalize_topology_alternatives configs map) configs →
  c ∈ topology_candidates map configs ∧ candidate_index c ∉ grouped groups.
Proof.
  rewrite !topology_candidates_elem. intros (i & n' & Hn & Hc).
  rewrite topology_lookup in Hn. destruct (map_nodes map !! i) as [n|] eqn:En; [|done].
  destruct (List.find _ _) as [p|] eqn:Ef; injection Hn as <-.
  - exfalso. apply find_elem in Ef as [Hp _]. apply candidate_of_inv in Hc as (_ & _ & He).
    cbn in He. by rewrite (group_names_nonempty p Hp) in He.
  - change (candidate_of map configs i n = Some c) in Hc.
    pose proof (candidate_of_inv _ _ _ _ _ Hc) as (Hi & _ & _). split; [eauto|].
    rewrite Hi. by apply ungrouped_index.
Qed.

Lemma topology_idemp :
  normalize_topology_alternatives configs (normalize_topology_alternatives configs map) =
  normalize_topology_alternatives configs map.
Proof.
  unfold normalize_topology_alternatives at 1. rewrite collect_groups_none; [by destruct map|].
  intros a b [Ha Hia]%settled_candidates [Hb Hib]%settled_candidates. by apply left_out_agree.
Qed.
End grouping.

Lemma zip_same_name (gs : list (Candidate * list nat)) (names : list string) p q :
  NoDup names → p ∈ zip gs names → q ∈ zip gs names → p.2 = q.2 → p = q.
Proof.
  intros Hnd [i Hi]%list_elem_of_lookup [j Hj]%list_elem_of_lookup Hpq.
  apply lookup_zip_with_Some in Hi as (g & x & -> & Hg & Hx).
  apply lookup_zip_with_Some in Hj as (h & y & -> & Hh & Hy). cbn in Hpq. subst y.
  pose proof (NoDup_lookup _ _ _ _ Hnd Hx Hy) as ->. by simplify_eq.
Qed.

(** Two members of a group: candidates that could both share a group with its first. *)
Definition fits_with (first c : Candidate) : Prop := first = c ∨ interchangeable first c = true.

Lemma group_pair cs g i j :
  group_ok cs g → i ∈ g.2 → j ∈ g.2 → i ≠ j → NoDup (candidate_index <$> cs) →
  ∃ a b, a ∈ cs ∧ b ∈ cs ∧ candidate_index a = i ∧ candidate_index b = j ∧
    fits_with g.1 a ∧ fits_with g.1 b ∧ candidate_machine a ≠ candidate_machine b.
Proof.
  intros [Hf (chosen & Hm & _ & Hc & Hd)] Hi Hj Hij Hnd. rewrite Hm in Hi, Hj.
  apply list_elem_of_fmap in Hi as (a & -> & Ha). apply list_elem_of_fmap in Hj as (b & -> & Hb).
  assert (∀ c, c ∈ g.1 :: chosen → c ∈ cs ∧ fits_with g.1 c) as Hfit.
  { intros c [->|Hin]%elem_of_cons; [by split; [|left]|]. destruct (Hc c Hin). split; [done|by right]. }
  exists a, b. destruct (Hfit a Ha), (Hfit b Hb). split_and!; try done.
  intros Hmach. apply Hij. f_equal.
  apply list_elem_of_lookup in Ha as [k Hk]. apply list_elem_of_lookup in Hb as [l Hl].
  assert (k = l) as ->; [|congruence].
  eapply (NoDup_lookup (candidate_machine <$> g.1 :: chosen) k l (candidate_machine a)); [done|..];
    rewrite list_lookup_fmap; [by rewrite Hk|by rewrite Hl, Hmach].
Qed.

(** * A checked map is settled *)

(** ** Text of group names *)

Lemma trim_rev_after q r : trim_rev q = q → trim_rev (q +:+ String ":" r) = q +:+ String ":" r.
Proof.
  assert (∀ b, ws2 b ":" = false) as H2 by (intros b; unfold ws2; by rewrite andb_false_r).
  assert (∀ b c, ws3 c b ":" = false) as H3 by (intros b c; unfold ws3; by rewrite !andb_false_r).
  intros H. destruct q as [|a [|b [|c s]]].
  { change ("" +:+ String ":" r) with (String ":" r). cbn [trim_rev]. change (ws1 ":") with false. cbn [trim_rev].
    destruct r as [|b [|c r]]; [done|..]; rewrite H2; [done|]. by rewrite H3. }
  - cbn in H. change (String a "" +:+ String ":" r) with (String a (String ":" r)). cbn [trim_rev].
    destruct (ws1 a); [done|]. change (ws2 ":" a) with false. cbn [trim_rev].
    destruct r as [|c r]; [done|]. replace (ws3 c ":" a) with false; [done|].
    unfold ws3. by rewrite !andb_false_r.
  - change (String a (String b "") +:+ String ":" r) with (String a (String b (String ":" r))).
    cbn [trim_rev] in *. destruct (ws1 a); [by destruct (ws1 b)|]. by destruct (ws2 b a).
  - change (String a (String b (String c s)) +:+ String ":" r)
      with (String a (String b (String c (s +:+ String ":" r)))).
    cbn [trim_rev] in *. destruct (ws1 a) eqn:E1.
    { exfalso. apply (f_equal String.length) in H.
      pose proof (trim_rev_suffix (String b (String c s))) as [p Hp].
      apply (f_equal String.length) in Hp. rewrite append_length in Hp. cbn [trim_rev String.length] in *. lia. }
    destruct (ws2 b a) eqn:E2.
    { exfalso. apply (f_equal String.length) in H.
      pose proof (trim_rev_suffix (String c s)) as [p Hp].
      apply (f_equal String.length) in Hp. rewrite append_length in Hp. cbn [trim_rev String.length] in *. lia. }
    destruct (ws3 c b a) eqn:E3; [|done].
    exfalso. apply (f_equal String.length) in H.
    pose proof (trim_rev_suffix s) as [p Hp].
    apply (f_equal String.length) in Hp. rewrite append_length in Hp. cbn [String.length] in *. lia.
Qed.

Lemma trim_end_after p q : trim_end q = q → trim_end (p +:+ ":" +:+ q) = p +:+ ":" +:+ q.
Proof.
  intros Hq. unfold trim_end in *. rewrite !str_rev_append. change (String.rev ":") with ":".
  rewrite append_assoc. change (":" +:+ String.rev p) with (String ":" (String.rev p)).
  rewrite trim_rev_after.
  - change (String ":" (String.rev p)) with (":" +:+ String.rev p).
    rewrite !str_rev_append, !str_rev_involutive. change (String.rev ":") with ":". by rewrite append_assoc.
  - apply (f_equal String.rev) in Hq. by rewrite str_rev_involutive in Hq.
Qed.

Lemma trim_group_name id k :
  trim id = id → trim (nth_name ("topology_alt:" +:+ id) k) = nth_name ("topology_alt:" +:+ id) k.
Proof.
  intros Hid. unfold trim.
  assert (∀ s, trim_start ("topology_alt:" +:+ s) = "topology_alt:" +:+ s) as Hs by done.
  destruct k as [|k]; cbn [nth_name].
  - rewrite Hs. apply (trim_end_after "topology_alt").
    unfold trim in Hid. rewrite <-Hid. apply trim_end_idemp.
  - rewrite append_assoc, Hs, <-append_assoc. apply trim_end_after.
    pose proof (trim_graphic _ (Z_to_string_graphic (Z.of_nat (S k)))) as Hg. unfold trim in Hg.
    rewrite <-Hg. apply trim_end_idemp.
Qed.

(** ** Grouped nodes *)

(** Only the group of a node differs. *)
Definition regrouped (n n' : ProductionMapNode) : Prop :=
  n' = n <| alternative_group_id := alternative_group_id n' |>.

Definition regrouped_map (m m' : ProductionMapDefinition) : Prop :=
  m' = with_nodes m (map_nodes m') ∧ Forall2 regrouped (map_nodes m) (map_nodes m').

Lemma regrouped_find f nodes nodes' :
  (∀ n n', regrouped n n' → f n = f n') → Forall2 regrouped nodes nodes' →
  option_Forall2 regrouped (List.find f nodes) (List.find f nodes').
Proof.
  intros Hf. induction 1 as [|n n' nodes nodes' Hn _ IH]; cbn [List.find]; [constructor|].
  rewrite (Hf n n' Hn). destruct (f n'); [by constructor|done].
Qed.

Lemma regrouped_filter f nodes nodes' :
  (∀ n n', regrouped n n' → f n = f n') → Forall2 regrouped nodes nodes' →
  Forall2 regrouped (List.filter f nodes) (List.filter f nodes').
Proof.
  intros Hf. induction 1 as [|n n' nodes nodes' Hn _ IH]; cbn [List.filter]; [constructor|].
  rewrite (Hf n n' Hn). destruct (f n'); [by constructor|done].
Qed.

Lemma regrouped_machine n n' : regrouped n n' → is_machine n = is_machine n'.
Proof. by intros ->. Qed.
Lemma regrouped_canonical n n' : regrouped n n' → canonical_apparatus_id n = canonical_apparatus_id n'.
Proof. by intros ->. Qed.
Lemma regrouped_id n n' : regrouped n n' → node_id n = node_id n'.
Proof. by intros ->. Qed.

Section settled.
Context (m m' : ProductionMapDefinition) (Hm : regrouped_map m m').

Lemma regrouped_edges : map_edges m' = map_edges m.
Proof. destruct Hm as [-> _]. done. Qed.

Lemma regrouped_cut cut_ids width n n' :
  regrouped n n' → cut_widths m' cut_ids width n' = cut_widths m cut_ids width n.
Proof. intros ->. destruct Hm as [-> _]. done. Qed.

Lemma regrouped_visit cut_ids width id : visit_width m' cut_ids width id = visit_width m cut_ids width id.
Proof.
  unfold visit_width, find_node. destruct Hm as [He Hns].
  assert (option_Forall2 regrouped (List.find (λ n, node_id n =s id) (map_nodes m))
            (List.find (λ n, node_id n =s id) (map_nodes m'))) as Hf.
  { apply regrouped_find; [|done]. intros n n' Hn. by rewrite (regrouped_id n n'). }
  inversion Hf as [n n' Hn E1 E2|E1 E2]; [|done].
  rewrite (regrouped_cut _ _ n n' Hn). destruct (cut_widths _ _ _ _); [done|].
  unfold edges_into. by rewrite regrouped_edges.
Qed.

Lemma regrouped_widths id cut_ids : stage_input_widths m' id cut_ids = stage_input_widths m id cut_ids.
Proof.
  unfold stage_input_widths, width_fuel, edges_into. rewrite regrouped_edges.
  assert (map_width_mm m' = map_width_mm m) as -> by (destruct Hm as [-> _]; done).
  destruct (map_width_mm m) as [w|]; [|done].
  assert (∀ fuel todo seen widths, width_loop m' cut_ids w fuel todo seen widths =
    width_loop m cut_ids w fuel todo seen widths) as Hl; [|by rewrite Hl].
  induction fuel as [|fuel IH]; intros todo seen widths; [done|]. cbn [width_loop].
  destruct todo as [|i todo]; [done|]. case_bool_decide; [done|]. rewrite regrouped_visit.
  destruct (visit_width _ _ _ _). apply IH.
Qed.

Lemma regrouped_machines : machine_ids m' = machine_ids m.
Proof.
  unfold machine_ids. do 2 f_equal. f_equal. destruct Hm as [_ Hns].
  pose proof (regrouped_filter is_machine _ _ regrouped_machine Hns) as Hf.
  induction Hf as [|n n' ns ns' Hn _ IH]; [done|]. cbn [omap list_omap].
  rewrite (regrouped_canonical n n' Hn). destruct (canonical_apparatus_id n'); by rewrite IH.
Qed.

Lemma regrouped_check configs cut_ids n n' u :
  regrouped n n' → check_width m' configs cut_ids n' u = check_width m configs cut_ids n u.
Proof.
  intros Hn. unfold check_width.
  by rewrite (regrouped_canonical n n' Hn), (regrouped_id n n' Hn), regrouped_widths.
Qed.

Lemma regrouped_check_widths configs cut_ids u :
  for_each (check_width m' configs cut_ids) (List.filter is_machine (map_nodes m')) u =
  for_each (check_width m configs cut_ids) (List.filter is_machine (map_nodes m)) u.
Proof.
  destruct Hm as [_ Hns].
  pose proof (regrouped_filter is_machine _ _ regrouped_machine Hns) as Hf. revert u.
  induction Hf as [|n n' ns ns' Hn _ IH]; intros u; [done|]. cbn [for_each].
  rewrite (regrouped_check _ _ n n' u Hn). destruct (check_width _ _ _ n u); [apply IH|done].
Qed.
End settled.

(** ** The groups of a saved map *)

Section grouped_map.
Context (configs : configurations) (m : ProductionMapDefinition).

Lemma topology_regrouped : regrouped_map m (normalize_topology_alternatives configs m).
Proof.
  split; [by destruct m|]. apply Forall2_lookup. intros i. rewrite topology_lookup.
  destruct (map_nodes m !! i) as [n|]; constructor.
  destruct (List.find _ _) as [p|]; [done|by destruct n].
Qed.

(** The name of a new group: that of the node that names it, with a number where it was taken. *)
Lemma new_group_named p :
  p ∈ zip (topology_groups configs m) (topology_names configs m) →
  ∃ n k, n ∈ map_nodes m ∧ p.2 = nth_name ("topology_alt:" +:+ node_id n) k.
Proof.
  destruct p as [g name]. intros Hp%elem_of_zip_r. apply names_of_form in Hp as (g' & k & Hg & ->).
  exists (candidate_node g'.1), k. split; [|done].
  destruct (groups_spec configs m) as (Hok & _ & _). destruct (Hok _ Hg) as [Hin _].
  apply topology_candidates_elem in Hin as (i & n & Hn & Hc).
  apply candidate_of_inv in Hc as (_ & -> & _). by eapply list_elem_of_lookup_2.
Qed.

Lemma new_name_fresh p :
  p ∈ zip (topology_groups configs m) (topology_names configs m) → p.2 ∉ occupied_groups m.
Proof. destruct p as [g name]. intros Hp%elem_of_zip_r. by apply names_of_fresh in Hp. Qed.

Lemma old_name_occupied i n :
  map_nodes m !! i = Some n → is_empty (alternative_group_id n) = false →
  alternative_group_id n ∈ occupied_groups m.
Proof.
  intros Hn He. apply elem_of_list_to_set, filterb_elem. rewrite He. split; [|done].
  apply list_elem_of_fmap_2. by eapply list_elem_of_lookup_2.
Qed.

(** A node of the grouped map: as it was, or a candidate with the name of its group. *)
Lemma regrouped_lookup i n' :
  map_nodes (normalize_topology_alternatives configs m) !! i = Some n' →
  ∃ n (p : option ((Candidate * list nat) * string)), map_nodes m !! i = Some n ∧
    match p with
    | None => n' = n
    | Some p => p ∈ zip (topology_groups configs m) (topology_names configs m) ∧ i ∈ p.1.2 ∧
        is_empty (alternative_group_id n) = true ∧ n' = n <| alternative_group_id := p.2 |>
    end.
Proof.
  rewrite topology_lookup. destruct (map_nodes m !! i) as [n|] eqn:Hn; [|done].
  destruct (List.find _ _) as [p|] eqn:Ef; intros [= <-]; [|by exists n, None].
  exists n, (Some p). apply find_elem in Ef as [Hz Hi%bool_decide_eq_true]. split_and!; try done.
  destruct (groups_spec configs m) as [Hok _].
  destruct (Hok p.1) as [Hf (chosen & Hm & _ & Hc & _)].
  { destruct p. by eapply elem_of_zip_l. }
  rewrite Hm in Hi. apply list_elem_of_fmap in Hi as (c & -> & Hin).
  assert (c ∈ topology_candidates m configs) as Hcand.
  { apply elem_of_cons in Hin as [->|Hin]; [done|by apply Hc]. }
  apply topology_candidates_elem in Hcand as (i & n0 & Hn0 & Hof).
  apply candidate_of_inv in Hof as (<- & _ & He). by rewrite Hn in Hn0; injection Hn0 as <-.
Qed.

Lemma topology_normalized :
  normalize_map m = m →
  normalize_map (normalize_topology_alternatives configs m) = normalize_topology_alternatives configs m.
Proof.
  intros Hnorm. set (t := normalize_topology_alternatives configs m).
  assert (t = with_nodes m (map_nodes t)) as Ht by apply topology_regrouped.
  assert (∀ n, n ∈ map_nodes m → normalize_node n = n) as Hnode.
  { intros n [i Hi]%list_elem_of_lookup. rewrite <-Hnorm in Hi. cbn [map_nodes normalize_map] in Hi.
    apply list_lookup_fmap_Some in Hi as (n' & -> & _). apply normalize_node_idemp. }
  assert (normalize_node <$> map_nodes t = map_nodes t) as Hns.
  { apply list_eq. intros i. rewrite list_lookup_fmap. unfold t. rewrite topology_lookup.
    destruct (map_nodes m !! i) as [n|] eqn:En; [|done]. cbn. f_equal.
    apply list_elem_of_lookup_2 in En. pose proof (Hnode n En) as Hn.
    destruct (List.find _ _) as [p|] eqn:Ef; [|done].
    apply find_elem in Ef as [(n' & k & Hn' & Hname)%new_group_named _].
    assert (trim p.2 = p.2) as Htrim.
    { rewrite Hname. apply trim_group_name. apply Hnode in Hn'. apply (f_equal node_id) in Hn'.
      cbn in Hn'. by rewrite <-Hn', trim_lower, trim_idemp. }

    change ((normalize_node n) <| alternative_group_id := trim p.2 |> = n <| alternative_group_id := p.2 |>).
    by rewrite Hn, Htrim. }
  transitivity (with_nodes (normalize_map m) (normalize_node <$> map_nodes t)); [by rewrite Ht at 1|].
  by rewrite Hns, Hnorm, <-Ht.
Qed.
End grouped_map.

(** ** Checking a map twice *)

Section saved.
Context `{J : Json} `{C : !RouteCodec} `{R : !ReportCodec} `{!Serde (list OrderLane)}.
Context `{!Serde (list OrderRunInputLink)} `{!Serde (list RezkaActivePartialRoll)}.
Context `{!Serde (list ProgressBatchInputLink)} `{!Serde ProductionQrSessionResources}.
Context `{!Serde QueueActionActor} `{!Serde WipInputRoute} `{UnicodeTables}.
Context (resolver : ApparatusId → pm_result (option RuntimeApparatusConfiguration)).

(** What passed the checks is settled: checked again, it is the same map and program. *)
Lemma checked_map_settled map saved :
  checked_map resolver map = Ok saved → checked_map resolver (saved_map saved) = Ok saved.
Proof.
  unfold checked_map at 1. set (m := normalize_map map).
  intros (program & Hc & (next & Hv%lift_Ok & (program' & Hc' & [= <-])%bind_Ok)%bind_Ok)%bind_Ok.
  cbn [saved_map]. unfold validate_and_normalize_map_apparatus in Hv.
  apply bind_Ok in Hv as ([configs cut_ids] & Hload & ([] & Hw & [= <-])%bind_Ok).
  unfold checked_map. rewrite topology_normalized by apply normalize_map_idemp.
  rewrite Hc'. cbn [mbind result_bind]. unfold validate_and_normalize_map_apparatus.
  pose proof (topology_regrouped configs m) as Hreg.
  rewrite (regrouped_machines _ _ Hreg), Hload. cbn [mbind result_bind].
  rewrite (regrouped_check_widths _ _ Hreg), Hw. cbn [mbind result_bind].
  rewrite topology_idemp. cbn [mbind result_bind lift]. by rewrite Hc'.
Qed.

(** ** Started work *)

(** The order was worked on at the machine: its queue says so, or a run, or a roll. *)
Inductive worked_on (allow : bool) (order_id : string) (s : order_store) (id : string) : Prop :=
  | worked_in_queue states machine row raw :
      apparatus_queue_states s = Ok states → states !! machine = Some row →
      row !! order_id = Some raw → started_state allow raw = true → id = trim machine →
      worked_on allow order_id s id
  | worked_in_run (session : RunSession) :
      session ∈ order_run_sessions_for_order order_id s → id = trim (session_apparatus session) →
      worked_on allow order_id s id
  | worked_on_roll b machine :
      b ∈ progress_batches_for_order order_id s →
      machine ∈ [batch_apparatus b; batch_current_apparatus b; batch_used_by_apparatus b;
                 batch_processed_by_apparatus b] →
      id = trim machine → worked_on allow order_id s id.

Lemma insert_apparatus_elem value target x :
  x ∈ insert_apparatus_id value target ↔ x ∈ target ∨ is_ok (ApparatusId_new x) = true ∧ x = trim value.
Proof.
  unfold insert_apparatus_id. destruct (is_ok _) eqn:E; [|naive_solver congruence]. set_solver.
Qed.

(** A loop that inserts machines keeps what it has and adds what its body adds. *)
Lemma fold_inserts {A} (body : gset string → A → gset string) (adds : A → string → Prop) l target x :
  (∀ t a y, y ∈ body t a ↔ y ∈ t ∨ adds a y) →
  x ∈ foldl body target l ↔ x ∈ target ∨ ∃ a, a ∈ l ∧ adds a x.
Proof.
  intros Hb. revert target. induction l as [|a l IH]; intros target; cbn [foldl]; [set_solver|].
  rewrite IH, Hb. split.
  - intros [[?|?]|(b & ? & ?)]; [by left|right; exists a|right; exists b]; split; try done; by constructor.
  - intros [?|(b & [->|?]%elem_of_cons & ?)]; eauto.
Qed.

Lemma started_collects allow order_id states s id :
  apparatus_queue_states s = Ok states → is_ok (ApparatusId_new id) = true → worked_on allow order_id s id →
  id ∈ started_by_rolls (progress_batches_for_order order_id s)
         (started_in_runs (order_run_sessions_for_order order_id s)
           (started_in_queues allow order_id states)).
Proof.
  intros Hs Hid Hw. unfold started_by_rolls.
  rewrite (fold_inserts _ (λ b y, is_ok (ApparatusId_new y) = true ∧
    y ∈ trim <$> [batch_apparatus b; batch_current_apparatus b; batch_used_by_apparatus b;
                  batch_processed_by_apparatus b])).
  2:{ intros t b y. rewrite !insert_apparatus_elem. set_solver. }
  unfold started_in_runs.
  rewrite (fold_inserts _ (λ (session : RunSession) y, is_ok (ApparatusId_new y) = true ∧ y = trim (session_apparatus session)))
    by (intros; apply insert_apparatus_elem).
  unfold started_in_queues.
  rewrite (fold_inserts _ (λ entry y, ∃ raw, entry.2 !! order_id = Some raw ∧
    started_state allow raw = true ∧ is_ok (ApparatusId_new y) = true ∧ y = trim entry.1)).
  2:{ intros t [k row] y. cbn. destruct (row !! order_id) as [raw|]; [|naive_solver].
      destruct (started_state allow raw) eqn:E; [rewrite insert_apparatus_elem|]; naive_solver congruence. }
  destruct Hw as [st machine row raw Hst Hrow Hraw Hstarted ->|session Hin ->|b machine Hb Hm ->].
  - left; left; right. rewrite Hs in Hst. injection Hst as <-. exists (machine, row). split; [by apply elem_of_btree_entries|]. eauto.
  - left; right. eauto.
  - right. exists b. split_and!; [done|done|]. by apply list_elem_of_fmap_2.
Qed.

Lemma elem_of_set_list (X : gset string) x : x ∈ set_list X ↔ x ∈ X.
Proof. unfold set_list. by rewrite sorted_strings_perm, elem_of_elements. Qed.

Lemma elem_of_edges_into locked map e :
  e ∈ edges_into_locked locked map ↔ e ∈ map_edges map ∧ edge_to e ∈ locked.
Proof. unfold edges_into_locked. by rewrite filterb_elem, bool_decide_eq_true. Qed.

Lemma locked_nodes_kept locked previous next :
  check_locked_nodes locked previous next = Ok tt →
  (∀ id, id ∈ locked → opt_eqb node_eqb (find_node previous id) (find_node next id) = true) ∧
  (∀ e, e ∈ map_edges previous → edge_to e ∈ locked → e ∈ map_edges next) ∧
  (NoDup (map_edges previous) → ∀ e, e ∈ map_edges next → edge_to e ∈ locked → e ∈ map_edges previous).
Proof.
  unfold check_locked_nodes. cbv zeta. intros ([] & Hn%check_Ok & [Hl He]%check_Ok%orb_false_iff)%bind_Ok.
  rewrite negb_false_iff, Nat.eqb_eq in Hl. rewrite existsb_false in Hn. rewrite existsb_false in He.
  assert (edges_into_locked locked previous ⊆ edges_into_locked locked next) as Hsub.
  { intros e Hin%He. by apply negb_false_iff, bool_decide_eq_true in Hin. }
  split_and!.
  - intros id Hid%elem_of_set_list%Hn. by apply negb_false_iff in Hid.
  - intros e Hin Hto. assert (e ∈ edges_into_locked locked next) as Hnext; [|by apply elem_of_edges_into in Hnext as [? _]].
    apply Hsub. by apply elem_of_edges_into.
  - intros Hnd e Hin Hto. assert (e ∈ edges_into_locked locked previous) as Hprev; [|by apply elem_of_edges_into in Hprev as [? _]].
    assert (edges_into_locked locked previous ≡ₚ edges_into_locked locked next) as ->; [|by apply elem_of_edges_into].
    apply submseteq_length_Permutation; [|lia]. apply NoDup_submseteq; [by apply filterb_NoDup|done].
Qed.

Lemma started_nodes_locked started previous id n k :
  n ∈ map_nodes previous → is_machine n = true → canonical_apparatus_id n = Some id →
  apparatus_id_str id ∈ started → k ∈ map_nodes previous →
  k = n ∨ is_empty (group_of n) = false ∧ group_of k = group_of n →
  node_id k ∈ locked_node_ids previous started.
Proof.
  intros Hn Hm Hid Hs Hk Hkn. unfold locked_node_ids. cbv zeta.
  set (locked := list_to_set (node_id <$> List.filter (runs_on_started started) (map_nodes previous)) : gset string).
  assert (node_id n ∈ locked) as Hl.
  { apply elem_of_list_to_set, list_elem_of_fmap_2, filterb_elem. split; [done|].
    unfold runs_on_started. rewrite Hm, Hid. by apply bool_decide_eq_true. }
  set (groups := list_to_set _ : gset string).
  destruct Hkn as [->|[He Hg]]; [case_bool_decide; set_solver|].
  assert (group_of n ∈ groups) as Hgroup.
  { apply elem_of_list_to_set, filterb_elem. split; [|by rewrite He].
    apply list_elem_of_fmap_2, filterb_elem. split; [done|]. by apply bool_decide_eq_true. }
  case_bool_decide as Hempty; [set_solver|]. apply elem_of_union_r, elem_of_list_to_set, list_elem_of_fmap_2, filterb_elem.
  split; [done|]. apply bool_decide_eq_true. by rewrite Hg.
Qed.

Lemma reject_changes_spec next allow s previous :
  reject_started_stage_changes next allow s = Ok tt → raw_map (map_id next) s = Some previous →
  ∃ states, apparatus_queue_states s = Ok states ∧
    let started :=
      started_by_rolls (progress_batches_for_order (trim (map_id previous)) s)
        (started_in_runs (order_run_sessions_for_order (trim (map_id previous)) s)
          (started_in_queues allow (trim (map_id previous)) states)) in
    let locked := locked_node_ids previous started in
    started ≠ ∅ → list_eqb product_eqb (map_products previous) (map_products next) = true ∧
      (locked ≠ ∅ → check_locked_nodes locked previous next = Ok tt).
Proof.
  unfold reject_started_stage_changes. intros Hc Hp. rewrite Hp in Hc.
  apply bind_Ok in Hc as ([] & _ & (states & Hst%lift_Ok & ([] & _ & Hc)%bind_Ok)%bind_Ok).
  exists states. split; [done|]. cbv zeta. intros Hs. rewrite (bool_decide_eq_false_2 _ Hs) in Hc.
  apply bind_Ok in Hc as ([] & Hprod%lift_Ok%check_Ok%negb_false_iff & Hc). split; [done|].
  intros Hl. rewrite (bool_decide_eq_false_2 _ Hl) in Hc. by apply lift_Ok in Hc.
Qed.

(** ** Properties *)

(** C19: Interchangeable machines become one group, and nothing else changes:
    only groups are set, only on nodes that had none, with names no node of the
    map used; two nodes get the same new group only when both fit the first of
    the group and they stand for different machines; and afterwards two
    ungrouped candidates that could share a group are always the same machine.
    *)
Theorem interchangeable_machines_are_grouped configs m :
  let saved := normalize_topology_alternatives configs m in
  regrouped_map m saved ∧
  (∀ i n n', map_nodes m !! i = Some n → map_nodes saved !! i = Some n' →
     n' = n ∨ is_empty (alternative_group_id n) = true ∧ is_empty (alternative_group_id n') = false ∧
              alternative_group_id n' ∉ occupied_groups m) ∧
  (∀ i j n n', i ≠ j → map_nodes saved !! i = Some n → map_nodes saved !! j = Some n' →
     alternative_group_id n = alternative_group_id n' → is_empty (alternative_group_id n) = false →
     alternative_group_id n ∉ occupied_groups m →
     ∃ first a b, a ∈ topology_candidates m configs ∧ b ∈ topology_candidates m configs ∧
       candidate_index a = i ∧ candidate_index b = j ∧ fits_with first a ∧ fits_with first b ∧
       candidate_machine a ≠ candidate_machine b) ∧
  (∀ a b, a ∈ topology_candidates saved configs → b ∈ topology_candidates saved configs →
     interchangeable a b = true → candidate_machine a = candidate_machine b).
Proof.
  cbv zeta. split_and!; [apply topology_regrouped|..].
  - intros i n n' Hn Hn'. destruct (regrouped_lookup configs m i n') as (n0 & p & H0 & Hp); [done|].
    rewrite Hn in H0. injection H0 as <-. destruct p as [p|]; [|by left]. right.
    destruct Hp as (Hz & Hi & He & ->). cbn. split_and!; [done|by eapply group_names_nonempty|].
    by eapply new_name_fresh.
  - intros i j n n' Hij Hn Hn' Hg Hne Hfresh.
    destruct (regrouped_lookup configs m i n) as (n0 & [p|] & H0 & Hp); [done| |].
    2:{ subst n. destruct Hfresh. by eapply old_name_occupied. }
    destruct (regrouped_lookup configs m j n') as (n1 & [q|] & H1 & Hq); [done| |].
    2:{ subst n'. rewrite Hg in Hfresh, Hne. destruct Hfresh. by eapply old_name_occupied. }
    destruct Hp as (Hp & Hi & _ & ->), Hq as (Hq & Hj & _ & ->). cbn in Hg.
    assert (p = q) as <- by (eapply zip_same_name; try done; apply names_of_fresh).
    destruct p as [g name]. destruct (groups_spec configs m) as [Hok _].
    destruct (group_pair (topology_candidates m configs) g i j) as (a & b & ?);
      [by apply Hok; eapply elem_of_zip_l|done..|apply topology_candidates_NoDup|].
    by exists g.1, a, b.
  - intros a b [Ha Hia]%settled_candidates [Hb Hib]%settled_candidates. by apply (left_out_agree configs m).
Qed.

(** C17: Saving a map stores what was checked or nothing: a refused request
    leaves the store as it was; an accepted one stores exactly the answered map
    under its own id, the answered program is the compilation of that map, and
    the map is settled: checked again, it gives the same map and program, so a
    later save neither regroups nor renames anything. *)
Theorem saved_map_is_settled map s :
  match upsert_map resolver map s with
  | (s', Err _) => s' = s
  | (s', Ok saved) =>
      st_maps s' = <[map_id (saved_map saved) := saved_map saved]> (st_maps s) ∧
      compile_map (saved_map saved) = Ok (saved_program saved) ∧
      checked_map resolver (saved_map saved) = Ok saved
  end.
Proof.
  unfold upsert_map. set (r := (_ ← lift _; _)).
  destruct r as [saved|] eqn:Er; [|done]. subst r.
  apply bind_Ok in Er as (_ & _ & (saved' & Hc & (_ & _ & [= ->])%bind_Ok)%bind_Ok).
  pose proof (checked_map_settled _ _ Hc) as Hsettled.
  assert (compile_map (saved_map saved) = Ok (saved_program saved)) as Hcompile.
  { unfold checked_map in Hc. by apply bind_Ok in Hc as (_ & _ & (? & _ & (? & ? & [= <-])%bind_Ok)%bind_Ok). }
  unfold put_tables, put_map. destruct (x ← _; _) as [u|] eqn:Ep; cbn; [done|].
  destruct s as [[] ? ? ?]. done.
Qed.

(** C18: An edit keeps what was worked on: when a saved map is accepted for an
    order and the order was worked on at a machine, by its queue state, a run or
    a roll, then every node of the stored map that runs on that machine, and
    every node of its group, is found unchanged in the new map, the products are
    unchanged, every edge into such a node is still there, and when the stored
    map repeats no edge, none was added. *)
Theorem started_stages_are_kept map allow s saved previous n id k :
  prepare_map resolver map allow s = Ok saved → raw_map (map_id (saved_map saved)) s = Some previous →
  n ∈ map_nodes previous → is_machine n = true → canonical_apparatus_id n = Some id →
  worked_on allow (trim (map_id previous)) s (apparatus_id_str id) →
  k ∈ map_nodes previous → k = n ∨ is_empty (group_of n) = false ∧ group_of k = group_of n →
  list_eqb product_eqb (map_products previous) (map_products (saved_map saved)) = true ∧
  opt_eqb node_eqb (find_node previous (node_id k)) (find_node (saved_map saved) (node_id k)) = true ∧
  (∀ e, e ∈ map_edges previous → edge_to e = node_id k → e ∈ map_edges (saved_map saved)) ∧
  (NoDup (map_edges previous) →
     ∀ e, e ∈ map_edges (saved_map saved) → edge_to e = node_id k → e ∈ map_edges previous).
Proof.
  intros (saved' & _ & ([] & Hr & [= ->])%bind_Ok)%bind_Ok Hp Hn Hm Hid Hw Hk Hkn.
  destruct (reject_changes_spec _ _ _ _ Hr Hp) as (states & Hst & Hlock). cbv zeta in Hlock.
  set (started := started_by_rolls _ _) in Hlock.
  assert (apparatus_id_str id ∈ started) as Hs.
  { apply started_collects; [done| |done]. unfold canonical_apparatus_id, ok, ApparatusId_new in *.
    destruct (validate_shape _) eqn:E; [|done]. injection Hid as <-. cbn. by rewrite E. }
  pose proof (started_nodes_locked started previous id n k Hn Hm Hid Hs Hk Hkn) as Hl.
  destruct Hlock as [Hprod Hlock]; [set_solver|].
  destruct (locked_nodes_kept _ _ _ (Hlock ltac:(set_solver))) as (H1 & H2 & H3).
  split_and!; [done|by apply H1|..]; intros; [eapply H2|eapply H3]; try done; by replace (edge_to _) with (node_id k).
Qed.

Lemma put_maps_with_sequences_spec maps expected sequences (s : order_tables) :
  match put_maps_with_sequences maps expected sequences s with
  | (s', Err _) => s' = s
  | (s', Ok _) => os_sequences s' = sequences ∪ os_sequences s ∧
      for_each save_map maps (st_maps s) = Ok (st_maps s')
  end.
Proof.
  unfold put_maps_with_sequences. destruct (x ← _; _) as [next|] eqn:E; [|done].
  apply bind_Ok in E as (_ & _ & (_ & _ & E)%bind_Ok). by destruct s.
Qed.

Lemma persist_moves_spec listed previous updated from to s :
  match persist_pending_move_maps listed previous updated from to s with
  | (s', Err _) => s' = s
  | (s', Ok _) =>
      ∃ effective : gmap string (list string), let kept apparatus :=
          List.filter (λ id, bool_decide (id ∉ map_id <$> updated)) (default [] (effective !! apparatus)) in
      os_sequences (ts_tables s') =
        <[to := kept to ++ (map_id <$> updated)]> (<[from := kept from]> (os_sequences (ts_tables s))) ∧
      for_each save_map updated (st_maps s) = Ok (st_maps s')
  end.
Proof.
  unfold persist_pending_move_maps. destruct (x ← _; _) as [[stored configurations]|]; [|done].
  unfold put_tables. match goal with |- context [put_maps_with_sequences ?ms ?e ?q ?t] =>
    pose proof (put_maps_with_sequences_spec ms e q t) as Hp; destruct (put_maps_with_sequences ms e q t) as [t' r] end.
  destruct r as [u|]; cbn [lift]; [|subst t'; destruct s as [[] ? ? ?]; done].
  destruct Hp as [Hs Hm]. eexists. cbv zeta. split; [|exact Hm].
  cbn. rewrite Hs. unfold moved_sequences. by rewrite <-!insert_union_l, map_empty_union.
Qed.

(** C20: A move takes an order from one queue to the end of another: a refused
    request leaves the store as it was; after an accepted one the two machines
    differ, the order is the last of the target queue and nowhere else in it, it
    is not in the source queue, no other queue changed, and the answered,
    settled map is the one stored. *)
Theorem moved_order_joins_the_target listed order_id from to s :
  match move_apparatus resolver listed order_id from to s with
  | (s', Err _) => s' = s
  | (s', Ok saved) =>
      trim from ≠ trim to ∧
      (∃ kept, os_sequences (ts_tables s') !! trim to = Some (kept ++ [map_id (saved_map saved)]) ∧
         map_id (saved_map saved) ∉ kept) ∧
      (∃ kept, os_sequences (ts_tables s') !! trim from = Some kept ∧ map_id (saved_map saved) ∉ kept) ∧
      (∀ machine, machine ≠ trim from → machine ≠ trim to →
         os_sequences (ts_tables s') !! machine = os_sequences (ts_tables s) !! machine) ∧
      st_maps s' = <[map_id (saved_map saved) := saved_map saved]> (st_maps s) ∧
      checked_map resolver (saved_map saved) = Ok saved
  end.
Proof.
  unfold move_apparatus. cbv zeta. destruct (x ← _; _) as [saved|] eqn:E; [|done].
  apply bind_Ok in E as (next & Hn%lift_Ok & (saved' & Hc & (_ & _ & [= ->])%bind_Ok)%bind_Ok).
  apply bind_Ok in Hn as (_ & _ & (_ & [_ Hne]%check_Ok%orb_false_iff & _)%bind_Ok).
  match goal with |- context [persist_pending_move_maps ?l ?p ?u ?f ?t ?s] =>
    pose proof (persist_moves_spec l p u f t s) as Hp; destruct (persist_pending_move_maps l p u f t s) as [s' r] end.
  destruct r as [u|]; [|done]. destruct Hp as (effective & Hs & Hm). cbv zeta in Hs.
  assert (trim from ≠ trim to) as Hft.
  { intros Heq. rewrite Heq in Hne. by rewrite eq_ignore_ascii_case_refl in Hne. }
  assert (∀ l : list string, map_id (saved_map saved) ∉
    List.filter (λ id, bool_decide (id ∉ map_id <$> [saved_map saved])) l) as Hkept.
  { intros l [_ Hb%bool_decide_eq_true]%filterb_elem. apply Hb. by left. }
  rewrite Hs. split_and!; [done| | | | |by eapply checked_map_settled].
  - eexists. rewrite lookup_insert_eq. by split.
  - eexists. rewrite lookup_insert_ne, lookup_insert_eq by done. by split.
  - intros machine H1 H2. by rewrite !lookup_insert_ne.
  - apply bind_Ok in Hm as (maps & (_ & _ & (_ & _ & [= <-])%bind_Ok)%bind_Ok & [= <-]). done.
Qed.
End saved.
