(* ===== verification/OrderControl.v ===== *)
(** Holding, closing and deleting orders.

    Models [src/core/production_map/order_control/service.rs] and [scoped.rs]: the holds of a
    whole order and of one occurrence, the early closure, the return of a held order to its
    queues, and the deletion of an order nothing was done for.  The event of a queue action is
    built by [queue/support.rs].  The service holds the queue guard, so a request is one step;
    inside it the code reads the store again after every write, and so does the model.  The
    clock and the random identifier of a request are arguments; [nanos k] is the reading for
    the [k]-th event of a request. *)
From Stdlib Require Import Ascii.
From S2P Require Import Prelude RustStr F64 Errors Identity QueueState OrderLayout MapDefinition Formula Compiler Bfs Chain Projection SequenceMove Scheduler Json Progress WipRoute Lifecycle StageExecution OrderRefresh OrderStore Visibility Preflight QueueMoves CutLayout Epc Paddon Metrics Lineage RunStore Warehouse QueueCommit Materials Ids OpeningWip Pechat Automatic Transfer MapSave.

#[global] Instance OrderFreezeRequest_rebuild : Rebuild OrderFreezeRequest := λ r, {|
  freeze_scope := freeze_scope r; freeze_stage_node_id := freeze_stage_node_id r;
  freeze_request_id := freeze_request_id r; freeze_status := freeze_status r;
  freeze_target_session_id := freeze_target_session_id r; freeze_target_apparatus := freeze_target_apparatus r;
  freeze_target_worker_role := freeze_target_worker_role r;
  freeze_target_worker_ref := freeze_target_worker_ref r;
  freeze_target_worker_display_name := freeze_target_worker_display_name r;
  freeze_requested_at_unix := freeze_requested_at_unix r;
  freeze_transitioned_at_unix := freeze_transitioned_at_unix r |}.
#[global] Instance OrderControlRecord_rebuild : Rebuild OrderControlRecord := λ r, {|
  control_order_id := control_order_id r; control_stage_node_id := control_stage_node_id r;
  control_state := control_state r; control_actor := control_actor r;
  control_requested_at_unix := control_requested_at_unix r;
  control_frozen_at_unix := control_frozen_at_unix r;
  control_freeze_request := control_freeze_request r; control_early_close := control_early_close r |}.
#[global] Instance OrderRunSession_rebuild : Rebuild OrderRunSession := λ s, {|
  session_id := session_id s; session_apparatus := session_apparatus s;
  session_order_id := session_order_id s; session_stage_node_id := session_stage_node_id s;
  session_status := session_status s; session_worker_role := session_worker_role s;
  session_worker_ref := session_worker_ref s;
  session_worker_display_name := session_worker_display_name s;
  session_started_at_unix := session_started_at_unix s; session_updated_at_unix := session_updated_at_unix s |}.

(** [effective_apparatus_queue_policy]. *)
Definition effective_apparatus_queue_policy (c : RuntimeApparatusConfiguration) : ApparatusQueuePolicy :=
  match config_discipline c with
  | DisciplineStrictSequence => StrictSequence
  | DisciplineFreePick => FreePick
  end.

(** The status shown to clients (progress_status.rs). *)
Record ProductionOrderStatusDetail := {
  osd_lifecycle_status : LifecycleStatus.t;
  osd_order_status : string;
  osd_work_status : string;
  osd_flow_status : string;
  osd_stock_status : string;
  osd_completed_with_issue_count : nat;
}.

Definition from_persisted_projection (record : ProductionOrderLifecycleRecord) : ProductionOrderStatusDetail :=
  let order_status := OperationalStatus.as_str (lc_operational_status record) in
  {| osd_lifecycle_status := lc_status record; osd_order_status := order_status;
     osd_work_status := work_status_for_order order_status; osd_flow_status := lc_flow_status record;
     osd_stock_status := lc_stock_status record;
     osd_completed_with_issue_count := lc_completed_with_issue_count record |}.

Definition force_frozen (d : ProductionOrderStatusDetail) : ProductionOrderStatusDetail :=
  {| osd_lifecycle_status := osd_lifecycle_status d; osd_order_status := "frozen";
     osd_work_status := "frozen"; osd_flow_status := "frozen"; osd_stock_status := osd_stock_status d;
     osd_completed_with_issue_count := osd_completed_with_issue_count d |}.

Section control.
Context `{J : Json} `{C : !RouteCodec} `{R : !ReportCodec} `{!Serde (list OrderLane)}.
Context `{!Serde (list OrderRunInputLink)} `{!Serde (list RezkaActivePartialRoll)}.
Context `{!Serde (list ProgressBatchInputLink)} `{!Serde ProductionQrSessionResources}.
Context `{!Serde AutomaticQolipConfirmation} `{!Serde OrderProgressBatch} `{!Serde RunSession}.
Context (resolver : ApparatusId → pm_result (option RuntimeApparatusConfiguration)).
Context (nanos : nat → Z) (now : Z).

(** * Events (queue/support.rs) *)

Definition sanitized_assigned_apparatus (assigned : list string) : list string :=
  List.filter (λ a, negb (is_empty a)) (trim <$> assigned).

Definition queue_action_event_payload (requested_apparatus storage_key : string)
    (sequence visible_order_ids : list string) (from_state to_state : OrderState.t)
    (policy : ApparatusQueuePolicy) : value :=
  json_object [("requested_apparatus", json_str requested_apparatus); ("storage_key", json_str storage_key);
               ("sequence", json_strings sequence); ("visible_order_ids", json_strings visible_order_ids);
               ("from_state", json_str (OrderState.as_str from_state));
               ("to_state", json_str (OrderState.as_str to_state));
               ("policy", json_str (ApparatusQueuePolicy_as_str policy))].

Definition queue_action_event (at_nanos : Z) (requested_apparatus storage_key order_id stage_node_id : string)
    (action : Action.t) (from_state to_state : OrderState.t) (policy : ApparatusQueuePolicy)
    (actor : QueueActionActor) (assigned sequence visible_order_ids : list string)
  : ApparatusQueueActionEvent := {|
  qe_event_id := queue_action_event_id at_nanos storage_key order_id action;
  qe_apparatus := storage_key; qe_order_id := order_id; qe_stage_node_id := trim stage_node_id;
  qe_action := action; qe_from_state := from_state; qe_to_state := to_state; qe_policy := policy;
  qe_actor := actor; qe_assigned_apparatus := sanitized_assigned_apparatus assigned;
  qe_payload_json := queue_action_event_payload requested_apparatus storage_key sequence
    visible_order_ids from_state to_state policy |}.

(** [event.payload_json[key] = value], for each field. *)
Definition with_event_fields (fields : list (string * value)) (event : ApparatusQueueActionEvent)
  : run_result ApparatusQueueActionEvent :=
  payload ← put_fields fields (qe_payload_json event);
  Ok {| qe_event_id := qe_event_id event; qe_apparatus := qe_apparatus event;
        qe_order_id := qe_order_id event; qe_stage_node_id := qe_stage_node_id event;
        qe_action := qe_action event; qe_from_state := qe_from_state event;
        qe_to_state := qe_to_state event; qe_policy := qe_policy event; qe_actor := qe_actor event;
        qe_assigned_apparatus := qe_assigned_apparatus event; qe_payload_json := payload |}.

(** * Reading the store *)

Definition stage_order_control_states (s : order_store) : list OrderControlRecord :=
  (map_to_list (st_stage_order_controls s)).*2.

Definition is_state (wanted : OrderState.t) (raw : string) : bool :=
  bool_decide (OrderState.parse raw = Some wanted).

(** The first machine, in order, where the order stands in a state. *)
Definition machine_in_state (states : station_states) (order_id : string) (wanted : OrderState.t) : option string :=
  fst <$> List.find (λ entry : string * gmap string string,
    is_some_and (entry.2 !! order_id) (is_state wanted)) (btree_entries states).

Definition order_status_detail (order_id : string) (s : order_store) : pm_result ProductionOrderStatusDetail :=
  let order_id := trim order_id in
  _ ← check (is_empty order_id) MissingId;
  record ← ok_or (st_lifecycles s !! order_id) MapNotFound;
  let status := from_persisted_projection record in
  Ok (if is_some_and (order_control_by_id order_id s)
           (λ c, bool_decide (control_state c = OrderControl.Frozen))
      then force_frozen status else status).

(** [effective_apparatus_sequences]. *)
Definition effective_apparatus_sequences (listed : pm_result (list RuntimeApparatusConfiguration)) (s : run_store)
  : pm_result (gmap string (list string)) :=
  let maps := btree_values (st_maps s) in
  sequences ← apparatus_sequences (ts_tables s);
  configurations ← active_canonical_apparatuses listed;
  Ok (filter_unselected_print_orders maps configurations (effective_sequences maps sequences (frozen_order_ids s))).

(** What happened to an order. *)
Record OrderFlowEvidence := {
  ev_started : bool;
  ev_completed : bool;
  ev_has_active_work : bool;
  ev_started_apparatuses : gset string;
  ev_active_sessions : list RunSession;
  ev_paused_sessions : list RunSession;
  ev_print_preflight_holds : list PrintPreflightHold;
}.

(** The states the order has, by machine. *)
Definition order_states (order_id : string) (states : station_states) : list (string * OrderState.t) :=
  omap (λ entry : string * gmap string string,
    raw ← entry.2 !! order_id; state ← OrderState.parse raw; Some (entry.1, state)) (btree_entries states).

Definition order_events (order_id : string) (s : order_store) : list ApparatusQueueActionEvent :=
  List.filter (λ e, trim (qe_order_id e) =s order_id) (st_queue_events s).

Definition is_paused_session (session : RunSession) : bool :=
  match session_status session with RunStatus.Paused | RunStatus.RollDetached => true | _ => false end.

Definition order_flow_evidence (order_id : string) (s : run_store) : pm_result OrderFlowEvidence :=
  all_states ← apparatus_queue_states s;
  let sessions := order_run_sessions_for_order order_id s in
  let batches := progress_batches_for_order order_id s in
  let holds := List.filter (λ h, trim (hold_order_id h) =s trim order_id)
                 (active_print_preflight_holds (rs_trials s)) in
  let logs := order_events order_id s in
  let states := order_states order_id all_states in
  let worked := List.filter (λ e : string * OrderState.t, negb (bool_decide (e.2 = OrderState.Pending))) states in
  let active_sessions :=
    List.filter (λ session : RunSession, bool_decide (session_status session = RunStatus.Active)) sessions in
  let machines := worked.*1 ++ ((λ session : RunSession, trim (session_apparatus session)) <$> sessions) ++
    ((λ b, trim (batch_apparatus b)) <$> batches) ++ ((λ e, trim (qe_apparatus e)) <$> logs) in
  status ← order_status_detail order_id s;
  Ok {| ev_started := match worked, sessions, batches, logs with [], [], [], [] => false | _, _, _, _ => true end;
        ev_completed := (osd_order_status status =s "completed") ||
                        (osd_order_status status =s "completed_with_issue");
        ev_has_active_work :=
          existsb (λ e : string * OrderState.t, bool_decide (e.2 = OrderState.InProgress)) states ||
          existsb (λ h, match hold_status h with
                        | PreflightStatus.Held | PreflightStatus.Running => true | _ => false end) holds ||
          match active_sessions with [] => false | _ => true end;
        ev_started_apparatuses := list_to_set (List.filter (λ a, negb (is_empty a)) machines);
        ev_active_sessions := active_sessions;
        ev_paused_sessions := List.filter is_paused_session sessions;
        ev_print_preflight_holds := holds |}.

(** * Freezing a queue directly *)

Definition held_payload (session : RunSession) : run_result value :=
  put_fields [("frozen_order", json_bool true); ("admin_freeze", json_bool true)]
    (ensure_payload_object (session_payload_json session)).

Definition frozen_session (session : RunSession) : run_result RunSession :=
  payload ← held_payload session;
  release_frozen_qolips
    {| run_session := (run_session session) <| session_status := RunStatus.Frozen |>
                                            <| session_updated_at_unix := now |>;
       session_payload_json := payload |}.

Definition freeze_target (record : OrderControlRecord) (target_session : option RunSession)
    (target_preflight : option PrintPreflightHold) (states : station_states) : option string :=
  or_else ((λ session : RunSession, trim (session_apparatus session)) <$> target_session)
  (or_else ((λ h, trim (hold_apparatus h)) <$> target_preflight)
  (or_else (if is_empty (control_stage_node_id record) then None
            else freeze_target_apparatus <$> control_freeze_request record)
     (machine_in_state states (trim (control_order_id record)) OrderState.Paused))).

(** [all_states.get(&storage_key).or_else(|| all_states.get(&target))]. *)
Definition states_of_machine (states : station_states) (storage_key target : string) : queue_states :=
  default ∅ (parsed_queue_states <$> or_else (states !! storage_key) (states !! target)).

(** The order may be frozen where it stands. *)
Definition freezable (record : OrderControlRecord) (target_session : option RunSession)
    (target_preflight : option PrintPreflightHold) (from_state : OrderState.t) : bool :=
  match from_state with
  | OrderState.PrintPreflight =>
      is_some_and target_preflight (λ h, bool_decide (hold_status h = PreflightStatus.Passed))
  | OrderState.Paused | OrderState.Frozen => true
  | OrderState.Pending => is_some_and target_session is_paused_session || negb (is_empty (control_stage_node_id record))
  | _ => false
  end.

(** A hold of one occurrence changes the sequence of its machine only. *)
Definition scoped_updates (record : OrderControlRecord) (target : string)
    (updates : gmap string (list string)) : gmap string (list string) :=
  if is_empty (control_stage_node_id record) then updates
  else filter (λ kv, apparatus_ids_match kv.1 target = true) updates.

Definition plain_write (apparatus : string) (states : queue_states) (updates : gmap string (list string))
    (event : ApparatusQueueActionEvent) (session : option RunSession)
    (control : option OrderControlRecord) (cancelled_hold : option string) : QueueActionProgressWrite := {|
  qw_apparatus := apparatus; qw_map_update := None; qw_states := serialized_queue_states states;
  qw_sequence_updates := updates; qw_event := event; qw_session := session; qw_progress_event := None;
  qw_progress_batch := None; qw_progress_batches := []; qw_progress_batch_updates := [];
  qw_opening_wip_batch_updates := []; qw_returned_paint_report := None; qw_order_control_update := control;
  qw_schedule_reservation_status := Some ScheduleStatus.Paused; qw_print_preflight_hold_id := None;
  qw_print_preflight_cancel_hold_id := cancelled_hold |}.

Definition prepare_direct_freeze_queue_write (k : nat) (record : OrderControlRecord)
    (target_session : option RunSession) (target_preflight : option PrintPreflightHold) (s : run_store)
  : run_result (option QueueActionProgressWrite) :=
  all_states ← lift (apparatus_queue_states s);
  sequences ← lift (apparatus_sequences (ts_tables s));
  let maps := btree_values (st_maps s) in
  let order_id := control_order_id record in
  match freeze_target record target_session target_preflight all_states with
  | None => Ok None
  | Some target =>
      let storage_key := apparatus_search_key target in
      canonical ← lift (resolve_canonical_apparatus_text resolver storage_key);
      let parsed := states_of_machine all_states storage_key target in
      let from_state := default OrderState.Paused (parsed !! trim order_id) in
      if negb (freezable record target_session target_preflight from_state) then Ok None
      else
        let visible := visible_order_ids_for_apparatus maps target in
        let excluded := {[order_id]} ∪ frozen_order_ids s in
        let sequence :=
          effective_apparatus_sequence_excluding (default [] (sequences !! storage_key)) visible excluded in
        let updates := scoped_updates record target
          (sequence_updates_for_frozen_transition maps sequences excluded None) in
        let stage := or_else ((λ session : RunSession, trim (session_stage_node_id session)) <$> target_session)
                       ((λ h, trim (hold_stage_node_id h)) <$> target_preflight) in
        event ← with_event_fields
          ([("admin_freeze", json_bool true);
            ("order_control_state", json_str (OrderControl.as_str (control_state record)))] ++
           match target_preflight with
           | Some _ => [("print_preflight_passed_freeze", json_bool true)]
           | None => []
           end)
          (queue_action_event (nanos k) target storage_key order_id
             (default (control_stage_node_id record) stage) Action.Freeze from_state OrderState.Frozen
             (effective_apparatus_queue_policy canonical) (control_actor record) [] sequence visible);
        session ← match target_session with
                  | Some session => Some <$> frozen_session session
                  | None => Ok None
                  end;
        Ok (Some (plain_write storage_key (<[order_id := OrderState.Frozen]> parsed) updates event session
                    (Some record) ((λ h, trim (hold_id h)) <$> target_preflight)))
  end.

(** * Requests that write more than once *)

(** A request: it reads the store, writes to it and may fail, keeping what it wrote. *)
Definition service (A : Type) : Type := run_store → run_store * run_result A.
#[local] Instance service_bind : MBind service := λ A B f m s,
  match m s with
  | (s, Ok a) => f a s
  | (s, Err e) => (s, Err e)
  end.
Definition read {A} (f : run_store → run_result A) : service A := λ s, (s, f s).
Definition commit_write (write : QueueActionProgressWrite) : service unit := commit_queue_action write now.
Definition put_control (record : OrderControlRecord) : service unit := on_tables (put_order_control_state record).

Fixpoint in_order {A} (f : A → service unit) (l : list A) : service unit :=
  match l with
  | [] => read (λ _, Ok tt)
  | x :: l => _ ← f x : service unit; in_order f l
  end.

(** * Returning a held order to its queues *)

Definition unfrozen_order_run_session (session : RunSession) : run_result RunSession :=
  let payload := json_remove "admin_freeze" (json_remove "frozen_order"
                   (ensure_payload_object (session_payload_json session))) in
  payload ← put_fields [("requeued_at_tail", json_bool true); ("unfrozen_at_unix", json_Z now)] payload;
  Ok {| run_session := (run_session session) <| session_status := RunStatus.Paused |>
                                             <| session_updated_at_unix := now |>;
        session_payload_json := payload |}.

Definition restore_target (record : OrderControlRecord) (states : station_states) (sessions : list RunSession)
  : option string :=
  or_else (r ← control_freeze_request record;
           let target := trim (freeze_target_apparatus r) in if is_empty target then None else Some target)
  (or_else (machine_in_state states (trim (control_order_id record)) OrderState.Frozen)
     ((λ session : RunSession, session_apparatus session) <$>
        List.find (λ session : RunSession, bool_decide (session_status session = RunStatus.Frozen)) sessions)).

Definition requested_session (record : OrderControlRecord) (storage_key : string) (sessions : list RunSession)
  : option RunSession :=
  r ← control_freeze_request record;
  let target := trim (freeze_target_session_id r) in
  if is_empty target then None
  else List.find (λ session : RunSession, (trim (session_id session) =s target) &&
                    apparatus_ids_match (session_apparatus session) storage_key) sessions.

(** The session that goes back to work, as it was stored. *)
Definition restored_session (requested : option RunSession) (requeued : bool) (storage_key : string)
    (sessions : list RunSession) : option RunSession :=
  or_else (match requested with
           | Some session =>
               if bool_decide (session_status session = RunStatus.Frozen) ||
                  (requeued && bool_decide (session_status session = RunStatus.Paused))
               then Some session else None
           | None => None
           end)
    (if requeued then None
     else List.find (λ session : RunSession, bool_decide (session_status session = RunStatus.Frozen) &&
                       apparatus_ids_match (session_apparatus session) storage_key) sessions).

Definition frozen_without (order_id : string) (s : order_store) : gset string :=
  list_to_set (fst <$> List.filter (λ entry : string * OrderControlRecord,
    bool_decide (control_state entry.2 = OrderControl.Frozen) && (entry.1 <>s order_id))
    (map_to_list (st_order_controls s))).

Definition restore_write (k : nat) (record : OrderControlRecord) (persist_control : bool) (s : run_store)
  : run_result QueueActionProgressWrite :=
  all_states ← lift (apparatus_queue_states s);
  sequences ← lift (apparatus_sequences (ts_tables s));
  let order_id := control_order_id record in
  let sessions := order_run_sessions_for_order order_id s in
  let maps := btree_values (st_maps s) in
  target ← lift (ok_or (restore_target record all_states sessions) OrderFreezeTargetNotFound);
  let storage_key := apparatus_search_key target in
  canonical ← lift (resolve_canonical_apparatus_text resolver storage_key);
  let parsed := states_of_machine all_states storage_key target in
  let from_state := default OrderState.Frozen (parsed !! trim order_id) in
  let requested := requested_session record storage_key sessions in
  let requeued := bool_decide (from_state = OrderState.Pending) &&
    is_some_and requested (λ session : RunSession, bool_decide (session_status session = RunStatus.Paused)) in
  _ ← lift (check (negb (bool_decide (from_state = OrderState.Frozen)) && negb requeued)
              OrderControlActionNotAllowed);
  let visible := visible_order_ids_for_apparatus maps target in
  let frozen := frozen_without order_id s in
  let sequence := effective_apparatus_sequence_excluding (default [] (sequences !! storage_key)) visible frozen in
  let updates := scoped_updates record target
    (sequence_updates_for_frozen_transition maps sequences frozen (Some order_id)) in
  event ← with_event_fields
    ([("admin_unfreeze", json_bool true); ("requeued_at_tail", json_bool true);
      ("order_control_state", json_str (OrderControl.as_str (control_state record)))] ++
     if requeued then [("recovered_control_only_freeze", json_bool true)] else [])
    (queue_action_event (nanos k) target storage_key order_id
       (default (control_stage_node_id record)
          ((λ session : RunSession, trim (session_stage_node_id session)) <$> requested))
       Action.Pause from_state OrderState.Pending (effective_apparatus_queue_policy canonical)
       (control_actor record) [] sequence visible);
  session ← match restored_session requested requeued storage_key sessions with
            | Some session => Some <$> unfrozen_order_run_session session
            | None => Ok None
            end;
  Ok (plain_write storage_key (<[order_id := OrderState.Pending]> parsed) updates event session
        (if persist_control then Some record else None) None).

Definition restore_one_frozen_queue (k : nat) (record : OrderControlRecord) (persist_control : bool)
  : service unit :=
  write ← read (restore_write k record persist_control) : service QueueActionProgressWrite;
  commit_write write.

(** A local hold of the order on a machine, still in force. *)
Definition holds_locally (order_id apparatus : string) (c : OrderControlRecord) : bool :=
  (control_order_id c =s order_id) && negb (bool_decide (control_state c = OrderControl.Active)) &&
  is_some_and (control_freeze_request c) (λ r, freeze_target_apparatus r =s apparatus).

(** The machines where the order is held by the order hold alone, with its frozen run. *)
Definition restore_targets (order_id : string) (s : run_store) : pm_result (gmap string (option RunSession)) :=
  let locals := stage_order_control_states s in
  let sessions := order_run_sessions_for_order order_id s in
  states ← apparatus_queue_states s;
  let targets := foldl (λ targets (session : RunSession),
      if bool_decide (session_status session = RunStatus.Frozen) &&
         negb (existsb (λ c, holds_locally order_id (session_apparatus session) c &&
                 (control_stage_node_id c =s session_stage_node_id session)) locals)
      then <[session_apparatus session := Some session]> targets else targets) (∅ : gmap string (option RunSession)) sessions in
  Ok (foldl (λ targets (entry : string * gmap string string),
      if bool_decide (entry.2 !! order_id = Some "frozen") &&
         negb (existsb (holds_locally order_id entry.1) locals)
      then match targets !! entry.1 with Some _ => targets | None => <[entry.1 := None]> targets end
      else targets) targets (btree_entries states)).

(** The record that names one machine. *)
Definition retarget (record : OrderControlRecord) (apparatus : string) (session : option RunSession)
  : pm_result OrderControlRecord :=
  request ← ok_or (control_freeze_request record) OrderFreezeRequestMismatch;
  Ok (record <| control_freeze_request := Some
        (request <| freeze_target_apparatus := apparatus |>
                 <| freeze_target_session_id := default "" ((λ s : RunSession, session_id s) <$> session) |>) |>).

Definition restore_frozen_queue_after_unfreeze (record : OrderControlRecord) : service unit :=
  if negb (is_empty (control_stage_node_id record)) then restore_one_frozen_queue 0 record true
  else
    targets ← read (λ s, lift (restore_targets (control_order_id record) s)) : service (gmap string (option RunSession));
    _ ← in_order (λ kt : nat * (string * option RunSession),
          target ← read (λ _, lift (retarget record kt.2.1 kt.2.2)) : service OrderControlRecord;
          restore_one_frozen_queue kt.1 target false)
          (imap pair (btree_entries targets)) : service unit;
    put_control record.

(** The request of a hold from before requests were recorded. *)
Definition recovery_freeze_request (current : OrderControlRecord) (order_id : string) (s : run_store)
  : pm_result OrderFreezeRequest :=
  states ← apparatus_queue_states s;
  let sessions := order_run_sessions_for_order order_id s in
  let session := List.find (λ x : RunSession, bool_decide (session_status x = RunStatus.Frozen)) sessions in
  let target :=
    or_else ((λ x : RunSession, trim (session_apparatus x)) <$> session)
      (trim <$> machine_in_state states order_id OrderState.Frozen) in
  target ← ok_or (t ← target; if is_empty t then None else Some t) OrderFreezeTargetNotFound;
  let worker (f : RunSession → string) := default "" (f <$> session) in
  Ok {| freeze_scope := "order"; freeze_stage_node_id := "";
        freeze_request_id := "order-freeze-recovery:" +:+ order_id;
        freeze_status := FreezeRequestStatus.Unfrozen;
        freeze_target_session_id := worker (λ x, trim (session_id x));
        freeze_target_apparatus := match session with Some _ => target | None => "" end;
        freeze_target_worker_role := worker (λ x, session_worker_role x);
        freeze_target_worker_ref := worker (λ x, session_worker_ref x);
        freeze_target_worker_display_name := worker (λ x, session_worker_display_name x);
        freeze_requested_at_unix := Z.max (control_requested_at_unix current) 0;
        freeze_transitioned_at_unix := now |}.

(** Cancelling a requested hold and releasing one: [expected] is the state before. *)
Definition released_record (expected : OrderControl.t) (order_id : string) (actor : QueueActionActor)
    (s : run_store) : pm_result OrderControlRecord :=
  order_id ← required_existing_order_id order_id s;
  let current := current_order_control order_id s in
  _ ← check (negb (bool_decide (control_state current = expected)) || is_some (control_early_close current))
        OrderControlActionNotAllowed;
  request ← match control_freeze_request current with
            | Some request => Ok request
            | None =>
                if bool_decide (expected = OrderControl.Frozen) then recovery_freeze_request current order_id s
                else Err OrderControlActionNotAllowed
            end;
  status ← match expected with
           | OrderControl.FreezeRequested => Ok FreezeRequestStatus.Cancelled
           | OrderControl.Frozen => Ok FreezeRequestStatus.Unfrozen
           | OrderControl.Active => Err OrderControlActionNotAllowed
           end;
  let request := request <| freeze_status := status |> <| freeze_transitioned_at_unix := now |> in
  Ok {| control_order_id := order_id; control_stage_node_id := ""; control_state := OrderControl.Active;
        control_actor := actor; control_requested_at_unix := freeze_requested_at_unix request;
        control_frozen_at_unix := None; control_freeze_request := Some request; control_early_close := None |}.

Definition transition_order_control (expected : OrderControl.t) (order_id : string) (actor : QueueActionActor)
  : service OrderControlRecord :=
  record ← read (λ s, lift (released_record expected order_id actor s)) : service OrderControlRecord;
  _ ← restore_frozen_queue_after_unfreeze record : service unit;
  read (λ _, Ok record).

Definition cancel_order_freeze_request := transition_order_control OrderControl.FreezeRequested.
Definition unfreeze_order := transition_order_control OrderControl.Frozen.

(** * Holding and closing an order *)

(** A queue was frozen before order controls existed. *)
Definition frozen_by_queue_alone (order_id : string) (states : station_states) (controls : list OrderControlRecord)
  : bool :=
  existsb (λ entry : string * gmap string string,
    bool_decide (entry.2 !! order_id = Some "frozen") &&
    negb (existsb (λ c, (control_order_id c =s order_id) && bool_decide (control_state c = OrderControl.Frozen) &&
                    is_some_and (control_freeze_request c) (λ r, freeze_target_apparatus r =s entry.1)) controls))
    (btree_entries states).

(** The trials the order stands in. *)
Definition preflight_targets (order_id : string) (states : station_states) (holds : list PrintPreflightHold)
  : list PrintPreflightHold :=
  List.filter (λ hold, existsb (λ entry : string * gmap string string,
    apparatus_ids_match entry.1 (hold_apparatus hold) &&
    is_some_and (entry.2 !! order_id) (is_state OrderState.PrintPreflight)) (btree_entries states)) holds.

Definition is_passed (hold : PrintPreflightHold) : bool := bool_decide (hold_status hold = PreflightStatus.Passed).

Definition stop_state (evidence : OrderFlowEvidence) (targets : list PrintPreflightHold) : OrderControl.t :=
  if (match List.filter is_passed targets with [] => false | _ => true end) &&
     ((1 <? length targets) || match ev_paused_sessions evidence with [] => false | _ => true end)
  then OrderControl.FreezeRequested
  else if ev_has_active_work evidence then OrderControl.FreezeRequested else OrderControl.Frozen.

(** The run whose worker is asked to stop. *)
Definition stop_session (evidence : OrderFlowEvidence) (targets : list PrintPreflightHold)
    (state : OrderControl.t) : pm_result (option RunSession) :=
  match state with
  | OrderControl.FreezeRequested =>
      match ev_active_sessions evidence, targets with
      | [session], [] => Ok (Some session)
      | [], [] => Err OrderFreezeTargetNotFound
      | _, _ => Ok None
      end
  | _ => Ok (match ev_paused_sessions evidence with [session] => Some session | _ => None end)
  end.

Definition stop_preflight (evidence : OrderFlowEvidence) (targets : list PrintPreflightHold)
    (state : OrderControl.t) (session : option RunSession) : option PrintPreflightHold :=
  if is_none session && (negb (bool_decide (state = OrderControl.FreezeRequested)) ||
                         match ev_active_sessions evidence with [] => true | _ => false end)
  then match targets with [hold] => Some hold | _ => None end
  else None.

Definition worker_of (session : option RunSession) (hold : option PrintPreflightHold) : option QueueActionActor :=
  match session with
  | Some session => Some {| actor_role := session_worker_role session; actor_ref := session_worker_ref session;
                            actor_display_name := session_worker_display_name session |}
  | None => hold_actor <$> hold
  end.

Definition stop_request (request_id : string) (state : OrderControl.t) (session : option RunSession)
    (hold : option PrintPreflightHold) : OrderFreezeRequest :=
  let requested := bool_decide (state = OrderControl.FreezeRequested) in
  let worker := worker_of session hold in
  {| freeze_scope := "order"; freeze_stage_node_id := ""; freeze_request_id := request_id;
     freeze_status := if requested then FreezeRequestStatus.Pending else FreezeRequestStatus.Frozen;
     freeze_target_session_id := default "" ((λ x : RunSession, trim (session_id x)) <$> session);
     freeze_target_apparatus := default "" (or_else ((λ x : RunSession, trim (session_apparatus x)) <$> session)
                                              ((λ h, trim (hold_apparatus h)) <$> hold));
     freeze_target_worker_role := match worker with
       | Some w => trim (actor_role w)
       | None => if requested then "aparatchi" else ""
       end;
     freeze_target_worker_ref := default "" ((λ w, trim (actor_ref w)) <$> worker);
     freeze_target_worker_display_name := default "" ((λ w, trim (actor_display_name w)) <$> worker);
     freeze_requested_at_unix := now; freeze_transitioned_at_unix := now |}.

Definition early_close_of (actor : QueueActionActor) (closed : bool) (comment : string) : OrderEarlyClose :=
  {| close_comment := comment; close_actor := actor; close_requested_at_unix := now;
     close_closed_at_unix := if closed then Some now else None |}.

Definition stop_record (order_id request_id : string) (actor : QueueActionActor) (comment : option string)
    (evidence : OrderFlowEvidence) (state : OrderControl.t) (session : option RunSession)
    (hold : option PrintPreflightHold) : OrderControlRecord :=
  let frozen := bool_decide (state = OrderControl.Frozen) in
  {| control_order_id := order_id; control_stage_node_id := ""; control_state := state; control_actor := actor;
     control_requested_at_unix := now; control_frozen_at_unix := if frozen then Some now else None;
     control_freeze_request :=
       if is_some comment && negb (ev_started evidence) then None
       else Some (stop_request request_id state session hold);
     control_early_close := early_close_of actor frozen <$> comment |}.

(** The hold took effect at once. *)
Definition frozen_record (record : OrderControlRecord) : OrderControlRecord :=
  ((record <| control_state := OrderControl.Frozen |>) <| control_frozen_at_unix := Some now |>)
    <| control_freeze_request :=
         (λ r, r <| freeze_status := FreezeRequestStatus.Frozen |>) <$> control_freeze_request record |>
    <| control_early_close := (λ c, {| close_comment := close_comment c; close_actor := close_actor c;
         close_requested_at_unix := close_requested_at_unix c; close_closed_at_unix := Some now |})
           <$> control_early_close record |>.

Record StopPlan := {
  sp_order_id : string;
  sp_record : OrderControlRecord;
  sp_evidence : OrderFlowEvidence;
  sp_session : option RunSession;
  sp_preflight : option PrintPreflightHold;
  sp_passed : list PrintPreflightHold;
}.

(** What a request finds: an answer, a hold to close, or a plan. *)
Inductive StopDecision :=
  | AlreadyClosed (record : OrderControlRecord)
  | CloseHeld (record : OrderControlRecord)
  | Stop (plan : StopPlan).

Definition decide_stop (order_id request_id : string) (actor : QueueActionActor) (comment : option string)
    (s : run_store) : pm_result StopDecision :=
  order_id ← required_existing_order_id order_id s;
  let current := current_order_control order_id s in
  match control_early_close current with
  | Some close =>
      if bool_decide (comment = Some (close_comment close)) then Ok (AlreadyClosed current)
      else Err OrderControlActionNotAllowed
  | None =>
      lifecycle ← production_order_lifecycle order_id s;
      _ ← check (LifecycleStatus.is_terminal_for_material_assignment (lc_status lifecycle)) OrderAlreadyCompleted;
      let held := negb (bool_decide (control_state current = OrderControl.Active)) in
      match held, comment with
      | true, Some text =>
          Ok (CloseHeld (current <| control_early_close :=
                Some (early_close_of actor (bool_decide (control_state current = OrderControl.Frozen)) text) |>))
      | true, None => Err OrderControlActionNotAllowed
      | false, _ =>
          states ← apparatus_queue_states s;
          _ ← check (frozen_by_queue_alone order_id states (stage_order_control_states s)) OrderFrozen;
          evidence ← order_flow_evidence order_id s;
          _ ← check (ev_completed evidence) OrderAlreadyCompleted;
          let targets := preflight_targets order_id states (ev_print_preflight_holds evidence) in
          let state := stop_state evidence targets in
          session ← stop_session evidence targets state;
          let hold := stop_preflight evidence targets state session in
          Ok (Stop {| sp_order_id := order_id;
                      sp_record := stop_record order_id request_id actor comment evidence state session hold;
                      sp_evidence := evidence; sp_session := session; sp_preflight := hold;
                      sp_passed := List.filter is_passed targets |})
      end
  end.

(** Passed trials have no running roll to acknowledge: they are stopped at once. *)
Definition stop_passed_trials (plan : StopPlan) : service OrderControlRecord :=
  let record := sp_record plan in
  let current := read (λ s, Ok (current_order_control (sp_order_id plan) s)) : service OrderControlRecord in
  _ ← put_control record : service unit;
  _ ← in_order (λ kh : nat * PrintPreflightHold,
        write ← read (λ s, write ← prepare_direct_freeze_queue_write kh.1 record None (Some kh.2) s;
                           lift (ok_or write OrderFreezeTargetNotFound)) : service QueueActionProgressWrite;
        commit_write write) (imap pair (sp_passed plan)) : service unit;
  durable ← current : service OrderControlRecord;
  if bool_decide (control_state durable = OrderControl.Frozen) then read (λ _, Ok durable)
  else
    _ ← in_order (λ kx : nat * RunSession,
          write ← read (prepare_direct_freeze_queue_write (length (sp_passed plan) + kx.1) record (Some kx.2) None)
            : service (option QueueActionProgressWrite);
          match write with Some write => commit_write write | None => read (λ _, Ok tt) end)
          (imap pair (ev_paused_sessions (sp_evidence plan))) : service unit;
    _ ← (if ev_has_active_work (sp_evidence plan) then read (λ _, Ok tt)
         else put_control (frozen_record record)) : service unit;
    current.

Definition stop_order (plan : StopPlan) : service OrderControlRecord :=
  let record := sp_record plan in
  let requested := bool_decide (control_state record = OrderControl.FreezeRequested) in
  if requested && (match sp_passed plan with [] => false | _ => true end) then stop_passed_trials plan
  else
    write ← read (prepare_direct_freeze_queue_write 0 record (sp_session plan) (sp_preflight plan))
      : service (option QueueActionProgressWrite);
    _ ← match write with
        | Some write => commit_write write
        | None =>
            if requested || negb (ev_has_active_work (sp_evidence plan)) then put_control record
            else read (λ _, Err (Fail OrderFreezeTargetNotFound))
        end : service unit;
    read (λ _, Ok record).

Definition request_order_stop (order_id request_id : string) (actor : QueueActionActor) (comment : option string)
  : service OrderControlRecord :=
  decision ← read (λ s, lift (decide_stop order_id request_id actor comment s)) : service StopDecision;
  match decision with
  | AlreadyClosed record => read (λ _, Ok record)
  | CloseHeld record => _ ← put_control record : service unit; read (λ _, Ok record)
  | Stop plan => stop_order plan
  end.

Definition request_order_freeze (order_id request_id : string) (actor : QueueActionActor)
  : service OrderControlRecord := request_order_stop order_id request_id actor None.

Definition request_order_early_close (order_id request_id : string) (actor : QueueActionActor) (comment : string)
  : service OrderControlRecord :=
  let comment := trim comment in
  if is_empty comment || (Z.to_nat 2000 <? length (chars comment)) then read (λ _, Err (Fail ProgressInputInvalid))
  else request_order_stop order_id request_id actor (Some comment).

(** * Holding one occurrence (scoped.rs) *)

Definition resolve_hold_stage (order_id apparatus stage_node_id_ : string) (s : order_store) : pm_result string :=
  map ← ok_or (map_by_id order_id s) MapNotFound;
  match List.filter (λ stage, bool_decide (stage_apparatus_id stage = Some (trim apparatus)) &&
          (blank stage_node_id_ || (Chain.stage_node_id stage =s trim stage_node_id_))) (linear_work_stages map) with
  | [stage] => Ok (Chain.stage_node_id stage)
  | [] => Err OrderFreezeTargetNotFound
  | _ => Err OrderFreezeTargetAmbiguous
  end.

(** The order is under no hold of its own. *)
Definition require_uncontrolled (order_id : string) (s : order_store) : pm_result string :=
  order_id ← required_existing_order_id order_id s;
  let global := current_order_control order_id s in
  _ ← check (negb (bool_decide (control_state global = OrderControl.Active)) || is_some (control_early_close global))
        OrderControlActionNotAllowed;
  Ok order_id.

Definition stage_record (order_id request_id apparatus stage : string) (actor : QueueActionActor)
    (session : option RunSession) (hold : option PrintPreflightHold) (running : bool) : OrderControlRecord :=
  let worker := worker_of session hold in
  {| control_order_id := order_id; control_stage_node_id := stage;
     control_state := if running then OrderControl.FreezeRequested else OrderControl.Frozen;
     control_actor := actor; control_requested_at_unix := now;
     control_frozen_at_unix := if running then None else Some now;
     control_freeze_request := Some {|
       freeze_scope := "stage"; freeze_stage_node_id := stage; freeze_request_id := request_id;
       freeze_status := if running then FreezeRequestStatus.Pending else FreezeRequestStatus.Frozen;
       freeze_target_session_id := default "" ((λ x : RunSession, session_id x) <$> session);
       freeze_target_apparatus := apparatus;
       freeze_target_worker_role := default "" (actor_role <$> worker);
       freeze_target_worker_ref := default "" (actor_ref <$> worker);
       freeze_target_worker_display_name := default "" (actor_display_name <$> worker);
       freeze_requested_at_unix := now; freeze_transitioned_at_unix := now |};
     control_early_close := None |}.

Record StagePlan := {
  gp_record : OrderControlRecord;
  gp_session : option RunSession;
  gp_preflight : option PrintPreflightHold;
  (** a running occurrence is asked to stop; beside another run the hold alone is recorded *)
  gp_record_only : bool;
}.

Definition plan_stage_freeze (order_id request_id apparatus_ stage_ : string) (actor : QueueActionActor)
    (s : run_store) : pm_result StagePlan :=
  order_id ← require_uncontrolled order_id s;
  lifecycle ← production_order_lifecycle order_id s;
  _ ← check (LifecycleStatus.is_terminal_for_material_assignment (lc_status lifecycle)) OrderAlreadyCompleted;
  canonical ← resolve_canonical_apparatus_text resolver apparatus_;
  let apparatus := config_apparatus_id canonical in
  stage ← resolve_hold_stage order_id apparatus stage_ s;
  existing ← stage_order_control_by_id order_id apparatus stage s;
  _ ← check (is_some_and existing (λ c, negb (bool_decide (control_state c = OrderControl.Active))))
        OrderControlActionNotAllowed;
  let sessions := order_run_sessions_for_order order_id s in
  let session := List.find (λ x : RunSession, (session_apparatus x =s apparatus) &&
    (session_stage_node_id x =s stage) && OrderRunStatus.is_open (session_status x)) sessions in
  let hold := List.find (λ h, (hold_order_id h =s order_id) && (hold_apparatus h =s apparatus) &&
    (hold_stage_node_id h =s stage)) (active_print_preflight_holds (rs_trials s)) in
  let running :=
    is_some_and session (λ x : RunSession, bool_decide (session_status x = RunStatus.Active)) ||
    is_some_and hold (λ h, match hold_status h with
                           | PreflightStatus.Held | PreflightStatus.Running => true | _ => false end) in
  Ok {| gp_record := stage_record order_id request_id apparatus stage actor session hold running;
        gp_session := session; gp_preflight := hold;
        gp_record_only := running || (is_none session &&
          existsb (λ x : RunSession, (session_apparatus x =s apparatus) &&
                     (session_stage_node_id x <>s stage)) sessions) |}.

Definition request_stage_freeze (order_id request_id apparatus stage : string) (actor : QueueActionActor)
  : service OrderControlRecord :=
  plan ← read (λ s, lift (plan_stage_freeze order_id request_id apparatus stage actor s)) : service StagePlan;
  _ ← (if gp_record_only plan then put_control (gp_record plan)
       else
         write ← read (λ s, write ← prepare_direct_freeze_queue_write 0 (gp_record plan) (gp_session plan)
                                      (gp_preflight plan) s;
                            lift (ok_or write OrderControlActionNotAllowed)) : service QueueActionProgressWrite;
         commit_write write) : service unit;
  read (λ _, Ok (gp_record plan)).

(** The released record of an occurrence, and whether its queue must be restored. *)
Definition plan_stage_release (order_id apparatus_ stage_ : string) (actor : QueueActionActor)
    (expected : OrderControl.t) (s : run_store) : pm_result (OrderControlRecord * bool) :=
  order_id ← require_uncontrolled order_id s;
  canonical ← resolve_canonical_apparatus_text resolver apparatus_;
  let apparatus := config_apparatus_id canonical in
  stage ← resolve_hold_stage order_id apparatus stage_ s;
  existing ← stage_order_control_by_id order_id apparatus stage s;
  record ← ok_or (c ← existing; if bool_decide (control_state c = expected) then Some c else None)
             OrderControlActionNotAllowed;
  request ← ok_or (control_freeze_request record) OrderFreezeRequestMismatch;
  let released := bool_decide (expected = OrderControl.Frozen) in
  let request := request <| freeze_status := if released then FreezeRequestStatus.Unfrozen
                                             else FreezeRequestStatus.Cancelled |>
                         <| freeze_transitioned_at_unix := now |> in
  let record := record <| control_freeze_request := Some request |> <| control_state := OrderControl.Active |>
                       <| control_actor := actor |> <| control_frozen_at_unix := None |> in
  states ← apparatus_queue_states s;
  let sessions := order_run_sessions_for_order order_id s in
  let here (x : RunSession) := session_apparatus x =s apparatus in
  let own (x : RunSession) := session_stage_node_id x =s control_stage_node_id record in
  let queue_frozen := bool_decide ((states !! apparatus ≫= lookup order_id) = Some "frozen") in
  let owns_frozen := existsb (λ x, here x && own x && bool_decide (session_status x = RunStatus.Frozen)) sessions in
  let another_open := existsb (λ x, here x && negb (own x) && OrderRunStatus.is_open (session_status x)) sessions in
  Ok (record, released && (owns_frozen || (queue_frozen && negb another_open))).

Definition release_stage (plan : OrderControlRecord * bool) : service OrderControlRecord :=
  _ ← (if plan.2 then restore_frozen_queue_after_unfreeze plan.1 else put_control plan.1) : service unit;
  read (λ _, Ok plan.1).

Definition transition_stage_control (expected : OrderControl.t) (order_id apparatus stage : string)
    (actor : QueueActionActor) : service OrderControlRecord :=
  plan ← read (λ s, lift (plan_stage_release order_id apparatus stage actor expected s))
    : service (OrderControlRecord * bool);
  release_stage plan.

Definition cancel_stage_freeze_request := transition_stage_control OrderControl.FreezeRequested.
Definition unfreeze_stage := transition_stage_control OrderControl.Frozen.

(** * Deleting an order *)

(** The name of a machine, for a message. *)
Definition deletion_apparatus_name (value_ : string) : string :=
  let name := match ApparatusId_new (trim value_) with
    | Err _ => None
    | Ok id =>
        match resolver id with
        | Ok (Some configuration) =>
            let name := trim (runtime_display_name configuration) in
            if same_apparatus_id (row_apparatus_id (runtime_row configuration)) id &&
               has_coherent_source configuration && negb (is_empty name) then Some name else None
        | _ => None
        end
    end in
  default "Nomi aniqlanmagan apparat" name.

(** The machines of the first stages. *)
Definition initial_apparatuses (map : ProductionMapDefinition) : gset string :=
  list_to_set (omap stage_apparatus_id (List.filter (λ stage,
    match previous_work_stages_for_node map (Chain.stage_node_id stage) with [] => true | _ => false end)
    (linear_work_stages map))).

Definition blocks (b : bool) (code message : string) : list OrderDeleteBlocker :=
  if b then [OrderDeleteBlocker_new code message] else [].

Definition delete_blockers (listed : pm_result (list RuntimeApparatusConfiguration)) (order_id : string)
    (map : ProductionMapDefinition) (s : material_store) : pm_result (list OrderDeleteBlocker) :=
  let initial := initial_apparatuses map in
  sequences ← effective_apparatus_sequences listed s;
  evidence ← order_flow_evidence order_id s;
  let first := omap (λ entry : string * list string,
    if bool_decide (entry.1 ∈ initial) && is_some_and (head entry.2) (λ id, trim id =s order_id)
    then Some (OrderDeleteBlocker_new "first_in_sequence"
           ("Buyurtma «" +:+ deletion_apparatus_name entry.1 +:+ "» navbatida 1-o‘rinda turibdi"))
    else None) (btree_entries sequences) in
  let names := deletion_apparatus_name <$> set_list (ev_started_apparatuses evidence) in
  let assignments := List.filter (λ a, trim (asg_order_id a) =s order_id) (raw_material_assignments s) in
  let opening := opening_wip_records {| owq_order_id := order_id; owq_wip_status := None; owq_limit := 1 |} s in
  Ok (blocks (is_some (control_early_close (current_order_control order_id s))) "early_close_history"
        "Erta yopilgan buyurtmaning sababi va tarixi saqlanishi shart; uni o‘chirib bo‘lmaydi" ++
      blocks (existsb (λ hold, trim (hold_order_id hold) =s order_id) (active_print_preflight_holds (rs_trials s)))
        "print_preflight_active"
        "Buyurtmada rang chiqarish davom etmoqda; avval rang sinovi natijasini belgilang" ++
      first ++
      blocks (ev_started evidence) "work_started"
        (match names with
         | [] => "Buyurtmada ish jarayoni allaqachon boshlangan"
         | _ => "Buyurtmada ish jarayoni boshlangan: " +:+ join ", " names
         end) ++
      blocks (match assignments with [] => false | _ => true end) "raw_material_attached"
        ("Buyurtmaga " +:+ Z_to_string (Z.of_nat (length assignments)) +:+ " ta homashyo biriktirilgan") ++
      blocks (match opening with [] => false | _ => true end) "opening_wip_exists" "Buyurtmaga Opening WIP ochilgan").

Definition checked_deletion (listed : pm_result (list RuntimeApparatusConfiguration)) (order_id : string)
    (s : material_store) : pm_result string :=
  order_id ← required_existing_order_id order_id s;
  map ← ok_or (map_by_id order_id s) MapNotFound;
  blockers ← delete_blockers listed order_id map s;
  _ ← match blockers with [] => Ok tt | _ => Err (OrderDeleteBlocked blockers) end;
  Ok order_id.

Definition delete_order (listed : pm_result (list RuntimeApparatusConfiguration)) (order_id : string)
    (s : material_store) : material_store * pm_result string :=
  match checked_deletion listed order_id s with
  | Err e => (s, Err e)
  | Ok order_id =>
      let '(tables, r) := delete_map order_id (ts_tables s) in
      (s <| ms_runs := with_tables tables (ms_runs s) |>, _ ← r; Ok order_id)
  end.
End control.
