(* ===== verification/OrderControlFacts.v ===== *)
(** Correctness of the order-control service: a stopped order is held, an order that is
    released waits on every machine no hold of its own keeps, and only an order nothing was
    done for is deleted. *)
From S2P Require Import Prelude RustStr F64 Errors Identity QueueState QueueFacts OrderLayout MapDefinition Formula Compiler Bfs Chain Projection SequenceMove Scheduler Json Progress ProgressFacts WipRoute Lifecycle StageExecution OrderRefresh OrderStore Visibility Preflight PreflightFacts QueueMoves CutLayout Epc Paddon Metrics Lineage LineageFacts RunStore Warehouse WarehouseFacts QueueCommit QueueCommitFacts Materials Ids OpeningWip Pechat Automatic Transfer MapSave OrderControl.

Section facts.
Context `{J : Json} `{!JsonLaws J} `{C : !RouteCodec} `{R : !ReportCodec} `{!Serde (list OrderLane)}.
Context `{!Serde (list OrderRunInputLink)} `{!Serde (list RezkaActivePartialRoll)}.
Context `{!Serde (list ProgressBatchInputLink)} `{!Serde ProductionQrSessionResources}.
Context `{!Serde AutomaticQolipConfirmation} `{!Serde OrderProgressBatch} `{!Serde RunSession}.
Context (resolver : ApparatusId → pm_result (option RuntimeApparatusConfiguration)).
Context (nanos : nat → Z) (now : Z).

(** * Deletion *)

Lemma filter_nil {A} (f : A → bool) l : List.filter f l = [] ↔ ∀ x, x ∈ l → f x = false.
Proof.
  split; [|intros H; induction l as [|x l IH]; [done|]; simpl; rewrite H by left; apply IH; intros; apply H; by right].
  intros H x Hx. destruct (f x) eqn:E; [|done].
  assert (x ∈ List.filter f l) as Hin by by apply filterb_elem. rewrite H in Hin. by apply elem_of_nil in Hin.
Qed.

Lemma name_not_empty s : s ≠ "" → is_empty s = false.
Proof. by destruct s. Qed.

Lemma blocks_nil b code message : blocks b code message = [] ↔ b = false.
Proof. destruct b; by split. Qed.

(** What the store knows of an order's work. *)
Definition untouched (order_id : string) (s : material_store) : Prop :=
  (∀ k (x : RunSession), st_order_run_sessions s !! k = Some x → trim (session_order_id x) ≠ order_id) ∧
  (∀ k b, st_order_progress_batches s !! k = Some b → trim (batch_order_id b) ≠ order_id) ∧
  (∀ e, e ∈ st_queue_events s → trim (qe_order_id e) ≠ order_id) ∧
  (∀ k h, ts_holds s !! k = Some h → is_live h = true → trim (hold_order_id h) ≠ order_id) ∧
  (∀ k a, ms_assignments s !! k = Some a → trim (asg_order_id a) ≠ order_id) ∧
  (∀ k r, st_opening_wip_records s !! k = Some r → trim (intake_order_id (record_intake r)) ≠ order_id) ∧
  (∀ states machine raw state, apparatus_queue_states s = Ok states → states !! machine ≫= lookup order_id = Some raw →
     OrderState.parse raw = Some state → state = OrderState.Pending) ∧
  (∀ c, st_order_controls s !! order_id = Some c → control_early_close c = None).

(** The store forgets an order, and nothing else. *)
Definition forgets (order_id : string) (s s' : material_store) : Prop :=
  st_maps s' = delete order_id (st_maps s) ∧
  st_lifecycles s' = delete order_id (st_lifecycles s) ∧
  st_order_controls s' = delete order_id (st_order_controls s) ∧
  (∀ machine order, st_queue_states s' !! machine ≫= lookup order =
     if decide (order = order_id) then None else st_queue_states s !! machine ≫= lookup order) ∧
  (∀ machine, os_sequences s' !! machine =
     List.filter (λ order, trim order <>s order_id) <$> os_sequences s !! machine) ∧
  st_order_run_sessions s' = st_order_run_sessions s ∧
  st_order_progress_batches s' = st_order_progress_batches s ∧
  st_queue_events s' = st_queue_events s ∧
  st_stage_order_controls s' = st_stage_order_controls s ∧
  st_opening_wip_records s' = st_opening_wip_records s ∧
  ts_holds s' = ts_holds s ∧ rs_reservations s' = rs_reservations s ∧ ms_assignments s' = ms_assignments s.

Lemma delete_map_forgets order_id (s : material_store) tables :
  delete_map order_id (ts_tables s) = (tables, Ok tt) →
  forgets (trim order_id) s (s <| ms_runs := with_tables tables (ms_runs s) |>).
Proof.
  unfold delete_map. destruct (is_some_and _ _); [done|]. intros [= <-]. unfold forgets. simpl.
  split_and!; try done; [|by intros machine; rewrite lookup_fmap].
  intros machine order. rewrite lookup_fmap. destruct (st_queue_states s !! machine) as [states|]; simpl.
  - destruct (decide (order = trim order_id)) as [->|]; [apply lookup_delete_eq|by apply lookup_delete_ne].
  - by destruct (decide _).
Qed.

Lemma delete_map_Err order_id (t t' : order_tables) e : delete_map order_id t = (t', Err e) → t' = t.
Proof. unfold delete_map. destruct (is_some_and _ _); congruence. Qed.

(** An order with a name has no run, roll or event when its evidence says so. *)
Lemma evidence_untouched order_id (s : run_store) evidence :
  trim order_id = order_id → order_id ≠ "" →
  order_flow_evidence order_id s = Ok evidence → ev_started evidence = false →
  order_run_sessions_for_order order_id s = [] ∧ progress_batches_for_order order_id s = [] ∧
  order_events order_id s = [] ∧
  ∃ states, apparatus_queue_states s = Ok states ∧
    List.filter (λ e : string * OrderState.t, negb (bool_decide (e.2 = OrderState.Pending)))
      (order_states order_id states) = [].
Proof.
  intros Ht Hne H Hs. unfold order_flow_evidence in H.
  apply bind_Ok in H as (states & Hst & H). apply bind_Ok in H as (status & _ & [= <-]). simpl in Hs.
  repeat match type of Hs with context [match ?x with [] => _ | _ => _ end] => destruct x eqn:?; [|done] end.
  split_and!; try done. by exists states.
Qed.

Lemma sessions_none order_id (s : order_store) : trim order_id = order_id → order_id ≠ "" →
  order_run_sessions_for_order order_id s = [] →
  ∀ k (x : RunSession), st_order_run_sessions s !! k = Some x → trim (session_order_id x) ≠ order_id.
Proof.
  unfold order_run_sessions_for_order. intros -> Hne%name_not_empty. rewrite Hne.
  intros H k x Hk Ho.
  assert (x ∈ merge_sort started_before
    (List.filter (λ session : RunSession, trim (session_order_id session) =s order_id) (sessions s))) as Hin.
  { rewrite merge_sort_Permutation, filterb_elem. split; [|by apply String.eqb_eq].
    apply elem_of_btree_values. by exists k. }
  rewrite H in Hin. by apply elem_of_nil in Hin.
Qed.

Lemma batches_none order_id (s : order_store) : trim order_id = order_id → order_id ≠ "" →
  progress_batches_for_order order_id s = [] →
  ∀ k b, st_order_progress_batches s !! k = Some b → trim (batch_order_id b) ≠ order_id.
Proof.
  unfold progress_batches_for_order. intros -> Hne%name_not_empty. rewrite Hne.
  intros H k x Hk Ho.
  assert (x ∈ merge_sort id_after (List.filter (λ b, trim (batch_order_id b) =s order_id) (batches s))) as Hin.
  { rewrite merge_sort_Permutation, filterb_elem. split; [|by apply String.eqb_eq].
    apply elem_of_btree_values. by exists k. }
  rewrite H in Hin. by apply elem_of_nil in Hin.
Qed.

Lemma opening_none order_id (s : order_store) :
  opening_wip_records {| owq_order_id := order_id; owq_wip_status := None; owq_limit := 1 |} s = [] →
  trim order_id = order_id →
  ∀ k r, st_opening_wip_records s !! k = Some r → trim (intake_order_id (record_intake r)) ≠ order_id.
Proof.
  unfold opening_wip_records. simpl. intros H Ht k r Hk Ho.
  assert (r ∈ merge_sort newer_intake (List.filter (λ r,
    (blank order_id || (trim (intake_order_id (record_intake r)) =s trim order_id)) && true)
    (btree_values (st_opening_wip_records s)))) as Hin.
  { rewrite merge_sort_Permutation, filterb_elem. split.
    - apply elem_of_btree_values. by exists k.
    - rewrite Ho, Ht, String.eqb_refl. by rewrite orb_true_r. }
  destruct (merge_sort _ _); [by apply elem_of_nil in Hin|done].
Qed.

Lemma states_pending order_id states :
  List.filter (λ e : string * OrderState.t, negb (bool_decide (e.2 = OrderState.Pending)))
    (order_states order_id states) = [] →
  ∀ machine raw state, states !! machine ≫= lookup order_id = Some raw →
    OrderState.parse raw = Some state → state = OrderState.Pending.
Proof.
  rewrite filter_nil. intros H machine raw state Hm Hp.
  apply bind_Some in Hm as (row & Hrow & Hraw).
  assert ((machine, state) ∈ order_states order_id states) as Hin.
  { unfold order_states. apply list_elem_of_omap. exists (machine, row).
    split; [by apply elem_of_btree_entries|]. simpl. by rewrite Hraw; simpl; rewrite Hp. }
  specialize (H _ Hin). simpl in H. apply negb_false_iff, bool_decide_eq_true in H. done.
Qed.

Lemma required_existing_Ok order_id (s : order_store) id :
  required_existing_order_id order_id s = Ok id →
  id = trim order_id ∧ trim id = id ∧ id ≠ "" ∧ is_Some (map_by_id id s).
Proof.
  unfold required_existing_order_id. intros H. inv_run. injection H as <-.
  split_and!; [done|apply trim_idemp|by destruct (trim order_id)|].
  destruct (map_by_id _ _); [by eexists|done].
Qed.

(** Not at the head of the queue of a first machine. *)
Definition not_first listed (order_id : string) (s : material_store) : Prop :=
  ∀ map sequences machine queue, map_by_id order_id s = Some map →
    effective_apparatus_sequences listed s = Ok sequences → machine ∈ initial_apparatuses map →
    sequences !! machine = Some queue → trim <$> head queue ≠ Some order_id.

Lemma no_blockers listed order_id map (s : material_store) :
  trim order_id = order_id → order_id ≠ "" → map_by_id order_id s = Some map →
  delete_blockers resolver listed order_id map s = Ok [] →
  untouched order_id s ∧ not_first listed order_id s.
Proof.
  intros Ht Hne Hmap H. unfold delete_blockers in H.
  apply bind_Ok in H as (sequences & Hseq & H). apply bind_Ok in H as (evidence & Hev & H).
  injection H as H. repeat (apply app_nil in H as [? H]).
  repeat match goal with Hn : _ ++ _ = [] |- _ => apply app_nil in Hn as [? ?] end.
  rewrite !blocks_nil in *.
  destruct (evidence_untouched _ _ _ Ht Hne Hev ltac:(done)) as (Hs & Hb & He & states & Hst & Hp).
  assert (∀ {A} (l : list A), match l with [] => false | _ => true end = false → l = []) as Hnil.
  { by intros A []. }
  split.
  - unfold untouched. split_and!.
    + by apply sessions_none.
    + by apply batches_none.
    + intros e Hin. unfold order_events in He. rewrite filter_nil in He. by apply String.eqb_neq, He.
    + intros k h Hk Hlive. rewrite existsb_false in H1. apply String.eqb_neq, H1, filterb_elem.
      split; [apply elem_of_btree_values; by exists k|done].
    + intros k a Hk. apply Hnil in H4. rewrite filter_nil in H4. apply String.eqb_neq, H4.
      apply elem_of_btree_values. by exists k.
    + apply opening_none; [by apply Hnil|done].
    + intros states' machine raw state Hst'. rewrite Hst in Hst'. injection Hst' as <-. by apply states_pending.
    + intros c Hc. unfold current_order_control, order_control_by_id in H0. rewrite Ht, Hc in H0. simpl in H0.
      by destruct (control_early_close c).
  - intros map' sequences' machine queue Hm' Hs' Hin Hq Hfirst. rewrite Hmap in Hm'. injection Hm' as <-.
    rewrite Hseq in Hs'. injection Hs' as <-.
    match type of H2 with omap ?f ?l = [] => assert (f (machine, queue) = None) as Hf end.
    { apply eq_None_not_Some. intros [b Hb']. 
      match type of H2 with omap ?f ?l = [] => assert (b ∈ omap f l) as Hin' end.
      { apply list_elem_of_omap. exists (machine, queue). split; [by apply elem_of_btree_entries|done]. }
      rewrite H2 in Hin'. by apply elem_of_nil in Hin'. }
    simpl in Hf. rewrite bool_decide_eq_true_2 in Hf by done. destruct (head queue) as [first|]; [|done].
    simpl in Hf, Hfirst. injection Hfirst as Hfirst. by rewrite Hfirst, String.eqb_refl in Hf.
Qed.

(** C15: Deleting an order succeeds only for an order nothing was done for, and
    then forgets that order and nothing else: no run, roll, queue event, trial
    in force, material assignment or opening intake names it, no machine holds
    it in a state other than waiting, it was not closed early, and it does not
    head the queue of a first machine. A deletion that is refused changes
    nothing. *)
Theorem deleted_orders_were_untouched listed order_id (s s' : material_store) r :
  delete_order resolver listed order_id s = (s', r) →
  match r with
  | Ok id => id = trim order_id ∧ untouched id s ∧ not_first listed id s ∧ forgets id s s'
  | Err _ => s' = s
  end.
Proof.
  unfold delete_order. destruct (checked_deletion _ _ _ _) as [id|e] eqn:Hc; [|by intros [= <- <-]].
  unfold checked_deletion in Hc. apply bind_Ok in Hc as (id' & Hid & Hc). inv_run.
  apply required_existing_Ok in Hid as (-> & Ht & Hne & _).
  match goal with H : delete_blockers _ _ _ _ _ = Ok ?b |- _ => destruct b; [rename H into Hb|done] end.
  injection Hc as <-. destruct (no_blockers _ _ _ _ Ht Hne ltac:(done) Hb) as [Hu Hf].
  destruct (delete_map (trim order_id) (ts_tables s)) as [tables [[]|e]] eqn:Hd; intros [= <- <-].
  - split_and!; try done. rewrite <-Ht at 1. by apply delete_map_forgets.
  - apply delete_map_Err in Hd as ->. by destruct s as [[[]]].
Qed.

(** * What a queue write changes *)

(** The tables the holds are read from. *)
Definition held_tables (o : order_store) :=
  (st_maps o, st_queue_states o, st_order_controls o, st_stage_order_controls o).
Definition held (s : run_store) := held_tables s.

Lemma andThen_Ok a b (s s' : run_store) : andThen a b s = (s', Ok tt) →
  ∃ s1, a s = (s1, Ok tt) ∧ b s1 = (s', Ok tt).
Proof. unfold andThen. destruct (a s) as [s1 [[]|e]]; [|done]. intros H. by exists s1. Qed.

Lemma keeps_Ok {A} (f : run_store → A) a s s' : keeps f a → a s = (s', Ok tt) → f s' = f s.
Proof. intros Hk H. specialize (Hk s). by rewrite H in Hk. Qed.

Lemma fault_keeps_held : keeps held take_fault.
Proof. intros s. unfold take_fault. by destruct (rs_fail_next_commit s). Qed.

Lemma cancel_keeps_held id order_id apparatus actor at_ :
  keeps held (on_trials (cancel_print_preflight_hold id order_id apparatus actor at_)).
Proof.
  intros s. unfold on_trials, cancel_print_preflight_hold, settle_hold.
  by destruct (mbind _ _).
Qed.

Lemma session_keeps_held session : keeps held (put_order_run_session session).
Proof. intros s. unfold put_order_run_session. by destruct (stored_session _). Qed.

Lemma sequence_keeps_held apparatus ids :
  keeps held (on_tables (λ t, let '(t, r) := put_apparatus_sequence apparatus ids t in (t, lift r))).
Proof.
  apply (on_tables_keeps held_tables). intros t. unfold put_apparatus_sequence. by destruct (ApparatusId_new _).
Qed.

Lemma append_keeps_held event : keeps held (on_orders (append_apparatus_queue_action_event event)).
Proof. by apply (append_keeps held_tables). Qed.

Lemma reservation_keeps_held write status : keeps held (set_reservation write status).
Proof. intros s. unfold set_reservation. by destruct (mbind _ _). Qed.

Lemma put_states_held apparatus states (s s' : run_store) :
  on_orders (put_apparatus_queue_states apparatus states) s = (s', Ok tt) →
  ∃ id, ApparatusId_new (trim apparatus) = Ok id ∧
    held s' = (st_maps s, <[apparatus_id_str id := states]> (st_queue_states s), st_order_controls s,
               st_stage_order_controls s).
Proof.
  unfold on_orders, put_apparatus_queue_states. destruct (ApparatusId_new _) as [id|]; [|done].
  match goal with |- context [refresh_production_order_lifecycles ?ids ?o] =>
    pose proof (refresh_keeps held_tables ids o ltac:(done)) as H;
    destruct (refresh_production_order_lifecycles ids o) as [o' r] end.
  simpl in H. intros [= <- ->]. by exists id.
Qed.

(** Recording a hold of the whole order; a refresh that fails afterwards keeps it. *)
Lemma put_control_outcome record (s s' : run_store) r :
  blank (control_stage_node_id record) = true →
  put_control record s = (s', r) →
  (held s' = held s ∧ is_ok r = false) ∨
  held s' = (st_maps s, st_queue_states s, <[trim (control_order_id record) := record]> (st_order_controls s),
             st_stage_order_controls s).
Proof.
  unfold put_control, on_tables, put_order_control_state. intros ->. unfold put_order_control.
  destruct (mbind _ _) as [closed|] eqn:E; [right|intros [= <- <-]; by left].
  apply bind_Ok in E as ([] & _ & E).
  assert (held_tables closed = held s) as Hc.
  { unfold apply_early_close in E. destruct (_ ≫= _); [|by injection E as <-].
    apply bind_Ok in E as (t & E & [= <-]). unfold cancel_order in E.
    destruct (_ !! _); [|by injection E as <-]. by apply bind_Ok in E as (? & _ & [= <-]). }
  revert H. unfold refresh.
  match goal with |- context [refresh_production_order_lifecycles ?ids ?o] =>
    pose proof (refresh_keeps held_tables ids o ltac:(done)) as H;
    destruct (refresh_production_order_lifecycles ids o) as [o' r'] end.
  intros [= <- <-]. unfold held, held_tables in *. injection Hc as Hm Hq Ho Hl.
  destruct (control_freeze_request record) as [request|]; [destruct (is_empty _)|];
    simpl in *; by rewrite H, Hm, Hq, Ho, Hl.
Qed.

Lemma put_control_held record (s s' : run_store) :
  blank (control_stage_node_id record) = true →
  put_control record s = (s', Ok tt) →
  held s' = (st_maps s, st_queue_states s, <[trim (control_order_id record) := record]> (st_order_controls s),
             st_stage_order_controls s).
Proof. intros Hb H. by apply put_control_outcome in H as [[_ ?]|H]. Qed.

(** Recording the hold of one occurrence. *)
Lemma put_stage_control_held record (s s' : run_store) :
  blank (control_stage_node_id record) = false →
  put_control record s = (s', Ok tt) →
  ∃ request, control_freeze_request record = Some request ∧
  held s' = (st_maps s, st_queue_states s, st_order_controls s,
    <[(control_order_id record, trim (freeze_target_apparatus request), control_stage_node_id record) := record]>
      (st_stage_order_controls s)).
Proof.
  unfold put_control, on_tables, put_order_control_state. intros ->. unfold put_stage_control.
  destruct (mbind _ _) as [[request apparatus]|] eqn:E; [|done]. intros Hw. exists request.
  apply bind_Ok in E as (r & Hr & E). inv_run. injection E as -> <-. split; [done|].
  revert Hw. unfold refresh.
  match goal with |- context [refresh_production_order_lifecycles ?ids ?o] =>
    pose proof (refresh_keeps held_tables ids o ltac:(done)) as Hk;
    destruct (refresh_production_order_lifecycles ids o) as [o' r'] end.
  by intros [= <- ->].
Qed.

(** The event of a hold is not the receipt of a temporary pause. *)
Definition plain_event (event : ApparatusQueueActionEvent) : Prop :=
  json_get "event" (qe_payload_json event) = None.

Lemma hold_event_plain fields at_ requested key order_id stage action from to policy actor machines sequence visible event :
  assigned "event" fields = None →
  with_event_fields fields (queue_action_event at_ requested key order_id stage action from to policy actor
    machines sequence visible) = Ok event →
  plain_event event.
Proof.
  intros Hf H. unfold with_event_fields in H. apply bind_Ok in H as (payload & H & [= <-]).
  unfold plain_event. simpl.
  destruct (json_object_get [("requested_apparatus", json_str requested); ("storage_key", json_str key);
    ("sequence", json_strings sequence); ("visible_order_ids", json_strings visible);
    ("from_state", json_str (OrderState.as_str from)); ("to_state", json_str (OrderState.as_str to));
    ("policy", json_str (ApparatusQueuePolicy_as_str policy))]) as [Ho Hg].
  rewrite (put_fields_keeps "event" _ _ _ Ho H Hf). by rewrite Hg.
Qed.

Hint Resolve fault_keeps_held cancel_keeps_held session_keeps_held sequence_keeps_held append_keeps_held
  reservation_keeps_held keeps_each keeps_each_opt keeps_check : frames.

(** The next action of a commit, when it keeps the holds. *)
Ltac next_held H :=
  let s := fresh "s" in let Hs := fresh "Hs" in
  apply andThen_Ok in H as (s & Hs & H);
  apply (keeps_Ok held) in Hs; [|solve [auto 4 with frames|by intros ?]].

(** A committed write sets the states of its machine, and the hold it records. *)
Lemma commit_plain_held apparatus states updates event session control cancelled (s s' : run_store) :
  plain_event event →
  commit_queue_action (plain_write apparatus states updates event session control cancelled) now s = (s', Ok tt) →
  ∃ id s1, ApparatusId_new (trim apparatus) = Ok id ∧
    held s1 = (st_maps s, <[apparatus_id_str id := serialized_queue_states states]> (st_queue_states s),
               st_order_controls s, st_stage_order_controls s) ∧
    match control with
    | None => held s' = held s1
    | Some record => ∃ s2 s3 write,
        freeze_locals write record now s1 = (s2, Ok tt) ∧ qw_event write = event ∧
        put_control record s2 = (s3, Ok tt) ∧ held s' = held s3
    end.
Proof.
  intros Hp H. unfold commit_queue_action in H.
  set (write := plain_write _ _ _ _ _ _ _) in *.
  destruct (validate_write _ _) as [[|]|] eqn:Hv.
  { unfold validate_write, event_str, event_field in Hv. simpl in Hv. rewrite Hp in Hv. simpl in Hv. inv_run. done. }
  2: done.
  destruct (mbind _ _) as [stamped|]; [|done]. unfold commit_writes in H. simpl foldr in H. simpl in H.
  do 10 next_held H.
  apply andThen_Ok in H as (s10 & Hst & H). apply put_states_held in Hst as (id & Hid & Hst).
  do 2 next_held H.
  apply andThen_Ok in H as (s14 & Hc & H). next_held H. next_held H. apply (keeps_Ok held) in H; [|by intros ?].
  assert (held s9 = held s) as H9 by congruence. unfold held, held_tables in H9. injection H9 as Hm Hq Ho Hl.
  exists id, s12. split; [done|]. split; [by rewrite Hs10, Hs9, Hst, Hm, Hq, Ho, Hl|].
  destruct control as [record|]; simpl in Hc.
  - apply andThen_Ok in Hc as (s17 & Hf & Hc). exists s17, s14, write. split_and!; try done. congruence.
  - injection Hc as <-. congruence.
Qed.

Lemma search_key_valid a : ApparatusId_is_valid a = true → apparatus_search_key a = a.
Proof.
  intros Hv. unfold apparatus_search_key, is_canonical_apparatus_id.
  by rewrite !(valid_id_trim a Hv), Hv.
Qed.

(** * Returning an order to its queues *)

(** A service step. *)
Lemma service_Ok {A B} (m : service A) (f : A → service B) s s' b :
  service_bind A B f m s = (s', Ok b) → ∃ s1 a, m s = (s1, Ok a) ∧ f a s1 = (s', Ok b).
Proof. unfold service_bind. destruct (m s) as [s1 [a|e]]; [|done]. intros H. by exists s1, a. Qed.

Lemma read_Ok {A} (f : run_store → run_result A) s s' a : read f s = (s', Ok a) ↔ s' = s ∧ f s = Ok a.
Proof. unfold read. split; [by intros [= <- <-]|by intros [-> ->]]. Qed.

Lemma restore_write_spec k record persist s write :
  restore_write resolver nanos now k record persist s = Ok write →
  ∃ key parsed updates event session,
    write = plain_write key (<[control_order_id record := OrderState.Pending]> parsed) updates event session
              (if persist then Some record else None) None ∧
    plain_event event ∧
    ∀ r, control_freeze_request record = Some r → ApparatusId_is_valid (freeze_target_apparatus r) = true →
      key = freeze_target_apparatus r.
Proof.
  unfold restore_write. intros H.
  apply bind_Ok in H as (states & _ & H). apply bind_Ok in H as (sequences & _ & H).
  apply bind_Ok in H as (target & Ht & H). apply lift_Ok, ok_or_Ok in Ht.
  apply bind_Ok in H as (canonical & _ & H). apply bind_Ok in H as ([] & _ & H).
  apply bind_Ok in H as (event & He & H). apply bind_Ok in H as (session & _ & H).
  injection H as <-. do 5 eexists. split_and!; [done| |].
  - refine (hold_event_plain _ _ _ _ _ _ _ _ _ _ _ _ _ _ _ _ He). by destruct (_ && _).
  - intros r Hr Hv. unfold restore_target in Ht. rewrite Hr in Ht. simpl in Ht.
    rewrite (valid_id_trim _ Hv) in Ht.
    destruct (freeze_target_apparatus r) as [|c rest] eqn:E; [done|]. simpl in Ht. injection Ht as <-.
    by apply search_key_valid.
Qed.

(** A queue is restored: on its machine the order waits, and nothing else of the holds changes. *)
Lemma restore_one_held k record r s s' :
  control_freeze_request record = Some r →
  restore_one_frozen_queue resolver nanos now k record false s = (s', Ok tt) →
  ∃ key row, row !! control_order_id record = Some "pending" ∧
    held s' = (st_maps s, <[key := row]> (st_queue_states s), st_order_controls s, st_stage_order_controls s) ∧
    (ApparatusId_is_valid (freeze_target_apparatus r) = true → key = freeze_target_apparatus r).
Proof.
  intros Hr H. apply service_Ok in H as (s1 & write & H1 & H). apply read_Ok in H1 as [-> H1].
  apply restore_write_spec in H1 as (key & parsed & updates & event & session & -> & Hp & Hk).
  unfold commit_write in H. apply commit_plain_held in H as (id & s1 & Hid & H1 & H); [|done].
  eexists (apparatus_id_str id), _. split_and!; [|by rewrite H, H1|].
  - unfold serialized_queue_states. by rewrite lookup_fmap, lookup_insert_eq.
  - intros Hv. rewrite (Hk r Hr Hv), (valid_id_trim _ Hv) in Hid. unfold ApparatusId_new in Hid.
    by apply bind_Ok in Hid as ([] & _ & [= <-]).
Qed.

(** On every machine of the second store the order stands as in the first one, or waits. *)
Definition waits_or_same (order_id : string) (except : list string) (s s' : run_store) : Prop :=
  st_maps s' = st_maps s ∧ st_order_controls s' = st_order_controls s ∧
  st_stage_order_controls s' = st_stage_order_controls s ∧
  ∀ machine, (st_queue_states s' !! machine = st_queue_states s !! machine ∧
              (machine ∈ except → ApparatusId_is_valid machine = false)) ∨
             st_queue_states s' !! machine ≫= lookup order_id = Some "pending".

Lemma restore_all record l s s' :
  in_order (λ kt : nat * (string * option RunSession),
    service_bind _ _ (λ target, restore_one_frozen_queue resolver nanos now kt.1 target false)
      (read (λ _, lift (retarget record kt.2.1 kt.2.2)))) l s = (s', Ok tt) →
  waits_or_same (control_order_id record) (l.*2.*1) s s'.
Proof.
  revert s. induction l as [|[k [machine session]] l IH]; intros s H; simpl in H.
  { apply read_Ok in H as [-> _]. split_and!; try done. intros m. left. split; [done|]. by intros ?%elem_of_nil. }
  apply service_Ok in H as (s1 & [] & H1 & H). apply IH in H as (Hm & Hc & Hl & Hq). clear IH.
  apply service_Ok in H1 as (s2 & target & Ht & H1). apply read_Ok in Ht as [-> Ht]. inv_run.
  simpl in Ht. unfold retarget in Ht. inv_run. injection Ht as <-.
  eapply restore_one_held in H1 as (key & row & Hrow & H1 & Hk); [|reflexivity]. simpl in *.
  injection H1 as Hm1 Hq1 Hc1 Hl1. unfold waits_or_same. rewrite Hm, Hc, Hl. split_and!; try done.
  intros m. destruct (Hq m) as [[E Hin]|]; [|by right]. rewrite E, Hq1.
  destruct (decide (m = key)) as [->|Hne]; [right; by rewrite lookup_insert_eq|].
  left. rewrite lookup_insert_ne by done. split; [done|]. intros [->|?]%elem_of_cons; [|by apply Hin].
  destruct (ApparatusId_is_valid machine) eqn:Hv; [|done]. by rewrite Hk in Hne.
Qed.

(** A property a fold keeps, and one of its elements establishes. *)
Lemma foldl_reaches {A B} (P : A → Prop) (f : A → B → A) l a x :
  (∀ a y, P a → P (f a y)) → x ∈ l → (∀ a, P (f a x)) → P (foldl f a l).
Proof.
  intros Hk. revert a. induction l as [|y l IH]; intros a Hx Hf; [by apply elem_of_nil in Hx|]. simpl.
  apply elem_of_cons in Hx as [->|Hx]; [|by apply IH].
  clear IH. generalize (Hf a). generalize (f a y). clear Hf. induction l as [|z l IH]; intros a' Ha; [done|].
  by apply IH, Hk.
Qed.

Lemma restore_targets_cover order_id (s : run_store) targets machine :
  canonical_keys (st_queue_states s) → restore_targets order_id s = Ok targets →
  st_queue_states s !! machine ≫= lookup order_id = Some "frozen" →
  existsb (holds_locally order_id machine) (stage_order_control_states s) = true ∨
  machine ∈ (btree_entries targets).*1.
Proof.
  intros Hc H Hf. unfold restore_targets in H. apply bind_Ok in H as (states & Hst & [= <-]).
  apply bind_Some in Hf as (row & Hrow & Hraw).
  destruct (existsb (holds_locally order_id machine) _) eqn:Hl; [by left|right].
  rewrite btree_entries_keys, elem_of_btree_keys.
  apply (foldl_reaches (λ targets : gmap string (option RunSession), is_Some (targets !! machine)) _ _ _ (machine, row)).
  - intros t [m r] Hm. simpl. destruct (_ && _); [|done]. destruct (t !! m) eqn:E; [done|].
    apply lookup_insert_is_Some. destruct (decide (m = machine)); [by left|by right].
  - apply elem_of_btree_entries. by rewrite (read_rows_id _ _ Hc Hst).
  - intros t. simpl. rewrite Hraw, Hl, bool_decide_eq_true_2 by done. simpl.
    destruct (t !! machine) eqn:E; [by rewrite E|]. rewrite lookup_insert_eq. by eexists.
Qed.

Lemma released_record_spec expected order_id actor (s : run_store) record :
  released_record now expected order_id actor s = Ok record →
  control_order_id record = trim order_id ∧ control_stage_node_id record = "" ∧
  control_state record = OrderControl.Active ∧ control_early_close record = None ∧
  control_actor record = actor ∧
  control_state (current_order_control (trim order_id) s) = expected ∧
  control_early_close (current_order_control (trim order_id) s) = None.
Proof.
  unfold released_record. intros H. apply bind_Ok in H as (id & Hid & H).
  apply required_existing_Ok in Hid as (-> & _). apply bind_Ok in H as ([] & Hc & H).
  apply check_Ok in Hc. apply bind_Ok in H as (request & _ & H). apply bind_Ok in H as (status & _ & [= <-]).
  simpl. breflect. split_and!; try done; [by apply bool_decide_eq_true in H|].
  by destruct (control_early_close (current_order_control _ _)).
Qed.

(** Every action of a write that records no hold keeps the holds of orders. *)
Definition controls (s : run_store) := st_order_controls s.
Lemma held_controls a : keeps held a → keeps controls a.
Proof. intros H s. specialize (H s). by injection H. Qed.

Lemma states_keep_controls apparatus states : keeps controls (on_orders (put_apparatus_queue_states apparatus states)).
Proof.
  apply (on_orders_keeps st_order_controls). intros o. unfold put_apparatus_queue_states.
  destruct (ApparatusId_new _); [|done]. by rewrite (refresh_keeps st_order_controls).
Qed.
Hint Resolve states_keep_controls keeps_andThen : frames.
Hint Resolve held_controls | 10 : frames.

Lemma commit_keeps_controls apparatus states updates event session cancelled :
  keeps controls (commit_queue_action (plain_write apparatus states updates event session None cancelled) now).
Proof.
  intros s. unfold commit_queue_action. destruct (validate_write _ _) as [[|]|]; [done| |done].
  destruct (mbind _ _) as [stamped|]; [|done]. revert s. fold (keeps controls (commit_writes
    (plain_write apparatus states updates event session None cancelled) stamped now)).
  unfold commit_writes. simpl foldr. repeat apply keeps_andThen; (solve [auto 5 with frames|by intros ?]).
Qed.

Lemma restore_one_controls k record s :
  controls (restore_one_frozen_queue resolver nanos now k record false s).1 = controls s.
Proof.
  unfold restore_one_frozen_queue, mbind, service_bind, read.
  destruct (restore_write _ _ _ _ _ _ _) as [write|] eqn:H; [|done].
  apply restore_write_spec in H as (key & parsed & updates & event & session & -> & _). apply commit_keeps_controls.
Qed.

Lemma restore_all_controls record l s :
  controls (in_order (λ kt : nat * (string * option RunSession),
    service_bind _ _ (λ target, restore_one_frozen_queue resolver nanos now kt.1 target false)
      (read (λ _, lift (retarget record kt.2.1 kt.2.2)))) l s).1 = controls s.
Proof.
  revert s. induction l as [|[k [machine session]] l IH]; intros s; [done|]. simpl. unfold mbind, service_bind, read at 1.
  destruct (lift (retarget _ _ _)) as [target|]; [|done].
  pose proof (restore_one_controls k target s) as H. simpl.
  destruct (restore_one_frozen_queue _ _ _ _ _ _ _) as [s1 [[]|]]; simpl in H; [by rewrite IH|done].
Qed.

Lemma imap_pair_snd {A} (l : list A) : (imap pair l).*2 = l.
Proof. rewrite fmap_imap. change (imap (const (λ x : A, x)) l = l). by rewrite imap_const, list_fmap_id. Qed.

(** Every machine where the order is still frozen has a hold of its own. *)
Definition released_everywhere (order_id : string) (s : order_store) : Prop :=
  ∀ machine, st_queue_states s !! machine ≫= lookup order_id = Some "frozen" →
    existsb (holds_locally order_id machine) (stage_order_control_states s) = true.

(** The order is back in its queues, and its hold is replaced by a record. *)
Definition back_in_queues (record : OrderControlRecord) (s s' : order_store) : Prop :=
  st_maps s' = st_maps s ∧
  st_order_controls s' = <[trim (control_order_id record) := record]> (st_order_controls s) ∧
  st_stage_order_controls s' = st_stage_order_controls s ∧
  (∀ machine, st_queue_states s' !! machine = st_queue_states s !! machine ∨
     st_queue_states s' !! machine ≫= lookup (control_order_id record) = Some "pending") ∧
  released_everywhere (control_order_id record) s'.

Lemma restore_after_unfreeze record (s s' : run_store) r :
  control_stage_node_id record = "" → canonical_keys (st_queue_states s) →
  restore_frozen_queue_after_unfreeze resolver nanos now record s = (s', r) →
  (st_order_controls s' = st_order_controls s ∧ is_ok r = false) ∨ back_in_queues record s s'.
Proof.
  intros Hb Hkeys. unfold restore_frozen_queue_after_unfreeze. rewrite Hb. simpl.
  unfold mbind, service_bind at 1, read at 1.
  destruct (restore_targets _ s) as [targets|] eqn:Ht; simpl; [|intros [= <- <-]; by left].
  unfold service_bind at 1. set (run := in_order _ _).
  pose proof (restore_all_controls record (imap pair (btree_entries targets)) s) as Hc.
  pose proof (restore_all record (imap pair (btree_entries targets)) s) as Hw.
  unfold mbind in Hc, Hw. fold run in Hc, Hw.
  destruct (run s) as [s1 [[]|e]]; simpl in Hc; [|intros [= <- <-]; by left].
  destruct (Hw s1 eq_refl) as (Hm & _ & Hl & Hq). clear Hw.
  intros [[H Hr]|H]%put_control_outcome; [left|right|by rewrite Hb].
  - split; [|done]. injection H as _ _ H _. by rewrite H.
  - injection H as Hm' Hq' Hc' Hl'. unfold back_in_queues, released_everywhere, stage_order_control_states.
    unfold controls in Hc. rewrite imap_pair_snd in Hq.
    rewrite Hm', Hq', Hc', Hl', Hm, Hc, Hl. split_and!; try done.
    + intros m. destruct (Hq m) as [[? _]|?]; [by left|by right].
    + intros m Hf. destruct (Hq m) as [[E Hin]|E]; [|congruence]. rewrite E in Hf.
      destruct (restore_targets_cover _ _ _ m Hkeys Ht Hf) as [?|Hin']; [done|].
      specialize (Hin Hin'). rewrite Hkeys in Hin; [done|].
      destruct (st_queue_states s !! m); [by eexists|done].
Qed.

(** C13: Releasing an order, or cancelling the request to hold it, needs the
    hold in the expected state and no early closure. Whatever the outcome, the
    record of the hold changes only when the order is back in its queues: on
    every machine it stands as before or waits, and where it is still frozen a
    hold of that machine's own keeps it. A release that fails on the way leaves
    the order held, so it can be repeated. *)
Theorem released_orders_wait_in_their_queues expected order_id actor (s s' : run_store) r :
  canonical_keys (st_queue_states s) →
  transition_order_control resolver nanos now expected order_id actor s = (s', r) →
  (st_order_controls s' = st_order_controls s ∧ is_ok r = false) ∨
  (∃ record, control_order_id record = trim order_id ∧ control_state record = OrderControl.Active ∧
     control_actor record = actor ∧ back_in_queues record s s' ∧ (∀ record', r = Ok record' → record' = record) ∧
     control_state (current_order_control (trim order_id) s) = expected ∧
     control_early_close (current_order_control (trim order_id) s) = None).
Proof.
  intros Hkeys. unfold transition_order_control, mbind, service_bind, read.
  destruct (released_record _ _ _ _ _) as [record|] eqn:H; simpl; [|intros [= <- <-]; by left].
  apply released_record_spec in H as (Hid & Hst & Hact & _ & Ha & Hexp & Hcl).
  destruct (restore_frozen_queue_after_unfreeze _ _ _ _ _) as [s1 r1] eqn:Hr.
  apply restore_after_unfreeze in Hr as [[Hc Hn]|Hb]; [| |done..].
  - destruct r1 as [[]|]; [done|]. intros [= <- <-]. by left.
  - intros Hs. right. exists record. assert (s' = s1 ∧ ∀ record', r = Ok record' → record' = record) as [-> ?].
    { destruct r1 as [[]|]; injection Hs as <- <-; split; congruence. }
    done.
Qed.

(** * Stopping an order *)

Lemma prepare_spec k record session hold s write :
  prepare_direct_freeze_queue_write resolver nanos now k record session hold s = Ok (Some write) →
  ∃ key states updates event session' cancelled,
    write = plain_write key states updates event session' (Some record) cancelled ∧ plain_event event ∧
    qe_to_state event = OrderState.Frozen.
Proof.
  unfold prepare_direct_freeze_queue_write. intros H.
  apply bind_Ok in H as (states & _ & H). apply bind_Ok in H as (sequences & _ & H).
  destruct (freeze_target _ _ _ _) as [target|]; [|done]. apply bind_Ok in H as (canonical & _ & H).
  destruct (negb _); [done|]. apply bind_Ok in H as (event & He & H). apply bind_Ok in H as (session' & _ & H).
  injection H as <-. do 6 eexists. split_and!; [done| |].
  - refine (hold_event_plain _ _ _ _ _ _ _ _ _ _ _ _ _ _ _ _ He). by destruct hold.
  - unfold with_event_fields in He. by apply bind_Ok in He as (? & _ & [= <-]).
Qed.

(** The hold of the order is the record; the maps are those of the first store. *)
Definition holds_record (record : OrderControlRecord) (s s' : order_store) : Prop :=
  st_maps s' = st_maps s ∧
  st_order_controls s' = <[trim (control_order_id record) := record]> (st_order_controls s).

Lemma holds_record_again r1 r2 (s s1 s2 : order_store) :
  control_order_id r1 = control_order_id r2 → holds_record r1 s s1 → holds_record r2 s1 s2 → holds_record r2 s s2.
Proof. intros Hid [Hm Hc] [Hm' Hc']. split; [congruence|]. by rewrite Hc', Hc, Hid, insert_insert_eq. Qed.

Lemma put_record_holds record (s s' : run_store) : blank (control_stage_node_id record) = true →
  put_control record s = (s', Ok tt) → holds_record record s s'.
Proof. intros Hb H. apply put_control_held in H; [|done]. by injection H. Qed.

Lemma commit_record_holds k record session hold (s s1 s' : run_store) write :
  blank (control_stage_node_id record) = true →
  prepare_direct_freeze_queue_write resolver nanos now k record session hold s = Ok (Some write) →
  commit_write now write s1 = (s', Ok tt) → holds_record record s1 s'.
Proof.
  intros Hb (key & states & updates & event & session' & cancelled & -> & Hp & _)%prepare_spec H.
  apply commit_plain_held in H as (id & s2 & _ & H2 & s3 & s4 & write & Hf & _ & H4 & H); [|done].
  apply put_record_holds in H4 as [Hm4 Hc4]; [|done]. injection H2 as Hm2 _ Hc2 _. injection H as Hm _ Hc _.
  assert (st_maps s3 = st_maps s2 ∧ st_order_controls s3 = st_order_controls s2) as [Hm3 Hc3].
  { unfold freeze_locals in Hf. destruct (_ && _); by injection Hf as <-. }
  unfold holds_record. rewrite Hm, Hc, Hm4, Hc4, Hm3, Hc3, Hm2, Hc2. done.
Qed.

Lemma in_order_inv {A} (P : run_store → Prop) (f : A → service unit) l s s' :
  (∀ x s s', P s → f x s = (s', Ok tt) → P s') → P s → in_order f l s = (s', Ok tt) → P s'.
Proof.
  intros Hf. revert s. induction l as [|x l IH]; intros s Hs H; [by apply read_Ok in H as [-> _]|].
  apply service_Ok in H as (s1 & [] & H1 & H). by apply (IH s1); [apply (Hf x s)|].
Qed.

Lemma stop_state_holds evidence targets : stop_state evidence targets ≠ OrderControl.Active.
Proof. unfold stop_state. by repeat case_match. Qed.

(** The record of a hold: the whole order, not active, closed with the comment. *)
Definition stops (order_id : string) (comment : option string) (record : OrderControlRecord) : Prop :=
  control_order_id record = order_id ∧ blank (control_stage_node_id record) = true ∧
  control_state record ≠ OrderControl.Active ∧ close_comment <$> control_early_close record = comment.

Lemma stop_record_stops order_id request_id actor comment evidence targets session hold :
  stops order_id comment (stop_record now order_id request_id actor comment evidence
    (stop_state evidence targets) session hold).
Proof. split_and!; [done|done|apply stop_state_holds|]. by destruct comment. Qed.

Lemma frozen_record_stops order_id comment record :
  stops order_id comment record → stops order_id comment (frozen_record now record).
Proof. intros (? & ? & ? & <-). split_and!; try done. simpl. by destruct (control_early_close record). Qed.

Lemma holds_record_current record order_id (s s' : order_store) :
  control_order_id record = order_id → trim order_id = order_id → holds_record record s s' →
  current_order_control order_id s' = record.
Proof.
  intros Hid Ht [_ Hc]. unfold current_order_control, order_control_by_id.
  by rewrite Hc, Hid, lookup_insert_eq.
Qed.

Lemma stop_passed_spec plan comment (s s' : run_store) r :
  stops (sp_order_id plan) comment (sp_record plan) → trim (sp_order_id plan) = sp_order_id plan →
  stop_passed_trials resolver nanos now plan s = (s', Ok r) →
  stops (sp_order_id plan) comment r ∧ holds_record r s s'.
Proof.
  intros Hs Ht H. destruct Hs as (Hid & Hb & Hn & Hc) eqn:Es. clear Es.
  unfold stop_passed_trials in H. apply service_Ok in H as (s1 & [] & H1 & H).
  apply put_record_holds in H1; [|done].
  apply service_Ok in H as (s2 & [] & H2 & H).
  apply (in_order_inv (holds_record (sp_record plan) s)) in H2; [|clear H2|done].
  2: { intros [k hold] a b Ha (a' & write & Hw & Hcm)%service_Ok. apply read_Ok in Hw as [-> Hw]. inv_run. subst.
       eapply holds_record_again; [done|done|]. by eapply commit_record_holds. }
  apply service_Ok in H as (s3 & durable & H3 & H). apply read_Ok in H3 as [-> [= <-]].
  rewrite (holds_record_current (sp_record plan) _ s s2) in H by done.
  case_bool_decide; [by apply read_Ok in H as [-> [= <-]]|].
  apply service_Ok in H as (s4 & [] & H4 & H).
  apply (in_order_inv (holds_record (sp_record plan) s)) in H4; [|clear H4|done].
  2: { intros [k session] a b Ha (a' & write & Hw & Hcm)%service_Ok. apply read_Ok in Hw as [-> Hw].
       destruct write as [write|]; [|by apply read_Ok in Hcm as [-> _]].
       eapply holds_record_again; [done|done|]. by eapply commit_record_holds. }
  apply service_Ok in H as (s5 & [] & H5 & H). apply read_Ok in H as [-> [= <-]].
  destruct (ev_has_active_work _).
  - apply read_Ok in H5 as [-> _]. by rewrite (holds_record_current (sp_record plan) _ s s4).
  - apply put_record_holds in H5; [|done].
    rewrite (holds_record_current (frozen_record now (sp_record plan)) _ s4 s5) by done.
    split; [by apply frozen_record_stops|]. by apply (holds_record_again (sp_record plan) _ s s4 s5).
Qed.

Lemma stop_order_spec plan comment (s s' : run_store) r :
  stops (sp_order_id plan) comment (sp_record plan) → trim (sp_order_id plan) = sp_order_id plan →
  stop_order resolver nanos now plan s = (s', Ok r) →
  stops (sp_order_id plan) comment r ∧ holds_record r s s'.
Proof.
  intros Hs Ht. unfold stop_order. destruct (_ && _); [by apply stop_passed_spec|].
  intros (s1 & write & Hw & H)%service_Ok. apply read_Ok in Hw as [-> Hw].
  apply service_Ok in H as (s2 & [] & H1 & H). apply read_Ok in H as [-> [= <-]]. split; [done|].
  destruct Hs as (_ & Hb & _). destruct write as [write|]; [by eapply commit_record_holds|].
  destruct (_ || _); [by apply put_record_holds|by apply read_Ok in H1 as [_ ?]].
Qed.

(** The holds of orders are kept under their own ids, and an order closed early is held. *)
Definition holds_wf (s : order_store) : Prop :=
  ∀ id c, st_order_controls s !! id = Some c →
    trim (control_order_id c) = id ∧ blank (control_stage_node_id c) = true ∧
    (is_some (control_early_close c) = true → control_state c ≠ OrderControl.Active).

Lemma current_held order_id (s : order_store) c : trim order_id = order_id → holds_wf s →
  current_order_control order_id s = c → (control_state c ≠ OrderControl.Active ∨ is_some (control_early_close c) = true) →
  st_order_controls s !! order_id = Some c ∧ trim (control_order_id c) = order_id ∧
  blank (control_stage_node_id c) = true ∧ control_state c ≠ OrderControl.Active.
Proof.
  intros Ht Hwf Hc Hor. unfold current_order_control, order_control_by_id in Hc. rewrite Ht in Hc.
  destruct (st_order_controls s !! order_id) as [c'|] eqn:E; simpl in Hc; subst; [|by destruct Hor].
  destruct (Hwf _ _ E) as (? & ? & Ha). split_and!; try done. destruct Hor; auto.
Qed.

(** The hold a request leaves in force. *)
Lemma request_stop_spec order_id request_id actor comment (s s' : run_store) r :
  holds_wf s →
  request_order_stop resolver nanos now order_id request_id actor comment s = (s', Ok r) →
  trim (control_order_id r) = trim order_id ∧ control_state r ≠ OrderControl.Active ∧
  blank (control_stage_node_id r) = true ∧
  st_maps s' = st_maps s ∧ st_order_controls s' = <[trim order_id := r]> (st_order_controls s) ∧
  (∀ text, comment = Some text → close_comment <$> control_early_close r = Some text) ∧
  required_existing_order_id order_id s = Ok (trim order_id).
Proof.
  intros Hwf H. unfold request_order_stop in H. apply service_Ok in H as (s1 & decision & Hd & H).
  apply read_Ok in Hd as [-> Hd]. apply lift_Ok in Hd. unfold decide_stop in Hd.
  apply bind_Ok in Hd as (id & Hid & Hd). pose proof Hid as (-> & Ht & _)%required_existing_Ok.
  set (current := current_order_control (trim order_id) s) in *.
  destruct (control_early_close current) as [close|] eqn:Hclose.
  { case_bool_decide; [|done]. injection Hd as <-. apply read_Ok in H as [-> [= <-]].
    destruct (current_held (trim order_id) s current Ht Hwf eq_refl) as (Hl & ? & ? & ?); [right; by rewrite Hclose|].
    split_and!; try done; [by rewrite insert_id|]. intros text ->. by rewrite Hclose; simplify_eq/=. }
  apply bind_Ok in Hd as (lifecycle & _ & Hd). apply bind_Ok in Hd as ([] & _ & Hd).
  case_bool_decide as Hact; simpl in Hd; [|destruct comment as [text|]; [|done]].
  - apply bind_Ok in Hd as (states & _ & Hd). apply bind_Ok in Hd as ([] & _ & Hd).
    apply bind_Ok in Hd as (evidence & _ & Hd). apply bind_Ok in Hd as ([] & _ & Hd).
    apply bind_Ok in Hd as (session & _ & Hd). injection Hd as <-.
    apply (stop_order_spec _ comment) in H as [(Hi & Hb & Hn & Hc) [Hm Ho]]; [|apply stop_record_stops|done].
    simpl in Hi. split_and!; try done; [by rewrite Hi|by rewrite Ho, Hi, Ht|by intros text ->].
  - injection Hd as <-. apply service_Ok in H as (s2 & [] & H1 & H). apply read_Ok in H as [-> [= <-]].
    destruct (current_held (trim order_id) s current Ht Hwf eq_refl) as (Hl & Hi & Hb & Hn); [by left|].
    apply put_record_holds in H1 as [Hm Ho]; [|done]. simpl in Ho.
    split_and!; try done; by rewrite Ho, Hi.
Qed.

Lemma same_maps_exist order_id id (s s' : order_store) : st_maps s' = st_maps s →
  required_existing_order_id order_id s = Ok id → required_existing_order_id order_id s' = Ok id.
Proof. intros Hm. unfold required_existing_order_id, map_by_id. by rewrite Hm. Qed.

(** C14: Stopping an order leaves it held: when a request to hold it, or to
    close it early, succeeds, the answer is the hold in force, which is not
    active, no other order's hold changes, no machine starts work on the order
    any more, and a request to close it with the same comment again answers the
    same hold and changes nothing. *)
Theorem stopped_orders_are_held order_id request_id actor comment (s s' : run_store) r :
  holds_wf s →
  request_order_stop resolver nanos now order_id request_id actor comment s = (s', Ok r) →
  control_state r ≠ OrderControl.Active ∧
  st_order_controls s' = <[trim order_id := r]> (st_order_controls s) ∧ holds_wf s' ∧
  (∀ apparatus, require_active_order order_id apparatus s' ≠ Ok tt) ∧
  (∀ text, comment = Some text →
     close_comment <$> control_early_close r = Some text ∧
     ∀ nanos' now' request_id' actor',
       request_order_stop resolver nanos' now' order_id request_id' actor' comment s' = (s', Ok r)).
Proof.
  intros Hwf H. destruct (request_stop_spec _ _ _ _ _ _ _ Hwf H) as (Hid & Hn & Hb & Hm & Hc & Hcl & Hreq).
  assert (current_order_control (trim order_id) s' = r) as Hcur.
  { unfold current_order_control, order_control_by_id. by rewrite trim_idemp, Hc, lookup_insert_eq. }
  split_and!; [done|done| | |].
  - intros id c. rewrite Hc, lookup_insert_Some. intros [[<- <-]|[_ Hl]]; [done|by apply Hwf].
  - intros apparatus Hr. unfold require_active_order, effective_order_control_for_apparatus,
      effective_order_control_for_stage, order_control_state in Hr.
    apply bind_Ok in Hr as (control & He & Hr). inv_run.
    match goal with H : required_existing_order_id _ _ = Ok ?x |- _ =>
      pose proof (required_existing_Ok _ _ _ H) as (-> & _); clear H end.
    match goal with H : Ok (current_order_control _ _) = Ok _ |- _ => rewrite Hcur in H; injection H as <- end.
    rewrite bool_decide_eq_false_2 in He by done. simpl in He.
    injection He as <-. by destruct (control_state r).
  - intros text ->. specialize (Hcl text eq_refl). split; [done|]. intros nanos' now' request_id' actor'.
    unfold request_order_stop, mbind, service_bind, read, decide_stop.
    rewrite (same_maps_exist _ _ _ _ Hm Hreq). simpl. rewrite Hcur.
    destruct (control_early_close r) as [close|]; [|done]. injection Hcl as <-.
    by rewrite bool_decide_eq_true_2.
Qed.
End facts.
