(* ===== verification/QueueExecution.v ===== *)
(** The action an operator takes at the queue of a machine.

    Models [src/core/production_map/queue/execution.rs] up to the queue states it stores
    ([prepare_apparatus_queue_action_with_progress]: the hold on the order, the guards of the
    action, every branch that changes the state of the order, the capacity check), the rolls a
    start may take ([progress_session/service_progress.rs]) and the material check in front of the
    action ([materials/implementation.rs]).  The records of the run and of its rolls, which the
    handler builds after the new state is known, are not modelled; the one thing they decide about
    the queue, whether a finished order still has rolls to process, is an argument. *)
From Stdlib Require Import Ascii.
From S2P Require Import Prelude RustStr F64 Json Errors Identity QueueState OrderLayout MapDefinition Chain Projection Scheduler Progress WipRoute Lifecycle StageExecution OrderRefresh OrderStore Visibility Preflight QueueMoves Epc CutLayout Paddon Metrics Lineage RunStore Warehouse Materials Ids OpeningWip OrderControl.

(** * Closing a printing run (service_progress_support.rs) *)

#[global] Instance QueueProgressInput_rebuild : Rebuild QueueProgressInput := λ p, {|
  qp_lamination_layer_dispositions_attached := qp_lamination_layer_dispositions_attached p;
  qp_rezka_output_cycle := qp_rezka_output_cycle p;
  qp_rezka_expected_kadr_counts := qp_rezka_expected_kadr_counts p; qp_uom := qp_uom p;
  qp_force_full_completion_metrics := qp_force_full_completion_metrics p;
  qp_allow_partial_station_completion := qp_allow_partial_station_completion p;
  qp_complete_without_output := qp_complete_without_output p; qp_freeze_request_id := qp_freeze_request_id p;
  qp_freeze_with_issue := qp_freeze_with_issue p; qp_rezka_frames := qp_rezka_frames p;
  qp_rezka_record_frame_index := qp_rezka_record_frame_index p; qp_produced_qty := qp_produced_qty p;
  qp_gross_qty := qp_gross_qty p; qp_progress_batch_id := qp_progress_batch_id p;
  qp_qr_payload := qp_qr_payload p; qp_return_ink_kg := qp_return_ink_kg p;
  qp_lamination_print_leftover_rolls := qp_lamination_print_leftover_rolls p;
  qp_lamination_film_leftover_rolls := qp_lamination_film_leftover_rolls p;
  qp_rezka_bosma_waste := qp_rezka_bosma_waste p; qp_rezka_lamination_waste := qp_rezka_lamination_waste p;
  qp_rezka_edge_waste := qp_rezka_edge_waste p; qp_total_waste := qp_total_waste p;
  qp_finished_goods_kg := qp_finished_goods_kg p; qp_bobina_kg := qp_bobina_kg p;
  qp_finished_goods_meter := qp_finished_goods_meter p; qp_diameter := qp_diameter p;
  qp_description := qp_description p; qp_returned_paint_report_attached := qp_returned_paint_report_attached p;
  qp_worker_handoff := qp_worker_handoff p;
  qp_remove_roll_from_apparatus := qp_remove_roll_from_apparatus p |}.

Definition no_frames (p : QueueProgressInput) : bool :=
  match qp_rezka_frames p with [] => true | _ => false end.

Definition validate_bosma_closing_metrics (p : QueueProgressInput) : pm_result unit :=
  let nonnegative v := is_finite v && f64_le f64_zero v in
  check (negb (is_some_and (qp_total_waste p) nonnegative) ||
         is_some_and (qp_return_ink_kg p) (λ v, negb (nonnegative v)) ||
         (is_none (qp_return_ink_kg p) && negb (qp_returned_paint_report_attached p)) ||
         existsb is_some [qp_produced_qty p; qp_gross_qty p; qp_finished_goods_kg p;
           qp_finished_goods_meter p; qp_bobina_kg p; qp_diameter p;
           qp_lamination_print_leftover_rolls p; qp_lamination_film_leftover_rolls p;
           qp_rezka_bosma_waste p; qp_rezka_lamination_waste p; qp_rezka_edge_waste p] ||
         negb (no_frames p) || is_some (qp_rezka_record_frame_index p) || negb (blank (qp_qr_payload p)) ||
         qp_worker_handoff p || qp_remove_roll_from_apparatus p || qp_freeze_with_issue p ||
         negb (is_empty (qp_freeze_request_id p))) ProgressInputInvalid.

(** * The change of the queue (execution.rs 285-330) *)

(** Which branch takes the action. *)
Inductive QueueBranch :=
  | ClosesOutput
  | RemovesRoll
  | ResumesRequeued
  | Applies (action : Action.t).

(** Somebody else occupies the machine; the identifiers are compared as they are stored. *)
Definition another_active (states : queue_states) (order_id : string) : bool :=
  existsb (λ '(id, state), (id <>s order_id) && OrderState.is_active state) (map_to_list states).

Definition remove_roll (canonical : RuntimeApparatusConfiguration) (from_state : OrderState.t)
    (parsed : queue_states) (order_id : string) : pm_result queue_states :=
  _ ← check (negb (uses_lamination_workflow canonical) || negb (bool_decide (from_state = OrderState.Paused)))
        QueueActionNotAllowed;
  _ ← check (another_active parsed order_id) QueueActionNotAllowed;
  Ok (<[order_id := OrderState.Paused]> parsed).

Definition change_queue (canonical : RuntimeApparatusConfiguration) (sequence : list string)
    (from_state : OrderState.t) (branch : QueueBranch) (parsed : queue_states) (order_id : string)
  : pm_result queue_states :=
  let policy := effective_apparatus_queue_policy canonical in
  match branch with
  | ClosesOutput => Ok (<[order_id := OrderState.Completed]> parsed)
  | RemovesRoll => remove_roll canonical from_state parsed order_id
  | ResumesRequeued => apply_requeued_resume policy sequence parsed order_id
  | Applies action => apply_queue_policy policy sequence parsed order_id action
  end.

Section execution.
Context `{J : Json} `{C : !RouteCodec} `{R : !ReportCodec} `{!Serde (list OrderLane)}.
Context `{!Serde (list OrderRunInputLink)} `{!Serde (list RezkaActivePartialRoll)}.
Context `{!Serde (list ProgressBatchInputLink)} `{!Serde ProductionQrSessionResources}.
Context `{UnicodeCase} `{Clock} (resolver : ApparatusId → pm_result (option RuntimeApparatusConfiguration)).
Context (now : Z).

(** The store, with the downtimes the capacity check reads. *)
Record execution_store := {
  es_materials :> material_store;
  es_downtimes : gmap string ApparatusDowntime;
}.

Record QueueActionRequest := {
  qr_apparatus : string;
  qr_order_id : string;
  qr_action : Action.t;
  qr_assigned_apparatus : list string;
  qr_actor : QueueActionActor;
  qr_progress : QueueProgressInput;
}.

(** * Rolls a start may take (service_progress.rs 320-411) *)

Definition previous_stage_start_progress_batch (order_id : string) (map : ProductionMapDefinition)
    (apparatus : string) (p : QueueProgressInput) (s : order_store) : run_result (option OrderProgressBatch) :=
  default_stage ← lift (ok_or (work_stage_for_station map apparatus "") ProgressBatchNotAccepted);
  if blank (qp_qr_payload p) then
    match previous_work_stage_for_node map (Chain.stage_node_id default_stage) with
    | None => Ok None
    | Some _ => Err (Fail ProgressQrRequired)
    end
  else
    batch ← progress_batch_for_qr (qp_progress_batch_id p) (qp_qr_payload p) s;
    _ ← lift (check ((trim (batch_order_id batch) <>s order_id) ||
                     negb (Action.records_progress_output (batch_action batch))) ProgressBatchNotAccepted);
    let route := resolve_wip_input_route map batch in
    _ ← lift (check (match route with
                     | Ok route => negb (existsb (λ id, id =s apparatus) (route_consumer_apparatus_ids route))
                     | Err _ => false
                     end) ProgressBatchNotAccepted);
    _ ← lift (check (negb (WipStatus.eqb (batch_wip_status batch) WipStatus.Waiting))
                (progress_batch_usage_error batch map));
    _ ← lift (check (negb (actionable_wip batch)) ProgressBatchNotAccepted);
    _ ← lift route;
    Ok (Some batch).

(** A confirmed intake of the order that feeds the machine. *)
Definition feeds (map : ProductionMapDefinition) (apparatus : string) (intake : OpeningWipIntake) : bool :=
  bool_decide (intake_status intake = IntakeStatus.Confirmed) &&
  is_some (opening_wip_target_stage map intake apparatus "").

Definition opening_wip_start_batch (order_id : string) (map : ProductionMapDefinition)
    (apparatus : string) (p : QueueProgressInput) (s : order_store)
  : pm_result (option (OpeningWipIntake * OpeningWipBatch)) :=
  let records := opening_wip_records
    {| owq_order_id := trim order_id; owq_wip_status := None; owq_limit := Z.to_nat 10000 |} s in
  if negb (existsb (λ r, feeds map apparatus (record_intake r) &&
             existsb (λ b, bool_decide (opening_wip_status b = OpeningStatus.Waiting)) (record_batches r)) records)
  then Ok None
  else
    _ ← check (blank (qp_qr_payload p)) ProgressQrRequired;
    match opening_wip_batch (trim (qp_progress_batch_id p)) (trim (qp_qr_payload p)) s with
    | None => Ok None
    | Some (intake, batch) =>
        _ ← check (negb (feeds map apparatus intake) ||
                   (trim (intake_order_id intake) <>s trim order_id) ||
                   (trim (opening_order_id batch) <>s trim order_id) ||
                   negb (bool_decide (opening_wip_status batch = OpeningStatus.Waiting)) ||
                   (negb (blank (qp_progress_batch_id p)) &&
                    (trim (opening_batch_id batch) <>s trim (qp_progress_batch_id p))) ||
                   negb (eq_ignore_ascii_case (trim (opening_qr_payload batch)) (trim (qp_qr_payload p))))
              ProgressBatchNotAccepted;
        Ok (Some (intake, batch))
    end.

Definition previous_progress_ready_for_action (action : Action.t) (order_id : string)
    (map : ProductionMapDefinition) (apparatus : string) (p : QueueProgressInput) (s : order_store)
  : run_result bool :=
  if negb (bool_decide (action = Action.Start)) then Ok false
  else
    opening ← lift (opening_wip_start_batch order_id map apparatus p s);
    if is_some opening then Ok true
    else
      batch ← previous_stage_start_progress_batch order_id map apparatus p s;
      Ok (is_some batch).

(** * The hold on the order (execution.rs 11-100) *)

(** [progress_batch] by identifier, else by QR code. *)
Definition scanned_input (p : QueueProgressInput) (s : order_store) : option OrderProgressBatch :=
  if negb (blank (qp_progress_batch_id p)) then progress_batch (trim (qp_progress_batch_id p)) s
  else if negb (blank (qp_qr_payload p)) then progress_batch_by_qr (trim (qp_qr_payload p)) s
  else None.

(** The occurrence the scanned roll goes to; [current] when it has no route. *)
Definition scanned_stage (order_id apparatus current : string) (batch : OrderProgressBatch) (s : order_store)
  : pm_result string :=
  map ← ok_or (map_by_id order_id s) MapNotFound;
  match resolve_wip_input_route map batch with
  | Ok route =>
      stage ← ok_or (work_stage_for_station map apparatus (route_stage_node_id route)) ProgressBatchNotAccepted;
      Ok (Chain.stage_node_id stage)
  | Err _ => Ok current
  end.

Definition hold_stage (apparatus order_id : string) (requested : Action.t) (p : QueueProgressInput)
    (s : order_store) : pm_result string :=
  session ← active_order_run_session apparatus order_id s;
  let current := match session with Some session => session_stage_node_id (run_session session) | None => "" end in
  stage ← (match (if bool_decide (requested = Action.Start) then scanned_input p s else None) with
           | Some batch => scanned_stage order_id apparatus current batch s
           | None => Ok current
           end : pm_result string);
  if is_empty stage then
    map ← ok_or (map_by_id order_id s) MapNotFound;
    stage ← ok_or (work_stage_for_station map apparatus "") OrderFreezeTargetNotFound;
    Ok (Chain.stage_node_id stage)
  else Ok stage.

(** [execution.rs] 1161-1216. *)
Definition validate_freeze_request_pause (control : OrderControlRecord) (apparatus : string)
    (action : Action.t) (actor : QueueActionActor) (supplied_request_id : string) : pm_result unit :=
  let supplied := trim supplied_request_id in
  if negb (bool_decide (control_state control = OrderControl.FreezeRequested)) then
    check (negb (is_empty supplied)) OrderFreezeRequestMismatch
  else if negb (Action.creates_resumable_output action) && negb (bool_decide (action = Action.Freeze)) then Ok tt
  else
    request ← ok_or (control_freeze_request control) OrderFreezeRequestMismatch;
    let request_id_matches := negb (is_empty supplied) && (trim (freeze_request_id request) =s supplied) &&
          match freeze_status request with FreezeRequestStatus.Pending => true | _ => false end in
    let worker_role_matches := (trim (freeze_target_worker_role request) =s trim (actor_role actor)) &&
          negb (blank (actor_ref actor)) in
    let apparatus_matches :=
          (is_empty (control_stage_node_id control) && is_empty (freeze_target_apparatus request)) ||
          apparatus_ids_match (freeze_target_apparatus request) apparatus in
    check (negb request_id_matches || negb worker_role_matches || negb apparatus_matches)
      OrderFreezeRequestMismatch.

Definition validate_freeze_request_target_session (control : OrderControlRecord)
    (active_session : option RunSession) : pm_result unit :=
  request ← ok_or (control_freeze_request control) OrderFreezeRequestMismatch;
  session ← ok_or active_session OrderFreezeTargetNotFound;
  check (negb (is_empty (control_stage_node_id control) && is_empty (freeze_target_apparatus request)) &&
         (blank (freeze_target_session_id request) ||
          (trim (freeze_target_session_id request) <>s trim (session_id (run_session session))))) OrderFreezeRequestMismatch.

(** The hold and the action it leaves. *)
Record Admission := {
  ad_hold_stage : string;
  ad_control : OrderControlRecord;
  ad_action : Action.t;
  ad_progress : QueueProgressInput;
  ad_finalization : bool;
  ad_safe_stop : bool;
}.

Definition freeze_requested (control : OrderControlRecord) : bool :=
  bool_decide (control_state control = OrderControl.FreezeRequested).

(** Stopping work because of an issue. *)
Definition validate_issue_freeze (control : OrderControlRecord) (actor : QueueActionActor)
    (p : QueueProgressInput) : pm_result unit :=
  _ ← check (negb (eq_ignore_ascii_case (trim (actor_role actor)) "aparatchi") &&
             (actor_role actor <>s "rezka_master")) OrderControlActionNotAllowed;
  _ ← check (blank (qp_description p) || negb (blank (qp_freeze_request_id p)) || qp_worker_handoff p ||
             qp_remove_roll_from_apparatus p) ProgressInputInvalid;
  match control_state control with
  | OrderControl.Active => Ok tt
  | OrderControl.FreezeRequested => Err OrderFreezeRequested
  | OrderControl.Frozen => Err OrderFrozen
  end.

Definition accept_request (apparatus order_id : string) (request : QueueActionRequest) (s : order_store)
  : pm_result Admission :=
  let requested := qr_action request in
  let p := qr_progress request in
  _ ← validate_queue_action_request apparatus order_id (qr_assigned_apparatus request);
  stage ← hold_stage apparatus order_id requested p s;
  control ← effective_order_control_for_stage order_id apparatus stage s;
  let finalization := freeze_requested control &&
        (Action.creates_resumable_output requested || bool_decide (requested = Action.Freeze)) in
  let safe_stop := freeze_requested control && Action.creates_resumable_output requested in
  let with_issue := qp_freeze_with_issue p ||
        (bool_decide (requested = Action.Freeze) && bool_decide (control_state control = OrderControl.Active)) in
  let action := if with_issue || finalization then Action.Freeze else requested in
  let p := p <| qp_freeze_with_issue := with_issue |> in
  _ ← (if with_issue then validate_issue_freeze control (qr_actor request) p else Ok tt);
  _ ← validate_freeze_request_pause control apparatus requested (qr_actor request) (qp_freeze_request_id p);
  _ ← match control_state control with
      | OrderControl.Active => Ok tt
      | OrderControl.FreezeRequested => check (negb (bool_decide (action = Action.Freeze))) OrderFreezeRequested
      | OrderControl.Frozen => Err OrderFrozen
      end;
  Ok {| ad_hold_stage := stage; ad_control := control; ad_action := action; ad_progress := p;
        ad_finalization := finalization; ad_safe_stop := safe_stop |}.

(** * The new queue (execution.rs 101-341, 530-558) *)

(** A hold of another occurrence does not hold this one. *)
Definition occurrence_states (apparatus order_id stage : string) (control : OrderControlRecord)
    (states : gmap string string) (s : order_store) : gmap string string :=
  if bool_decide (states !! order_id = Some "frozen") &&
     bool_decide (control_state control = OrderControl.Active) &&
     existsb (λ c, (control_order_id c =s order_id) && (control_stage_node_id c <>s stage) &&
       bool_decide (control_state c = OrderControl.Frozen) &&
       is_some_and (control_freeze_request c) (λ r, freeze_target_apparatus r =s apparatus))
       (stage_order_control_states s)
  then <[order_id := "pending"]> states else states.

(** The trial of the order that a requested hold interrupts. *)
Definition print_preflight_hold (apparatus order_id : string) (ad : Admission) (from_state : OrderState.t)
    (s : trial_store) : option PrintPreflightHold :=
  if freeze_requested (ad_control ad) && bool_decide (ad_action ad = Action.Freeze) &&
     bool_decide (from_state = OrderState.PrintPreflight)
  then List.find (λ hold, (trim (hold_order_id hold) =s order_id) &&
         apparatus_ids_match (hold_apparatus hold) apparatus &&
         match hold_status hold with PreflightStatus.Held | PreflightStatus.Running => true | _ => false end)
         (active_print_preflight_holds s)
  else None.

(** [max_by]: of the batches completed last the one with the greatest identifier. *)
Definition completed_after (best batch : OrderProgressBatch) : bool :=
  (batch_completed_at_unix best <? batch_completed_at_unix batch)%Z ||
  ((batch_completed_at_unix best =? batch_completed_at_unix batch)%Z &&
   bool_decide (String.le (batch_id best) (batch_id batch))).

Definition last_completed (l : list OrderProgressBatch) : option OrderProgressBatch :=
  foldl (λ best batch, match best with
         | Some b => if completed_after b batch then Some batch else best
         | None => Some batch
         end) None l.

Definition bosma_closing_output (session : RunSession) (batches : list OrderProgressBatch)
  : option OrderProgressBatch :=
  if negb (bool_decide (session_status session = RunStatus.RollDetached)) then None
  else
    let anchor := payload_str (session_payload_json session) "last_detached_output_batch_id" in
    last_completed (List.filter (λ batch,
      (batch_session_id batch =s session_id session) && (batch_order_id batch =s session_order_id session) &&
      (batch_apparatus batch =s session_apparatus session) &&
      bool_decide (batch_action batch = Action.DetachRoll) &&
      bool_decide (batch_status batch = BatchStatus.RollDetached) &&
      match anchor with Some id => id =s batch_id batch | None => true end) batches).

(** The output a run closes on, when it is to close without another one. *)
Definition closing_output (canonical : RuntimeApparatusConfiguration) (order_id : string) (action : Action.t)
    (from_state : OrderState.t) (session : option RunSession) (p : QueueProgressInput) (s : order_store)
  : pm_result (option string) :=
  if qp_complete_without_output p then
    _ ← check (negb (bool_decide (action = Action.Complete)) ||
               negb (bool_decide (from_state = OrderState.Paused)) || negb (is_pechat_apparatus canonical))
          QueueActionNotAllowed;
    _ ← validate_bosma_closing_metrics p;
    session ← ok_or session QueueActionNotAllowed;
    output ← ok_or (bosma_closing_output session (progress_batches_for_order order_id s)) QueueActionNotAllowed;
    _ ← check (trim (qp_progress_batch_id p) <>s batch_id output) QueueActionNotAllowed;
    Ok (Some (batch_id output))
  else Ok None.

(** A cutting run with reported frames takes no further roll. *)
Definition has_reported_frames (session : RunSession) : bool :=
  match json_get "rezka_output_report" (session_payload_json session) with
  | Some v => match json_as_array v with Some (_ :: _) => true | _ => false end
  | None => false
  end.

(** What a requested hold asks of the work it stops. *)
Definition check_safe_stop (canonical : RuntimeApparatusConfiguration) (ad : Admission)
    (trial : option PrintPreflightHold) (session : option RunSession) : pm_result unit :=
  let p := ad_progress ad in
  let with_issue := negb (has_reported_output p) && negb (blank (qp_description p)) in
  _ ← (if ad_finalization ad && is_none trial
       then validate_freeze_request_target_session (ad_control ad) session else Ok tt);
  _ ← check (ad_safe_stop ad && negb (has_reported_output p) && negb with_issue) ProgressInputInvalid;
  check (ad_safe_stop ad && has_reported_output p &&
         negb (has_complete_freeze_safe_stop_output p (is_rezka_apparatus canonical))) ProgressInputInvalid.

(** The branch of the action; requeued work does not start again. *)
Definition queue_branch (action : Action.t) (from_state : OrderState.t) (closing : option string)
    (session : option RunSession) (p : QueueProgressInput) : pm_result QueueBranch :=
  let requeued := is_some_and session order_run_session_was_requeued in
  _ ← check (requeued && bool_decide (action = Action.Start)) QueueActionNotAllowed;
  Ok (if is_some closing then ClosesOutput
      else if bool_decide (action = Action.DetachRoll) && qp_remove_roll_from_apparatus p then RemovesRoll
      else if requeued && bool_decide (action = Action.Resume) && bool_decide (from_state = OrderState.Pending)
      then ResumesRequeued
      else Applies action).

(** A single frame is recorded at a cutting machine, as a finished roll. *)
Definition check_frame_index (canonical : RuntimeApparatusConfiguration) (action : Action.t)
    (p : QueueProgressInput) : pm_result unit :=
  check (is_some (qp_rezka_record_frame_index p) &&
         (negb (is_rezka_apparatus canonical) || negb (bool_decide (action = Action.RollComplete)) ||
          qp_worker_handoff p || qp_remove_roll_from_apparatus p || qp_freeze_with_issue p ||
          negb (is_empty (qp_freeze_request_id p)))) ProgressInputInvalid.

Definition ensure_previous_stage_is_configured (action : Action.t) (map : ProductionMapDefinition)
    (apparatus : string) (canonical : RuntimeApparatusConfiguration) : pm_result unit :=
  check (negb (bool_decide (action = Action.Freeze)) && requires_previous_stage canonical &&
         previous_stage_resolution_is_unavailable map apparatus) ProgressQrRequired.

Definition capacity_view (s : execution_store) : capacity_store := {|
  store_maps := btree_values (st_maps s); store_downtimes := es_downtimes s;
  store_reservations := rs_reservations s;
  store_sessions := (λ session : RunSession, run_session session) <$> sessions s |}.

(** The queue of a machine as the action found it, and as it leaves it. *)
Record QueueChange := {
  ch_canonical : RuntimeApparatusConfiguration;
  ch_sequence : list string;
  ch_found : queue_states;
  ch_branch : QueueBranch;
  ch_action : Action.t;
  ch_from_state : OrderState.t;
  ch_to_state : OrderState.t;
  ch_states : gmap string string;
}.

(** What the action reads of the queue. *)
Record QueueReads := {
  rd_all_states : gmap string (gmap string string);
  rd_canonical : RuntimeApparatusConfiguration;
  rd_sequence : list string;
  rd_map : ProductionMapDefinition;
  rd_parsed : queue_states;
  rd_session : option RunSession;
}.

Definition read_queue (apparatus order_id : string) (ad : Admission) (s : execution_store)
  : run_result QueueReads :=
  sequences ← lift (apparatus_sequences (ts_tables s));
  all_states ← lift (apparatus_queue_states s);
  let maps := btree_values (st_maps s) in
  canonical ← lift (resolve_canonical_apparatus_text resolver apparatus);
  _ ← lift (check_frame_index canonical (ad_action ad) (ad_progress ad));
  let sequence := effective_apparatus_sequence_excluding (default [] (sequences !! apparatus))
        (selected_order_ids_for_apparatus maps canonical) (frozen_order_ids s) in
  _ ← lift (check (negb (existsb (λ id, trim id =s order_id) sequence)) QueueActionNotAllowed);
  let states := occurrence_states apparatus order_id (ad_hold_stage ad) (ad_control ad)
        (default ∅ (all_states !! apparatus)) s in
  _ ← lift (validate_requested_queue_state states order_id);
  map ← lift (ok_or (List.find (λ map, trim (map_id map) =s order_id) maps) MapNotFound);
  _ ← lift (check (negb (print_assignment_allows_order map canonical)) QueueActionNotAllowed);
  _ ← lift (ensure_previous_stage_is_configured (ad_action ad) map apparatus canonical);
  ready ← previous_progress_ready_for_action (ad_action ad) order_id map apparatus (ad_progress ad) s;
  let parsed := parsed_queue_states states in
  let parsed := if bool_decide (ad_action ad = Action.Start) && ready &&
                   bool_decide (parsed !! order_id = Some OrderState.Completed)
                then <[order_id := OrderState.Pending]> parsed else parsed in
  session ← lift (active_order_run_session apparatus order_id s);
  Ok {| rd_all_states := all_states; rd_canonical := canonical; rd_sequence := sequence; rd_map := map;
        rd_parsed := parsed; rd_session := session |}.

(** [unprocessed]: the finished order still has rolls of the stage before it. *)
Definition prepare_queue_change (unprocessed : bool) (request : QueueActionRequest) (s : execution_store)
  : run_result QueueChange :=
  let apparatus := trim (qr_apparatus request) in
  let order_id := trim (qr_order_id request) in
  ad ← lift (accept_request apparatus order_id request s);
  rd ← read_queue apparatus order_id ad s;
  let action := ad_action ad in
  let canonical := rd_canonical rd in
  let from_state := state_of (rd_parsed rd) order_id in
  let trial := print_preflight_hold apparatus order_id ad from_state (rs_trials s) in
  _ ← lift (check (freeze_requested (ad_control ad) && bool_decide (action = Action.Freeze) &&
                   bool_decide (from_state = OrderState.PrintPreflight) && is_none trial)
              OrderFreezeRequestMismatch);
  closing ← lift (closing_output canonical order_id action from_state (rd_session rd) (ad_progress ad) s);
  _ ← lift (check (bool_decide (action = Action.Merge) && is_some_and (rd_session rd) has_reported_frames)
              RezkaOutputCycleConflict);
  _ ← lift (check_safe_stop canonical ad trial (rd_session rd));
  branch ← lift (queue_branch action from_state closing (rd_session rd) (ad_progress ad));
  parsed ← lift (change_queue canonical (rd_sequence rd) from_state branch (rd_parsed rd) order_id);
  _ ← (if Action.claims action
       then ensure_apparatus_execution_capacity resolver now (capacity_view s) apparatus order_id
              (rd_all_states rd)
       else Ok tt);
  to_state ← lift (ok_or (parsed !! order_id) QueueActionNotAllowed);
  let parsed := if bool_decide (action = Action.Complete) && bool_decide (to_state = OrderState.Completed) &&
                   unprocessed
                then <[order_id := OrderState.Pending]> parsed else parsed in
  Ok {| ch_canonical := canonical; ch_sequence := rd_sequence rd; ch_found := rd_parsed rd;
        ch_branch := branch; ch_action := action; ch_from_state := from_state; ch_to_state := to_state;
        ch_states := serialized_queue_states parsed |}.

(** * The materials of an action (materials/implementation.rs 588-628, 906-937) *)

Definition is_none_error {A} (r : run_result (option A)) : run_result bool :=
  match r with
  | Ok found => Ok (is_some found)
  | Err (Fail _) => Ok false
  | Err Panic => Err Panic
  end.

Definition laminatsiya_material_scan_can_be_skipped_for_wip (apparatus : ApparatusId) (order_id : string)
    (p : QueueProgressInput) (s : material_store) : run_result bool :=
  canonical ← lift (validated_material_apparatus resolver apparatus);
  if negb (uses_lamination_workflow canonical) || (blank (qp_qr_payload p) && blank (qp_progress_batch_id p))
  then Ok false
  else match raw_map order_id s with
  | None => Ok false
  | Some map =>
      let id := apparatus_id_str apparatus in
      previous ← is_none_error (previous_stage_start_progress_batch order_id map id p s);
      if (previous : bool) then Ok true
      else is_none_error (lift (opening_wip_start_batch order_id map id p s))
  end.

(** What is noted about the materials of the action: the scan was skipped, materials are acquired
    again, materials of the transferred run are reused. *)
Record MaterialCheck := {
  mc_skipped : bool;
  mc_reacquired : bool;
  mc_reused : bool;
}.

Definition check_action_materials (request : QueueActionRequest)
    (material_barcodes state_material_barcodes : list string) (s : material_store) : run_result MaterialCheck :=
  let order_id := qr_order_id request in
  let action := qr_action request in
  apparatus ← lift (parse_apparatus_id (qr_apparatus request));
  _ ← lift (check (negb (assigned_apparatus_contains apparatus (qr_assigned_apparatus request)))
              ApparatusNotAssigned);
  '(reacquire, reuse) ← lift (resume_material_requirements resolver (apparatus_id_str apparatus) order_id action s);
  _ ← lift (check (reacquire && match material_barcodes with [] => true | _ => false end) RawMaterialScanRequired);
  skip ← (if bool_decide (action = Action.Start)
          then laminatsiya_material_scan_can_be_skipped_for_wip apparatus order_id (qr_progress request) s
          else Ok false);
  _ ← (if (skip : bool) then Ok tt
       else lift (validate_material_scan resolver (qr_apparatus request) order_id
                    (if (reacquire : bool) then Action.Start else action) material_barcodes
                    state_material_barcodes s));
  Ok {| mc_skipped := skip; mc_reacquired := reacquire; mc_reused := reuse |}.
End execution.
