(* ===== verification/QueueExecutionFacts.v ===== *)
(** Correctness of the action at a queue: the rules by which it changes the state of an order, that
    runs of it keep a machine to one order, and what it asks of the materials. *)
From Stdlib Require Import Ascii.
From S2P Require Import Prelude RustStr F64 Json Errors Identity QueueState QueueFacts OrderLayout MapDefinition Chain Projection Scheduler SchedulerFacts Progress WipRoute Lifecycle StageExecution OrderRefresh OrderStore Visibility Preflight QueueMoves Epc CutLayout Paddon Metrics Lineage RunStore Warehouse Materials MaterialsFacts Ids OpeningWip OrderControl QueueExecution.

(** * The rules of a queue *)

(** What each action does to the state of its order. *)
Inductive transition : OrderState.t → Action.t → OrderState.t → Prop :=
  | start_pending : transition OrderState.Pending Action.Start OrderState.InProgress
  | start_passed_trial : transition OrderState.PrintPreflight Action.Start OrderState.InProgress
  | freeze_trial : transition OrderState.PrintPreflight Action.Freeze OrderState.Frozen
  | pause : transition OrderState.InProgress Action.Pause OrderState.Paused
  | freeze : transition OrderState.InProgress Action.Freeze OrderState.Frozen
  | detach : transition OrderState.InProgress Action.DetachRoll OrderState.Paused
  | resume : transition OrderState.Paused Action.Resume OrderState.InProgress
  | merge : transition OrderState.InProgress Action.Merge OrderState.InProgress
  | finish_roll : transition OrderState.InProgress Action.RollComplete OrderState.InProgress
  | complete : transition OrderState.InProgress Action.Complete OrderState.Completed.

Lemma next_queue_state_transition st a st' : next_queue_state st a = Ok st' ↔ transition st a st'.
Proof.
  split; [|by intros []]. destruct st, a; simpl; intros H; simplify_eq; constructor.
Qed.

Section rules.
Context `{J : Json}.
Context (canonical : RuntimeApparatusConfiguration) (sequence : list string) (action : Action.t).
Context (p : QueueProgressInput) (session : option RunSession) (rolls : list OrderProgressBatch).
Context (found : queue_states) (id : string).

Definition strict : Prop := effective_apparatus_queue_policy canonical = StrictSequence.

(** Nobody else occupies the machine. *)
Definition alone : Prop := ∀ k, trim k ≠ id → OrderState.is_active (state_of found k) = false.

(** The order was held and put back into its queue. *)
Definition requeued : Prop := ∃ ss, session = Some ss ∧ order_run_session_was_requeued ss = true.


End rules.

Lemma other_active_alone found id : other_active found id = false ↔ alone found id.
Proof.
  split; [intros H k Hk; by eapply other_active_false|].
  intros Ha. apply existsb_false. intros [k st] Hk%elem_of_map_to_list. simpl.
  destruct (String.eqb_spec (trim k) id) as [|Hne]; [done|]. simpl.
  specialize (Ha k Hne). unfold state_of in Ha. by rewrite Hk in Ha.
Qed.


(** Applying an action by the policy of the queue, on a trimmed order. *)
Lemma apply_policy_iff policy seq found id a s' : trim id = id → id ≠ "" →
  apply_queue_policy policy seq found id a = Ok s' ↔
  ∃ st, transition (state_of found id) a st ∧ s' = <[id := st]> found ∧
    (policy = StrictSequence → ∃ x, x ∈ seq ∧ trim x = id) ∧
    (Action.claims a = true → alone found id ∧
       (policy = StrictSequence → next_in_line seq found id)).
Proof.
  intros Ht Hne. assert (is_empty id = false) as Hem by (by destruct id).
  assert (Hun : apply_unordered_queue_action found id a = Ok s' ↔
    ∃ st, transition (state_of found id) a st ∧ s' = <[id := st]> found ∧
      (Action.claims a = true → alone found id)).
  { unfold apply_unordered_queue_action. rewrite Ht, Hem. setoid_rewrite <-next_queue_state_transition.
    pose proof (other_active_alone found id). destruct (Action.claims a), (other_active found id); simpl;
      destruct (next_queue_state _ a) as [st|]; simpl; naive_solver. }
  destruct policy; simpl; [|rewrite Hun; naive_solver].
  unfold apply_queue_action. rewrite Ht, Hem. setoid_rewrite <-first_actionable_next.
  assert (existsb (λ x, trim x =s id) seq = true ↔ ∃ x, x ∈ seq ∧ trim x = id) as Hin.
  { rewrite existsb_elem. by setoid_rewrite String.eqb_eq. }
  destruct (existsb _ seq); simpl; [|naive_solver].
  destruct (Action.claims a) eqn:Hc; simpl; [|rewrite Hun; naive_solver].
  case_bool_decide as Hf; [|rewrite Hun]; naive_solver.
Qed.

Lemma requeued_resume_iff policy seq found id s' :
  apply_requeued_resume policy seq found id = Ok s' ↔
  state_of found id = OrderState.Pending ∧ (policy = StrictSequence → next_in_line seq found id) ∧
  s' = <[id := OrderState.InProgress]> found.
Proof.
  unfold apply_requeued_resume. setoid_rewrite <-first_actionable_next.
  destruct policy; simpl; repeat case_bool_decide; naive_solver.
Qed.

Section decision.
Context `{J : Json} `{C : !RouteCodec} `{R : !ReportCodec} `{!Serde (list OrderLane)}.
Context `{!Serde (list OrderRunInputLink)} `{!Serde (list RezkaActivePartialRoll)}.
Context `{!Serde (list ProgressBatchInputLink)} `{!Serde ProductionQrSessionResources}.


Lemma queue_branch_iff action from_state closing session p branch :
  queue_branch action from_state closing session p = Ok branch ↔
  (requeued session → action ≠ Action.Start) ∧
  branch = match closing with
           | Some _ => ClosesOutput
           | None =>
               if decide (action = Action.DetachRoll ∧ qp_remove_roll_from_apparatus p = true) then RemovesRoll
               else if is_some_and session order_run_session_was_requeued &&
                       bool_decide (action = Action.Resume ∧ from_state = OrderState.Pending)
               then ResumesRequeued else Applies action
           end.
Proof.
  unfold queue_branch, requeued. rewrite check_then, andb_false_iff, bool_decide_eq_false.
  assert ((∃ ss, session = Some ss ∧ order_run_session_was_requeued ss = true) ↔
    is_some_and session order_run_session_was_requeued = true) as ->.
  { destruct session as [ss|]; simpl; naive_solver. }
  assert (∀ b : bool, (b = false ∨ action ≠ Action.Start) ↔ (b = true → action ≠ Action.Start)) as ->.
  { intros []; naive_solver. }
  assert (∀ a b : QueueBranch, a = b → (Ok a = Ok branch :> pm_result QueueBranch) ↔ branch = b) as Hb.
  { naive_solver. }
  rewrite Hb; [reflexivity|]. destruct closing; simpl; [done|].
  destruct (qp_remove_roll_from_apparatus p); destruct action, from_state; simpl;
    rewrite ?andb_false_r, ?andb_true_r; simpl; rewrite ?andb_false_r; try done;
    by destruct (is_some_and _ _).
Qed.

End decision.

(** * One machine, one order *)

Lemma reparsed (q : queue_states) : parsed_queue_states (serialized_queue_states q) = q.
Proof. apply queue_states_roundtrip. Qed.

Lemma parsed_insert states id raw st : OrderState.parse raw = Some st →
  parsed_queue_states (<[id := raw]> states) = <[id := st]> (parsed_queue_states states).
Proof. intros H. unfold parsed_queue_states. by apply omap_insert_Some. Qed.

(** The queue [q] is [q0] but for the order, which at most waits anew. *)
Definition found_in (q0 q : queue_states) (id : string) : Prop :=
  (∀ k, k ≠ id → state_of q k = state_of q0 k) ∧
  (state_of q id = state_of q0 id ∨ state_of q id = OrderState.Pending).

Lemma found_in_refl q id : found_in q q id.
Proof. split; [done|by left]. Qed.

Lemma found_in_pending q0 q id : found_in q0 q id → found_in q0 (<[id := OrderState.Pending]> q) id.
Proof.
  intros [Hk _]. split; [|right; apply state_of_insert]. intros k Hne. rewrite state_of_insert_ne; auto.
Qed.

Lemma found_in_active q0 q id k st : found_in q0 q id → st ≠ OrderState.Pending →
  state_of q k = st → state_of q0 k = st.
Proof.
  intros [Hk Hid] Hst <-. destruct (decide (k = id)) as [->|Hne]; [|by rewrite Hk].
  destruct Hid as [H|H]; congruence.
Qed.

Section runs.
Context `{J : Json} `{C : !RouteCodec} `{R : !ReportCodec} `{!Serde (list OrderLane)}.
Context `{!Serde (list OrderRunInputLink)} `{!Serde (list RezkaActivePartialRoll)}.
Context `{!Serde (list ProgressBatchInputLink)} `{!Serde ProductionQrSessionResources}.
Context `{UnicodeCase} `{Clock} (resolver : ApparatusId → pm_result (option RuntimeApparatusConfiguration)).

(** The queue of a machine. *)
Definition machine_queue (apparatus : string) (s : execution_store) : queue_states :=
  match apparatus_queue_states s with
  | Ok all => parsed_queue_states (default ∅ (all !! apparatus))
  | Err _ => ∅
  end.

Lemma occurrence_found apparatus id stage control states (s : execution_store) :
  found_in (parsed_queue_states states)
    (parsed_queue_states (occurrence_states apparatus id stage control states s)) id.
Proof.
  unfold occurrence_states. destruct (_ && _); [|apply found_in_refl].
  rewrite (parsed_insert _ _ _ OrderState.Pending) by vm_refl. apply found_in_pending, found_in_refl.
Qed.

Lemma read_queue_found apparatus id ad (s : execution_store) rd :
  read_queue resolver apparatus id ad s = Ok rd →
  apparatus_queue_states s = Ok (rd_all_states rd) ∧ found_in (machine_queue apparatus s) (rd_parsed rd) id.
Proof.
  unfold read_queue, machine_queue. intros Hr. inv_run. repeat case_match; simplify_eq/=; (split; [done|]).
  - apply found_in_pending, occurrence_found.
  - apply occurrence_found.
Qed.

(** The machine has one slot, and its capacity counts. *)
Definition has_one_slot (apparatus : string) : Prop :=
  ∀ id c, canonical_id apparatus = Some id → resolver id = Ok (Some c) →
    config_finite_capacity c = true ∧ (config_capacity_slots c ≤ 1)%Z.

Lemma one_slot_profile now apparatus id profile : has_one_slot apparatus →
  canonical_id apparatus = Some id → canonical_capacity_profile_for resolver now id = Ok profile →
  profile_finite_capacity profile = true ∧ (profile_capacity_slots profile ≤ 1)%Z.
Proof.
  intros Hone Hid Hp.
  unfold canonical_capacity_profile_for, validated_canonical_apparatus, resolve_canonical_apparatus,
    canonical_capacity_profile in Hp.
  destruct (resolver id) as [[c|]|] eqn:Hr; [|done..]. simpl in Hp. specialize (Hone id c Hid Hr).
  repeat (destruct (_ || _); [done|]; simpl in Hp). by injection Hp as <-.
Qed.

Lemma occupy_queue_mono id order entry X Y : occupy_queue id order entry X = Ok Y → X ⊆ Y.
Proof.
  unfold occupy_queue. intros (other & _ & Hq)%bind_Ok. case_match; simplify_eq; [done|].
  intros x Hx. apply (foldl_collects _ (occupies_by_state order)); [|by left].
  intros kv Z _. apply occupy_queue_state_adds.
Qed.

Lemma occupy_session_mono id order session X Y : occupy_session id order session X = Ok Y → X ⊆ Y.
Proof.
  unfold occupy_session. intros (other & _ & Hq)%bind_Ok. case_match; simplify_eq; set_solver.
Qed.

Lemma for_each_mono {E A} (body : A → gset string → result E (gset string)) l X Y :
  (∀ a X Y, body a X = Ok Y → X ⊆ Y) → for_each body l X = Ok Y → X ⊆ Y.
Proof.
  intros Hb. revert X. induction l as [|a l IH]; intros X; simpl; [by intros [= ->]|].
  intros (Z & HZ & HY)%bind_Ok. etrans; [by eapply Hb|by apply IH].
Qed.

(** Every running order of the machine, in its queue, is counted. *)
Lemma occupy_queue_counts id order all X Y apparatus rows k raw :
  for_each (occupy_queue id order) (btree_entries all) X = Ok Y →
  canonical_id apparatus = Some id → all !! apparatus = Some rows → rows !! k = Some raw →
  occupies_by_state order (k, raw) (trim k) → trim k ∈ Y.
Proof.
  intros Hf Hid Hall Hk Ho. apply elem_of_btree_entries in Hall. revert X Hf.
  induction (btree_entries all) as [|e l IH]; intros X; simpl; [by apply not_elem_of_nil in Hall|].
  intros (Z & HZ & HY)%bind_Ok. apply elem_of_cons in Hall as [<-|Hin]; [|by eapply IH].
  apply (for_each_mono _ _ _ _ (occupy_queue_mono id order) HY).
  unfold occupy_queue in HZ. simpl in HZ. rewrite Hid in HZ. simpl in HZ.
  rewrite (proj2 (same_apparatus_id_eq id id) eq_refl) in HZ. injection HZ as <-.
  apply (foldl_collects _ (occupies_by_state order)); [intros kv Z' _; apply occupy_queue_state_adds|].
  right. exists (k, raw). by rewrite elem_of_btree_entries.
Qed.

(** Work starts on a machine of one slot only when no other order runs there. *)
Lemma capacity_excludes now store apparatus order all rows k raw : has_one_slot apparatus →
  ensure_apparatus_execution_capacity resolver now store apparatus order all = Ok tt →
  all !! apparatus = Some rows → rows !! k = Some raw → OrderState.parse raw = Some OrderState.InProgress →
  eq_ignore_ascii_case k (trim order) = true.
Proof.
  unfold ensure_apparatus_execution_capacity. intros Hone He Hall Hk Hrun.
  apply bind_Ok in He as (id & Hid%lift_Ok%ok_or_Ok & He).
  apply bind_Ok in He as (profile & Hp%lift_Ok & He).
  destruct (one_slot_profile _ _ _ _ Hone Hid Hp) as [Hfin Hslots].
  rewrite (canonical_profile_id _ _ _ _ Hp) in He.
  apply bind_Ok in He as (? & _ & He). apply bind_Ok in He as (? & _ & He).
  apply bind_Ok in He as (? & _ & He). apply bind_Ok in He as (X & HX%lift_Ok & He).
  apply bind_Ok in He as (Y & HY%lift_Ok & He). rewrite check_Ok, Hfin in He. apply Z.leb_gt in He.
  destruct (eq_ignore_ascii_case k (trim order)) eqn:Hsame; [done|]. exfalso.
  assert (trim k ∈ foldl (occupy_reservation now id (trim order)) Y
            (btree_values (store_reservations store))) as Hin.
  { apply (foldl_collects _ (occupies_by_reservation now id (trim order)));
      [intros; apply occupy_reservation_adds|left].
    apply (for_each_mono _ _ _ _ (occupy_session_mono id (trim order)) HY).
    by eapply occupy_queue_counts. }
  apply elem_of_subseteq_singleton, subseteq_size in Hin. rewrite size_singleton in Hin. lia.
Qed.

(** What an accepted action did. *)
Lemma prepare_inv now unprocessed request s ch :
  prepare_queue_change resolver now unprocessed request s = Ok ch →
  let apparatus := trim (qr_apparatus request) in
  let id := trim (qr_order_id request) in
  ∃ all closing session p q',
    id ≠ "" ∧ apparatus_queue_states s = Ok all ∧
    found_in (machine_queue apparatus s) (ch_found ch) id ∧
    ch_from_state ch = state_of (ch_found ch) id ∧
    closing_output (ch_canonical ch) id (ch_action ch) (ch_from_state ch) session p s = Ok closing ∧
    queue_branch (ch_action ch) (ch_from_state ch) closing session p = Ok (ch_branch ch) ∧
    change_queue (ch_canonical ch) (ch_sequence ch) (ch_from_state ch) (ch_branch ch) (ch_found ch) id = Ok q' ∧
    (Action.claims (ch_action ch) = true →
       ensure_apparatus_execution_capacity resolver now (capacity_view s) apparatus id all = Ok tt) ∧
    (parsed_queue_states (ch_states ch) = q' ∨
     parsed_queue_states (ch_states ch) = <[id := OrderState.Pending]> q').
Proof.
  intros Hp apparatus id. unfold prepare_queue_change in Hp. fold apparatus id in Hp.
  apply bind_Ok in Hp as (ad & Had%lift_Ok & Hp). apply bind_Ok in Hp as (rd & Hrd & Hp).
  pose proof Hrd as [Hall Hfound]%read_queue_found.
  apply bind_Ok in Hp as (? & _ & Hp). apply bind_Ok in Hp as (closing & Hc%lift_Ok & Hp).
  apply bind_Ok in Hp as (? & _ & Hp). apply bind_Ok in Hp as (? & _ & Hp).
  apply bind_Ok in Hp as (branch & Hb%lift_Ok & Hp). apply bind_Ok in Hp as (q' & Hq%lift_Ok & Hp).
  apply bind_Ok in Hp as ([] & He & Hp). apply bind_Ok in Hp as (st & _ & [= <-]).
  exists (rd_all_states rd), closing, (rd_session rd), (ad_progress ad), q'. simpl.
  rewrite reparsed. split_and!; try done.
  - intros Hid. unfold accept_request in Had. rewrite Hid in Had. unfold validate_queue_action_request in Had.
    by destruct (is_empty apparatus).
  - intros Hcl. by rewrite Hcl in He.
  - destruct (_ && _); auto.
Qed.

(** A requeued order returned to work beside an active one: the queue gives no turn to wait for, or
    the active order is not in the sequence. *)
Definition intrudes (ch : QueueChange) (id : string) : Prop :=
  ch_branch ch = ResumesRequeued ∧ ∃ k, trim k ≠ id ∧
    OrderState.is_active (state_of (ch_found ch) k) = true ∧
    (strict (ch_canonical ch) → k ∉ named (ch_sequence ch)).

Lemma change_queue_effect canonical seq branch q id q' : trim id = id → id ≠ "" →
  change_queue canonical seq (state_of q id) branch q id = Ok q' →
  ∃ st, q' = <[id := st]> q ∧
    (OrderState.is_active st = true → OrderState.is_active (state_of q id) = true ∨ alone q id ∨
       branch = ResumesRequeued ∧ state_of q id = OrderState.Pending ∧
       (strict canonical → next_in_line seq q id)) ∧
    (st = OrderState.InProgress → state_of q id = OrderState.InProgress ∨ branch = ResumesRequeued ∨
       ∃ a, branch = Applies a ∧ Action.claims a = true).
Proof.
  intros Ht Hne. destruct branch as [| | |a]; simpl.
  - intros [= <-]. by eexists.
  - unfold remove_roll. rewrite !check_then. intros (_ & _ & [= <-]). by eexists.
  - intros (Hst & Hn & ->)%requeued_resume_iff. eexists. split; [done|]. split; [|by auto].
    intros _. right. right. done.
  - intros (st & Htr & -> & _ & Hcl)%apply_policy_iff; [|done..]. exists st. split; [done|]. split.
    + intros Hact. destruct (Action.claims a) eqn:Hc; [right; left; by apply Hcl|left].
      eapply non_claim_keeps_active; [by apply next_queue_state_transition|done|done].
    + intros ->. destruct (Action.claims a) eqn:Hc; [right; right; eauto|left].
      inversion Htr; subst; try done; simpl in Hc; done.
Qed.

Lemma insert_single_active q id st : trim id = id → single_active q →
  (OrderState.is_active st = true → OrderState.is_active (state_of q id) = true ∨ alone q id) →
  single_active (<[id := st]> q).
Proof.
  intros Ht Hs Hst.
  assert (Hother : ∀ k, OrderState.is_active (state_of (<[id := st]> q) k) = true → trim k ≠ id →
    OrderState.is_active (state_of q k) = true ∧
    (OrderState.is_active st = true → OrderState.is_active (state_of q id) = true)).
  { intros k Hk Hne. rewrite state_of_insert_ne in Hk by (intros ->; congruence). split; [done|].
    intros [?|Ha]%Hst; [done|]. by rewrite Ha in Hk. }
  assert (Hid : ∀ k, OrderState.is_active (state_of (<[id := st]> q) k) = true → trim k = id →
    OrderState.is_active st = true ∨ OrderState.is_active (state_of q k) = true).
  { intros k Hk _. destruct (decide (k = id)) as [->|Hne]; [left; by rewrite state_of_insert in Hk|right].
    by rewrite state_of_insert_ne in Hk. }
  intros k1 k2 H1 H2. destruct (decide (trim k1 = id)) as [E1|E1], (decide (trim k2 = id)) as [E2|E2].
  - congruence.
  - destruct (Hother k2 H2 E2) as [Hk2 Hact]. destruct (Hid k1 H1 E1) as [?%Hact|?]; [|by apply Hs].
    rewrite E1, <-Ht. by apply Hs.
  - destruct (Hother k1 H1 E1) as [Hk1 Hact]. destruct (Hid k2 H2 E2) as [?%Hact|?]; [|by apply Hs].
    rewrite E2, <-Ht. by apply Hs.
  - apply Hs; [by apply Hother|by apply Hother].
Qed.

Lemma found_single_active q0 q id : found_in q0 q id → single_active q0 → single_active q.
Proof.
  intros Hf Hs k1 k2 H1 H2. apply Hs.
  - erewrite found_in_active; [exact H1|exact Hf| |reflexivity]. by intros E; rewrite E in H1.
  - erewrite found_in_active; [exact H2|exact Hf| |reflexivity]. by intros E; rewrite E in H2.
Qed.

(** Without an intrusion the requeued order found the machine free. *)
Lemma proper_return_alone ch id : ¬ intrudes ch id → ch_branch ch = ResumesRequeued →
  state_of (ch_found ch) id = OrderState.Pending →
  (strict (ch_canonical ch) → next_in_line (ch_sequence ch) (ch_found ch) id) → alone (ch_found ch) id.
Proof.
  intros Hi Hb Hst Hn k Hk. destruct (OrderState.is_active _) eqn:Ha; [|done]. destruct Hi.
  split; [done|]. exists k. split; [done|]. split; [done|]. intros [? ? _ Hid _|? ? _ _ Hall _]%Hn Hin.
  - by rewrite Hst in Hid.
  - by rewrite Hall in Ha.
Qed.

(** At most one order is in progress, whatever its spelling. *)
Definition runs_one (q : queue_states) : Prop :=
  ∃ id, ∀ k, state_of q k = OrderState.InProgress → trim k = id ∨ eq_ignore_ascii_case k id = true.

Lemma single_active_runs_one q : single_active q → runs_one q.
Proof.
  intros Hs. destruct (List.find (λ e : string * OrderState.t, OrderState.is_active e.2) (map_to_list q))
    as [[k0 st0]|] eqn:Hf.
  - apply find_elem in Hf as [Hin%elem_of_map_to_list Hact]. exists (trim k0). intros k Hk. left.
    apply Hs; [by rewrite Hk|]. unfold state_of. by rewrite Hin.
  - rewrite find_none_elem in Hf. exists "". intros k Hk. exfalso. unfold state_of in Hk.
    destruct (q !! k) as [st|] eqn:Hq; [simpl in Hk; subst st|done].
    specialize (Hf (k, OrderState.InProgress) ltac:(by apply elem_of_map_to_list)). done.
Qed.

(** * Histories of a machine *)

(** One change of the queue of a machine: an action of an operator; a colour trial, which begins
    where nobody else is active; or a write that makes no order active.  The flag says that requeued
    work intruded. *)
Inductive queue_step (apparatus : string) : bool → execution_store → execution_store → Prop :=
  | acts now unprocessed request ch s s' :
      prepare_queue_change resolver now unprocessed request s = Ok ch → trim (qr_apparatus request) = apparatus →
      machine_queue apparatus s' = parsed_queue_states (ch_states ch) →
      ¬ intrudes ch (trim (qr_order_id request)) → queue_step apparatus false s s'
  | intrudes_on now unprocessed request ch s s' :
      prepare_queue_change resolver now unprocessed request s = Ok ch → trim (qr_apparatus request) = apparatus →
      machine_queue apparatus s' = parsed_queue_states (ch_states ch) →
      intrudes ch (trim (qr_order_id request)) → queue_step apparatus true s s'
  | tries id s s' :
      trim id = id → alone (machine_queue apparatus s) id →
      machine_queue apparatus s' = <[id := OrderState.PrintPreflight]> (machine_queue apparatus s) →
      queue_step apparatus false s s'
  | starts_nothing s s' :
      (∀ k, OrderState.is_active (state_of (machine_queue apparatus s') k) = true →
         state_of (machine_queue apparatus s) k = state_of (machine_queue apparatus s') k) →
      queue_step apparatus false s s'.

Inductive history (apparatus : string) : bool → execution_store → execution_store → Prop :=
  | no_change s : history apparatus false s s
  | then_step intruded intrudes s s1 s2 :
      history apparatus intruded s s1 → queue_step apparatus intrudes s1 s2 →
      history apparatus (intruded || intrudes) s s2.

Lemma insert_pending_active q id k st : st ≠ OrderState.Pending →
  state_of (<[id := OrderState.Pending]> q) k = st → state_of q k = st.
Proof.
  intros Hst Hk. destruct (decide (k = id)) as [->|Hne]; [by rewrite state_of_insert in Hk|].
  by rewrite state_of_insert_ne in Hk.
Qed.

Lemma pending_single_active q id : trim id = id → single_active q →
  single_active (<[id := OrderState.Pending]> q).
Proof. intros Ht Hs. by apply insert_single_active. Qed.

Lemma queue_step_single_active apparatus s s' : queue_step apparatus false s s' →
  single_active (machine_queue apparatus s) → single_active (machine_queue apparatus s').
Proof.
  intros Hstep Hs. inversion Hstep as [now u request ch ? ? Hp <- Hq Hi| |id ? ? Ht Ha Hq|? ? Hno]; subst.
  - apply prepare_inv in Hp as (all & closing & session & p & q' & Hne & _ & Hf & Hfrom & _ & _ & Hch & _ & Hst).
    rewrite Hfrom in Hch. set (id := trim (qr_order_id request)) in *.
    assert (Ht : trim id = id) by apply trim_idemp.
    apply change_queue_effect in Hch as (st & -> & Hact & _); [|done..].
    assert (single_active (<[id := st]> (ch_found ch))) as Hq'.
    { apply insert_single_active; [done|by eapply found_single_active|].
      intros [?|[?|(Hb & Hpe & Hn)]]%Hact; [by left|by right|right]. by eapply proper_return_alone. }
    rewrite Hq. destruct Hst as [->| ->]; [done|by apply pending_single_active].
  - rewrite Hq. apply insert_single_active; auto.
  - intros k1 k2 H1 H2. apply Hs; by rewrite Hno.
Qed.

Lemma queue_step_runs_one apparatus b s s' : has_one_slot apparatus → queue_step apparatus b s s' →
  runs_one (machine_queue apparatus s) → runs_one (machine_queue apparatus s').
Proof.
  intros Hone Hstep [id0 Hs].
  assert (Hacts : ∀ now u request ch, prepare_queue_change resolver now u request s = Ok ch →
    trim (qr_apparatus request) = apparatus → machine_queue apparatus s' = parsed_queue_states (ch_states ch) →
    runs_one (machine_queue apparatus s')).
  { intros now u request ch Hp <- ->.
    apply prepare_inv in Hp as (all & closing & session & p & q' & Hne & Hall & Hf & Hfrom & Hcl & Hbr & Hch & He & Hst).
    rewrite Hfrom in Hch. set (id := trim (qr_order_id request)) in *.
    assert (Ht : trim id = id) by apply trim_idemp.
    apply change_queue_effect in Hch as (st & -> & _ & Hrun); [|done..].
    assert (Hq : ∀ k, state_of (parsed_queue_states (ch_states ch)) k = OrderState.InProgress →
      k = id ∧ st = OrderState.InProgress ∨
      k ≠ id ∧ state_of (machine_queue (trim (qr_apparatus request)) s) k = OrderState.InProgress).
    { intros k Hk. assert (state_of (<[id := st]> (ch_found ch)) k = OrderState.InProgress) as Hk'.
      { destruct Hst as [Hst|Hst]; rewrite Hst in Hk; [done|by eapply insert_pending_active]. }
      destruct (decide (k = id)) as [->|Hkid]; [left; by rewrite state_of_insert in Hk'|right].
      rewrite state_of_insert_ne in Hk' by done. split; [done|]. by eapply found_in_active. }
    destruct (Action.claims (ch_action ch)) eqn:Hclaim.
    - exists id. intros k [[-> _]|[_ Hk]]%Hq; [by left|right]. rewrite <-Ht.
      unfold machine_queue in Hk. rewrite Hall in Hk. unfold state_of, parsed_queue_states in Hk.
      rewrite lookup_omap in Hk. destruct (all !! _) as [rows|] eqn:Hrows; simpl in Hk;
        [|by rewrite lookup_empty in Hk].
      destruct (rows !! k) as [raw|] eqn:Hraw; simpl in Hk; [|done].
      destruct (OrderState.parse raw) as [st'|] eqn:Hparse; simpl in Hk; [subst st'|done].
      by eapply capacity_excludes; [exact Hone|by apply He|..].
    - exists id0. intros k [[-> ->]|[_ Hk]]%Hq; [|by apply Hs]. apply Hs.
      destruct (Hrun eq_refl) as [Hf'|Hb]; [by eapply found_in_active|exfalso].
      apply queue_branch_iff in Hbr as [_ Hbr]. revert Hb. rewrite Hbr.
      destruct closing; [by intros [?|(? & ? & _)]|]. case_decide; [by intros [?|(? & ? & _)]|].
      destruct (is_some_and session _ && bool_decide _) eqn:Hrq; [|intros [?|(a & [= <-] & ?)]; congruence].
      apply andb_true_iff in Hrq as [_ [Hres _]%bool_decide_eq_true]. by rewrite Hres in Hclaim. }
  inversion Hstep as [? ? ? ? ? ? Hp Ha Hq _|? ? ? ? ? ? Hp Ha Hq _|id ? ? Ht Ha Hq|? ? Hno]; subst;
    [by eapply Hacts|by eapply Hacts| |].
  - exists id0. rewrite Hq. intros k Hk. apply Hs. destruct (decide (k = id)) as [->|Hne];
      [by rewrite state_of_insert in Hk|by rewrite state_of_insert_ne in Hk].
  - exists id0. intros k Hk. apply Hs. rewrite Hno; by rewrite Hk.
Qed.

(** C21: Along every history of the queue of a machine, made of operators'
    actions (whichever branch they take), colour trials begun where nobody else
    is active, and writes that make no order active, at most one order is
    active, except after requeued work was resumed beside an active order, which
    the code refuses only when that order is in a strict sequence. Even then, on
    a machine with one finite slot at most one order is in progress: the other
    one can only be on trial. *)
Theorem machines_run_one_order apparatus intruded s s' :
  single_active (machine_queue apparatus s) → history apparatus intruded s s' →
  (intruded = false → single_active (machine_queue apparatus s')) ∧
  (has_one_slot apparatus → runs_one (machine_queue apparatus s')).
Proof.
  intros Hs Hh. induction Hh as [s|intruded intrudes s s1 s2 Hh IH Hstep].
  - split; [done|]. intros _. by apply single_active_runs_one.
  - destruct (IH Hs) as [IH1 IH2]. split.
    + intros [-> ->]%orb_false_iff. eapply queue_step_single_active; [done|by apply IH1].
    + intros Hone. eapply queue_step_runs_one; [done|done|by apply IH2].
Qed.
End runs.

(** * The materials of an action *)

Section materials.
Context `{J : Json} `{C : !RouteCodec} `{R : !ReportCodec} `{!Serde (list OrderLane)}.
Context `{!Serde (list OrderRunInputLink)} `{!Serde (list RezkaActivePartialRoll)}.
Context `{!Serde (list ProgressBatchInputLink)} `{!Serde ProductionQrSessionResources}.
Context `{UnicodeCase} (resolver : ApparatusId → pm_result (option RuntimeApparatusConfiguration)).

(** A roll made at the stage before, waiting to be used here. *)
Definition roll_of_previous_stage (order_id : string) (map : ProductionMapDefinition) (apparatus : string)
    (p : QueueProgressInput) (s : order_store) (roll : OrderProgressBatch) : Prop :=
  is_Some (work_stage_for_station map apparatus "") ∧ blank (qp_qr_payload p) = false ∧
  progress_batch_for_qr (qp_progress_batch_id p) (qp_qr_payload p) s = Ok roll ∧
  trim (batch_order_id roll) = order_id ∧ Action.records_progress_output (batch_action roll) = true ∧
  actionable_wip roll = true ∧
  ∃ route, resolve_wip_input_route map roll = Ok route ∧ apparatus ∈ route_consumer_apparatus_ids route.

Lemma actionable_waiting roll : actionable_wip roll = true →
  WipStatus.eqb (batch_wip_status roll) WipStatus.Waiting = true.
Proof. unfold actionable_wip. by destruct (WipStatus.eqb _ _). Qed.

Lemma previous_stage_roll_iff order_id map apparatus p s roll :
  previous_stage_start_progress_batch order_id map apparatus p s = Ok (Some roll) ↔
  roll_of_previous_stage order_id map apparatus p s roll.
Proof.
  unfold previous_stage_start_progress_batch, roll_of_previous_stage.
  destruct (work_stage_for_station map apparatus "") as [stage|];
    cbn [ok_or lift mbind result_bind]; [|split; [done|by intros [[? ?] _]]].
  destruct (blank (qp_qr_payload p)).
  { destruct (previous_work_stage_for_node _ _); split; [done|naive_solver|done|naive_solver]. }
  destruct (progress_batch_for_qr _ _ _) as [found|] eqn:Hf; cbn [mbind result_bind]; [|naive_solver].
  split.
  - intros Hr. inv_run. breflect.
    destruct (resolve_wip_input_route map found) as [route|] eqn:Hroute; [|done]. simplify_eq.
    repeat match goal with H : negb _ = false |- _ => apply negb_false_iff in H end.
    match goal with H : existsb _ _ = true |- _ => apply existsb_elem in H as (consumer & Hin & Hxa) end.
    apply String.eqb_eq in Hxa as ->. split_and!; try done. by eexists.
  - intros (_ & _ & [= ->] & -> & -> & Hact & route & Hroute & Hin). rewrite String.eqb_refl, Hroute. simpl.
    assert (existsb (λ id, id =s apparatus) (route_consumer_apparatus_ids route) = true) as ->.
    { apply existsb_elem. exists apparatus. by rewrite String.eqb_refl. }
    simpl. by rewrite (actionable_waiting _ Hact), Hact.
Qed.

(** A waiting roll of a confirmed intake that feeds the machine. *)
Definition roll_of_intake (order_id : string) (map : ProductionMapDefinition) (apparatus : string)
    (p : QueueProgressInput) (s : order_store) (intake : OpeningWipIntake) (roll : OpeningWipBatch) : Prop :=
  (∃ r, r ∈ opening_wip_records {| owq_order_id := trim order_id; owq_wip_status := None;
                                   owq_limit := Z.to_nat 10000 |} s ∧
     feeds map apparatus (record_intake r) = true ∧
     ∃ b, b ∈ record_batches r ∧ opening_wip_status b = OpeningStatus.Waiting) ∧
  blank (qp_qr_payload p) = false ∧
  opening_wip_batch (trim (qp_progress_batch_id p)) (trim (qp_qr_payload p)) s = Some (intake, roll) ∧
  feeds map apparatus intake = true ∧ trim (intake_order_id intake) = trim order_id ∧
  trim (opening_order_id roll) = trim order_id ∧ opening_wip_status roll = OpeningStatus.Waiting ∧
  (blank (qp_progress_batch_id p) = false → trim (opening_batch_id roll) = trim (qp_progress_batch_id p)) ∧
  eq_ignore_ascii_case (trim (opening_qr_payload roll)) (trim (qp_qr_payload p)) = true.

Lemma opening_roll_iff order_id map apparatus p s intake roll :
  opening_wip_start_batch order_id map apparatus p s = Ok (Some (intake, roll)) ↔
  roll_of_intake order_id map apparatus p s intake roll.
Proof.
  unfold opening_wip_start_batch, roll_of_intake. set (records := opening_wip_records _ s).
  assert (existsb (λ r, feeds map apparatus (record_intake r) &&
      existsb (λ b, bool_decide (opening_wip_status b = OpeningStatus.Waiting)) (record_batches r)) records = true ↔
    ∃ r, r ∈ records ∧ feeds map apparatus (record_intake r) = true ∧
      ∃ b, b ∈ record_batches r ∧ opening_wip_status b = OpeningStatus.Waiting) as <-.
  { rewrite existsb_elem. split.
    - intros (r & Hr & [Hf (b & Hb & Hw%bool_decide_eq_true)%existsb_elem]%andb_true_iff). eauto 6.
    - intros (r & Hr & Hf & b & Hb & Hw). exists r. split; [done|]. apply andb_true_iff. split; [done|].
      apply existsb_elem. exists b. by rewrite bool_decide_eq_true. }
  destruct (existsb _ records); cbn [negb]; [|naive_solver].
  rewrite check_then. destruct (opening_wip_batch _ _ _) as [[i b]|]; [|naive_solver].
  rewrite check_then, !orb_false_iff, !andb_false_iff, !negb_false_iff, bool_decide_eq_true, !String.eqb_eq.
  destruct (blank (qp_progress_batch_id p)); naive_solver.
Qed.

Section check.
Context (request : QueueActionRequest) (id : ApparatusId) (canonical : RuntimeApparatusConfiguration)
  (s : material_store).

(** The roll a laminator starts with, found by its code: nothing else is scanned then. *)
Definition takes_wip_roll : Prop :=
  let p := qr_progress request in
  uses_lamination_workflow canonical = true ∧ blank (qp_qr_payload p) && blank (qp_progress_batch_id p) = false ∧
  ∃ map, raw_map (qr_order_id request) s = Some map ∧
    ((∃ roll, roll_of_previous_stage (qr_order_id request) map (apparatus_id_str id) p s roll) ∨
     previous_stage_start_progress_batch (qr_order_id request) map (apparatus_id_str id) p s ≠ Err Panic ∧
     ∃ intake roll, roll_of_intake (qr_order_id request) map (apparatus_id_str id) p s intake roll).

(** No such roll: another machine, no code, no map, or a code of no waiting roll. *)
Definition takes_no_wip_roll : Prop :=
  let p := qr_progress request in
  uses_lamination_workflow canonical = false ∨ blank (qp_qr_payload p) && blank (qp_progress_batch_id p) = true ∨
  raw_map (qr_order_id request) s = None ∨
  ∃ map, raw_map (qr_order_id request) s = Some map ∧
    previous_stage_start_progress_batch (qr_order_id request) map (apparatus_id_str id) p s ≠ Err Panic ∧
    (∀ roll, ¬ roll_of_previous_stage (qr_order_id request) map (apparatus_id_str id) p s roll) ∧
    (∀ intake roll, ¬ roll_of_intake (qr_order_id request) map (apparatus_id_str id) p s intake roll).

Lemma skip_of_reads {A B} (previous : run_result (option A)) (opening : pm_result (option B)) (skip : bool) :
  (found ← is_none_error previous; if (found : bool) then Ok true else is_none_error (lift opening)) = Ok skip ↔
  if skip then (∃ x, previous = Ok (Some x)) ∨ previous ≠ Err Panic ∧ ∃ y, opening = Ok (Some y)
  else previous ≠ Err Panic ∧ (∀ x, previous ≠ Ok (Some x)) ∧ ∀ y, opening ≠ Ok (Some y).
Proof.
  destruct previous as [[x|]|[|e]]; simpl; [|destruct opening as [[y|]|e']; simpl| |destruct opening as [[y|]|e']; simpl];
    destruct skip; naive_solver.
Qed.

Lemma material_skip_iff (skip : bool) : validated_material_apparatus resolver id = Ok canonical →
  laminatsiya_material_scan_can_be_skipped_for_wip resolver id (qr_order_id request) (qr_progress request) s
    = Ok skip ↔ if skip then takes_wip_roll else takes_no_wip_roll.
Proof.
  intros Hc. unfold laminatsiya_material_scan_can_be_skipped_for_wip, takes_wip_roll, takes_no_wip_roll.
  rewrite Hc. cbn [lift mbind result_bind].
  destruct (uses_lamination_workflow canonical); cbn [negb orb]; [|destruct skip; naive_solver].
  destruct (blank _ && blank _); [destruct skip; naive_solver|].
  destruct (raw_map _ s) as [map|]; [|destruct skip; naive_solver].
  rewrite skip_of_reads. destruct skip.
  - split.
    + intros [[roll Hr%previous_stage_roll_iff]|[Hp [[intake roll] Ho%opening_roll_iff]]];
        (split; [done|]); (split; [done|]); exists map; (split; [done|]); [left|right]; eauto.
    + intros (_ & _ & m & [= <-] & [[roll Hr]|(Hp & intake & roll & Ho)]); [left|right].
      * exists roll. by apply previous_stage_roll_iff.
      * split; [done|]. exists (intake, roll). by apply opening_roll_iff.
  - split.
    + intros (Hp & Hno & Hnone). right. right. right. exists map. split; [done|]. split; [done|]. split.
      * intros roll Hr. by apply (Hno roll), previous_stage_roll_iff.
      * intros intake roll Ho. by apply (Hnone (intake, roll)), opening_roll_iff.
    + intros [?|[?|[?|(m & [= <-] & Hp & Hno & Hnone)]]]; [done..|]. split; [done|]. split.
      * intros roll Hr%previous_stage_roll_iff. by apply (Hno roll).
      * intros [intake roll] Ho%opening_roll_iff. by eapply Hnone.
Qed.

(** What an action other than a resumption of work that gave its materials back needs: nothing. *)
Lemma no_scan_needed apparatus order_id action scanned staged : action ≠ Action.Start →
  validate_material_scan resolver apparatus order_id action scanned staged s = Ok tt.
Proof. intros Ha. unfold validate_material_scan. by rewrite bool_decide_false. Qed.

Lemma no_new_scan apparatus order_id action : action ≠ Action.Resume →
  resume_material_requirements resolver apparatus order_id action s = Ok (false, false).
Proof. intros Ha. unfold resume_material_requirements. by rewrite bool_decide_false. Qed.

Lemma start_of_reads (skip : run_result bool) (scan : pm_result unit) skipped reacquired reused :
  (found ← skip; _ ← (if (found : bool) then Ok tt else lift scan);
   Ok {| mc_skipped := found; mc_reacquired := false; mc_reused := false |}) =
  Ok {| mc_skipped := skipped; mc_reacquired := reacquired; mc_reused := reused |} ↔
  reacquired = false ∧ reused = false ∧ skip = Ok skipped ∧ (skipped = false → scan = Ok tt).
Proof. destruct skip as [[]|], scan as [[]|]; simpl; naive_solver. Qed.

(** C8: The material check of a queue action, one check of the action among
    several, passes in exactly these cases, for an operator assigned to the
    machine. A start by a laminator with the code of a waiting roll of the
    order, made at an earlier stage and routed to this machine or of a confirmed
    opening intake that feeds it, passes without a scan; any other start passes
    when it scanned what the machine needs: nothing where it has no rule or the
    order no materials (which only a machine without requirements, or a
    laminator, allows), else assigned barcodes that cover the rule. A resumption
    that has to acquire its materials again scanned them likewise, and every
    other action needs no scan. *)
Theorem action_materials_are_checked scanned staged c :
  parse_apparatus_id (qr_apparatus request) = Ok id → validated_material_apparatus resolver id = Ok canonical →
  check_action_materials resolver request scanned staged s = Ok c ↔
  assigned_apparatus_contains id (qr_assigned_apparatus request) = true ∧
  let covered := start_scanned canonical
    (raw_material_assignments_for_order_apparatus (qr_order_id request) id s) staged
    (normalized_barcodes_list scanned) in
  match qr_action request with
  | Action.Start =>
      mc_reacquired c = false ∧ mc_reused c = false ∧
      if mc_skipped c then takes_wip_roll else takes_no_wip_roll ∧ covered
  | Action.Resume =>
      mc_skipped c = false ∧
      resume_material_requirements resolver (apparatus_id_str id) (qr_order_id request) Action.Resume s =
        Ok (mc_reacquired c, mc_reused c) ∧
      (mc_reacquired c = true → scanned ≠ [] ∧ covered)
  | _ => c = {| mc_skipped := false; mc_reacquired := false; mc_reused := false |}
  end.
Proof.
  intros Hid Hc. unfold check_action_materials. rewrite Hid. cbn [lift mbind result_bind].
  destruct (assigned_apparatus_contains _ _); cbn [negb check lift mbind result_bind]; [|naive_solver].
  pose proof (λ skip, material_skip_iff skip Hc) as Hskip.
  pose proof (start_scan_exact resolver (qr_apparatus request) (qr_order_id request) scanned staged id canonical s Hid Hc)
    as Hscan.
  destruct c as [skipped reacquired reused]. cbv zeta. cbn [mc_skipped mc_reacquired mc_reused].
  destruct (qr_action request) eqn:Ha;
    try (rewrite no_new_scan by done; cbn [lift check mbind result_bind andb]).
  1: { rewrite bool_decide_true, start_of_reads, Hskip, Hscan by done.
       destruct skipped; naive_solver. }
  4: { rewrite bool_decide_false by done.
       destruct (resume_material_requirements _ _ _ _ _) as [[re us]|]; cbn [lift mbind result_bind];
         [|naive_solver].
       destruct re; cbn [andb].
       - rewrite <-Hscan. destruct scanned as [|b scanned]; [naive_solver|]. cbn [check lift mbind result_bind].
         destruct (validate_material_scan _ _ _ _ _ _ _) as [[]|]; cbn [lift mbind result_bind]; naive_solver.
       - rewrite no_scan_needed by done. cbn [check lift mbind result_bind]. naive_solver. }
  all: rewrite bool_decide_false by done; cbn [lift check mbind result_bind];
    rewrite no_scan_needed by done; cbn [lift mbind result_bind]; naive_solver.
Qed.
End check.
End materials.
