(* ===== verification/Samples.v ===== *)
(** Concrete maps the witnesses evaluate: a printing order with a quantity
    condition in front of its second machine, a map with a cycle, and the
    tables a toolchain without letters outside ASCII would have. *)
From Stdlib Require Import Ascii.
From S2P Require Import Prelude RustStr F64 Errors Identity QueueState OrderLayout MapDefinition Formula Scheduler SchedulerFacts.

Definition ascii_tables : UnicodeTables := {| unicode_alphanumeric := λ _, false |}.

Definition mk_node (id : string) (kind : NodeKind.t) (title apparatus : string)
    (formula : option ProductionFormula) (qty : string) : ProductionMapNode :=
  {| node_id := id; node_kind := kind; node_title := title; node_apparatus_id := apparatus;
     node_formula := formula; node_role_code := ""; node_item_code := "";
     node_qty_formula := qty; node_from_location := ""; node_to_location := "";
     alternative_group_id := ""; alternative_group_label := "";
     alternative_assigned_title := ""; alternative_assigned_apparatus_id := "";
     rezka_kadr_count := None; rezka_frame_groups := []; rezka_label_length := None;
     node_x := f64_zero; node_y := f64_zero |}.

Definition mk_edge (from to branch : string) : ProductionMapEdge :=
  {| edge_from := from; edge_to := to; edge_branch := branch |}.

Definition mk_map (id : string) (nodes : list ProductionMapNode)
    (edges : list ProductionMapEdge) : ProductionMapDefinition :=
  {| map_combo := None; map_products := []; map_id := id; map_product_code := "P-1";
     map_title := "Bag"; map_code := ""; map_order_number := "17"; map_customer_name := "";
     map_image_id := ""; map_roll_count := None; map_width_mm := None;
     map_print_val_size_mm := None; map_order_kg := None; map_base_length := None;
     map_duplicate_rezka_labels := None; map_include_bobina_in_net := None;
     map_standard_print_side := None; map_nodes := nodes; map_edges := edges |}.

Definition sample_nodes : list ProductionMapNode :=
  [mk_node "start" NodeKind.Start "Start" "" None "";
   mk_node "print" NodeKind.Apparatus "Printing" "apparatus:code:flexo-1" None "order_qty * 2";
   mk_node "large" NodeKind.Condition "Waste" ""
     (Some {| formula_target := ""; formula_expression := "waste > 10" |}) "";
   mk_node "cut" NodeKind.Apparatus "Cutting" "apparatus:code:rezka-1" None "";
   mk_node "end" NodeKind.End_ "End" "" None ""].

Definition sample_edges : list ProductionMapEdge :=
  [mk_edge "start" "print" ""; mk_edge "print" "large" "";
   mk_edge "large" "end" "ha"; mk_edge "large" "cut" "no"; mk_edge "cut" "end" ""].

Definition sample_map : ProductionMapDefinition := mk_map "zakaz-17" sample_nodes sample_edges.

Definition cyclic_map : ProductionMapDefinition :=
  mk_map "zakaz-17" sample_nodes (mk_edge "cut" "print" "" :: sample_edges).

(** * A plant for the scheduler

    A small plant for the scheduler: two interchangeable printing machines with
    one slot each, an order routed over both, and the concrete behaviours the
    general theorems leave out. *)

#[local] Open Scope Z_scope.

Definition flexo1 : ApparatusId := mk_ApparatusId "apparatus:code:flexo-1".
Definition flexo2 : ApparatusId := mk_ApparatusId "apparatus:code:flexo-2".
Definition nobody : QueueActionActor :=
  {| actor_role := ""; actor_ref := ""; actor_display_name := "" |}.

(** Monday 08:00 to 17:00. *)
Definition monday : ApparatusWorkingWindow :=
  {| window_weekday := 1; window_start_minute := 480; window_end_minute := 1020 |}.

Definition row (id : ApparatusId) : Provenance :=
  {| row_apparatus_id := id; row_source_revision := 1; row_source_aasx_sha256 := "ab" |}.

Definition machine (windows : list ApparatusWorkingWindow) (id : ApparatusId)
  : RuntimeApparatusConfiguration :=
  {| runtime_row := row id; runtime_display_name := "Flexo";
     runtime_capabilities := [(Capability.Print, 3)]; runtime_lifecycle := LifecycleActive;
     runtime_operation := ExecutionOperation.Print; runtime_technology := ProcessTechnology.Flexographic;
     queue_row := row id; material_row := row id; capacity_row := row id;
     config_capacity_slots := 1; config_setup_minutes := 0; config_cleanup_minutes := 0;
     config_efficiency_percent := 100; config_finite_capacity := true;
     config_working_windows := windows; config_color_station_count := Some 8;
     config_min_web_width_mm := None; config_max_web_width_mm := Some 1200;
     config_capability_compatible_reroute := true; config_equipment_class_id := "equipment-class:printing"; config_virtual_tasks := VirtualTasksDisabled;
     config_discipline := DisciplineStrictSequence;
     config_material_policy := NotRequired [];
     config_tooling := QolipScanRequired "cylinder" |}.

Definition plant (id : ApparatusId) : pm_result (option RuntimeApparatusConfiguration) :=
  Ok (Some (machine [] id)).

Definition two_machines : ProductionMapDefinition :=
  mk_map "zakaz-17"
    [mk_node "start" NodeKind.Start "Start" "" None "";
     mk_node "p1" NodeKind.Apparatus "Flexo 1" "apparatus:code:flexo-1" None "";
     mk_node "p2" NodeKind.Apparatus "Flexo 2" "apparatus:code:flexo-2" None "";
     mk_node "end" NodeKind.End_ "End" "" None ""]
    [mk_edge "start" "p1" ""; mk_edge "p1" "p2" ""; mk_edge "p2" "end" ""].

(** Flexo 1 is down for the first ten minutes. *)
Definition repair : ApparatusDowntime :=
  {| downtime_id := "d1"; downtime_apparatus_id := flexo1; downtime_apparatus := "Flexo";
     downtime_starts_at_unix := 600; downtime_ends_at_unix := 1200; downtime_reason := "repair";
     downtime_active := true; downtime_actor := nobody; downtime_created_at_unix := 1 |}.

Definition plant_store : capacity_store :=
  {| store_maps := [two_machines]; store_downtimes := {["d1" := repair]};
     store_reservations := ∅; store_sessions := [] |}.

Definition request (candidates : list ApparatusScheduleCandidate) (earliest duration : Z)
  : ApparatusScheduleRequest :=
  {| request_order_id := "zakaz-17"; request_apparatus_id := "apparatus:code:flexo-1";
     request_apparatus := ""; earliest_start_unix := earliest; latest_end_unix := None;
     duration_minutes := duration; request_priority := 0; request_source := "";
     request_reason := ""; request_idempotency_key := "k1";
     capability_requirements := [{| requirement_code := "print"; requirement_min_level := 2 |}];
     candidate_apparatuses := candidates; request_actor := nobody |}.

Definition alternative : ApparatusScheduleCandidate :=
  {| candidate_apparatus_id := flexo2; candidate_apparatus := "" |}.

Definition profile_of (windows : list ApparatusWorkingWindow) : ApparatusCapacityProfile :=
  {| profile_apparatus_id := flexo1; profile_apparatus := "Flexo"; profile_capacity_slots := 1;
     profile_setup_minutes := 0; profile_cleanup_minutes := 0; profile_efficiency_percent := 100;
     profile_finite_capacity := true; profile_working_windows := windows;
     profile_capabilities := []; profile_capability_levels := ∅; profile_notes := "";
     profile_updated_at_unix := 0 |}.

Definition start_of {A} (r : run_result (A * ApparatusScheduleReservation)) : option Z :=
  match r with Ok (_, r) => Some (reservation_starts_at_unix r) | Err _ => None end.

Definition retry (r : run_result (capacity_store * ApparatusScheduleReservation))
    (input : ApparatusScheduleRequest)
  : option (result fault ApparatusScheduleReservation) :=
  match r with
  | Ok (store, _) =>
      Some (snd <$> schedule_apparatus_order (H := utc_clock) plant 0 store input)
  | Err _ => None
  end.

(** Booked on the requested machine, after its repair. *)
Example books_after_repair :
  start_of (schedule_apparatus_order (H := utc_clock) plant 0 plant_store (request [] 600 30))
  = Some 1200.
Proof. by vm_compute. Qed.

(** A request that was served by a candidate apparatus cannot be retried:
    the repeated request is answered with ScheduleIdempotencyConflict. *)
Theorem retry_on_alternative_conflicts :
  start_of (schedule_apparatus_order (H := utc_clock) plant 0 plant_store
              (request [alternative] 600 30)) = Some 600 ∧
  retry (schedule_apparatus_order (H := utc_clock) plant 0 plant_store
           (request [alternative] 600 30)) (request [alternative] 600 30)
  = Some (Err (Fail ScheduleIdempotencyConflict)).
Proof. by vm_compute. Qed.

(** Only the weekdays of the first and last second are compared: work of a
    week and an hour, which the request check accepts, is booked on a machine
    that is open nine hours a week and runs through its closed hours. *)
Theorem week_long_work_leaves_its_window :
  is_ok (normalize_schedule_request (request [] 374400 10140)) = true ∧
  find_schedule_slot (H := utc_clock) (profile_of [monday]) (request [] 374400 10140)
    flexo1 10140 [] [] = Ok (374400, 982800) ∧
  ∃ t, 374400 ≤ t < 982800 ∧ iso_weekday t ≠ window_weekday monday.
Proof.
  split; [by vm_compute|]. split; [by vm_compute|]. exists 500000. split; [lia|by vm_compute].
Qed.

(** The start of a request is not bounded above: rounding the largest one up
    to a whole minute overflows. *)
Theorem far_future_start_overflows :
  is_ok (normalize_schedule_request (request [] i64_MAX 30)) = true ∧
  find_schedule_slot (H := utc_clock) (profile_of []) (request [] i64_MAX 30) flexo1 30 [] []
  = Err Panic.
Proof. by vm_compute. Qed.

Definition booking (id order : string) (status : ScheduleStatus.t) : ApparatusScheduleReservation :=
  {| reservation_id := id; reservation_idempotency_key := id; reservation_order_id := order;
     reservation_apparatus_id := flexo1; reservation_apparatus := "Flexo";
     reservation_starts_at_unix := 600; reservation_ends_at_unix := 1200;
     requested_duration_minutes := 10; reserved_duration_minutes := 10;
     reservation_status := status; reservation_priority := 0; reservation_source := "";
     reservation_reason := ""; reservation_requirements := []; reservation_actor := nobody;
     reservation_created_at_unix := 0 |}.

Definition one_slot (_ : ApparatusId) : Z := 1.

(** The first order is booked, started and paused, the second booked into the
    freed slot, and the first resumed. *)
Definition resume_history : pm_result reservation_table :=
  '(t, _) ← put_reservation ∅ (booking "r1" "o1" ScheduleStatus.Planned) 1 true;
  t ← update_reservation_status t "o1" flexo1 ScheduleStatus.Active nobody;
  t ← update_reservation_status t "o1" flexo1 ScheduleStatus.Paused nobody;
  '(t, _) ← put_reservation t (booking "r2" "o2" ScheduleStatus.Planned) 1 true;
  update_reservation_status t "o1" flexo1 ScheduleStatus.Active nobody.

(** Resuming is the one change that may overbook. *)
Theorem resuming_may_overbook :
  (λ t, load t flexo1 900) <$> resume_history = Ok 2%nat.
Proof. by vm_compute. Qed.

(** * Witnesses *)

Lemma slot_search_finds_earliest_witness :
  match find_schedule_slot (H := utc_clock) (profile_of [monday]) (request [] 374400 30)
          flexo1 30 [repair] [] with
  | Ok (s, e) =>
      slot_ok (H := utc_clock) (profile_of [monday]) (request [] 374400 30) flexo1 30 [repair] [] s ∧
      e = s + 30 * 60 ∧
      ∀ s', slot_ok (H := utc_clock) (profile_of [monday]) (request [] 374400 30) flexo1 30
              [repair] [] s' → s ≤ s'
  | Err f =>
      f = Fail CapacityNoWorkingWindow ∧
      ∀ s', ¬ slot_ok (H := utc_clock) (profile_of [monday]) (request [] 374400 30) flexo1 30
                [repair] [] s'
  end.
Proof.
  apply (slot_search_finds_earliest (profile_of [monday]) (request [] 374400 30) flexo1 30
           [repair] []); [by vm_compute|split; by vm_compute].
Defined.

Lemma fitting_work_stays_inside_a_window_witness :
  ∃ w, w ∈ profile_working_windows (profile_of [monday]) ∧
    ∀ t, 374400 ≤ t < 376200 →
      iso_weekday t = window_weekday w ∧
      window_start_minute w ≤ day_minute t < window_end_minute w.
Proof.
  apply (fitting_work_stays_inside_a_window (C := utc_clock) (profile_of [monday]) 374400 376200);
    [lia|by vm_compute|by vm_compute|done|by vm_compute].
Defined.

Definition booked_table : reservation_table :=
  {["r1" := booking "r1" "o1" ScheduleStatus.Planned]}.

Lemma table_never_overbooked_witness :
  load booked_table flexo1 900 = 1%nat ∧
  ∀ id t, Z.of_nat (load booked_table id t) ≤ one_slot id.
Proof.
  split; [by vm_compute|].
  apply (table_never_overbooked one_slot booked_table); [unfold one_slot; lia|].
  apply rtc_once. eapply (step_put one_slot _ (booking "r1" "o1" ScheduleStatus.Planned)).
  by vm_compute.
Defined.

Lemma schedule_retry_is_idempotent_witness :
  ∃ store' r,
    schedule_apparatus_order (H := utc_clock) plant 0 plant_store (request [] 600 30)
      = Ok (store', r) ∧
    schedule_apparatus_order (H := utc_clock) plant 7 store' (request [] 600 30) = Ok (store', r).
Proof.
  eexists _, _. split; [vm_compute; reflexivity|].
  apply (schedule_retry_is_idempotent (H := utc_clock) plant 0 7 plant_store (request [] 600 30)
           _ _ flexo1); vm_compute; reflexivity.
Defined.

Lemma schedule_books_best_slot_witness :
  ∃ store' r,
    schedule_apparatus_order (H := utc_clock) plant 0 plant_store (request [alternative] 600 30)
      = Ok (store', r) ∧
    store' = with_reservations plant_store (<[reservation_id r := r]> ∅).
Proof.
  eexists _, _. split; [vm_compute; reflexivity|].
  edestruct (schedule_books_best_slot (H := utc_clock) plant 0 plant_store
    (request [alternative] 600 30)) as (input' & id & map & profile & k & chosen & H); cycle 2.
  - cbv zeta in H. apply H.
  - vm_compute; reflexivity.
  - vm_compute; reflexivity.
Defined.

(** Another order is running on flexo 1, so its one slot is taken. *)
Definition busy : gmap string (gmap string string) :=
  {["apparatus:code:flexo-1" := {["zakaz-9" := "in_progress"]}]}.

Example busy_machine_refuses :
  ensure_apparatus_execution_capacity (H := utc_clock) plant 1500 plant_store
    "apparatus:code:flexo-1" "zakaz-17" busy = Err (Fail CapacityConflict) ∧
  ensure_apparatus_execution_capacity (H := utc_clock) plant 1500 plant_store
    "apparatus:code:flexo-1" "zakaz-9" busy = Ok tt.
Proof. by vm_compute. Qed.

Lemma execution_capacity_is_exact_witness :
  ∃ profile, canonical_capacity_profile_for plant 1500 flexo1 = Ok profile ∧
  ∃ occupied : gset string,
    (∀ x, x ∈ occupied ↔ occupies 1500 flexo1 (trim "zakaz-17") plant_store busy x) ∧
    (ensure_apparatus_execution_capacity (H := utc_clock) plant 1500 plant_store
       "apparatus:code:flexo-1" "zakaz-17" busy = Ok tt ↔
     ¬ in_downtime 1500 flexo1 plant_store ∧
     fits_working_window (H := utc_clock) profile 1500 (1500 + 60) = true ∧
     (profile_finite_capacity profile = true →
      Z.of_nat (size occupied) < profile_capacity_slots profile)).
Proof.
  eexists. split; [vm_compute; reflexivity|].
  apply (execution_capacity_is_exact (H := utc_clock) plant 1500 plant_store
           "apparatus:code:flexo-1" "zakaz-17" busy flexo1).
  - vm_compute; reflexivity.
  - vm_compute; reflexivity.
  - intros a [s Hs]. unfold busy in Hs. apply lookup_singleton_Some in Hs as [<- _].
    vm_compute. eauto.
  - lia.
  - vm_compute. discriminate.
Defined.
