(* ===== verification/Witnesses.v ===== *)
(** Concrete instances of the theorems that have hypotheses: the hypotheses are
    satisfiable, and what the theorems say of the sample inputs. *)
From Stdlib Require Import Ascii.
From S2P Require Import Prelude RustStr F64 Errors Identity QueueState QueueFacts OrderLayout MapDefinition Formula FormulaFacts Compiler GraphFacts CompilerFacts Runner RunnerFacts Bfs Chain ChainFacts SequenceMove SequenceFacts Samples.

#[local] Existing Instance ascii_tables.

(** Decide a closed proposition by evaluation. *)
Ltac by_decide := refine (bool_decide_unpack _ _); vm_compute; exact I.

(** * Compiler and runner *)

Lemma sample_forward : edges_forward sample_map ["start"; "print"; "large"; "cut"; "end"].
Proof.
  intros u v (e & He & <- & <-). simpl in He. unfold sample_edges in He.
  repeat (apply elem_of_cons in He as [->|He]; [|try (by apply elem_of_nil in He)]); simpl.
  - exists 0, 1. split_and!; [done..|lia].
  - exists 1, 2. split_and!; [done..|lia].
  - exists 2, 4. split_and!; [done..|lia].
  - exists 2, 3. split_and!; [done..|lia].
  - exists 3, 4. split_and!; [done..|lia].
Qed.

Lemma sample_acyclic : acyclic sample_map.
Proof.
  eapply edges_forward_acyclic; [|exact sample_forward].
  by_decide.
Qed.

Lemma sample_ascii : ascii_conditions sample_map.
Proof.
  intros n f Hn Hf. simpl in Hn. unfold sample_nodes in Hn.
  repeat (apply elem_of_cons in Hn as [->|Hn]; [simpl in Hf|try (by apply elem_of_nil in Hn)]);
    simplify_eq; done.
Qed.

Lemma cyclic_not_acyclic : ¬ acyclic cyclic_map.
Proof.
  intros Ha. apply (Ha "print").
  apply (tc_l _ _ "large"); [by exists (mk_edge "print" "large" ""); set_solver|].
  apply (tc_l _ _ "cut"); [by exists (mk_edge "large" "cut" "no"); set_solver|].
  apply tc_once. by exists (mk_edge "cut" "print" ""); set_solver.
Qed.

Lemma compile_accepts_exactly_acyclic_witness :
  (∃ p, compile_map sample_map = Ok p ∧
     (op_node_id <$> program_operations p) ≡ₚ node_ids sample_map ∧
     edges_forward sample_map (op_node_id <$> program_operations p) ∧
     op_order <$> program_operations p = [1; 2; 3; 4; 5]) ∧
  compile_map cyclic_map = Err (Fail Cycle).
Proof.
  split.
  - apply (compile_accepts_exactly_acyclic sample_map); [by vm_compute|exact sample_acyclic].
  - apply (compile_accepts_exactly_acyclic cyclic_map); [by vm_compute|exact cyclic_not_acyclic].
Defined.

Lemma compile_never_panics_witness :
  is_ok (compile_map sample_map) = true ∧ compile_map sample_map ≠ Err Panic.
Proof.
  split; [by vm_compute|]. apply (compile_never_panics sample_map). exact sample_ascii. Defined.

Lemma validated_map_is_well_formed_witness :
  NoDup (node_ids sample_map) ∧ count_kind NodeKind.Start (map_nodes sample_map) = 1.
Proof.
  destruct (validated_map_is_well_formed sample_map) as (H1 & _ & H2 & _); [by vm_compute|].
  exact (conj H1 H2).
Defined.

Lemma run_is_a_walk_witness :
  ∃ r start, run_map_with_variables sample_map (f64_of_Z 5) {["waste" := f64_of_Z 3]} = Ok r ∧
    start_node sample_map = Some start ∧ run_ok sample_map (Some (node_id start)) r.
Proof.
  destruct (run_map_with_variables sample_map (f64_of_Z 5) {["waste" := f64_of_Z 3]})
    as [r|] eqn:Hr; [|by vm_compute in Hr].
  destruct (run_is_a_walk sample_map (f64_of_Z 5) {["waste" := f64_of_Z 3]} r Hr)
    as (start & Hs & Hok).
  exists r, start. exact (conj eq_refl (conj Hs Hok)).
Defined.

Lemma run_fails_on_data_only_witness :
  (∃ r, run_map_with_variables sample_map (f64_of_Z 5) ∅ = Ok r) ∨
  (∃ e, run_map_with_variables sample_map (f64_of_Z 5) ∅ = Err (Fail e) ∧ run_error sample_map e).
Proof.
  destruct (compile_map sample_map) as [p|] eqn:Hp; [|by vm_compute in Hp].
  apply (run_fails_on_data_only sample_map (f64_of_Z 5) ∅ p);
    [exact sample_ascii|exact Hp|by vm_compute].
Defined.

Lemma run_resumes_witness :
  ∃ r r', run_map_with_variables sample_map (f64_of_Z 5) ∅ = Ok r ∧
    run_map_with_variables sample_map (f64_of_Z 5) {["waste" := f64_of_Z 3]} = Ok r' ∧
    run_visited_node_ids r = ["start"; "print"; "large"] ∧
    run_visited_node_ids r `prefix_of` run_visited_node_ids r'.
Proof.
  destruct (run_map_with_variables sample_map (f64_of_Z 5) ∅) as [r|] eqn:Hr;
    [|by vm_compute in Hr].
  destruct (run_map_with_variables sample_map (f64_of_Z 5) {["waste" := f64_of_Z 3]})
    as [r'|] eqn:Hr'; [|by vm_compute in Hr'].
  exists r, r'. split; [done|]. split; [done|]. split.
  - vm_compute in Hr. by injection Hr as <-.
  - apply (run_resumes sample_map (f64_of_Z 5) ∅ {["waste" := f64_of_Z 3]} r r');
      [apply map_empty_subseteq|exact Hr|exact Hr'].
Defined.

(** * Formulas *)

Lemma evaluated_formula_is_valid_witness :
  validate_formula_expression "(a + 2) * -3" = Ok tt.
Proof.
  destruct (evaluate_formula "(a + 2) * -3" {["a" := f64_of_Z 4]}) as [v|] eqn:Hv;
    [|by vm_compute in Hv].
  exact (evaluated_formula_is_valid "(a + 2) * -3" {["a" := f64_of_Z 4]} v Hv).
Defined.

Lemma valid_formula_evaluates_witness :
  (∃ v, evaluate_formula "a / b" ∅ = Ok v) ∨
  (∃ x, evaluate_formula "a / b" ∅ = Err (UnknownFormulaVariable x) ∧
        (∅ : variables) !! x = None ∧ is_identifier x = true) ∨
  evaluate_formula "a / b" ∅ = Err FormulaDivisionByZero.
Proof. apply (valid_formula_evaluates "a / b" ∅). by vm_compute. Defined.

Lemma ascii_condition_no_panic_witness :
  evaluate_condition "order_qty >= 10" ∅ ≠ Err Panic ∧
  validate_condition_expression "order_qty >= 10" ≠ Err Panic.
Proof. apply (ascii_condition_no_panic "order_qty >= 10" ∅). by vm_compute. Defined.

(** * Queue *)

Definition idle : queue_states := ∅.
Definition running : queue_states := {["o1" := OrderState.InProgress]}.

Lemma idle_single : single_active idle.
Proof. intros k1 k2 H. by vm_compute in H. Qed.

Lemma strict_claim_is_next_witness :
  (∀ x, x ∈ named ["o1"; "o2"] → OrderState.is_active (state_of idle x) = false) ∧
  ∃ before after, named ["o1"; "o2"] = before ++ trim "o1" :: after ∧
    ∀ x, x ∈ before →
      state_of idle x = OrderState.Completed ∨ state_of idle x = OrderState.Frozen.
Proof.
  apply (strict_claim_is_next ["o1"; "o2"] idle "o1" Action.Start running); by vm_compute.
Defined.

Lemma strict_queue_live_witness :
  ∃ a s', apply_queue_action ["o1"; "o2"] idle "o1" a = Ok s'.
Proof.
  apply (strict_queue_live ["o1"; "o2"] idle "o1");
    [by vm_compute|intros k Hk; by vm_compute in Hk|exact idle_single].
Defined.

Definition offer : QueueActionPolicyInput :=
  {| input_state := OrderState.Pending;
     input_profile := Live OrderControl.Active false false; requeued_session := false;
     pending_actionable := true; queue_actionable := true; start_ready := true |}.

Lemma offered_action_executes_witness :
  ∃ s', apply_queue_action ["o1"; "o2"] idle "o1" Action.Start = Ok s'.
Proof.
  apply (offered_action_executes offer Action.Start ["o1"; "o2"] idle "o1");
    [by_decide|by vm_compute|by vm_compute|done
    |by_decide|by vm_compute|intros _; by vm_compute].
Defined.

Lemma requeued_resume_strict_witness : single_active running.
Proof.
  apply (requeued_resume_strict ["o1"; "o2"] idle "o1" running);
    [by vm_compute|intros k Hk; by vm_compute in Hk].
Defined.

(** * Chain *)

Lemma reachable_is_exact_witness :
  NoDup (reachable_node_ids sample_map) ∧
  ∀ id, id ∈ reachable_node_ids sample_map ↔
    id ∈ node_ids sample_map ∧ reaches (route_successors sample_map) "start" id.
Proof.
  apply (reachable_is_exact sample_map (mk_node "start" NodeKind.Start "Start" "" None "")).
  by vm_compute.
Defined.

Lemma sample_plain : plain_map sample_map.
Proof.
  split.
  - apply validate_map_valid. by vm_compute.
  - intros n Hn. simpl in Hn. unfold sample_nodes in Hn.
    repeat (apply elem_of_cons in Hn as [->|Hn]; [by vm_compute|try (by apply elem_of_nil in Hn)]).
  - intros n Hn. simpl in Hn. unfold sample_nodes in Hn.
    repeat (apply elem_of_cons in Hn as [->|Hn]; [by vm_compute|try (by apply elem_of_nil in Hn)]).
Qed.

Definition print_stage : ChainStage :=
  {| stage_node_id := "print"; stage_apparatus_id := Some "apparatus:code:flexo-1";
     stage_station_title := "Printing" |}.
Definition cut_stage : ChainStage :=
  {| stage_node_id := "cut"; stage_apparatus_id := Some "apparatus:code:rezka-1";
     stage_station_title := "Cutting" |}.

Lemma sample_stages : linear_work_stages sample_map = [print_stage; cut_stage].
Proof. by vm_compute. Qed.

Lemma next_and_previous_are_converse_witness :
  cut_stage ∈ next_work_stages_for_node sample_map "print" ↔
  print_stage ∈ previous_work_stages_for_node sample_map "cut".
Proof.
  apply (next_and_previous_are_converse sample_map print_stage cut_stage);
    [exact sample_plain|rewrite sample_stages; set_solver|by eexists
    |rewrite sample_stages; set_solver|by eexists].
Defined.

(** * Sequences *)

Lemma string_list_trimmed l : forallb (λ x, trim x =s x) l = true → trimmed l.
Proof. intros H x Hx. rewrite forallb_elem in H. by apply String.eqb_eq, H. Qed.

Definition busy : gmap string string := {["a" := "in_progress"]}.

Lemma barrier_is_exact_witness :
  validate_active_sequence_barrier ["a"; "b"; "c"] ["a"; "c"; "b"] busy ∅ = Ok tt ↔
  ∀ a, protected busy ∅ a → not_overtaken ["a"; "b"; "c"] ["a"; "c"; "b"] a.
Proof.
  apply (barrier_is_exact ["a"; "b"; "c"] ["a"; "c"; "b"] busy ∅);
    [by apply string_list_trimmed|by_decide
    |by apply string_list_trimmed|by_decide].
Defined.

Lemma nearest_slot_is_nearest_witness :
  ∃ target, asks_for ["a"; "b"; "c"] 2 ["c"; "a"; "b"] 0 target ∧
  match nearest_allowed_sequence ["a"; "b"; "c"] ["c"; "a"; "b"] "c" busy ∅ with
  | Ok c => ∃ i, i ≤ length (delete 2 ["a"; "b"; "c"]) ∧
      c = insert_at i "c" (delete 2 ["a"; "b"; "c"]) ∧ allowed ["a"; "b"; "c"] "c" 2 busy ∅ i ∧
      ∀ j, j ≤ length (delete 2 ["a"; "b"; "c"]) → allowed ["a"; "b"; "c"] "c" 2 busy ∅ j →
        slot_le target 2 i j
  | Err f => f = Fail QueueActionNotAllowed ∧ ∃ a, protected busy ∅ a ∧ a ∉ ["a"; "b"; "c"]
  end.
Proof.
  apply (nearest_slot_is_nearest ["a"; "b"; "c"] ["c"; "a"; "b"] "c" busy ∅ 2 0);
    [by apply string_list_trimmed|by_decide|done
    |by_decide|set_solver|done].
Defined.

(** The version of a state in the examples: its first order. *)
Definition sample_version : VersionHash :=
  {| version st :=
       "0123456789abcdef0123456789abcdef0123456789abcdef0123456789abcde" +:+
       match seq_order_ids st with "a" :: _ => "a" | _ => "0" end |}.
#[local] Existing Instance sample_version.

Definition sample_state : SequenceMoveState :=
  from_visible "apparatus:code:flexo-1" ["c"; "b"; "a"] [] busy ∅ ∅.

Definition sample_move (expected : string) : SequenceMove :=
  {| move_apparatus := "apparatus:code:flexo-1"; move_order_id := "c";
     move_before_order_id := Some "a"; move_after_order_id := None;
     move_expected_version := expected; move_idempotency_key := "k" |}.

Lemma move_is_sound_witness :
  ∃ r, apply_move sample_state (sample_move (version sample_state)) = Ok r ∧
    result_order_ids r = ["a"; "c"; "b"] ∧ result_order_ids r ≡ₚ seq_order_ids sample_state.
Proof.
  destruct (apply_move sample_state (sample_move (version sample_state))) as [r|] eqn:Hr;
    [|by vm_compute in Hr].
  exists r. split; [done|]. split; [vm_compute in Hr; by injection Hr as <-|].
  apply (move_is_sound sample_state (sample_move (version sample_state)) r);
    [apply from_visible_wf|exact Hr].
Defined.

Lemma move_is_never_blocked_witness :
  apply_move sample_state (sample_move (version sample_state +:+ "x")) = Err (Fail QueueReorderInvalid) ∧
  (Fail QueueReorderInvalid = Fail QueueReorderInvalid ∨
   Fail QueueReorderInvalid = Fail QueueReorderFrozen ∨
   Fail QueueReorderInvalid = Fail QueueReorderConflict).
Proof.
  split; [by vm_compute|].
  apply (move_is_never_blocked "apparatus:code:flexo-1" ["c"; "b"; "a"] [] busy ∅ ∅
           (sample_move (version sample_state +:+ "x"))).
  by vm_compute.
Defined.

(** * Layout *)

Definition two_products : list OrderProduct :=
  [{| product_id := "p1"; product_item_code := "I1"; product_product := "Bag";
      frame_product_size_mm := f64_of_Z 300; product_frame_count := 2 |};
   {| product_id := "p2"; product_item_code := "I2"; product_product := "Film";
      frame_product_size_mm := f64_of_Z 200; product_frame_count := 1 |}].

Lemma validated_lanes_are_distinct_witness :
  NoDup (lane_id <$> lanes two_products "o1" "17") ∧
  Z.of_nat (length (lanes two_products "o1" "17")) = frame_count two_products ∧
  (frame_count two_products ≤ 1024)%Z.
Proof. apply (validated_lanes_are_distinct two_products "o1" "17"). by vm_compute. Defined.
