(* ===== verification/CodecSamples.v ===== *)
(** Concrete codecs and a concrete receipt store, so that the theorems about
    code that calls [serde_json], SHA-256 and the receipt port can be evaluated:
    JSON trees with a lossless serialization of route classes, a codec of stage
    work reports, and a store of receipt drafts keyed by barcode. *)
From stdpp Require Import countable pretty.
From S2P Require Import Prelude RustStr F64 Json Errors Identity QueueState OrderLayout MapDefinition Formula Compiler Bfs Chain Projection Scheduler Progress WipRoute Lifecycle StageExecution Epc Receipts.

(** * Trees are countable *)

Definition f64_encoding : Type := bool * option (bool * option (positive * Z)).
Definition f64_enc (x : f64) : f64_encoding :=
  match x with
  | SpecFloat.S754_zero s => (s, None)
  | SpecFloat.S754_infinity s => (s, Some (true, None))
  | SpecFloat.S754_nan => (true, Some (false, None))
  | SpecFloat.S754_finite s m e => (s, Some (true, Some (m, e)))
  end.
#[global] Instance f64_enc_inj : Inj (=) (=) f64_enc.
Proof. intros [] []; simpl; congruence. Qed.

Definition leaf : Type := unit + (bool + (Z + (f64_encoding + string))).

Fixpoint tree_enc (t : tree) : gen_tree leaf :=
  match t with
  | TNull => GenLeaf (inl ())
  | TBool b => GenLeaf (inr (inl b))
  | TNum n => GenLeaf (inr (inr (inl n)))
  | TFloat x => GenLeaf (inr (inr (inr (inl (f64_enc x)))))
  | TStr s => GenLeaf (inr (inr (inr (inr s))))
  | TArr l => GenNode 0 (List.map tree_enc l)
  | TObj fields =>
      GenNode 1 (List.map (λ kv, GenNode 2 [GenLeaf (inr (inr (inr (inr kv.1)))); tree_enc kv.2]) fields)
  end.

(** Induction on trees through the lists of their children. *)
Section tree_ind.
Context (P : tree → Prop).
Hypothesis P_leaf : ∀ t, (∀ l, t ≠ TArr l) → (∀ l, t ≠ TObj l) → P t.
Hypothesis P_arr : ∀ l, Forall P l → P (TArr l).
Hypothesis P_obj : ∀ l, Forall (λ kv, P kv.2) l → P (TObj l).
Fixpoint tree_ind' (t : tree) : P t.
Proof.
  destruct t as [| | | | |l|l].
  1-5: by apply P_leaf.
  - apply P_arr. induction l as [|x l IH]; constructor; [apply tree_ind'|exact IH].
  - apply P_obj. induction l as [|[k x] l IH]; constructor; [apply tree_ind'|exact IH].
Defined.
End tree_ind.

#[global] Instance tree_enc_inj : Inj (=) (=) tree_enc.
Proof.
  intros t. induction t as [t Ha Ho|l IH|l IH] using tree_ind'; intros t'.
  - destruct t, t'; simpl; intros [=]; try done; try (by exfalso; eauto); try congruence.
    f_equal. by apply (inj f64_enc).
  - destruct t'; try done. simpl. intros [= Hl]. f_equal. revert l0 Hl.
    induction IH as [|x l Hx _ IH]; intros [|y l'] Hl; simplify_eq/=; [done|].
    f_equal; [by apply Hx|by apply IH].
  - destruct t'; try done. simpl. intros [= Hl]. f_equal. revert fields Hl.
    induction IH as [|[k x] l Hx _ IH]; intros [|[k' y] l'] Hl; simplify_eq/=; [done|].
    f_equal; [f_equal; by apply Hx|by apply IH].
Qed.

#[global] Instance tree_eq_dec : EqDecision tree.
Proof.
  intros t t'. destruct (decide (tree_enc t = tree_enc t')) as [H|H]; [left|right].
  - by apply (inj tree_enc).
  - by intros ->.
Defined.

(** * Route classes *)

#[global] Instance wip_status_countable : Countable WipStatus.t.
Proof.
  refine (inj_countable' WipStatus.as_str (λ s, default WipStatus.Waiting (WipStatus.parse s)) _).
  by intros [].
Defined.

Definition key_tuple (k : RouteKey (J := json_tree)) :=
  ((key_order_id k, key_records_output k, WipStatus.as_str (key_wip_status k), key_apparatus k,
    key_next_apparatus k, key_current_apparatus k, key_used_by_apparatus k),
   (key_used k, key_processed_by_apparatus k, key_processed k, key_stage_node_id k,
    key_next_stage_node_id k, key_has_binding k, tree_enc <$> key_binding k)).

Lemma key_tuple_inj k k' : key_tuple k = key_tuple k' → k = k'.
Proof.
  destruct k, k'. unfold key_tuple. simpl. intros [=]. subst.
  assert (key_wip_status = key_wip_status0) as -> by (by destruct key_wip_status, key_wip_status0).
  f_equal. by apply (inj (fmap tree_enc)).
Qed.

Definition tree_Z (t : option tree) : Z := match t with Some (TNum n) => n | _ => 0 end.
Definition tree_text (t : option tree) : string := match t with Some (TStr s) => s | _ => "" end.
Definition tree_flag (t : option tree) : bool := match t with Some (TBool b) => b | _ => false end.
Definition tree_texts (t : option tree) : list string :=
  match t with Some (TArr l) => omap (λ x, match x with TStr s => Some s | _ => None end) l | _ => [] end.

(** A route binding is an object with the fields of the route; the digest of a
    map is its id. *)
Definition tree_route (v : tree) : option WipInputRoute :=
    match v with
    | TObj l => Some {|
        route_source_stage_node_id := tree_text (fields_get "source_stage_node_id" l);
        route_stage_node_id := tree_text (fields_get "stage_node_id" l);
        route_consumer_apparatus_ids := tree_texts (fields_get "consumer_apparatus_ids" l);
        route_map_fingerprint := tree_text (fields_get "map_fingerprint" l);
        route_remapped := tree_flag (fields_get "remapped" l) |}
    | _ => None
    end.
#[global] Instance tree_routes : RouteCodec (J := json_tree) :=
  @Build_RouteCodec json_tree tree_route (λ k, [pretty (Npos (encode (key_tuple k)))]) map_id.

#[global] Instance tree_routes_laws : RouteCodecLaws tree_routes.
Proof.
  split. intros k1 k2. simpl. rewrite !append_nil_r. intros H.
  apply (inj pretty) in H. injection H as H. by apply (inj encode), key_tuple_inj in H.
Qed.

(** * Reports *)

Definition tree_report (v : tree) : option StageWorkReport :=
    match v with
    | TObj l => Some {|
        report_id := tree_text (fields_get "report_id" l);
        report_sequence := tree_Z (fields_get "sequence" l);
        report_submitted_at_unix := tree_Z (fields_get "submitted_at_unix" l);
        report_worker_ref := tree_text (fields_get "worker_ref" l);
        report_worker_role := tree_text (fields_get "worker_role" l);
        report_worker_display_name := tree_text (fields_get "worker_display_name" l) |}
    | _ => None
    end.
Definition report_tree (r : StageWorkReport) : tree := TObj
    [("report_id", TStr (report_id r)); ("sequence", TNum (report_sequence r));
     ("submitted_at_unix", TNum (report_submitted_at_unix r));
     ("worker_ref", TStr (report_worker_ref r)); ("worker_role", TStr (report_worker_role r));
     ("worker_display_name", TStr (report_worker_display_name r))].
#[global] Instance tree_reports : ReportCodec (J := json_tree) :=
  @Build_ReportCodec json_tree tree_report report_tree.

#[global] Instance tree_reports_laws : ReportCodecLaws tree_reports.
Proof. split. by intros []. Qed.

(** * A receipt store: drafts by barcode, with whether they were submitted *)

Abbreviation receipts := (gmap string (CreateMaterialReceiptDraftInput (J := json_tree) * bool)).

Definition draft_of (barcode : string) (input : CreateMaterialReceiptDraftInput (J := json_tree))
  : MaterialReceiptDraft (J := json_tree) := {|
  draft_order_assignment := create_order_assignment input;
  draft_name := barcode;
  draft_item_code := create_item_code input;
  draft_warehouse := create_warehouse input;
  draft_qty := create_qty input;
  draft_uom := "kg";
  draft_barcode := barcode;
  draft_width_mm := create_width_mm input;
  draft_micron := create_micron input;
  draft_length_m := create_length_m input |}.

Definition stock_of (barcode : string) (input : CreateMaterialReceiptDraftInput (J := json_tree))
  : RawMaterialStockEntry := {|
  stock_id := barcode;
  stock_warehouse := create_warehouse input;
  stock_item_code := create_item_code input;
  stock_item_name := create_item_name input;
  stock_barcode := barcode;
  stock_qty := create_qty input;
  stock_uom := "kg";
  stock_status := "in_stock";
  stock_reserved_order_id := "";
  stock_source_receipt_id := barcode;
  stock_width_mm := create_width_mm input;
  stock_micron := create_micron input;
  stock_length_m := create_length_m input |}.

Definition receipts_create (input : CreateMaterialReceiptDraftInput (J := json_tree)) (s : receipts)
  : receipts * result GscalePortError (MaterialReceiptDraft (J := json_tree)) :=
  match s !! create_barcode input with
  | Some _ => (s, Err (PortStoreWrite "duplicate barcode"))
  | None => (<[create_barcode input := (input, false)]> s, Ok (draft_of (create_barcode input) input))
  end.
Definition receipts_find (barcode : string) (s : receipts)
  : result GscalePortError (option (MaterialReceiptDraft (J := json_tree))) :=
  Ok ((λ e : _ * bool, draft_of barcode e.1) <$> s !! barcode).
Definition receipts_stock (barcode : string) (s : receipts)
  : result GscalePortError (option RawMaterialStockEntry) :=
  Ok (e ← s !! barcode; if e.2 : bool then Some (stock_of barcode e.1) else None).
Definition receipts_submit (name : string) (s : receipts) : receipts * result GscalePortError unit :=
  match s !! name with
  | Some (input, _) => (<[name := (input, true)]> s, Ok tt)
  | None => (s, Err (PortStoreWrite "draft not found"))
  end.
Definition receipts_delete (name : string) (s : receipts) : receipts * result GscalePortError unit :=
  match s !! name with
  | Some (_, false) => (delete name s, Ok tt)
  | _ => (s, Err (PortStoreWrite "draft not found"))
  end.
#[global] Instance receipts_port : ReceiptPort (J := json_tree) :=
  @Build_ReceiptPort json_tree receipts receipts_create receipts_find receipts_stock receipts_submit
    receipts_delete (λ v v' : tree, bool_decide (v = v')).

#[global] Instance receipts_port_laws : ReceiptPortLaws receipts_port.
Proof.
  split; simpl; unfold receipts_create, receipts_find, receipts_stock, receipts_submit.
  - intros v. by apply bool_decide_eq_true.
  - intros input s s' d. destruct (s !! create_barcode input); [done|]. intros [= <- <-].
    simpl. split_and!; try done. by rewrite lookup_insert_eq.
  - intros barcode d s s'. destruct (s !! barcode) as [[input b]|] eqn:Hb; simpl; [|done].
    intros [= <-]. simpl. rewrite Hb. intros [= <-]. rewrite lookup_insert_eq. simpl.
    split; [done|]. by eexists.
Qed.
