(* ===== verification/FlowWitnesses.v ===== *)
(** Concrete instances of the theorems about rolls, stages, order life cycles,
    labels and receipts, over the codecs and the store of [CodecSamples]: the
    hypotheses are satisfiable, and what the theorems say of sample inputs. *)
From S2P Require Import Prelude RustStr F64 Json Errors Identity QueueState OrderLayout MapDefinition Formula Compiler Bfs Chain Projection Scheduler Progress ProgressFacts WipRoute WipRouteFacts Lifecycle StageExecution StageFacts OrderRefresh OrderStore OrderStoreFacts Epc Receipts ReceiptFacts Samples CodecSamples.

#[local] Existing Instance json_tree.

(** * Rolls *)

(** A roll printed for the sample order, waiting for the cutter. *)
Definition sample_payload : tree :=
  TObj [("stage_node_id", TStr "print"); ("next_stage_node_id", TStr "cut")].

Definition sample_detail : OrderProgressBatchStatusDetail :=
  {| detail_work_status := ""; detail_wip_status := ""; detail_flow_status := "";
     detail_stock_status := "" |}.

Definition sample_roll : OrderProgressBatch := refresh_status_detail {|
  batch_id := "batch-1"; batch_revision := 1; batch_session_id := "session-1";
  batch_started_at_unix := 100; batch_completed_at_unix := 200;
  batch_apparatus := "apparatus:code:flexo-1"; batch_order_id := "zakaz-17";
  batch_action := Action.Complete; batch_status := BatchStatus.Completed;
  batch_produced_qty := f64_of_Z 40; batch_uom := "kg"; batch_qr_payload := "QR-1";
  batch_label_item_code := "P-1"; batch_label_item_name := "Bag"; batch_executor_name := "Ali";
  batch_worker_role := "operator"; batch_worker_ref := "w-1"; batch_worker_display_name := "Ali";
  batch_wip_status := WipStatus.Waiting; batch_status_detail := sample_detail;
  batch_current_apparatus := "apparatus:code:flexo-1";
  batch_current_location := "apparatus:code:flexo-1";
  batch_next_apparatus := "apparatus:code:rezka-1"; batch_parent_batch_id := "";
  batch_used_by_session_id := ""; batch_used_by_apparatus := "";
  batch_processed_by_session_id := ""; batch_processed_by_apparatus := "";
  batch_return_ink_kg := None; batch_lamination_print_leftover_rolls := None;
  batch_lamination_film_leftover_rolls := None; batch_rezka_bosma_waste := None;
  batch_rezka_lamination_waste := None; batch_rezka_edge_waste := None; batch_total_waste := None;
  batch_finished_goods_kg := None; batch_bobina_kg := None; batch_finished_goods_meter := None;
  batch_diameter := None; batch_description := ""; batch_payload_json := (sample_payload : value) |}.

(** The cutter uses the roll and finishes it. *)
Definition used_roll : OrderProgressBatch := Eval vm_compute in
  match wip_batch_in_use sample_roll "apparatus:code:rezka-1" "session-2" 300 with
  | Ok b => b | Err _ => sample_roll end.
Definition cut_roll : OrderProgressBatch := Eval vm_compute in
  match wip_batch_processed used_roll "apparatus:code:rezka-1" "session-2" 400 with
  | Ok b => b | Err _ => used_roll end.

Lemma sample_roll_wf : wip_wf sample_roll.
Proof. split; vm_refl. Qed.

Lemma sample_roll_run : rtc wip_step sample_roll cut_roll.
Proof.
  apply (rtc_l _ _ used_roll); [|apply rtc_once].
  - exists (Use "apparatus:code:rezka-1" "session-2" 300). split; vm_refl.
  - exists (Process "apparatus:code:rezka-1" "session-2" 400). split; vm_refl.
Qed.

Lemma wip_lifecycle_preserves_wf_witness :
  wip_wf cut_roll ∧ same_history sample_roll cut_roll ∧ batch_wip_status cut_roll = WipStatus.Processed.
Proof.
  destruct (wip_lifecycle_preserves_wf sample_roll cut_roll sample_roll_wf sample_roll_run)
    as (H1 & H2 & _).
  exact (conj H1 (conj H2 eq_refl)).
Defined.

(** * Routes *)

Lemma projection_refines_reference_witness :
  (serve_all [AskRoute sample_roll; AskFingerprint; AskRoute sample_roll]
     (projection_new sample_map)).2 =
  [ReplyRoute (resolve_wip_input_route sample_map sample_roll); ReplyFingerprint "zakaz-17";
   ReplyRoute (resolve_wip_input_route sample_map sample_roll)].
Proof.
  exact (proj1 (projection_refines_reference sample_map
    [AskRoute sample_roll; AskFingerprint; AskRoute sample_roll])).
Defined.

Lemma wip_route_is_sound_witness : ∃ r,
  resolve_wip_input_route sample_map sample_roll = Ok r ∧ route_stage_node_id r = "cut" ∧
  route_sound sample_map sample_roll r.
Proof.
  eexists. split; [vm_refl|]. split; [done|]. apply (wip_route_is_sound sample_map sample_roll).
  vm_refl.
Defined.

(** The same order without its cutter. *)
Definition cut_removed_map : ProductionMapDefinition :=
  mk_map "zakaz-17" (List.filter (λ n, node_id n <>s "cut") sample_nodes)
    [mk_edge "start" "print" ""; mk_edge "print" "large" ""; mk_edge "large" "end" "ha"].

Lemma validated_edit_keeps_routes_witness :
  (∃ b, normalized_route_batch sample_roll = Ok b ∧ route_kept sample_map sample_map b) ∧
  ¬ (∀ b, b ∈ [sample_roll] →
       ∃ b', normalized_route_batch b = Ok b' ∧ route_kept sample_map cut_removed_map b').
Proof.
  split.
  - apply (validated_edit_keeps_routes sample_map sample_map [sample_roll]); [vm_refl|].
    apply list_elem_of_singleton. reflexivity.
  - intros H. apply (validated_edit_keeps_routes sample_map cut_removed_map [sample_roll]) in H.
    by vm_compute in H.
Defined.

(** * Stages *)

Definition sample_session : RunSession := {|
  run_session := {| session_id := "session-1"; session_apparatus := "apparatus:code:flexo-1";
    session_order_id := "zakaz-17"; session_stage_node_id := "print";
    session_status := RunStatus.Completed; session_worker_role := "operator";
    session_worker_ref := "w-1"; session_worker_display_name := "Ali";
    session_started_at_unix := 100; session_updated_at_unix := 200 |};
  session_payload_json := (TObj [] : value) |}.

Definition sample_actor : QueueActionActor :=
  {| actor_role := "operator"; actor_ref := "w-1"; actor_display_name := "Ali" |}.

Lemma stamped_report_is_read_back_witness :
  ∃ session', stamp_work_report sample_session "report-1" 1 sample_actor 250 = Ok session' ∧
    report_worker_ref <$> work_report session' = Some "w-1" ∧
    stamp_work_report session' "report-2" 2 sample_actor 300 = Ok session'.
Proof.
  destruct (stamped_report_is_read_back sample_session "report-1" 1 sample_actor 250)
    as (s & H1 & _ & H2 & _ & _ & H3); [vm_refl..|].
  exists s. split; [exact H1|]. rewrite H2. split; [done|]. apply H3.
Defined.

Definition sample_inputs : list StageWorkInput := work_inputs sample_map [cut_roll] [].

Lemma work_snapshot_ignores_caches_witness :
  (work_snapshot [sample_session] [cut_roll] [] ∅ []
     (serve_all [AskRoute sample_roll] (projection_new sample_map)).1).2 =
  stage_work_statuses sample_map [sample_session] sample_inputs ∅ [].
Proof.
  exact (work_snapshot_ignores_caches sample_map [AskRoute sample_roll] [sample_session] [cut_roll]
           [] ∅ []).
Defined.

(** The printing is closed, the cutting is not. *)
Lemma stage_closure_is_least_fixed_point_witness :
  ws_completed <$> stage_work_statuses sample_map [sample_session] sample_inputs ∅ [] = [false; true] ∧
  length (stage_work_statuses sample_map [sample_session] sample_inputs ∅ []) =
  length (btree_entries
    (stage_work_table [sample_session] sample_inputs ∅ [] (projection_reference sample_map)).2).
Proof.
  split; [vm_refl|]. symmetry. eapply Forall2_length.
  exact (proj1 (stage_closure_is_least_fixed_point sample_map [sample_session] sample_inputs ∅ [])).
Defined.

Definition print_stage : ChainStage := {| stage_node_id := "print";
  stage_apparatus_id := Some "apparatus:code:flexo-1"; stage_station_title := "Printing" |}.

Lemma sample_print_closed :
  closed_op (stage_work_table [sample_session] sample_inputs ∅ [] (projection_reference sample_map)).2
    "node:print".
Proof.
  eapply closed_intro; [vm_refl|vm_refl|].
  intros k Hk. exfalso. exact (not_elem_of_empty (C := gset string) k Hk).
Qed.

Lemma closed_operation_has_no_open_work_witness :
  session_status sample_session = RunStatus.Completed ∧
  (is_some (work_report sample_session) = true ∨ has_protocol sample_session = false).
Proof.
  refine (proj1 (closed_operation_has_no_open_work sample_map [sample_session] sample_inputs ∅ []
    "node:print" [print_stage] _ sample_print_closed) "apparatus:code:flexo-1" sample_session _);
    vm_refl.
Defined.

(** * Order life cycle *)

Definition sample_store : order_store := {|
  st_maps := {["zakaz-17" := sample_map]};
  st_queue_states := ∅;
  st_queue_events := [];
  st_order_run_sessions := {["session-1" := sample_session]};
  st_order_progress_batches := {["batch-1" := sample_roll]};
  st_opening_wip_records := ∅;
  st_order_controls := ∅;
  st_stage_order_controls := ∅;
  st_lifecycles := {["zakaz-17" := released "zakaz-17"]} |}.

Definition refreshed_store : order_store :=
  (put_apparatus_queue_states "apparatus:code:flexo-1" {["zakaz-17" := "completed"]} sample_store).1.

Lemma lifecycle_never_regresses_witness :
  ∃ r', st_lifecycles refreshed_store !! "zakaz-17" = Some r' ∧ record_le (released "zakaz-17") r' ∧
    lc_status r' = L.InProgress.
Proof.
  destruct (lifecycle_never_regresses sample_store refreshed_store "zakaz-17" (released "zakaz-17"))
    as [(r' & H1 & H2) _].
  - apply rtc_once, StepQueueStates.
  - vm_refl.
  - exists r'. split; [exact H1|]. split; [exact H2|]. vm_compute in H1. by injection H1 as <-.
Defined.

Lemma refresh_follows_evidence_witness :
  ∃ store' r', refresh_production_order_lifecycles ["zakaz-17"] refreshed_store = (store', Ok tt) ∧
    st_lifecycles store' !! "zakaz-17" = Some r' ∧ lc_status r' = L.InProgress.
Proof.
  assert (Hok : (refresh_production_order_lifecycles ["zakaz-17"] refreshed_store).2 = Ok tt)
    by vm_refl.
  destruct (refresh_production_order_lifecycles ["zakaz-17"] refreshed_store) as [store' res] eqn:Hr.
  simpl in Hok. subst res.
  destruct (refresh_follows_evidence refreshed_store "zakaz-17" sample_map store')
    as (r' & status & H1 & H2 & H3 & _); [vm_refl|vm_refl|exact Hr|].
  exists store', r'. split; [done|]. split; [exact H1|]. rewrite H3.
  vm_compute in H2. injection H2 as <-. vm_refl.
Defined.

(** * Order tables *)

(** The sample order, whose early closure was requested and then took effect. *)
Definition sample_close (closed_at : option Z) : OrderEarlyClose := {|
  close_comment := "customer cancelled"; close_actor := sample_actor;
  close_requested_at_unix := 500; close_closed_at_unix := closed_at |}.

Definition close_record (closed_at : option Z) : OrderControlRecord := {|
  control_order_id := "zakaz-17"; control_stage_node_id := "";
  control_state := OrderControl.Frozen; control_actor := sample_actor;
  control_requested_at_unix := 500; control_frozen_at_unix := None;
  control_freeze_request := None; control_early_close := Some (sample_close closed_at) |}.

Definition sample_tables : order_tables := {|
  os_orders := sample_store; os_sequences := {["apparatus:code:flexo-1" := ["zakaz-17"]]};
  os_freeze_requests := ∅ |}.
Definition closing_tables : order_tables :=
  (put_order_control_state (close_record None) sample_tables).1.
Definition closed_tables : order_tables :=
  (put_order_control_state (close_record (Some 600%Z)) closing_tables).1.

Lemma sample_close_step closed_at (s : order_tables) :
  is_Some (st_maps s !! "zakaz-17") →
  order_step s (put_order_control_state (close_record closed_at) s).1.
Proof. intros H. apply StepControl. intros _. exact H. Qed.

Lemma sample_close_run : rtc order_step sample_tables closed_tables.
Proof.
  apply (rtc_l _ _ closing_tables); [|apply rtc_once]; apply sample_close_step; by eexists.
Qed.

(** The order stays closed, whatever record a later write asks for. *)
Definition reopened_tables : order_tables :=
  (put_order_control_state (OrderControlRecord_active "zakaz-17") closed_tables).1.

Lemma reopen_run : rtc order_step closed_tables reopened_tables.
Proof. apply rtc_once, StepControl. intros _. by eexists. Qed.

Lemma early_close_is_permanent_witness :
  ∃ r', st_order_controls reopened_tables !! "zakaz-17" = Some r' ∧
    control_early_close r' = Some (sample_close (Some 600%Z)).
Proof.
  destruct (early_close_is_permanent closed_tables reopened_tables "zakaz-17"
    (close_record (Some 600%Z)) (sample_close (Some 600%Z)))
    as (_ & r' & close' & H1 & H2 & (_ & _ & _ & H3) & _);
    [exact reopen_run|apply (bool_decide_unpack _); vm_refl|vm_refl|reflexivity|discriminate|].
  exists r'. split; [exact H1|]. rewrite H2, H3; [reflexivity|by eexists].
Defined.

Lemma closed_orders_stay_cancelled_witness :
  ∃ lc, st_lifecycles closed_tables !! "zakaz-17" = Some lc ∧ lc_status lc = L.Cancelled.
Proof.
  refine (proj2 (closed_orders_stay_cancelled sample_tables closed_tables sample_close_run _)
    "zakaz-17" (close_record (Some 600%Z)) _ _).
  - split; [|intros id r Hr; by vm_compute in Hr].
    intros k [m Hm] _. simpl in Hm. apply lookup_singleton_Some in Hm as [<- _]. by eexists.
  - vm_refl.
  - by eexists _, _.
Defined.

(** A second order with the number of the first is refused. *)
Definition numbered_map (id : string) : ProductionMapDefinition :=
  mk_map id sample_nodes [].

Lemma order_numbers_stay_unique_witness :
  (put_map (numbered_map "zakaz-18") (put_map (numbered_map "zakaz-17")
    (with_maps ∅ sample_tables)).1).2 = Err DuplicateOrderNumber ∧
  unique_numbers (st_maps (put_map (numbered_map "zakaz-18")
    (put_map (numbered_map "zakaz-17") (with_maps ∅ sample_tables)).1).1).
Proof.
  split; [vm_refl|].
  refine (order_numbers_stay_unique (with_maps ∅ sample_tables) _ _ _).
  - eapply rtc_l; [apply StepPutMap|]. apply rtc_once, StepPutMap.
  - intros k1 k2 m1 m2 H1. by vm_compute in H1.
Defined.

(** * Labels *)

Lemma generated_epcs_are_distinct_witness :
  NoDup (epcs (with_salt 324508639) [1691139600123456789; 1691139600123456789; 1691139600123456790]%Z).
Proof.
  apply (generated_epcs_are_distinct 324508639
    [1691139600123456789; 1691139600123456789; 1691139600123456790]%Z).
  - lia.
  - repeat constructor; lia.
  - intros t t' Ht Ht'. set_unfold. lia.
  - intros n. unfold readings. simpl. repeat case_match; simpl; lia.
Defined.

(** * Receipts *)

Definition sample_request : MaterialReceiptPrintRequest := {|
  req_order_id := "zakaz-17"; req_apparatus := "apparatus:code:flexo-1";
  req_order_assignment := Some (TObj [("order_id", TStr "zakaz-17")] : value);
  req_driver_url := ""; req_item_code := " FILM-1 "; req_item_name := "Film";
  req_warehouse := "Main"; req_printer := ""; req_print_mode := ""; req_label_kind := "";
  req_gross_qty := f64_of_Z 25; req_unit := ""; req_tare_enabled := true;
  req_tare_kg := f64_of_dec 15 1; req_width_mm := Some (f64_of_Z 600);
  req_micron := Some (f64_of_Z 20); req_length_m := None; req_print_count := 0;
  req_actor_role := "operator"; req_actor_ref := "w-1"; req_actor_display_name := "Ali" |}.

Definition sample_job : NormalizedMaterialReceiptJob :=
  match job_from_request sample_request with
  | Ok job => job
  | Err _ => {| job_order_assignment := None; job_driver_url := ""; job_item_code := "";
      job_item_name := ""; job_warehouse := ""; job_printer := ""; job_print_mode := "";
      job_label_kind := ""; job_gross_qty := f64_zero; job_net_qty := f64_zero; job_unit := "";
      job_tare_enabled := false; job_tare_kg := f64_zero; job_width_mm := None; job_micron := None;
      job_length_m := None; job_print_count := 0; job_actor_role := ""; job_actor_ref := "";
      job_actor_display_name := "" |}
  end.

Lemma accepted_job_is_well_formed_witness :
  job_wf sample_job ∧ job_item_name sample_job = "Film 600/20".
Proof.
  split; [|vm_refl].
  refine (proj1 (accepted_job_is_well_formed sample_request sample_job _ _)); vm_refl.
Defined.

Definition sample_service : GscaleService :=
  {| svc_receipt_store := true; svc_driver := None; svc_warehouse_event_handler := true |}.
Definition sample_epc : string := "3017782A88E6BB55FB5751C4".

Lemma confirming_twice_records_once_witness :
  ∃ st' response,
    confirm_material_receipt_client_print sample_service sample_request sample_epc (∅, []) =
      (st', Ok response) ∧
    confirm_material_receipt_client_print sample_service sample_request sample_epc st' =
      (st', Ok response).
Proof.
  assert (is_ok (confirm_material_receipt_client_print sample_service sample_request sample_epc
    (∅, [])).2 = true) as Hok by (vm_refl).
  destruct (confirm_material_receipt_client_print sample_service sample_request sample_epc (∅, []))
    as [st' [response|]] eqn:H; [|discriminate Hok].
  exists st', response. split; [done|].
  apply (confirming_twice_records_once sample_service sample_request sample_epc (∅, []) st' response);
    [simpl; lia|exact H].
Defined.

(** The driver prints, then the recording task runs to its end. *)
Definition printed_answer : ScaleDriverPrintResponse := {|
  print_ok := true; print_status := "done"; print_epc := ""; print_printer := "godex";
  print_mode_ := "label"; print_qty := f64_zero; print_net_qty := f64_zero;
  print_gross_qty := f64_zero; print_unit := "kg"; print_printer_status := "OK"; print_error := "";
  print_detail := "" |}.

Definition run_recorder (s : print_sys) : print_sys :=
  default s (recorder_step true sample_job sample_epc s).
Definition state_after (n : nat) : print_sys :=
  Nat.iter n run_recorder (main_result (Ok printed_answer) (print_init (∅, []))).

Lemma run_recorder_step s :
  is_some (recorder_step true sample_job sample_epc s) = true →
  print_step true sample_job sample_epc s (run_recorder s).
Proof.
  intros H. apply StepRecorder. unfold run_recorder. by destruct (recorder_step _ _ _ s).
Qed.

Lemma sample_print_run : nsteps (print_step true sample_job sample_epc) 4 (print_init (∅, [])) (state_after 3).
Proof.
  apply (nsteps_l _ _ _ (state_after 0)); [by apply StepPrinted|].
  apply (nsteps_l _ _ _ (state_after 1)); [apply run_recorder_step; vm_refl|].
  apply (nsteps_l _ _ _ (state_after 2)); [apply run_recorder_step; vm_refl|].
  apply nsteps_once. apply run_recorder_step. vm_refl.
Qed.

Lemma driver_first_records_printed_labels_witness :
  sys_calls (state_after 3) = [Created sample_epc; Submitted sample_epc] ∧
  calls_match (state_after 3).
Proof.
  split; [vm_refl|].
  refine (proj1 (driver_first_records_printed_labels true sample_job sample_epc (∅, []) (state_after 3)
    (proj2 (rtc_nsteps _ _) (ex_intro _ 4 sample_print_run)))).
Defined.

Lemma driver_first_terminates_witness :
  steps_left (state_after 3) = 0 ∧ 4 ≤ 4 ∧
  (steps_left (state_after 3) ≠ 0 → red (print_step true sample_job sample_epc) (state_after 3)).
Proof.
  split; [vm_refl|].
  exact (driver_first_terminates true sample_job sample_epc (∅, []) 4 (state_after 3) sample_print_run).
Defined.
