(* ===== verification/InputWitnesses.v ===== *)
(** Runs with pallets and input rolls: concrete codecs of the lists kept in payloads, and
    the hypotheses of the theorems on pallets, cuts and input lineage met. *)
From S2P Require Import Prelude RustStr F64 Json Errors Identity QueueState OrderLayout MapDefinition Formula Compiler Bfs Chain Projection Scheduler Progress Epc CutLayout Paddon PaddonFacts Metrics Lineage LineageFacts Samples CodecSamples FlowWitnesses.

#[local] Existing Instance json_tree.

(** * Codecs *)

Definition enc_list {A} (f : A → tree) (l : list A) : tree := TArr (f <$> l).
Definition dec_list {A} (g : tree → option A) (t : tree) : option (list A) :=
  match t with TArr l => mapM g l | _ => None end.

Lemma dec_enc_list {A} (f : A → tree) (g : tree → option A) l :
  (∀ x, g (f x) = Some x) → dec_list g (enc_list f l) = Some l.
Proof.
  intros Hg. unfold dec_list, enc_list. induction l as [|x l IH]; [done|].
  rewrite fmap_cons. simpl. rewrite Hg. simpl. by rewrite IH.
Qed.

Definition enc_texts (l : list string) : tree := enc_list TStr l.
Definition dec_text (t : tree) : option string := match t with TStr s => Some s | _ => None end.

Definition enc_link (l : OrderRunInputLink) : tree :=
  TArr [TStr (link_input_batch_id l); TStr (link_input_qr_payload l); TStr (link_source_apparatus l);
        TStr (InputKind.as_str (link_source_kind l)); TStr (link_stage_node_id l);
        TNum (link_sequence_no l); TBool (link_in_use l); TNum (link_linked_at_unix l);
        match link_processed_at_unix l with Some z => TNum z | None => TNull end].
Definition dec_link (t : tree) : option OrderRunInputLink :=
  match t with
  | TArr [TStr id; TStr qr; TStr app; TStr kind; TStr stage; TNum seq; TBool used; TNum at_; processed] =>
      kind ← InputKind.parse kind;
      Some {| link_input_batch_id := id; link_input_qr_payload := qr; link_source_apparatus := app;
              link_source_kind := kind; link_stage_node_id := stage; link_sequence_no := seq;
              link_status := if used then InputStatus.InUse else InputStatus.Processed;
              link_linked_at_unix := at_;
              link_processed_at_unix := match processed with TNum z => Some z | _ => None end |}
  | _ => None
  end.
Lemma dec_enc_link l : dec_link (enc_link l) = Some l.
Proof. by destruct l as [? ? ? [] ? ? [] ? []]. Qed.

Definition enc_roll (r : RezkaActivePartialRoll) : tree :=
  TArr [TNum (roll_slot_index r); TNum (roll_generation r); TNum (roll_contained_kadr_count r);
        enc_texts (roll_source_input_batch_ids r); TNum (roll_started_at_unix r); TNum (roll_updated_at_unix r)].
Definition dec_roll (t : tree) : option RezkaActivePartialRoll :=
  match t with
  | TArr [TNum slot; TNum gen; TNum count; ids; TNum started; TNum updated] =>
      ids ← dec_list dec_text ids;
      Some {| roll_slot_index := slot; roll_generation := gen; roll_contained_kadr_count := count;
              roll_source_input_batch_ids := ids; roll_started_at_unix := started;
              roll_updated_at_unix := updated |}
  | _ => None
  end.
Lemma dec_enc_roll r : dec_roll (enc_roll r) = Some r.
Proof.
  unfold enc_roll, dec_roll, enc_texts. rewrite dec_enc_list by done. by destruct r.
Qed.

Definition enc_source (s : ProgressBatchInputLink) : tree :=
  TArr [TStr (source_input_batch_id s); TStr (source_input_qr_payload s); TStr (source_source_apparatus s);
        TStr (InputKind.as_str (source_source_kind s)); TNum (source_sequence_no s)].
Definition dec_source (t : tree) : option ProgressBatchInputLink :=
  match t with
  | TArr [TStr id; TStr qr; TStr app; TStr kind; TNum seq] =>
      kind ← InputKind.parse kind;
      Some {| source_input_batch_id := id; source_input_qr_payload := qr; source_source_apparatus := app;
              source_source_kind := kind; source_sequence_no := seq |}
  | _ => None
  end.

Definition enc_lane (l : OrderLane) : tree :=
  TArr [TStr (lane_id l); TStr (lane_product_id l); TStr (lane_order_number l); TStr (lane_item_code l);
        TStr (lane_product l); TFloat (lane_width_mm l)].
Definition dec_lane (t : tree) : option OrderLane :=
  match t with
  | TArr [TStr id; TStr product_id; TStr number; TStr item; TStr product; TFloat width] =>
      Some {| lane_id := id; lane_product_id := product_id; lane_order_number := number;
              lane_item_code := item; lane_product := product; lane_width_mm := width |}
  | _ => None
  end.

Definition enc_actor (a : QueueActionActor) : tree :=
  TArr [TStr (actor_role a); TStr (actor_ref a); TStr (actor_display_name a)].
Definition dec_actor (t : tree) : option QueueActionActor :=
  match t with
  | TArr [TStr role; TStr ref; TStr name] =>
      Some {| actor_role := role; actor_ref := ref; actor_display_name := name |}
  | _ => None
  end.

#[global] Instance tree_links : Serde (list OrderRunInputLink) :=
  { to_value := enc_list enc_link : _ → value; from_value := dec_list dec_link }.
#[global] Instance tree_links_laws : SerdeLaws (list OrderRunInputLink).
Proof. split. intros l. apply dec_enc_list, dec_enc_link. Qed.
#[global] Instance tree_rolls : Serde (list RezkaActivePartialRoll) :=
  { to_value := enc_list enc_roll : _ → value; from_value := dec_list dec_roll }.
#[global] Instance tree_rolls_laws : SerdeLaws (list RezkaActivePartialRoll).
Proof. split. intros l. apply dec_enc_list, dec_enc_roll. Qed.
#[global] Instance tree_sources : Serde (list ProgressBatchInputLink) :=
  { to_value := enc_list enc_source : _ → value; from_value := dec_list dec_source }.
#[global] Instance tree_lanes : Serde (list OrderLane) :=
  { to_value := enc_list enc_lane : _ → value; from_value := dec_list dec_lane }.
#[global] Instance tree_actor : Serde QueueActionActor :=
  { to_value := enc_actor : _ → value; from_value := dec_actor }.

(** * Input lineage *)

(** A cutter starts with one roll, splices in the next, and completes a roll. *)
Definition input_roll (id : string) : SessionProgressLinks := {|
  spl_layout_lanes := []; spl_batch_id := id; spl_qr_payload := "qr-" +:+ id;
  spl_apparatus := "apparatus:code:flexo-1"; spl_source_kind := "progress_batch";
  spl_stage_node_id := "cut"; spl_contained_kadr_count := Some 2%Z |}.

(** A node of a cutter. *)
Definition cutter (id : string) (groups : list Z) : ProductionMapNode :=
  {| node_id := id; node_kind := NodeKind.Apparatus; node_title := "Cutting";
     node_apparatus_id := "apparatus:code:rezka-1"; node_formula := None; node_role_code := "";
     node_item_code := ""; node_qty_formula := ""; node_from_location := ""; node_to_location := "";
     alternative_group_id := ""; alternative_group_label := ""; alternative_assigned_title := "";
     alternative_assigned_apparatus_id := ""; rezka_kadr_count := Some 2%Z; rezka_frame_groups := groups;
     rezka_label_length := None; node_x := f64_zero; node_y := f64_zero |}.

(** The cutter cuts two frames. *)
Definition cut_map : ProductionMapDefinition :=
  mk_map "zakaz-17"
    [mk_node "start" NodeKind.Start "Start" "" None ""; cutter "cut" [];
     mk_node "end" NodeKind.End_ "End" "" None ""]
    [mk_edge "start" "cut" ""; mk_edge "cut" "end" ""].

Definition cutting (payload : tree) : RunSession := {|
  run_session := {| session_id := "session-2"; session_apparatus := "apparatus:code:rezka-1";
    session_order_id := "zakaz-17"; session_stage_node_id := "cut"; session_status := RunStatus.Active;
    session_worker_role := "aparatchi"; session_worker_ref := "w-2"; session_worker_display_name := "Vali";
    session_started_at_unix := 100; session_updated_at_unix := 100 |};
  session_payload_json := (payload : value) |}.

Definition payload_or (r : run_result value) : tree := match r with Ok v => v | Err _ => TNull end.

Definition cut_start : RunSession := Eval vm_compute in
  cutting (payload_or (start_session_payload sample_actor (input_roll "roll-1") None "cut" 100)).
Definition cut_merge : RunSession := Eval vm_compute in
  cutting (payload_or (merged_payload cut_map "apparatus:code:rezka-1" true cut_start (input_roll "roll-2") 150)).
Definition cut_output : RunSession := Eval vm_compute in
  cutting (payload_or (reported_session_payload cut_merge Action.RollComplete f64_zero "kg" no_metrics "" 200)).
Definition cut_close : RunSession := Eval vm_compute in
  cutting (payload_or (reported_session_payload cut_output Action.Complete f64_zero "kg" no_metrics "" 300)).

Lemma input_scannable id : trim id = id → blank id = false → scannable (input_roll id).
Proof. intros Ht Hb. split; [exact Hb|exact Ht|]. by exists InputKind.ProgressBatch. Qed.

Lemma cut_merge_worked : worked true cut_merge.
Proof.
  apply (worked_on true cut_start cut_merge).
  - apply (worked_started true sample_actor (input_roll "roll-1") None "cut" 100); [right|vm_refl].
    by apply input_scannable.
  - apply (step_merged true cut_start cut_map "apparatus:code:rezka-1" (input_roll "roll-2") 150);
      [by apply input_scannable|vm_refl].
Qed.

Lemma cut_output_worked : worked true cut_output.
Proof.
  apply (worked_on true cut_merge cut_output); [apply cut_merge_worked|].
  apply (step_report true cut_merge Action.RollComplete f64_zero "kg" no_metrics "" 200); [done|vm_refl].
Qed.

Lemma lineage_is_always_stored_witness :
  validate_session_lineage cut_output = Ok tt ∧ validate_session_lineage cut_close = Ok tt.
Proof.
  destruct (lineage_is_always_stored true cut_output cut_output_worked) as [H1 H2].
  split; [apply H1; vm_refl|].
  apply (H2 f64_zero "kg" no_metrics "" 300%Z cut_close). vm_refl.
Defined.

Lemma outputs_name_their_inputs_witness :
  ((λ l : list ProgressBatchInputLink, source_input_batch_id <$> l) <$>
     progress_batch_source_input_links cut_merge (session_progress_links cut_merge) (Some 1%Z))
  = Ok ["roll-1"; "roll-2"] ∧
  ∃ sources, progress_batch_source_input_links cut_merge (session_progress_links cut_merge) (Some 1%Z)
             = Ok sources ∧ sources_are_valid sources = true.
Proof.
  split; [vm_refl|].
  destruct (outputs_name_their_inputs true cut_merge (Some 1%Z) cut_merge_worked)
    as (_ & sources & _ & H & Hv & _).
  exists sources. split; [exact H|exact Hv].
Defined.

(** * Cuts *)

(** Three frames cut in groups of two and one. *)
Definition group_map : ProductionMapDefinition :=
  {| map_combo := None;
     map_products := [{| product_id := "p-1"; product_item_code := "I-1"; product_product := "Bag";
                         frame_product_size_mm := f64_of_Z 200; product_frame_count := 3 |}];
     map_id := "zakaz-17"; map_product_code := "P-1"; map_title := "Bag"; map_code := "";
     map_order_number := "17"; map_customer_name := ""; map_image_id := ""; map_roll_count := None;
     map_width_mm := None; map_print_val_size_mm := None; map_order_kg := None; map_base_length := None;
     map_duplicate_rezka_labels := None; map_include_bobina_in_net := None; map_standard_print_side := None;
     map_nodes := [mk_node "start" NodeKind.Start "Start" "" None ""; cutter "slit" [2; 1]%Z; cutter "cut" [];
                   mk_node "end" NodeKind.End_ "End" "" None ""];
     map_edges := [mk_edge "start" "slit" ""; mk_edge "slit" "cut" ""; mk_edge "cut" "end" ""] |}.

Lemma cut_outputs_follow_groups_witness :
  cut_counts group_map "slit" [] = Ok [2; 1]%nat ∧
  concat (slices [2; 1]%nat (layout_lanes group_map)) = layout_lanes group_map.
Proof.
  assert (H : cut_counts group_map "slit" [] = Ok [2; 1]%nat) by vm_refl. split; [exact H|].
  apply (cut_outputs_follow_groups group_map "slit" [] [2; 1]%nat H).
Defined.

(** * Pallets *)

Definition cut_machine (id : ApparatusId) : RuntimeApparatusConfiguration :=
  {| runtime_row := row id; runtime_display_name := "Rezka"; runtime_capabilities := [(Capability.Cut, 3%Z)];
     runtime_lifecycle := LifecycleActive; runtime_operation := ExecutionOperation.Cut;
     runtime_technology := ProcessTechnology.Flexographic; queue_row := row id; material_row := row id;
     capacity_row := row id; config_capacity_slots := 1%Z; config_setup_minutes := 0%Z;
     config_cleanup_minutes := 0%Z; config_efficiency_percent := 100%Z; config_finite_capacity := true;
     config_working_windows := []; config_color_station_count := None; config_min_web_width_mm := None;
     config_max_web_width_mm := None; config_capability_compatible_reroute := true;
     config_equipment_class_id := "equipment-class:cutting"; config_virtual_tasks := VirtualTasksDisabled;
     config_discipline := DisciplineStrictSequence;
     config_material_policy := NotRequired []; config_tooling := ToolingNotRequired |}.
Definition cut_plant (id : ApparatusId) : pm_result (option RuntimeApparatusConfiguration) :=
  Ok (Some (cut_machine id)).
Definition rezka_text : string := "apparatus:code:rezka-1".

Definition packer : QueueActionActor :=
  {| actor_role := "aparatchi"; actor_ref := "w-1"; actor_display_name := "Ali" |}.
Definition other_packer : QueueActionActor :=
  {| actor_role := "aparatchi"; actor_ref := "w-2"; actor_display_name := "Vali" |}.

(** A pallet is filled and closed; another is open elsewhere. *)
Definition pallet_history : list (QueueActionActor * paddon_request) :=
  [(packer, Create (Some rezka_text) "hall" ""); (packer, ConfirmPrint 10 "00001")].
Definition after_pallets : paddon_store := run_requests cut_plant pallet_history empty_paddon_store.
Definition next_pallet := create_active_paddon_successor cut_plant "00001" rezka_text packer after_pallets.

Lemma closed_pallet_has_one_successor_witness :
  (paddon_code <$> next_pallet.2) = Ok "00002" ∧
  ∀ q s2, create_active_paddon_successor cut_plant "00001" rezka_text packer
            (run_requests cut_plant [(packer, ConfirmPrint 20 "00002"); (packer, Unlock 30 "00002")]
               next_pallet.1) = (s2, Ok q) → paddon_code q = "00002".
Proof.
  split; [vm_refl|]. intros q s2 H.
  destruct next_pallet as [s1 r] eqn:E. destruct r as [p|e]; [|vm_compute in E; discriminate E].
  assert (Hp : paddon_code p = "00002").
  { assert (Hc : (paddon_code <$> next_pallet.2) = Ok "00002") by vm_refl. rewrite E in Hc. by injection Hc. }
  rewrite <-Hp. eapply (closed_pallet_has_one_successor cut_plant pallet_history
    [(packer, ConfirmPrint 20 "00002"); (packer, Unlock 30 "00002")] "00001" rezka_text packer p q s1 s2);
    [exact E| |exact H].
  repeat constructor; vm_compute; intros Hu; discriminate Hu || done.
Defined.

Lemma only_allowed_actor_unlocks_witness :
  let s := after_pallets in
  (is_unlocked <$> ps_paddons (paddon_step cut_plant other_packer (Unlock 20 "00001") s) !! "00001") = Some false ∧
  ∃ owner, ps_paddon_lock_owners s !! "00001" = Some owner ∧ trim owner = "w-1".
Proof.
  split; [vm_refl|].
  destruct (ps_paddons after_pallets !! "00001") as [p|] eqn:Hp; [|vm_compute in Hp; discriminate Hp].
  destruct (ps_paddons (paddon_step cut_plant packer (Unlock 20 "00001") after_pallets) !! "00001")
    as [p'|] eqn:Hp'; [|vm_compute in Hp'; discriminate Hp'].
  assert (Hl : (is_unlocked <$> ps_paddons after_pallets !! "00001") = Some false) by vm_refl.
  assert (Hu : (is_unlocked <$> ps_paddons (paddon_step cut_plant packer (Unlock 20 "00001") after_pallets)
                 !! "00001") = Some true) by vm_refl.
  rewrite Hp in Hl. rewrite Hp' in Hu. injection Hl as Hl. injection Hu as Hu.
  destruct (only_allowed_actor_unlocks cut_plant pallet_history packer (Unlock 20 "00001") "00001" p p'
              Hp Hl Hp' Hu) as [_ [H|[H|(_ & owner & Ho & Ht)]]].
  - vm_compute in H. discriminate H.
  - vm_compute in H. discriminate H.
  - exists owner. split; [exact Ho|exact Ht].
Defined.
