(* ===== verification/CommitWitnesses.v ===== *)
(** Commits and receipts on a store: concrete codecs of the records the write carries, and
    the hypotheses of the theorems on receipts and queue action commits met. *)
From S2P Require Import Prelude RustStr F64 Json Errors Identity QueueState QueueFacts OrderLayout MapDefinition Formula Compiler Bfs Chain Projection SequenceMove SequenceFacts Scheduler Progress WipRoute Lifecycle StageExecution OrderRefresh OrderStore Visibility Preflight PreflightFacts QueueMoves QueueMovesFacts Epc CutLayout Paddon Metrics Lineage RunStore Warehouse WarehouseFacts QueueCommit QueueCommitFacts Samples CodecSamples FlowWitnesses InputWitnesses.

#[local] Existing Instance json_tree.

(** * Codecs *)

Definition enc_opt {A} (f : A → tree) (o : option A) : tree := match o with Some x => f x | None => TNull end.
Definition dec_opt {A} (g : tree → option A) (t : tree) : option (option A) :=
  match t with TNull => Some None | t => Some <$> g t end.
Definition dec_float (t : tree) : option f64 := match t with TFloat x => Some x | _ => None end.

Definition enc_material (m : ProductionQrRawMaterial) : tree :=
  TArr [TStr (material_barcode m); TStr (material_item_code m); TStr (material_item_name m);
        enc_opt TStr (material_stock_id m); enc_opt TFloat (material_source_qty m);
        enc_opt TStr (material_uom m)].
Definition dec_material (t : tree) : option ProductionQrRawMaterial :=
  match t with
  | TArr [TStr barcode; TStr code; TStr name; stock; qty; uom] =>
      stock ← dec_opt dec_text stock; qty ← dec_opt dec_float qty; uom ← dec_opt dec_text uom;
      Some {| material_barcode := barcode; material_item_code := code; material_item_name := name;
              material_stock_id := stock; material_source_qty := qty; material_uom := uom |}
  | _ => None
  end.

#[global] Instance tree_resources : Serde ProductionQrSessionResources :=
  { to_value r := TArr [TStr (resources_session_id r); enc_list enc_material (resources_raw_materials r);
      TBool (resources_raw_materials_available r); enc_texts (resources_qolip_codes r);
      TBool (resources_qolip_available r)] : value;
    from_value t := match (t : tree) with
      | TArr [TStr id; materials; TBool available; codes; TBool qolip] =>
          materials ← dec_list dec_material materials; codes ← dec_list dec_text codes;
          Some {| resources_session_id := id; resources_raw_materials := materials;
                  resources_raw_materials_available := available; resources_qolip_codes := codes;
                  resources_qolip_available := qolip |}
      | _ => None
      end }.

#[global] Instance tree_confirmation : Serde AutomaticQolipConfirmation :=
  { to_value c := TArr [TStr (confirmation_method c); TStr (confirmation_set_id c);
      TStr (confirmation_fingerprint c); TNum (confirmation_policy_revision c)] : value;
    from_value t := match (t : tree) with
      | TArr [TStr m; TStr set; TStr print; TNum revision] =>
          Some {| confirmation_method := m; confirmation_set_id := set; confirmation_fingerprint := print;
                  confirmation_policy_revision := revision |}
      | _ => None
      end }.

Definition run_status_text (st : RunStatus.t) : string :=
  match st with
  | RunStatus.Active => "active" | RunStatus.Paused => "paused" | RunStatus.RollDetached => "roll_detached"
  | RunStatus.Frozen => "frozen" | RunStatus.Completed => "completed"
  end.
Definition run_status_of (s : string) : option RunStatus.t :=
  List.find (λ st, run_status_text st =s s)
    [RunStatus.Active; RunStatus.Paused; RunStatus.RollDetached; RunStatus.Frozen; RunStatus.Completed].

#[global] Instance tree_session : Serde RunSession :=
  { to_value s := TArr [TStr (session_id s); TStr (session_apparatus s); TStr (session_order_id s);
      TStr (session_stage_node_id s); TStr (run_status_text (session_status s));
      TStr (session_worker_role s); TStr (session_worker_ref s); TStr (session_worker_display_name s);
      TNum (session_started_at_unix s); TNum (session_updated_at_unix s);
      (session_payload_json s : tree)] : value;
    from_value t := match (t : tree) with
      | TArr [TStr id; TStr apparatus; TStr order; TStr stage; TStr status; TStr role; TStr ref; TStr name;
              TNum started; TNum updated; payload] =>
          status ← run_status_of status;
          Some {| run_session := {| session_id := id; session_apparatus := apparatus;
                    session_order_id := order; session_stage_node_id := stage; session_status := status;
                    session_worker_role := role; session_worker_ref := ref; session_worker_display_name := name;
                    session_started_at_unix := started; session_updated_at_unix := updated |};
                  session_payload_json := (payload : value) |}
      | _ => None
      end }.

(** The writes below expect no roll, so rolls are not read back. *)
#[global] Instance tree_batch : Serde OrderProgressBatch :=
  { to_value b := TStr (batch_id b) : value; from_value _ := None }.

(** * Receipts *)

(** The last roll of the order, waiting behind the cutter. *)
Definition last_roll : OrderProgressBatch :=
  refresh_status_detail (sample_roll
    <| batch_id := "batch-9" |> <| batch_qr_payload := "QR-9" |>
    <| batch_apparatus := "apparatus:code:rezka-1" |> <| batch_current_apparatus := "apparatus:code:rezka-1" |>
    <| batch_current_location := "apparatus:code:rezka-1 chiqim" |> <| batch_next_apparatus := "" |>
    <| batch_payload_json := (TObj [("stage_node_id", TStr "cut")] : value) |>).

Definition finished_store : run_store := {|
  rs_trials := {| ts_tables := {|
      os_orders := sample_store <| st_order_progress_batches := {["batch-9" := last_roll]} |>;
      os_sequences := ∅; os_freeze_requests := ∅ |};
    ts_holds := ∅ |};
  rs_progress_events := []; rs_finished_goods_stock := ∅;
  rs_reservations := ∅;
  rs_qolip_start_settings := {| automatic_confirmation_enabled := false; qolip_policy_revision := 0 |};
  rs_returned_paint_requests := ∅; rs_pallets := empty_paddon_store; rs_fail_next_commit := false |}.

Definition storekeeper : QueueActionActor :=
  {| actor_role := "omborchi"; actor_ref := "w-5"; actor_display_name := "Olim" |}.
Definition roll_token (v : WarehouseWipSnapshot) : string := "sha256:" +:+ batch_id (ws_batch v).

(** The roll is received; the second request repeats the first. *)
Definition received_store :=
  receive_warehouse_wip roll_token "batch-9" "QR-9" "main" "sha256:batch-9" storekeeper 500
    finished_store finished_store.
Definition asked_again (warehouse : string) (s : run_store) :=
  receive_warehouse_wip roll_token "batch-9" "qr-9" warehouse "sha256:batch-9" storekeeper 900 s s.

Lemma sample_receipt : (λ x : OrderProgressBatch * _, (flow_status_for_batch x.1, receipt_warehouse x.2)) <$> received_store.2
  = Ok ("accepted_to_stock", "main").
Proof. vm_refl. Qed.

(** The store changed: the roll accepted is the one that was read and confirmed. *)
Lemma received_as_confirmed_witness :
  ∃ snapshot write,
    planned roll_token "batch-9" "QR-9" "main" "sha256:batch-9" storekeeper 500 finished_store snapshot
      (Receive write) ∧
    ∃ lc, received_store.1 =
      with_orders ((os_orders (with_receipt write finished_store)) <| st_lifecycles := lc |>)
        (with_receipt write finished_store).
Proof.
  destruct (received_as_confirmed roll_token "batch-9" "QR-9" "main" "sha256:batch-9" storekeeper 500
              finished_store finished_store) as [H|(sn & cu & w & Hp & _ & _ & _ & Hs)].
  - exfalso. assert (Hn : size (rs_finished_goods_stock received_store.1) ≠
                         size (rs_finished_goods_stock finished_store)) by (vm_compute; discriminate).
    apply Hn. unfold received_store. rewrite H. reflexivity.
  - exists sn, w. split; [exact Hp|exact Hs].
Defined.

Lemma received_roll_is_received_once_witness :
  ∃ s1 b r, received_store = (s1, Ok (b, r)) ∧ receipt_warehouse r = "main" ∧
  ∃ t, (t = finished_store ∨ t = s1) ∧
    (receive_warehouse_wip roll_token "batch-9" "QR-9" "main" "sha256:batch-9" storekeeper 900 t t).2
    = Ok (b, r) ∧
    (∀ x, (receive_warehouse_wip roll_token "batch-9" "QR-9" "other" "sha256:batch-9" storekeeper 900 t t).2 ≠ Ok x).
Proof.
  pose proof sample_receipt as Hs. destruct received_store as [s1 [[b r]|e]] eqn:E; [|discriminate Hs].
  injection Hs as _ Hw.
  assert (Hqr : trim "QR-9" = trim (batch_qr_payload b)).
  { assert (Hq : (λ x : OrderProgressBatch * WarehouseWipReceipt, batch_qr_payload x.1) <$> received_store.2
                 = Ok "QR-9") by vm_refl.
    rewrite E in Hq. injection Hq as Hq. simpl in Hq. by rewrite Hq. }
  exists s1, b, r. split; [done|]. split; [exact Hw|].
  destruct (received_roll_is_received_once roll_token "batch-9" "QR-9" "main" "sha256:batch-9" storekeeper 500
              finished_store finished_store s1 b r) as (t & Ht & H); [vm_compute; split; discriminate|exact Hqr|exact E|].
  exists t. split; [exact Ht|]. split.
  - by apply (H "batch-9" "QR-9" "main" "sha256:batch-9" storekeeper 900%Z t eq_refl).
  - intros x Hx.
    destruct (H "batch-9" "QR-9" "other" "sha256:batch-9" storekeeper 900%Z t eq_refl) as (_ & Ho & _).
    destruct (Ho x Hx) as (_ & Hne & _). vm_compute in Hne. discriminate Hne.
Defined.

(** * Commits *)

Definition mould_payload (code : string) : tree :=
  TObj [("qolip_code", TStr code); ("qolip_lock_owner", TBool true)].
Definition printing (id order : string) (payload : tree) : RunSession := {|
  run_session := {| session_id := id; session_apparatus := "apparatus:code:flexo-1";
    session_order_id := order; session_stage_node_id := "print"; session_status := RunStatus.Active;
    session_worker_role := "operator"; session_worker_ref := "w-1"; session_worker_display_name := "Ali";
    session_started_at_unix := 100; session_updated_at_unix := 100 |};
  session_payload_json := (payload : value) |}.

(** The first session holds the mould M-1; a roll waits for the cutter. *)
Definition held_store : run_store :=
  with_orders (sample_store
    <| st_order_run_sessions := {["s-1" := printing "s-1" "zakaz-17" (mould_payload "M-1")]} |>
    <| st_order_progress_batches := {["batch-1" := sample_roll]} |>) finished_store.

Definition sample_event (id : string) (payload : tree) : ApparatusQueueActionEvent := {|
  qe_event_id := id; qe_apparatus := "apparatus:code:flexo-1"; qe_order_id := "zakaz-17";
  qe_stage_node_id := "print"; qe_action := Action.Start; qe_from_state := OrderState.Pending;
  qe_to_state := OrderState.InProgress; qe_policy := StrictSequence; qe_actor := sample_actor;
  qe_assigned_apparatus := ["apparatus:code:flexo-1"]; qe_payload_json := (payload : value) |}.

Definition sample_write (id : string) (payload : tree) (session : option RunSession)
    (updates : list OrderProgressBatch) : QueueActionProgressWrite := {|
  qw_apparatus := "apparatus:code:flexo-1"; qw_map_update := None;
  qw_states := {["zakaz-17" := "in_progress"]}; qw_sequence_updates := ∅;
  qw_event := sample_event id payload; qw_session := session; qw_progress_event := None;
  qw_progress_batch := None; qw_progress_batches := []; qw_progress_batch_updates := updates;
  qw_opening_wip_batch_updates := []; qw_returned_paint_report := None; qw_order_control_update := None;
  qw_schedule_reservation_status := None; qw_print_preflight_hold_id := None;
  qw_print_preflight_cancel_hold_id := None |}.

Definition commit (w : QueueActionProgressWrite) (s : run_store) := commit_queue_action w 700 s.

(** A second run asks for the same mould. *)
Definition same_mould : QueueActionProgressWrite :=
  sample_write "e-1" (TObj []) (Some (printing "s-2" "zakaz-18" (mould_payload "m-1"))) [].

Lemma held_moulds : moulds_ok (st_order_run_sessions held_store).
Proof.
  change (st_order_run_sessions held_store)
    with ({["s-1" := printing "s-1" "zakaz-17" (mould_payload "M-1")]} : gmap string RunSession).
  split.
  - intros k s H. apply lookup_singleton_Some in H as [<- <-]. vm_refl.
  - intros k k' s s' code H H' _ _. apply lookup_singleton_Some in H as [<- _].
    by apply lookup_singleton_Some in H' as [<- _].
Qed.

Lemma moulds_stay_exclusive_witness :
  (commit same_mould held_store).2 = Err (Fail QolipAlreadyInUse) ∧
  moulds_ok (st_order_run_sessions (commit same_mould held_store).1).
Proof.
  split; [vm_refl|]. unfold commit. exact (moulds_stay_exclusive same_mould 700 held_store held_moulds).
Defined.

(** The cutter takes the waiting roll; a second session cannot have it. *)
Definition take_roll (session : string) : QueueActionProgressWrite :=
  sample_write "e-2" (TObj []) None [used_roll <| batch_used_by_session_id := session |>].
Definition taken : run_store := (commit (take_roll "session-2") held_store).1.

Lemma taken_rolls_were_free_witness :
  (commit (take_roll "session-2") held_store).2 = Ok tt ∧
  (commit (take_roll "session-3") taken).2 = Err (Fail ProgressBatchNotAccepted) ∧
  ∃ b b', st_order_progress_batches held_store !! "batch-1" = Some b ∧
    st_order_progress_batches taken !! "batch-1" = Some b' ∧ may_use b b'.
Proof.
  split; [vm_refl|]. split; [vm_refl|].
  assert (Huse : batch_wip_status <$> st_order_progress_batches taken !! "batch-1" = Some WipStatus.InUse) by vm_refl.
  destruct (st_order_progress_batches taken !! "batch-1") as [b'|] eqn:E; [|discriminate Huse].
  injection Huse as Huse.
  assert (Htidy : keys_tidy (st_order_progress_batches held_store)).
  { intros k [b Hb]. change (st_order_progress_batches held_store)
      with ({["batch-1" := sample_roll]} : gmap string OrderProgressBatch) in Hb.
    apply lookup_singleton_Some in Hb as [<- _]. vm_refl. }
  destruct (taken_rolls_were_free (take_roll "session-2") 700 held_store "batch-1" b' Htidy) as (b & Hb & Hm).
  - intros b Hb. change (b ∈ @nil OrderProgressBatch) in Hb. destruct (not_elem_of_nil b Hb).
  - unfold taken, commit in E. exact E.
  - exact Huse.
  - exists b, b'. exact (conj Hb (conj eq_refl Hm)).
Defined.

(** A pause is committed, answered again, and its id is not taken by another session. *)
Definition pause (session : string) : QueueActionProgressWrite :=
  sample_write "pause-1" (TObj [("event", TStr "temporary_pause"); ("session_id", TStr session)]) None [].

Lemma temporary_pause_committed_once_witness :
  ∃ after, commit_queue_action (pause "s-1") 700 held_store = (after, Ok tt) ∧
    commit_queue_action (pause "s-1") 800 after = (after, Ok tt) ∧
    (commit_queue_action (pause "s-2") 800 after).1 = after.
Proof.
  assert (Hr : (commit_queue_action (pause "s-1") 700 held_store).2 = Ok tt) by vm_refl.
  assert (Hkind : ∀ session, event_str (pause session) "event" = Some "temporary_pause") by (intros; vm_refl).
  assert (Hid : is_Some (event_str (pause "s-1") "session_id")) by (exists "s-1"; vm_refl).
  assert (Happ : ∀ session, qe_apparatus (qw_event (pause session)) = qw_apparatus (pause session)) by reflexivity.
  assert (Hev : ∀ session, qe_event_id (qw_event (pause session)) = qe_event_id (qw_event (pause "s-1")))
    by reflexivity.
  generalize dependent held_store. intros s Hr.
  destruct (commit_queue_action (pause "s-1") 700 s) as [after r] eqn:Hc.
  change (r = Ok tt) in Hr. subst r. exists after. split; [reflexivity|].
  pose proof (λ w now, temporary_pause_committed_once (pause "s-1") 700 s after Hc (Hkind "s-1") Hid
                (Happ "s-1") w now after (reflexivity _)) as H.
  split.
  - destruct (H (pause "s-1") 800%Z (Hkind "s-1") (Hev "s-1")) as [H1 H2]. specialize (H2 eq_refl).
    destruct (commit_queue_action (pause "s-1") 800 after) as [s' r].
    change (s' = after) in H1. change (r = Ok tt) in H2. by subst.
  - exact (proj1 (H (pause "s-2") 800%Z (Hkind "s-2") (Hev "s-2"))).
Defined.

(** * Colour trials, frozen orders and queue moves

    Concrete instances of the theorems about colour trials, frozen orders and queue
    moves, over the sample order, its tables and the sample plant. *)

#[local] Existing Instance json_tree.

(** * Colour trials *)

Definition no_trials : trial_store := {| ts_tables := sample_tables; ts_holds := ∅ |}.
Definition print_control : pm_result (option PreflightControl) :=
  Ok (Some {| pc_print_preflight_allowed := true; pc_stage_node_id := "print" |}).

Definition started := begin_print_preflight plant "apparatus:code:flexo-1" "zakaz-17" "trial-1" "key-1"
  sample_actor 1000 print_control no_trials.
Definition decide_trial (action : string) (revision : Z) (s : trial_store) :=
  advance_print_preflight_at_revision "apparatus:code:flexo-1" "zakaz-17" "trial-1" action
    (Some revision) sample_actor 1100 s.
Definition failed := decide_trial "failed" 0 started.1.

Lemma no_trials_wf : trials_wf (ts_holds no_trials).
Proof. split; [intros k h H|intros k k' h h' H]; exfalso; exact (lookup_empty_Some _ _ H). Qed.

Lemma trial_run : rtc (trial_step plant) no_trials failed.1.
Proof. eapply rtc_l; [apply TrialBegin|]. apply rtc_once, TrialAdvance. Qed.

Definition trial_at (s : trial_store) : option (PreflightStatus.t * Z) :=
  (λ hold, (hold_status hold, hold_revision hold)) <$> ts_holds s !! "trial-1".

Lemma one_live_trial_per_apparatus_witness :
  trial_at started.1 = Some (PreflightStatus.Running, 0%Z) ∧
  trial_at failed.1 = Some (PreflightStatus.Failed, 1%Z) ∧ trials_wf (ts_holds failed.1).
Proof.
  split; [vm_refl|]. split; [vm_refl|].
  exact (one_live_trial_per_apparatus plant no_trials failed.1 trial_run no_trials_wf).
Defined.

Lemma started_trial : ∃ hold, ts_holds started.1 !! "trial-1" = Some hold ∧
  hold_status hold = PreflightStatus.Running ∧ hold_revision hold = 0%Z.
Proof. eexists. split; [vm_refl|done]. Qed.

Lemma started_wf : trials_wf (ts_holds started.1).
Proof.
  eapply holds_change_wf, no_trials_wf. apply (trial_step_change plant); [apply TrialBegin|exact no_trials_wf].
Qed.

Lemma trial_decisions_are_versioned_witness :
  ∃ hold hold', ts_holds started.1 !! "trial-1" = Some hold ∧ ts_holds failed.1 !! "trial-1" = Some hold' ∧
    hold_le hold hold' ∧ hold_status hold' = PreflightStatus.Failed.
Proof.
  destruct started_trial as (hold & Hk & _).
  destruct (trial_decisions_are_versioned plant started.1 failed.1 "trial-1" hold)
    as (hold' & Hk' & Hle & _); [apply rtc_once, TrialAdvance|exact started_wf|exact Hk|].
  exists hold, hold'. split; [done|]. split; [done|]. split; [done|].
  vm_compute in Hk'. by injection Hk' as <-.
Defined.

Lemma ok_pair {E A S} (r : S * result E A) : is_ok r.2 = true → ∃ a, r = (r.1, Ok a).
Proof. destruct r as [s [a|e]]; [by exists a|done]. Qed.

Lemma failed_trial_restores_queue_witness :
  queue_row (st_queue_states started.1) "apparatus:code:flexo-1" "zakaz-17" = Some "print_preflight" ∧
  ∀ a o, queue_row (st_queue_states failed.1) a o = queue_row (st_queue_states no_trials) a o.
Proof.
  destruct (ok_pair started) as [hold Hs]; [vm_refl|].
  destruct (ok_pair failed) as [hold' Hf]; [vm_refl|].
  assert (bool_decide (hold_id hold = "trial-1" ∧ hold_apparatus hold = "apparatus:code:flexo-1" ∧
    hold_order_id hold = "zakaz-17") && negb (is_live hold') = true) as H.
  { assert (started.2 = Ok hold) as H1 by (by rewrite Hs). assert (failed.2 = Ok hold') as H2 by (by rewrite Hf).
    vm_compute in H1. injection H1 as <-. vm_compute in H2. injection H2 as <-. vm_refl. }
  apply andb_true_iff in H as [(Hid & Ha & Ho)%bool_decide_eq_true Hl%negb_true_iff].
  destruct (failed_trial_restores_queue plant "apparatus:code:flexo-1" "zakaz-17" "trial-1" "key-1"
    sample_actor 1000 print_control no_trials started.1 hold "apparatus:code:flexo-1" "zakaz-17" "failed"
    (Some 0%Z) sample_actor 1100 failed.1 hold') as [H1 H2];
    [exact no_trials_wf| |apply lookup_empty|exact Hs|rewrite Hid; exact Hf|exact Hl|].
  - intros a [x Hx]. exfalso. exact (lookup_empty_Some _ _ Hx).
  - rewrite Ha, Ho in H1. exact (conj H1 H2).
Defined.

Lemma retried_decision_changes_nothing_witness :
  ∃ hold', failed.2 = Ok hold' ∧
    decide_trial "failed" 0 failed.1 = (failed.1, Ok hold') ∧ hold_status hold' = PreflightStatus.Failed.
Proof.
  destruct (ok_pair failed) as [hold' Hf]; [vm_refl|].
  destruct (retried_decision_changes_nothing "apparatus:code:flexo-1" "zakaz-17" "trial-1" "failed"
    (Some 0%Z) sample_actor 1100 started.1 failed.1 hold') as (_ & _ & H); [exact started_wf|exact Hf|].
  exists hold'. split; [by rewrite Hf|]. split; [apply H|].
  assert (failed.2 = Ok hold') as H2 by (by rewrite Hf). vm_compute in H2. by injection H2 as <-.
Defined.

(** * Frozen orders *)

Definition second_map : ProductionMapDefinition := mk_map "zakaz-18" sample_nodes sample_edges.

(** The first order is frozen; later it returns at the end of the queue. *)
Lemma frozen_order_leaves_every_queue_witness :
  let updates := sequence_updates_for_frozen_transition [sample_map; second_map]
    {["apparatus:code:flexo-1" := ["zakaz-17"; "zakaz-18"]]} {["zakaz-17"]} None in
  let restored := sequence_updates_for_frozen_transition [sample_map; second_map]
    {["apparatus:code:flexo-1" := ["zakaz-18"]]} ∅ (Some "zakaz-17") in
  updates !! "apparatus:code:flexo-1" = Some ["zakaz-18"] ∧
  updates !! "apparatus:code:rezka-1" = Some ["zakaz-18"] ∧
  restored !! "apparatus:code:flexo-1" = Some ["zakaz-18"; "zakaz-17"] ∧
  dom restored = dom (visible_order_ids_by_apparatus [sample_map; second_map]).
Proof.
  split; [vm_refl|]. split; [vm_refl|]. split; [vm_refl|].
  refine (proj1 (frozen_order_leaves_every_queue [sample_map; second_map]
    {["apparatus:code:flexo-1" := ["zakaz-18"]]} ∅ (Some "zakaz-17") _)).
  intros k [v [<- _]%lookup_singleton_Some]. vm_refl.
Defined.

(** * Queue moves *)

(** The version of a state in the examples: its first order. *)
Definition first_version : VersionHash :=
  {| version st :=
       "0123456789abcdef0123456789abcdef0123456789abcdef0123456789abcde" +:+
       match seq_order_ids st with "zakaz-18" :: _ => "a" | _ => "0" end |}.
#[local] Existing Instance first_version.

Definition two_orders : order_store :=
  sample_store <| st_maps := {["zakaz-17" := sample_map; "zakaz-18" := second_map]} |>.
Definition move_tables : move_store := {|
  ms_trials := {|
    ts_tables := {| os_orders := two_orders;
      os_sequences := {["apparatus:code:flexo-1" := ["zakaz-17"; "zakaz-18"]]};
      os_freeze_requests := ∅ |};
    ts_holds := ∅ |};
  ms_receipts := ∅ |}.

Definition to_front : SequenceMove := {|
  move_apparatus := "apparatus:code:flexo-1"; move_order_id := "zakaz-18";
  move_before_order_id := Some "zakaz-17"; move_after_order_id := None;
  move_expected_version := "0123456789abcdef0123456789abcdef0123456789abcdef0123456789abcde0";
  move_idempotency_key := "k-1" |}.
Definition other_way : SequenceMove := {|
  move_apparatus := "apparatus:code:flexo-1"; move_order_id := "zakaz-17";
  move_before_order_id := Some "zakaz-18"; move_after_order_id := None;
  move_expected_version := "0123456789abcdef0123456789abcdef0123456789abcdef0123456789abcdea";
  move_idempotency_key := "k-2" |}.

Definition do_move (command : SequenceMove) (s : move_store) :=
  move_apparatus_sequence (machine [] flexo1) command sample_actor s.
Definition moved_once := do_move to_front move_tables.
Definition moved_twice := do_move other_way moved_once.1.

Lemma second_move_run : rtc (move_step plant) moved_once.1 moved_twice.1.
Proof. exact (rtc_once _ _ (MoveOne plant moved_once.1 (machine [] flexo1) other_way sample_actor)). Qed.

(** The first move is repeated after the second: it is answered, not applied again. *)
Lemma moves_are_committed_once_witness :
  ∃ r, moved_once.2 = Ok r ∧ result_order_ids r = ["zakaz-18"; "zakaz-17"] ∧
    os_sequences moved_twice.1 !! "apparatus:code:flexo-1" = Some ["zakaz-17"; "zakaz-18"] ∧
    do_move to_front moved_twice.1 = (moved_twice.1, Ok r).
Proof.
  destruct (ok_pair moved_once) as [r Hr]; [vm_refl|].
  exists r. split; [by rewrite Hr|].
  assert (moved_once.2 = Ok r) as H by (by rewrite Hr).
  split; [vm_compute in H; by injection H as <-|]. split; [vm_refl|].
  exact (proj1 (moves_are_committed_once plant (machine [] flexo1) to_front sample_actor move_tables
    moved_once.1 r moved_twice.1 Hr second_move_run) (machine [] flexo1) sample_actor eq_refl eq_refl).
Defined.

Lemma committed_move_is_read_back_witness :
  ∃ r queue, moved_once.2 = Ok r ∧
    current_queue (machine [] flexo1) "apparatus:code:flexo-1" moved_once.1 =
      Ok (with_order_ids queue (result_order_ids r)) ∧ result_revision r = Some 1%Z.
Proof.
  destruct (ok_pair moved_once) as [r Hr]; [vm_refl|].
  destruct (committed_move_is_read_back (machine [] flexo1) to_front sample_actor move_tables
    moved_once.1 r) as (queue & _ & H & _); [exact Hr|apply lookup_empty|].
  exists r, queue. split; [by rewrite Hr|]. split; [exact H|].
  assert (moved_once.2 = Ok r) as E by (by rewrite Hr). vm_compute in E. by injection E as <-.
Defined.

Definition sample_key : string := "0123456789abcdef0123456789abcdef".

Definition reorder_view : save_view :=
  {| sv_canonical := machine [] flexo1; sv_order_ids := ["zakaz-18"; "zakaz-17"]; sv_held := [];
     sv_current := ["zakaz-17"; "zakaz-18"]; sv_states := ∅ |}.
Definition two_queue : SequenceMoveState :=
  from_visible "apparatus:code:flexo-1" ["zakaz-17"; "zakaz-18"] ["zakaz-17"; "zakaz-18"] ∅ ∅ ∅.

Lemma legacy_reorder_succeeds_witness :
  ∃ s' ids,
    reorder_apparatus_sequence plant "apparatus:code:flexo-1" ["zakaz-18"; "zakaz-17"] "zakaz-18"
      sample_key move_tables = (s', Ok (ids ++ [])) ∧
    ids ≡ₚ ["zakaz-17"; "zakaz-18"].
Proof.
  destruct (legacy_reorder_succeeds plant "apparatus:code:flexo-1" ["zakaz-18"; "zakaz-17"] "zakaz-18"
    sample_key move_tables reorder_view two_queue) as (s' & ids & H1 & H2 & _).
  - intros queue. split; simpl; by repeat case_match.
  - vm_refl.
  - exact no_trials_wf.
  - intros a [v Hv]. simpl in Hv. apply lookup_singleton_Some in Hv as [<- _]. vm_refl.
  - apply lookup_empty.
  - vm_refl.
  - vm_refl.
  - apply (bool_decide_unpack _). vm_refl.
  - apply (bool_decide_unpack _). vm_refl.
  - apply (bool_decide_unpack _). vm_refl.
  - exists s', ids. split; [exact H1|exact H2].
Defined.
