(* ===== verification/MaterialWitnesses.v ===== *)
(** Materials and opening rolls at concrete stores: a printing machine whose rule asks for a
    film and an ink, and an intake of two rolls of an order printed before. *)
From S2P Require Import Prelude RustStr F64 Json Errors Identity QueueState OrderLayout MapDefinition Formula Compiler Bfs Chain Projection SequenceMove Scheduler Progress WipRoute Lifecycle StageExecution OrderRefresh OrderStore Visibility Preflight Epc CutLayout Paddon Metrics Lineage RunStore Warehouse QueueCommit QueueCommitFacts Materials MaterialsFacts Ids OpeningWip OpeningWipFacts Pechat Transfer TransferFacts Samples CodecSamples FlowWitnesses InputWitnesses CommitWitnesses.

#[local] Existing Instance json_tree.
#[local] Open Scope Z_scope.

(** * Materials *)

#[local] Instance no_unicode : UnicodeCase := {| unicode_uppercase := id; unicode_lowercase := id |}.

(** A film and two inks. *)
Definition press_policy : MaterialExecutionPolicy :=
  RequirementSets
    [{| requirement_id := "film"; requirement_item_group_ids := ["bopp"; "cpp"]; minimum_required_count := 1 |};
     {| requirement_id := "ink"; requirement_item_group_ids := ["ink"]; minimum_required_count := 2 |}].

Definition press (id : ApparatusId) : RuntimeApparatusConfiguration :=
  {| runtime_row := row id; runtime_display_name := "Flexo";
     runtime_capabilities := [(Capability.Print, 3)]; runtime_lifecycle := LifecycleActive;
     runtime_operation := ExecutionOperation.Print; runtime_technology := ProcessTechnology.Flexographic;
     queue_row := row id; material_row := row id; capacity_row := row id;
     config_capacity_slots := 1; config_setup_minutes := 0; config_cleanup_minutes := 0;
     config_efficiency_percent := 100; config_finite_capacity := true; config_working_windows := [];
     config_color_station_count := Some 8; config_min_web_width_mm := None;
     config_max_web_width_mm := Some 1200; config_capability_compatible_reroute := true;
     config_equipment_class_id := "equipment-class:printing"; config_virtual_tasks := VirtualTasksDisabled;
     config_discipline := DisciplineStrictSequence;
     config_material_policy := press_policy; config_tooling := ToolingNotRequired |}.
Definition presses (id : ApparatusId) : pm_result (option RuntimeApparatusConfiguration) :=
  Ok (Some (press id)).

Definition press_store : run_store :=
  with_orders (sample_store <| st_maps := {["zakaz-17" := two_machines]} |>) finished_store.
Definition no_materials : material_store := {| ms_runs := press_store; ms_assignments := ∅ |}.

Definition asks (barcode group : string) : RawMaterialAssignmentInput := {|
  input_order_id := "zakaz-17"; input_barcode := barcode; input_item_code := "item-" +:+ group;
  input_item_name := ""; input_item_group := group; input_item_group_path := [];
  input_apparatus := "apparatus:code:flexo-1" |}.
Definition assign (barcode group : string) (s : material_store) :=
  assign_raw_material_to_order presses (asks barcode group) storekeeper "2024-05-06T10:00:00Z" s.
Definition with_film : material_store := (assign "f-1" "BOPP" no_materials).1.
Definition with_inks : material_store := (assign "i-2" "ink" (assign "i-1" "ink" with_film).1).1.

(** All three are needed, in any order and case, and nothing else. *)
Definition starts (scanned : list string) : pm_result unit :=
  validate_material_scan presses "apparatus:code:flexo-1" "zakaz-17" Action.Start scanned [] with_inks.

Example starts_scanned :
  starts ["i-2"; "F-1"; "i-1"] = Ok tt ∧ starts ["i-2"; "f-1"] = Err RawMaterialRequirementNotMet.
Proof. split; vm_refl. Qed.

Lemma barcodes_are_assigned_once_witness :
  (assign "f-1" "cpp" with_film).2 = Err RawMaterialAlreadyAssignedToOrder ∧
  NoDup ((λ a, normalize_barcode (asg_barcode a)) <$> raw_material_assignments with_film) ∧
  ∃ s' a, assign "i-1" "ink" with_film = (s', Ok a) ∧ a ∈ raw_material_assignments s'.
Proof.
  split; [vm_refl|].
  assert (Hok : is_ok (assign "i-1" "ink" with_film).2 = true) by vm_refl.
  assert (Hrun : rtc (material_step presses) no_materials with_film) by (apply rtc_once, StepAssign).
  revert Hok Hrun. generalize with_film. intros s Hok Hrun.
  destruct (barcodes_are_assigned_once presses no_materials s (reflexivity _) Hrun) as (Hn & Ha & _).
  split; [exact Hn|]. unfold assign in *.
  destruct (assign_raw_material_to_order presses (asks "i-1" "ink") storekeeper "2024-05-06T10:00:00Z" s)
    as [s' [a|e]] eqn:E; [|discriminate Hok].
  exists s', a. split; [reflexivity|]. exact (proj1 (Ha _ _ _ _ _ E)).
Defined.

(** * Opening rolls *)

Definition made_roll (meters : f64) : OpeningWipBatchInput := {|
  obi_quantity_basis := QuantityBasis.Measured; obi_finished_goods_meter := Some meters;
  obi_finished_goods_kg := Some (f64_of_Z 1); obi_bobina_kg := Some (f64_of_Z 1); obi_diameter := None |}.
Definition printed_before (key : string) : OpeningWipCreateInput := {|
  oci_idempotency_key := key; oci_order_id := "zakaz-17"; oci_entry_apparatus := "";
  oci_source_operation := ""; oci_source_apparatus := "apparatus:code:flexo-1";
  oci_source_stage_node_id := "p1"; oci_current_location := ""; oci_note := "";
  oci_batches := [made_roll (f64_of_Z 1); made_roll (f64_of_Z 1)] |}.
Definition request_text (n : OpeningWipCreateInput) : string :=
  oci_order_id n +:+ "/" +:+ oci_source_stage_node_id n.
Definition intake (key : string) (s : run_store) :=
  create_opening_wip presses request_text (printed_before key) storekeeper 500 500000000000 s.
Definition delete_roll (batch_id : string) (s : run_store) :=
  (delete_opening_wip_batch batch_id {| actor_role := "admin"; actor_ref := ""; actor_display_name := "" |} 600 s).1.

Definition with_rolls : run_store := Eval vm_compute in (intake "key-1" press_store).1.
Definition roll_ids (s : run_store) : list (string * OpeningStatus.t) :=
  (λ b, (opening_batch_id b, opening_wip_status b)) <$>
    concat (record_batches <$> btree_values (st_opening_wip_records s)).

Lemma opening_intake_is_created_once_witness :
  ∃ s1 rec, intake "key-1" press_store = (s1, Ok rec) ∧ length (record_batches rec) = 2%nat ∧
    create_opening_wip presses request_text (printed_before "key-1") packer 900 900000000000 s1 = (s1, Ok rec).
Proof.
  assert (H : (λ r, length (record_batches r)) <$> (intake "key-1" press_store).2 = Ok 2%nat) by vm_refl.
  revert H. generalize press_store. intros s H.
  destruct (intake "key-1" s) as [s1 [rec|e]] eqn:E; [|discriminate H].
  exists s1, rec. split; [reflexivity|]. split; [injection H as H; exact H|].
  exact (proj1 (opening_intake_is_created_once presses request_text _ _ _ _ _ _ _ E) packer 900 900000000000).
Defined.

Lemma small_intakes_have_distinct_codes_witness :
  NoDup (opening_qr_payload <$> record_batches
    (opening_record two_machines (printed_before "key-1") "" "" "" storekeeper 500 500000000000)).
Proof.
  apply (small_intakes_have_distinct_codes two_machines (printed_before "key-1") "" "" "" storekeeper
           500 500000000000).
  simpl. lia.
Defined.

(** The first roll is deleted and the intake stands; it is cancelled with the second. *)
Definition one_deleted : run_store := delete_roll "opening-wip:500000000000:zakaz-17:roll-1" with_rolls.
Definition both_deleted : run_store := delete_roll "opening-wip:500000000000:zakaz-17:roll-2" one_deleted.
Definition intake_states (s : run_store) : list IntakeStatus.t :=
  (λ r, intake_status (record_intake r)) <$> btree_values (st_opening_wip_records s).

Lemma opening_intakes_follow_their_rolls_witness :
  intake_states one_deleted = [IntakeStatus.Confirmed] ∧ intake_states both_deleted = [IntakeStatus.Cancelled] ∧
  (∀ k r', st_opening_wip_records both_deleted !! k = Some r' → follows_rolls r').
Proof.
  split; [vm_refl|]. split; [vm_refl|].
  assert (Hrun : rtc (opening_step presses request_text) press_store both_deleted).
  { apply (rtc_l _ _ with_rolls).
    { change with_rolls with (create_opening_wip presses request_text (printed_before "key-1") storekeeper
                                500 500000000000 press_store).1.
      apply StepCreate. vm_refl. }
    apply (rtc_l _ _ one_deleted); [apply StepDelete|]. apply rtc_once, StepDelete. }
  apply (opening_intakes_follow_their_rolls presses request_text _ _ Hrun).
  intros k r Hr. change (st_opening_wip_records press_store) with (∅ : gmap string OpeningWipRecord) in Hr.
  rewrite lookup_empty in Hr. discriminate Hr.
Defined.

(** * Transfers

    Transfers at concrete stores: a paused printing order of flexo 1 is taken over by flexo 2. *)

#[local] Existing Instance json_tree.
#[local] Existing Instance ascii_tables.
#[local] Open Scope Z_scope.

#[local] Instance plain_case : UnicodeCase := {| unicode_uppercase := id; unicode_lowercase := id |}.
#[local] Instance tree_route : Serde WipInputRoute :=
  { to_value r := TArr [TStr (route_source_stage_node_id r); TStr (route_stage_node_id r);
      enc_texts (route_consumer_apparatus_ids r); TStr (route_map_fingerprint r);
      TBool (route_remapped r)] : value;
    from_value t := route_of_json t }.

Lemma known_orders_move_where_they_print_witness :
  pechat_can_move_order 8 (Some 6) (Some (f64_of_Z 700)) (Some 7) = true ∧
  pechat_can_move_order 7 (Some 6) (Some (f64_of_Z 900)) None = false.
Proof.
  split.
  - rewrite (proj1 (known_orders_move_where_they_print 8 6 (f64_of_Z 700) (Some 7) eq_refl eq_refl)). vm_refl.
  - rewrite (proj1 (known_orders_move_where_they_print 7 6 (f64_of_Z 900) None eq_refl eq_refl)). vm_refl.
Defined.

(** The printing node gets an alternative on flexo 2. *)
Definition taken_over := select_target sample_map "print" "apparatus:code:flexo-1" "apparatus:code:flexo-2" "Flexo 2".
Example taken_over_nodes : (λ r : ProductionMapDefinition * string,
    ((λ n, (node_id n, node_apparatus_id n, alternative_assigned_apparatus_id n)) <$> map_nodes r.1, r.2)) <$> taken_over =
  Ok ([("start", "", ""); ("print", "apparatus:code:flexo-1", "apparatus:code:flexo-2"); ("large", "", "");
       ("cut", "apparatus:code:rezka-1", ""); ("end", "", "");
       ("print_transfer", "apparatus:code:flexo-2", "apparatus:code:flexo-2")], "print_transfer").
Proof. vm_refl. Qed.

Lemma takeover_keeps_every_place_witness :
  ∃ map', taken_over = Ok (map', "print_transfer") ∧
    ∃ index source group new edges, map_nodes sample_map !! index = Some source ∧
      target_added sample_map source group "apparatus:code:flexo-2" "Flexo 2" "print_transfer" new edges ∧
      map_edges map' = map_edges sample_map ++ edges ∧
      ∀ i n, (map_nodes sample_map ++ new) !! i = Some n →
        map_nodes map' !! i = Some (if decide (i = index ∨ alternative_group_id n = group)
                                    then joined group "apparatus:code:flexo-2" "Flexo 2" n else n).
Proof.
  pose proof taken_over_nodes as H. unfold taken_over in *.
  destruct (select_target _ _ _ _ _) as [[map' target]|] eqn:E; [|discriminate H].
  injection H as _ Ht. subst target. exists map'. split; [reflexivity|].
  destruct (takeover_keeps_every_place _ _ _ _ _ _ _ E)
    as (stage & index & source & group & new & edges & _ & Hs & _ & _ & Hadd & _ & _ & He & _ & Hall).
  exists index, source, group, new, edges. split; [exact Hs|]. split; [exact Hadd|]. split; [exact He|exact Hall].
Defined.

(** * A transfer *)

Definition paused_run : RunSession := {|
  run_session := {| session_id := "s-1"; session_apparatus := "apparatus:code:flexo-1";
    session_order_id := "zakaz-17"; session_stage_node_id := "print"; session_status := RunStatus.Paused;
    session_worker_role := "operator"; session_worker_ref := "w-1"; session_worker_display_name := "Ali";
    session_started_at_unix := 100; session_updated_at_unix := 100 |};
  session_payload_json := (mould_payload "M-1" : value) |}.

Definition broken_press : transfer_store := {|
  tf_materials := {|
    ms_runs := with_tables {|
      os_orders := sample_store
        <| st_order_run_sessions := {["s-1" := paused_run]} |>
        <| st_order_progress_batches := {["batch-1" := sample_roll]} |>
        <| st_queue_states := {["apparatus:code:flexo-1" := {["zakaz-17" := "paused"; "zakaz-18" := "pending"]}]} |>;
      os_sequences := {["apparatus:code:flexo-1" := ["zakaz-17"; "zakaz-18"];
                        "apparatus:code:flexo-2" := ["zakaz-19"]]};
      os_freeze_requests := ∅ |} finished_store;
    ms_assignments := ∅ |};
  tf_transfers := ∅ |}.

Definition fail_over (key : string) : ProductionMapApparatusTransferRequest := {|
  tr_order_id := "Zakaz-17"; tr_from_apparatus := "apparatus:code:flexo-1";
  tr_to_apparatus := "apparatus:code:flexo-2"; tr_reason := "broken"; tr_idempotency_key := key |}.
Definition fail_over_at (key : string) (s : transfer_store) :=
  transfer_apparatus_order plant (fail_over key) storekeeper 700 s s.

Example failed_over : tx_queue_state ∘ fst <$> (fail_over_at "k-1" broken_press).2 = Ok OrderState.Paused.
Proof. vm_refl. Qed.

Lemma broken_press_moulds : moulds_ok (sessions_of broken_press).
Proof.
  change (sessions_of broken_press) with ({["s-1" := paused_run]} : gmap string RunSession). split.
  - intros k s H. apply lookup_singleton_Some in H as [<- <-]. vm_refl.
  - intros k k' s s' code H H' _ _. apply lookup_singleton_Some in H as [<- _].
    by apply lookup_singleton_Some in H' as [<- _].
Qed.

Lemma transfers_keep_moulds_exclusive_witness :
  is_ok (fail_over_at "k-1" broken_press).2 = true ∧ moulds_ok (sessions_of (fail_over_at "k-1" broken_press).1).
Proof.
  split; [vm_refl|].
  exact (transfers_keep_moulds_exclusive plant (fail_over "k-1") storekeeper 700 broken_press broken_press broken_press_moulds).
Defined.

Lemma transferred_order_moves_witness :
  ∃ s1 rec prog, fail_over_at "k-1" broken_press = (s1, Ok (rec, prog)) ∧
    tx_to_apparatus rec = "apparatus:code:flexo-2" ∧
    ∃ l l', queue_at s1 (tx_from_apparatus rec) = Some l ∧
      queue_at s1 (tx_to_apparatus rec) = Some (l' ++ [tx_order_id rec]) ∧
      ∀ id, id ∈ l ∨ id ∈ l' → trim id ≠ tx_order_id rec.
Proof.
  assert (Hr : (λ x : ProductionMapApparatusTransferRecord * ProductionMapProgram, tx_to_apparatus x.1) <$>
                 (fail_over_at "k-1" broken_press).2 = Ok "apparatus:code:flexo-2") by vm_refl.
  assert (Hnew : tf_transfers broken_press !! trim "k-1" = None) by vm_refl.
  revert Hr Hnew. generalize broken_press. intros s Hr Hnew.
  destruct (fail_over_at "k-1" s) as [s1 [[rec prog]|e]] eqn:E; [|discriminate Hr].
  exists s1, rec, prog. split; [reflexivity|]. split; [injection Hr as Hr; exact Hr|].
  destruct (transferred_order_moves plant _ _ _ _ _ _ _ _ E Hnew Hnew) as (_ & _ & Hq & _). exact Hq.
Defined.

Lemma transfer_is_committed_once_witness :
  ∃ s1 rec prog, fail_over_at "k-1" broken_press = (s1, Ok (rec, prog)) ∧
    fail_over_at "k-1" s1 = (s1, Ok (rec, prog)) ∧
    (transfer_apparatus_order plant (fail_over "k-1") packer 900 broken_press s1).1 = s1.
Proof.
  assert (Hr : is_ok (fail_over_at "k-1" broken_press).2 = true) by vm_refl.
  revert Hr. generalize broken_press. intros s Hr.
  destruct (fail_over_at "k-1" s) as [s1 [[rec prog]|e]] eqn:E; [|discriminate Hr].
  exists s1, rec, prog. split; [reflexivity|].
  destruct (transfer_is_committed_once plant _ _ _ _ _ _ _ _ s1 (rtc_refl _ _) E (rtc_refl _ _)) as [Hsame Hother].
  split; [exact (Hsame storekeeper 700)|].
  assert (Hstep : rtc (transfer_step plant) s s1).
  { apply rtc_once. unfold fail_over_at in E. apply (f_equal fst) in E. simpl in E. rewrite <-E. apply StepTransfer. }
  destruct (Hother (fail_over "k-1") packer 900 s (reflexivity _) Hstep) as (r & Hres & _). by rewrite Hres.
Defined.

(** * A pinned order *)

Definition two_laminators : ProductionMapDefinition :=
  let laminator id := (mk_node id NodeKind.Apparatus "Laminator" ("apparatus:code:" +:+ id) None "")
                        <| alternative_group_id := "lamination" |> in
  mk_map "zakaz-17"
    [mk_node "start" NodeKind.Start "Start" "" None ""; laminator "lam-1"; laminator "lam-2";
     mk_node "end" NodeKind.End_ "End" "" None ""]
    [mk_edge "start" "lam-1" ""; mk_edge "start" "lam-2" ""; mk_edge "lam-1" "end" ""; mk_edge "lam-2" "end" ""].

(** The first transfer of the order is allowed, and after it no second one is. *)
Example laminated_order_is_pinned :
  transfer_move_allowed_by_id two_laminators "apparatus:code:lam-1" "apparatus:code:lam-2" = true ∧
  (λ map, transfer_move_allowed_by_id map "apparatus:code:lam-2" "apparatus:code:lam-1") <$>
    reassign_alternative_apparatus_assignment_by_id "apparatus:code:lam-1" "apparatus:code:lam-2" "Laminator 2"
      two_laminators = Some false.
Proof. split; vm_refl. Qed.
