(* ===== verification/PlanningWitnesses.v ===== *)
(** Planned, grouped, saved and moved maps, and held, closed and deleted orders, at concrete
    plants and stores. *)
From S2P Require Import PreflightFacts Prelude RustStr F64 Json Errors Identity QueueState OrderLayout MapDefinition Formula Compiler Bfs Chain Projection SequenceMove Scheduler Progress WipRoute Lifecycle StageExecution OrderRefresh OrderStore Visibility Preflight QueueMoves Epc CutLayout Paddon Metrics Lineage RunStore Warehouse QueueCommit Materials MaterialsFacts Ids OpeningWip Pechat Automatic AutomaticFacts Transfer MapSave MapSaveFacts OrderControl OrderControlFacts QueueFacts QueueExecution QueueExecutionFacts Samples CodecSamples FlowWitnesses InputWitnesses CommitWitnesses MaterialWitnesses.

#[local] Existing Instance json_tree.
#[local] Existing Instance ascii_tables.
#[local] Instance ascii_case : UnicodeCase := {| unicode_uppercase := id; unicode_lowercase := id |}.
#[local] Instance tree_input_route : Serde WipInputRoute :=
  {| to_value _ := TNull : value; from_value _ := None |}.
#[local] Open Scope Z_scope.

(** * A plant *)

Definition plant_machine (operation : ExecutionOperation.t) (technology : ProcessTechnology.t)
    (capability : Capability.t) (class : string) (max_width : option Z) (name : string)
  : RuntimeApparatusConfiguration :=
  let id := mk_ApparatusId ("apparatus:code:" +:+ name) in
  {| runtime_row := row id; runtime_display_name := name;
     runtime_capabilities := [(capability, 3)]; runtime_lifecycle := LifecycleActive;
     runtime_operation := operation; runtime_technology := technology;
     queue_row := row id; material_row := row id; capacity_row := row id;
     config_capacity_slots := 1; config_setup_minutes := 0; config_cleanup_minutes := 0;
     config_efficiency_percent := 100; config_finite_capacity := true; config_working_windows := [];
     config_color_station_count := Some 8; config_min_web_width_mm := None;
     config_max_web_width_mm := max_width; config_capability_compatible_reroute := true;
     config_equipment_class_id := class; config_virtual_tasks := VirtualTasksDisabled;
     config_discipline := DisciplineStrictSequence;
     config_material_policy := NotRequired []; config_tooling := ToolingNotRequired |}.

Definition printer := plant_machine ExecutionOperation.Print ProcessTechnology.Flexographic Capability.Print
  "equipment-class:printing" (Some 1600).
Definition laminator := plant_machine ExecutionOperation.Laminate ProcessTechnology.AdhesiveLamination
  Capability.Laminate "equipment-class:lamination" None.
Definition slitter := plant_machine ExecutionOperation.Cut ProcessTechnology.Slitting Capability.Cut
  "equipment-class:cutting" (Some 1600).

Definition three_shops : list RuntimeApparatusConfiguration :=
  [printer "flexo-1"; printer "flexo-2"; laminator "lam-1"; laminator "lam-2"; slitter "rezka-1"].

(** * Planning *)

Definition tenths (n : Z) : f64 := f64_div (f64_of_Z n) (f64_of_Z 10).

Definition lane_product (name : string) (width : f64) (count : Z) : OrderProduct := {|
  product_id := name; product_item_code := name; product_product := name;
  frame_product_size_mm := width; product_frame_count := count |}.

Definition laminated (products : list OrderProduct) : CalculateOrderTemplate := {|
  template_combo := None; template_products := products;
  template_production_options :=
    Some {| options_print_method := Flexo; options_cold_glue := false; options_diameter_mm := None |};
  template_order_number := "18"; template_customer := "Lazzat"; template_item_code := "film";
  template_product := "Film"; template_status := "Rulon"; template_image_id := "";
  template_frame_product_size_mm := f64_of_Z 300; template_frame_count := f64_of_Z 4;
  template_print_val_size_mm := None; template_roll_count := Some 6; template_layers := 2 |}.

(** Four frames of 300 mm are printed at 1200 mm, too wide for the laminators: they are cut
    into strips of three frames and of one. *)
Definition planned_order := plan_map (laminated []) three_shops (f64_of_Z 1200) (f64_of_Z 500) (Some (f64_of_Z 3000)).

Lemma planned_map_compiles_witness :
  planned_order ≠ Err None ∧
  (λ m, (node_id <$> map_nodes m, rezka_frame_groups <$> find_node m "pre_lamination_cut_0")) <$> planned_order =
    Ok (["start"; "print_0"; "print_1"; "pre_lamination_cut_0"; "laminate_0"; "laminate_1"; "final_cut_0"; "end"],
        Some [3; 1]).
Proof.
  split; [|vm_refl].
  assert (Hv : List.Forall valid_machine three_shops) by (repeat (constructor; [split; reflexivity|]); constructor).
  unfold planned_order. apply planned_map_compiles; [|vm_refl..].
  intros a Ha. apply list_elem_of_In in Ha. exact (proj1 (List.Forall_forall valid_machine three_shops) Hv a Ha).
Defined.

(** Lanes of 600, 300 and 400 mm: two strips, never one. *)
Definition three_lanes : list f64 := [f64_of_Z 600; f64_of_Z 300; f64_of_Z 400].

Lemma layout_strips_are_fewest_witness :
  best_layout_groups (f64_of_Z 1300) three_lanes [laminator "lam-1"] = Some [2; 1] ∧
  ∀ other, strip_division (lamination_fits (laminator "lam-1")) three_lanes other → (2 ≤ length other)%nat.
Proof.
  assert (Hg : best_layout_groups (f64_of_Z 1300) three_lanes [laminator "lam-1"] = Some [2; 1]) by vm_refl.
  split; [exact Hg|]. intros other Hd.
  assert (Hno : existsb (λ a, lamination_fits a (f64_of_Z 1300)) [laminator "lam-1"] = false) by vm_refl.
  pose proof (layout_strips_are_fewest (f64_of_Z 1300) three_lanes [laminator "lam-1"] Hno) as H.
  rewrite Hg in H. exact (proj2 H _ other (list_elem_of_here _ _) Hd).
Defined.

(** The search adds up a strip from its last lane, the plan from its first: five lanes whose
    sum is 1050 mm one way and a little more the other are given to the laminator in one
    strip, and then refused by it. *)
Definition drifting : list OrderProduct :=
  [lane_product "a" (tenths 3676) 1; lane_product "b" (tenths 375) 1; lane_product "c" (tenths 2163) 1;
   lane_product "d" (tenths 3292) 1; lane_product "e" (tenths 994) 1].

Example planned_strip_is_refused :
  let ws := lane_width_mm <$> lanes drifting "" "" in
  layout_groups_for (lamination_fits (laminator "lam-1")) ws = Some [5] ∧
  (forallb (lamination_fits (laminator "lam-1")) <$> group_widths ws [5]) = Some false ∧
  plan_map (laminated drifting) three_shops (f64_of_Z 1100) (f64_of_Z 500) (Some (f64_of_Z 3000)) =
    Err (Some "Laminatsiya: mos faol apparat topilmadi").
Proof. split_and!; vm_refl. Qed.

(** * Widths *)

(** A web of 1200 mm cut into strips of 900 mm and 300 mm in front of a laminator. *)
Definition cut_before_lamination : ProductionMapDefinition :=
  let m := mk_map "zakaz-18"
    [mk_node "start" NodeKind.Start "Start" "" None "";
     (mk_node "cut" NodeKind.Apparatus "Cut" "apparatus:code:rezka-1" None "")
       <| rezka_kadr_count := Some 4 |> <| rezka_frame_groups := [3; 1] |>;
     mk_node "lam" NodeKind.Apparatus "Laminator" "apparatus:code:lam-1" None "";
     mk_node "end" NodeKind.End_ "End" "" None ""]
    [mk_edge "start" "cut" ""; mk_edge "cut" "lam" ""; mk_edge "lam" "end" ""] in
  with_plan_numbers (f64_of_Z 1200) (f64_of_Z 500) (f64_of_Z 3000) None 6 m.

Definition slitters : gset ApparatusId := {[mk_ApparatusId "apparatus:code:rezka-1"]}.

Lemma stage_widths_are_exact_witness :
  map_width_mm cut_before_lamination = Some (f64_of_Z 1200) ∧
  stage_input_widths cut_before_lamination "lam" slitters = [f64_of_Z 900; f64_of_Z 300] ∧
  ((∃ id, upstream cut_before_lamination slitters (f64_of_Z 1200) "lam" id ∧
      f64_of_Z 300 ∈ (visit_width cut_before_lamination slitters (f64_of_Z 1200) id).1) ∨
   f64_of_Z 300 = f64_of_Z 1200 ∧ ∀ id, upstream cut_before_lamination slitters (f64_of_Z 1200) "lam" id →
     (visit_width cut_before_lamination slitters (f64_of_Z 1200) id).1 = []).
Proof.
  assert (Hw : map_width_mm cut_before_lamination = Some (f64_of_Z 1200)) by reflexivity.
  assert (Hs : stage_input_widths cut_before_lamination "lam" slitters = [f64_of_Z 900; f64_of_Z 300]) by vm_refl.
  split; [exact Hw|]. split; [exact Hs|].
  apply (proj1 (stage_widths_are_exact cut_before_lamination "lam" slitters _ (f64_of_Z 300) Hw)).
  rewrite Hs. right. left.
Defined.

(** * Saving *)

Definition shop (id : ApparatusId) : pm_result (option RuntimeApparatusConfiguration) :=
  Ok (List.find (λ a, bool_decide (row_apparatus_id (runtime_row a) = id)) three_shops).

Definition shop_node (id name : string) : ProductionMapNode :=
  mk_node id NodeKind.Apparatus name ("apparatus:code:" +:+ name) None "".

(** Printed on one machine, laminated on either of two, drawn without a group. *)
Definition drawn_map (id : string) (kg : Z) (nodes : list ProductionMapNode) (edges : list ProductionMapEdge)
  : ProductionMapDefinition :=
  let m := with_plan_numbers (f64_of_Z 900) (f64_of_Z kg) (f64_of_Z 3000) None 6
    (mk_map id ([mk_node "start" NodeKind.Start "Start" "" None ""; shop_node "print" "flexo-1";
                 shop_node "lam_a" "lam-1"; shop_node "lam_b" "lam-2"] ++ nodes ++
                [mk_node "end" NodeKind.End_ "End" "" None ""])
      ([mk_edge "start" "print" ""; mk_edge "print" "lam_a" ""; mk_edge "print" "lam_b" ""] ++ edges)) in
  {| map_combo := map_combo m; map_products := map_products m; map_id := map_id m;
     map_product_code := map_product_code m; map_title := map_title m; map_code := map_code m;
     map_order_number := "20"; map_customer_name := map_customer_name m; map_image_id := map_image_id m;
     map_roll_count := map_roll_count m; map_width_mm := map_width_mm m;
     map_print_val_size_mm := map_print_val_size_mm m; map_order_kg := map_order_kg m;
     map_base_length := map_base_length m; map_duplicate_rezka_labels := map_duplicate_rezka_labels m;
     map_include_bobina_in_net := map_include_bobina_in_net m;
     map_standard_print_side := map_standard_print_side m; map_nodes := map_nodes m; map_edges := map_edges m |}.

Definition to_the_end : list ProductionMapEdge := [mk_edge "lam_a" "end" ""; mk_edge "lam_b" "end" ""].
Definition first_drawing : ProductionMapDefinition := drawn_map "zakaz-20" 500 [] to_the_end.
(** A slitter is added after the laminators. *)
Definition with_slitter (id : string) (kg : Z) : ProductionMapDefinition :=
  drawn_map id kg [shop_node "slit" "rezka-1"]
    [mk_edge "lam_a" "slit" ""; mk_edge "lam_b" "slit" ""; mk_edge "slit" "end" ""].

Definition empty_shop : run_store :=
  with_tables {| os_orders := sample_store <| st_maps := ∅ |> <| st_order_run_sessions := ∅ |>
                                <| st_order_progress_batches := ∅ |> <| st_lifecycles := ∅ |>;
                 os_sequences := {["apparatus:code:lam-1" := ["zakaz-20"; "zakaz-21"];
                                   "apparatus:code:lam-2" := ["zakaz-22"]]};
                 os_freeze_requests := ∅ |} finished_store.
Definition drawn_shop : run_store := (upsert_map shop first_drawing empty_shop).1.

Definition groups_in (s : run_store) : option (list string) :=
  (λ m, alternative_group_id <$> map_nodes m) <$> st_maps s !! "zakaz-20".

(** The laminators become one group, named after the first of them. *)
Example laminators_are_grouped :
  groups_in drawn_shop = Some [""; ""; "topology_alt:lam_a"; "topology_alt:lam_a"; ""].
Proof. vm_refl. Qed.

(** The order is being printed. *)
Definition printing_run : RunSession := {|
  run_session := {| session_id := "s-20"; session_apparatus := "apparatus:code:flexo-1";
    session_order_id := "zakaz-20"; session_stage_node_id := "print"; session_status := RunStatus.Active;
    session_worker_role := "operator"; session_worker_ref := "w-1"; session_worker_display_name := "Ali";
    session_started_at_unix := 100; session_updated_at_unix := 100 |};
  session_payload_json := (TObj [] : value) |}.
Definition printing_shop : run_store := with_sessions {["s-20" := printing_run]} drawn_shop.

Definition edited : run_result ProductionMapSaved :=
  prepare_map shop (with_slitter "zakaz-20" 500) false printing_shop.

Lemma started_stages_are_kept_witness :
  ∃ saved previous n, edited = Ok saved ∧ raw_map (map_id (saved_map saved)) printing_shop = Some previous ∧
    n ∈ map_nodes previous ∧ node_id n = "print" ∧
    opt_eqb node_eqb (find_node previous "print") (find_node (saved_map saved) "print") = true ∧
    (∀ e, e ∈ map_edges previous → edge_to e = "print" → e ∈ map_edges (saved_map saved)).
Proof.
  assert (Hs : ∃ saved, edited = Ok saved ∧ map_id (saved_map saved) = "zakaz-20").
  { assert (H : (λ s, map_id (saved_map s)) <$> edited = Ok "zakaz-20") by vm_refl.
    destruct edited as [saved|]; [|discriminate H]. exists saved. split; [reflexivity|]. injection H as H. exact H. }
  destruct Hs as (saved & Hs & Hid).
  assert (Hp : ∃ previous, raw_map "zakaz-20" printing_shop = Some previous ∧
    (∃ n, n ∈ map_nodes previous ∧ node_id n = "print" ∧ is_machine n = true ∧
       canonical_apparatus_id n = Some (mk_ApparatusId "apparatus:code:flexo-1")) ∧
    map_id previous = "zakaz-20").
  { assert (H : (λ p, (map_id p, (λ n, (is_machine n, canonical_apparatus_id n)) <$> find_node p "print")) <$>
                  raw_map "zakaz-20" printing_shop =
                Some ("zakaz-20", Some (true, Some (mk_ApparatusId "apparatus:code:flexo-1")))) by vm_refl.
    destruct (raw_map "zakaz-20" printing_shop) as [previous|]; [|discriminate H].
    injection H as Hid' H. destruct (find_node previous "print") as [n|] eqn:En; [|discriminate H].
    injection H as Hm Hc. apply find_node_elem in En as [Hn Hnid].
    exists previous. split; [reflexivity|]. split; [|exact Hid']. exists n. auto. }
  destruct Hp as (previous & Hp & (n & Hn & Hnid & Hm & Hc) & Hpid).
  exists saved, previous, n. rewrite Hid.
  destruct (started_stages_are_kept shop (with_slitter "zakaz-20" 500) false printing_shop saved previous n
    (mk_ApparatusId "apparatus:code:flexo-1") n) as (_ & Hsame & Hin & _).
  - exact Hs.
  - rewrite Hid. exact Hp.
  - exact Hn.
  - exact Hm.
  - exact Hc.
  - rewrite Hpid. apply (worked_in_run _ _ _ _ printing_run); [|vm_refl].
    assert (E : order_run_sessions_for_order "zakaz-20" printing_shop = [printing_run]) by vm_refl.
    change (trim "zakaz-20") with "zakaz-20". rewrite E. left.
  - exact Hn.
  - left. reflexivity.
  - rewrite Hnid in Hsame, Hin. split_and!; assumption.
Defined.

(** The edge into the print stage may not go. *)
Example started_route_is_locked :
  prepare_map shop (with_graph first_drawing (map_nodes first_drawing)
      [mk_edge "start" "lam_a" ""; mk_edge "lam_a" "print" ""; mk_edge "print" "lam_b" "";
       mk_edge "lam_b" "end" ""]) false printing_shop =
    Err (Fail StartedProductionMapStageLocked).
Proof. vm_refl. Qed.

(** Two equal edges into a started stage may become one of them and another. *)
Example repeated_edge_is_exchanged :
  let before := with_graph first_drawing (map_nodes first_drawing)
    (mk_edge "start" "print" "" :: map_edges first_drawing) in
  let after := with_graph first_drawing (map_nodes first_drawing)
    (mk_edge "lam_a" "print" "" :: map_edges first_drawing) in
  check_locked_nodes {["print"]} before after = Ok tt ∧ edge_from <$> edges_into_locked {["print"]} after = ["lam_a"; "start"].
Proof. split; vm_refl. Qed.

(** The calculation of an opened order is locked, unless its id is written in capitals. *)
Example opened_order_is_reached_in_capitals :
  (upsert_map shop (with_slitter "zakaz-20" 700) drawn_shop).2 = Err (Fail OpenedOrderCalculationLocked) ∧
  (λ s, (map_id (saved_map s), map_order_kg (saved_map s))) <$> (upsert_map shop (with_slitter "ZAKAZ-20" 700) drawn_shop).2 =
    Ok ("zakaz-20", Some (f64_of_Z 700)).
Proof. split; vm_refl. Qed.

(** * Moving *)

Definition moved_shop := move_apparatus shop (Ok three_shops) "Zakaz-20" "apparatus:code:lam-1" "apparatus:code:lam-2" drawn_shop.

(** Orders without a map leave both queues. *)
Example laminated_order_moves :
  is_ok moved_shop.2 = true ∧
  os_sequences (ts_tables moved_shop.1) !! "apparatus:code:lam-1" = Some [] ∧
  os_sequences (ts_tables moved_shop.1) !! "apparatus:code:lam-2" = Some ["zakaz-20"].
Proof. split_and!; vm_refl. Qed.

(** * Holds *)

(** The print run is paused. *)
Definition paused_run : RunSession :=
  {| run_session := (run_session printing_run) <| session_status := RunStatus.Paused |>;
     session_payload_json := (TObj [] : value) |}.
Definition paused_shop : run_store :=
  let s := with_sessions {["s-20" := paused_run]} drawn_shop in
  with_orders ((os_orders s) <| st_queue_states := {["apparatus:code:flexo-1" := {["zakaz-20" := "paused"]}]} |>) s.

Definition event_times (k : nat) : Z := 1000 + Z.of_nat k.
Definition office : QueueActionActor :=
  {| actor_role := "admin"; actor_ref := "a-1"; actor_display_name := "Vali" |}.
Definition hold_order (comment : option string) (s : run_store) :=
  request_order_stop shop event_times 900 "zakaz-20" "order-freeze-request_1" office comment s.
Definition held_shop := hold_order None paused_shop.
Definition release_order (s : run_store) := unfreeze_order shop event_times 950 "zakaz-20" office s.
Definition released_shop := release_order held_shop.1.

Definition stands (s : run_store) : option string * option RunStatus.t * option OrderControl.t :=
  (st_queue_states s !! "apparatus:code:flexo-1" ≫= lookup "zakaz-20",
   (λ x : RunSession, session_status x) <$> st_order_run_sessions s !! "s-20",
   control_state <$> st_order_controls s !! "zakaz-20").

(** The paused run is frozen with its queue, and paused again when the order is released. *)
Example held_and_released :
  (is_ok held_shop.2, stands held_shop.1) =
    (true, (Some "frozen", Some RunStatus.Frozen, Some OrderControl.Frozen)) ∧
  (is_ok released_shop.2, stands released_shop.1) =
    (true, (Some "pending", Some RunStatus.Paused, Some OrderControl.Active)).
Proof. split; vm_refl. Qed.

Lemma canonical_keys_checked {A} (rows : gmap string A) :
  forallb ApparatusId_is_valid (btree_keys rows) = true → canonical_keys rows.
Proof.
  intros H a Ha%elem_of_btree_keys. rewrite forallb_elem in H. by apply H.
Qed.

Lemma released_orders_wait_in_their_queues_witness :
  canonical_keys (st_queue_states held_shop.1) ∧
  (is_ok released_shop.2 = true ∧
   ∃ record, control_state record = OrderControl.Active ∧ back_in_queues record held_shop.1 released_shop.1).
Proof.
  assert (Hk : canonical_keys (st_queue_states held_shop.1)) by (apply canonical_keys_checked; vm_refl).
  assert (Hok : is_ok released_shop.2 = true) by vm_refl.
  split; [exact Hk|]. split; [exact Hok|].
  destruct (released_orders_wait_in_their_queues shop event_times 950 OrderControl.Frozen "zakaz-20" office
              held_shop.1 released_shop.1 released_shop.2 Hk) as [[_ H]|(record & _ & Ha & _ & Hb & _)].
  - unfold released_shop, release_order, unfreeze_order. by destruct (transition_order_control _ _ _ _ _ _ _).
  - rewrite Hok in H. discriminate H.
  - exists record. split; [exact Ha|exact Hb].
Defined.

(** The order is closed early while its run is paused. *)
Definition closed_shop := hold_order (Some "customer cancelled") paused_shop.

Lemma stopped_orders_are_held_witness :
  holds_wf paused_shop ∧
  ∃ r, closed_shop = (closed_shop.1, Ok r) ∧ control_state r ≠ OrderControl.Active ∧
    require_active_order "zakaz-20" "apparatus:code:lam-1" closed_shop.1 ≠ Ok tt ∧
    hold_order (Some "customer cancelled") closed_shop.1 = (closed_shop.1, Ok r).
Proof.
  assert (Hwf : holds_wf paused_shop).
  { assert (E : st_order_controls paused_shop = ∅) by vm_refl.
    intros id c. rewrite E, lookup_empty. discriminate. }
  assert (Hheld : ∀ (s0 s1 : run_store) r, holds_wf s0 → hold_order (Some "customer cancelled") s0 = (s1, Ok r) →
    control_state r ≠ OrderControl.Active ∧ require_active_order "zakaz-20" "apparatus:code:lam-1" s1 ≠ Ok tt ∧
    hold_order (Some "customer cancelled") s1 = (s1, Ok r)).
  { intros s0 s1 r H0 Hr. unfold hold_order in Hr |- *.
    destruct (stopped_orders_are_held shop event_times 900 "zakaz-20" "order-freeze-request_1" office
      (Some "customer cancelled") s0 s1 r H0 Hr) as (Hn & _ & _ & Ha & Hc).
    split; [exact Hn|]. split; [apply Ha|]. exact (proj2 (Hc "customer cancelled" eq_refl) event_times 900 _ office). }
  split; [exact Hwf|].
  assert (Hok : is_ok closed_shop.2 = true) by vm_refl.
  apply ok_pair in Hok as [r Hr]. exists r. split; [exact Hr|]. exact (Hheld paused_shop closed_shop.1 r Hwf Hr).
Defined.

(** * Deletion *)

(** Two orders nobody worked on, the second behind the first. *)
Definition waiting_store : material_store := {|
  ms_runs := with_tables {|
      os_orders := (os_orders drawn_shop)
        <| st_maps := <["zakaz-21" := drawn_map "zakaz-21" 500 [] to_the_end]> (st_maps drawn_shop) |>
        <| st_lifecycles := <["zakaz-21" := released "zakaz-21"]> (st_lifecycles drawn_shop) |>;
      os_sequences := {["apparatus:code:flexo-1" := ["zakaz-20"; "zakaz-21"]]};
      os_freeze_requests := ∅ |} drawn_shop;
  ms_assignments := ∅ |}.
Definition delete_from (id : string) := delete_order shop (Ok three_shops) id waiting_store.

Definition blocker_codes (r : pm_result string) : list string :=
  match r with Err (OrderDeleteBlocked blockers) => blocker_code <$> blockers | _ => [] end.

Example head_of_queue_is_kept : blocker_codes (delete_from "zakaz-20").2 = ["first_in_sequence"].
Proof. vm_refl. Qed.

Lemma deleted_orders_were_untouched_witness :
  delete_from "zakaz-21" = ((delete_from "zakaz-21").1, Ok "zakaz-21") ∧
  untouched "zakaz-21" waiting_store ∧ forgets "zakaz-21" waiting_store (delete_from "zakaz-21").1.
Proof.
  assert (Hr : (delete_from "zakaz-21").2 = Ok "zakaz-21") by vm_refl.
  assert (H : delete_from "zakaz-21" = ((delete_from "zakaz-21").1, Ok "zakaz-21")).
  { rewrite <-Hr. by destruct (delete_from "zakaz-21"). }
  split; [exact H|].
  generalize (delete_from "zakaz-21").1, H. unfold delete_from. generalize waiting_store. intros s s' H'.
  destruct (deleted_orders_were_untouched shop (Ok three_shops) "zakaz-21" s s' _ H') as (_ & Hu & _ & Hf).
  split; [exact Hu|exact Hf].
Defined.

(** * Actions at a queue *)

Definition reports_nothing : QueueProgressInput := {|
  qp_lamination_layer_dispositions_attached := false; qp_rezka_output_cycle := "";
  qp_rezka_expected_kadr_counts := []; qp_uom := ""; qp_force_full_completion_metrics := false;
  qp_allow_partial_station_completion := false;
  qp_complete_without_output := false; qp_freeze_request_id := ""; qp_freeze_with_issue := false;
  qp_rezka_frames := []; qp_rezka_record_frame_index := None; qp_produced_qty := None; qp_gross_qty := None;
  qp_progress_batch_id := ""; qp_qr_payload := ""; qp_return_ink_kg := None;
  qp_lamination_print_leftover_rolls := None; qp_lamination_film_leftover_rolls := None;
  qp_rezka_bosma_waste := None; qp_rezka_lamination_waste := None; qp_rezka_edge_waste := None;
  qp_total_waste := None; qp_finished_goods_kg := None; qp_bobina_kg := None; qp_finished_goods_meter := None;
  qp_diameter := None; qp_description := ""; qp_returned_paint_report_attached := false;
  qp_worker_handoff := false; qp_remove_roll_from_apparatus := false |}.

Definition acts_on (apparatus order_id : string) (action : Action.t) : QueueActionRequest := {|
  qr_apparatus := apparatus; qr_order_id := order_id; qr_action := action;
  qr_assigned_apparatus := [apparatus]; qr_actor := office; qr_progress := reports_nothing |}.


(** A released order waits at a machine that leaves the choice to the operator, where another order
    is on trial. *)
Definition free_press : RuntimeApparatusConfiguration :=
  let c := printer "flexo-1" in
  {| runtime_row := runtime_row c; runtime_display_name := runtime_display_name c;
     runtime_capabilities := runtime_capabilities c; runtime_lifecycle := runtime_lifecycle c;
     runtime_operation := runtime_operation c; runtime_technology := runtime_technology c;
     queue_row := queue_row c; material_row := material_row c; capacity_row := capacity_row c;
     config_capacity_slots := 1; config_setup_minutes := 0; config_cleanup_minutes := 0;
     config_efficiency_percent := 100; config_finite_capacity := true;
     config_working_windows := config_working_windows c;
     config_color_station_count := Some 8; config_min_web_width_mm := None;
     config_max_web_width_mm := Some 1600; config_capability_compatible_reroute := true;
     config_equipment_class_id := config_equipment_class_id c;
     config_virtual_tasks := VirtualTasksDisabled; config_discipline := DisciplineFreePick;
     config_material_policy := NotRequired []; config_tooling := ToolingNotRequired |}.
Definition free_shop (id : ApparatusId) : pm_result (option RuntimeApparatusConfiguration) :=
  if apparatus_id_str id =s "apparatus:code:flexo-1" then Ok (Some free_press) else shop id.

Definition at_flexo (rows : gmap string string) (s : run_store) : execution_store := {|
  es_materials := {|
    ms_runs := with_orders ((os_orders s) <| st_queue_states := {["apparatus:code:flexo-1" := rows]} |>) s;
    ms_assignments := ∅ |};
  es_downtimes := ∅ |}.
Definition trial_shop : execution_store :=
  at_flexo {["zakaz-20" := "pending"; "zakaz-21" := "print_preflight"]} released_shop.1.
Definition joined_shop : execution_store :=
  at_flexo {["zakaz-20" := "in_progress"; "zakaz-21" := "print_preflight"]} released_shop.1.

Definition comes_back : QueueActionRequest := acts_on "apparatus:code:flexo-1" "zakaz-20" Action.Resume.
Definition coming_back := prepare_queue_change (H0 := utc_clock) free_shop 1000 false comes_back trial_shop.

(** The queue the action finds and the queue it leaves. *)
Definition on_trial : queue_states := {["zakaz-20" := OrderState.Pending; "zakaz-21" := OrderState.PrintPreflight]}.
Definition both_active : queue_states :=
  {["zakaz-20" := OrderState.InProgress; "zakaz-21" := OrderState.PrintPreflight]}.

Example requeued_work_joins_a_trial :
  (λ ch, (ch_branch ch, effective_apparatus_queue_policy (ch_canonical ch), ch_found ch,
          parsed_queue_states (ch_states ch))) <$> coming_back =
    Ok (ResumesRequeued, FreePick, on_trial, both_active) ∧
  machine_queue "apparatus:code:flexo-1" trial_shop = on_trial ∧
  machine_queue "apparatus:code:flexo-1" joined_shop = both_active.
Proof. split_and!; vm_refl. Qed.

Lemma on_trial_single : single_active on_trial.
Proof.
  assert (∀ k, OrderState.is_active (state_of on_trial k) = true → k = "zakaz-21") as Hk.
  { intros k. unfold on_trial, state_of. destruct (decide (k = "zakaz-20")) as [->|H20]; [by vm_compute|].
    destruct (decide (k = "zakaz-21")) as [->|H21]; [done|].
    by rewrite lookup_insert_ne, lookup_singleton_ne by done. }
  by intros k1 k2 ->%Hk ->%Hk.
Qed.

Lemma both_active_not_single : ¬ single_active both_active.
Proof. intros H. specialize (H "zakaz-20" "zakaz-21" eq_refl eq_refl). by vm_compute in H. Qed.

Lemma free_press_one_slot : has_one_slot free_shop "apparatus:code:flexo-1".
Proof.
  intros id c Hid Hc. assert (Hsome : canonical_id "apparatus:code:flexo-1" = Some (mk_ApparatusId "apparatus:code:flexo-1"))
    by vm_refl.
  rewrite Hsome in Hid. injection Hid as <-. unfold free_shop in Hc. simpl in Hc. by injection Hc as <-.
Qed.

Lemma machines_run_one_order_witness :
  history (H0 := utc_clock) free_shop "apparatus:code:flexo-1" true trial_shop joined_shop ∧
  ¬ single_active (machine_queue "apparatus:code:flexo-1" joined_shop) ∧
  runs_one (machine_queue "apparatus:code:flexo-1" joined_shop).
Proof.
  destruct requeued_work_joins_a_trial as (Hch & Ht & Hj). unfold coming_back in Hch.
  assert (Ha : trim (qr_apparatus comes_back) = "apparatus:code:flexo-1") by vm_refl.
  assert (Hid : trim (qr_order_id comes_back) = "zakaz-20") by vm_refl.
  revert Hch Ht Hj Ha Hid. generalize trial_shop joined_shop comes_back. intros s s' request Hch Ht Hj Ha Hid.
  destruct (prepare_queue_change _ _ _ _ _) as [ch|] eqn:Hprep; [|discriminate Hch].
  injection Hch as Hb Hp Hf Hs.
  assert (Hh : history (H0 := utc_clock) free_shop "apparatus:code:flexo-1" true s s').
  { apply (then_step _ _ false true s s s'); [apply no_change|].
    apply (intrudes_on _ _ 1000 false request ch); [exact Hprep|exact Ha|by rewrite Hj, Hs|].
    split; [exact Hb|]. exists "zakaz-21". rewrite Hid, Hf. split; [discriminate|]. split; [reflexivity|].
    unfold strict. rewrite Hp. discriminate. }
  split; [exact Hh|]. split; [rewrite Hj; exact both_active_not_single|].
  refine (proj2 (machines_run_one_order free_shop "apparatus:code:flexo-1" true s s' _ Hh) free_press_one_slot).
  rewrite Ht. exact on_trial_single.
Defined.

(** A press is started with its materials scanned, a laminator with the code of a waiting roll. *)
Lemma action_materials_are_checked_witness :
  check_action_materials presses (acts_on "apparatus:code:flexo-1" "zakaz-17" Action.Start)
    ["i-2"; "F-1"; "i-1"] [] with_inks =
    Ok {| mc_skipped := false; mc_reacquired := false; mc_reused := false |} ∧
  start_scanned (press flexo1) (raw_material_assignments_for_order_apparatus "zakaz-17" flexo1 with_inks) []
    (normalized_barcodes_list ["i-2"; "F-1"; "i-1"]).
Proof.
  assert (H : check_action_materials presses (acts_on "apparatus:code:flexo-1" "zakaz-17" Action.Start)
    ["i-2"; "F-1"; "i-1"] [] with_inks =
    Ok {| mc_skipped := false; mc_reacquired := false; mc_reused := false |}) by vm_refl.
  split; [exact H|]. revert H. generalize with_inks. intros s H.
  refine (proj2 (proj2 (proj2 (proj2 (proj1 (action_materials_are_checked presses
    (acts_on "apparatus:code:flexo-1" "zakaz-17" Action.Start) flexo1 (press flexo1) s
    ["i-2"; "F-1"; "i-1"] [] _ _ _) H))))); vm_refl.
Defined.
